(* ===== verification/_CoqProject ===== *)
-Q . S2P
Prelude.v
Job.v
Gpu.v
Store.v
Queue.v
Scheduler.v
Recovery.v
Wire.v
Request.v
Response.v
Service.v
Server.v
Supervisor.v
Launch.v
Directories.v
GpuManager.v
ExitMonitor.v
LogSink.v
PosixIo.v
LogStreamer.v
LogPump.v
LogFollow.v
JobManager.v
ManagerProofs.v
Spawn.v
ManagerLoop.v
SqliteRows.v
Sqlite.v
SqliteProofs.v
Wakeup.v
Tasks.v
Client.v
Endpoint.v
Owners.v
Daemon.v
Cli.v
CliProofs.v
Nvml.v
Yorid.v
