(* ===== verification/Prelude.v ===== *)
(** * Yori: a verification development of the GPU job daemon

    Yori is a single-host GPU job scheduler: a daemon ([yorid]) that accepts
    jobs from local users over a UNIX socket, queues them in FIFO order, places
    each on one free GPU, runs it as its owner, and keeps every job and GPU
    lease in a state store that survives restarts.  This library models the
    daemon's own logic as executable Rocq definitions and proves what makes it
    correct.  Names in brackets below are definitions here; paths are relative
    to the repository.

    ** Parts of the program and where they are modelled

    - [Job.v]: [include/yori/job/job.hpp], [src/job/job.cpp].  [JobSpec] and
      [validate] (the submission limits), the job state machine
      ([can_transition], [transition_to], [create]).
    - [Gpu.v]: [include/yori/gpu/gpu_provider.hpp], [src/gpu/gpu_provider.cpp].
      Observation snapshots and their validation ([gpu_validate]), leases, the
      logical state of a device.
    - [Store.v]: [include/yori/store/state_store.hpp], [src/store/state_store.cpp],
      [src/store/mutation_core.cpp], [src/testing/in_memory_state_store.cpp].
      Stored records, [validate_execution], [apply_mutation] (the atomic
      mutation both back ends run), the interface [StateStore] (a class), its
      contract [StateStoreLaws], and the in-memory back end as an instance.
    - [Queue.v]: [src/queue/job_queue.cpp].  [GlobalJobQueue]: [queue_admit]
      with its binary search, [queue_remove], [queue_restore].
    - [Scheduler.v]: [src/scheduler/scheduler.cpp].  [run_once]: one evaluation
      (divergence check, scan window, affinity protection, selection, commit
      with queue rollback), written against [StateStore].
    - [Recovery.v]: [src/recovery/job_recovery.cpp].  [plan] and [recover]: what
      a restarted daemon does with the jobs it finds, in chunks of at most 64
      entries.
    - [Wire.v], [Request.v], [Response.v]: [src/ipc/ipc_protocol.cpp].  Byte
      writer and reader, the requests, responses and stream frames of protocol
      versions 1 to 4, frames.
    - [Service.v]: [src/ipc/ipc_service.cpp].  [handle] and all request
      handlers: authorisation, masking, GPU selectors, delegation of changes to
      the single writer (class [JobControl]), the log tail reader.
    - [Server.v]: [src/ipc/uds_io.cpp], [src/runtime/ipc_server.cpp].  Frame
      transfer over a socket ([read_frame], [write_frame]) and [serve], from a
      received frame to the reply.
    - [Client.v]: [src/ipc/uds_client.cpp], [src/ipc/ipc_transport.cpp].  [call]
      and [follow] of the client library.
    - [Endpoint.v]: [src/runtime/ipc_server.cpp].  The server's socket:
      [server_start], [server_stop], the worker's rounds.
    - [Supervisor.v]: [src/process/process_supervisor.cpp], the timer of
      [src/runtime/grace_escalation.cpp].  The phases of a supervised process and
      the signals sent in them, wait statuses, the [/proc] parser, identities.
    - [Spawn.v]: [src/process/process_supervisor.cpp].  What is behind
      [ProcessSupervisor::spawn]: pipes, [fork], the child down to its program
      ([run_child], [child_exec]), the report to the parent
      ([wait_for_exec_confirmation]); and a supervisor's whole session of calls
      ([sup_call]) with the signals it sends.
    - [Launch.v]: [src/launch/launch_adapter.cpp],
      [src/launch/environment_capture.cpp].  Launch plans ([prepare]), the layers
      of a job's environment, environment capture, executable resolution.
    - [Directories.v]: the log directory checks of
      [src/runtime/job_manager.cpp] ([prepare_log_root], [ensure_job_directory]).
    - [GpuManager.v]: [src/runtime/gpu_manager.cpp].  Sampling ([sample_once]),
      published snapshots, change and error events, [gpu_start], stopping.
    - [ExitMonitor.v]: [src/runtime/process_exit_monitor.cpp].  Registration of
      processes, scans ([scan_registered]) over the kernel's process table
      (class [ProcessTable] with [ProcessTableLaws]), delivery of exits.
    - [LogSink.v]: [src/observe/log_sink.cpp].  A job's log files: [sink_open],
      [sink_append] with rotation and drop markers, over the interface [LogIo]
      (contract [LogIoLaws], instance [FileSystem]).  [PosixIo.v]: its default
      implementation [PosixLogIo] over the kernel's answers, as an instance.
    - [LogStreamer.v]: [src/runtime/log_streamer.cpp].  The live windows of all
      jobs, publication, sessions ([subscribe]) and replay plans.
    - [LogPump.v]: [src/runtime/log_pump.cpp] and the bridge of
      [src/runtime/job_manager.cpp].  From the pipes of the processes to sinks
      and streamer.
    - [LogFollow.v]: [src/runtime/log_follow_service.cpp].  The sessions of
      [logs -f]: [begin_stream], [advance_session], the worker's [cycle_once].
    - [JobManager.v], [ManagerProofs.v]: [src/runtime/job_manager.cpp].  The
      daemon's single writer ([worker_step]): submission, cancellation,
      scheduling, launch, exits, adoption after recovery, stopping.
      [ManagerLoop.v]: the loop of its thread ([run_loop]) with the command
      channel and its acknowledgements.
    - [Wakeup.v]: the wake pipes of the workers in
      [src/runtime/process_exit_monitor.cpp], [job_manager.cpp], [log_pump.cpp]
      and [log_follow_service.cpp], as a step relation ([wake_step]).
    - [Owners.v]: the owners of those workers: [manager_start], [manager_stop],
      [pump_start], [follow_start] and the calls of other threads.
    - [SqliteRows.v], [Sqlite.v], [SqliteProofs.v]:
      [src/store/sqlite_state_store.cpp].  The row codec, the tables with the
      schema and migration scripts, [sqlite_open], [sqlite_load] and
      [sqlite_apply] over the interface [Sqlite] (the statements the code
      prepares, contracts [SqliteLaws] and [SqliteReliable]).
    - [Tasks.v]: [src/runtime/store_task_runner.cpp],
      [src/runtime/scheduler_task_runner.cpp],
      [src/runtime/serial_state_store.cpp], [src/runtime/grace_escalation.cpp].
      Store writes and scheduling rounds as executor tasks, the serialising
      store wrapper, the owner of the cancellation timer.
    - [Nvml.v]: [src/gpu/nvml_gpu_provider.cpp].  [nvml_load], [nvml_observe],
      [nvml_teardown] over the answers of NVML.
    - [Daemon.v]: [src/runtime/daemon.cpp].  The composition: [daemon_start] with
      the releases of each failure, [daemon_stop], the life times of the parts.
    - [Yorid.v]: [src/runtime/executor_runtime.cpp], [apps/yorid/main.cpp].  The
      daemon's process: options, start, the wait for a signal, the end.
    - [Cli.v], [CliProofs.v]: [apps/yori/main.cpp].  The commands of [yori].

    The client of a request talks to [serve], which decodes with [Request.v],
    runs [handle] of [Service.v] and encodes with [Response.v]; [handle] reads
    the store through [StateStore] and writes through [JobControl].  The
    scheduler and recovery write through [StateStore] and keep [GlobalJobQueue]
    in step; all stored state changes are [apply_mutation].  The job manager
    runs them all: it calls [run_once], starts what was scheduled with
    [prepare] and the supervisor, attaches its pipes to the log pump, and learns
    of exits from the exit monitor.  The pump writes output to the sink and
    publishes what was accepted to the streamer, from which follow sessions
    read.  [Daemon.v] builds all of them and takes them down again; [Yorid.v] is
    the process around it.

    ** Modelling conventions

    Unsigned integers are [N], signed ones and clock ticks [Z]; wrap-around is
    written where the code can reach it ([usub64], [unix_ns], the byte casts of
    the wire format).  [std::string] is a byte string; [std::map] and [std::set]
    are [gmap] and [gset], iterated in key order by [map_entries].  Early
    returns are the [Result] monad ([let?], [reject_if]); objects are records
    passed and returned.  [std::sort] is [merge_sort]: the orders sorted by are
    total, so the result is determined.  Times, process facts, GPU
    observations, log contents and the kernel's answers to [poll], [read] and
    [send] are arguments; a theorem holds for all of them.

    ** What the theorems show

    - Jobs: [validate_ok_iff], [validate_argument_error] (validation accepts
      exactly the specifications in [SpecOk] and reports the right argument),
      [job_lifecycle], [terminal_absorbing].
    - GPUs: [gpu_validate_ok_iff].
    - Store: [store_reachable_ok] (in every reachable state records are valid
      and exactly the active jobs hold one lease each), [apply_mutation_history]
      (a successful mutation moves each job along the state machine or leaves
      it), [in_memory_session], [validate_execution_none_iff].
    - Queue: [queue_session_ok] (order, uniqueness, bound), [queue_admit_spec],
      [queue_restore_spec], [remove_admit_rollback], [lower_bound_position]
      (the binary search finds the FIFO position).
    - Scheduler: [run_once_refines] (every evaluation is a step of the abstract
      scheduler [schedule_step] and keeps queue and store in agreement),
      [run_once_scheduled], [run_once_choice], [run_once_no_candidate],
      [run_once_progress], [run_once_failure_atomic],
      [required_wait_reason_spec].
    - Recovery: [recover_exact], [recover_failure], [recover_idempotent],
      [recover_active_verified], [recover_ok_iff_clock].
    - Protocol: [request_frame_round_trip] (with the one request that is encoded
      but rejected, INSPECT of version 1), [response_frame_round_trip],
      [stream_frame_round_trip], [no_trailing_bytes].
    - Service: [query_noninterference] (a peer's answers do not depend on data
      it may not see), [handle_writes] and [handle_submit_exact] and
      [handle_cancel_exact] (who can change what), [queue_view_fifo],
      [gpu_view_exact], [resolve_gpu_spec_list_exact], [read_tail_exact].
    - Server and client: [frame_transfer], [serve_reply]; [rpc_exact] and
      [rpc_delivers] (a call returns the service's answer, or an error that says
      what failed), [follow_stream_exact]; [start_exact], [endpoint_session],
      [run_serves].
    - Processes: [supervisor_signals] (which signals a supervisor ever sends, and
      to whom, also when a [spawn] fails and when it is destroyed),
      [identity_read_exact]; [scan_exact], [monitor_accounts] (each registered
      process is reported once, truthfully, until the monitor is stopped);
      [spawn_confined] (a spawned process has exactly the descriptors, identity,
      group and directory of its plan; or there is none, which [spawn] reports
      unless the child could not tell it), [spawn_verdict],
      [child_exec_exact], [job_runs_as_owner].
    - Launch: [prepare_exact], [launch_env_protected], [capture_submittable],
      [capture_environment_exact], [resolve_executable_exact],
      [prepare_log_root_exact].
    - GPU manager: [gpu_session], [tick_exact], [stop_joins].
    - Logs: [append_exact] (bytes are accounted for and the loop ends),
      [sink_session_bounded] (disk use), [posix_write_exact]; [streamer_session], [publish_exact],
      [replay_exact]; [follow_exact] (what followers see is what was stored),
      [pump_conserves] (descriptors and completions); [begin_stream_exact],
      [live_session_exact], [follow_accounts], and two theorems that state
      defects, [reconnect_cut_off] and [flush_defined_iff].
    - Job manager: [daemon_session] (the invariant of store, queue and running
      processes over any sequence of events, from recovery on), [launch_exact],
      [launch_runs_as_owner], [process_exit_exact], [exit_recorded],
      [process_submit_exact], [process_cancel_exact] (with the signals and the
      grace timer), [stop_abandons];
      [loop_exact] (the thread handles what reaches its channel as a sequence of
      events, and answers every request), [scheduling_follows] (also when the
      channel is filled while a request is processed), [manager_life].
    - Workers: [wakeups_not_lost] (in any interleaving of the threads, what was
      put into a worker's channels is handled, in a bounded number of steps).
    - Daemon: [daemon_life] (from start to stop: all or nothing, nothing left
      behind, which signals the start sends and none at the end), [stop_order]
      (no part outlives one it refers to, callbacks included;
      [failed_start_dangles] shows the failure paths that break this);
      [yorid_life], [arguments_exact], and the defect
      [yorid_jobs_block_sigterm].
    - NVML: [observe_exact], [observe_valid], [provider_session].
    - Command line: [main_contract], [submit_parse_exact], [follow_shows],
      [parse_u64_round_trip].
    - SQLite: [job_row_roundtrip], [sqlite_session] (calls and answers are a run
      of the abstract store, through failures and reopening, and the file
      encodes the state it ends in), [sqlite_matches_memory]
      (on a working disk it answers as the in-memory store does),
      [sqlite_load_sound] (what is read from any file is valid or refused),
      [sqlite_open_migrates], and the defect [comma_uuid_poisons].
    - Tasks: [store_tasks_exact] (answers tell what was written, under any
      interleaving with the executor), [grace_quiet].

    ** Bounds and fuel

    Some loops run on fuel: [lower_bound_loop], with the length of the searched
    vector, which is enough because the searched interval shrinks in each round
    ([lower_bound_position] is stated for that fuel); [append_loop], with
    [append_fuel], which is enough because a rotation is followed by a write
    ([append_exact] says that it never runs out); [path_loop], with the length
    of the search path, of which each round takes a character
    ([child_exec_exact]); [process_commands], with [round_fuel] ([loop_fuel] for
    a whole life), enough because a request posts one wake and a wake nothing
    ([loop_exact] says that it suffices); [take_flags], with the number of
    arguments.  The budgets of [replay_loop]
    and [live_loop] are the code's own limits per cycle.  Loops that the kernel
    drives ([read_loop], [read_full], [write_full]) recurse on the script of its
    answers and are [None] while an answer is awaited; their theorems say how
    many answers suffice.  [flush_loop] is [None] where the code reads outside
    its vector.  All other loops recurse on their data.  Statistics counters are
    unbounded.

    ** Not modelled

    The SQLite engine (the statements the code prepares are the operations of a
    class, whose laws say what they do), NVML, the dynamic loader, the executor
    library (its channels, topics, timers, gates and threads answer from
    outside), the C library's user data base and the kernel: what they answer is
    an argument.  Accessors that only return a member, copy and move operations
    and the statistics' snapshots are left out.  Exceptions (allocation failure)
    are outside the model.  Each component is called by one thread at a time in
    the program; where threads meet they are interleaved in the model: the GPU
    manager's ticks with [stop], the task runners with the executor, commands
    with the manager's loop, the wake pipes.  Memory orders are those of a
    sequentially consistent machine. *)

From stdpp Require Export base tactics numbers list strings gmap sorting relations.
From Stdlib Require Export Lia NArith ZArith Ascii.

#[global] Open Scope string_scope.
#[global] Open Scope list_scope.
#[global] Open Scope N_scope.

(** ** Machine integers

    Unsigned C++ integers ([std::uint8_t], [std::uint32_t], [std::uint64_t],
    [std::size_t]) are values of [N] and signed ones ([std::int32_t],
    [std::int64_t], clock ticks) values of [Z]; wrap-around is written where
    the code can reach it. *)

Definition u8_max : N := 255.
Definition u32_max : N := 4294967295.
Definition u64_max : N := 18446744073709551615.

Definition u8 (n : N) : Prop := n <= u8_max.
Definition u32 (n : N) : Prop := n <= u32_max.
Definition u64 (n : N) : Prop := n <= u64_max.

(** [a - b] on [std::size_t] / [std::uint64_t]: modulo [2^64]. *)
Definition usub64 (a b : N) : N := if b <=? a then a - b else a + (u64_max + 1) - b.

(** [a + b] on [std::uint64_t]: modulo [2^64]. *)
Definition uadd64 (a b : N) : N := (a + b) mod (u64_max + 1).

(** ** Results of fallible code *)

Inductive Result (E A : Type) : Type :=
| Ok (a : A)
| Err (e : E).
Arguments Ok {E A} a.
Arguments Err {E A} e.

Definition result_bind {E A B} (c : Result E A) (k : A -> Result E B) : Result E B :=
  match c with Ok a => k a | Err e => Err e end.

Definition is_ok {E A} (c : Result E A) : bool :=
  match c with Ok _ => true | Err _ => false end.

Declare Scope result_scope.
Delimit Scope result_scope with result.
Notation "'let?' x := c 'in' k" := (result_bind c (fun x => k))
  (at level 200, x name, c at level 100, k at level 200, right associativity) : result_scope.
Notation "'let?' ' p := c 'in' k" := (result_bind c (fun p => k))
  (at level 200, p strict pattern, c at level 100, k at level 200, right associativity) : result_scope.
(** An early return: [if (guard) return e;]. *)
Notation "'reject_if' b 'with' e ; k" := (if b then Err e else k)
  (at level 200, b at level 100, e at level 100, k at level 200, right associativity) : result_scope.
#[global] Open Scope result_scope.

(** [for (const auto& x : l) { acc = f(acc, x) or return error }] *)
Fixpoint fold_result {E A B} (f : B -> A -> Result E B) (acc : B) (l : list A) : Result E B :=
  match l with
  | [] => Ok acc
  | x :: l' => let? acc' := f acc x in fold_result f acc' l'
  end.

(** The same loop with the running index the code keeps. *)
Fixpoint fold_result_idx {E A B} (f : N -> B -> A -> Result E B) (i : N) (acc : B) (l : list A)
  : Result E B :=
  match l with
  | [] => Ok acc
  | x :: l' => let? acc' := f i acc x in fold_result_idx f (i + 1) acc' l'
  end.

(** ** Sizes, strings *)

Definition len {A} (l : list A) : N := N.of_nat (length l).
Definition slen (s : string) : N := N.of_nat (String.length s).

Definition nul : ascii := "000"%char.

(** [value.find(c) != std::string::npos] *)
Fixpoint contains_char (c : ascii) (s : string) : bool :=
  match s with
  | EmptyString => false
  | String a s' => Ascii.eqb a c || contains_char c s'
  end.

Definition contains_nul (s : string) : bool := contains_char nul s.

Definition sempty (s : string) : bool :=
  match s with EmptyString => true | _ => false end.

(** [s.front() == c]; only used by the code after an emptiness check. *)
Definition front_is (c : ascii) (s : string) : bool :=
  match s with EmptyString => false | String a _ => Ascii.eqb a c end.

(** The pieces between the occurrences of [c]: what the code's
    [find(c, begin)] / [begin = end + 1] loops visit in order. *)
Fixpoint split_on (c : ascii) (s : string) : list string :=
  match s with
  | EmptyString => [EmptyString]
  | String a s' =>
      if Ascii.eqb a c then EmptyString :: split_on c s'
      else match split_on c s' with
           | [] => [String a EmptyString]
           | p :: ps => String a p :: ps
           end
  end.

(** Total of a size over a container. *)
Fixpoint sum_sizes {A} (f : A -> N) (l : list A) : N :=
  match l with
  | [] => 0
  | x :: l' => f x + sum_sizes f l'
  end.

(** ** [std::map] and [std::set]

    The contents of an ordered associative container are a [gmap]; iteration
    visits the entries in increasing key order, which [map_entries] gives. *)

Class KeyOrder (K : Type) := {
  key_le : relation K;
  key_le_dec :: RelDecision key_le;
  key_le_po :: PartialOrder key_le;
  key_le_total :: Total key_le;
}.

#[export] Instance N_key_order : KeyOrder N.
Proof. refine {| key_le := N.le |}. Defined.

#[export] Instance string_key_order : KeyOrder string.
Proof. refine {| key_le := String.le |}. Defined.

Definition entry_key_le {K A} `{KeyOrder K} (x y : K * A) : Prop := key_le x.1 y.1.

#[export] Instance entry_key_le_dec {K A} `{KeyOrder K} : RelDecision (@entry_key_le K A _).
Proof. intros x y. unfold entry_key_le. apply _. Defined.

Definition map_entries {K A} `{Countable K, KeyOrder K} (m : gmap K A) : list (K * A) :=
  merge_sort entry_key_le (map_to_list m).

Definition map_values {K A} `{Countable K, KeyOrder K} (m : gmap K A) : list A :=
  (map_entries m).*2.

(** [m.size()] *)
Definition msize {K A} `{Countable K} (m : gmap K A) : N := N.of_nat (size m).

(** [m.emplace(k, v)]: an existing entry is kept. *)
Definition emplace {K A} `{Countable K} (k : K) (v : A) (m : gmap K A) : gmap K A :=
  match m !! k with Some _ => m | None => <[k := v]> m end.

(** ** Loops over vectors *)

(** [for (x : l) if (f(x)) return &x; return nullptr;] *)
Definition find_first {A} (f : A -> bool) (l : list A) : option A := List.find f l.

(** The running minimum the selection loops keep: a later candidate replaces
    the current one only when it is strictly smaller. *)
Definition min_update {A} (key : A -> N) (best : option A) (x : A) : option A :=
  match best with
  | None => Some x
  | Some b => if key x <? key b then Some x else best
  end.

(** ** Automation *)

Create HintDb yori discriminated.

(** Case analysis on the scrutinee of the first [if]/[match] in a hypothesis. *)
Ltac case_in H :=
  lazymatch type of H with
  | context [ if ?b then _ else _ ] => destruct b eqn:?
  | context [ match ?x with _ => _ end ] => destruct x eqn:?
  end; simplify_eq/=.

(** Unfold one monadic bind known to have succeeded or failed. *)
Ltac bind_in H :=
  unfold result_bind in H;
  lazymatch type of H with
  | context [ match ?c with Ok _ => _ | Err _ => _ end ] => destruct c eqn:?
  end; simplify_eq/=.

(** Turn boolean tests in hypotheses into propositions. *)
Ltac reflect_bools :=
  repeat match goal with
  | H : _ && _ = true |- _ => apply andb_true_iff in H as [? ?]
  | H : _ || _ = false |- _ => apply orb_false_iff in H as [? ?]
  | H : negb _ = true |- _ => apply negb_true_iff in H
  | H : negb _ = false |- _ => apply negb_false_iff in H
  | H : bool_decide _ = true |- _ => apply bool_decide_eq_true in H
  | H : bool_decide _ = false |- _ => apply bool_decide_eq_false in H
  | H : (_ =? _)%N = true |- _ => apply N.eqb_eq in H
  | H : (_ =? _)%N = false |- _ => apply N.eqb_neq in H
  | H : (_ <? _)%N = true |- _ => apply N.ltb_lt in H
  | H : (_ <? _)%N = false |- _ => apply N.ltb_ge in H
  | H : (_ <=? _)%N = true |- _ => apply N.leb_le in H
  | H : (_ <=? _)%N = false |- _ => apply N.leb_gt in H
  | H : (_ =? _)%Z = true |- _ => apply Z.eqb_eq in H
  | H : (_ =? _)%Z = false |- _ => apply Z.eqb_neq in H
  | H : (_ <? _)%Z = true |- _ => apply Z.ltb_lt in H
  | H : (_ <? _)%Z = false |- _ => apply Z.ltb_ge in H
  | H : (_ <=? _)%Z = true |- _ => apply Z.leb_le in H
  | H : (_ <=? _)%Z = false |- _ => apply Z.leb_gt in H
  end.

(** ** Results *)

Lemma result_bind_ok {E A B} (c : Result E A) (k : A -> Result E B) b :
  result_bind c k = Ok b -> exists a, c = Ok a /\ k a = Ok b.
Proof. destruct c; simpl; naive_solver. Qed.

Lemma result_bind_ret {E A} (c : Result E A) a : c = Ok a -> result_bind c Ok = Ok a.
Proof. by intros ->. Qed.

Lemma fold_result_app {E A B} (f : B -> A -> Result E B) acc l1 l2 :
  fold_result f acc (l1 ++ l2) = let? acc' := fold_result f acc l1 in fold_result f acc' l2.
Proof.
  revert acc. induction l1 as [|x l1 IH]; intros acc; simpl; [done|].
  destruct (f acc x); simpl; auto.
Qed.

(** Rule for a loop that returned normally: an invariant of each iteration
    holds at the end. *)
Lemma fold_result_invariant {E A B} (P : B -> Prop) (f : B -> A -> Result E B) l acc res :
  (forall b x b', x ∈ l -> P b -> f b x = Ok b' -> P b') ->
  P acc -> fold_result f acc l = Ok res -> P res.
Proof.
  revert acc. induction l as [|x l IH]; intros acc Hstep Hacc Hrun; simpl in Hrun.
  { by simplify_eq. }
  apply result_bind_ok in Hrun as (acc' & Hf & Hrun).
  apply (IH acc'); [|by eapply Hstep; [left|..]|done].
  intros b y b' Hy. apply Hstep. by right.
Qed.

Lemma is_ok_bind {E A B} (c : Result E A) (k : A -> Result E B) :
  is_ok (result_bind c k) = true <-> is_ok c = true /\ forall a, c = Ok a -> is_ok (k a) = true.
Proof. destruct c; simpl; naive_solver. Qed.

Lemma is_ok_reject {E A} (b : bool) (e : E) (k : Result E A) :
  is_ok (if b then Err e else k) = true <-> b = false /\ is_ok k = true.
Proof. destruct b; naive_solver. Qed.

Lemma is_ok_bind_const {E A B} (c : Result E A) (k : Result E B) :
  is_ok (result_bind c (fun _ => k)) = true <-> is_ok c = true /\ is_ok k = true.
Proof. destruct c; simpl; naive_solver. Qed.

(** Every failure of [c] satisfies [P]. *)
Definition errs_sat {E A} (P : E -> Prop) (c : Result E A) : Prop :=
  match c with Ok _ => True | Err e => P e end.

Section errs_sat.
Context {E : Type} (P : E -> Prop).

Lemma errs_sat_reject {A} (b : bool) e (k : Result E A) :
  P e -> errs_sat P k -> errs_sat P (if b then Err e else k).
Proof. by destruct b. Qed.

Lemma errs_sat_bind {A B} (c : Result E A) (k : A -> Result E B) :
  errs_sat P c -> (forall a, errs_sat P (k a)) -> errs_sat P (result_bind c k).
Proof. destruct c; simpl; auto. Qed.

Lemma errs_sat_loop {A B} (f : N -> B -> A -> Result E B) i acc l :
  (forall i acc a, errs_sat P (f i acc a)) -> errs_sat P (fold_result_idx f i acc l).
Proof.
  intros Hf. revert i acc. induction l as [|a l IH]; intros i acc; simpl; [done|].
  by apply errs_sat_bind.
Qed.
End errs_sat.

(** One step through a term built from early returns, binds and loops. *)
Ltac walk_errs :=
  first
    [ exact I
    | apply errs_sat_reject; [done|]
    | apply errs_sat_loop; intros ???
    | apply errs_sat_bind; [|intros ?] ].

(** ** Lists and sizes *)

Lemma len_nil {A} : len (@nil A) = 0.
Proof. done. Qed.

Lemma len_cons {A} (x : A) l : len (x :: l) = len l + 1.
Proof. unfold len. simpl. lia. Qed.

Lemma len_app {A} (l1 l2 : list A) : len (l1 ++ l2) = len l1 + len l2.
Proof. unfold len. rewrite length_app. lia. Qed.

Lemma len_zero {A} (l : list A) : len l = 0 -> l = [].
Proof. destruct l; [done|]. rewrite len_cons. lia. Qed.

Lemma len_perm {A} (l1 l2 : list A) : l1 ≡ₚ l2 -> len l1 = len l2.
Proof. intros H. unfold len. by rewrite H. Qed.

Lemma slen_cons a s : slen (String a s) = slen s + 1.
Proof. unfold slen. simpl. lia. Qed.

Lemma slen_append s1 s2 : slen (String.append s1 s2) = slen s1 + slen s2.
Proof.
  induction s1 as [|a s1 IH]; [by unfold slen|].
  change (String.append (String a s1) s2) with (String a (String.append s1 s2)).
  rewrite !slen_cons, IH. lia.
Qed.

Lemma append_cons c s1 s2 : String.append (String c s1) s2 = String c (String.append s1 s2).
Proof. reflexivity. Qed.

Lemma append_empty_r s : String.append s EmptyString = s.
Proof. induction s as [|c s IH]; [done|]. by rewrite append_cons, IH. Qed.

Lemma append_assoc s1 s2 s3 :
  String.append s1 (String.append s2 s3) = String.append (String.append s1 s2) s3.
Proof. induction s1 as [|c s IH]; [done|]. by rewrite !append_cons, IH. Qed.

Lemma sum_sizes_app {A} (f : A -> N) l1 l2 : sum_sizes f (l1 ++ l2) = sum_sizes f l1 + sum_sizes f l2.
Proof. induction l1 as [|x l1 IH]; simpl; [done|]. rewrite IH. lia. Qed.

(** [split_on] cuts the string at every separator: putting the separators back
    gives the string, and no piece holds one. *)
Lemma split_on_join c s : String.concat (String c EmptyString) (split_on c s) = s.
Proof.
  induction s as [|a s IH]; simpl; [done|].
  destruct (Ascii.eqb_spec a c) as [->|Hne].
  - destruct (split_on c s) as [|p ps] eqn:E; [destruct s; simpl in E; repeat case_match; done|].
    simpl in *. by rewrite IH.
  - destruct (split_on c s) as [|p ps] eqn:E; [destruct s; simpl in E; repeat case_match; done|].
    destruct ps; simpl in *; by rewrite <- IH.
Qed.

Lemma split_on_nonempty c s : split_on c s <> [].
Proof. destruct s; simpl; repeat case_match; done. Qed.

Lemma split_on_pieces c s : Forall (fun p => contains_char c p = false) (split_on c s).
Proof.
  induction s as [|a s IH]; simpl; [by repeat constructor|].
  destruct (Ascii.eqb a c) eqn:E; [by constructor|].
  destruct (split_on c s) as [|p ps]; [repeat constructor; simpl; by rewrite E|].
  inv IH. constructor; [|done]. simpl. rewrite E. done.
Qed.

Lemma filter_all {A} (P : A -> Prop) `{forall x, Decision (P x)} (l : list A) :
  Forall P l -> filter P l = l.
Proof. induction 1; [done|]. rewrite filter_cons_True by done. by f_equal. Qed.

Lemma filter_none {A} (P : A -> Prop) `{forall x, Decision (P x)} (l : list A) :
  Forall (fun x => ~ P x) l -> filter P l = [].
Proof. induction 1; [done|]. by rewrite filter_cons_False. Qed.

(** ** Find *)

Lemma find_first_some {A} (f : A -> bool) l x :
  find_first f l = Some x -> x ∈ l /\ f x = true.
Proof. intros [Hin Hf]%find_some. split; [by apply list_elem_of_In|done]. Qed.

Lemma find_first_none {A} (f : A -> bool) l x :
  find_first f l = None -> x ∈ l -> f x = false.
Proof. intros Hn Hin. eapply find_none; [done|by apply list_elem_of_In]. Qed.

(** ** Running minima *)

(** The loops that keep the smallest of the candidates [g] finds. *)
Definition min_step {A B} (key : B -> N) (g : A -> option B) (best : option B) (x : A) : option B :=
  match g x with Some y => min_update key best y | None => best end.

Section min_step.
Context {A B : Type} (key : B -> N) (g : A -> option B).

Lemma min_fold_spec l best :
  match fold_left (min_step key g) l best with
  | None => best = None /\ forall x, x ∈ l -> g x = None
  | Some m =>
      (best = Some m \/ exists x, x ∈ l /\ g x = Some m) /\
      (forall b, best = Some b -> key m <= key b) /\
      (forall x y, x ∈ l -> g x = Some y -> key m <= key y)
  end.
Proof.
  revert best. induction l as [|x l IH]; intros best; simpl.
  { destruct best; [|by split; [|set_solver]].
    split_and!; [by left|by intros ? [= ->]|set_solver]. }
  specialize (IH (min_step key g best x)). destruct (fold_left _ _ _) as [m|].
  - destruct IH as (Hfrom & Hmin & Hall). unfold min_step in *.
    assert (forall y, g x = Some y -> key m <= key y) as Hx.
    { intros y Hy. rewrite Hy in Hmin. unfold min_update in Hmin.
      destruct best as [b|]; [|by apply Hmin].
      destruct (N.ltb_spec (key y) (key b)); [by apply Hmin|].
      specialize (Hmin _ eq_refl). lia. }
    split_and!.
    + destruct Hfrom as [Heq|(z & ? & ?)]; [|right; exists z; set_solver].
      destruct (g x) as [y|] eqn:Hy; [|by left]. unfold min_update in Heq.
      destruct best as [b|]; [case_match|]; simplify_eq; [|by left|];
        right; exists x; (split; [left|done]).
    + intros b ->. destruct (g x) as [y|] eqn:Hy; [|by apply Hmin].
      unfold min_update in Hmin. destruct (N.ltb_spec (key y) (key b)); [|by apply Hmin].
      specialize (Hmin _ eq_refl). lia.
    + intros z y [->|Hz]%elem_of_cons Hy; [by apply Hx|by eapply Hall].
  - destruct IH as [Hnone Hall]. unfold min_step in Hnone.
    destruct (g x) as [y|] eqn:Hy.
    + unfold min_update in Hnone. destruct best; [case_match|]; done.
    + split; [done|]. intros z [->|Hz]%elem_of_cons; [done|by apply Hall].
Qed.

Lemma min_fold_some l m :
  fold_left (min_step key g) l None = Some m ->
  (exists x, x ∈ l /\ g x = Some m) /\ (forall x y, x ∈ l -> g x = Some y -> key m <= key y).
Proof.
  intros Hm. pose proof (min_fold_spec l None) as Hs. rewrite Hm in Hs.
  destruct Hs as ([?|?] & _ & ?); [done|done].
Qed.

Lemma min_fold_none l :
  fold_left (min_step key g) l None = None <-> forall x, x ∈ l -> g x = None.
Proof.
  pose proof (min_fold_spec l None) as Hs. destruct (fold_left _ _ _) as [m|]; [|naive_solver].
  destruct Hs as ([?|(x & Hx & Hg)] & _); [done|]. split; [done|].
  intros Hn. specialize (Hn _ Hx). congruence.
Qed.
End min_step.

Lemma fold_left_ext_in {A B} (f g : B -> A -> B) l b :
  (forall b x, f b x = g b x) -> fold_left f l b = fold_left g l b.
Proof. intros Hfg. revert b. induction l as [|x l IH]; intros b; simpl; [done|]. by rewrite Hfg. Qed.

(** ** Loops over related lists *)

Section related.
Context {A B : Type} (Q : A -> B -> Prop).

Lemma find_first_related (f : A -> bool) (g : B -> bool) l1 l2 :
  (forall x y, Q x y -> f x = g y) -> Forall2 Q l1 l2 ->
  option_Forall2 Q (find_first f l1) (find_first g l2).
Proof.
  intros Hfg. induction 1 as [|x y l1 l2 Hxy _ IH]; simpl; [constructor|].
  rewrite (Hfg _ _ Hxy). destruct (g y); [by constructor|done].
Qed.

Lemma filter_related (P1 : A -> Prop) (P2 : B -> Prop) `{forall x, Decision (P1 x)}
    `{forall x, Decision (P2 x)} l1 l2 :
  (forall x y, Q x y -> P1 x <-> P2 y) -> Forall2 Q l1 l2 -> Forall2 Q (filter P1 l1) (filter P2 l2).
Proof.
  intros HP. induction 1 as [|x y l1 l2 Hxy _ IH]; [constructor|]. rewrite !filter_cons.
  specialize (HP _ _ Hxy). destruct (decide (P1 x)), (decide (P2 y)); try (exfalso; tauto); auto.
Qed.

Context (R1 : relation A) (R2 : relation B) `{!RelDecision R1, !RelDecision R2}.
Hypothesis HR : forall x1 x2 y1 y2, Q x1 x2 -> Q y1 y2 -> R1 x1 y1 <-> R2 x2 y2.

Lemma list_merge_related k1 l1 k2 l2 :
  Forall2 Q k1 k2 -> Forall2 Q l1 l2 -> Forall2 Q (list_merge R1 k1 l1) (list_merge R2 k2 l2).
Proof using Type*.
  intros Hk. revert l1 l2. induction Hk as [|x1 x2 k1 k2 Hx Hk IHk]; intros l1 l2 Hl.
  { destruct Hl; simpl; [constructor|by constructor]. }
  induction Hl as [|y1 y2 l1 l2 Hy Hl IHl]; [by constructor|]. simpl.
  pose proof (HR _ _ _ _ Hx Hy).
  destruct (decide_rel R1 x1 y1), (decide_rel R2 x2 y2); try (exfalso; tauto);
    constructor; auto.
Qed.

Lemma merge_to_stack_related s1 s2 l1 l2 :
  Forall2 (option_Forall2 (Forall2 Q)) s1 s2 -> Forall2 Q l1 l2 ->
  Forall2 (option_Forall2 (Forall2 Q))
    (merge_list_to_stack R1 s1 l1) (merge_list_to_stack R2 s2 l2).
Proof using Type*.
  intros Hs. revert l1 l2. induction Hs as [|o1 o2 s1 s2 Ho Hs IH]; intros l1 l2 Hl; simpl.
  { by repeat constructor. }
  destruct Ho; constructor; try constructor; auto using list_merge_related.
Qed.

Lemma merge_stack_related s1 s2 :
  Forall2 (option_Forall2 (Forall2 Q)) s1 s2 -> Forall2 Q (merge_stack R1 s1) (merge_stack R2 s2).
Proof using Type*.
  induction 1 as [|o1 o2 s1 s2 Ho _ IH]; simpl; [constructor|].
  destruct Ho; auto using list_merge_related.
Qed.

Lemma merge_sort_related l1 l2 :
  Forall2 Q l1 l2 -> Forall2 Q (merge_sort R1 l1) (merge_sort R2 l2).
Proof using Type*.
  unfold merge_sort. assert (Forall2 (option_Forall2 (Forall2 Q)) [] []) as Hs by constructor.
  revert Hs. generalize (@nil (option (list A))) (@nil (option (list B))).
  intros s1 s2 Hs Hl. revert s1 s2 Hs. induction Hl as [|x y l1 l2 Hxy _ IH]; intros s1 s2 Hs; simpl.
  { by apply merge_stack_related. }
  apply IH, merge_to_stack_related; auto.
Qed.
End related.

Lemma fmap_related {A B C} (Q : A -> B -> Prop) (f : A -> C) (g : B -> C) l1 l2 :
  (forall x y, Q x y -> f x = g y) -> Forall2 Q l1 l2 -> f <$> l1 = g <$> l2.
Proof. intros Hfg. induction 1; simpl; [done|]. f_equal; auto. Qed.

Lemma Forall2_Forall2_elem {A B} (Q : A -> B -> Prop) l1 l2 :
  Forall2 Q l1 l2 -> Forall2 (fun x y => x ∈ l1 /\ Q x y) l1 l2.
Proof.
  intros H. apply Forall2_same_length_lookup. split; [by eapply Forall2_length|].
  intros i x y Hx Hy. split; [by eapply list_elem_of_lookup_2|].
  by eapply Forall2_lookup_lr.
Qed.

Lemma StronglySorted_fmap_key {K A} (R : relation K) (l : list (K * A)) :
  StronglySorted (fun x y => R x.1 y.1) l -> StronglySorted R l.*1.
Proof.
  induction 1 as [|x l _ IH Hx]; simpl; constructor; [done|]. by apply Forall_fmap.
Qed.

(** ** Ordered maps *)

Section map_entries.
Context {K A : Type} `{Countable K, KeyOrder K}.
Implicit Types m : gmap K A.

Lemma map_entries_perm m : map_entries m ≡ₚ map_to_list m.
Proof. apply merge_sort_Permutation. Qed.

Lemma elem_of_map_entries m k v : (k, v) ∈ map_entries m <-> m !! k = Some v.
Proof. unfold map_entries. rewrite merge_sort_Permutation. apply elem_of_map_to_list. Qed.

Lemma NoDup_map_entries_keys m : NoDup (map_entries m).*1.
Proof. unfold map_entries. rewrite merge_sort_Permutation. apply NoDup_fst_map_to_list. Qed.

Lemma elem_of_map_values m v : v ∈ map_values m <-> exists k, m !! k = Some v.
Proof.
  unfold map_values. rewrite list_elem_of_fmap. split.
  - intros ([k v'] & -> & Hin). exists k. by apply elem_of_map_entries.
  - intros [k Hk]. exists (k, v). split; [done|]. by apply elem_of_map_entries.
Qed.

Lemma len_map_entries m : len (map_entries m) = msize m.
Proof.
  unfold len, msize. by rewrite map_entries_perm, length_map_to_list.
Qed.

Lemma len_map_values m : len (map_values m) = msize m.
Proof. unfold map_values. unfold len. rewrite length_fmap. apply len_map_entries. Qed.

Lemma map_values_nil m : map_values m = [] -> m = ∅.
Proof.
  intros Hn. apply map_empty. intros k. destruct (m !! k) as [v|] eqn:Hv; [|done].
  assert (v ∈ map_values m) as Hin by (apply elem_of_map_values; eauto).
  rewrite Hn in Hin. by apply not_elem_of_nil in Hin.
Qed.

#[export] Instance entry_key_le_total : Total (@entry_key_le K A _).
Proof. intros x y. unfold entry_key_le. apply total, _. Qed.

#[export] Instance entry_key_le_trans : Transitive (@entry_key_le K A _).
Proof. intros x y z. unfold entry_key_le. apply transitivity. Qed.

Lemma map_entries_sorted m : StronglySorted entry_key_le (map_entries m).
Proof. apply StronglySorted_merge_sort; apply _. Qed.

Lemma map_entries_keys_sorted m : StronglySorted key_le (map_entries m).*1.
Proof. apply StronglySorted_fmap_key, map_entries_sorted. Qed.


Lemma msize_insert_new m k v : m !! k = None -> msize (<[k:=v]> m) = msize m + 1.
Proof. intros Hk. unfold msize. rewrite map_size_insert_None by done. lia. Qed.

Lemma msize_insert_old m k v : is_Some (m !! k) -> msize (<[k:=v]> m) = msize m.
Proof. intros Hk. unfold msize. by rewrite map_size_insert_Some. Qed.

Lemma msize_delete_le m k : msize (delete k m) <= msize m.
Proof.
  unfold msize. destruct (m !! k) eqn:Hk.
  - rewrite map_size_delete_Some by done. lia.
  - by rewrite delete_id.
Qed.
Lemma elem_of_map_entries_keys m k : k ∈ (map_entries m).*1 <-> is_Some (m !! k).
Proof.
  rewrite list_elem_of_fmap. split.
  - intros ([k' v] & -> & Hin). apply elem_of_map_entries in Hin. by eexists.
  - intros [v Hv]. exists (k, v). split; [done|]. by apply elem_of_map_entries.
Qed.
End map_entries.

Section map_related.
Context {K A : Type} `{Countable K, KeyOrder K}.
Implicit Types m : gmap K A.

(** Iteration over two maps with related entries visits related entries. *)
Lemma map_entries_related {B} (Q : K -> A -> B -> Prop) m (m' : gmap K B) :
  (forall k, option_Forall2 (Q k) (m !! k) (m' !! k)) ->
  Forall2 (fun p q => p.1 = q.1 /\ Q p.1 p.2 q.2) (map_entries m) (map_entries m').
Proof.
  intros HQ. assert ((map_entries m).*1 = (map_entries m').*1) as Hkeys.
  { apply (StronglySorted_unique key_le).
    - apply map_entries_keys_sorted.
    - apply map_entries_keys_sorted.
    - apply NoDup_Permutation; [apply NoDup_map_entries_keys..|]. intros k.
      rewrite !elem_of_map_entries_keys. specialize (HQ k). by destruct HQ. }
  apply Forall2_same_length_lookup. split.
  { apply (f_equal length) in Hkeys. by rewrite !length_fmap in Hkeys. }
  intros i [k v] [k' v'] Hx Hy. simpl. assert (k = k') as <-.
  { apply (f_equal (.!! i)) in Hkeys. rewrite !list_lookup_fmap, Hx, Hy in Hkeys. by simplify_eq/=. }
  split; [done|]. specialize (HQ k).
  apply list_elem_of_lookup_2, elem_of_map_entries in Hx.
  apply list_elem_of_lookup_2, elem_of_map_entries in Hy. rewrite Hx, Hy in HQ. by inversion HQ.
Qed.
End map_related.

#[export] Hint Resolve map_entries_perm elem_of_map_entries NoDup_map_entries_keys : yori.
