(* ===== verification/Job.v ===== *)
(** * Job contract: [include/yori/job/job.hpp], [src/job/job.cpp],
    [include/yori/gpu/gpu_uuid.hpp]

    The submission record ([JobSpec]) with its structural validation, and the
    job life cycle: the transition table, [Job::transition_to] and
    [Job::create].  The declarative reading of [validate] is [SpecOk]; the life
    cycle is also given as a step relation on [Job] values. *)

From S2P Require Import Prelude.

(** ** Data *)

(** [JobId] wraps a [std::uint64_t]; [GpuUuid] wraps a [std::string], both with
    the defaulted comparisons. *)
Notation JobId := N (only parsing).
Notation GpuUuid := string (only parsing).

(** [JobId::valid] *)
Definition job_id_valid (id : JobId) : bool := negb (id =? 0).

Definition GpuUuid_kMaxBytes : N := 96.

(** [GpuUuid::valid] *)
Definition uuid_valid (u : GpuUuid) : bool :=
  negb (sempty u) && (slen u <=? GpuUuid_kMaxBytes) && negb (contains_nul u).

(** [JobSpecLimits] *)
Definition kMaxArgumentCount : N := 256.
Definition kMaxArgumentBytes : N := 64 * 1024.
Definition kMaxSingleArgumentBytes : N := 16 * 1024.
Definition kMaxWorkingDirectoryBytes : N := 4096.
Definition kMaxEnvironmentVariables : N := 256.
Definition kMaxEnvironmentNameBytes : N := 255.
Definition kMaxEnvironmentValueBytes : N := 32 * 1024.
Definition kMaxEnvironmentBytes : N := 256 * 1024.
Definition kMaxLaunchProfileBytes : N := 128.
Definition kMaxPlacementDevices : N := 8.
Definition kMaxTensorboardLogdirBytes : N := 4096.
Definition kMaxExecutableBytes : N := 4096.
Definition kMaxPythonVersionBytes : N := 64.

Inductive EnvSource := ES_kNone | ES_kConda | ES_kVenv.

#[export] Instance EnvSource_eq_dec : EqDecision EnvSource.
Proof. solve_decision. Defined.

Record EnvMetadata := mkEnvMetadata {
  em_source : EnvSource;
  em_python_version : option string;
}.

#[export] Instance EnvMetadata_eq_dec : EqDecision EnvMetadata.
Proof. solve_decision. Defined.

Inductive GpuPlacementMode := GPM_kAny | GPM_kRequired | GPM_kPreferred.

#[export] Instance GpuPlacementMode_eq_dec : EqDecision GpuPlacementMode.
Proof. solve_decision. Defined.

Record GpuPlacement := mkGpuPlacement {
  gp_mode : GpuPlacementMode;
  gp_devices : list GpuUuid;
}.

#[export] Instance GpuPlacement_eq_dec : EqDecision GpuPlacement.
Proof. solve_decision. Defined.

(** Times are [system_clock] ticks since the epoch. *)
Record JobSpec := mkJobSpec {
  owner_uid : N;
  owner_gid : N;
  argv : list string;
  cwd : string;
  env : gmap string string;
  executable : option string;
  env_metadata : option EnvMetadata;
  gpu_request : N;
  gpu_placement : GpuPlacement;
  launch_profile : option string;
  tensorboard_logdir : option string;
  submit_time : Z;
}.

#[export] Instance JobSpec_eq_dec : EqDecision JobSpec.
Proof. solve_decision. Defined.

Inductive JobSpecErrorCode :=
| JSE_kNone
| JSE_kRootOwnerNotAllowed
| JSE_kEmptyArguments
| JSE_kTooManyArguments
| JSE_kInvalidArgument
| JSE_kArgumentTooLong
| JSE_kArgumentsTooLarge
| JSE_kInvalidWorkingDirectory
| JSE_kTooManyEnvironmentVariables
| JSE_kInvalidEnvironmentName
| JSE_kEnvironmentNameTooLong
| JSE_kEnvironmentValueTooLong
| JSE_kEnvironmentTooLarge
| JSE_kUnsupportedGpuRequest
| JSE_kInvalidGpuPlacement
| JSE_kPlacementGpuRequestConflict
| JSE_kLaunchProfileTooLong
| JSE_kInvalidTensorboardLogdir
| JSE_kInvalidSubmitTime
| JSE_kInvalidExecutable
| JSE_kInvalidPythonVersion.

#[export] Instance JobSpecErrorCode_eq_dec : EqDecision JobSpecErrorCode.
Proof. solve_decision. Defined.

Record JobSpecValidationResult := mkSpecResult {
  sv_code : JobSpecErrorCode;
  sv_item_index : option N;
}.

(** The value-initialised result [{}]. *)
Definition spec_ok_result : JobSpecValidationResult := mkSpecResult JSE_kNone None.

(** [JobSpecValidationResult::ok] *)
Definition spec_result_ok (r : JobSpecValidationResult) : bool :=
  bool_decide (sv_code r = JSE_kNone).

Inductive JobState :=
| kQueued | kStarting | kRunning | kStopping
| kFinished | kFailed | kCancelled | kLost.

#[export] Instance JobState_eq_dec : EqDecision JobState.
Proof. solve_decision. Defined.

Definition is_terminal (s : JobState) : bool :=
  match s with
  | kFinished | kFailed | kCancelled | kLost => true
  | _ => false
  end.

Inductive TransitionOutcome :=
| TO_kApplied | TO_kRejected | TO_kIdempotentTerminal | TO_kIgnoredAfterTerminal.

Record TransitionResult := mkTransition {
  tr_from : JobState;
  tr_requested : JobState;
  tr_outcome : TransitionOutcome;
  tr_revision : N;
}.

Inductive JobCreationErrorCode := JCE_kNone | JCE_kInvalidJobId | JCE_kInvalidSpec.

Record JobCreationError := mkCreationError {
  ce_code : JobCreationErrorCode;
  ce_spec_validation : JobSpecValidationResult;
}.

Record Job := mkJob {
  job_id : JobId;
  job_spec : JobSpec;
  job_state : JobState;
  job_revision : N;
}.

(** ** Validation *)

(** [add_within_limit]: [None] is the code's [false]. *)
Definition add_within_limit (value total limit : N) : option N :=
  if usub64 limit total <? value then None else Some (total + value).

Definition is_valid_environment_name (name : string) : bool :=
  negb (sempty name) && negb (contains_nul name) && negb (contains_char "="%char name).

(** [is_valid_tensorboard_logdir]: the loop visits the '/'-separated
    components and rejects a [".."] one. *)
Definition is_valid_tensorboard_logdir (path : string) : bool :=
  if sempty path || (kMaxTensorboardLogdirBytes <? slen path)
     || contains_nul path || front_is "/"%char path
  then false
  else forallb (fun component => negb (bool_decide (component = ".."))) (split_on "/"%char path).

Definition reject (c : JobSpecErrorCode) (i : option N) : JobSpecValidationResult :=
  mkSpecResult c i.

(** One iteration of the argument loop; the accumulator is [argument_bytes]. *)
Definition check_argument (index argument_bytes : N) (argument : string)
  : Result JobSpecValidationResult N :=
  reject_if contains_nul argument with reject JSE_kInvalidArgument (Some index);
  reject_if kMaxSingleArgumentBytes <? slen argument
    with reject JSE_kArgumentTooLong (Some index);
  match add_within_limit (slen argument) argument_bytes kMaxArgumentBytes with
  | None => Err (reject JSE_kArgumentsTooLarge (Some index))
  | Some total => Ok total
  end.

(** One iteration of the environment loop. *)
Definition check_environment_entry (index environment_bytes : N) (entry : string * string)
  : Result JobSpecValidationResult N :=
  let '(name, value) := entry in
  reject_if negb (is_valid_environment_name name)
    with reject JSE_kInvalidEnvironmentName (Some index);
  reject_if kMaxEnvironmentNameBytes <? slen name
    with reject JSE_kEnvironmentNameTooLong (Some index);
  reject_if (kMaxEnvironmentValueBytes <? slen value) || contains_nul value
    with reject JSE_kEnvironmentValueTooLong (Some index);
  match add_within_limit (slen name) environment_bytes kMaxEnvironmentBytes with
  | None => Err (reject JSE_kEnvironmentTooLarge (Some index))
  | Some total =>
      match add_within_limit (slen value) total kMaxEnvironmentBytes with
      | None => Err (reject JSE_kEnvironmentTooLarge (Some index))
      | Some total' => Ok total'
      end
  end.

(** The nested loops over the required set: each device valid and different
    from every prior one. *)
Fixpoint check_required_devices (prior : list GpuUuid) (devices : list GpuUuid) : bool :=
  match devices with
  | [] => true
  | d :: rest =>
      uuid_valid d && negb (existsb (fun p => bool_decide (p = d)) prior)
      && check_required_devices (prior ++ [d]) rest
  end.

(** The [switch] on the placement mode. *)
Definition check_placement (p : GpuPlacement) (gpu_request : N)
  : Result JobSpecValidationResult unit :=
  match gp_mode p with
  | GPM_kAny =>
      reject_if negb (bool_decide (gp_devices p = []))
        with reject JSE_kInvalidGpuPlacement None;
      Ok tt
  | GPM_kRequired =>
      reject_if bool_decide (gp_devices p = []) || (kMaxPlacementDevices <? len (gp_devices p))
        with reject JSE_kInvalidGpuPlacement None;
      reject_if negb (check_required_devices [] (gp_devices p))
        with reject JSE_kInvalidGpuPlacement None;
      reject_if negb (gpu_request =? 1) with reject JSE_kPlacementGpuRequestConflict None;
      Ok tt
  | GPM_kPreferred =>
      reject_if negb (match gp_devices p with [d] => uuid_valid d | _ => false end)
        with reject JSE_kInvalidGpuPlacement None;
      reject_if negb (gpu_request =? 1) with reject JSE_kPlacementGpuRequestConflict None;
      Ok tt
  end.

(** An optional string that must be non-empty, bounded and free of NUL. *)
Definition bad_bounded_string (limit : N) (s : string) : bool :=
  sempty s || (limit <? slen s) || contains_nul s.

Definition validate_checks (spec : JobSpec) : Result JobSpecValidationResult unit :=
  reject_if owner_uid spec =? 0 with reject JSE_kRootOwnerNotAllowed None;
  reject_if bool_decide (argv spec = []) with reject JSE_kEmptyArguments None;
  reject_if kMaxArgumentCount <? len (argv spec) with reject JSE_kTooManyArguments None;
  let? _ := fold_result_idx check_argument 0 0 (argv spec) in
  reject_if match argv spec with a :: _ => sempty a | [] => false end
    with reject JSE_kEmptyArguments (Some 0);
  reject_if sempty (cwd spec) || (kMaxWorkingDirectoryBytes <? slen (cwd spec))
            || contains_nul (cwd spec) || negb (front_is "/"%char (cwd spec))
    with reject JSE_kInvalidWorkingDirectory None;
  reject_if kMaxEnvironmentVariables <? msize (env spec)
    with reject JSE_kTooManyEnvironmentVariables None;
  let? _ := fold_result_idx check_environment_entry 0 0 (map_entries (env spec)) in
  let? _ := check_placement (gpu_placement spec) (gpu_request spec) in
  reject_if negb (gpu_request spec =? 1) with reject JSE_kUnsupportedGpuRequest None;
  reject_if match executable spec with
            | Some e => bad_bounded_string kMaxExecutableBytes e || negb (front_is "/"%char e)
            | None => false
            end
    with reject JSE_kInvalidExecutable None;
  reject_if match env_metadata spec with
            | Some m => match em_python_version m with
                        | Some v => bad_bounded_string kMaxPythonVersionBytes v
                        | None => false
                        end
            | None => false
            end
    with reject JSE_kInvalidPythonVersion None;
  reject_if match launch_profile spec with
            | Some p => bad_bounded_string kMaxLaunchProfileBytes p
            | None => false
            end
    with reject JSE_kLaunchProfileTooLong None;
  reject_if match tensorboard_logdir spec with
            | Some d => negb (is_valid_tensorboard_logdir d)
            | None => false
            end
    with reject JSE_kInvalidTensorboardLogdir None;
  reject_if (submit_time spec <=? 0)%Z with reject JSE_kInvalidSubmitTime None;
  Ok tt.

(** [job::validate] *)
Definition validate (spec : JobSpec) : JobSpecValidationResult :=
  match validate_checks spec with
  | Ok _ => spec_ok_result
  | Err r => r
  end.

(** [static_cast<bool>(validate(spec))] *)
Definition spec_valid (spec : JobSpec) : bool := spec_result_ok (validate spec).

(** ** State machine *)

Definition can_transition (from to : JobState) : bool :=
  match from with
  | kQueued => match to with kStarting | kCancelled => true | _ => false end
  | kStarting => match to with kRunning | kStopping | kFailed | kLost => true | _ => false end
  | kRunning => match to with kStopping | kFinished | kFailed | kLost => true | _ => false end
  | kStopping => match to with kCancelled | kFailed | kLost => true | _ => false end
  | kFinished | kFailed | kCancelled | kLost => false
  end.

(** [Job::transition_to] *)
Definition transition_to (j : Job) (requested : JobState) : TransitionResult * Job :=
  let from := job_state j in
  if is_terminal from then
    (mkTransition from requested
       (if bool_decide (requested = from) then TO_kIdempotentTerminal else TO_kIgnoredAfterTerminal)
       (job_revision j), j)
  else if negb (can_transition from requested) then
    (mkTransition from requested TO_kRejected (job_revision j), j)
  else
    let j' := {| j with job_state := requested; job_revision := uadd64 (job_revision j) 1 |} in
    (mkTransition from requested TO_kApplied (job_revision j'), j').

(** [Job::create] *)
Definition create (id : JobId) (spec : JobSpec) : JobCreationError * option Job :=
  if negb (job_id_valid id) then (mkCreationError JCE_kInvalidJobId spec_ok_result, None)
  else
    let validation := validate spec in
    if negb (spec_result_ok validation)
    then (mkCreationError JCE_kInvalidSpec validation, None)
    else (mkCreationError JCE_kNone spec_ok_result, Some (mkJob id spec kQueued 0)).

(** ** Names *)

(** [to_string(JobSpecErrorCode)] *)
Definition JobSpecErrorCode_to_string (code : JobSpecErrorCode) : string :=
  match code with
  | JSE_kNone => "NONE"
  | JSE_kRootOwnerNotAllowed => "ROOT_OWNER_NOT_ALLOWED"
  | JSE_kEmptyArguments => "EMPTY_ARGUMENTS"
  | JSE_kTooManyArguments => "TOO_MANY_ARGUMENTS"
  | JSE_kInvalidArgument => "INVALID_ARGUMENT"
  | JSE_kArgumentTooLong => "ARGUMENT_TOO_LONG"
  | JSE_kArgumentsTooLarge => "ARGUMENTS_TOO_LARGE"
  | JSE_kInvalidWorkingDirectory => "INVALID_WORKING_DIRECTORY"
  | JSE_kTooManyEnvironmentVariables => "TOO_MANY_ENVIRONMENT_VARIABLES"
  | JSE_kInvalidEnvironmentName => "INVALID_ENVIRONMENT_NAME"
  | JSE_kEnvironmentNameTooLong => "ENVIRONMENT_NAME_TOO_LONG"
  | JSE_kEnvironmentValueTooLong => "ENVIRONMENT_VALUE_TOO_LONG"
  | JSE_kEnvironmentTooLarge => "ENVIRONMENT_TOO_LARGE"
  | JSE_kUnsupportedGpuRequest => "UNSUPPORTED_GPU_REQUEST"
  | JSE_kInvalidGpuPlacement => "INVALID_GPU_PLACEMENT"
  | JSE_kPlacementGpuRequestConflict => "PLACEMENT_GPU_REQUEST_CONFLICT"
  | JSE_kLaunchProfileTooLong => "LAUNCH_PROFILE_TOO_LONG"
  | JSE_kInvalidTensorboardLogdir => "INVALID_TENSORBOARD_LOGDIR"
  | JSE_kInvalidSubmitTime => "INVALID_SUBMIT_TIME"
  | JSE_kInvalidExecutable => "INVALID_EXECUTABLE"
  | JSE_kInvalidPythonVersion => "INVALID_PYTHON_VERSION"
  end.

(** [to_string(EnvSource)] *)
Definition EnvSource_to_string (source : EnvSource) : string :=
  match source with ES_kNone => "none" | ES_kConda => "conda" | ES_kVenv => "venv" end.

(** [to_string(JobState)] *)
Definition JobState_to_string (state : JobState) : string :=
  match state with
  | kQueued => "QUEUED"
  | kStarting => "STARTING"
  | kRunning => "RUNNING"
  | kStopping => "STOPPING"
  | kFinished => "FINISHED"
  | kFailed => "FAILED"
  | kCancelled => "CANCELLED"
  | kLost => "LOST"
  end.

(** [to_string(TransitionOutcome)] *)
Definition TransitionOutcome_to_string (outcome : TransitionOutcome) : string :=
  match outcome with
  | TO_kApplied => "APPLIED"
  | TO_kRejected => "REJECTED"
  | TO_kIdempotentTerminal => "IDEMPOTENT_TERMINAL"
  | TO_kIgnoredAfterTerminal => "IGNORED_AFTER_TERMINAL"
  end.

(** ** Specification of validation *)

Definition bounded_string (limit : N) (s : string) : Prop :=
  s <> EmptyString /\ slen s <= limit /\ contains_nul s = false.

Definition absolute_path (limit : N) (s : string) : Prop :=
  bounded_string limit s /\ front_is "/"%char s = true.

Definition argument_ok (a : string) : Prop :=
  contains_nul a = false /\ slen a <= kMaxSingleArgumentBytes.

Definition environment_entry_ok (e : string * string) : Prop :=
  is_valid_environment_name e.1 = true /\ slen e.1 <= kMaxEnvironmentNameBytes /\
  slen e.2 <= kMaxEnvironmentValueBytes /\ contains_nul e.2 = false.

Definition entry_bytes (e : string * string) : N := slen e.1 + slen e.2.

(** A relative path none of whose components is [".."]. *)
Definition logdir_ok (path : string) : Prop :=
  bounded_string kMaxTensorboardLogdirBytes path /\ front_is "/"%char path = false /\
  Forall (fun component => component <> "..") (split_on "/"%char path).

Definition placement_ok (p : GpuPlacement) : Prop :=
  match gp_mode p with
  | GPM_kAny => gp_devices p = []
  | GPM_kRequired =>
      1 <= len (gp_devices p) <= kMaxPlacementDevices /\
      NoDup (gp_devices p) /\ Forall (fun d => uuid_valid d = true) (gp_devices p)
  | GPM_kPreferred => exists d, gp_devices p = [d] /\ uuid_valid d = true
  end.

Definition option_all {A} (P : A -> Prop) (o : option A) : Prop :=
  match o with Some a => P a | None => True end.

(** What a submission must satisfy, read declaratively. *)
Record SpecOk (spec : JobSpec) : Prop := {
  so_owner : owner_uid spec <> 0;
  so_argc : 1 <= len (argv spec) <= kMaxArgumentCount;
  so_argv : Forall argument_ok (argv spec);
  so_argv_bytes : sum_sizes slen (argv spec) <= kMaxArgumentBytes;
  so_argv0 : head (argv spec) <> Some EmptyString;
  so_cwd : absolute_path kMaxWorkingDirectoryBytes (cwd spec);
  so_envc : msize (env spec) <= kMaxEnvironmentVariables;
  so_env : Forall environment_entry_ok (map_entries (env spec));
  so_env_bytes : sum_sizes entry_bytes (map_entries (env spec)) <= kMaxEnvironmentBytes;
  so_placement : placement_ok (gpu_placement spec);
  so_gpu_request : gpu_request spec = 1;
  so_executable : option_all (absolute_path kMaxExecutableBytes) (executable spec);
  so_python : option_all (fun m => option_all (bounded_string kMaxPythonVersionBytes)
                                     (em_python_version m)) (env_metadata spec);
  so_profile : option_all (bounded_string kMaxLaunchProfileBytes) (launch_profile spec);
  so_logdir : option_all logdir_ok (tensorboard_logdir spec);
  so_submit_time : (0 < submit_time spec)%Z;
}.

(** ** Specification of the life cycle *)

(** One applied transition of a [Job] object. *)
Inductive job_step : Job -> Job -> Prop :=
| job_step_to j s res j' :
    transition_to j s = (res, j') -> tr_outcome res = TO_kApplied -> job_step j j'.

(** Any sequence of [transition_to] calls, rejected ones included. *)
Inductive job_calls : Job -> list JobState -> Job -> Prop :=
| job_calls_nil j : job_calls j [] j
| job_calls_cons j s j' l j'' :
    (transition_to j s).2 = j' -> job_calls j' l j'' -> job_calls j (s :: l) j''.

(** Distance from [kQueued] along the longest path; every legal transition
    increases it. *)
Definition state_rank (s : JobState) : N :=
  match s with
  | kQueued => 0
  | kStarting => 1
  | kRunning => 2
  | kStopping => 3
  | kFinished | kFailed | kCancelled | kLost => 4
  end.

(** ** Lemmas *)

Lemma usub64_le a b : b <= a -> usub64 a b = a - b.
Proof. intros H. unfold usub64. apply N.leb_le in H. by rewrite H. Qed.

Lemma add_within_limit_some value total limit t :
  total <= limit ->
  add_within_limit value total limit = Some t <-> t = total + value /\ total + value <= limit.
Proof.
  intros Hle. unfold add_within_limit. rewrite usub64_le by done.
  destruct (N.ltb_spec (limit - total) value); split; intros; simplify_eq; lia || (split; [done|lia]) || idtac.
  f_equal. lia.
Qed.

Lemma add_within_limit_none value total limit :
  total <= limit -> add_within_limit value total limit = None <-> limit < total + value.
Proof.
  intros Hle. unfold add_within_limit. rewrite usub64_le by done.
  destruct (N.ltb_spec (limit - total) value); split; intros; simplify_eq; lia || done.
Qed.

Lemma check_argument_ok i acc a t :
  acc <= kMaxArgumentBytes ->
  check_argument i acc a = Ok t <->
  argument_ok a /\ t = acc + slen a /\ acc + slen a <= kMaxArgumentBytes.
Proof.
  intros Hacc. unfold check_argument, argument_ok.
  destruct (contains_nul a); [naive_solver|].
  destruct (N.ltb_spec kMaxSingleArgumentBytes (slen a)); [naive_solver lia|].
  destruct (add_within_limit _ _ _) as [t'|] eqn:E.
  - apply add_within_limit_some in E as [-> ?]; [|done]. naive_solver.
  - apply add_within_limit_none in E; [|done]. split; [done|lia].
Qed.

Lemma check_environment_entry_ok i acc e t :
  acc <= kMaxEnvironmentBytes ->
  check_environment_entry i acc e = Ok t <->
  environment_entry_ok e /\ t = acc + entry_bytes e /\ acc + entry_bytes e <= kMaxEnvironmentBytes.
Proof.
  intros Hacc. destruct e as [name value].
  unfold check_environment_entry, environment_entry_ok, entry_bytes; simpl.
  destruct (is_valid_environment_name name); simpl; [|naive_solver].
  destruct (N.ltb_spec kMaxEnvironmentNameBytes (slen name)); [naive_solver lia|].
  destruct (N.ltb_spec kMaxEnvironmentValueBytes (slen value)); simpl; [naive_solver lia|].
  destruct (contains_nul value); [naive_solver|].
  destruct (add_within_limit (slen name) _ _) as [t1|] eqn:E1; simpl.
  - apply add_within_limit_some in E1 as [-> ?]; [|done].
    destruct (add_within_limit (slen value) _ _) as [t2|] eqn:E2; simpl.
    + apply add_within_limit_some in E2 as [-> ?]; [|done]. rewrite N.add_assoc. naive_solver.
    + apply add_within_limit_none in E2; [|done]. split; [done|lia].
  - apply add_within_limit_none in E1; [|done]. split; [done|lia].
Qed.

(** Both bounded-total loops accept exactly the lists whose items are fine and
    whose sizes add up to at most the limit. *)
Lemma bounded_loop_ok {X A} (f : N -> N -> A -> Result X N)
    (P : A -> Prop) (sz : A -> N) limit :
  (forall i acc a t, acc <= limit ->
     f i acc a = Ok t <-> P a /\ t = acc + sz a /\ acc + sz a <= limit) ->
  forall l i acc, acc <= limit ->
    is_ok (fold_result_idx f i acc l) = true <-> Forall P l /\ acc + sum_sizes sz l <= limit.
Proof.
  intros Hf l. induction l as [|a l IH]; intros i acc Hacc; simpl.
  { rewrite N.add_0_r. split; [done|naive_solver]. }
  destruct (f i acc a) as [t|e] eqn:E; simpl.
  - apply Hf in E as (HP & -> & Hle); [|done].
    rewrite IH by done. rewrite Forall_cons, N.add_assoc. naive_solver.
  - split; [done|]. rewrite Forall_cons. intros [[HP _] Hsum].
    assert (f i acc a = Ok (acc + sz a)) as E' by (apply Hf; [done|]; split; [done|split; [done|lia]]).
    congruence.
Qed.

Lemma bad_bounded_string_false limit s :
  bad_bounded_string limit s = false <-> bounded_string limit s.
Proof.
  unfold bad_bounded_string, bounded_string.
  rewrite !orb_false_iff, N.ltb_ge. destruct s; simpl; naive_solver.
Qed.

Lemma check_required_devices_spec prior l :
  check_required_devices prior l = true <->
  Forall (fun d => uuid_valid d = true) l /\ NoDup l /\ (forall d, d ∈ l -> d ∉ prior).
Proof.
  revert prior. induction l as [|d l IH]; intros prior; simpl.
  { repeat split; [constructor|constructor|]. intros ? []%not_elem_of_nil. }
  rewrite !andb_true_iff, negb_true_iff, IH, Forall_cons, NoDup_cons.
  assert (existsb (fun p => bool_decide (p = d)) prior = false <-> d ∉ prior) as ->.
  { rewrite <- not_true_iff_false, existsb_exists. setoid_rewrite bool_decide_eq_true.
    setoid_rewrite <- list_elem_of_In. naive_solver. }
  setoid_rewrite elem_of_cons. setoid_rewrite elem_of_app.
  setoid_rewrite list_elem_of_singleton. naive_solver.
Qed.

Lemma check_placement_ok p req :
  is_ok (check_placement p req) = true <->
  placement_ok p /\ (gp_mode p <> GPM_kAny -> req = 1).
Proof.
  unfold check_placement, placement_ok. destruct (gp_mode p).
  - case_bool_decide; simpl; naive_solver.
  - case_bool_decide as Hnil; simpl.
    { rewrite Hnil, len_nil. split; [done|lia]. }
    destruct (N.ltb_spec kMaxPlacementDevices (len (gp_devices p))); simpl; [naive_solver lia|].
    destruct (check_required_devices [] (gp_devices p)) eqn:E; simpl.
    + apply check_required_devices_spec in E as (? & ? & _).
      destruct (N.eqb_spec req 1); simpl; [|naive_solver].
      split; [|done]. intros _. repeat split; try done.
      destruct (gp_devices p); [done|]. rewrite len_cons. lia.
    + split; [done|]. intros ((? & ? & ?) & _).
      assert (check_required_devices [] (gp_devices p) = true); [|congruence].
      apply check_required_devices_spec. repeat split; [done..|].
      intros ? _. apply not_elem_of_nil.
  - destruct (gp_devices p) as [|d [|]]; simpl; [naive_solver| |naive_solver].
    destruct (uuid_valid d) eqn:?; simpl; [|naive_solver].
    destruct (N.eqb_spec req 1); simpl; naive_solver.
Qed.

Lemma is_valid_tensorboard_logdir_spec path :
  is_valid_tensorboard_logdir path = true <-> logdir_ok path.
Proof.
  unfold is_valid_tensorboard_logdir, logdir_ok.
  rewrite <- bad_bounded_string_false. unfold bad_bounded_string.
  destruct (sempty path || _ || _); simpl; [naive_solver|].
  destruct (front_is _ path); simpl; [naive_solver|].
  rewrite forallb_forall, Forall_forall.
  setoid_rewrite negb_true_iff. setoid_rewrite bool_decide_eq_false.
  setoid_rewrite list_elem_of_In. naive_solver.
Qed.

Lemma sempty_false s : sempty s = false <-> s <> EmptyString.
Proof. destruct s; naive_solver. Qed.

Lemma errs_sat_add {A} (P : JobSpecValidationResult -> Prop) value total limit e
    (k : N -> Result JobSpecValidationResult A) :
  P e -> (forall t, errs_sat P (k t)) ->
  errs_sat P (match add_within_limit value total limit with None => Err e | Some t => k t end).
Proof. intros. by destruct (add_within_limit _ _ _). Qed.

(** Walks a validation term, discharging the side conditions on the codes. *)
Ltac walk_codes :=
  repeat first
    [ walk_errs
    | apply errs_sat_add; [done|intros ?]
    | progress unfold check_argument, check_environment_entry, check_placement
    | destruct (gp_mode _)
    | case_match ].

Lemma validate_checks_coded spec : errs_sat (fun e => sv_code e <> JSE_kNone) (validate_checks spec).
Proof. unfold validate_checks. walk_codes. Qed.

Lemma validate_root spec :
  sv_code (validate spec) = JSE_kRootOwnerNotAllowed <-> owner_uid spec = 0.
Proof.
  assert (owner_uid spec <> 0 ->
    errs_sat (fun e => sv_code e <> JSE_kRootOwnerNotAllowed) (validate_checks spec)) as Hne.
  { intros Hu. unfold validate_checks. rewrite (proj2 (N.eqb_neq _ _) Hu). walk_codes. }
  unfold validate in *. destruct (N.eq_dec (owner_uid spec) 0) as [Hu|Hu].
  - split; [done|]. intros _. unfold validate_checks. by rewrite Hu.
  - specialize (Hne Hu). destruct (validate_checks spec); simpl in *; [|tauto].
    split; [done|]. intros ?. done.
Qed.

Lemma validate_ok_checks spec :
  sv_code (validate spec) = JSE_kNone <-> validate_checks spec = Ok tt.
Proof.
  unfold validate. destruct (validate_checks spec) as [[]|r] eqn:E; simpl; [done|].
  pose proof (validate_checks_coded spec) as Hc. rewrite E in Hc. naive_solver.
Qed.

Lemma option_guard_false {A} (b : A -> bool) (P : A -> Prop) (o : option A) :
  (forall a, b a = false <-> P a) ->
  (match o with Some a => b a | None => false end = false <-> option_all P o).
Proof. intros Hb. destruct o; simpl; [apply Hb|done]. Qed.

Lemma is_ok_validate_checks spec : is_ok (validate_checks spec) = true <-> SpecOk spec.
Proof.
  unfold validate_checks.
  rewrite !is_ok_reject, !is_ok_bind_const, !is_ok_reject, !is_ok_bind_const, !is_ok_reject.
  rewrite (bounded_loop_ok check_argument argument_ok slen kMaxArgumentBytes) by
    (done || apply check_argument_ok).
  rewrite (bounded_loop_ok check_environment_entry environment_entry_ok entry_bytes
             kMaxEnvironmentBytes) by (done || apply check_environment_entry_ok).
  rewrite check_placement_ok, negb_false_iff, !N.add_0_l.
  rewrite (option_guard_false _ (absolute_path kMaxExecutableBytes)).
  2: { intros e. unfold absolute_path.
       by rewrite orb_false_iff, bad_bounded_string_false, negb_false_iff. }
  rewrite (option_guard_false _ (fun m => option_all (bounded_string kMaxPythonVersionBytes)
                                            (em_python_version m))).
  2: { intros m. apply option_guard_false. intros. apply bad_bounded_string_false. }
  rewrite (option_guard_false _ (bounded_string kMaxLaunchProfileBytes))
    by (intros; apply bad_bounded_string_false).
  rewrite (option_guard_false _ logdir_ok)
    by (intros; rewrite negb_false_iff; apply is_valid_tensorboard_logdir_spec).
  rewrite !orb_false_iff, negb_false_iff, !N.eqb_neq, N.eqb_eq, Z.leb_gt, !N.ltb_ge,
    bool_decide_eq_false, sempty_false.
  split.
  - intros (? & Hne & ? & [? ?] & Harg0 & [[[? ?] ?] ?] & ? & [? ?] & [? _] & ? & ? & ? & ? & ? & ? & _).
    constructor; try done.
    + split; [|done]. destruct (argv spec); [done|]. rewrite len_cons. lia.
    + destruct (argv spec) as [|a l]; [done|]. simpl. intros [= ->]. done.
  - intros []. unfold absolute_path, bounded_string in so_cwd0.
    destruct (argv spec) as [|a l] eqn:E; [rewrite len_nil in so_argc0; lia|].
    simpl in so_argv2. assert (sempty a = false) by (apply sempty_false; naive_solver).
    naive_solver.
Qed.

(** [validate] accepts exactly the submissions that satisfy the declarative
    contract [SpecOk]: a non-root owner, bounded NUL-free arguments with a
    non-empty program name, an absolute working directory, a bounded
    environment with well-formed names, a consistent placement (an empty,
    duplicate-free 1..8 or singleton device list according to the mode), one
    GPU, and well-formed optional fields. *)
Theorem validate_ok_iff spec : sv_code (validate spec) = JSE_kNone <-> SpecOk spec.
Proof.
  rewrite validate_ok_checks, <- is_ok_validate_checks.
  destruct (validate_checks spec) as [[]|]; naive_solver.
Qed.

Lemma spec_valid_iff spec : spec_valid spec = true <-> SpecOk spec.
Proof.
  unfold spec_valid, spec_result_ok.
  rewrite bool_decide_eq_true, validate_ok_checks, <- is_ok_validate_checks.
  destruct (validate_checks spec) as [[]|]; naive_solver.
Qed.

(** The codes the argument loop can report. *)
Definition is_argument_code (code : JobSpecErrorCode) : bool :=
  match code with
  | JSE_kInvalidArgument | JSE_kArgumentTooLong | JSE_kArgumentsTooLarge => true
  | _ => false
  end.

(** Why the argument at hand was refused, after the ones in [pre]. *)
Definition argument_offence (code : JobSpecErrorCode) (pre : list string) (a : string) : Prop :=
  match code with
  | JSE_kInvalidArgument => contains_nul a = true
  | JSE_kArgumentTooLong => contains_nul a = false /\ kMaxSingleArgumentBytes < slen a
  | JSE_kArgumentsTooLarge => argument_ok a /\ kMaxArgumentBytes < sum_sizes slen pre + slen a
  | _ => False
  end.

Lemma check_argument_err i acc a r :
  acc <= kMaxArgumentBytes -> check_argument i acc a = Err r ->
  sv_item_index r = Some i /\
  match sv_code r with
  | JSE_kInvalidArgument => contains_nul a = true
  | JSE_kArgumentTooLong => contains_nul a = false /\ kMaxSingleArgumentBytes < slen a
  | JSE_kArgumentsTooLarge => argument_ok a /\ kMaxArgumentBytes < acc + slen a
  | _ => False
  end.
Proof.
  intros Hacc. unfold check_argument, argument_ok.
  destruct (contains_nul a) eqn:?; [by intros [= <-]|].
  destruct (N.ltb_spec kMaxSingleArgumentBytes (slen a)); [by intros [= <-]|].
  destruct (add_within_limit _ _ _) eqn:E; [done|]. intros [= <-].
  by apply add_within_limit_none in E.
Qed.

Lemma argument_loop_err l i acc r :
  acc <= kMaxArgumentBytes -> fold_result_idx check_argument i acc l = Err r ->
  exists pre a post, l = pre ++ a :: post /\ sv_item_index r = Some (i + len pre) /\
    Forall argument_ok pre /\ acc + sum_sizes slen pre <= kMaxArgumentBytes /\
    match sv_code r with
    | JSE_kInvalidArgument => contains_nul a = true
    | JSE_kArgumentTooLong => contains_nul a = false /\ kMaxSingleArgumentBytes < slen a
    | JSE_kArgumentsTooLarge => argument_ok a /\ kMaxArgumentBytes < acc + sum_sizes slen pre + slen a
    | _ => False
    end.
Proof.
  revert i acc. induction l as [|a l IH]; intros i acc Hacc H; simpl in H; [done|].
  destruct (check_argument i acc a) as [t|e] eqn:E; simpl in H.
  - apply check_argument_ok in E as (Ha & -> & Hle); [|done].
    apply IH in H as (pre & b & post & -> & Hi & Hpre & Hsum & Hc); [|done].
    exists (a :: pre), b, post. simpl. rewrite len_cons, !N.add_assoc.
    repeat split; [|by constructor|lia|].
    + rewrite Hi. f_equal. lia.
    + done.
  - simplify_eq. apply check_argument_err in E as [Hi Hc]; [|done].
    exists [], a, l. simpl. rewrite !N.add_0_r. repeat split; [done|constructor|done|done].
Qed.

(** A rejection of an argument names the first offending one: with index
    [i] and an argument code, [argv\[i\]] holds a NUL byte, is longer than
    16 KiB, or pushes the total over 64 KiB (according to the code), and every
    earlier argument is acceptable. *)
Theorem validate_argument_error spec code i :
  validate spec = mkSpecResult code (Some i) ->
  is_argument_code code = true ->
  exists pre a post, argv spec = pre ++ a :: post /\ len pre = i /\
    Forall argument_ok pre /\ sum_sizes slen pre <= kMaxArgumentBytes /\
    argument_offence code pre a.
Proof.
  intros Hv Hcode. unfold validate in Hv.
  destruct (validate_checks spec) as [|r] eqn:E; [done|]. subst r.
  unfold validate_checks in E.
  do 3 (case_match; [by simplify_eq|]).
  destruct (fold_result_idx check_argument 0 0 (argv spec)) as [t|r] eqn:Hargs; simpl in E.
  - match type of E with
    | ?tail = _ =>
        assert (errs_sat (fun e => is_argument_code (sv_code e) = false) tail) as Ht by walk_codes
    end.
    rewrite E in Ht. simpl in Ht. congruence.
  - simplify_eq. apply argument_loop_err in Hargs as (pre & a & post & -> & Hi & Hpre & Hsum & Hc); [|done].
    simpl in Hi. simplify_eq. exists pre, a, post. rewrite N.add_0_l in *. done.
Qed.

(** *** Life cycle *)

Lemma can_transition_rank s t : can_transition s t = true -> state_rank s < state_rank t.
Proof. by destruct s, t. Qed.

Lemma can_transition_terminal s t : is_terminal s = true -> can_transition s t = false.
Proof. by destruct s. Qed.

Lemma can_transition_not_queued s t : can_transition s t = true -> t <> kQueued.
Proof. by destruct s, t. Qed.

(** The states with revision 0 are the initial ones, and a revision never
    exceeds the rank of the state it was reached in. *)
Definition job_wf (j : Job) : Prop :=
  job_revision j <= state_rank (job_state j) /\ (job_revision j = 0 <-> job_state j = kQueued).

Lemma state_rank_max s : state_rank s <= 4.
Proof. by destruct s. Qed.

Lemma transition_to_wf j s : job_wf j -> job_wf (transition_to j s).2.
Proof.
  intros [Hrank H0]. unfold transition_to.
  destruct (is_terminal (job_state j)); [done|].
  destruct (can_transition (job_state j) s) eqn:E; simpl; [|done].
  pose proof (can_transition_rank _ _ E). pose proof (state_rank_max s).
  split; simpl; unfold uadd64.
  - rewrite N.mod_small; unfold u64_max; lia.
  - rewrite N.mod_small by (unfold u64_max; lia).
    split; [lia|]. intros Hq. by apply (can_transition_not_queued _ _ E) in Hq.
Qed.

Lemma transition_to_frame j s :
  job_id (transition_to j s).2 = job_id j /\ job_spec (transition_to j s).2 = job_spec j.
Proof. unfold transition_to. by repeat case_match. Qed.

Lemma job_calls_invariant j l j' :
  job_calls j l j' -> job_wf j ->
  job_wf j' /\ job_id j' = job_id j /\ job_spec j' = job_spec j.
Proof.
  induction 1 as [|j s j1 l j2 <- _ IH]; intros Hwf; [done|].
  destruct (transition_to_frame j s) as [Hid Hspec].
  rewrite <- Hid, <- Hspec. apply IH. by apply transition_to_wf.
Qed.

Lemma transition_to_terminal j s :
  is_terminal (job_state j) = true -> (transition_to j s).2 = j.
Proof. intros H. unfold transition_to. by rewrite H. Qed.

(** A job created by [Job::create] keeps its id and its (valid)
    specification through any sequence of [transition_to] calls, accepted or
    not; at most four of them are ever applied (so the revision counter never
    wraps), and its revision is 0 exactly while it is queued. *)
Theorem job_lifecycle id spec e j0 l j :
  create id spec = (e, Some j0) -> job_calls j0 l j ->
  job_id j = id /\ job_spec j = spec /\ SpecOk spec /\
  job_revision j <= 4 /\ (job_revision j = 0 <-> job_state j = kQueued).
Proof.
  unfold create. intros Hc Hcalls.
  destruct (job_id_valid id); simpl in Hc; [|done].
  destruct (spec_result_ok (validate spec)) eqn:Hv; simpl in Hc; [|done].
  injection Hc as <- <-.
  apply job_calls_invariant in Hcalls as ([Hrank H0] & -> & ->); [|split; simpl; [lia|done]].
  pose proof (state_rank_max (job_state j)).
  split; [done|]. split; [done|]. split; [by apply spec_valid_iff|]. split; [lia|done].
Qed.

(** Terminal states are absorbing: once a job is finished, failed,
    cancelled or lost, no sequence of requests changes anything about it, and
    every further request is answered as idempotent (same state) or ignored. *)
Theorem terminal_absorbing j l j' s :
  is_terminal (job_state j) = true -> job_calls j l j' ->
  j' = j /\
  (transition_to j' s).1 =
    mkTransition (job_state j) s
      (if bool_decide (s = job_state j) then TO_kIdempotentTerminal else TO_kIgnoredAfterTerminal)
      (job_revision j).
Proof.
  intros Ht Hcalls. assert (j' = j) as ->.
  { revert Ht. induction Hcalls as [|j s' j1 l j2 <- _ IH]; intros Ht; [done|].
    rewrite transition_to_terminal in IH by done. by apply IH. }
  split; [done|]. unfold transition_to. by rewrite Ht.
Qed.

(** ** Witnesses *)

Definition example_spec : JobSpec := {|
  owner_uid := 1000; owner_gid := 1000;
  argv := ["python"; "train.py"]; cwd := "/home/u";
  env := {[ "PATH" := "/usr/bin" ]};
  executable := Some "/usr/bin/python";
  env_metadata := Some (mkEnvMetadata ES_kConda (Some "3.11"));
  gpu_request := 1;
  gpu_placement := mkGpuPlacement GPM_kAny [];
  launch_profile := None; tensorboard_logdir := Some "runs/a"; submit_time := 7 |}.

Example validate_logdir_escape :
  sv_code (validate {| example_spec with tensorboard_logdir := Some "runs/../../etc" |}) =
  JSE_kInvalidTensorboardLogdir.
Proof. vm_compute. reflexivity. Qed.

Lemma validate_argument_error_witness :
  exists pre a post, ["a"; String nul ""] = pre ++ a :: post /\ len pre = 1 /\
    Forall argument_ok pre /\ sum_sizes slen pre <= kMaxArgumentBytes /\
    argument_offence JSE_kInvalidArgument pre a.
Proof.
  apply (validate_argument_error {| example_spec with argv := ["a"; String nul ""] |}
           JSE_kInvalidArgument 1); vm_compute; reflexivity.
Defined.

Lemma job_lifecycle_witness :
  job_revision (mkJob 3 example_spec kCancelled 3) <= 4.
Proof.
  refine (proj1 (proj2 (proj2 (proj2
    (job_lifecycle 3 example_spec (mkCreationError JCE_kNone spec_ok_result)
       (mkJob 3 example_spec kQueued 0)
       [kRunning; kStarting; kStopping; kQueued; kCancelled] _ _ _))))).
  - vm_compute. reflexivity.
  - repeat (eapply job_calls_cons; [reflexivity|]). apply job_calls_nil.
Defined.

Lemma terminal_absorbing_witness :
  mkJob 3 example_spec kLost 2 = mkJob 3 example_spec kLost 2.
Proof.
  refine (proj1 (terminal_absorbing (mkJob 3 example_spec kLost 2) [kQueued; kRunning] _ kLost _ _)).
  - reflexivity.
  - repeat (eapply job_calls_cons; [reflexivity|]). apply job_calls_nil.
Defined.
