(* ===== verification/Gpu.v ===== *)
(** * GPU observations: [include/yori/gpu/gpu_provider.hpp],
    [src/gpu/gpu_provider.cpp]

    Device observations, their structural validation and the scheduling view
    that merges an observation with a lease.  [SnapshotOk] is the declarative
    reading of [gpu::validate]. *)

From S2P Require Import Prelude.
From S2P Require Import Job.

(** ** Data *)

Inductive GpuObservedState := GO_kFree | GO_kExternalBusy | GO_kUnavailable.

#[export] Instance GpuObservedState_eq_dec : EqDecision GpuObservedState.
Proof. solve_decision. Defined.

Inductive GpuLogicalState := GL_kFree | GL_kAllocated | GL_kExternalBusy | GL_kUnavailable.

#[export] Instance GpuLogicalState_eq_dec : EqDecision GpuLogicalState.
Proof. solve_decision. Defined.

Record GpuTelemetry := mkTelemetry {
  utilization_percent : option N;
  memory_total_bytes : option N;
  memory_used_bytes : option N;
}.

Record GpuObservation := mkObservation {
  go_uuid : GpuUuid;
  go_index : N;
  go_state : GpuObservedState;
  go_telemetry : GpuTelemetry;
}.

Definition GpuObservationSnapshot_kMaxDevices : N := 128.

Record GpuObservationSnapshot := mkGpuSnapshot {
  gs_revision : N;
  gs_observed_at : Z;
  gs_devices : list GpuObservation;
}.

(** The source's [kInvalidState] answers an out-of-range enum value, which a
    value of [GpuObservedState] cannot be; the code is kept. *)
Inductive GpuObservationErrorCode :=
| GE_kNone
| GE_kInvalidRevision
| GE_kInvalidObservationTime
| GE_kTooManyDevices
| GE_kInvalidUuid
| GE_kDuplicateUuid
| GE_kDuplicateIndex
| GE_kInvalidState
| GE_kInvalidUtilization
| GE_kInvalidMemoryTelemetry.

#[export] Instance GpuObservationErrorCode_eq_dec : EqDecision GpuObservationErrorCode.
Proof. solve_decision. Defined.

Record GpuObservationValidationResult := mkGpuResult {
  gv_code : GpuObservationErrorCode;
  gv_item_index : option N;
}.

Definition gpu_ok_result : GpuObservationValidationResult := mkGpuResult GE_kNone None.

(** [GpuObservationValidationResult::ok] *)
Definition gpu_result_ok (r : GpuObservationValidationResult) : bool :=
  bool_decide (gv_code r = GE_kNone).

Record GpuLease := mkLease {
  lease_gpu_uuid : GpuUuid;
  lease_job_id : JobId;
}.

#[export] Instance GpuLease_eq_dec : EqDecision GpuLease.
Proof. solve_decision. Defined.

Inductive GpuProviderErrorCode :=
| GP_kNone | GP_kBackendUnavailable | GP_kPermissionDenied | GP_kObservationFailed.

#[export] Instance GpuProviderErrorCode_eq_dec : EqDecision GpuProviderErrorCode.
Proof. solve_decision. Defined.

Record GpuProviderResult := mkProviderResult {
  pr_code : GpuProviderErrorCode;
  pr_snapshot : GpuObservationSnapshot;
}.

(** ** Operations *)

Definition derive_logical_state (observed_state : GpuObservedState) (has_lease : bool)
  : GpuLogicalState :=
  if has_lease then GL_kAllocated
  else match observed_state with
       | GO_kFree => GL_kFree
       | GO_kExternalBusy => GL_kExternalBusy
       | GO_kUnavailable => GL_kUnavailable
       end.

(** The inner loop over the earlier devices: uuid first, then index. *)
Fixpoint check_earlier (index : N) (device : GpuObservation) (earlier : list GpuObservation)
  : Result GpuObservationValidationResult unit :=
  match earlier with
  | [] => Ok tt
  | e :: rest =>
      reject_if bool_decide (go_uuid e = go_uuid device)
        with mkGpuResult GE_kDuplicateUuid (Some index);
      reject_if go_index e =? go_index device with mkGpuResult GE_kDuplicateIndex (Some index);
      check_earlier index device rest
  end.

(** The checks on one device's telemetry. *)
Definition check_telemetry (index : N) (t : GpuTelemetry)
  : Result GpuObservationValidationResult unit :=
  reject_if match utilization_percent t with Some u => 100 <? u | None => false end
    with mkGpuResult GE_kInvalidUtilization (Some index);
  reject_if match memory_used_bytes t, memory_total_bytes t with
            | Some _, None => true
            | _, _ => false
            end
    with mkGpuResult GE_kInvalidMemoryTelemetry (Some index);
  reject_if match memory_total_bytes t with
            | Some total => (total =? 0) || match memory_used_bytes t with
                                            | Some used => total <? used
                                            | None => false
                                            end
            | None => false
            end
    with mkGpuResult GE_kInvalidMemoryTelemetry (Some index);
  Ok tt.

(** One iteration of the device loop; the accumulator holds the devices before
    [index]. *)
Definition check_device (index : N) (earlier : list GpuObservation) (device : GpuObservation)
  : Result GpuObservationValidationResult (list GpuObservation) :=
  reject_if negb (uuid_valid (go_uuid device)) with mkGpuResult GE_kInvalidUuid (Some index);
  let? _ := check_telemetry index (go_telemetry device) in
  let? _ := check_earlier index device earlier in
  Ok (earlier ++ [device]).

Definition gpu_validate_checks (snapshot : GpuObservationSnapshot)
  : Result GpuObservationValidationResult unit :=
  reject_if gs_revision snapshot =? 0 with mkGpuResult GE_kInvalidRevision None;
  reject_if (gs_observed_at snapshot <=? 0)%Z with mkGpuResult GE_kInvalidObservationTime None;
  reject_if GpuObservationSnapshot_kMaxDevices <? len (gs_devices snapshot)
    with mkGpuResult GE_kTooManyDevices None;
  let? _ := fold_result_idx check_device 0 [] (gs_devices snapshot) in
  Ok tt.

(** [gpu::validate] *)
Definition gpu_validate (snapshot : GpuObservationSnapshot) : GpuObservationValidationResult :=
  match gpu_validate_checks snapshot with
  | Ok _ => gpu_ok_result
  | Err r => r
  end.

(** [to_string(GpuObservedState)] *)
Definition GpuObservedState_to_string (state : GpuObservedState) : string :=
  match state with
  | GO_kFree => "FREE"
  | GO_kExternalBusy => "EXTERNAL_BUSY"
  | GO_kUnavailable => "UNAVAILABLE"
  end.

(** [to_string(GpuLogicalState)] *)
Definition GpuLogicalState_to_string (state : GpuLogicalState) : string :=
  match state with
  | GL_kFree => "FREE"
  | GL_kAllocated => "ALLOCATED"
  | GL_kExternalBusy => "EXTERNAL_BUSY"
  | GL_kUnavailable => "UNAVAILABLE"
  end.

(** [to_string(GpuObservationErrorCode)] *)
Definition GpuObservationErrorCode_to_string (code : GpuObservationErrorCode) : string :=
  match code with
  | GE_kNone => "NONE"
  | GE_kInvalidRevision => "INVALID_REVISION"
  | GE_kInvalidObservationTime => "INVALID_OBSERVATION_TIME"
  | GE_kTooManyDevices => "TOO_MANY_DEVICES"
  | GE_kInvalidUuid => "INVALID_UUID"
  | GE_kDuplicateUuid => "DUPLICATE_UUID"
  | GE_kDuplicateIndex => "DUPLICATE_INDEX"
  | GE_kInvalidState => "INVALID_STATE"
  | GE_kInvalidUtilization => "INVALID_UTILIZATION"
  | GE_kInvalidMemoryTelemetry => "INVALID_MEMORY_TELEMETRY"
  end.

(** [to_string(GpuProviderErrorCode)] *)
Definition GpuProviderErrorCode_to_string (code : GpuProviderErrorCode) : string :=
  match code with
  | GP_kNone => "NONE"
  | GP_kBackendUnavailable => "BACKEND_UNAVAILABLE"
  | GP_kPermissionDenied => "PERMISSION_DENIED"
  | GP_kObservationFailed => "OBSERVATION_FAILED"
  end.

(** ** Specification *)

Definition telemetry_ok (t : GpuTelemetry) : Prop :=
  (forall u, utilization_percent t = Some u -> u <= 100) /\
  (forall used, memory_used_bytes t = Some used ->
     exists total, memory_total_bytes t = Some total /\ used <= total) /\
  (forall total, memory_total_bytes t = Some total -> total <> 0).

Record SnapshotOk (s : GpuObservationSnapshot) : Prop := {
  sn_revision : gs_revision s <> 0;
  sn_time : (0 < gs_observed_at s)%Z;
  sn_count : len (gs_devices s) <= GpuObservationSnapshot_kMaxDevices;
  sn_uuids : Forall (fun d => uuid_valid (go_uuid d) = true) (gs_devices s);
  sn_telemetry : Forall (fun d => telemetry_ok (go_telemetry d)) (gs_devices s);
  sn_nodup_uuid : NoDup (go_uuid <$> gs_devices s);
  sn_nodup_index : NoDup (go_index <$> gs_devices s);
}.

(** ** Lemmas *)

Lemma check_telemetry_ok i t : is_ok (check_telemetry i t) = true <-> telemetry_ok t.
Proof.
  unfold check_telemetry, telemetry_ok. rewrite !is_ok_reject. simpl.
  destruct t as [[u|] [total|] [used|]]; simpl;
    rewrite ?orb_false_iff, ?N.ltb_ge, ?N.eqb_neq; naive_solver.
Qed.

Lemma check_earlier_ok i d l :
  is_ok (check_earlier i d l) = true <->
  Forall (fun e => go_uuid e <> go_uuid d /\ go_index e <> go_index d) l.
Proof.
  induction l as [|e l IH]; simpl; [naive_solver|].
  rewrite !is_ok_reject, IH, Forall_cons, bool_decide_eq_false, N.eqb_neq. naive_solver.
Qed.

Lemma check_device_ok i earlier d r :
  check_device i earlier d = Ok r <->
  r = earlier ++ [d] /\ uuid_valid (go_uuid d) = true /\ telemetry_ok (go_telemetry d) /\
  Forall (fun e => go_uuid e <> go_uuid d /\ go_index e <> go_index d) earlier.
Proof.
  unfold check_device.
  rewrite <- (check_telemetry_ok i), <- (check_earlier_ok i).
  destruct (uuid_valid (go_uuid d)); simpl; [|naive_solver].
  destruct (check_telemetry i (go_telemetry d)); simpl; [|naive_solver].
  destruct (check_earlier i d earlier); simpl; naive_solver.
Qed.

Lemma device_loop_ok l i earlier :
  is_ok (fold_result_idx check_device i earlier l) = true <->
  Forall (fun d => uuid_valid (go_uuid d) = true) l /\
  Forall (fun d => telemetry_ok (go_telemetry d)) l /\
  NoDup (go_uuid <$> l) /\ NoDup (go_index <$> l) /\
  (forall e d, e ∈ earlier -> d ∈ l -> go_uuid e <> go_uuid d /\ go_index e <> go_index d).
Proof.
  revert i earlier. induction l as [|d l IH]; intros i earlier; simpl.
  { split; [|done]. intros _. split_and!; [constructor..|]. by intros ?? ? ?%not_elem_of_nil. }
  rewrite !Forall_cons, !NoDup_cons.
  destruct (check_device i earlier d) as [r|e] eqn:E; simpl.
  - apply check_device_ok in E as (-> & Hu & Ht & Hearlier).
    rewrite Forall_forall in Hearlier. rewrite IH, !list_elem_of_fmap. split.
    + intros (? & ? & ? & ? & Hsep).
      assert (forall d', d' ∈ l -> go_uuid d <> go_uuid d' /\ go_index d <> go_index d') as Hd.
      { intros d' Hd'. apply Hsep; [|done]. apply elem_of_app. right. by left. }
      split_and!; try done.
      * intros (d' & Heq & Hd'). by destruct (Hd _ Hd').
      * intros (d' & Heq & Hd'). by destruct (Hd _ Hd').
      * intros e d' He [->|Hd']%elem_of_cons; [by apply Hearlier|].
        apply Hsep; [|done]. apply elem_of_app. by left.
    + intros ([_ ?] & [_ ?] & [Hnu ?] & [Hni ?] & Hsep). split_and!; try done.
      intros e d' [He| ->%list_elem_of_singleton]%elem_of_app Hd'.
      * apply Hsep; [done|]. by right.
      * split; intros ?; [apply Hnu|apply Hni]; by exists d'.
  - split; [done|]. intros (? & ? & _ & _ & Hall).
    assert (check_device i earlier d = Ok (earlier ++ [d])) as E'; [|congruence].
    apply check_device_ok. split_and!; try tauto.
    apply Forall_forall. intros e' He'. apply Hall; [done|by left].
Qed.

Lemma gpu_validate_checks_ok s : is_ok (gpu_validate_checks s) = true <-> SnapshotOk s.
Proof.
  unfold gpu_validate_checks.
  rewrite !is_ok_reject, is_ok_bind_const, device_loop_ok, N.eqb_neq, Z.leb_gt, N.ltb_ge.
  split.
  - intros (? & ? & ? & (? & ? & ? & ? & _) & _). by constructor.
  - intros []. split_and!; try done; by intros ?? ?%not_elem_of_nil.
Qed.

Lemma gpu_validate_checks_coded s :
  errs_sat (fun e => gv_code e <> GE_kNone) (gpu_validate_checks s).
Proof.
  assert (forall i d l, errs_sat (fun e => gv_code e <> GE_kNone) (check_earlier i d l)).
  { intros i d l. induction l as [|e l IH]; simpl; [done|]. repeat walk_errs. apply IH. }
  unfold gpu_validate_checks, check_device, check_telemetry. repeat walk_errs; auto.
Qed.

Lemma gpu_validate_ok_checks s :
  gpu_result_ok (gpu_validate s) = is_ok (gpu_validate_checks s).
Proof.
  pose proof (gpu_validate_checks_coded s) as Hc. unfold gpu_validate, gpu_result_ok.
  destruct (gpu_validate_checks s) as [|r]; [done|]. by apply bool_decide_eq_false.
Qed.

Lemma gpu_valid_iff s : gpu_result_ok (gpu_validate s) = true <-> SnapshotOk s.
Proof. by rewrite gpu_validate_ok_checks, gpu_validate_checks_ok. Qed.

(** Devices of a valid snapshot are identified by their uuid. *)
Lemma snapshot_uuid_inj s d1 d2 :
  SnapshotOk s -> d1 ∈ gs_devices s -> d2 ∈ gs_devices s -> go_uuid d1 = go_uuid d2 -> d1 = d2.
Proof.
  intros Hok H1 H2 Heq.
  apply list_elem_of_lookup in H1 as [i Hi]. apply list_elem_of_lookup in H2 as [j Hj].
  assert (i = j) as ->; [|congruence].
  eapply (NoDup_lookup (go_uuid <$> gs_devices s) i j (go_uuid d1)); [apply Hok|..];
    rewrite list_lookup_fmap; [by rewrite Hi|by rewrite Hj, Heq].
Qed.

Lemma snapshot_index_inj s d1 d2 :
  SnapshotOk s -> d1 ∈ gs_devices s -> d2 ∈ gs_devices s -> go_index d1 = go_index d2 -> d1 = d2.
Proof.
  intros Hok H1 H2 Heq.
  apply list_elem_of_lookup in H1 as [i Hi]. apply list_elem_of_lookup in H2 as [j Hj].
  assert (i = j) as ->; [|congruence].
  eapply (NoDup_lookup (go_index <$> gs_devices s) i j (go_index d1)); [apply Hok|..];
    rewrite list_lookup_fmap; [by rewrite Hi|by rewrite Hj, Heq].
Qed.

(** [gpu::validate] accepts exactly the observation snapshots that satisfy
    [SnapshotOk]: a positive revision and time, at most 128 devices with valid,
    pairwise different UUIDs and pairwise different indices, utilisation at most
    100 and memory telemetry with a non-zero total that bounds the used bytes. *)
Theorem gpu_validate_ok_iff s : gv_code (gpu_validate s) = GE_kNone <-> SnapshotOk s.
Proof.
  rewrite <- gpu_valid_iff. unfold gpu_result_ok. by rewrite bool_decide_eq_true.
Qed.
