(* ===== verification/Store.v ===== *)
(** * State store: [include/yori/store/state_store.hpp],
    [src/store/state_store.cpp], [src/store/mutation_core.{hpp,cpp}],
    [src/testing/in_memory_state_store.{hpp,cpp}]

    Stored jobs with their execution record, the GPU leases, and the
    validation core [apply_mutation] that both back ends share.  [StateStore]
    is the interface the scheduler, the recovery and the IPC service are
    written against; [StateStoreLaws] is its contract and the in-memory store
    an implementation of it.  [StoreOk] is the well-formedness invariant of the
    stored state (the lease matrix in particular). *)

From S2P Require Import Prelude.
From S2P Require Import Job.
From S2P Require Import Gpu.

(** ** Data *)

(** [process::ProcessIdentity] *)
Record ProcessIdentity := mkIdentity {
  pi_pid : Z;
  pi_pgid : Z;
  pi_start_ticks : N;
}.

(** [ProcessIdentity::valid] *)
Definition identity_valid (i : ProcessIdentity) : bool :=
  (0 <? pi_pid i)%Z && (0 <? pi_pgid i)%Z && (0 <? pi_start_ticks i).

Definition no_identity : ProcessIdentity := mkIdentity 0 0 0.

Inductive ExitReason := ER_kExited | ER_kSignaled | ER_kUnknown.

#[export] Instance ExitReason_eq_dec : EqDecision ExitReason.
Proof. solve_decision. Defined.

Record ExitStatus := mkExitStatus {
  ex_reason : ExitReason;
  ex_exit_code : Z;
  ex_signal_number : Z;
}.

(** [ExitStatus::exited] *)
Definition exit_exited (e : ExitStatus) : bool := bool_decide (ex_reason e = ER_kExited).

(** [ExitStatus::is_success] *)
Definition exit_is_success (e : ExitStatus) : bool := exit_exited e && (ex_exit_code e =? 0)%Z.

Record JobExecutionRecord := mkExecution {
  xr_identity : ProcessIdentity;
  xr_start_time : option Z;
  xr_end_time : option Z;
  xr_exit : option ExitStatus;
  xr_failure_reason : option string;
  xr_log_path : option string;
}.

Definition empty_execution : JobExecutionRecord :=
  mkExecution no_identity None None None None None.

(** [JobExecutionRecord::has_identity] *)
Definition has_identity (x : JobExecutionRecord) : bool := identity_valid (xr_identity x).

Definition kMaxFailureReasonBytes : N := 4096.
Definition kMaxLogPathBytes : N := 4096.

Inductive JobExecutionValidationCode :=
| XV_kNone
| XV_kInvalidIdentity
| XV_kIdentityNotAllowed
| XV_kIdentityRequired
| XV_kExitNotAllowed
| XV_kStartTimeNotAllowed
| XV_kInvalidStartTime
| XV_kEndTimeNotAllowed
| XV_kInvalidEndTime
| XV_kFailureReasonNotAllowed
| XV_kInvalidFailureReason
| XV_kInvalidLogPath
| XV_kLogPathNotAllowed.

#[export] Instance JobExecutionValidationCode_eq_dec : EqDecision JobExecutionValidationCode.
Proof. solve_decision. Defined.

Record StoredJob := mkStored {
  sj_id : JobId;
  sj_spec : JobSpec;
  sj_state : JobState;
  sj_revision : N;
  sj_execution : JobExecutionRecord;
}.

Record StateSnapshot := mkSnapshot {
  ss_revision : N;
  ss_jobs : list StoredJob;
  ss_leases : list GpuLease;
}.

Definition StateMutation_kMaxEntries : N := 64.

Record StateMutation := mkMutation {
  mu_expected_revision : N;
  mu_create_jobs : list StoredJob;
  mu_update_jobs : list StoredJob;
  mu_acquire_leases : list GpuLease;
  mu_release_leases : list GpuUuid;
}.

Definition empty_mutation : StateMutation := mkMutation 0 [] [] [] [].

Inductive StateStoreErrorCode :=
| SE_kNone
| SE_kBackendUnavailable
| SE_kRevisionConflict
| SE_kInvalidMutation
| SE_kCapacityExceeded
| SE_kInvalidJob
| SE_kInvalidExecutionRecord
| SE_kJobAlreadyExists
| SE_kJobNotFound
| SE_kInvalidJobRevision
| SE_kJobSpecChanged
| SE_kInvalidJobTransition
| SE_kInvalidLease
| SE_kGpuAlreadyLeased
| SE_kJobAlreadyLeased
| SE_kLeaseNotFound.

#[export] Instance StateStoreErrorCode_eq_dec : EqDecision StateStoreErrorCode.
Proof. solve_decision. Defined.

Record StateStoreLoadResult := mkLoad {
  lr_code : StateStoreErrorCode;
  lr_snapshot : StateSnapshot;
}.

Record StateStoreWriteResult := mkWrite {
  wr_code : StateStoreErrorCode;
  wr_revision : N;
}.

Definition empty_snapshot : StateSnapshot := mkSnapshot 0 [] [].

(** [ok()] of the two result types *)
Definition load_ok (r : StateStoreLoadResult) : bool := bool_decide (lr_code r = SE_kNone).
Definition write_ok (r : StateStoreWriteResult) : bool := bool_decide (wr_code r = SE_kNone).

(** [mutation_core::ValidationConfig] *)
Record ValidationConfig := mkConfig {
  max_jobs : N;
  max_leases : N;
}.

(** The authoritative state a back end holds. *)
Record StoreState := mkState {
  st_revision : N;
  st_jobs : gmap JobId StoredJob;
  st_leases : gmap GpuUuid GpuLease;
}.

Definition initial_state : StoreState := mkState 0 ∅ ∅.

(** ** Execution records *)

Definition identity_is_blank (i : ProcessIdentity) : bool :=
  (pi_pid i =? 0)%Z && (pi_pgid i =? 0)%Z && (pi_start_ticks i =? 0).

(** [validate_execution], as a chain of early returns. *)
Definition validate_execution_checks (execution : JobExecutionRecord) (state : JobState)
    (spec : JobSpec) : Result JobExecutionValidationCode unit :=
  reject_if negb (identity_is_blank (xr_identity execution))
            && negb (identity_valid (xr_identity execution)) with XV_kInvalidIdentity;
  let identified := has_identity execution in
  reject_if identified && bool_decide (state = kQueued) with XV_kIdentityNotAllowed;
  reject_if negb identified && (bool_decide (state = kRunning) || bool_decide (state = kStopping))
    with XV_kIdentityRequired;
  reject_if match xr_exit execution with Some _ => negb (is_terminal state) | None => false end
    with XV_kExitNotAllowed;
  reject_if match xr_start_time execution with Some _ => negb identified | None => false end
    with XV_kStartTimeNotAllowed;
  reject_if match xr_start_time execution with
            | Some start => (start <? submit_time spec)%Z
            | None => false
            end
    with XV_kInvalidStartTime;
  reject_if match xr_end_time execution with Some _ => negb (is_terminal state) | None => false end
    with XV_kEndTimeNotAllowed;
  reject_if match xr_end_time execution, xr_start_time execution with
            | Some finish, Some start => (finish <? start)%Z
            | _, _ => false
            end
    with XV_kInvalidEndTime;
  reject_if match xr_failure_reason execution with
            | Some _ => negb (is_terminal state)
            | None => false
            end
    with XV_kFailureReasonNotAllowed;
  reject_if match xr_failure_reason execution with
            | Some reason => bad_bounded_string kMaxFailureReasonBytes reason
            | None => false
            end
    with XV_kInvalidFailureReason;
  reject_if match xr_log_path execution with
            | Some _ => bool_decide (state = kQueued)
            | None => false
            end
    with XV_kLogPathNotAllowed;
  reject_if match xr_log_path execution with
            | Some path => bad_bounded_string kMaxLogPathBytes path || negb (front_is "/"%char path)
            | None => false
            end
    with XV_kInvalidLogPath;
  Ok tt.

Definition validate_execution (execution : JobExecutionRecord) (state : JobState) (spec : JobSpec)
  : JobExecutionValidationCode :=
  match validate_execution_checks execution state spec with
  | Ok _ => XV_kNone
  | Err code => code
  end.

(** [static_cast<bool>(validate_execution(...))] *)
Definition execution_ok (execution : JobExecutionRecord) (state : JobState) (spec : JobSpec) : bool :=
  bool_decide (validate_execution execution state spec = XV_kNone).

(** ** The mutation core *)

(** [StateMutation::entry_count], saturating at [kMaxEntries + 1]. *)
Definition entry_count (m : StateMutation) : N :=
  if StateMutation_kMaxEntries <? len (mu_create_jobs m) then StateMutation_kMaxEntries + 1
  else
    let total := len (mu_create_jobs m) in
    if StateMutation_kMaxEntries - total <? len (mu_update_jobs m) then StateMutation_kMaxEntries + 1
    else
      let total := total + len (mu_update_jobs m) in
      if StateMutation_kMaxEntries - total <? len (mu_acquire_leases m)
      then StateMutation_kMaxEntries + 1
      else
        let total := total + len (mu_acquire_leases m) in
        if StateMutation_kMaxEntries - total <? len (mu_release_leases m)
        then StateMutation_kMaxEntries + 1
        else total + len (mu_release_leases m).

Definition same_spec (lhs rhs : JobSpec) : bool :=
  (owner_uid lhs =? owner_uid rhs) && (owner_gid lhs =? owner_gid rhs)
  && bool_decide (argv lhs = argv rhs) && bool_decide (cwd lhs = cwd rhs)
  && bool_decide (env lhs = env rhs) && bool_decide (executable lhs = executable rhs)
  && bool_decide (env_metadata lhs = env_metadata rhs) && (gpu_request lhs =? gpu_request rhs)
  && bool_decide (gpu_placement lhs = gpu_placement rhs)
  && bool_decide (launch_profile lhs = launch_profile rhs)
  && bool_decide (tensorboard_logdir lhs = tensorboard_logdir rhs)
  && (submit_time lhs =? submit_time rhs)%Z.

Definition leaseable (s : JobState) : bool :=
  match s with kStarting | kRunning | kStopping => true | _ => false end.

(** One entry of [create_jobs]. *)
Definition create_job (config : ValidationConfig) (jobs : gmap JobId StoredJob) (record : StoredJob)
  : Result StateStoreErrorCode (gmap JobId StoredJob) :=
  reject_if negb (job_id_valid (sj_id record)) || negb (spec_valid (sj_spec record))
            || negb (bool_decide (sj_state record = kQueued)) || negb (sj_revision record =? 0)
    with SE_kInvalidJob;
  reject_if negb (execution_ok (sj_execution record) (sj_state record) (sj_spec record))
    with SE_kInvalidExecutionRecord;
  reject_if bool_decide (is_Some (jobs !! sj_id record)) with SE_kJobAlreadyExists;
  reject_if max_jobs config <=? msize jobs with SE_kCapacityExceeded;
  Ok (<[sj_id record := record]> jobs).

(** One entry of [update_jobs]. *)
Definition update_job (jobs : gmap JobId StoredJob) (record : StoredJob)
  : Result StateStoreErrorCode (gmap JobId StoredJob) :=
  reject_if negb (job_id_valid (sj_id record)) || negb (spec_valid (sj_spec record))
    with SE_kInvalidJob;
  reject_if negb (execution_ok (sj_execution record) (sj_state record) (sj_spec record))
    with SE_kInvalidExecutionRecord;
  match jobs !! sj_id record with
  | None => Err SE_kJobNotFound
  | Some existing =>
      reject_if (sj_revision existing =? u64_max)
                || negb (sj_revision record =? sj_revision existing + 1)
        with SE_kInvalidJobRevision;
      reject_if negb (same_spec (sj_spec existing) (sj_spec record)) with SE_kJobSpecChanged;
      reject_if negb (can_transition (sj_state existing) (sj_state record))
        with SE_kInvalidJobTransition;
      Ok (<[sj_id record := record]> jobs)
  end.

(** One entry of [release_leases]. *)
Definition release_lease (leases : gmap GpuUuid GpuLease) (uuid : GpuUuid)
  : Result StateStoreErrorCode (gmap GpuUuid GpuLease) :=
  reject_if negb (uuid_valid uuid) with SE_kInvalidLease;
  match leases !! uuid with
  | None => Err SE_kLeaseNotFound
  | Some _ => Ok (delete uuid leases)
  end.

(** [job_record == end() || !leaseable(job_record->second.state)], negated. *)
Definition leaseable_job (jobs : gmap JobId StoredJob) (id : JobId) : bool :=
  match jobs !! id with Some record => leaseable (sj_state record) | None => false end.

(** One entry of [acquire_leases]. *)
Definition acquire_lease (config : ValidationConfig) (jobs : gmap JobId StoredJob)
    (leases : gmap GpuUuid GpuLease) (lease : GpuLease)
  : Result StateStoreErrorCode (gmap GpuUuid GpuLease) :=
  reject_if negb (uuid_valid (lease_gpu_uuid lease)) || negb (job_id_valid (lease_job_id lease))
    with SE_kInvalidLease;
  reject_if bool_decide (is_Some (leases !! lease_gpu_uuid lease)) with SE_kGpuAlreadyLeased;
  reject_if negb (leaseable_job jobs (lease_job_id lease)) with SE_kInvalidLease;
  reject_if existsb (fun e => lease_job_id e =? lease_job_id lease) (map_values leases)
    with SE_kJobAlreadyLeased;
  reject_if max_leases config <=? msize leases with SE_kCapacityExceeded;
  Ok (<[lease_gpu_uuid lease := lease]> leases).

(** The number of leases the final loop counts for a job. *)
Definition lease_count (leases : gmap GpuUuid GpuLease) (id : JobId) : N :=
  len (filter (fun e => lease_job_id e.2 = id) (map_entries leases)).

Definition lease_count_ok (leases : gmap GpuUuid GpuLease) (entry : JobId * StoredJob) : bool :=
  if leaseable (sj_state entry.2) then lease_count leases entry.1 =? 1
  else lease_count leases entry.1 =? 0.

(** [apply_mutation]; [Err code] is [failure(code)]. *)
Definition apply_mutation (config : ValidationConfig) (st : StoreState) (m : StateMutation)
  : Result StateStoreErrorCode StoreState :=
  reject_if negb (mu_expected_revision m =? st_revision st) with SE_kRevisionConflict;
  reject_if (entry_count m =? 0) || (StateMutation_kMaxEntries <? entry_count m)
            || (st_revision st =? u64_max)
    with SE_kInvalidMutation;
  let? jobs1 := fold_result (create_job config) (st_jobs st) (mu_create_jobs m) in
  let? jobs2 := fold_result update_job jobs1 (mu_update_jobs m) in
  let? leases1 := fold_result release_lease (st_leases st) (mu_release_leases m) in
  let? leases2 := fold_result (acquire_lease config jobs2) leases1 (mu_acquire_leases m) in
  reject_if negb (forallb (fun e => leaseable_job jobs2 (lease_job_id e)) (map_values leases2))
    with SE_kInvalidLease;
  reject_if negb (forallb (lease_count_ok leases2) (map_entries jobs2)) with SE_kInvalidLease;
  Ok (mkState (st_revision st + 1) jobs2 leases2).

(** The snapshot both back ends' [load] builds: jobs by id, leases by uuid. *)
Definition snapshot_of (st : StoreState) : StateSnapshot :=
  mkSnapshot (st_revision st) (map_values (st_jobs st)) (map_values (st_leases st)).

(** ** The store interface and its in-memory implementation *)

(** [class StateStore]: [load] and [apply] on a store object's state. *)
Class StateStore (S : Type) := {
  store_load : S -> StateStoreLoadResult;
  store_apply : StateMutation -> S -> StateStoreWriteResult * S;
}.

(** [InMemoryStateStore] *)
Record InMemoryStateStore := mkInMemory {
  im_config : ValidationConfig;
  im_state : StoreState;
  im_failure : option StateStoreErrorCode;
  im_next_apply_failure : option StateStoreErrorCode;
}.

Definition in_memory (config : ValidationConfig) : InMemoryStateStore :=
  mkInMemory config initial_state None None.

(** [fail_with] *)
Definition im_fail_with (error : StateStoreErrorCode) (s : InMemoryStateStore) : InMemoryStateStore :=
  {| s with im_failure := if bool_decide (error = SE_kNone) then None else Some error |}.

(** [fail_next_apply_with] *)
Definition im_fail_next_apply_with (error : StateStoreErrorCode) (s : InMemoryStateStore)
  : InMemoryStateStore :=
  {| s with im_next_apply_failure := if bool_decide (error = SE_kNone) then None else Some error |}.

(** [clear_failure] *)
Definition im_clear_failure (s : InMemoryStateStore) : InMemoryStateStore :=
  {| s with im_failure := None |}.

(** [InMemoryStateStore::load] *)
Definition im_load (s : InMemoryStateStore) : StateStoreLoadResult :=
  match im_failure s with
  | Some code => mkLoad code empty_snapshot
  | None => mkLoad SE_kNone (snapshot_of (im_state s))
  end.

(** [InMemoryStateStore::apply] *)
Definition im_apply (m : StateMutation) (s : InMemoryStateStore)
  : StateStoreWriteResult * InMemoryStateStore :=
  match im_failure s with
  | Some code => (mkWrite code (st_revision (im_state s)), s)
  | None =>
      match im_next_apply_failure s with
      | Some code =>
          (mkWrite code (st_revision (im_state s)), {| s with im_next_apply_failure := None |})
      | None =>
          match apply_mutation (im_config s) (im_state s) m with
          | Err code => (mkWrite code (st_revision (im_state s)), s)
          | Ok next => (mkWrite SE_kNone (st_revision next), {| s with im_state := next |})
          end
      end
  end.

#[export] Instance InMemoryStateStore_store : StateStore InMemoryStateStore := {
  store_load := im_load;
  store_apply := im_apply;
}.

(** [to_string(JobExecutionValidationCode)] *)
Definition JobExecutionValidationCode_to_string (code : JobExecutionValidationCode) : string :=
  match code with
  | XV_kNone => "NONE"
  | XV_kInvalidIdentity => "INVALID_IDENTITY"
  | XV_kIdentityNotAllowed => "IDENTITY_NOT_ALLOWED"
  | XV_kIdentityRequired => "IDENTITY_REQUIRED"
  | XV_kExitNotAllowed => "EXIT_NOT_ALLOWED"
  | XV_kStartTimeNotAllowed => "START_TIME_NOT_ALLOWED"
  | XV_kInvalidStartTime => "INVALID_START_TIME"
  | XV_kEndTimeNotAllowed => "END_TIME_NOT_ALLOWED"
  | XV_kInvalidEndTime => "INVALID_END_TIME"
  | XV_kFailureReasonNotAllowed => "FAILURE_REASON_NOT_ALLOWED"
  | XV_kInvalidFailureReason => "INVALID_FAILURE_REASON"
  | XV_kInvalidLogPath => "INVALID_LOG_PATH"
  | XV_kLogPathNotAllowed => "LOG_PATH_NOT_ALLOWED"
  end.

(** [to_string(StateStoreErrorCode)] *)
Definition StateStoreErrorCode_to_string (code : StateStoreErrorCode) : string :=
  match code with
  | SE_kNone => "NONE"
  | SE_kBackendUnavailable => "BACKEND_UNAVAILABLE"
  | SE_kRevisionConflict => "REVISION_CONFLICT"
  | SE_kInvalidMutation => "INVALID_MUTATION"
  | SE_kCapacityExceeded => "CAPACITY_EXCEEDED"
  | SE_kInvalidJob => "INVALID_JOB"
  | SE_kInvalidExecutionRecord => "INVALID_EXECUTION_RECORD"
  | SE_kJobAlreadyExists => "JOB_ALREADY_EXISTS"
  | SE_kJobNotFound => "JOB_NOT_FOUND"
  | SE_kInvalidJobRevision => "INVALID_JOB_REVISION"
  | SE_kJobSpecChanged => "JOB_SPEC_CHANGED"
  | SE_kInvalidJobTransition => "INVALID_JOB_TRANSITION"
  | SE_kInvalidLease => "INVALID_LEASE"
  | SE_kGpuAlreadyLeased => "GPU_ALREADY_LEASED"
  | SE_kJobAlreadyLeased => "JOB_ALREADY_LEASED"
  | SE_kLeaseNotFound => "LEASE_NOT_FOUND"
  end.

(** ** Specification *)

(** What a back end promises to its clients: under its representation
    invariant, an abstract state evolves by [apply_mutation] on success and not
    at all on failure, and [load] shows it. *)
Class StateStoreLaws (S : Type) `{StateStore S} := {
  store_inv : S -> Prop;
  store_view : S -> StoreState;
  store_config : S -> ValidationConfig;
  store_load_view s :
    store_inv s -> load_ok (store_load s) = true ->
    lr_snapshot (store_load s) = snapshot_of (store_view s);
  store_apply_ok m s w s' :
    store_inv s -> store_apply m s = (w, s') -> write_ok w = true ->
    apply_mutation (store_config s) (store_view s) m = Ok (store_view s') /\
    wr_revision w = st_revision (store_view s');
  store_apply_err m s w s' :
    store_inv s -> store_apply m s = (w, s') -> write_ok w = false -> store_view s' = store_view s;
  store_apply_keeps m s w s' :
    store_inv s -> store_apply m s = (w, s') -> store_inv s' /\ store_config s' = store_config s;
}.

(** An execution record that fits a job state, read declaratively. *)
Record ExecutionOk (x : JobExecutionRecord) (s : JobState) (spec : JobSpec) : Prop := {
  xo_identity : xr_identity x = no_identity \/ has_identity x = true;
  xo_queued : s = kQueued -> has_identity x = false /\ xr_log_path x = None;
  xo_running : s = kRunning \/ s = kStopping -> has_identity x = true;
  xo_not_terminal : is_terminal s = false ->
    xr_exit x = None /\ xr_end_time x = None /\ xr_failure_reason x = None;
  xo_start : forall t, xr_start_time x = Some t -> has_identity x = true /\ (submit_time spec <= t)%Z;
  xo_end : forall t t', xr_start_time x = Some t -> xr_end_time x = Some t' -> (t <= t')%Z;
  xo_reason : option_all (bounded_string kMaxFailureReasonBytes) (xr_failure_reason x);
  xo_log : option_all (absolute_path kMaxLogPathBytes) (xr_log_path x);
}.

(** A stored job that any back end may hold. *)
Record StoredOk (id : JobId) (r : StoredJob) : Prop := {
  ro_id : sj_id r = id;
  ro_id_valid : id <> 0;
  ro_spec : SpecOk (sj_spec r);
  ro_execution : ExecutionOk (sj_execution r) (sj_state r) (sj_spec r);
  ro_revision : sj_revision r <= state_rank (sj_state r);
  ro_initial : sj_revision r = 0 <-> sj_state r = kQueued;
}.

(** Well-formedness of the authoritative state: bounded, every record valid,
    and a lease for exactly the jobs that are starting, running or stopping. *)
Record StoreOk (config : ValidationConfig) (st : StoreState) : Prop := {
  sto_jobs : map_Forall StoredOk (st_jobs st);
  sto_lease_key u l : st_leases st !! u = Some l -> lease_gpu_uuid l = u /\ uuid_valid u = true;
  sto_lease_job u l : st_leases st !! u = Some l ->
    exists r, st_jobs st !! lease_job_id l = Some r /\ leaseable (sj_state r) = true;
  sto_lease_exists id r : st_jobs st !! id = Some r -> leaseable (sj_state r) = true ->
    exists u l, st_leases st !! u = Some l /\ lease_job_id l = id;
  sto_lease_unique u1 u2 l1 l2 : st_leases st !! u1 = Some l1 -> st_leases st !! u2 = Some l2 ->
    lease_job_id l1 = lease_job_id l2 -> u1 = u2;
  sto_max_jobs : msize (st_jobs st) <= max_jobs config;
  sto_max_leases : msize (st_leases st) <= max_leases config;
  sto_revision : st_revision st <= u64_max;
}.

(** One accepted update of a stored job. *)
Inductive stored_step : StoredJob -> StoredJob -> Prop :=
| stored_step_intro r r' :
    sj_id r' = sj_id r -> sj_spec r' = sj_spec r -> sj_revision r' = sj_revision r + 1 ->
    can_transition (sj_state r) (sj_state r') = true -> stored_step r r'.

(** States a back end can reach from the empty one. *)
Inductive store_reachable (config : ValidationConfig) : StoreState -> Prop :=
| reach_init : store_reachable config initial_state
| reach_apply st m st' :
    store_reachable config st -> apply_mutation config st m = Ok st' -> store_reachable config st'.

(** ** Lemmas *)

Lemma same_spec_eq lhs rhs : same_spec lhs rhs = true <-> lhs = rhs.
Proof.
  unfold same_spec. rewrite !andb_true_iff, !bool_decide_eq_true, !N.eqb_eq, Z.eqb_eq.
  split; [|naive_solver]. destruct lhs, rhs; simpl. intros. destruct_and!. congruence.
Qed.

Lemma identity_is_blank_spec i : identity_is_blank i = true <-> i = no_identity.
Proof.
  unfold identity_is_blank, no_identity. rewrite !andb_true_iff, !Z.eqb_eq, N.eqb_eq.
  destruct i; simpl. naive_solver.
Qed.

Lemma execution_ok_checks x s spec :
  execution_ok x s spec = is_ok (validate_execution_checks x s spec).
Proof.
  assert (errs_sat (fun e => e <> XV_kNone) (validate_execution_checks x s spec)) as Hc
    by (unfold validate_execution_checks; repeat walk_errs).
  unfold execution_ok, validate_execution. destruct (validate_execution_checks x s spec); [done|].
  by apply bool_decide_eq_false.
Qed.

Lemma execution_ok_iff x s spec : execution_ok x s spec = true <-> ExecutionOk x s spec.
Proof.
  rewrite execution_ok_checks. unfold validate_execution_checks. rewrite !is_ok_reject.
  rewrite (option_guard_false (bad_bounded_string kMaxFailureReasonBytes)
             (bounded_string kMaxFailureReasonBytes))
    by (intros; apply bad_bounded_string_false).
  rewrite (option_guard_false
    (fun path => bad_bounded_string kMaxLogPathBytes path || negb (front_is "/"%char path))
    (absolute_path kMaxLogPathBytes)).
  2: { intros p. unfold absolute_path.
       by rewrite orb_false_iff, bad_bounded_string_false, negb_false_iff. }
  rewrite !andb_false_iff, !negb_false_iff, orb_false_iff, identity_is_blank_spec,
    !bool_decide_eq_false.
  change (identity_valid (xr_identity x)) with (has_identity x).
  split.
  - intros (Hid & Hq & Hrun & Hexit & Hst & Hst' & Hend & Hend' & Hfr & Hfr' & Hlp & Hlp' & _).
    constructor; try done.
    + intros ->. split; [naive_solver|]. destruct (xr_log_path x); [|done].
      by apply bool_decide_eq_false in Hlp.
    + intros Hs. destruct Hrun as [|[? ?]]; [done|naive_solver].
    + intros Ht. rewrite Ht in *.
      by destruct (xr_exit x), (xr_end_time x), (xr_failure_reason x).
    + intros t Ht. rewrite Ht in *. rewrite negb_false_iff in Hst. rewrite Z.ltb_ge in Hst'. done.
    + intros t t' Ht Ht'. rewrite Ht, Ht' in *. by rewrite Z.ltb_ge in Hend'.
  - intros [Hid Hq Hrun Hnt Hst Hend Hr Hl]. split_and!; try done.
    + destruct (decide (s = kQueued)) as [->|]; [|by right]. left. by apply Hq.
    + destruct (decide (s = kRunning)) as [->|]; [left; auto|].
      destruct (decide (s = kStopping)) as [->|]; [left; auto|by right].
    + destruct (xr_exit x); [|done]. destruct (is_terminal s); [done|]. by destruct Hnt.
    + destruct (xr_start_time x) as [t|]; [|done]. by destruct (Hst t eq_refl) as [-> _].
    + destruct (xr_start_time x) as [t|]; [|done]. apply Z.ltb_ge. by apply (Hst t).
    + destruct (xr_end_time x); [|done]. destruct (is_terminal s); [done|].
      by destruct Hnt as (_ & ? & _).
    + destruct (xr_end_time x), (xr_start_time x); try done. apply Z.ltb_ge. by apply Hend.
    + destruct (xr_failure_reason x); [|done]. destruct (is_terminal s); [done|].
      by destruct Hnt as (_ & _ & ?).
    + destruct (xr_log_path x); [|done]. apply bool_decide_eq_false. intros ->.
      by destruct (Hq eq_refl).
Qed.

Lemma create_job_ok config jobs r jobs' :
  create_job config jobs r = Ok jobs' <->
  jobs' = <[sj_id r := r]> jobs /\ jobs !! sj_id r = None /\ msize jobs < max_jobs config /\
  sj_id r <> 0 /\ SpecOk (sj_spec r) /\ sj_state r = kQueued /\ sj_revision r = 0 /\
  ExecutionOk (sj_execution r) (sj_state r) (sj_spec r).
Proof.
  unfold create_job, job_id_valid. rewrite <- execution_ok_iff, <- spec_valid_iff.
  destruct (N.eqb_spec (sj_id r) 0); simpl; [naive_solver|].
  destruct (spec_valid (sj_spec r)); simpl; [|naive_solver].
  case_bool_decide; simpl; [|naive_solver].
  destruct (N.eqb_spec (sj_revision r) 0); simpl; [|naive_solver].
  destruct (execution_ok _ _ _); simpl; [|naive_solver].
  case_bool_decide as Hex; simpl; [destruct Hex; naive_solver|].
  apply eq_None_not_Some in Hex.
  destruct (N.leb_spec (max_jobs config) (msize jobs)); [naive_solver lia|]. naive_solver.
Qed.

Lemma update_job_ok jobs r jobs' :
  update_job jobs r = Ok jobs' <->
  jobs' = <[sj_id r := r]> jobs /\ sj_id r <> 0 /\ SpecOk (sj_spec r) /\
  ExecutionOk (sj_execution r) (sj_state r) (sj_spec r) /\
  exists existing, jobs !! sj_id r = Some existing /\ sj_revision existing <> u64_max /\
    sj_spec r = sj_spec existing /\ sj_revision r = sj_revision existing + 1 /\
    can_transition (sj_state existing) (sj_state r) = true.
Proof.
  unfold update_job, job_id_valid. rewrite <- execution_ok_iff, <- spec_valid_iff.
  destruct (N.eqb_spec (sj_id r) 0); simpl; [naive_solver|].
  destruct (spec_valid (sj_spec r)); simpl; [|naive_solver].
  destruct (execution_ok _ _ _); simpl; [|naive_solver].
  destruct (jobs !! sj_id r) as [existing|]; [|naive_solver].
  destruct (N.eqb_spec (sj_revision existing) u64_max); simpl; [naive_solver|].
  destruct (N.eqb_spec (sj_revision r) (sj_revision existing + 1)); simpl; [|naive_solver].
  destruct (same_spec _ _) eqn:Hs; simpl.
  - apply same_spec_eq in Hs. destruct (can_transition _ _) eqn:Hc; simpl.
    + split; [|by intros (-> & _)]. intros [= <-]. split_and!; try done. by exists existing.
    + split; [done|]. intros (_ & _ & _ & _ & ex & [= ->] & _ & _ & _ & ?). congruence.
  - split; [done|]. intros (_ & _ & _ & _ & ex & [= ->] & _ & Heq & _).
    symmetry in Heq. apply same_spec_eq in Heq. congruence.
Qed.

Lemma release_lease_ok leases u leases' :
  release_lease leases u = Ok leases' <->
  leases' = delete u leases /\ uuid_valid u = true /\ is_Some (leases !! u).
Proof.
  unfold release_lease. destruct (uuid_valid u); simpl; [|naive_solver].
  destruct (leases !! u); [|split; [done|by intros (_ & _ & [? ?])]].
  split; [by intros [= <-]|by intros (-> & _)].
Qed.

Lemma acquire_lease_ok config jobs leases l leases' :
  acquire_lease config jobs leases l = Ok leases' <->
  leases' = <[lease_gpu_uuid l := l]> leases /\ uuid_valid (lease_gpu_uuid l) = true /\
  lease_job_id l <> 0 /\ leases !! lease_gpu_uuid l = None /\
  leaseable_job jobs (lease_job_id l) = true /\
  (forall u l', leases !! u = Some l' -> lease_job_id l' <> lease_job_id l) /\
  msize leases < max_leases config.
Proof.
  unfold acquire_lease, job_id_valid.
  destruct (uuid_valid (lease_gpu_uuid l)); simpl; [|naive_solver].
  destruct (N.eqb_spec (lease_job_id l) 0); simpl; [naive_solver|].
  case_bool_decide as Hex; simpl; [destruct Hex; naive_solver|]. apply eq_None_not_Some in Hex.
  destruct (leaseable_job jobs (lease_job_id l)); simpl; [|naive_solver].
  destruct (existsb _ (map_values leases)) eqn:He.
  - apply existsb_exists in He as (l' & Hin & Heq). apply list_elem_of_In in Hin.
    apply elem_of_map_values in Hin as [u Hu]. apply N.eqb_eq in Heq.
    split; [done|]. intros (_ & _ & _ & _ & _ & Hno & _). by apply Hno in Hu.
  - assert (forall u l', leases !! u = Some l' -> lease_job_id l' <> lease_job_id l) as Hno.
    { intros u l' Hu Heq. apply not_true_iff_false in He. apply He, existsb_exists.
      exists l'. split; [|by apply N.eqb_eq]. apply list_elem_of_In, elem_of_map_values. eauto. }
    destruct (N.leb_spec (max_leases config) (msize leases)); [naive_solver lia|]. naive_solver.
Qed.

Lemma stored_step_terminal r r' : is_terminal (sj_state r) = true -> ~ stored_step r r'.
Proof. intros Ht Hs. inv Hs. by rewrite can_transition_terminal in *. Qed.

Lemma stored_steps_terminal r r' :
  rtc stored_step r r' -> is_terminal (sj_state r) = true -> r' = r.
Proof. intros Hr Ht. inv Hr; [done|]. by eapply stored_step_terminal in Ht. Qed.

Lemma stored_steps_spec r r' :
  rtc stored_step r r' -> sj_spec r' = sj_spec r /\ sj_id r' = sj_id r /\ sj_revision r <= sj_revision r'.
Proof.
  induction 1 as [r|r r1 r2 Hs _ (Hsp & Hid & Hrev)]; [done|].
  inv Hs. split_and!; [congruence..|lia].
Qed.

(** What the create and update loops keep, relative to the jobs before. *)
Definition jobs_evolved (config : ValidationConfig) (old jobs : gmap JobId StoredJob) : Prop :=
  map_Forall StoredOk jobs /\ msize jobs <= max_jobs config /\
  (forall id r, old !! id = Some r -> exists r', jobs !! id = Some r' /\ rtc stored_step r r').

Lemma create_job_evolved config old jobs r jobs' :
  jobs_evolved config old jobs -> create_job config jobs r = Ok jobs' -> jobs_evolved config old jobs'.
Proof.
  intros (Hall & Hsize & Hold) (-> & Hnew & Hlt & Hid & Hspec & Hst & Hrev & Hx)%create_job_ok.
  split_and!.
  - apply map_Forall_insert_2; [|done].
    constructor; try done; rewrite ?Hst, ?Hrev; done || (simpl; lia).
  - rewrite msize_insert_new by done. lia.
  - intros id r0 Hr0. destruct (Hold _ _ Hr0) as (r' & Hr' & Hs). exists r'.
    split; [|done]. rewrite lookup_insert_ne; [done|]. intros <-. congruence.
Qed.

Lemma update_job_evolved config old jobs r jobs' :
  jobs_evolved config old jobs -> update_job jobs r = Ok jobs' -> jobs_evolved config old jobs'.
Proof.
  intros (Hall & Hsize & Hold) (-> & Hid & Hspec & Hx & ex & Hex & Hmax & Hse & Hrev & Hc)%update_job_ok.
  pose proof (map_Forall_lookup_1 _ _ _ _ Hall Hex) as Hexok.
  assert (stored_step ex r) as Hstep by (constructor; try done; symmetry; apply Hexok).
  split_and!.
  - apply map_Forall_insert_2; [|done]. constructor; try done.
    + pose proof (can_transition_rank _ _ Hc). pose proof (ro_revision _ _ Hexok). lia.
    + split; [lia|]. intros Hq. by apply (can_transition_not_queued _ _ Hc) in Hq.
  - by rewrite msize_insert_old.
  - intros id r0 Hr0. destruct (Hold _ _ Hr0) as (r' & Hr' & Hs).
    destruct (decide (id = sj_id r)) as [->|Hne].
    + exists r. rewrite lookup_insert_eq. split; [done|]. simplify_eq. by eapply rtc_r.
    + exists r'. by rewrite lookup_insert_ne.
Qed.

Lemma elem_of_counted leases id e :
  e ∈ filter (fun e => lease_job_id e.2 = id) (map_entries leases) <->
  leases !! e.1 = Some e.2 /\ lease_job_id e.2 = id.
Proof.
  rewrite list_elem_of_filter. destruct e as [u l]. rewrite elem_of_map_entries. simpl. tauto.
Qed.

Lemma lease_count_zero leases id :
  lease_count leases id = 0 <-> forall u l, leases !! u = Some l -> lease_job_id l <> id.
Proof.
  unfold lease_count. split.
  - intros H0%len_zero u l Hu Hj.
    assert ((u, l) ∈ @nil (string * GpuLease)) as []%not_elem_of_nil.
    rewrite <- H0. by apply elem_of_counted.
  - intros Hno. destruct (filter _ _) as [|e l'] eqn:E; [done|].
    assert (e ∈ e :: l') as He by left. rewrite <- E in He.
    apply elem_of_counted in He as [Hu Hj]. by apply Hno in Hu.
Qed.

Lemma lease_count_one leases id :
  lease_count leases id = 1 <->
  exists u l, leases !! u = Some l /\ lease_job_id l = id /\
    forall u' l', leases !! u' = Some l' -> lease_job_id l' = id -> u' = u.
Proof.
  unfold lease_count.
  set (counted := filter (fun e : string * GpuLease => lease_job_id e.2 = id) (map_entries leases)).
  assert (forall e, e ∈ counted <-> leases !! e.1 = Some e.2 /\ lease_job_id e.2 = id) as Hin
    by (intros; apply elem_of_counted).
  assert (NoDup counted) as Hnd.
  { apply NoDup_filter. eapply NoDup_fmap_1. apply NoDup_map_entries_keys. }
  clearbody counted. split.
  - destruct counted as [|e [|e' l]]; rewrite ?len_cons; [done| |unfold len; simpl; lia].
    intros _. exists e.1, e.2. destruct (proj1 (Hin e)) as [He Hj]; [by left|].
    split_and!; try done. intros u' l' Hu' Hj'.
    assert ((u', l') ∈ [e]) as <-%list_elem_of_singleton by by apply Hin. done.
  - intros (u & l & Hu & Hj & Huniq).
    assert (counted ≡ₚ [(u, l)]) as ->%len_perm; [|done].
    apply NoDup_Permutation; [done|apply NoDup_singleton|].
    intros [u' l']. rewrite list_elem_of_singleton, Hin. simpl. split.
    + intros [Hu' Hj']. pose proof (Huniq _ _ Hu' Hj'). congruence.
    + by intros [= -> ->].
Qed.

(** What the release and acquire loops keep. *)
Definition leases_keyed (config : ValidationConfig) (leases : gmap GpuUuid GpuLease) : Prop :=
  (forall u l, leases !! u = Some l -> lease_gpu_uuid l = u /\ uuid_valid u = true) /\
  msize leases <= max_leases config.

Lemma release_lease_keyed config leases u leases' :
  leases_keyed config leases -> release_lease leases u = Ok leases' -> leases_keyed config leases'.
Proof.
  intros [Hkey Hsize] (-> & _ & _)%release_lease_ok. split.
  - intros u' l [_ Hl]%lookup_delete_Some. by apply Hkey.
  - pose proof (msize_delete_le leases u). lia.
Qed.

Lemma acquire_lease_keyed config jobs leases l leases' :
  leases_keyed config leases -> acquire_lease config jobs leases l = Ok leases' ->
  leases_keyed config leases'.
Proof.
  intros [Hkey Hsize] (-> & Hval & _ & Hnew & _ & _ & Hlt)%acquire_lease_ok. split.
  - intros u' l' [[<- <-]|[_ Hl]]%lookup_insert_Some; [done|by apply Hkey].
  - rewrite msize_insert_new by done. lia.
Qed.

(** The parts of a successful [apply_mutation]. *)
Lemma apply_mutation_inv config st m st' :
  apply_mutation config st m = Ok st' <->
  mu_expected_revision m = st_revision st /\
  0 < entry_count m <= StateMutation_kMaxEntries /\ st_revision st <> u64_max /\
  st_revision st' = st_revision st + 1 /\
  exists jobs1 leases1,
    fold_result (create_job config) (st_jobs st) (mu_create_jobs m) = Ok jobs1 /\
    fold_result update_job jobs1 (mu_update_jobs m) = Ok (st_jobs st') /\
    fold_result release_lease (st_leases st) (mu_release_leases m) = Ok leases1 /\
    fold_result (acquire_lease config (st_jobs st')) leases1 (mu_acquire_leases m) = Ok (st_leases st') /\
    (forall u l, st_leases st' !! u = Some l -> leaseable_job (st_jobs st') (lease_job_id l) = true) /\
    (forall id r, st_jobs st' !! id = Some r ->
       lease_count (st_leases st') id = if leaseable (sj_state r) then 1 else 0).
Proof.
  unfold apply_mutation.
  destruct (N.eqb_spec (mu_expected_revision m) (st_revision st)); simpl; [|naive_solver].
  destruct (N.eqb_spec (entry_count m) 0); simpl; [naive_solver lia|].
  destruct (N.ltb_spec StateMutation_kMaxEntries (entry_count m)); simpl; [naive_solver lia|].
  destruct (N.eqb_spec (st_revision st) u64_max); simpl; [naive_solver|].
  assert (forall jobs leases,
    forallb (fun e => leaseable_job jobs (lease_job_id e)) (map_values leases) = true <->
    forall u l, leases !! u = Some l -> leaseable_job jobs (lease_job_id l) = true) as Hf1.
  { intros jobs leases. rewrite forallb_forall. setoid_rewrite <- list_elem_of_In.
    setoid_rewrite elem_of_map_values. naive_solver. }
  assert (forall jobs leases, forallb (lease_count_ok leases) (map_entries jobs) = true <->
    forall id r, jobs !! id = Some r ->
      lease_count leases id = if leaseable (sj_state r) then 1 else 0) as Hf2.
  { intros jobs leases. rewrite forallb_forall. setoid_rewrite <- list_elem_of_In.
    unfold lease_count_ok. split.
    - intros Hall id r Hr. specialize (Hall (id, r)). rewrite elem_of_map_entries in Hall.
      specialize (Hall Hr). simpl in Hall. case_match; by apply N.eqb_eq.
    - intros Hall [id r] Hr%elem_of_map_entries. apply Hall in Hr. simpl.
      case_match; by apply N.eqb_eq. }
  split.
  - intros (jobs1 & Hc & (jobs2 & Hu & (leases1 & Hr & (leases2 & Ha & Hk)%result_bind_ok)
      %result_bind_ok)%result_bind_ok)%result_bind_ok.
    destruct (forallb _ (map_values leases2)) eqn:E1; simpl in Hk; [|done].
    destruct (forallb _ (map_entries jobs2)) eqn:E2; simpl in Hk; [|done].
    simplify_eq/=. split_and!; [done|lia|done..|done|]. exists jobs1, leases1.
    split_and!; try done; [by apply Hf1|by apply Hf2].
  - intros (_ & _ & _ & Hrev & jobs1 & leases1 & -> & Hu & Hr & Ha & H1 & H2).
    simpl. rewrite Hu. simpl. rewrite Hr. simpl. rewrite Ha. simpl.
    rewrite (proj2 (Hf1 _ _) H1), (proj2 (Hf2 _ _) H2). simpl. rewrite <- Hrev.
    by destruct st'.
Qed.

Lemma fold_result_errs {E A B} (P : E -> Prop) (f : B -> A -> Result E B) acc l :
  (forall acc a, errs_sat P (f acc a)) -> errs_sat P (fold_result f acc l).
Proof.
  intros Hf. revert acc. induction l as [|a l IH]; intros acc; simpl; [done|].
  by apply errs_sat_bind.
Qed.

Lemma apply_mutation_coded config st m :
  errs_sat (fun e => e <> SE_kNone) (apply_mutation config st m).
Proof.
  unfold apply_mutation.
  repeat first [ walk_errs | apply fold_result_errs; intros ?? | case_match
               | progress unfold create_job, update_job, release_lease, acquire_lease | done ].
Qed.

Lemma StoreOk_evolved config st : StoreOk config st -> jobs_evolved config (st_jobs st) (st_jobs st).
Proof. intros Hok. split_and!; [apply Hok..|]. intros id r Hr. exists r. split; [done|constructor]. Qed.

Lemma StoreOk_keyed config st : StoreOk config st -> leases_keyed config (st_leases st).
Proof. intros Hok. split; apply Hok. Qed.

Lemma apply_mutation_evolved config st m st' :
  StoreOk config st -> apply_mutation config st m = Ok st' ->
  jobs_evolved config (st_jobs st) (st_jobs st') /\ leases_keyed config (st_leases st').
Proof.
  intros Hok (_ & _ & _ & _ & jobs1 & leases1 & Hc & Hu & Hr & Ha & _ & _)%apply_mutation_inv.
  split.
  - eapply (fold_result_invariant _ _ _ _ _ (fun _ _ _ _ => update_job_evolved _ _ _ _ _)); [|done].
    eapply (fold_result_invariant _ _ _ _ _ (fun _ _ _ _ => create_job_evolved _ _ _ _ _)); [|done].
    by apply StoreOk_evolved.
  - eapply (fold_result_invariant _ _ _ _ _ (fun _ _ _ _ => acquire_lease_keyed _ _ _ _ _)); [|done].
    eapply (fold_result_invariant _ _ _ _ _ (fun _ _ _ _ => release_lease_keyed _ _ _ _)); [|done].
    by apply StoreOk_keyed.
Qed.

Lemma leaseable_job_spec jobs id :
  leaseable_job jobs id = true <-> exists r, jobs !! id = Some r /\ leaseable (sj_state r) = true.
Proof. unfold leaseable_job. destruct (jobs !! id); naive_solver. Qed.

Lemma apply_mutation_preserves config st m st' :
  StoreOk config st -> apply_mutation config st m = Ok st' -> StoreOk config st'.
Proof.
  intros Hok Happ.
  destruct (apply_mutation_evolved _ _ _ _ Hok Happ) as [(Hall & Hsz & _) [Hkey Hlsz]].
  apply apply_mutation_inv in Happ as (_ & _ & Hmax & Hrev & _ & _ & _ & _ & _ & _ & Hlj & Hcount).
  assert (forall u l, st_leases st' !! u = Some l -> exists r,
            st_jobs st' !! lease_job_id l = Some r /\ leaseable (sj_state r) = true) as Hjob
    by (intros u l Hu; by apply leaseable_job_spec, (Hlj u)).
  constructor; try done.
  - intros id r Hr Hl. specialize (Hcount _ _ Hr). rewrite Hl in Hcount.
    apply lease_count_one in Hcount as (u & l & ? & ? & _). eauto.
  - intros u1 u2 l1 l2 H1 H2 Heq. destruct (Hjob _ _ H1) as (r & Hr & Hl).
    specialize (Hcount _ _ Hr). rewrite Hl in Hcount.
    apply lease_count_one in Hcount as (u & l & _ & _ & Huniq).
    by rewrite (Huniq u1 l1), (Huniq u2 l2).
  - pose proof (sto_revision _ _ Hok). lia.
Qed.

Lemma StoreOk_initial config : StoreOk config initial_state.
Proof.
  constructor; simpl; try (intros *; by rewrite lookup_empty).
  - apply map_Forall_empty.
  - unfold msize. rewrite map_size_empty. apply N.le_0_l.
  - unfold msize. rewrite map_size_empty. apply N.le_0_l.
  - apply N.le_0_l.
Qed.

Lemma store_reachable_inv config st : store_reachable config st -> StoreOk config st.
Proof.
  induction 1 as [|st m st' _ IH Happ]; [apply StoreOk_initial|].
  by eapply apply_mutation_preserves.
Qed.

(** Injected failures are never [kNone]. *)
Definition im_inv (s : InMemoryStateStore) : Prop :=
  im_failure s <> Some SE_kNone /\ im_next_apply_failure s <> Some SE_kNone.

Lemma im_apply_cases m s w s' :
  im_inv s -> im_apply m s = (w, s') ->
  (write_ok w = false /\ im_state s' = im_state s \/
   write_ok w = true /\ apply_mutation (im_config s) (im_state s) m = Ok (im_state s') /\
   wr_revision w = st_revision (im_state s')) /\
  im_inv s' /\ im_config s' = im_config s.
Proof.
  intros [Hf Hn]. unfold im_apply, im_inv.
  destruct (im_failure s) as [code|] eqn:Ef.
  { intros [= <- <-]. split; [left; split; [apply bool_decide_eq_false; simpl; congruence|done]|].
    by rewrite Ef. }
  destruct (im_next_apply_failure s) as [code|] eqn:En.
  { intros [= <- <-]. simpl. rewrite ?Ef. split; [left|done].
    split; [apply bool_decide_eq_false; simpl; congruence|done]. }
  assert (forall code, apply_mutation (im_config s) (im_state s) m = Err code -> code <> SE_kNone)
    as Hcode.
  { intros code Hc. pose proof (apply_mutation_coded (im_config s) (im_state s) m) as Hx.
    by rewrite Hc in Hx. }
  destruct (apply_mutation _ _ _) as [next|code]; intros [= <- <-]; simpl;
    rewrite ?Ef, ?En; (split; [|done]).
  - right. done.
  - left. split; [apply bool_decide_eq_false; simpl; naive_solver|done].
Qed.

#[export] Instance InMemoryStateStore_laws : StateStoreLaws InMemoryStateStore.
Proof.
  refine {| store_inv := im_inv; store_view := im_state; store_config := im_config |}.
  - intros s [Hf _]. simpl. unfold im_load, load_ok.
    destruct (im_failure s); [|done]. simpl. intros Heq%bool_decide_eq_true. congruence.
  - intros m s w s' Hi Ha Hok. destruct (im_apply_cases _ _ _ _ Hi Ha) as [[[? _]|(_ & ? & ?)] _];
      [congruence|done].
  - intros m s w s' Hi Ha Hok. destruct (im_apply_cases _ _ _ _ Hi Ha) as [[[_ ?]|(? & _)] _];
      [done|congruence].
  - intros m s w s' Hi Ha. by destruct (im_apply_cases _ _ _ _ Hi Ha) as [_ ?].
Defined.

(** ** Sessions of the in-memory store *)

Inductive im_op :=
| IO_apply (m : StateMutation)
| IO_fail_with (error : StateStoreErrorCode)
| IO_fail_next_apply_with (error : StateStoreErrorCode)
| IO_clear_failure.

(** One call; the result says whether a write was acknowledged. *)
Definition im_call (op : im_op) (s : InMemoryStateStore) : bool * InMemoryStateStore :=
  match op with
  | IO_apply m => let '(w, s') := im_apply m s in (write_ok w, s')
  | IO_fail_with error => (false, im_fail_with error s)
  | IO_fail_next_apply_with error => (false, im_fail_next_apply_with error s)
  | IO_clear_failure => (false, im_clear_failure s)
  end.

(** A session and its number of acknowledged writes. *)
Fixpoint im_session (ops : list im_op) (s : InMemoryStateStore) : N * InMemoryStateStore :=
  match ops with
  | [] => (0, s)
  | op :: ops' =>
      let '(written, s') := im_call op s in
      let '(n, s'') := im_session ops' s' in
      ((if written then 1 else 0) + n, s'')
  end.

Lemma im_call_spec op s b s' :
  im_inv s -> im_call op s = (b, s') ->
  im_inv s' /\ im_config s' = im_config s /\
  (if b then exists m, apply_mutation (im_config s) (im_state s) m = Ok (im_state s')
   else im_state s' = im_state s).
Proof.
  intros Hinv Hcall. destruct op as [m|e|e|]; simpl in Hcall.
  - destruct (im_apply m s) as [w s1] eqn:Ha. simplify_eq.
    destruct (im_apply_cases _ _ _ _ Hinv Ha) as [[[-> Hs]|(-> & Hs & _)] [Hi Hc]]; eauto.
  - simplify_eq. destruct Hinv. repeat split; simpl; try done. by case_bool_decide; [|intros [=]].
  - simplify_eq. destruct Hinv. repeat split; simpl; try done. by case_bool_decide; [|intros [=]].
  - simplify_eq. by destruct Hinv.
Qed.

Lemma im_session_spec ops s n s' :
  im_inv s -> store_reachable (im_config s) (im_state s) -> im_session ops s = (n, s') ->
  im_config s' = im_config s /\ im_inv s' /\ store_reachable (im_config s) (im_state s') /\
  st_revision (im_state s') = st_revision (im_state s) + n.
Proof.
  revert s n. induction ops as [|op ops IH]; intros s n Hi Hr Hrun; simpl in Hrun.
  { simplify_eq. split_and!; try done. lia. }
  destruct (im_call op s) as [b s1] eqn:Hc. destruct (im_session ops s1) as [n1 s2] eqn:Hs.
  simplify_eq. apply im_call_spec in Hc as (Hi1 & Hcfg & Hst); [|done].
  assert (store_reachable (im_config s1) (im_state s1) /\
          st_revision (im_state s1) = st_revision (im_state s) + (if b then 1 else 0))
    as [Hr1 Hrev1].
  { rewrite Hcfg. destruct b; [|rewrite Hst; split; [done|lia]].
    destruct Hst as [m Hm]. split; [by eapply reach_apply|].
    by apply apply_mutation_inv in Hm as (_ & _ & _ & ? & _). }
  destruct (IH _ _ Hi1 Hr1 Hs) as (-> & Hi' & Hr' & Hrev). rewrite Hcfg in *.
  split_and!; try done. lia.
Qed.

(** ** Properties of the store *)

(** [validate_execution] accepts exactly the execution records that fit the
    job's state: no process identity or log path while QUEUED, an identity
    while RUNNING or STOPPING, exit, end time and failure reason only on a
    terminal job, start time not before submission and end not before start. *)
Theorem validate_execution_none_iff x s spec :
  validate_execution x s spec = XV_kNone <-> ExecutionOk x s spec.
Proof.
  rewrite <- execution_ok_iff. unfold execution_ok. by rewrite bool_decide_eq_true.
Qed.

(** C2. Every state a back end can reach from the empty one is well formed:
    all records valid, capacities respected, each GPU leased to one job and a
    lease held by exactly the jobs in STARTING, RUNNING or STOPPING. *)
Theorem store_reachable_ok config st : store_reachable config st -> StoreOk config st.
Proof. apply store_reachable_inv. Qed.

(** An accepted mutation never loses or rewrites history: the revision goes
    up by one, every job is still there with its id and submitted spec, has
    only moved along legal lifecycle transitions with one revision per step,
    and a terminal record is untouched. *)
Theorem apply_mutation_history config st m st' id r :
  StoreOk config st -> apply_mutation config st m = Ok st' -> st_jobs st !! id = Some r ->
  st_revision st' = st_revision st + 1 /\
  exists r', st_jobs st' !! id = Some r' /\ rtc stored_step r r' /\
    sj_id r' = id /\ sj_spec r' = sj_spec r /\ sj_revision r <= sj_revision r' /\
    (is_terminal (sj_state r) = true -> r' = r).
Proof.
  intros Hok Happ Hr. split; [by apply apply_mutation_inv in Happ as (_ & _ & _ & ? & _)|].
  destruct (apply_mutation_evolved _ _ _ _ Hok Happ) as [(_ & _ & Hold) _].
  destruct (Hold _ _ Hr) as (r' & Hr' & Hsteps). exists r'.
  destruct (stored_steps_spec _ _ Hsteps) as (Hspec & Hid & Hrev).
  pose proof (ro_id _ _ (map_Forall_lookup_1 _ _ _ _ (sto_jobs _ _ Hok) Hr)) as Hrid.
  split_and!; try done; [congruence|]. by apply stored_steps_terminal.
Qed.

(** The in-memory back end implements the store contract over whole
    sessions: whatever writes are attempted and whatever failures are injected
    in between, the state it holds is one the validation core reaches, is well
    formed, and its revision counts exactly the acknowledged writes; a load
    that reports success shows that state. *)
Theorem in_memory_session config ops n s :
  im_session ops (in_memory config) = (n, s) ->
  StoreOk config (im_state s) /\ store_reachable config (im_state s) /\
  st_revision (im_state s) = n /\
  (load_ok (im_load s) = true -> lr_snapshot (im_load s) = snapshot_of (im_state s)).
Proof.
  intros Hrun. apply im_session_spec in Hrun as (_ & Hi & Hr & Hrev); [|done|constructor].
  simpl in Hr. split_and!; try done.
  - by apply store_reachable_inv.
  - exact (store_load_view s Hi).
Qed.

(** ** Witnesses *)

Definition example_config : ValidationConfig := mkConfig 4 2.
Definition example_identity : ProcessIdentity := mkIdentity 100 100 5.
Definition example_queued : StoredJob := mkStored 3 example_spec kQueued 0 empty_execution.
Definition example_starting : StoredJob := mkStored 3 example_spec kStarting 1 empty_execution.
Definition example_submit : StateMutation := {| empty_mutation with mu_create_jobs := [example_queued] |}.
Definition example_schedule : StateMutation :=
  mkMutation 1 [] [example_starting] [mkLease "GPU-a" 3] [].

Definition example_state1 : StoreState := mkState 1 {[ 3 := example_queued ]} ∅.
Definition example_state2 : StoreState :=
  mkState 2 {[ 3 := example_starting ]} {[ "GPU-a" := mkLease "GPU-a" 3 ]}.

Example example_submit_ok : apply_mutation example_config initial_state example_submit = Ok example_state1.
Proof. vm_compute. reflexivity. Qed.

Example example_schedule_ok :
  apply_mutation example_config example_state1 example_schedule = Ok example_state2.
Proof. vm_compute. reflexivity. Qed.

Lemma example_reachable2 : store_reachable example_config example_state2.
Proof.
  eapply reach_apply; [eapply reach_apply; [apply reach_init|]|];
    [apply example_submit_ok|apply example_schedule_ok].
Qed.

Lemma example_ok1 : StoreOk example_config example_state1.
Proof. eapply apply_mutation_preserves; [apply StoreOk_initial|apply example_submit_ok]. Qed.

Lemma store_reachable_ok_witness : StoreOk example_config example_state2.
Proof. apply store_reachable_ok. apply example_reachable2. Defined.

Lemma apply_mutation_history_witness :
  exists r', st_jobs example_state2 !! 3 = Some r' /\ rtc stored_step example_queued r'.
Proof.
  destruct (apply_mutation_history example_config example_state1 example_schedule example_state2 3
              example_queued) as (_ & r' & Hr & Hs & _).
  - apply example_ok1.
  - apply example_schedule_ok.
  - vm_compute. reflexivity.
  - exists r'. split; assumption.
Defined.

Lemma in_memory_session_witness :
  let s := snd (im_session [IO_apply example_submit; IO_fail_next_apply_with SE_kBackendUnavailable;
                            IO_apply example_schedule; IO_apply example_schedule]
                  (in_memory example_config)) in
  st_revision (im_state s) = 2.
Proof.
  intros s. refine (proj1 (proj2 (proj2 (in_memory_session example_config
    [IO_apply example_submit; IO_fail_next_apply_with SE_kBackendUnavailable;
     IO_apply example_schedule; IO_apply example_schedule] 2 s _)))).
  vm_compute. reflexivity.
Defined.
