(* ===== verification/Queue.v ===== *)
(** * The global job queue: [include/yori/queue/job_queue.hpp],
    [src/queue/job_queue.cpp]

    The server-wide FIFO queue derived from the stored jobs: a bounded vector
    kept sorted by [(submit_time, job id)].  [QueueOk] is its invariant;
    [queue_calls] describes arbitrary client sessions.  [lower_bound] is the
    binary search [std::lower_bound] performs, shown equal to the linear
    definition of the insertion point. *)

From S2P Require Import Prelude.
From S2P Require Import Job.
From S2P Require Import Gpu.
From S2P Require Import Store.

(** ** Data *)

Definition kDefaultCapacity : N := 1024.
Definition kMaxCapacity : N := 4096.

Inductive QueueErrorCode :=
| QE_kNone
| QE_kInvalidCapacity
| QE_kInvalidSnapshotRevision
| QE_kInvalidJobId
| QE_kInvalidJobSpec
| QE_kInvalidJobState
| QE_kInvalidJobRevision
| QE_kJobNotQueued
| QE_kDuplicateJob
| QE_kCapacityExceeded
| QE_kJobNotFound.

#[export] Instance QueueErrorCode_eq_dec : EqDecision QueueErrorCode.
Proof. solve_decision. Defined.

Inductive QueueEventKind :=
| QK_kNone
| QK_kAdmissionAccepted
| QK_kAdmissionRejected
| QK_kRemovalApplied
| QK_kRemovalRejected
| QK_kRestoreApplied
| QK_kRestoreRejected.

Record QueueEvent := mkQueueEvent {
  qv_kind : QueueEventKind;
  qv_code : QueueErrorCode;
  qv_job_id : option JobId;
  qv_size_before : N;
  qv_size_after : N;
  qv_capacity : N;
}.

Record QueueEntry := mkEntry {
  qe_job_id : JobId;
  qe_submit_time : Z;
}.

#[export] Instance QueueEntry_eq_dec : EqDecision QueueEntry.
Proof. solve_decision. Defined.

Record QueueOperationResult := mkQueueResult {
  qr_code : QueueErrorCode;
  qr_event : QueueEvent;
  qr_position : option N;
  qr_item_index : option N;
  qr_spec_validation : JobSpecValidationResult;
}.

(** [QueueOperationResult::ok] *)
Definition queue_ok (r : QueueOperationResult) : bool := bool_decide (qr_code r = QE_kNone).

Record GlobalJobQueue := mkQueue {
  q_capacity : N;
  q_entries : list QueueEntry;
}.

(** ** Operations *)

Definition entry_less (lhs rhs : QueueEntry) : bool :=
  if negb (qe_submit_time lhs =? qe_submit_time rhs)%Z
  then (qe_submit_time lhs <? qe_submit_time rhs)%Z
  else qe_job_id lhs <? qe_job_id rhs.

Definition known_state (s : JobState) : bool :=
  match s with
  | kQueued | kStarting | kRunning | kStopping | kFinished | kFailed | kCancelled | kLost => true
  end.

(** The helper [result(...)] of the anonymous namespace. *)
Definition queue_result (kind : QueueEventKind) (code : QueueErrorCode) (id : option JobId)
    (size_before size_after capacity : N) (position item_index : option N)
    (validation : JobSpecValidationResult) : QueueOperationResult :=
  mkQueueResult code (mkQueueEvent kind code id size_before size_after capacity)
    position item_index validation.

(** [std::lower_bound(first, first + count, value, entry_less)]: the halving
    loop; [fuel] bounds its iterations ([count] is enough, it shrinks). *)
Fixpoint lower_bound_loop (fuel : nat) (l : list QueueEntry) (value : QueueEntry) (first count : nat)
  : nat :=
  match fuel with
  | O => first
  | S fuel' =>
      match count with
      | O => first
      | _ =>
          let half := Nat.div2 count in
          match l !! (first + half)%nat with
          | Some middle =>
              if entry_less middle value
              then lower_bound_loop fuel' l value (first + half + 1) (count - half - 1)
              else lower_bound_loop fuel' l value first half
          | None => first
          end
      end
  end.

Definition lower_bound (l : list QueueEntry) (value : QueueEntry) : nat :=
  lower_bound_loop (length l) l value 0 (length l).

(** [entries.insert(begin + i, e)] *)
Definition insert_at (i : nat) (e : QueueEntry) (l : list QueueEntry) : list QueueEntry :=
  take i l ++ e :: drop i l.

(** [GlobalJobQueue::create] *)
Definition queue_create (capacity : N) : QueueErrorCode * option GlobalJobQueue :=
  if (capacity =? 0) || (kMaxCapacity <? capacity) then (QE_kInvalidCapacity, None)
  else (QE_kNone, Some (mkQueue capacity [])).

(** [GlobalJobQueue::contains] *)
Definition queue_contains (q : GlobalJobQueue) (id : JobId) : bool :=
  existsb (fun e => qe_job_id e =? id) (q_entries q).

(** [GlobalJobQueue::front] *)
Definition queue_front (q : GlobalJobQueue) : option QueueEntry := head (q_entries q).

Definition valid_id (id : JobId) : option JobId := if job_id_valid id then Some id else None.

(** The guards of [admit], in order. *)
Definition admit_checks (q : GlobalJobQueue) (record : StoredJob)
  : Result (QueueErrorCode * JobSpecValidationResult) unit :=
  reject_if negb (job_id_valid (sj_id record)) with (QE_kInvalidJobId, spec_ok_result);
  let validation := validate (sj_spec record) in
  reject_if negb (spec_result_ok validation) with (QE_kInvalidJobSpec, validation);
  reject_if negb (known_state (sj_state record)) with (QE_kInvalidJobState, spec_ok_result);
  reject_if negb (bool_decide (sj_state record = kQueued)) with (QE_kJobNotQueued, spec_ok_result);
  reject_if negb (sj_revision record =? 0) with (QE_kInvalidJobRevision, spec_ok_result);
  reject_if queue_contains q (sj_id record) with (QE_kDuplicateJob, spec_ok_result);
  reject_if q_capacity q <=? len (q_entries q) with (QE_kCapacityExceeded, spec_ok_result);
  Ok tt.

Definition entry_of (record : StoredJob) : QueueEntry :=
  mkEntry (sj_id record) (submit_time (sj_spec record)).

(** [GlobalJobQueue::admit] *)
Definition queue_admit (record : StoredJob) (q : GlobalJobQueue)
  : QueueOperationResult * GlobalJobQueue :=
  let size_before := len (q_entries q) in
  match admit_checks q record with
  | Err (code, validation) =>
      (queue_result QK_kAdmissionRejected code (valid_id (sj_id record)) size_before size_before
         (q_capacity q) None None validation, q)
  | Ok _ =>
      let entry := entry_of record in
      let position := lower_bound (q_entries q) entry in
      let entries := insert_at position entry (q_entries q) in
      (queue_result QK_kAdmissionAccepted QE_kNone (Some (sj_id record)) size_before (len entries)
         (q_capacity q) (Some (N.of_nat position)) None spec_ok_result,
       {| q with q_entries := entries |})
  end.

(** [GlobalJobQueue::remove] *)
Definition queue_remove (id : JobId) (q : GlobalJobQueue) : QueueOperationResult * GlobalJobQueue :=
  let size_before := len (q_entries q) in
  if negb (job_id_valid id) then
    (queue_result QK_kRemovalRejected QE_kInvalidJobId None size_before size_before (q_capacity q)
       None None spec_ok_result, q)
  else
    match list_find (fun e => qe_job_id e = id) (q_entries q) with
    | None =>
        (queue_result QK_kRemovalRejected QE_kJobNotFound (Some id) size_before size_before
           (q_capacity q) None None spec_ok_result, q)
    | Some (position, _) =>
        let entries := delete position (q_entries q) in
        (queue_result QK_kRemovalApplied QE_kNone (Some id) size_before (len entries) (q_capacity q)
           (Some (N.of_nat position)) None spec_ok_result,
         {| q with q_entries := entries |})
    end.

(** A rejection inside the loop of [restore]: code, id, item index, validation. *)
Definition RestoreError : Type :=
  QueueErrorCode * option JobId * option N * JobSpecValidationResult.

(** One iteration of the loop of [restore] over [(seen, restored)]. *)
Definition restore_item (capacity : N) (index : N) (acc : gset JobId * list QueueEntry)
    (record : StoredJob) : Result RestoreError (gset JobId * list QueueEntry) :=
  let '(seen, restored) := acc in
  let id := valid_id (sj_id record) in
  reject_if negb (job_id_valid (sj_id record))
    with (QE_kInvalidJobId, None, Some index, spec_ok_result);
  let validation := validate (sj_spec record) in
  reject_if negb (spec_result_ok validation) with (QE_kInvalidJobSpec, id, Some index, validation);
  reject_if negb (known_state (sj_state record))
    with (QE_kInvalidJobState, id, Some index, spec_ok_result);
  reject_if (bool_decide (sj_state record = kQueued) && negb (sj_revision record =? 0))
            || (negb (bool_decide (sj_state record = kQueued)) && (sj_revision record =? 0))
    with (QE_kInvalidJobRevision, id, Some index, spec_ok_result);
  reject_if bool_decide (sj_id record ∈ seen) with (QE_kDuplicateJob, id, Some index, spec_ok_result);
  let seen := {[ sj_id record ]} ∪ seen in
  if negb (bool_decide (sj_state record = kQueued)) then Ok (seen, restored)
  else
    reject_if capacity <=? len restored with (QE_kCapacityExceeded, id, Some index, spec_ok_result);
    Ok (seen, restored ++ [entry_of record]).

(** [std::sort(begin, end, entry_less)] *)
Definition entry_le (x y : QueueEntry) : Prop := entry_less y x = false.

#[export] Instance entry_le_dec : RelDecision entry_le.
Proof. intros x y. unfold entry_le. apply _. Defined.

Definition sort_entries (l : list QueueEntry) : list QueueEntry := merge_sort entry_le l.

(** [GlobalJobQueue::restore] *)
Definition queue_restore (snapshot : StateSnapshot) (q : GlobalJobQueue)
  : QueueOperationResult * GlobalJobQueue :=
  let size_before := len (q_entries q) in
  let rejected '(code, id, item_index, validation) :=
    (queue_result QK_kRestoreRejected code id size_before size_before (q_capacity q) None item_index
       validation, q) in
  if (ss_revision snapshot =? 0) && ((0 <? len (ss_jobs snapshot)) || (0 <? len (ss_leases snapshot)))
  then rejected (QE_kInvalidSnapshotRevision, None, None, spec_ok_result)
  else
    match fold_result_idx (restore_item (q_capacity q)) 0 (∅, []) (ss_jobs snapshot) with
    | Err e => rejected e
    | Ok (_, restored) =>
        let entries := sort_entries restored in
        (queue_result QK_kRestoreApplied QE_kNone None size_before (len entries) (q_capacity q) None
           None spec_ok_result,
         {| q with q_entries := entries |})
    end.

(** [to_string(QueueErrorCode)] *)
Definition QueueErrorCode_to_string (code : QueueErrorCode) : string :=
  match code with
  | QE_kNone => "NONE"
  | QE_kInvalidCapacity => "INVALID_CAPACITY"
  | QE_kInvalidSnapshotRevision => "INVALID_SNAPSHOT_REVISION"
  | QE_kInvalidJobId => "INVALID_JOB_ID"
  | QE_kInvalidJobSpec => "INVALID_JOB_SPEC"
  | QE_kInvalidJobState => "INVALID_JOB_STATE"
  | QE_kInvalidJobRevision => "INVALID_JOB_REVISION"
  | QE_kJobNotQueued => "JOB_NOT_QUEUED"
  | QE_kDuplicateJob => "DUPLICATE_JOB"
  | QE_kCapacityExceeded => "CAPACITY_EXCEEDED"
  | QE_kJobNotFound => "JOB_NOT_FOUND"
  end.

(** [to_string(QueueEventKind)] *)
Definition QueueEventKind_to_string (kind : QueueEventKind) : string :=
  match kind with
  | QK_kNone => "NONE"
  | QK_kAdmissionAccepted => "ADMISSION_ACCEPTED"
  | QK_kAdmissionRejected => "ADMISSION_REJECTED"
  | QK_kRemovalApplied => "REMOVAL_APPLIED"
  | QK_kRemovalRejected => "REMOVAL_REJECTED"
  | QK_kRestoreApplied => "RESTORE_APPLIED"
  | QK_kRestoreRejected => "RESTORE_REJECTED"
  end.

(** ** Specification *)

(** FIFO order: earlier submission first, ties by job id. *)
Definition entry_lt (x y : QueueEntry) : Prop := entry_less x y = true.

#[export] Instance entry_lt_dec : RelDecision entry_lt.
Proof. intros x y. unfold entry_lt. apply _. Defined.

Record QueueOk (q : GlobalJobQueue) : Prop := {
  qo_capacity : 0 < q_capacity q <= kMaxCapacity;
  qo_sorted : StronglySorted entry_lt (q_entries q);
  qo_ids : NoDup (qe_job_id <$> q_entries q);
  qo_valid : Forall (fun e => qe_job_id e <> 0) (q_entries q);
  qo_bounded : len (q_entries q) <= q_capacity q;
}.

(** The jobs [admit] accepts. *)
Record Admissible (q : GlobalJobQueue) (r : StoredJob) : Prop := {
  ad_id : sj_id r <> 0;
  ad_spec : SpecOk (sj_spec r);
  ad_state : sj_state r = kQueued;
  ad_revision : sj_revision r = 0;
  ad_new : sj_id r ∉ qe_job_id <$> q_entries q;
  ad_space : len (q_entries q) < q_capacity q;
}.

(** The records [restore] accepts in a snapshot. *)
Record Restorable (r : StoredJob) : Prop := {
  rs_id : sj_id r <> 0;
  rs_spec : SpecOk (sj_spec r);
  rs_revision : sj_revision r = 0 <-> sj_state r = kQueued;
}.

(** The entries a snapshot's QUEUED jobs stand for. *)
Definition queued_entries (jobs : list StoredJob) : list QueueEntry :=
  entry_of <$> filter (fun r => sj_state r = kQueued) jobs.

(** Position by the definition: how many entries go before. *)
Definition entries_before (l : list QueueEntry) (value : QueueEntry) : nat :=
  length (filter (fun e => entry_lt e value) l).

(** Client sessions. *)
Inductive queue_op :=
| QO_admit (r : StoredJob)
| QO_remove (id : JobId)
| QO_restore (s : StateSnapshot).

Definition queue_call (op : queue_op) (q : GlobalJobQueue) : QueueOperationResult * GlobalJobQueue :=
  match op with
  | QO_admit r => queue_admit r q
  | QO_remove id => queue_remove id q
  | QO_restore s => queue_restore s q
  end.

Inductive queue_calls : GlobalJobQueue -> list queue_op -> GlobalJobQueue -> Prop :=
| queue_calls_nil q : queue_calls q [] q
| queue_calls_cons q op res q1 ops q2 :
    queue_call op q = (res, q1) -> queue_calls q1 ops q2 -> queue_calls q (op :: ops) q2.

(** ** The order *)

Lemma entry_lt_spec x y :
  entry_lt x y <->
  (qe_submit_time x < qe_submit_time y)%Z \/
  qe_submit_time x = qe_submit_time y /\ qe_job_id x < qe_job_id y.
Proof.
  unfold entry_lt, entry_less. destruct (Z.eqb_spec (qe_submit_time x) (qe_submit_time y)); simpl.
  - rewrite N.ltb_lt. lia.
  - rewrite Z.ltb_lt. lia.
Qed.

Lemma entry_le_spec x y : entry_le x y <-> entry_lt x y \/ x = y.
Proof.
  unfold entry_le. rewrite <- not_true_iff_false. fold (entry_lt y x). rewrite !entry_lt_spec.
  destruct x as [i1 t1], y as [i2 t2]; simpl. split.
  - intros Hn. destruct (decide (t1 = t2 /\ i1 = i2)) as [ [-> ->] | ]; [by right|left; lia].
  - intros [?|Heq]; [lia|injection Heq as -> ->; lia].
Qed.

#[export] Instance entry_lt_trans : Transitive entry_lt.
Proof. intros x y z. rewrite !entry_lt_spec. lia. Qed.

#[export] Instance entry_lt_antisymm : AntiSymm eq entry_lt.
Proof. intros x y. rewrite !entry_lt_spec. lia. Qed.

#[export] Instance entry_le_trans : Transitive entry_le.
Proof.
  intros x y z. rewrite !entry_le_spec. intros [?| ->] [?| ->]; eauto. left. by etransitivity.
Qed.

#[export] Instance entry_le_total : Total entry_le.
Proof.
  intros x y. unfold entry_le. rewrite <- !not_true_iff_false.
  fold (entry_lt y x) (entry_lt x y). rewrite !entry_lt_spec. lia.
Qed.

(** ** Binary search *)

Section lower_bound.
Variables (l : list QueueEntry) (value : QueueEntry).
Hypothesis Hsorted : StronglySorted entry_lt l.

(** [r] splits [l] into the entries before [value] and the rest. *)
Definition cut_point (r : nat) : Prop :=
  (r <= length l)%nat /\
  (forall j e, l !! j = Some e -> (j < r)%nat <-> entry_lt e value).

Lemma sorted_lookup i j x y : l !! i = Some x -> l !! j = Some y -> (i < j)%nat -> entry_lt x y.
Proof.
  intros Hi Hj Hlt. rewrite <- (take_drop j l) in Hsorted.
  apply (StronglySorted_app_1_elem_of _ _ _ _ _ Hsorted).
  - apply list_elem_of_lookup. exists i. by rewrite lookup_take_lt.
  - apply list_elem_of_lookup. exists 0%nat. by rewrite lookup_drop, Nat.add_0_r.
Qed.

Lemma lower_bound_loop_cut fuel first count :
  (count <= fuel)%nat -> (first + count <= length l)%nat ->
  (forall j e, l !! j = Some e -> (j < first)%nat -> entry_lt e value) ->
  (forall j e, l !! j = Some e -> (first + count <= j)%nat -> ~ entry_lt e value) ->
  cut_point (lower_bound_loop fuel l value first count).
Proof.
  assert (forall first, (first <= length l)%nat ->
    (forall j e, l !! j = Some e -> (j < first)%nat -> entry_lt e value) ->
    (forall j e, l !! j = Some e -> (first <= j)%nat -> ~ entry_lt e value) ->
    cut_point first) as Hdone.
  { intros f Hf H1 H2. split; [done|]. intros j e Hj. split; [by eauto|].
    intros Hlt. destruct (decide (j < f)%nat); [done|]. exfalso. eapply H2; [done|lia|done]. }
  revert first count. induction fuel as [|fuel IH]; intros first count Hfuel Hlen Hlo Hhi;
    simpl; [apply Hdone; try done; [lia|]; intros; eapply Hhi; eauto; lia|].
  destruct count as [|c]; [apply Hdone; try done; [lia|]; intros; eapply Hhi; eauto; lia|].
  pose proof (Nat.lt_div2 (S c) ltac:(lia)) as Hhalf.
  set (half := Nat.div2 (S c)) in *. clearbody half.
  destruct (lookup_lt_is_Some_2 l (first + half)) as [middle Hm]; [lia|]. rewrite Hm.
  destruct (entry_less middle value) eqn:Hless.
  - apply IH; [lia..| |intros j e Hj Hge; apply (Hhi j e Hj); lia].
    intros j e Hj Hlt. destruct (decide (j = first + half)%nat) as [->|].
    + by simplify_eq.
    + transitivity middle; [|done]. eapply sorted_lookup; eauto. lia.
  - apply IH; [lia..|done|].
    intros j e Hj Hge. destruct (decide (j = first + half)%nat) as [->|].
    + simplify_eq. unfold entry_lt. congruence.
    + intros Hlt. assert (entry_lt middle value) as Hmv; [|unfold entry_lt in Hmv; congruence].
      transitivity e; [|done]. eapply sorted_lookup; eauto. lia.
Qed.

Lemma lower_bound_cut : cut_point (lower_bound l value).
Proof.
  apply lower_bound_loop_cut; [lia..|intros; lia|].
  intros j e Hj%lookup_lt_Some. lia.
Qed.

Lemma cut_point_take r e : cut_point r -> e ∈ take r l -> entry_lt e value.
Proof.
  intros [_ Hr] (j & Hj)%list_elem_of_lookup. apply lookup_take_Some in Hj as [Hj ?]. by apply (Hr j).
Qed.

Lemma cut_point_drop r e : cut_point r -> e ∈ drop r l -> ~ entry_lt e value.
Proof.
  intros [_ Hr] (j & Hj)%list_elem_of_lookup. rewrite lookup_drop in Hj.
  intros Hlt%(Hr _ _ Hj). lia.
Qed.

Lemma cut_point_unique r : cut_point r -> r = entries_before l value.
Proof.
  intros Hr. pose proof (proj1 Hr) as Hle. unfold entries_before.
  rewrite <- (take_drop r l) at 1. rewrite filter_app, length_app.
  rewrite (filter_all _ (take r l)).
  2: { apply Forall_forall. intros e He. by eapply cut_point_take. }
  rewrite (filter_none _ (drop r l)).
  2: { apply Forall_forall. intros e He. by eapply cut_point_drop. }
  rewrite length_take. simpl. lia.
Qed.

(** Inserting at the cut keeps the order. *)
Lemma insert_at_sorted r :
  cut_point r -> value ∉ l -> StronglySorted entry_lt (insert_at r value l).
Proof.
  intros Hr Hnew. unfold insert_at. pose proof Hsorted as Hs. rewrite <- (take_drop r l) in Hs.
  apply StronglySorted_app in Hs as (Hcross & Ht & Hd).
  assert (forall y, y ∈ drop r l -> entry_lt value y) as Hafter.
  { intros y Hy. pose proof (cut_point_drop _ _ Hr Hy) as Hn.
    assert (entry_le value y) as [?| <-]%entry_le_spec; [|done|].
    - unfold entry_le. apply not_true_iff_false, Hn.
    - contradict Hnew. rewrite <- (take_drop r l). apply elem_of_app. by right. }
  apply StronglySorted_app_2; [|done|].
  - intros x y Hx [->|Hy]%elem_of_cons; [by eapply cut_point_take|].
    transitivity value; [by eapply cut_point_take|by apply Hafter].
  - constructor; [done|]. by apply Forall_forall.
Qed.
End lower_bound.

Lemma insert_at_perm r e l : insert_at r e l ≡ₚ e :: l.
Proof. unfold insert_at. rewrite <- (take_drop r l) at 3. by rewrite Permutation_middle. Qed.

(** ** Operations on a well-formed queue *)

Lemma queue_contains_spec q id : queue_contains q id = true <-> id ∈ qe_job_id <$> q_entries q.
Proof.
  unfold queue_contains. rewrite existsb_exists, list_elem_of_fmap.
  setoid_rewrite <- list_elem_of_In. setoid_rewrite N.eqb_eq. naive_solver.
Qed.

Lemma admit_checks_ok q r : admit_checks q r = Ok tt <-> Admissible q r.
Proof.
  unfold admit_checks, job_id_valid.
  pose proof (spec_valid_iff (sj_spec r)) as Hspec. unfold spec_valid in Hspec.
  pose proof (queue_contains_spec q (sj_id r)) as Hc.
  destruct (N.eqb_spec (sj_id r) 0); simpl; [split; [done|by intros []]|].
  destruct (spec_result_ok _); simpl; [|split; [done|intros []; naive_solver]].
  assert (known_state (sj_state r) = true) as -> by by destruct (sj_state r). simpl.
  case_bool_decide; simpl; [|split; [done|by intros []]].
  destruct (N.eqb_spec (sj_revision r) 0); simpl; [|split; [done|by intros []]].
  destruct (queue_contains q _); [split; [done|intros []; naive_solver]|].
  destruct (N.leb_spec (q_capacity q) (len (q_entries q))); [split; [done|intros []; lia]|].
  split; [|done]. intros _. constructor; try done; naive_solver.
Qed.

Lemma admit_checks_coded q r : errs_sat (fun e => e.1 <> QE_kNone) (admit_checks q r).
Proof. unfold admit_checks. repeat walk_errs. Qed.

Lemma entries_perm_ok q entries e :
  QueueOk q -> entries ≡ₚ e :: q_entries q -> StronglySorted entry_lt entries ->
  qe_job_id e <> 0 -> qe_job_id e ∉ qe_job_id <$> q_entries q -> len (q_entries q) < q_capacity q ->
  QueueOk {| q with q_entries := entries |}.
Proof.
  intros [Hcap Hs Hn Hv Hb] Hp Hsorted He Hnew Hlt. constructor; simpl; try done.
  - rewrite Hp. simpl. by constructor.
  - rewrite Hp. by constructor.
  - rewrite (len_perm _ _ Hp), len_cons. lia.
Qed.

Lemma queue_admit_ok q r :
  QueueOk q -> Admissible q r ->
  exists res, queue_admit r q =
    (res, {| q with q_entries := insert_at (entries_before (q_entries q) (entry_of r)) (entry_of r)
                                   (q_entries q) |}) /\
    queue_ok res = true /\
    qr_position res = Some (N.of_nat (entries_before (q_entries q) (entry_of r))) /\
    qv_size_after (qr_event res) = len (q_entries q) + 1.
Proof.
  intros Hq Ha. unfold queue_admit. rewrite (proj2 (admit_checks_ok q r) Ha).
  rewrite <- (cut_point_unique (q_entries q) (entry_of r) _ (lower_bound_cut _ _ (qo_sorted _ Hq))).
  eexists. split_and!; [done..|]. simpl. by rewrite (len_perm _ _ (insert_at_perm _ _ _)), len_cons.
Qed.

Lemma queue_admit_err q r :
  ~ Admissible q r -> exists res, queue_admit r q = (res, q) /\ queue_ok res = false.
Proof.
  intros Hna. unfold queue_admit. pose proof (admit_checks_coded q r) as Hc.
  destruct (admit_checks q r) as [[]|[code validation]] eqn:E.
  - by apply admit_checks_ok in E.
  - eexists. split; [done|]. by apply bool_decide_eq_false.
Qed.

Lemma insert_entry_ok q r :
  QueueOk q -> Admissible q r ->
  QueueOk {| q with q_entries := insert_at (entries_before (q_entries q) (entry_of r)) (entry_of r)
                                   (q_entries q) |}.
Proof.
  intros Hq Ha. eapply (entries_perm_ok _ _ (entry_of r)); [done|apply insert_at_perm| |apply Ha..].
  pose proof (lower_bound_cut _ (entry_of r) (qo_sorted _ Hq)) as Hcut.
  rewrite <- (cut_point_unique _ _ _ Hcut). apply insert_at_sorted; [apply Hq|done|].
  intros Hin. apply (ad_new _ _ Ha). by apply (list_elem_of_fmap_2 qe_job_id) in Hin.
Qed.

(** [remove] takes out the one entry of that id and nothing else. *)
Lemma queue_remove_ok q id :
  QueueOk q -> id ∈ qe_job_id <$> q_entries q ->
  exists res i e, queue_remove id q = (res, {| q with q_entries := delete i (q_entries q) |}) /\
    queue_ok res = true /\ q_entries q !! i = Some e /\ qe_job_id e = id /\
    qr_position res = Some (N.of_nat i).
Proof.
  intros Hq (e & -> & He)%list_elem_of_fmap. unfold queue_remove, job_id_valid.
  pose proof (proj1 (Forall_forall _ _) (qo_valid _ Hq) _ He) as Hid. simpl in Hid.
  destruct (N.eqb_spec (qe_job_id e) 0); simpl; [done|].
  destruct (list_find_elem_of (fun x => qe_job_id x = qe_job_id e) _ _ He eq_refl) as [[i e'] Hf].
  rewrite Hf. apply list_find_Some in Hf as (Hi & Heq & _). by eexists _, i, e'.
Qed.

Lemma queue_remove_err q id :
  id ∉ qe_job_id <$> q_entries q ->
  exists res, queue_remove id q = (res, q) /\ queue_ok res = false.
Proof.
  intros Hid. unfold queue_remove. destruct (job_id_valid id); simpl; [|by eexists].
  destruct (list_find _ _) as [[i e]|] eqn:Hf; [|by eexists].
  apply list_find_Some in Hf as (Hi & Heq & _). contradict Hid. rewrite <- Heq.
  apply (list_elem_of_fmap_2 qe_job_id). by eapply list_elem_of_lookup_2.
Qed.

Lemma delete_entry_ok q i e :
  QueueOk q -> q_entries q !! i = Some e -> QueueOk {| q with q_entries := delete i (q_entries q) |}.
Proof.
  intros [Hcap Hs Hn Hv Hb] Hi. pose proof (delete_Permutation _ _ _ Hi) as Hp.
  constructor; simpl; try done.
  - rewrite delete_take_drop. rewrite <- (take_drop_middle _ _ _ Hi) in Hs.
    apply StronglySorted_app in Hs as (Hc & Ht & Hd).
    apply StronglySorted_cons in Hd as [_ Hd]. apply StronglySorted_app_2; try done.
    intros x y Hx Hy. apply Hc; [done|by right].
  - rewrite Hp in Hn. by apply NoDup_cons in Hn as [_ ?].
  - rewrite Hp in Hv. by inv Hv.
  - rewrite (len_perm _ _ Hp), len_cons in Hb. lia.
Qed.

(** ** Restoring from a snapshot *)

Lemma queued_entries_cons r jobs :
  queued_entries (r :: jobs) =
  if bool_decide (sj_state r = kQueued) then entry_of r :: queued_entries jobs
  else queued_entries jobs.
Proof.
  unfold queued_entries. case_bool_decide;
    [by rewrite filter_cons_True|by rewrite filter_cons_False].
Qed.

Lemma restore_item_ok capacity i seen restored r out :
  restore_item capacity i (seen, restored) r = Ok out <->
  Restorable r /\ sj_id r ∉ seen /\
  (sj_state r = kQueued -> len restored < capacity) /\
  out = ({[ sj_id r ]} ∪ seen,
         restored ++ if bool_decide (sj_state r = kQueued) then [entry_of r] else []).
Proof.
  unfold restore_item, job_id_valid.
  pose proof (spec_valid_iff (sj_spec r)) as Hspec. unfold spec_valid in Hspec.
  destruct (N.eqb_spec (sj_id r) 0); simpl; [split; [done|by intros [[] _]]|].
  destruct (spec_result_ok _); simpl; [|split; [done|intros [[] _]; naive_solver]].
  assert (known_state (sj_state r) = true) as -> by by destruct (sj_state r). simpl.
  assert (forall b b' : bool, b && negb b' || negb b && b' = false <-> (b' = true <-> b = true)) as Hb
    by (intros [] []; simpl; naive_solver).
  destruct (_ || _) eqn:Hrev; [split; [done|]|].
  { intros [[_ _ Hr] _]. rewrite <- not_false_iff_true in Hrev. contradict Hrev.
    by rewrite Hb, N.eqb_eq, bool_decide_eq_true. }
  rewrite Hb, N.eqb_eq, bool_decide_eq_true in Hrev.
  assert (Restorable r) as Hr by (constructor; naive_solver).
  case_bool_decide as Hseen; [naive_solver|].
  case_bool_decide as Hq; simpl.
  - destruct (N.leb_spec capacity (len restored)) as [Hle|Hlt].
    + split; [done|]. intros (_ & _ & Hlt & _). specialize (Hlt Hq). lia.
    + split; [by intros [= <-]|]. by intros (_ & _ & _ & ->).
  - rewrite app_nil_r. split; [by intros [= <-]|]. by intros (_ & _ & _ & ->).
Qed.

Lemma restore_loop_ok capacity jobs : forall i seen restored out,
  len restored <= capacity ->
  fold_result_idx (restore_item capacity) i (seen, restored) jobs = Ok out <->
  Forall Restorable jobs /\ NoDup (sj_id <$> jobs) /\ (forall id, id ∈ sj_id <$> jobs -> id ∉ seen) /\
  len (restored ++ queued_entries jobs) <= capacity /\
  out = (list_to_set (sj_id <$> jobs) ∪ seen, restored ++ queued_entries jobs).
Proof.
  induction jobs as [|r jobs IH]; intros i seen restored out Hlen; cbn [fold_result_idx].
  { unfold queued_entries; simpl. rewrite app_nil_r, (left_id_L ∅ (∪)).
    split; [intros [= <-]; split_and!; try done; try constructor; set_solver|].
    by intros (_ & _ & _ & _ & ->). }
  rewrite queued_entries_cons.
  assert (list_to_set (sj_id <$> r :: jobs) ∪ seen =
          list_to_set (sj_id <$> jobs) ∪ ({[sj_id r]} ∪ seen)) as -> by set_solver.
  split.
  - intros (acc & Hitem & Hrest)%result_bind_ok.
    apply restore_item_ok in Hitem as (Hr & Hnew & Hspace & ->).
    apply IH in Hrest as (Hall & Hnd & Hdis & Hcap & ->).
    2: { rewrite len_app. case_bool_decide as Hq; [specialize (Hspace Hq)|]; simpl;
           rewrite ?len_cons, ?len_nil; lia. }
    split_and!.
    + by constructor.
    + constructor; [|done]. intros Hin. apply (Hdis _ Hin). set_solver.
    + intros id [->|Hin]%elem_of_cons; [done|]. intros Hs. apply (Hdis _ Hin). set_solver.
    + rewrite <- app_assoc in Hcap. by destruct (bool_decide _).
    + rewrite <- app_assoc. by destruct (bool_decide _).
  - intros (Hall & Hnd & Hdis & Hcap & ->). inv Hall. inv Hnd.
    assert (restore_item capacity i (seen, restored) r =
      Ok ({[ sj_id r ]} ∪ seen,
          restored ++ if bool_decide (sj_state r = kQueued) then [entry_of r] else [])) as ->.
    { apply restore_item_ok. split_and!; try done; [apply Hdis; left|].
      intros Hq. rewrite bool_decide_eq_true_2, len_app, len_cons in Hcap by done. lia. }
    simpl. apply IH.
    { rewrite len_app in Hcap |- *. case_bool_decide; rewrite ?len_cons, ?len_nil in *; lia. }
    split_and!; try done.
    + intros id Hin. apply not_elem_of_union. split; [set_solver|]. apply Hdis. by right.
    + rewrite <- app_assoc. by destruct (bool_decide _).
    + rewrite <- app_assoc. by destruct (bool_decide _).
Qed.

Lemma restore_loop_coded capacity jobs i acc :
  errs_sat (fun e : RestoreError => e.1.1.1 <> QE_kNone)
    (fold_result_idx (restore_item capacity) i acc jobs).
Proof.
  apply errs_sat_loop. intros j [seen restored] r. unfold restore_item.
  repeat first [walk_errs | case_match | done].
Qed.

(** The snapshots [restore] takes over. *)
Record SnapshotRestorable (capacity : N) (s : StateSnapshot) : Prop := {
  sr_revision : ss_revision s = 0 -> ss_jobs s = [] /\ ss_leases s = [];
  sr_jobs : Forall Restorable (ss_jobs s);
  sr_ids : NoDup (sj_id <$> ss_jobs s);
  sr_space : len (queued_entries (ss_jobs s)) <= capacity;
}.

Lemma restore_guard_false s :
  (ss_revision s =? 0) && ((0 <? len (ss_jobs s)) || (0 <? len (ss_leases s))) = false <->
  (ss_revision s = 0 -> ss_jobs s = [] /\ ss_leases s = []).
Proof.
  rewrite andb_false_iff, orb_false_iff, N.eqb_neq, !N.ltb_ge. split.
  - intros [?|[? ?]] Hz; [done|]. split; apply len_zero; lia.
  - destruct (decide (ss_revision s = 0)) as [H0|]; [|by left]. intros Hf.
    destruct (Hf H0) as [-> ->]. by right.
Qed.

Lemma queue_restore_ok q s :
  SnapshotRestorable (q_capacity q) s ->
  exists res, queue_restore s q =
    (res, {| q with q_entries := sort_entries (queued_entries (ss_jobs s)) |}) /\ queue_ok res = true.
Proof.
  intros [Hrev Hjobs Hids Hspace]. unfold queue_restore.
  rewrite (proj2 (restore_guard_false s) Hrev).
  assert (fold_result_idx (restore_item (q_capacity q)) 0 (∅, []) (ss_jobs s) =
    Ok (list_to_set (sj_id <$> ss_jobs s) ∪ ∅, queued_entries (ss_jobs s))) as ->; [|by eexists].
  apply restore_loop_ok; [apply N.le_0_l|]. split_and!; done.
Qed.

Lemma queue_restore_err q s :
  ~ SnapshotRestorable (q_capacity q) s ->
  exists res, queue_restore s q = (res, q) /\ queue_ok res = false.
Proof.
  intros Hn. unfold queue_restore.
  destruct (_ && _) eqn:Hg; [by eexists|]. rewrite restore_guard_false in Hg.
  pose proof (restore_loop_coded (q_capacity q) (ss_jobs s) 0 (∅, [])) as Hc.
  destruct (fold_result_idx _ _ _ _) as [out|[[[code id] ix] v]] eqn:E; simpl in Hc.
  - apply restore_loop_ok in E as (? & ? & _ & ? & _); [|apply N.le_0_l]. by contradict Hn.
  - eexists. split; [done|]. by apply bool_decide_eq_false.
Qed.

Lemma queue_restore_inv q s res q' :
  queue_restore s q = (res, q') -> queue_ok res = true ->
  SnapshotRestorable (q_capacity q) s /\
  q' = {| q with q_entries := sort_entries (queued_entries (ss_jobs s)) |}.
Proof.
  intros Hres Hok.
  assert (SnapshotRestorable (q_capacity q) s) as Hs.
  { unfold queue_restore in Hres. destruct (_ && _) eqn:Hg; [by simplify_eq|].
    rewrite restore_guard_false in Hg.
    pose proof (restore_loop_coded (q_capacity q) (ss_jobs s) 0 (∅, [])) as Hc.
    destruct (fold_result_idx _ _ _ _) as [[seen restored]|[[[? ?] ?] ?]] eqn:E.
    - by apply restore_loop_ok in E as (? & ? & _ & ? & _); [|apply N.le_0_l].
    - simplify_eq. by apply bool_decide_eq_true in Hok. }
  split; [done|]. destruct (queue_restore_ok q s Hs) as (res' & Heq & _). congruence.
Qed.

(** Distinct ids make the sorted entries strictly increasing. *)
Lemma sort_entries_sorted l :
  NoDup (qe_job_id <$> l) -> StronglySorted entry_lt (sort_entries l).
Proof.
  intros Hnd.
  assert (NoDup (qe_job_id <$> sort_entries l)) as Hnd'
    by (unfold sort_entries; by rewrite merge_sort_Permutation).
  assert (StronglySorted entry_le (sort_entries l)) as Hs by (apply StronglySorted_merge_sort; apply _).
  induction Hs as [|e l' Hs IH Hall]; [constructor|]. simpl in Hnd'. inv Hnd'.
  constructor; [by apply IH|]. rewrite Forall_forall in Hall |- *. intros y Hy.
  destruct (proj1 (entry_le_spec e y) (Hall _ Hy)) as [?| <-]; [done|].
  by apply (list_elem_of_fmap_2 qe_job_id) in Hy.
Qed.

Lemma queued_entries_ids jobs :
  qe_job_id <$> queued_entries jobs = sj_id <$> filter (fun r => sj_state r = kQueued) jobs.
Proof. unfold queued_entries. by rewrite <- list_fmap_compose. Qed.

Lemma NoDup_fmap_filter {A B} (f : A -> B) (P : A -> Prop) `{forall x, Decision (P x)} (l : list A) :
  NoDup (f <$> l) -> NoDup (f <$> filter P l).
Proof.
  induction l as [|x l IH]; [done|]. intros [Hx Hl]%NoDup_cons.
  rewrite filter_cons. destruct (decide (P x)); [|by apply IH]. simpl.
  constructor; [|by apply IH]. intros (y & Heq & Hy)%list_elem_of_fmap.
  apply list_elem_of_filter in Hy as [_ Hy]. apply Hx. rewrite Heq.
  by apply list_elem_of_fmap_2.
Qed.

Lemma restored_entries_ok q s :
  QueueOk q -> SnapshotRestorable (q_capacity q) s ->
  QueueOk {| q with q_entries := sort_entries (queued_entries (ss_jobs s)) |}.
Proof.
  intros Hq [_ Hjobs Hids Hspace].
  assert (sort_entries (queued_entries (ss_jobs s)) ≡ₚ queued_entries (ss_jobs s)) as Hp
    by apply merge_sort_Permutation.
  assert (NoDup (qe_job_id <$> queued_entries (ss_jobs s))) as Hnd
    by (rewrite queued_entries_ids; by apply NoDup_fmap_filter).
  constructor; simpl.
  - apply Hq.
  - by apply sort_entries_sorted.
  - by rewrite Hp.
  - rewrite Hp. unfold queued_entries. apply Forall_fmap, Forall_forall.
    intros r [_ Hr]%list_elem_of_filter. by apply (proj1 (Forall_forall _ _) Hjobs).
  - by rewrite (len_perm _ _ Hp).
Qed.

(** One call keeps the invariant and the capacity. *)
Lemma queue_call_ok op q res q' :
  QueueOk q -> queue_call op q = (res, q') -> QueueOk q' /\ q_capacity q' = q_capacity q.
Proof.
  intros Hq Hcall. destruct op as [r|id|s]; simpl in Hcall.
  - destruct (admit_checks q r) eqn:E.
    + destruct a. apply admit_checks_ok in E.
      destruct (queue_admit_ok q r Hq E) as (res' & Heq & _). rewrite Heq in Hcall. simplify_eq.
      split; [by apply insert_entry_ok|done].
    + destruct (queue_admit_err q r) as (res' & Heq & _).
      { intros Ha%admit_checks_ok. congruence. } rewrite Heq in Hcall. by simplify_eq.
  - destruct (decide (id ∈ qe_job_id <$> q_entries q)) as [Hin|Hin].
    + destruct (queue_remove_ok q id Hq Hin) as (res' & i & e & Heq & _ & Hi & _).
      rewrite Heq in Hcall. simplify_eq. split; [by eapply delete_entry_ok|done].
    + destruct (queue_remove_err q id Hin) as (res' & Heq & _). rewrite Heq in Hcall. by simplify_eq.
  - unfold queue_restore in Hcall. destruct (_ && _) eqn:Hg; [by simplify_eq|].
    destruct (fold_result_idx _ _ _ _) as [[seen restored]|[[[? ?] ?] ?]] eqn:E; [|by simplify_eq].
    simplify_eq. rewrite restore_guard_false in Hg.
    apply restore_loop_ok in E as (? & ? & _ & ? & [= _ ->]); [|apply N.le_0_l].
    split; [by apply restored_entries_ok|done].
Qed.

Lemma queue_create_ok capacity q : queue_create capacity = (QE_kNone, Some q) -> QueueOk q.
Proof.
  unfold queue_create. destruct (_ || _) eqn:E; [done|]. intros [= <-]. reflect_bools.
  constructor; simpl; try constructor; try lia. apply N.le_0_l.
Qed.

(** Taking an entry out and putting the same job back is the identity. *)
Lemma remove_admit_entries q q' i e r :
  QueueOk q -> q_entries q !! i = Some e -> entry_of r = e ->
  q' = {| q with q_entries := delete i (q_entries q) |} ->
  SpecOk (sj_spec r) -> sj_state r = kQueued -> sj_revision r = 0 ->
  exists res, queue_admit r q' = (res, q) /\ queue_ok res = true.
Proof.
  intros Hq Hi Hr -> Hspec Hst Hrev.
  pose proof (delete_entry_ok _ _ _ Hq Hi) as Hq'.
  pose proof (delete_Permutation _ _ _ Hi) as Hp.
  assert (Admissible {| q with q_entries := delete i (q_entries q) |} r) as Ha.
  { pose proof (qo_ids _ Hq) as Hn. rewrite Hp in Hn. apply NoDup_cons in Hn as [Hn _].
    pose proof (qo_valid _ Hq) as Hv. rewrite Hp in Hv. inv Hv.
    pose proof (qo_bounded _ Hq) as Hb. rewrite (len_perm _ _ Hp), len_cons in Hb.
    constructor; simpl; try done. lia. }
  destruct (queue_admit_ok _ _ Hq' Ha) as (res & Heq & Hok & _). exists res. split; [|done].
  rewrite Heq. f_equal. destruct q as [cap entries]. simpl in *. f_equal.
  apply (StronglySorted_unique entry_lt); [|apply Hq|].
  - apply (insert_entry_ok _ _ Hq' Ha).
  - rewrite insert_at_perm, Hr. by symmetry.
Qed.

(** ** Properties of the queue *)

(** The halving search of [std::lower_bound] finds the FIFO position: on a
    sorted queue it returns the number of entries that go before the value,
    for every length (the iteration bound is never what stops it). *)
Theorem lower_bound_position l value :
  StronglySorted entry_lt l -> lower_bound l value = entries_before l value.
Proof. intros Hs. by apply cut_point_unique, lower_bound_cut. Qed.

(** C31. Over any session of [admit], [remove] and [restore] calls on a created
    queue, accepted or rejected, the queue stays strictly ordered by
    (submit time, job id) without duplicate jobs and within its capacity, and
    [front] is the job every other one has to wait behind. *)
Theorem queue_session_ok capacity q0 ops q :
  queue_create capacity = (QE_kNone, Some q0) -> queue_calls q0 ops q ->
  QueueOk q /\ q_capacity q = capacity /\
  (forall e, queue_front q = Some e -> Forall (fun e' => e' = e \/ entry_lt e e') (q_entries q)).
Proof.
  intros Hc Hcalls.
  assert (QueueOk q /\ q_capacity q = q_capacity q0) as [Hq Hcap].
  { apply queue_create_ok in Hc. clear -Hc Hcalls. induction Hcalls as [|q op res q1 ops q2 Hcall _ IH];
      [done|]. destruct (queue_call_ok _ _ _ _ Hc Hcall) as [Hq1 Hcap].
    destruct (IH Hq1) as [? ->]. done. }
  split_and!; [done| |].
  - rewrite Hcap. unfold queue_create in Hc. destruct (_ || _); [done|]. by simplify_eq.
  - intros e He. unfold queue_front in He. pose proof (qo_sorted _ Hq) as Hs.
    destruct (q_entries q) as [|e0 l]; [done|]. simplify_eq/=.
    apply StronglySorted_cons in Hs as [Hall _]. constructor; [by left|].
    eapply Forall_impl; [exact Hall|]. intros e'. by right.
Qed.

(** [admit] accepts exactly the valid, QUEUED, never-updated jobs that are
    not in the queue while there is room; it then inserts the job at its FIFO
    position, which it reports, and otherwise leaves the queue as it was. *)
Theorem queue_admit_spec q r res q' :
  QueueOk q -> queue_admit r q = (res, q') ->
  (queue_ok res = true <-> Admissible q r) /\
  (if queue_ok res
   then q_entries q' ≡ₚ entry_of r :: q_entries q /\ StronglySorted entry_lt (q_entries q') /\
        qr_position res = Some (N.of_nat (entries_before (q_entries q) (entry_of r))) /\
        qv_size_after (qr_event res) = len (q_entries q) + 1
   else q' = q).
Proof.
  intros Hq Hadmit. destruct (admit_checks q r) eqn:E.
  - destruct a. apply admit_checks_ok in E.
    destruct (queue_admit_ok q r Hq E) as (res' & Heq & Hok & Hpos & Hsize).
    rewrite Heq in Hadmit. simplify_eq.
    rewrite Hok. split; [done|]. split_and!; [apply insert_at_perm| |done|done].
    apply (insert_entry_ok _ _ Hq E).
  - assert (~ Admissible q r) as Hna by (intros Ha%admit_checks_ok; congruence).
    destruct (queue_admit_err q r Hna) as (res' & Heq & Hok). rewrite Heq in Hadmit. simplify_eq.
    by rewrite Hok.
Qed.

(** Rolling back a removal is exact: removing a queued job and admitting its
    record again gives back the very same queue, order included, and the
    re-admission cannot be refused. *)
Theorem remove_admit_rollback q r res q' :
  QueueOk q -> entry_of r ∈ q_entries q ->
  SpecOk (sj_spec r) -> sj_state r = kQueued -> sj_revision r = 0 ->
  queue_remove (sj_id r) q = (res, q') ->
  queue_ok res = true /\ ~ sj_id r ∈ qe_job_id <$> q_entries q' /\
  exists res', queue_admit r q' = (res', q) /\ queue_ok res' = true.
Proof.
  intros Hq Hin Hspec Hst Hrev Hrem.
  pose proof (list_elem_of_fmap_2 qe_job_id _ _ Hin) as Hid.
  destruct (queue_remove_ok q (sj_id r) Hq Hid) as (res1 & i & e & Heq & Hok & Hi & He & _).
  rewrite Hrem in Heq. simplify_eq.
  assert (entry_of r = e) as Hre.
  { apply list_elem_of_lookup in Hin as (j & Hj). pose proof (qo_ids _ Hq) as Hn.
    assert (j = i) as ->; [|congruence].
    eapply (NoDup_lookup _ _ _ (sj_id r) Hn); rewrite list_lookup_fmap, ?Hj, ?Hi; simpl; congruence. }
  split_and!; [done| |by eapply remove_admit_entries].
  pose proof (qo_ids _ Hq) as Hn. rewrite (delete_Permutation _ _ _ Hi) in Hn.
  apply NoDup_cons in Hn as [Hn _]. simpl. by rewrite <- He.
Qed.

(** [restore] rebuilds the queue from a snapshot all or nothing: it succeeds
    exactly on consistent snapshots whose QUEUED jobs fit, the queue then holds
    those jobs in FIFO order and no others, and a rejected snapshot leaves the
    old queue in place. *)
Theorem queue_restore_spec q s res q' :
  QueueOk q -> queue_restore s q = (res, q') ->
  (queue_ok res = true <-> SnapshotRestorable (q_capacity q) s) /\
  (if queue_ok res
   then q_entries q' ≡ₚ queued_entries (ss_jobs s) /\ QueueOk q'
   else q' = q).
Proof.
  intros Hq Hres.
  destruct (queue_ok res) eqn:Hok.
  - destruct (queue_restore_inv _ _ _ _ Hres Hok) as [Hs ->].
    split; [done|]. split; [apply merge_sort_Permutation|by apply restored_entries_ok].
  - assert (~ SnapshotRestorable (q_capacity q) s) as Hn.
    { intros Hs. destruct (queue_restore_ok q s Hs) as (res' & Heq & ?). congruence. }
    destruct (queue_restore_err q s Hn) as (res' & Heq & _). rewrite Heq in Hres. simplify_eq.
    done.
Qed.

(** ** Witnesses *)

Definition example_record (id : JobId) (t : Z) : StoredJob :=
  mkStored id {| example_spec with submit_time := t |} kQueued 0 empty_execution.

Definition example_queue : GlobalJobQueue := mkQueue 4 [mkEntry 9 5; mkEntry 2 7; mkEntry 3 7].

Lemma example_spec_at t : (0 < t)%Z -> SpecOk {| example_spec with submit_time := t |}.
Proof.
  intros Ht. assert (SpecOk example_spec) as [] by (apply spec_valid_iff; vm_compute; reflexivity).
  by constructor.
Qed.

Lemma example_queue_ok : QueueOk example_queue.
Proof.
  constructor.
  - simpl. unfold kMaxCapacity. lia.
  - repeat constructor.
  - simpl. repeat (apply NoDup_cons; split; [set_solver|]). apply NoDup_nil_2.
  - repeat constructor; simpl; lia.
  - vm_compute. discriminate.
Qed.

Lemma lower_bound_position_witness :
  lower_bound (q_entries example_queue) (mkEntry 1 7) = 1%nat.
Proof.
  transitivity (entries_before (q_entries example_queue) (mkEntry 1 7)).
  - apply (lower_bound_position (q_entries example_queue) (mkEntry 1 7)). repeat constructor.
  - vm_compute. reflexivity.
Defined.

Lemma queue_session_ok_witness :
  QueueOk (mkQueue 2 [mkEntry 9 5; mkEntry 3 7]).
Proof.
  refine (proj1 (queue_session_ok 2 (mkQueue 2 [])
    [QO_admit (example_record 3 7); QO_admit (example_record 9 5); QO_admit (example_record 4 6);
     QO_remove 8] _ _ _)).
  - vm_compute. reflexivity.
  - repeat (eapply queue_calls_cons; [vm_compute; reflexivity|]). apply queue_calls_nil.
Defined.

Lemma queue_admit_spec_witness :
  let q' := (queue_admit (example_record 1 7) example_queue).2 in
  StronglySorted entry_lt (q_entries q').
Proof.
  intros q'.
  destruct (queue_admit_spec example_queue (example_record 1 7)
              (queue_admit (example_record 1 7) example_queue).1 q') as [_ Hif].
  - apply example_queue_ok.
  - apply surjective_pairing.
  - exact (proj1 (proj2 Hif)).
Defined.

Lemma remove_admit_rollback_witness :
  let q' := (queue_remove 2 example_queue).2 in
  exists res', queue_admit (example_record 2 7) q' = (res', example_queue) /\ queue_ok res' = true.
Proof.
  intros q'.
  refine (proj2 (proj2 (remove_admit_rollback example_queue (example_record 2 7)
    (queue_remove 2 example_queue).1 q' _ _ _ _ _ _))).
  - apply example_queue_ok.
  - right. left.
  - apply example_spec_at. lia.
  - reflexivity.
  - reflexivity.
  - apply surjective_pairing.
Defined.

Lemma queue_restore_spec_witness :
  let s := mkSnapshot 1 [example_record 3 7; example_record 9 5] [] in
  q_entries (queue_restore s example_queue).2 ≡ₚ [mkEntry 3 7; mkEntry 9 5].
Proof.
  intros s.
  destruct (queue_restore_spec example_queue s (queue_restore s example_queue).1
              (queue_restore s example_queue).2) as [_ Hif].
  - apply example_queue_ok.
  - apply surjective_pairing.
  - exact (proj1 Hif).
Defined.
