(* ===== verification/Scheduler.v ===== *)
(** * The FIFO scheduler: [include/yori/scheduler/scheduler.hpp],
    [src/scheduler/scheduler.cpp]

    [run_once] reconciles the derived queue with the stored jobs, scans a
    bounded window from the head of the queue, picks a GPU for the first job it
    can place and commits STARTING plus the lease in one mutation, rolling the
    queue back when the store refuses.  It is written against the [StateStore]
    interface; the theorems use only [StateStoreLaws]. *)

From S2P Require Import Prelude.
From S2P Require Import Job.
From S2P Require Import Gpu.
From S2P Require Import Store.
From S2P Require Import Queue.

(** ** Data *)

Inductive SchedulerTrigger :=
| ST_kJobSubmitted | ST_kJobExited | ST_kJobCancelled
| ST_kGpuStateChanged | ST_kRecoveryCompleted | ST_kAdminStateChanged.

Definition kDefaultScanWindow : N := 32.
Definition kMaxScanWindow : N := kMaxCapacity.

(** [SchedulerConfig::valid] *)
Definition scan_window_valid (scan_window : N) : bool :=
  (1 <=? scan_window) && (scan_window <=? kMaxScanWindow).

Inductive WaitReason :=
| WR_kNone | WR_kNoFreeGpu | WR_kAffinityGpuAllocated | WR_kAffinityGpuExternal | WR_kAffinityGpuState.

#[export] Instance WaitReason_eq_dec : EqDecision WaitReason.
Proof. solve_decision. Defined.

Inductive GpuSelectionReason :=
| GS_kDefault | GS_kAvoidRequiredAffinity | GS_kAffinityFallback | GS_kPreferredFallback.

#[export] Instance GpuSelectionReason_eq_dec : EqDecision GpuSelectionReason.
Proof. solve_decision. Defined.

Record ScheduleSkip := mkSkip {
  sk_job : JobId;
  sk_reason : WaitReason;
  sk_target : option GpuUuid;
}.

Record ScheduleEvaluation := mkEvaluation {
  ev_skipped : list ScheduleSkip;
  ev_window_truncated : bool;
}.

Definition empty_evaluation : ScheduleEvaluation := mkEvaluation [] false.

Inductive ScheduleResultCode :=
| SR_kScheduled
| SR_kQueueEmpty
| SR_kNoCandidate
| SR_kCancelled
| SR_kInvalidGpuSnapshot
| SR_kStateLoadFailed
| SR_kQueueStateDiverged
| SR_kStateWriteFailed
| SR_kQueueRollbackFailed.

#[export] Instance ScheduleResultCode_eq_dec : EqDecision ScheduleResultCode.
Proof. solve_decision. Defined.

Record SchedulerEvent := mkSchedulerEvent {
  se_trigger : SchedulerTrigger;
  se_code : ScheduleResultCode;
  se_job_id : option JobId;
  se_gpu_uuid : option GpuUuid;
  se_selection_reason : GpuSelectionReason;
  se_gpu_validation : GpuObservationValidationResult;
  se_store_error : StateStoreErrorCode;
  se_queue_error : QueueErrorCode;
  se_store_revision : N;
}.

Record ScheduleResult := mkScheduleResult {
  sr_code : ScheduleResultCode;
  sr_event : SchedulerEvent;
  sr_evaluation : ScheduleEvaluation;
}.

(** [ScheduleResult::scheduled] and [ScheduleResult::failed] *)
Definition schedule_scheduled (r : ScheduleResult) : bool := bool_decide (sr_code r = SR_kScheduled).

Definition schedule_failed (r : ScheduleResult) : bool :=
  match sr_code r with
  | SR_kInvalidGpuSnapshot | SR_kStateLoadFailed | SR_kQueueStateDiverged
  | SR_kStateWriteFailed | SR_kQueueRollbackFailed => true
  | _ => false
  end.

(** The helper [result(...)] of the anonymous namespace. *)
Definition schedule_result (trigger : SchedulerTrigger) (code : ScheduleResultCode)
    (job_id : option JobId) (gpu_uuid : option GpuUuid)
    (gpu_validation : GpuObservationValidationResult) (store_error : StateStoreErrorCode)
    (queue_error : QueueErrorCode) (store_revision : N) (evaluation : ScheduleEvaluation)
    (selection_reason : GpuSelectionReason) : ScheduleResult :=
  mkScheduleResult code
    (mkSchedulerEvent trigger code job_id gpu_uuid selection_reason gpu_validation store_error
       queue_error store_revision)
    evaluation.

(** ** Device selection *)

Definition leased (snapshot : StateSnapshot) (uuid : GpuUuid) : bool :=
  existsb (fun l => bool_decide (lease_gpu_uuid l = uuid)) (ss_leases snapshot).

(** [queued_records.at(id)]: [None] is [std::out_of_range]. *)
Definition at_record (records : gmap JobId StoredJob) (id : JobId) : option StoredJob := records !! id.

(** One iteration of [collect_affinity_targets]. *)
Definition affinity_targets_of (targets : gset GpuUuid) (record : StoredJob) : gset GpuUuid :=
  match gp_mode (gpu_placement (sj_spec record)) with
  | GPM_kRequired =>
      fold_left (fun t d => {[ d ]} ∪ t) (gp_devices (gpu_placement (sj_spec record))) targets
  | _ => targets
  end.

(** [collect_affinity_targets] over the entries of the window; [None] is the
    exception of [at]. *)
Fixpoint collect_affinity_targets (window : list QueueEntry) (records : gmap JobId StoredJob)
    (targets : gset GpuUuid) : option (gset GpuUuid) :=
  match window with
  | [] => Some targets
  | e :: rest =>
      match at_record records (qe_job_id e) with
      | None => None
      | Some record => collect_affinity_targets rest records (affinity_targets_of targets record)
      end
  end.

(** A [const GpuObservation*] into the snapshot: position and pointee. *)
Definition DevicePtr : Type := nat * GpuObservation.

Definition ptr_index (p : DevicePtr) : N := go_index p.2.

Definition device_ptrs (snapshot : GpuObservationSnapshot) : list DevicePtr :=
  imap pair (gs_devices snapshot).

(** FREE and without a lease: the candidate test of the selection loops. *)
Definition candidate (state : StateSnapshot) (d : GpuObservation) : bool :=
  bool_decide (go_state d = GO_kFree) && negb (leased state (go_uuid d)).

(** One iteration of [select_any_gpu] over [(preferred, fallback)]. *)
Definition select_any_step (state : StateSnapshot) (targets : gset GpuUuid)
    (best : option DevicePtr * option DevicePtr) (p : DevicePtr)
  : option DevicePtr * option DevicePtr :=
  let '(preferred, fallback) := best in
  if negb (candidate state p.2) then (preferred, fallback)
  else
    (if bool_decide (go_uuid p.2 ∈ targets) then preferred else min_update ptr_index preferred p,
     min_update ptr_index fallback p).

(** [select_any_gpu]: the chosen device and the selection reason. *)
Definition select_any_gpu (gpus : GpuObservationSnapshot) (state : StateSnapshot)
    (targets : gset GpuUuid) : option GpuObservation * GpuSelectionReason :=
  let '(preferred, fallback) :=
    fold_left (select_any_step state targets) (device_ptrs gpus) (None, None) in
  match preferred with
  | Some p =>
      (Some p.2,
       if bool_decide (fst <$> fallback = Some p.1) then GS_kDefault else GS_kAvoidRequiredAffinity)
  | None =>
      match fallback with
      | Some f => (Some f.2, GS_kAffinityFallback)
      | None => (None, GS_kDefault)
      end
  end.

Definition find_device (gpus : GpuObservationSnapshot) (uuid : GpuUuid) : option GpuObservation :=
  find_first (fun d => bool_decide (go_uuid d = uuid)) (gs_devices gpus).

(** One iteration of [select_required_gpu]. *)
Definition select_required_step (gpus : GpuObservationSnapshot) (state : StateSnapshot)
    (selected : option GpuObservation) (uuid : GpuUuid) : option GpuObservation :=
  match find_device gpus uuid with
  | None => selected
  | Some observation =>
      if negb (bool_decide (go_state observation = GO_kFree)) || leased state uuid then selected
      else min_update go_index selected observation
  end.

Definition select_required_gpu (gpus : GpuObservationSnapshot) (state : StateSnapshot)
    (devices : list GpuUuid) : option GpuObservation :=
  fold_left (select_required_step gpus state) devices None.

(** One iteration of [required_wait_reason] over
    [(any_leased, any_external, representative)]. *)
Definition wait_reason_step (gpus : GpuObservationSnapshot) (state : StateSnapshot)
    (acc : bool * bool * option GpuObservation) (uuid : GpuUuid)
  : bool * bool * option GpuObservation :=
  let '(any_leased, any_external, representative) := acc in
  let any_leased := if leased state uuid then true else any_leased in
  match find_device gpus uuid with
  | None => (any_leased, any_external, representative)
  | Some observation =>
      (any_leased,
       if bool_decide (go_state observation = GO_kExternalBusy) then true else any_external,
       min_update go_index representative observation)
  end.

(** [required_wait_reason]: the reason and the reported target. *)
Definition required_wait_reason (gpus : GpuObservationSnapshot) (state : StateSnapshot)
    (devices : list GpuUuid) : WaitReason * option GpuUuid :=
  let '(any_leased, any_external, representative) :=
    fold_left (wait_reason_step gpus state) devices (false, false, None) in
  (if any_leased : bool then WR_kAffinityGpuAllocated
   else if any_external : bool then WR_kAffinityGpuExternal
   else WR_kAffinityGpuState,
   go_uuid <$> representative).

(** ** [FifoScheduler::run_once] *)

(** [queued_records]: the QUEUED records of the snapshot by id. *)
Definition queued_record_step (records : gmap JobId StoredJob) (record : StoredJob)
  : gmap JobId StoredJob :=
  if bool_decide (sj_state record = kQueued) then emplace (sj_id record) record records else records.

Definition queued_records_of (jobs : list StoredJob) : gmap JobId StoredJob :=
  fold_left queued_record_step jobs ∅.

(** The loop that finds the earliest QUEUED record the queue does not hold. *)
Definition earliest_missing_step (q : GlobalJobQueue) (earliest : option StoredJob)
    (record : StoredJob) : option StoredJob :=
  if negb (queue_contains q (sj_id record))
     && match earliest with
        | None => true
        | Some e =>
            (submit_time (sj_spec record) <? submit_time (sj_spec e))%Z
            || (submit_time (sj_spec record) =? submit_time (sj_spec e))%Z && (sj_id record <? sj_id e)
        end
  then Some record else earliest.

Definition earliest_missing (q : GlobalJobQueue) (records : gmap JobId StoredJob) : option StoredJob :=
  fold_left (earliest_missing_step q) (map_values records) None.

(** The field checks of one queue entry against the store; an error is the job
    and the queue error code of a [kQueueStateDiverged] result. *)
Definition check_entry (window : N) (records : gmap JobId StoredJob) (index : N) (u : unit)
    (entry : QueueEntry) : Result (JobId * QueueErrorCode) unit :=
  match records !! qe_job_id entry with
  | None => Err (qe_job_id entry, QE_kJobNotFound)
  | Some record =>
      if index <? window then
        reject_if negb (submit_time (sj_spec record) =? qe_submit_time entry)%Z
          with (qe_job_id entry, QE_kInvalidJobSpec);
        reject_if negb (sj_revision record =? 0) with (qe_job_id entry, QE_kInvalidJobRevision);
        Ok tt
      else Ok tt
  end.

(** The PREFERRED branch: the target if it is a candidate, else the ANY choice. *)
Definition select_preferred (gpus : GpuObservationSnapshot) (state : StateSnapshot)
    (any : option GpuObservation) (target : GpuUuid) : option GpuObservation * GpuSelectionReason :=
  let fallback := match any with
                  | Some d => (Some d, GS_kPreferredFallback)
                  | None => (None, GS_kDefault)
                  end in
  match find_device gpus target with
  | Some observation =>
      if bool_decide (go_state observation = GO_kFree) && negb (leased state target)
      then (Some observation, GS_kDefault)
      else fallback
  | None => fallback
  end.

(** The device choice for one job; [None] is the undefined [devices.front()] of
    an empty list. *)
Definition select_for (gpus : GpuObservationSnapshot) (state : StateSnapshot)
    (any : option GpuObservation * GpuSelectionReason) (record : StoredJob)
  : option (option GpuObservation * GpuSelectionReason) :=
  let placement := gpu_placement (sj_spec record) in
  match gp_mode placement with
  | GPM_kRequired => Some (select_required_gpu gpus state (gp_devices placement), GS_kDefault)
  | GPM_kPreferred =>
      match gp_devices placement with
      | [] => None
      | target :: _ => Some (select_preferred gpus state any.1 target)
      end
  | GPM_kAny => Some any
  end.

(** The skip event recorded for a job without a device. *)
Definition skip_of (gpus : GpuObservationSnapshot) (state : StateSnapshot) (entry : QueueEntry)
    (record : StoredJob) : ScheduleSkip :=
  let placement := gpu_placement (sj_spec record) in
  match gp_mode placement with
  | GPM_kRequired =>
      let '(reason, target) := required_wait_reason gpus state (gp_devices placement) in
      mkSkip (qe_job_id entry) reason target
  | _ => mkSkip (qe_job_id entry) WR_kNoFreeGpu None
  end.

(** How the scan of the window ends. *)
Inductive Scan :=
| ScanThrow
| ScanNone (skipped : list ScheduleSkip)
| ScanFound (record : StoredJob) (selected : GpuObservation) (reason : GpuSelectionReason)
    (skipped : list ScheduleSkip).

Fixpoint scan_window (gpus : GpuObservationSnapshot) (state : StateSnapshot)
    (any : option GpuObservation * GpuSelectionReason) (records : gmap JobId StoredJob)
    (window : list QueueEntry) (skipped : list ScheduleSkip) : Scan :=
  match window with
  | [] => ScanNone skipped
  | entry :: rest =>
      match at_record records (qe_job_id entry) with
      | None => ScanThrow
      | Some record =>
          match select_for gpus state any record with
          | None => ScanThrow
          | Some (Some selected, reason) => ScanFound record selected reason skipped
          | Some (None, _) =>
              scan_window gpus state any records rest
                (skipped ++ [skip_of gpus state entry record])
          end
      end
  end.

(** [starting] *)
Definition starting_record (record : StoredJob) : StoredJob :=
  {| record with sj_state := kStarting; sj_revision := uadd64 (sj_revision record) 1 |}.

Definition schedule_mutation (revision : N) (record : StoredJob) (selected : GpuObservation)
  : StateMutation :=
  mkMutation revision [] [starting_record record] [mkLease (go_uuid selected) (sj_id record)] [].

Section run_once.
Context {S : Type} `{StateStore S}.

(** The commit of a found placement: queue removal, store write, rollback. *)
Definition commit_placement (trigger : SchedulerTrigger) (revision : N) (record : StoredJob)
    (selected : GpuObservation) (reason : GpuSelectionReason) (evaluation : ScheduleEvaluation)
    (q : GlobalJobQueue) (s : S) : ScheduleResult * GlobalJobQueue * S :=
  let id := Some (sj_id record) in
  let uuid := Some (go_uuid selected) in
  let '(removal, q1) := queue_remove (sj_id record) q in
  if negb (queue_ok removal) then
    (schedule_result trigger SR_kQueueStateDiverged id uuid gpu_ok_result SE_kNone (qr_code removal)
       revision empty_evaluation GS_kDefault, q1, s)
  else
    let '(written, s1) := store_apply (schedule_mutation revision record selected) s in
    if negb (write_ok written) then
      let '(rollback, q2) := queue_admit record q1 in
      if negb (queue_ok rollback) then
        (schedule_result trigger SR_kQueueRollbackFailed id uuid gpu_ok_result (wr_code written)
           (qr_code rollback) (wr_revision written) empty_evaluation GS_kDefault, q2, s1)
      else
        (schedule_result trigger SR_kStateWriteFailed id uuid gpu_ok_result (wr_code written)
           QE_kNone (wr_revision written) empty_evaluation GS_kDefault, q2, s1)
    else
      (schedule_result trigger SR_kScheduled id uuid gpu_ok_result SE_kNone QE_kNone
         (wr_revision written) evaluation reason, q1, s1).

(** [FifoScheduler::run_once] on the queue and the store it references; the
    result is [None] when the call ends in an exception or undefined
    behaviour. *)
Definition run_once (scan_window_size : N) (trigger : SchedulerTrigger)
    (gpus : GpuObservationSnapshot) (q : GlobalJobQueue) (s : S)
  : option ScheduleResult * GlobalJobQueue * S :=
  let gpu_validation := gpu_validate gpus in
  if negb (gpu_result_ok gpu_validation) then
    (Some (schedule_result trigger SR_kInvalidGpuSnapshot None None gpu_validation SE_kNone QE_kNone 0
             empty_evaluation GS_kDefault), q, s)
  else
    let front := queue_front q in
    let loaded := store_load s in
    if negb (load_ok loaded) then
      (Some (schedule_result trigger SR_kStateLoadFailed (qe_job_id <$> front) None gpu_ok_result
               (lr_code loaded) QE_kNone 0 empty_evaluation GS_kDefault), q, s)
    else
      let snapshot := lr_snapshot loaded in
      let revision := ss_revision snapshot in
      let diverged id code :=
        (Some (schedule_result trigger SR_kQueueStateDiverged id None gpu_ok_result SE_kNone code
                 revision empty_evaluation GS_kDefault), q, s) in
      let records := queued_records_of (ss_jobs snapshot) in
      if negb (msize records =? len (q_entries q)) then
        diverged (match earliest_missing q records with
                  | Some record => Some (sj_id record)
                  | None => qe_job_id <$> front
                  end) QE_kJobNotFound
      else
        let window := N.min scan_window_size (len (q_entries q)) in
        match fold_result_idx (check_entry window records) 0 tt (q_entries q) with
        | Err (id, code) => diverged (Some id) code
        | Ok _ =>
            if len (q_entries q) =? 0 then
              (Some (schedule_result trigger SR_kQueueEmpty None None gpu_ok_result SE_kNone QE_kNone
                       revision empty_evaluation GS_kDefault), q, s)
            else
              let truncated := window <? len (q_entries q) in
              let scanned := take (N.to_nat window) (q_entries q) in
              match collect_affinity_targets scanned records ∅ with
              | None => (None, q, s)
              | Some targets =>
                  let any := select_any_gpu gpus snapshot targets in
                  match scan_window gpus snapshot any records scanned [] with
                  | ScanThrow => (None, q, s)
                  | ScanNone skipped =>
                      (Some (schedule_result trigger SR_kNoCandidate None None gpu_ok_result SE_kNone
                               QE_kNone revision (mkEvaluation skipped truncated) GS_kDefault), q, s)
                  | ScanFound record selected reason skipped =>
                      let '(r, q', s') :=
                        commit_placement trigger revision record selected reason
                          (mkEvaluation skipped truncated) q s in
                      (Some r, q', s')
                  end
              end
        end.
End run_once.

(** [FifoScheduler::cancelled] *)
Definition schedule_cancelled (trigger : SchedulerTrigger) : ScheduleResult :=
  schedule_result trigger SR_kCancelled None None gpu_ok_result SE_kNone QE_kNone 0 empty_evaluation
    GS_kDefault.

(** [to_string] of the scheduler's enumerations *)
Definition SchedulerTrigger_to_string (trigger : SchedulerTrigger) : string :=
  match trigger with
  | ST_kJobSubmitted => "JOB_SUBMITTED"
  | ST_kJobExited => "JOB_EXITED"
  | ST_kJobCancelled => "JOB_CANCELLED"
  | ST_kGpuStateChanged => "GPU_STATE_CHANGED"
  | ST_kRecoveryCompleted => "RECOVERY_COMPLETED"
  | ST_kAdminStateChanged => "ADMIN_STATE_CHANGED"
  end.

Definition WaitReason_to_string (reason : WaitReason) : string :=
  match reason with
  | WR_kNone => "NONE"
  | WR_kNoFreeGpu => "NO_FREE_GPU"
  | WR_kAffinityGpuAllocated => "AFFINITY_GPU_ALLOCATED"
  | WR_kAffinityGpuExternal => "AFFINITY_GPU_EXTERNAL"
  | WR_kAffinityGpuState => "AFFINITY_GPU_STATE"
  end.

Definition GpuSelectionReason_to_string (reason : GpuSelectionReason) : string :=
  match reason with
  | GS_kDefault => "DEFAULT"
  | GS_kAvoidRequiredAffinity => "AVOID_REQUIRED_AFFINITY"
  | GS_kAffinityFallback => "AFFINITY_FALLBACK"
  | GS_kPreferredFallback => "PREFERRED_FALLBACK"
  end.

Definition ScheduleResultCode_to_string (code : ScheduleResultCode) : string :=
  match code with
  | SR_kScheduled => "SCHEDULED"
  | SR_kQueueEmpty => "QUEUE_EMPTY"
  | SR_kNoCandidate => "NO_CANDIDATE"
  | SR_kCancelled => "CANCELLED"
  | SR_kInvalidGpuSnapshot => "INVALID_GPU_SNAPSHOT"
  | SR_kStateLoadFailed => "STATE_LOAD_FAILED"
  | SR_kQueueStateDiverged => "QUEUE_STATE_DIVERGED"
  | SR_kStateWriteFailed => "STATE_WRITE_FAILED"
  | SR_kQueueRollbackFailed => "QUEUE_ROLLBACK_FAILED"
  end.

(** ** Specification *)

(** A device a job may start on: observed FREE and without a lease. *)
Definition gpu_usable (st : StoreState) (gpus : GpuObservationSnapshot) (d : GpuObservation) : Prop :=
  d ∈ gs_devices gpus /\ go_state d = GO_kFree /\ st_leases st !! go_uuid d = None.

(** REQUIRED placements confine a job to its device set. *)
Definition placement_allows (r : StoredJob) (d : GpuObservation) : Prop :=
  gp_mode (gpu_placement (sj_spec r)) = GPM_kRequired ->
  go_uuid d ∈ gp_devices (gpu_placement (sj_spec r)).

Definition can_place (st : StoreState) (gpus : GpuObservationSnapshot) (r : StoredJob)
    (d : GpuObservation) : Prop :=
  gpu_usable st gpus d /\ placement_allows r d.

(** The devices REQUIRED jobs among [entries] declare. *)
Definition protected (st : StoreState) (entries : list QueueEntry) (u : GpuUuid) : Prop :=
  exists e r, e ∈ entries /\ st_jobs st !! qe_job_id e = Some r /\
    gp_mode (gpu_placement (sj_spec r)) = GPM_kRequired /\ u ∈ gp_devices (gpu_placement (sj_spec r)).

(** The queue is the FIFO view of the stored QUEUED jobs. *)
Definition queue_agrees (q : GlobalJobQueue) (st : StoreState) : Prop :=
  forall e, e ∈ q_entries q <->
    exists r, st_jobs st !! qe_job_id e = Some r /\ sj_state r = kQueued /\ e = entry_of r.

(** ** Selection lemmas *)

Section selection.
Variables (st : StoreState) (config : ValidationConfig) (gpus : GpuObservationSnapshot).
Hypothesis Hok : StoreOk config st.
Let state := snapshot_of st.

Lemma leased_spec u : leased state u = true <-> is_Some (st_leases st !! u).
Proof.
  unfold leased, state. simpl. rewrite existsb_exists. setoid_rewrite <- list_elem_of_In.
  setoid_rewrite elem_of_map_values. setoid_rewrite bool_decide_eq_true. split.
  - intros (l & (k & Hk) & <-). destruct (sto_lease_key _ _ Hok _ _ Hk) as [-> _]. by eexists.
  - intros [l Hl]. exists l. destruct (sto_lease_key _ _ Hok _ _ Hl) as [<- _]. eauto.
Qed.

Lemma not_leased_spec u : leased state u = false <-> st_leases st !! u = None.
Proof. rewrite <- not_true_iff_false, leased_spec. symmetry. apply eq_None_not_Some. Qed.

Lemma candidate_spec d : d ∈ gs_devices gpus -> candidate state d = true <-> gpu_usable st gpus d.
Proof.
  intros Hd. unfold candidate, gpu_usable.
  rewrite andb_true_iff, negb_true_iff, not_leased_spec, bool_decide_eq_true. tauto.
Qed.

Lemma find_device_spec u d :
  SnapshotOk gpus -> find_device gpus u = Some d <-> d ∈ gs_devices gpus /\ go_uuid d = u.
Proof.
  intros Hs. unfold find_device. split.
  - intros [? ?%bool_decide_eq_true]%find_first_some. done.
  - intros [Hd <-]. destruct (find_first _ _) as [d'|] eqn:E.
    + apply find_first_some in E as [Hd' Heq%bool_decide_eq_true].
      f_equal. by apply (snapshot_uuid_inj gpus).
    + apply (find_first_none _ _ d) in E; [|done]. by apply bool_decide_eq_false in E.
Qed.

(** *** REQUIRED *)

Definition required_candidate (u : GpuUuid) : option GpuObservation :=
  match find_device gpus u with
  | None => None
  | Some d => if negb (bool_decide (go_state d = GO_kFree)) || leased state u then None else Some d
  end.

Lemma select_required_fold devices :
  select_required_gpu gpus state devices =
  fold_left (min_step go_index required_candidate) devices None.
Proof.
  apply fold_left_ext_in. intros b u. unfold select_required_step, min_step, required_candidate.
  destruct (find_device gpus u); [|done]. by destruct (_ || _).
Qed.

Lemma required_candidate_spec u d :
  SnapshotOk gpus -> required_candidate u = Some d <-> gpu_usable st gpus d /\ go_uuid d = u.
Proof.
  intros Hs. unfold required_candidate, gpu_usable.
  destruct (find_device gpus u) as [d'|] eqn:E.
  - apply find_device_spec in E as [Hd' Hu]; [|done].
    destruct (_ || _) eqn:Eb.
    + split; [done|]. intros [(Hd & Hf & Hl) Hu'].
      assert (d' = d) as -> by (apply (snapshot_uuid_inj gpus); congruence).
      rewrite bool_decide_eq_true_2 in Eb by done. simpl in Eb. apply leased_spec in Eb.
      destruct Eb as [? ?]. congruence.
    + apply orb_false_iff in Eb as [Ef El]. apply negb_false_iff, bool_decide_eq_true in Ef.
      apply not_leased_spec in El. split.
      * intros [= <-]. split_and!; try done. congruence.
      * intros [(Hd & _) Hu']. f_equal. apply (snapshot_uuid_inj gpus); congruence.
  - split; [done|]. intros [(Hd & _) Hu]. rewrite <- E. by apply find_device_spec.
Qed.

Lemma select_required_some devices d :
  SnapshotOk gpus -> select_required_gpu gpus state devices = Some d ->
  gpu_usable st gpus d /\ go_uuid d ∈ devices /\
  forall d', gpu_usable st gpus d' -> go_uuid d' ∈ devices -> go_index d <= go_index d'.
Proof.
  intros Hs. rewrite select_required_fold.
  intros [(u & Hu & Hc) Hmin]%min_fold_some. apply required_candidate_spec in Hc as [Hd <-]; [|done].
  split_and!; try done. intros d' Hd' Hu'. eapply Hmin; [exact Hu'|].
  by apply required_candidate_spec.
Qed.

Lemma select_required_none devices :
  SnapshotOk gpus -> select_required_gpu gpus state devices = None <->
  forall d, gpu_usable st gpus d -> go_uuid d ∉ devices.
Proof.
  intros Hs. rewrite select_required_fold, min_fold_none. split.
  - intros Hn d Hd Hu. specialize (Hn _ Hu).
    rewrite (proj2 (required_candidate_spec (go_uuid d) d Hs)) in Hn; done.
  - intros Hn u Hu. destruct (required_candidate u) as [d|] eqn:E; [|done].
    apply required_candidate_spec in E as [Hd <-]; [|done]. by apply Hn in Hd.
Qed.

(** *** ANY *)

Definition any_candidate (p : DevicePtr) : option DevicePtr :=
  if candidate state p.2 then Some p else None.

Definition unprotected_candidate (targets : gset GpuUuid) (p : DevicePtr) : option DevicePtr :=
  if candidate state p.2 && negb (bool_decide (go_uuid p.2 ∈ targets)) then Some p else None.

Lemma select_any_fold targets l b1 b2 :
  fold_left (select_any_step state targets) l (b1, b2) =
  (fold_left (min_step ptr_index (unprotected_candidate targets)) l b1,
   fold_left (min_step ptr_index any_candidate) l b2).
Proof.
  revert b1 b2. induction l as [|p l IH]; intros b1 b2; simpl; [done|].
  unfold min_step at 2 4, unprotected_candidate, any_candidate.
  destruct (candidate state p.2); simpl; [|by apply IH].
  destruct (bool_decide _); simpl; apply IH.
Qed.

Lemma elem_of_device_ptrs i d : (i, d) ∈ device_ptrs gpus <-> gs_devices gpus !! i = Some d.
Proof.
  unfold device_ptrs. rewrite elem_of_lookup_imap. split.
  - intros (j & y & [= -> ->] & Hj). done.
  - intros Hi. eauto.
Qed.

Lemma device_ptr d : d ∈ gs_devices gpus -> exists i, (i, d) ∈ device_ptrs gpus.
Proof. intros [i Hi]%list_elem_of_lookup. exists i. by apply elem_of_device_ptrs. Qed.

Lemma ptr_device p : p ∈ device_ptrs gpus -> p.2 ∈ gs_devices gpus.
Proof. destruct p. intros Hi%elem_of_device_ptrs. by eapply list_elem_of_lookup_2. Qed.

Lemma unprotected_candidate_spec targets p p' :
  p ∈ device_ptrs gpus ->
  unprotected_candidate targets p = Some p' <->
  p' = p /\ gpu_usable st gpus p.2 /\ go_uuid p.2 ∉ targets.
Proof.
  intros Hp%ptr_device. unfold unprotected_candidate. rewrite <- candidate_spec by done.
  destruct (candidate state p.2); simpl; [|naive_solver]. case_bool_decide; naive_solver.
Qed.

Lemma any_candidate_spec p p' :
  p ∈ device_ptrs gpus -> any_candidate p = Some p' <-> p' = p /\ gpu_usable st gpus p.2.
Proof.
  intros Hp%ptr_device. unfold any_candidate. rewrite <- candidate_spec by done.
  destruct (candidate state p.2); naive_solver.
Qed.

(** The smallest-index device among those that satisfy [P]. *)
Definition least_index (P : GpuObservation -> Prop) (d : GpuObservation) : Prop :=
  P d /\ forall d', P d' -> go_index d <= go_index d'.

Lemma best_unprotected targets p :
  fold_left (min_step ptr_index (unprotected_candidate targets)) (device_ptrs gpus) None = Some p ->
  p ∈ device_ptrs gpus /\
  least_index (fun d => gpu_usable st gpus d /\ go_uuid d ∉ targets) p.2.
Proof.
  intros [(p0 & Hp0 & Hc) Hmin]%min_fold_some.
  apply unprotected_candidate_spec in Hc as (-> & Hu & Ht); [|done]. split; [done|].
  split; [done|]. intros d' [Hd' Ht']. destruct (device_ptr d') as [i Hi]; [apply Hd'|].
  apply (Hmin (i, d') (i, d') Hi). by apply unprotected_candidate_spec.
Qed.

Lemma best_any p :
  fold_left (min_step ptr_index any_candidate) (device_ptrs gpus) None = Some p ->
  p ∈ device_ptrs gpus /\ least_index (gpu_usable st gpus) p.2.
Proof.
  intros [(p0 & Hp0 & Hc) Hmin]%min_fold_some.
  apply any_candidate_spec in Hc as [-> Hu]; [|done]. split; [done|].
  split; [done|]. intros d' Hd'. destruct (device_ptr d') as [i Hi]; [apply Hd'|].
  apply (Hmin (i, d') (i, d') Hi). by apply any_candidate_spec.
Qed.

Lemma no_unprotected targets :
  fold_left (min_step ptr_index (unprotected_candidate targets)) (device_ptrs gpus) None = None ->
  forall d, gpu_usable st gpus d -> go_uuid d ∈ targets.
Proof.
  rewrite min_fold_none. intros Hn d Hd. destruct (device_ptr d) as [i Hi]; [apply Hd|].
  destruct (decide (go_uuid d ∈ targets)) as [|Ht]; [done|].
  specialize (Hn _ Hi). rewrite (proj2 (unprotected_candidate_spec targets (i, d) (i, d) Hi)) in Hn;
    done.
Qed.

Lemma no_any :
  fold_left (min_step ptr_index any_candidate) (device_ptrs gpus) None = None ->
  forall d, ~ gpu_usable st gpus d.
Proof.
  rewrite min_fold_none. intros Hn d Hd. destruct (device_ptr d) as [i Hi]; [apply Hd|].
  specialize (Hn _ Hi). rewrite (proj2 (any_candidate_spec (i, d) (i, d) Hi)) in Hn; done.
Qed.

(** The outcome of [select_any_gpu], read declaratively. *)
Definition any_choice (targets : gset GpuUuid) (choice : option GpuObservation * GpuSelectionReason)
  : Prop :=
  match choice.1 with
  | None => choice.2 = GS_kDefault /\ forall d, ~ gpu_usable st gpus d
  | Some d =>
      match choice.2 with
      | GS_kDefault => go_uuid d ∉ targets /\ least_index (gpu_usable st gpus) d
      | GS_kAvoidRequiredAffinity =>
          least_index (fun d' => gpu_usable st gpus d' /\ go_uuid d' ∉ targets) d /\
          exists d', gpu_usable st gpus d' /\ go_uuid d' ∈ targets /\ go_index d' < go_index d
      | GS_kAffinityFallback =>
          least_index (gpu_usable st gpus) d /\
          forall d', gpu_usable st gpus d' -> go_uuid d' ∈ targets
      | GS_kPreferredFallback => False
      end
  end.

Lemma select_any_choice targets :
  SnapshotOk gpus -> any_choice targets (select_any_gpu gpus state targets).
Proof.
  intros Hs. unfold select_any_gpu. rewrite select_any_fold.
  destruct (fold_left (min_step ptr_index (unprotected_candidate targets)) _ _) as [p|] eqn:Ep.
  - apply best_unprotected in Ep as [Hp [[Hu Ht] Hmin]].
    destruct (fold_left (min_step ptr_index any_candidate) _ _) as [f|] eqn:Ef.
    2: { by apply (no_any Ef) in Hu. }
    apply best_any in Ef as [Hf [Huf Hminf]]. unfold any_choice. simpl.
    case_bool_decide as Heq.
    + assert (f = p) as ->; [|done]. destruct f as [i d1], p as [j d2]. simpl in *.
      simplify_eq. apply elem_of_device_ptrs in Hf, Hp. congruence.
    + split; [done|]. exists f.2. split; [done|].
      assert (f.2 <> p.2) as Hne.
      { intros E2. apply Heq. f_equal. destruct f as [i d1], p as [j d2]. simpl in *. subst.
        apply elem_of_device_ptrs in Hf, Hp.
        eapply (NoDup_lookup (go_uuid <$> gs_devices gpus)); [apply Hs|..];
          rewrite list_lookup_fmap; [by rewrite Hf|by rewrite Hp]. }
      assert (go_index f.2 < go_index p.2) as Hlt.
      { specialize (Hminf _ Hu). destruct (decide (go_index f.2 = go_index p.2)) as [E2|]; [|lia].
        contradict Hne. apply (snapshot_index_inj gpus); try done; by apply ptr_device. }
      split; [|done]. destruct (decide (go_uuid f.2 ∈ targets)) as [|Hn]; [done|].
      specialize (Hmin _ (conj Huf Hn)). lia.
  - pose proof (no_unprotected _ Ep) as Hall.
    destruct (fold_left (min_step ptr_index any_candidate) _ _) as [f|] eqn:Ef; unfold any_choice; simpl.
    + apply best_any in Ef as [_ ?]. done.
    + split; [done|]. by apply no_any.
Qed.

Lemma any_choice_usable targets choice d :
  any_choice targets choice -> choice.1 = Some d -> gpu_usable st gpus d.
Proof.
  destruct choice as [[d'|] []]; simpl; intros Hc Heq; inv Heq; unfold any_choice, least_index in Hc;
    simpl in Hc; tauto.
Qed.

Lemma any_choice_none targets choice :
  any_choice targets choice -> choice.1 = None -> forall d, ~ gpu_usable st gpus d.
Proof. destruct choice as [[d'|] r]; simpl; intros Hc Heq; [done|]. apply Hc. Qed.

(** *** Waiting *)

Lemma wait_reason_fold devices a b c :
  fold_left (wait_reason_step gpus state) devices (a, b, c) =
  (existsb (leased state) devices || a,
   existsb (fun u => match find_device gpus u with
                     | Some d => bool_decide (go_state d = GO_kExternalBusy)
                     | None => false
                     end) devices || b,
   fold_left (min_step go_index (find_device gpus)) devices c).
Proof.
  revert a b c. induction devices as [|u devices IH]; intros a b c; simpl; [done|].
  unfold min_step at 2. destruct (find_device gpus u) as [d|]; rewrite IH;
    destruct (leased state u); simpl; rewrite ?orb_true_r;
    try (case_bool_decide; simpl; rewrite ?orb_true_r); done.
Qed.
End selection.

(** ** One job *)

(** What a selection for job [r] has to be, by placement mode. *)
Definition placement_choice (st : StoreState) (gpus : GpuObservationSnapshot)
    (targets : gset GpuUuid) (r : StoredJob) (d : GpuObservation) (reason : GpuSelectionReason) : Prop :=
  let p := gpu_placement (sj_spec r) in
  match gp_mode p with
  | GPM_kAny => any_choice st gpus targets (Some d, reason)
  | GPM_kRequired =>
      least_index (fun d' => gpu_usable st gpus d' /\ go_uuid d' ∈ gp_devices p) d /\
      reason = GS_kDefault
  | GPM_kPreferred =>
      gpu_usable st gpus d /\ gp_devices p = [go_uuid d] /\ reason = GS_kDefault \/
      (forall d', gpu_usable st gpus d' -> gp_devices p <> [go_uuid d']) /\
      reason = GS_kPreferredFallback /\ exists reason', any_choice st gpus targets (Some d, reason')
  end.

Lemma placement_choice_allows st gpus targets r d reason :
  placement_choice st gpus targets r d reason -> can_place st gpus r d.
Proof.
  unfold placement_choice, can_place, placement_allows.
  destruct (gp_mode _); intros Hc.
  - split; [by eapply (any_choice_usable _ _ targets (Some d, reason))|done].
  - destruct Hc as [[[? ?] _] _]. done.
  - destruct Hc as [(? & _)|(_ & _ & reason' & Hc)]; [done|].
    split; [by eapply (any_choice_usable _ _ targets (Some d, reason'))|done].
Qed.

(** The target of a PREFERRED job is a candidate exactly when it is found FREE
    and without a lease. *)
Lemma target_candidate config st gpus target :
  StoreOk config st -> SnapshotOk gpus ->
  match find_device gpus target with
  | Some d => if bool_decide (go_state d = GO_kFree) && negb (leased (snapshot_of st) target)
              then gpu_usable st gpus d /\ go_uuid d = target
              else forall d', gpu_usable st gpus d' -> go_uuid d' <> target
  | None => forall d', gpu_usable st gpus d' -> go_uuid d' <> target
  end.
Proof.
  intros Hok Hs.
  pose proof (fun d => required_candidate_spec st config gpus Hok target d Hs) as Hrc.
  unfold required_candidate in Hrc. 
  assert (forall d, None = Some d <-> gpu_usable st gpus d /\ go_uuid d = target ->
          gpu_usable st gpus d -> go_uuid d <> target) as Hnone.
  { intros d [_ Hd] Hu Heq. by discriminate (Hd (conj Hu Heq)). }
  destruct (find_device gpus target) as [d|]; [|by intros d'; apply Hnone].
  destruct (bool_decide _), (leased _ _); simpl in *; try (by intros d'; apply Hnone). by apply Hrc.
Qed.

Lemma select_preferred_spec config st gpus targets any target :
  StoreOk config st -> SnapshotOk gpus -> any_choice st gpus targets any ->
  match select_preferred gpus (snapshot_of st) any.1 target with
  | (Some d, reason) =>
      gpu_usable st gpus d /\ go_uuid d = target /\ reason = GS_kDefault \/
      (forall d', gpu_usable st gpus d' -> go_uuid d' <> target) /\
      reason = GS_kPreferredFallback /\ exists reason', any_choice st gpus targets (Some d, reason')
  | (None, _) => forall d, ~ gpu_usable st gpus d
  end.
Proof.
  intros Hok Hs Hany. pose proof (target_candidate config st gpus target Hok Hs) as Ht.
  assert ((forall d', gpu_usable st gpus d' -> go_uuid d' <> target) ->
    match match any.1 with Some d => (Some d, GS_kPreferredFallback) | None => (None, GS_kDefault) end with
    | (Some d, reason) =>
        gpu_usable st gpus d /\ go_uuid d = target /\ reason = GS_kDefault \/
        (forall d', gpu_usable st gpus d' -> go_uuid d' <> target) /\
        reason = GS_kPreferredFallback /\ exists reason', any_choice st gpus targets (Some d, reason')
    | (None, _) => forall d, ~ gpu_usable st gpus d
    end) as Hfall.
  { intros Hno. destruct any as [[d|] reason]; simpl; [by right; eauto|].
    by eapply (any_choice_none _ _ targets (None, reason)). }
  unfold select_preferred. destruct (find_device gpus target) as [d|]; [|by apply Hfall].
  destruct (_ && _); [|by apply Hfall]. left. destruct Ht. done.
Qed.

Lemma select_for_spec config st gpus targets any r :
  StoreOk config st -> SnapshotOk gpus -> SpecOk (sj_spec r) -> any_choice st gpus targets any ->
  exists sel reason, select_for gpus (snapshot_of st) any r = Some (sel, reason) /\
    match sel with
    | Some d => placement_choice st gpus targets r d reason
    | None => forall d, ~ can_place st gpus r d
    end.
Proof.
  intros Hok Hs Hspec Hany. pose proof (so_placement _ Hspec) as Hp.
  unfold select_for, placement_choice, can_place, placement_allows, placement_ok in *.
  destruct (gp_mode (gpu_placement (sj_spec r))).
  - destruct any as [[d|] reason]; eexists _, _; (split; [done|]); [done|].
    intros d [Hd _]. by eapply (any_choice_none _ _ targets (None, reason)) in Hd.
  - eexists _, _. split; [done|].
    destruct (select_required_gpu _ _ _) as [d|] eqn:E.
    + eapply select_required_some in E as (? & ? & ?); [|done..]. split; [|done]. split; [done|].
      intros d' [? ?]. auto.
    + intros d [Hd Hin]. eapply select_required_none in E; eauto.
  - destruct Hp as (target & Hdev & _). rewrite Hdev.
    pose proof (select_preferred_spec config st gpus targets any target Hok Hs Hany) as Hpref.
    destruct (select_preferred _ _ _ _) as [sel reason]. exists sel, reason. split; [done|].
    destruct sel as [d|].
    + destruct Hpref as [(? & <- & ?)|(Hno & ? & ?)]; [by left|right].
      split_and!; try done. intros d' Hd' [= Heq]. by apply (Hno d').
    + intros d [Hd _]. by apply (Hpref d).
Qed.

(** ** The window *)

Lemma collect_affinity_some config st window records targets :
  (forall e, e ∈ window -> exists r, records !! qe_job_id e = Some r /\ st_jobs st !! qe_job_id e = Some r) ->
  StoreOk config st ->
  exists targets', collect_affinity_targets window records targets = Some targets' /\
    forall u, u ∈ targets' <-> u ∈ targets \/ protected st window u.
Proof.
  intros Hrec Hok. revert targets. induction window as [|e window IH]; intros targets; simpl.
  { eexists. split; [done|]. intros u. unfold protected. set_solver. }
  destruct (Hrec e) as (r & Hr & Hst); [left|]. unfold at_record. rewrite Hr.
  destruct (IH ltac:(intros; apply Hrec; by right) (affinity_targets_of targets r))
    as (targets' & -> & Hin).
  eexists. split; [done|]. intros u. rewrite Hin.
  assert (u ∈ affinity_targets_of targets r <-> u ∈ targets \/
    gp_mode (gpu_placement (sj_spec r)) = GPM_kRequired /\ u ∈ gp_devices (gpu_placement (sj_spec r))) as ->.
  { unfold affinity_targets_of. destruct (gp_mode _); [naive_solver| |naive_solver].
    generalize (gp_devices (gpu_placement (sj_spec r))). intros l. clear.
    revert targets. induction l as [|d l IH]; intros targets; simpl; [set_solver|].
    rewrite IH. set_solver. }
  unfold protected. setoid_rewrite elem_of_cons. split.
  - intros [[?|[? ?]]|(e' & r' & ? & ? & ? & ?)]; [by left|right; eauto 10|right; eauto 10].
  - intros [?|(e' & r' & [->|?] & ? & ? & ?)]; [by left; left| |right; eauto 10].
    left. right. simplify_eq. done.
Qed.

Section scan.
Variables (config : ValidationConfig) (st : StoreState) (gpus : GpuObservationSnapshot).
Variables (records : gmap JobId StoredJob) (targets : gset GpuUuid).
Variable any : option GpuObservation * GpuSelectionReason.
Hypothesis Hok : StoreOk config st.
Hypothesis Hs : SnapshotOk gpus.
Hypothesis Hany : any_choice st gpus targets any.

(** No device for the job of entry [e]. *)
Definition entry_waits (e : QueueEntry) : Prop :=
  forall r d, records !! qe_job_id e = Some r -> ~ can_place st gpus r d.

Definition skips_of (entries : list QueueEntry) (skips : list ScheduleSkip) : Prop :=
  Forall2 (fun e k => exists r, records !! qe_job_id e = Some r /\ k = skip_of gpus (snapshot_of st) e r)
    entries skips.

Lemma scan_window_spec window skipped :
  (forall e, e ∈ window -> exists r, records !! qe_job_id e = Some r /\ SpecOk (sj_spec r)) ->
  match scan_window gpus (snapshot_of st) any records window skipped with
  | ScanThrow => False
  | ScanNone out => exists out', out = skipped ++ out' /\ skips_of window out' /\ Forall entry_waits window
  | ScanFound r d reason out =>
      exists pre e post out', window = pre ++ e :: post /\ records !! qe_job_id e = Some r /\
        out = skipped ++ out' /\ skips_of pre out' /\ Forall entry_waits pre /\
        placement_choice st gpus targets r d reason
  end.
Proof.
  intros Hrec. revert skipped. induction window as [|e window IH]; intros skipped; simpl.
  { exists []. rewrite app_nil_r. split_and!; [done|constructor..]. }
  destruct (Hrec e) as (r & Hr & Hspec); [left|]. unfold at_record. rewrite Hr.
  destruct (select_for_spec config st gpus targets any r Hok Hs Hspec Hany)
    as ([d|] & reason & -> & Hsel); simpl.
  { exists [], e, window, []. rewrite app_nil_r. split_and!; try done; constructor. }
  specialize (IH ltac:(intros; apply Hrec; by right) (skipped ++ [skip_of gpus (snapshot_of st) e r])).
  assert (entry_waits e) as Hwait by (intros r' d Hr'; simplify_eq; apply Hsel).
  destruct (scan_window _ _ _ _ _ _) as [|out|r' d' reason' out]; [done| |].
  - destruct IH as (out' & -> & Hsk & Hw). exists (skip_of gpus (snapshot_of st) e r :: out').
    rewrite <- app_assoc. split_and!; [done| |by constructor]. constructor; eauto.
  - destruct IH as (pre & e' & post & out' & -> & Hr' & -> & Hsk & Hw & Hch).
    exists (e :: pre), e', post, (skip_of gpus (snapshot_of st) e r :: out').
    rewrite <- app_assoc. split_and!; try done; constructor; eauto.
Qed.
End scan.

(** ** Reconciling the queue with the store *)

Lemma queued_records_fold jobs m :
  NoDup (sj_id <$> jobs) -> (forall id, id ∈ sj_id <$> jobs -> m !! id = None) ->
  (forall id r, fold_left queued_record_step jobs m !! id = Some r <->
     m !! id = Some r \/ r ∈ jobs /\ sj_state r = kQueued /\ sj_id r = id) /\
  msize (fold_left queued_record_step jobs m) =
    msize m + len (filter (fun r => sj_state r = kQueued) jobs).
Proof.
  revert m. induction jobs as [|r jobs IH]; intros m Hnd Hnew; simpl.
  { split; [|unfold len; simpl; lia]. intros id r. set_solver. }
  apply NoDup_cons in Hnd as [Hr Hnd].
  assert (m !! sj_id r = None) as Hmr by (apply Hnew; left).
  assert (forall id, id ∈ sj_id <$> jobs -> queued_record_step m r !! id = None) as Hnew'.
  { intros id Hid. unfold queued_record_step, emplace. rewrite Hmr.
    assert (m !! id = None) as Hm by (apply Hnew; by right).
    destruct (bool_decide _); [|done]. rewrite lookup_insert_ne; [done|]. by intros <-. }
  destruct (IH _ Hnd Hnew') as [Hlook Hsize]. rewrite Hsize. clear IH.
  unfold queued_record_step, emplace in Hlook |- *. rewrite Hmr in Hlook |- *.
  rewrite filter_cons. setoid_rewrite Hlook. setoid_rewrite elem_of_cons.
  case_bool_decide as Hq; [rewrite decide_True by done|rewrite decide_False by done].
  - split; [|rewrite msize_insert_new, len_cons by done; lia]. intros id r'.
    rewrite lookup_insert_Some. split.
    + intros [[[<- <-]|[_ ?]]|(? & ? & ?)]; eauto.
    + intros [Hm|([->|?] & ? & <-)]; [|by eauto|by eauto].
      left. right. split; [|done]. intros <-. congruence.
  - split; [|done]. intros id r'. naive_solver.
Qed.

Lemma map_values_ids config st :
  StoreOk config st -> sj_id <$> map_values (st_jobs st) = (map_entries (st_jobs st)).*1.
Proof.
  intros Hok. unfold map_values. rewrite <- list_fmap_compose. apply list_fmap_ext.
  intros i [id r] Hi. simpl. apply list_elem_of_lookup_2, elem_of_map_entries in Hi.
  apply (ro_id _ _ (map_Forall_lookup_1 _ _ _ _ (sto_jobs _ _ Hok) Hi)).
Qed.

Lemma map_values_ids_nodup config st : StoreOk config st -> NoDup (sj_id <$> map_values (st_jobs st)).
Proof. intros Hok. rewrite (map_values_ids _ _ Hok). apply NoDup_map_entries_keys. Qed.

Lemma elem_of_jobs config st r :
  StoreOk config st -> r ∈ map_values (st_jobs st) <-> st_jobs st !! sj_id r = Some r.
Proof.
  intros Hok. rewrite elem_of_map_values. split; [|by eauto]. intros [k Hk].
  by rewrite (ro_id _ _ (map_Forall_lookup_1 _ _ _ _ (sto_jobs _ _ Hok) Hk)).
Qed.

Lemma queued_records_lookup config st id r :
  StoreOk config st ->
  queued_records_of (map_values (st_jobs st)) !! id = Some r <->
  st_jobs st !! id = Some r /\ sj_state r = kQueued.
Proof.
  intros Hok. unfold queued_records_of.
  rewrite (proj1 (queued_records_fold _ _ (map_values_ids_nodup _ _ Hok) (fun _ _ => lookup_empty _))).
  rewrite lookup_empty, (elem_of_jobs _ _ _ Hok). split.
  - intros [?|(? & ? & <-)]; done.
  - intros [Hr Hq].
    pose proof (ro_id _ _ (map_Forall_lookup_1 _ _ _ _ (sto_jobs _ _ Hok) Hr)) as <-. by right.
Qed.

Lemma elem_of_queued_entries config st e :
  StoreOk config st ->
  e ∈ queued_entries (map_values (st_jobs st)) <->
  exists r, st_jobs st !! qe_job_id e = Some r /\ sj_state r = kQueued /\ e = entry_of r.
Proof.
  intros Hok. unfold queued_entries. rewrite list_elem_of_fmap.
  setoid_rewrite list_elem_of_filter. setoid_rewrite (elem_of_jobs _ _ _ Hok). split.
  - intros (r & -> & ? & ?). eauto.
  - intros (r & Hr & Hq & ->). exists r. split_and!; try done.
Qed.

Lemma queue_agrees_perm config q st :
  StoreOk config st -> QueueOk q -> queue_agrees q st <->
  q_entries q ≡ₚ queued_entries (map_values (st_jobs st)).
Proof.
  intros Hok Hq. split.
  - intros Hag. apply NoDup_Permutation.
    + apply (NoDup_fmap_1 qe_job_id), Hq.
    + apply (NoDup_fmap_1 qe_job_id). rewrite queued_entries_ids.
      apply NoDup_fmap_filter, (map_values_ids_nodup _ _ Hok).
    + intros e. rewrite (elem_of_queued_entries _ _ _ Hok). apply Hag.
  - intros Hp e. rewrite Hp. apply (elem_of_queued_entries _ _ _ Hok).
Qed.

Lemma queued_records_size config q st :
  StoreOk config st -> QueueOk q -> queue_agrees q st ->
  msize (queued_records_of (map_values (st_jobs st))) = len (q_entries q).
Proof.
  intros Hok Hq Hag. unfold queued_records_of.
  rewrite (proj2 (queued_records_fold _ _ (map_values_ids_nodup _ _ Hok) (fun _ _ => lookup_empty _))).
  rewrite (len_perm _ _ (proj1 (queue_agrees_perm _ _ _ Hok Hq) Hag)).
  unfold queued_entries, len, msize. by rewrite length_fmap, map_size_empty.
Qed.

Lemma fold_result_idx_all_ok {E A} (f : N -> unit -> A -> Result E unit) l :
  (forall i x, x ∈ l -> f i tt x = Ok tt) -> forall i, fold_result_idx f i tt l = Ok tt.
Proof.
  induction l as [|x l IH]; intros Hf i; simpl; [done|].
  rewrite Hf by left. simpl. apply IH. intros j y Hy. apply Hf. by right.
Qed.

Lemma check_entries_ok config w q st i :
  StoreOk config st -> queue_agrees q st ->
  fold_result_idx (check_entry w (queued_records_of (map_values (st_jobs st)))) i tt (q_entries q) = Ok tt.
Proof.
  intros Hok Hag. apply fold_result_idx_all_ok. intros j e He. unfold check_entry.
  apply Hag in He as (r & Hr & Hq & ->). simpl in *.
  rewrite (proj2 (queued_records_lookup _ _ (sj_id r) r Hok)) by done.
  rewrite Z.eqb_refl. simpl.
  assert (sj_revision r = 0) as ->.
  { by apply (ro_initial _ _ (map_Forall_lookup_1 _ _ _ _ (sto_jobs _ _ Hok) Hr)). }
  by destruct (_ <? _).
Qed.

(** ** Refinement of an abstract scheduling step *)

(** The job of a queue entry has no device it could start on. *)
Definition waits (st : StoreState) (gpus : GpuObservationSnapshot) (e : QueueEntry) : Prop :=
  forall r d, st_jobs st !! qe_job_id e = Some r -> ~ can_place st gpus r d.

Definition scanned (w : N) (q : GlobalJobQueue) : list QueueEntry := take (N.to_nat w) (q_entries q).

(** The placement [r]-on-[d] that the rules single out: [r] is the first job of
    the window with a device, and [d] is the device its placement mode and the
    protection of waiting REQUIRED jobs prescribe. *)
Record Placement (w : N) (gpus : GpuObservationSnapshot) (q : GlobalJobQueue) (st : StoreState)
    (position : nat) (r : StoredJob) (d : GpuObservation) (reason : GpuSelectionReason) : Prop := {
  pl_window : (position < N.to_nat w)%nat;
  pl_entry : q_entries q !! position = Some (entry_of r);
  pl_job : st_jobs st !! sj_id r = Some r;
  pl_queued : sj_state r = kQueued;
  pl_first : Forall (waits st gpus) (take position (q_entries q));
  pl_choice : exists targets,
    (forall u, u ∈ targets <-> protected st (scanned w q) u) /\
    placement_choice st gpus targets r d reason;
}.

Lemma skips_of_jobs st gpus records entries skips :
  skips_of st gpus records entries skips -> sk_job <$> skips = qe_job_id <$> entries.
Proof.
  induction 1 as [|e k entries skips (r & _ & ->) _ IH]; [done|]. rewrite !fmap_cons, IH. f_equal.
  unfold skip_of. destruct (gp_mode _); [done| |done]. by destruct (required_wait_reason _ _ _).
Qed.

Lemma window_take w q :
  take (N.to_nat (N.min w (len (q_entries q)))) (q_entries q) = scanned w q.
Proof.
  unfold scanned, len. destruct (N.le_gt_cases w (N.of_nat (length (q_entries q)))).
  - by rewrite N.min_l.
  - rewrite N.min_r, Nat2N.id by lia. rewrite !take_ge; [done|lia..].
Qed.

(** In agreement with the store, every scanned entry finds its record. *)
Lemma window_record config w q st e :
  StoreOk config st -> queue_agrees q st -> e ∈ scanned w q ->
  exists r, queued_records_of (map_values (st_jobs st)) !! qe_job_id e = Some r /\
    st_jobs st !! qe_job_id e = Some r /\ sj_state r = kQueued /\ e = entry_of r /\ SpecOk (sj_spec r).
Proof.
  intros Hok Hag He. unfold scanned in He.
  assert (e ∈ q_entries q) as (r & Hr & Hq & ->)%Hag
    by (apply elem_of_take in He as (i & Hi & _); by eapply list_elem_of_lookup_2).
  exists r. split_and!; try done; [by apply (queued_records_lookup _ _ _ _ Hok)|].
  apply (ro_spec _ _ (map_Forall_lookup_1 _ _ _ _ (sto_jobs _ _ Hok) Hr)).
Qed.

Lemma window_targets config w q st :
  StoreOk config st -> queue_agrees q st ->
  exists targets,
    collect_affinity_targets (scanned w q) (queued_records_of (map_values (st_jobs st))) ∅ = Some targets /\
    forall u, u ∈ targets <-> protected st (scanned w q) u.
Proof.
  intros Hok Hag.
  destruct (collect_affinity_some config st (scanned w q)
              (queued_records_of (map_values (st_jobs st))) ∅) as (targets & Hcol & Htg); [|done|].
  { intros e He. destruct (window_record _ _ _ _ _ Hok Hag He) as (r0 & ? & ? & _). eauto. }
  exists targets. split; [done|]. intros u. rewrite Htg. set_solver.
Qed.

(** The scan never throws; it finds the first job with a device, or shows that
    there is none. *)
Lemma window_scan config w gpus q st targets :
  StoreOk config st -> SnapshotOk gpus -> queue_agrees q st ->
  match scan_window gpus (snapshot_of st) (select_any_gpu gpus (snapshot_of st) targets)
          (queued_records_of (map_values (st_jobs st))) (scanned w q) [] with
  | ScanThrow => False
  | ScanNone out =>
      sk_job <$> out = qe_job_id <$> scanned w q /\ Forall (waits st gpus) (scanned w q)
  | ScanFound r d reason out =>
      exists position, sk_job <$> out = qe_job_id <$> take position (q_entries q) /\
        (position < N.to_nat w)%nat /\ q_entries q !! position = Some (entry_of r) /\
        st_jobs st !! sj_id r = Some r /\ sj_state r = kQueued /\
        Forall (waits st gpus) (take position (q_entries q)) /\
        placement_choice st gpus targets r d reason
  end.
Proof.
  intros Hok Hs Hag. set (records := queued_records_of (map_values (st_jobs st))).
  assert (forall l, (forall e, e ∈ l -> e ∈ scanned w q) -> Forall (entry_waits st gpus records) l ->
    Forall (waits st gpus) l) as Hwait.
  { intros l Hl Hw. rewrite Forall_forall in Hw |- *. intros e He r0 d Hr0.
    destruct (window_record _ _ _ _ _ Hok Hag (Hl e He)) as (r1 & Hr1 & Hr2 & _).
    simplify_eq. by apply (Hw _ He). }
  pose proof (scan_window_spec config st gpus records targets
    (select_any_gpu gpus (snapshot_of st) targets) Hok Hs
    (select_any_choice _ _ _ Hok _ Hs) (scanned w q) []) as Hscan.
  assert (forall e, e ∈ scanned w q -> exists r, records !! qe_job_id e = Some r /\ SpecOk (sj_spec r))
    as Hrec.
  { intros e He. destruct (window_record _ _ _ _ _ Hok Hag He) as (r0 & ? & _ & _ & _ & ?). eauto. }
  specialize (Hscan Hrec).
  destruct (scan_window _ _ _ _ _ _) as [|out|r d reason out]; [done| |].
  - destruct Hscan as (out' & -> & Hsk & Hw). split; [by eapply skips_of_jobs|]. by apply Hwait.
  - destruct Hscan as (pre & e & post & out' & Hwin & Hr & -> & Hsk & Hw & Hch).
    assert (e ∈ scanned w q) as He by (rewrite Hwin; apply elem_of_app; right; left).
    destruct (window_record _ _ _ _ _ Hok Hag He) as (r1 & Hr1 & Hst & Hqd & -> & _).
    fold records in Hr1. assert (r1 = r) as -> by congruence.
    assert (scanned w q !! length pre = Some (entry_of r)) as Hlook
      by (rewrite Hwin; by apply list_lookup_middle).
    unfold scanned in Hlook. apply lookup_take_Some in Hlook as [Hlook Hlt].
    assert (take (length pre) (q_entries q) = pre) as Htake.
    { transitivity (take (length pre) (scanned w q)); [|by rewrite Hwin, take_app_length].
      unfold scanned. rewrite take_take. f_equal. lia. }
    exists (length pre). rewrite Htake. split_and!; try done; [by eapply skips_of_jobs|].
    apply Hwait; [|done]. intros e' He'. rewrite Hwin. apply elem_of_app. by left.
Qed.

Section spec.
Context {S : Type} `{StateStoreLaws S}.

Record SchedOk (q : GlobalJobQueue) (s : S) : Prop := {
  sc_inv : store_inv s;
  sc_store : StoreOk (store_config s) (store_view s);
  sc_queue : QueueOk q;
  sc_agrees : queue_agrees q (store_view s);
}.

(** What one [run_once] may do. *)
Inductive schedule_step (w : N) (gpus : GpuObservationSnapshot) (q : GlobalJobQueue) (s : S)
  : ScheduleResult -> GlobalJobQueue -> S -> Prop :=
| step_refused res :
    sr_code res = SR_kInvalidGpuSnapshot /\ ~ SnapshotOk gpus \/
    SnapshotOk gpus /\ sr_code res = SR_kStateLoadFailed /\ load_ok (store_load s) = false ->
    schedule_step w gpus q s res q s
| step_empty res :
    SnapshotOk gpus -> load_ok (store_load s) = true ->
    sr_code res = SR_kQueueEmpty -> q_entries q = [] -> schedule_step w gpus q s res q s
| step_wait res :
    SnapshotOk gpus -> load_ok (store_load s) = true ->
    sr_code res = SR_kNoCandidate -> q_entries q <> [] ->
    Forall (waits (store_view s) gpus) (scanned w q) ->
    sk_job <$> ev_skipped (sr_evaluation res) = qe_job_id <$> scanned w q ->
    schedule_step w gpus q s res q s
| step_write_failed res position r d reason s' :
    SnapshotOk gpus -> load_ok (store_load s) = true ->
    Placement w gpus q (store_view s) position r d reason ->
    sr_code res = SR_kStateWriteFailed ->
    (exists written, store_apply (schedule_mutation (st_revision (store_view s)) r d) s = (written, s') /\
       write_ok written = false) ->
    store_view s' = store_view s -> store_inv s' -> store_config s' = store_config s ->
    schedule_step w gpus q s res q s'
| step_scheduled res position r d reason s' :
    SnapshotOk gpus -> load_ok (store_load s) = true ->
    Placement w gpus q (store_view s) position r d reason ->
    sr_code res = SR_kScheduled ->
    se_job_id (sr_event res) = Some (sj_id r) -> se_gpu_uuid (sr_event res) = Some (go_uuid d) ->
    se_selection_reason (sr_event res) = reason ->
    sk_job <$> ev_skipped (sr_evaluation res) = qe_job_id <$> take position (q_entries q) ->
    apply_mutation (store_config s) (store_view s)
      (schedule_mutation (st_revision (store_view s)) r d) = Ok (store_view s') ->
    store_inv s' -> store_config s' = store_config s ->
    schedule_step w gpus q s res {| q with q_entries := delete position (q_entries q) |} s'.

Lemma commit_placement_step w trigger gpus q s position r d reason evaluation res q' s' :
  SchedOk q s -> SnapshotOk gpus -> load_ok (store_load s) = true ->
  Placement w gpus q (store_view s) position r d reason ->
  sk_job <$> ev_skipped evaluation = qe_job_id <$> take position (q_entries q) ->
  commit_placement trigger (st_revision (store_view s)) r d reason evaluation q s = (res, q', s') ->
  schedule_step w gpus q s res q' s'.
Proof.
  intros [Hinv Hok Hq Hag] Hs Hload Hpl Hskip. unfold commit_placement.
  pose proof (pl_entry _ _ _ _ _ _ _ _ Hpl) as Hpos.
  pose proof (map_Forall_lookup_1 _ _ _ _ (sto_jobs _ _ Hok) (pl_job _ _ _ _ _ _ _ _ Hpl)) as Hr.
  assert (sj_id r ∈ qe_job_id <$> q_entries q) as Hid.
  { apply list_elem_of_lookup_2 in Hpos. by apply (list_elem_of_fmap_2 qe_job_id) in Hpos. }
  destruct (queue_remove_ok q (sj_id r) Hq Hid) as (removal & i & e & -> & Hrem & Hi & He & _).
  assert (i = position) as ->.
  { eapply (NoDup_lookup (qe_job_id <$> q_entries q) _ _ (sj_id r) (qo_ids _ Hq));
      rewrite list_lookup_fmap, ?Hi, ?Hpos; simpl; congruence. }
  rewrite Hpos in Hi. injection Hi as <-. rewrite Hrem. simpl.
  destruct (store_apply _ s) as [written s1] eqn:Happ.
  destruct (store_apply_keeps _ _ _ _ Hinv Happ) as [Hinv' Hcfg].
  destruct (write_ok written) eqn:Hw; simpl.
  - intros [= <- <- <-]. destruct (store_apply_ok _ _ _ _ Hinv Happ Hw) as [Hmut Hrev].
    by eapply step_scheduled.
  - destruct (remove_admit_entries q _ position (entry_of r) r Hq Hpos eq_refl eq_refl)
      as (rollback & -> & Hroll).
    { apply Hr. } { apply Hpl. } { apply Hr, Hpl. }
    rewrite Hroll. simpl. intros [= <- <- <-]. eapply step_write_failed; try done; [by eexists|].
    by eapply store_apply_err.
Qed.

Lemma run_once_step w trigger gpus q s r q' s' :
  SchedOk q s -> run_once w trigger gpus q s = (r, q', s') ->
  exists res, r = Some res /\ schedule_step w gpus q s res q' s'.
Proof.
  intros Hsc Hrun. pose proof Hsc as [Hinv Hok Hq Hag]. unfold run_once in Hrun.
  destruct (gpu_result_ok (gpu_validate gpus)) eqn:Hgpu; simpl in Hrun.
  2: { simplify_eq. eexists. split; [done|]. apply step_refused. left. split; [done|].
       rewrite <- gpu_valid_iff. congruence. }
  apply gpu_valid_iff in Hgpu.
  destruct (load_ok (store_load s)) eqn:Hload; simpl in Hrun.
  2: { simplify_eq. eexists. split; [done|]. apply step_refused. by right. }
  rewrite (store_load_view _ Hinv Hload) in Hrun. simpl in Hrun.
  rewrite (queued_records_size _ _ _ Hok Hq Hag), N.eqb_refl in Hrun. simpl in Hrun.
  rewrite (check_entries_ok _ _ _ _ _ Hok Hag), window_take in Hrun.
  destruct (N.eqb_spec (len (q_entries q)) 0) as [Hz|Hne].
  { simplify_eq. eexists. split; [done|]. apply step_empty; try done. by apply len_zero. }
  destruct (window_targets _ w _ _ Hok Hag) as (targets & Hcol & Htg). rewrite Hcol in Hrun.
  pose proof (window_scan _ w gpus _ _ targets Hok Hgpu Hag) as Hscan.
  destruct (scan_window _ _ _ _ _ _) as [|out|r0 d reason out]; [done| |].
  - destruct Hscan as [Hjobs Hwaits]. simplify_eq. eexists. split; [done|].
    apply step_wait; try done. intros Hnil. by rewrite Hnil in Hne.
  - destruct Hscan as (position & Hjobs & Hlt & Hent & Hjob & Hqd & Hfirst & Hchoice).
    destruct (commit_placement _ _ _ _ _ _ _ _) as [[res q1] s1] eqn:Hcommit. simplify_eq.
    exists res. split; [done|].
    assert (Placement w gpus q (store_view s) position r0 d reason) as Hpl
      by (constructor; try done; by exists targets).
    eapply commit_placement_step; [exact Hsc|exact Hgpu|exact Hload|exact Hpl| |exact Hcommit].
    exact Hjobs.
Qed.
End spec.

(** ** The scheduling mutation *)

Lemma starting_revision r : sj_revision r = 0 -> sj_revision (starting_record r) = 1.
Proof. intros Hr. simpl. rewrite Hr. reflexivity. Qed.

Lemma schedule_mutation_inv config st r d st' :
  apply_mutation config st (schedule_mutation (st_revision st) r d) = Ok st' ->
  st' = mkState (st_revision st + 1) (<[sj_id r := starting_record r]> (st_jobs st))
          (<[go_uuid d := mkLease (go_uuid d) (sj_id r)]> (st_leases st)).
Proof.
  intros (_ & _ & _ & Hrev & jobs1 & leases1 & Hc & Hu & Hr & Ha & _)%apply_mutation_inv.
  destruct st' as [rev jobs leases]. simpl in *. simplify_eq.
  apply result_bind_ok in Hu as (jobs2 & Hu & Hj). apply update_job_ok in Hu as [-> _].
  apply result_bind_ok in Ha as (leases2 & Ha & Hl). apply acquire_lease_ok in Ha as [-> _].
  simpl in *. by simplify_eq.
Qed.

Lemma starting_execution x spec : ExecutionOk x kQueued spec -> ExecutionOk x kStarting spec.
Proof.
  intros [? Hq ? Hnt ? ? ? ?]. constructor; try done. by intros [?|?].
Qed.

(** The write of a placement is valid: only a full lease table, an exhausted
    revision counter or the back end itself can refuse it. *)
Lemma schedule_mutation_accepted config st r d :
  StoreOk config st -> st_jobs st !! sj_id r = Some r -> sj_state r = kQueued ->
  uuid_valid (go_uuid d) = true -> st_leases st !! go_uuid d = None ->
  st_revision st <> u64_max -> msize (st_leases st) < max_leases config ->
  exists st', apply_mutation config st (schedule_mutation (st_revision st) r d) = Ok st'.
Proof.
  intros Hok Hr Hq Huuid Hfree Hrev Hcap.
  pose proof (map_Forall_lookup_1 _ _ _ _ (sto_jobs _ _ Hok) Hr) as [_ Hid Hspec Hx _ Hini].
  pose proof (proj2 Hini Hq) as Hr0.
  assert (forall u l, st_leases st !! u = Some l -> lease_job_id l <> sj_id r) as Hother.
  { intros u l Hl Heq. destruct (sto_lease_job _ _ Hok _ _ Hl) as (r' & Hr' & Hlease).
    rewrite Heq in Hr'. simplify_eq. by rewrite Hq in Hlease. }
  exists (mkState (st_revision st + 1) (<[sj_id r := starting_record r]> (st_jobs st))
          (<[go_uuid d := mkLease (go_uuid d) (sj_id r)]> (st_leases st))).
  apply apply_mutation_inv. simpl. split_and!; try done.
  exists (st_jobs st), (st_leases st). split_and!; try done.
  - apply result_bind_ret, update_job_ok. split_and!; try done.
    + simpl. apply starting_execution. by rewrite Hq in Hx.
    + exists r. rewrite starting_revision by done. rewrite Hr0, Hq. done.
  - apply result_bind_ret, acquire_lease_ok. split_and!; try done.
    unfold leaseable_job. simpl. by rewrite lookup_insert_eq.
  - intros u l [[<- <-]|[Hne Hl]]%lookup_insert_Some; apply leaseable_job_spec; simpl.
    + exists (starting_record r). by rewrite lookup_insert_eq.
    + destruct (sto_lease_job _ _ Hok _ _ Hl) as (r' & Hr' & Hlease). exists r'.
      rewrite lookup_insert_ne; [done|]. apply not_eq_sym. by eapply Hother.
  - intros id r' [[<- <-]|[Hne Hr']]%lookup_insert_Some; simpl.
    + apply lease_count_one. exists (go_uuid d), (mkLease (go_uuid d) (sj_id r)).
      rewrite lookup_insert_eq. split_and!; try done.
      intros u l [[<- _]|[_ Hl]]%lookup_insert_Some Hj; [done|]. by apply Hother in Hl.
    + destruct (leaseable (sj_state r')) eqn:Hlease.
      * destruct (sto_lease_exists _ _ Hok _ _ Hr' Hlease) as (u & l & Hl & Hj).
        apply lease_count_one. exists u, l. split_and!; [|done|].
        { rewrite lookup_insert_ne; [done|]. intros <-. congruence. }
        intros u' l' [[<- <-]|[_ Hl']]%lookup_insert_Some Hj'; [done|].
        eapply (sto_lease_unique _ _ Hok); [exact Hl'|exact Hl|congruence].
      * apply lease_count_zero. intros u l [[<- <-]|[_ Hl]]%lookup_insert_Some; [done|].
        intros Hj. destruct (sto_lease_job _ _ Hok _ _ Hl) as (r2 & Hr2 & Hl2). congruence.
Qed.

Section theorems.
Context {S : Type} `{StateStoreLaws S}.

(** The queue still agrees with the store when a job left both. *)
Lemma queue_agrees_left q st position r u :
  QueueOk q -> queue_agrees q st -> q_entries q !! position = Some (entry_of r) ->
  sj_state u <> kQueued -> forall st', st_jobs st' = <[sj_id r := u]> (st_jobs st) ->
  queue_agrees {| q with q_entries := delete position (q_entries q) |} st'.
Proof.
  intros Hq Hag Hpos Hu st' Hjobs e. simpl. rewrite Hjobs.
  pose proof (delete_Permutation _ _ _ Hpos) as Hp.
  pose proof (qo_ids _ Hq) as Hnd. rewrite Hp in Hnd. apply NoDup_cons in Hnd as [Hnew _].
  destruct (decide (qe_job_id e = sj_id r)) as [Heq|Hne].
  - split.
    + intros Hin. contradict Hnew. simpl. rewrite <- Heq. by apply list_elem_of_fmap_2.
    + intros (r' & Hr' & Hqd & ->). rewrite Heq, lookup_insert_eq in Hr'. by simplify_eq.
  - rewrite lookup_insert_ne by done. rewrite <- (Hag e).
    assert (e ∈ q_entries q <-> e ∈ entry_of r :: delete position (q_entries q)) as ->
      by (split; intros Hin; by rewrite Hp in Hin || rewrite Hp).
    rewrite elem_of_cons. split; [by right|]. intros [->|?]; done.
Qed.

Lemma schedule_step_ok w gpus q s res q' s' :
  SchedOk q s -> schedule_step w gpus q s res q' s' -> SchedOk q' s'.
Proof.
  intros [Hinv Hok Hq Hag] Hstep. destruct Hstep as [| | |res position r d reason s'|res position r d reason s' Hs Hl Hpl];
    [by constructor..| |].
  - match goal with
    | Hv : store_view s' = _, Hc : store_config s' = _ |- _ => constructor; rewrite ?Hv, ?Hc; done
    end.
  - assert (StoreOk (store_config s') (store_view s')) as Hok'
      by (replace (store_config s') with (store_config s); by eapply apply_mutation_preserves).
    constructor; try done.
    + by eapply delete_entry_ok, Hpl.
    + eapply queue_agrees_left; [done|done|apply Hpl|by instantiate (1 := starting_record r)|].
      match goal with Hm : apply_mutation _ _ _ = Ok _ |- _ => apply schedule_mutation_inv in Hm as -> end.
      done.
Qed.
(** ** Properties of the scheduler *)

(** C1. [run_once] refines the abstract scheduling step: on a queue that agrees
    with a well-formed store it always returns (no [at] throws, no empty
    [front]), it takes one of the steps of [schedule_step], the queue and the
    store stay well formed and in agreement, and the outcomes
    QUEUE_STATE_DIVERGED and QUEUE_ROLLBACK_FAILED never occur. *)
Theorem run_once_refines w trigger gpus q s r q' s' :
  SchedOk q s -> run_once w trigger gpus q s = (r, q', s') ->
  SchedOk q' s' /\
  exists res, r = Some res /\ schedule_step w gpus q s res q' s' /\
    sr_code res <> SR_kQueueStateDiverged /\ sr_code res <> SR_kQueueRollbackFailed.
Proof.
  intros Hsc Hrun. destruct (run_once_step _ _ _ _ _ _ _ _ Hsc Hrun) as (res & -> & Hstep).
  split; [by eapply schedule_step_ok|]. exists res. split_and!; try done;
    destruct Hstep as [res Hcase| | | |]; try congruence;
    destruct Hcase as [[? ?]|(? & ? & ?)]; congruence.
Qed.

(** C10. A SCHEDULED result is safe and fair: the job was QUEUED and within the
    scan window, no job ahead of it could have been placed on any device, the
    chosen GPU was observed FREE and held no lease and belongs to the device
    set of a REQUIRED job; afterwards the job is STARTING one revision later
    with the lease on that GPU, every other job and lease is untouched, and the
    queue has lost that one entry. *)
Theorem run_once_scheduled w trigger gpus q s res q' s' :
  SchedOk q s -> run_once w trigger gpus q s = (Some res, q', s') -> sr_code res = SR_kScheduled ->
  exists position r d,
    se_job_id (sr_event res) = Some (sj_id r) /\ se_gpu_uuid (sr_event res) = Some (go_uuid d) /\
    (position < N.to_nat w)%nat /\ q_entries q !! position = Some (entry_of r) /\
    Forall (waits (store_view s) gpus) (take position (q_entries q)) /\
    sj_state r = kQueued /\ can_place (store_view s) gpus r d /\
    store_view s' =
      mkState (st_revision (store_view s) + 1)
        (<[sj_id r := mkStored (sj_id r) (sj_spec r) kStarting 1 (sj_execution r)]>
           (st_jobs (store_view s)))
        (<[go_uuid d := mkLease (go_uuid d) (sj_id r)]> (st_leases (store_view s))) /\
    q_entries q' = delete position (q_entries q).
Proof.
  intros Hsc Hrun Hcode. destruct (run_once_step _ _ _ _ _ _ _ _ Hsc Hrun) as (res' & [= <-] & Hstep).
  destruct Hstep as [res Hcase| | | |res position r d reason s' Hs Hl Hpl _ Hid Huuid _ _ Hmut _ _];
    try congruence; [destruct Hcase as [[? ?]|(? & ? & ?)]; congruence|].
  exists position, r, d. apply schedule_mutation_inv in Hmut.
  destruct Hpl as [Hlt Hent Hjob Hq Hfirst (targets & _ & Hch)].
  apply placement_choice_allows in Hch. split_and!; try done.
  rewrite Hmut. do 2 f_equal. unfold starting_record. simpl.
  rewrite (proj2 (ro_initial _ _ (map_Forall_lookup_1 _ _ _ _ (sto_jobs _ _ (sc_store _ _ Hsc)) Hjob)) Hq).
  done.
Qed.

(** The device choice follows the placement rules: a REQUIRED job gets the
    lowest-index usable device of its set; a PREFERRED job gets its target when
    usable and otherwise the ANY choice; an ANY job gets the lowest-index
    usable device that no waiting REQUIRED job of the window declares, and a
    declared one only when every usable device is declared. *)
Theorem run_once_choice w trigger gpus q s res q' s' :
  SchedOk q s -> run_once w trigger gpus q s = (Some res, q', s') -> sr_code res = SR_kScheduled ->
  exists r d targets,
    se_job_id (sr_event res) = Some (sj_id r) /\ st_jobs (store_view s) !! sj_id r = Some r /\
    se_gpu_uuid (sr_event res) = Some (go_uuid d) /\
    (forall u, u ∈ targets <-> protected (store_view s) (scanned w q) u) /\
    placement_choice (store_view s) gpus targets r d (se_selection_reason (sr_event res)).
Proof.
  intros Hsc Hrun Hcode. destruct (run_once_step _ _ _ _ _ _ _ _ Hsc Hrun) as (res' & [= <-] & Hstep).
  destruct Hstep as [res Hcase| | | |res position r d reason s' Hs Hl Hpl _ Hid Huuid Hreason];
    try congruence; [destruct Hcase as [[? ?]|(? & ? & ?)]; congruence|].
  destruct Hpl as [_ _ Hjob _ _ (targets & Htg & Hch)]. exists r, d, targets. rewrite Hreason.
  done.
Qed.

(** NO_CANDIDATE is complete: it is reported only when no job of the window
    can be placed on any device, the skip list names exactly the jobs of the
    window in order, and queue and store are left as they were. *)
Theorem run_once_no_candidate w trigger gpus q s res q' s' :
  SchedOk q s -> run_once w trigger gpus q s = (Some res, q', s') -> sr_code res = SR_kNoCandidate ->
  q' = q /\ s' = s /\ Forall (waits (store_view s) gpus) (scanned w q) /\
  sk_job <$> ev_skipped (sr_evaluation res) = qe_job_id <$> scanned w q.
Proof.
  intros Hsc Hrun Hcode. destruct (run_once_step _ _ _ _ _ _ _ _ Hsc Hrun) as (res' & [= <-] & Hstep).
  destruct Hstep as [res Hcase| | | |]; try congruence; [|done].
  destruct Hcase as [[? ?]|(? & ? & ?)]; congruence.
Qed.

(** A failed attempt changes nothing: whatever makes [run_once] fail (bad GPU
    snapshot, unreadable store, refused write), the queue is exactly the one
    before, order included, and the stored state is unchanged. *)
Theorem run_once_failure_atomic w trigger gpus q s res q' s' :
  SchedOk q s -> run_once w trigger gpus q s = (Some res, q', s') -> schedule_failed res = true ->
  q' = q /\ store_view s' = store_view s.
Proof.
  intros Hsc Hrun Hfail. destruct (run_once_step _ _ _ _ _ _ _ _ Hsc Hrun) as (res' & [= <-] & Hstep).
  unfold schedule_failed in Hfail. destruct Hstep; try done.
  match goal with Hc : sr_code _ = SR_kScheduled |- _ => by rewrite Hc in Hfail end.
Qed.
End theorems.

(** C40. Progress with the in-memory store: when no failure is injected, the
    revision counter is not exhausted and a lease slot is left, then as soon as
    some job of the window can be placed on some device of a valid snapshot,
    [run_once] schedules a job. *)
Theorem run_once_progress w trigger gpus q (s : InMemoryStateStore) e r d :
  SchedOk q s -> im_failure s = None -> im_next_apply_failure s = None ->
  SnapshotOk gpus -> st_revision (im_state s) <> u64_max ->
  msize (st_leases (im_state s)) < max_leases (im_config s) ->
  e ∈ scanned w q -> st_jobs (im_state s) !! qe_job_id e = Some r -> can_place (im_state s) gpus r d ->
  exists res q' s', run_once w trigger gpus q s = (Some res, q', s') /\ sr_code res = SR_kScheduled.
Proof.
  intros Hsc Hf Hn Hs Hrev Hcap He Hr Hplace.
  destruct (run_once w trigger gpus q s) as [[ores q'] s'] eqn:Hrun.
  destruct (run_once_step _ _ _ _ _ _ _ _ Hsc Hrun) as (res & -> & Hstep).
  exists res, q', s'. split; [done|].
  assert (load_ok (store_load s) = true) as Hload by (simpl; unfold im_load; by rewrite Hf).
  destruct Hstep as [res Hcase|res _ _ _ Hnil|res _ _ _ _ Hw
                    |res position r' d' reason s' _ _ Hpl _ (written & Happ & Hwr)|]; try done.
  - destruct Hcase as [[_ ?]|(_ & _ & ?)]; congruence.
  - unfold scanned in He. rewrite Hnil, take_nil in He. by apply not_elem_of_nil in He.
  - rewrite Forall_forall in Hw. by apply (Hw _ He r d) in Hplace.
  - exfalso. destruct Hpl as [_ _ Hjob Hq _ (targets & _ & Hch)].
    apply placement_choice_allows in Hch as [(Hd & _ & Hfree) _].
    destruct (schedule_mutation_accepted (im_config s) (im_state s) r' d') as [st' Hm]; try done.
    { apply Hsc. } { apply (proj1 (Forall_forall _ _) (sn_uuids _ Hs) _ Hd). }
    simpl in Happ. unfold im_apply in Happ. rewrite Hf, Hn, Hm in Happ. by simplify_eq.
Qed.

(** The reason given to a waiting REQUIRED job: ALLOCATED exactly when some
    device of its set is leased, otherwise EXTERNAL exactly when some device of
    the set is busy with foreign processes, otherwise STATE; the reported
    target is the lowest-index device of the set that is observed at all. *)
Theorem required_wait_reason_spec config st gpus devices :
  StoreOk config st -> SnapshotOk gpus ->
  let '(reason, target) := required_wait_reason gpus (snapshot_of st) devices in
  (reason = WR_kAffinityGpuAllocated <-> exists u, u ∈ devices /\ is_Some (st_leases st !! u)) /\
  (reason = WR_kAffinityGpuExternal <->
     (forall u, u ∈ devices -> st_leases st !! u = None) /\
     exists d, d ∈ gs_devices gpus /\ go_uuid d ∈ devices /\ go_state d = GO_kExternalBusy) /\
  match target with
  | Some u => exists d, go_uuid d = u /\
      least_index (fun d => d ∈ gs_devices gpus /\ go_uuid d ∈ devices) d
  | None => forall d, d ∈ gs_devices gpus -> go_uuid d ∉ devices
  end.
Proof.
  intros Hok Hs. unfold required_wait_reason. rewrite wait_reason_fold, !orb_false_r.
  set (L := existsb (leased (snapshot_of st)) devices).
  assert (L = true <-> exists u, u ∈ devices /\ is_Some (st_leases st !! u)) as HL.
  { unfold L. rewrite existsb_exists. setoid_rewrite <- list_elem_of_In.
    by setoid_rewrite (leased_spec st config Hok). }
  set (X := existsb _ devices).
  assert (X = true <-> exists d, d ∈ gs_devices gpus /\ go_uuid d ∈ devices /\
            go_state d = GO_kExternalBusy) as HX.
  { unfold X. rewrite existsb_exists. setoid_rewrite <- list_elem_of_In. split.
    - intros (u & Hu & Hd). destruct (find_device gpus u) as [d|] eqn:E; [|done].
      apply (find_device_spec gpus u d Hs) in E as [? <-]. apply bool_decide_eq_true in Hd. eauto.
    - intros (d & Hd & Hu & Hb). exists (go_uuid d). split; [done|].
      rewrite (proj2 (find_device_spec gpus (go_uuid d) d Hs)) by done. by apply bool_decide_eq_true. }
  clearbody L X. split_and!.
  - rewrite <- HL. destruct L, X; split; congruence.
  - rewrite <- HX. destruct L.
    + split; [done|]. intros [Hn _]. destruct (proj1 HL eq_refl) as (u & Hu & Hs'%not_eq_None_Some).
      by apply Hn in Hu.
    + assert (forall u, u ∈ devices -> st_leases st !! u = None) as Hn.
      { intros u Hu. apply eq_None_not_Some. intros ?. by discriminate (proj2 HL ltac:(eauto)). }
      destruct X; split; try done. by intros [_ ?].
  - destruct (fold_left _ _ _) as [d|] eqn:Em; simpl.
    + apply min_fold_some in Em as [(u & Hu & Hd) Hmin]. exists d. split; [done|].
      apply (find_device_spec gpus u d Hs) in Hd as [Hd <-]. split; [done|].
      intros d' [Hd' Hu']. eapply Hmin; [exact Hu'|]. by apply find_device_spec.
    + rewrite min_fold_none in Em. intros d Hd Hu. specialize (Em _ Hu).
      by rewrite (proj2 (find_device_spec gpus (go_uuid d) d Hs)) in Em.
Qed.

(** ** Witnesses *)

Definition example_store : InMemoryStateStore := mkInMemory example_config example_state1 None None.
Definition example_fifo : GlobalJobQueue := mkQueue 4 [mkEntry 3 7].
Definition example_gpus (state : GpuObservedState) : GpuObservationSnapshot :=
  mkGpuSnapshot 1 1 [mkObservation "GPU-a" 0 state (mkTelemetry None None None)].

Lemma example_sched_ok next :
  next <> Some SE_kNone -> SchedOk example_fifo {| example_store with im_next_apply_failure := next |}.
Proof.
  intros Hn. constructor; simpl.
  - done.
  - apply example_ok1.
  - constructor; simpl.
    + unfold kMaxCapacity. lia.
    + repeat constructor.
    + apply NoDup_singleton.
    + by repeat constructor.
    + vm_compute. discriminate.
  - intros e. simpl. rewrite list_elem_of_singleton. split.
    + intros ->. exists example_queued. vm_compute. done.
    + intros (r & Hr & _ & ->). apply lookup_singleton_Some in Hr as [_ <-]. done.
Qed.

Lemma example_gpus_ok state : SnapshotOk (example_gpus state).
Proof. apply gpu_valid_iff. by destruct state. Qed.

Lemma run_once_refines_witness :
  SchedOk (run_once 32 ST_kJobSubmitted (example_gpus GO_kFree) example_fifo example_store).1.2
          (run_once 32 ST_kJobSubmitted (example_gpus GO_kFree) example_fifo example_store).2.
Proof.
  refine (proj1 (run_once_refines 32 ST_kJobSubmitted (example_gpus GO_kFree) example_fifo example_store
    (run_once 32 ST_kJobSubmitted (example_gpus GO_kFree) example_fifo example_store).1.1 _ _ _ _)).
  - apply (example_sched_ok None). discriminate.
  - vm_compute. reflexivity.
Defined.

Lemma run_once_scheduled_witness :
  exists res q' s',
    run_once 32 ST_kJobSubmitted (example_gpus GO_kFree) example_fifo example_store = (Some res, q', s') /\
    exists r d, se_job_id (sr_event res) = Some (sj_id r) /\
      can_place (im_state example_store) (example_gpus GO_kFree) r d.
Proof.
  eexists _, _, _. split; [vm_compute; reflexivity|].
  edestruct (run_once_scheduled 32 ST_kJobSubmitted (example_gpus GO_kFree) example_fifo example_store)
    as (position & r & d & Hid & _ & _ & _ & _ & _ & Hplace & _).
  - apply (example_sched_ok None). discriminate.
  - vm_compute. reflexivity.
  - vm_compute. reflexivity.
  - exists r, d. split; [exact Hid|exact Hplace].
Defined.

Lemma run_once_choice_witness :
  exists r d targets,
    placement_choice example_state1 (example_gpus GO_kFree) targets r d GS_kDefault.
Proof.
  edestruct (run_once_choice 32 ST_kJobSubmitted (example_gpus GO_kFree) example_fifo example_store)
    as (r & d & targets & _ & _ & _ & _ & Hch).
  - apply (example_sched_ok None). discriminate.
  - vm_compute. reflexivity.
  - vm_compute. reflexivity.
  - exists r, d, targets. exact Hch.
Defined.

Lemma run_once_no_candidate_witness :
  Forall (waits example_state1 (example_gpus GO_kExternalBusy)) (scanned 32 example_fifo).
Proof.
  edestruct (run_once_no_candidate 32 ST_kJobSubmitted (example_gpus GO_kExternalBusy) example_fifo
               example_store) as (_ & _ & Hwait & _).
  - apply (example_sched_ok None). discriminate.
  - vm_compute. reflexivity.
  - vm_compute. reflexivity.
  - exact Hwait.
Defined.

Lemma run_once_failure_atomic_witness :
  (run_once 32 ST_kJobSubmitted (example_gpus GO_kFree) example_fifo
     {| example_store with im_next_apply_failure := Some SE_kBackendUnavailable |}).1.2 = example_fifo.
Proof.
  edestruct (run_once_failure_atomic 32 ST_kJobSubmitted (example_gpus GO_kFree) example_fifo
     {| example_store with im_next_apply_failure := Some SE_kBackendUnavailable |}) as [Hq _].
  - apply example_sched_ok. discriminate.
  - vm_compute. reflexivity.
  - vm_compute. reflexivity.
  - exact Hq.
Defined.

Lemma run_once_progress_witness :
  exists res q' s',
    run_once 32 ST_kGpuStateChanged (example_gpus GO_kFree) example_fifo example_store =
      (Some res, q', s') /\ sr_code res = SR_kScheduled.
Proof.
  apply (run_once_progress 32 ST_kGpuStateChanged (example_gpus GO_kFree) example_fifo example_store
           (mkEntry 3 7) example_queued (mkObservation "GPU-a" 0 GO_kFree (mkTelemetry None None None))).
  - apply (example_sched_ok None). discriminate.
  - reflexivity.
  - reflexivity.
  - apply example_gpus_ok.
  - vm_compute. discriminate.
  - vm_compute. reflexivity.
  - vm_compute. left.
  - vm_compute. reflexivity.
  - split; [|discriminate]. split; [left|]. split; vm_compute; reflexivity.
Defined.

Lemma required_wait_reason_spec_witness :
  exists u, u ∈ ["GPU-a"] /\ is_Some (st_leases example_state2 !! u).
Proof.
  pose proof (required_wait_reason_spec example_config example_state2 (example_gpus GO_kFree) ["GPU-a"]) as Hw.
  apply Hw.
  - apply store_reachable_inv, example_reachable2.
  - apply example_gpus_ok.
  - vm_compute. reflexivity.
Defined.
