(* ===== verification/Recovery.v ===== *)
(** * Restart recovery: [include/yori/recovery/job_recovery.hpp],
    [src/recovery/job_recovery.cpp]

    After a daemon restart every stored job is adopted, declared LOST or left
    alone; the decisions are written in chunks of at most 64 entries, each LOST
    job together with the release of its lease, and the queue is rebuilt.
    [recovered] is the record each job is meant to end with; the theorems relate
    the chunked writes to it.  The readings of [/proc] are parameters of the
    verifier, and the clock reading of [plan] is the argument [now]. *)

From S2P Require Import Prelude.
From S2P Require Import Job.
From S2P Require Import Gpu.
From S2P Require Import Store.
From S2P Require Import Queue.
From S2P Require Import Scheduler.

(** ** Data *)

Inductive RecoveryDecisionCode :=
| RD_kAdoptedRunning
| RD_kAdoptedPromotedToRunning
| RD_kAdoptedStoppingNeedsRecancel
| RD_kQueuedRestored
| RD_kLostProcessGone
| RD_kLostIdentityMismatch
| RD_kLostIdentityMissing
| RD_kTerminalUntouched.

#[export] Instance RecoveryDecisionCode_eq_dec : EqDecision RecoveryDecisionCode.
Proof. solve_decision. Defined.

Record RecoveryJobOutcome := mkOutcome {
  ro_job_id : JobId;
  ro_previous_state : JobState;
  ro_decision : RecoveryDecisionCode;
  ro_released_gpu : option GpuUuid;
}.

Inductive IdentityVerification := IV_kVerified | IV_kProcessGone | IV_kMismatch.

#[export] Instance IdentityVerification_eq_dec : EqDecision IdentityVerification.
Proof. solve_decision. Defined.

Record RecoveryMutationEntry := mkRecoveryEntry {
  re_update_job : StoredJob;
  re_release_gpu : option GpuUuid;
}.

Record RecoveryPlan := mkPlan {
  rp_outcomes : list RecoveryJobOutcome;
  rp_mutations : list RecoveryMutationEntry;
}.

Inductive RecoveryErrorCode :=
| RC_kNone | RC_kStoreLoadFailed | RC_kStoreWriteFailed | RC_kQueueRestoreFailed.

#[export] Instance RecoveryErrorCode_eq_dec : EqDecision RecoveryErrorCode.
Proof. solve_decision. Defined.

Record RecoveryResult := mkRecoveryResult {
  rr_code : RecoveryErrorCode;
  rr_outcomes : list RecoveryJobOutcome;
  rr_store_error : StateStoreErrorCode;
  rr_queue_error : QueueErrorCode;
  rr_store_revision : N;
}.

(** [RecoveryResult::ok] *)
Definition recovery_ok (r : RecoveryResult) : bool := bool_decide (rr_code r = RC_kNone).

(** [to_string] and [recovery_failure_reason] *)
Definition RecoveryDecisionCode_to_string (code : RecoveryDecisionCode) : string :=
  match code with
  | RD_kAdoptedRunning => "ADOPTED_RUNNING"
  | RD_kAdoptedPromotedToRunning => "ADOPTED_PROMOTED_TO_RUNNING"
  | RD_kAdoptedStoppingNeedsRecancel => "ADOPTED_STOPPING_NEEDS_RECANCEL"
  | RD_kQueuedRestored => "QUEUED_RESTORED"
  | RD_kLostProcessGone => "LOST_PROCESS_GONE"
  | RD_kLostIdentityMismatch => "LOST_IDENTITY_MISMATCH"
  | RD_kLostIdentityMissing => "LOST_IDENTITY_MISSING"
  | RD_kTerminalUntouched => "TERMINAL_UNTOUCHED"
  end.

Definition recovery_failure_reason (code : RecoveryDecisionCode) : string :=
  match code with
  | RD_kLostProcessGone => "recovery: process gone before or during daemon restart"
  | RD_kLostIdentityMismatch => "recovery: pid reused by another process (pgid/start ticks mismatch)"
  | RD_kLostIdentityMissing => "recovery: active job without recorded process identity"
  | _ => ""
  end.

Definition IdentityVerification_to_string (v : IdentityVerification) : string :=
  match v with
  | IV_kVerified => "VERIFIED"
  | IV_kProcessGone => "PROCESS_GONE"
  | IV_kMismatch => "MISMATCH"
  end.

Definition RecoveryErrorCode_to_string (code : RecoveryErrorCode) : string :=
  match code with
  | RC_kNone => "NONE"
  | RC_kStoreLoadFailed => "STORE_LOAD_FAILED"
  | RC_kStoreWriteFailed => "STORE_WRITE_FAILED"
  | RC_kQueueRestoreFailed => "QUEUE_RESTORE_FAILED"
  end.

(** ** Operations *)

Definition is_active (s : JobState) : bool :=
  match s with kStarting | kRunning | kStopping => true | _ => false end.

Definition find_lease_gpu (snapshot : StateSnapshot) (id : JobId) : option GpuUuid :=
  lease_gpu_uuid <$> find_first (fun l => lease_job_id l =? id) (ss_leases snapshot).

(** [verify_identity_via_proc], over the two [/proc] readings. *)
Definition verify_identity_via_proc (read_process_start_ticks : Z -> option N)
    (read_process_pgid : Z -> option Z) (identity : ProcessIdentity) : IdentityVerification :=
  if negb (identity_valid identity) then IV_kMismatch
  else
    match read_process_start_ticks (pi_pid identity) with
    | None => IV_kProcessGone
    | Some live_ticks =>
        if negb (live_ticks =? pi_start_ticks identity) then IV_kMismatch
        else
          match read_process_pgid (pi_pid identity) with
          | None => IV_kProcessGone
          | Some live_pgid =>
              if negb (live_pgid =? pi_pgid identity)%Z then IV_kMismatch else IV_kVerified
          end
    end.

(** The decision of [plan] for one job. *)
Definition decide_job (verifier : ProcessIdentity -> IdentityVerification) (record : StoredJob)
  : RecoveryDecisionCode :=
  if negb (is_active (sj_state record)) then
    if bool_decide (sj_state record = kQueued) then RD_kQueuedRestored else RD_kTerminalUntouched
  else if negb (has_identity (sj_execution record)) then RD_kLostIdentityMissing
  else
    match verifier (xr_identity (sj_execution record)) with
    | IV_kVerified =>
        match sj_state record with
        | kStarting => RD_kAdoptedPromotedToRunning
        | kStopping => RD_kAdoptedStoppingNeedsRecancel
        | _ => RD_kAdoptedRunning
        end
    | IV_kProcessGone => RD_kLostProcessGone
    | IV_kMismatch => RD_kLostIdentityMismatch
    end.

Definition decision_lost (code : RecoveryDecisionCode) : bool :=
  match code with
  | RD_kLostProcessGone | RD_kLostIdentityMismatch | RD_kLostIdentityMissing => true
  | _ => false
  end.

(** [promoted] *)
Definition promoted_record (record : StoredJob) : StoredJob :=
  {| record with sj_state := kRunning; sj_revision := uadd64 (sj_revision record) 1 |}.

(** [lost] *)
Definition lost_record (now : Z) (code : RecoveryDecisionCode) (record : StoredJob) : StoredJob :=
  let execution := sj_execution record in
  {| record with
     sj_state := kLost;
     sj_revision := uadd64 (sj_revision record) 1;
     sj_execution := {| execution with
                        xr_failure_reason := Some (recovery_failure_reason code);
                        xr_end_time := Some now |} |}.

(** One iteration of the loop of [plan]. *)
Definition plan_job (now : Z) (verifier : ProcessIdentity -> IdentityVerification)
    (snapshot : StateSnapshot) (record : StoredJob)
  : RecoveryJobOutcome * option RecoveryMutationEntry :=
  let decision := decide_job verifier record in
  let outcome := mkOutcome (sj_id record) (sj_state record) decision None in
  let leased_gpu := find_lease_gpu snapshot (sj_id record) in
  if bool_decide (decision = RD_kAdoptedPromotedToRunning) then
    (outcome, Some (mkRecoveryEntry (promoted_record record) None))
  else if decision_lost decision then
    ({| outcome with ro_released_gpu := leased_gpu |},
     Some (mkRecoveryEntry (lost_record now decision record) leased_gpu))
  else (outcome, None).

(** [JobRecovery::plan] *)
Definition plan (now : Z) (verifier : ProcessIdentity -> IdentityVerification)
    (snapshot : StateSnapshot) : RecoveryPlan :=
  let planned := plan_job now verifier snapshot <$> ss_jobs snapshot in
  mkPlan planned.*1 (omap id planned.*2).

Section recover.
Context {S : Type} `{StateStore S}.

(** [flush_chunk]: the chunk, the expected revision and the store afterwards,
    or the failed write. *)
Definition flush_chunk (chunk : StateMutation) (expected_revision : N) (s : S)
  : Result StateStoreWriteResult (StateMutation * N) * S :=
  if entry_count chunk =? 0 then (Ok (chunk, expected_revision), s)
  else
    let chunk := {| chunk with mu_expected_revision := expected_revision |} in
    let '(written, s') := store_apply chunk s in
    if negb (write_ok written) then (Err written, s')
    else (Ok (empty_mutation, wr_revision written), s').

(** [chunk.update_jobs.push_back], [chunk.release_leases.push_back] *)
Definition push_entry (chunk : StateMutation) (entry : RecoveryMutationEntry) : StateMutation :=
  {| chunk with
     mu_update_jobs := mu_update_jobs chunk ++ [re_update_job entry];
     mu_release_leases := mu_release_leases chunk ++ option_list (re_release_gpu entry) |}.

Definition entries_needed (entry : RecoveryMutationEntry) : N :=
  match re_release_gpu entry with Some _ => 2 | None => 1 end.

(** The loop over the planned mutations. *)
Fixpoint write_entries (entries : list RecoveryMutationEntry) (chunk : StateMutation)
    (expected_revision : N) (s : S) : Result StateStoreWriteResult N * S :=
  match entries with
  | [] =>
      let '(r, s') := flush_chunk chunk expected_revision s in
      (result_bind r (fun p => Ok p.2), s')
  | entry :: rest =>
      if StateMutation_kMaxEntries <? entry_count chunk + entries_needed entry then
        match flush_chunk chunk expected_revision s with
        | (Err written, s') => (Err written, s')
        | (Ok (chunk', revision'), s') => write_entries rest (push_entry chunk' entry) revision' s'
        end
      else write_entries rest (push_entry chunk entry) expected_revision s
  end.

(** [JobRecovery::recover] *)
Definition recover (now : Z) (verifier : ProcessIdentity -> IdentityVerification)
    (q : GlobalJobQueue) (s : S) : RecoveryResult * GlobalJobQueue * S :=
  let loaded := store_load s in
  if negb (load_ok loaded) then
    (mkRecoveryResult RC_kStoreLoadFailed [] (lr_code loaded) QE_kNone 0, q, s)
  else
    let recovery_plan := plan now verifier (lr_snapshot loaded) in
    let outcomes := rp_outcomes recovery_plan in
    match write_entries (rp_mutations recovery_plan) empty_mutation
            (ss_revision (lr_snapshot loaded)) s with
    | (Err written, s') =>
        (mkRecoveryResult RC_kStoreWriteFailed outcomes (wr_code written) QE_kNone
           (wr_revision written), q, s')
    | (Ok expected_revision, s') =>
        let '(restored, q') := queue_restore (lr_snapshot loaded) q in
        if negb (queue_ok restored) then
          (mkRecoveryResult RC_kQueueRestoreFailed outcomes SE_kNone (qr_code restored) 0, q', s')
        else (mkRecoveryResult RC_kNone outcomes SE_kNone QE_kNone expected_revision, q', s')
    end.
End recover.

(** ** Specification *)

(** The record a job ends recovery with. *)
Definition recovered (now : Z) (verifier : ProcessIdentity -> IdentityVerification) (r : StoredJob)
  : StoredJob :=
  let decision := decide_job verifier r in
  if bool_decide (decision = RD_kAdoptedPromotedToRunning) then promoted_record r
  else if decision_lost decision then lost_record now decision r
  else r.

(** Does recovery write this job at all? *)
Definition rewrites (verifier : ProcessIdentity -> IdentityVerification) (r : StoredJob) : bool :=
  bool_decide (decide_job verifier r = RD_kAdoptedPromotedToRunning)
  || decision_lost (decide_job verifier r).

Definition entry_id (e : RecoveryMutationEntry) : JobId := sj_id (re_update_job e).

(** The effect of a list of planned entries, apart from the chunks they are
    written in. *)
Definition entry_jobs (entries : list RecoveryMutationEntry) (jobs : gmap JobId StoredJob)
  : gmap JobId StoredJob :=
  fold_left (fun m e => <[entry_id e := re_update_job e]> m) entries jobs.

Definition entry_leases (entries : list RecoveryMutationEntry) (leases : gmap GpuUuid GpuLease)
  : gmap GpuUuid GpuLease :=
  fold_left (fun m e => match re_release_gpu e with Some u => delete u m | None => m end) entries leases.

Definition chunk_of (entries : list RecoveryMutationEntry) : StateMutation :=
  {| empty_mutation with
     mu_update_jobs := re_update_job <$> entries;
     mu_release_leases := omap re_release_gpu entries |}.

(** ** Chunked writes *)

Lemma omap_snoc {A B} (f : A -> option B) (l : list A) x : omap f (l ++ [x]) = omap f l ++ option_list (f x).
Proof. rewrite omap_app. simpl. by destruct (f x). Qed.

Lemma omap_cons {A B} (f : A -> option B) x l : omap f (x :: l) = option_list (f x) ++ omap f l.
Proof. simpl. by destruct (f x). Qed.

Lemma len_omap_le {A B} (f : A -> option B) (l : list A) : len (omap f l) <= len l.
Proof.
  induction l as [|x l IH]; [done|]. rewrite omap_cons, len_app, len_cons.
  destruct (f x); simpl; rewrite ?len_cons, ?len_nil; lia.
Qed.

Lemma omap_id_fmap {A B} (f : A -> option B) (l : list A) : omap id (f <$> l) = omap f l.
Proof. induction l as [|x l IH]; [done|]. by rewrite fmap_cons, !omap_cons, IH. Qed.

Lemma NoDup_omap {A B} (f : A -> option B) (l : list A) :
  (forall x y b, x ∈ l -> y ∈ l -> f x = Some b -> f y = Some b -> x = y) -> NoDup l -> NoDup (omap f l).
Proof.
  induction l as [|x l IH]; intros Hinj Hnd; [constructor|]. apply NoDup_cons in Hnd as [Hx Hnd].
  assert (NoDup (omap f l)) as Hl.
  { apply IH; [|done]. intros y z b Hy Hz. apply Hinj; by right. }
  rewrite omap_cons. destruct (f x) as [b|] eqn:E; simpl; [|done]. constructor; [|done].
  intros (y & Hy & Hb)%list_elem_of_omap. apply Hx.
  rewrite (Hinj x y b); [done|left|by right|done..].
Qed.

Lemma push_entry_chunk entries e : push_entry (chunk_of entries) e = chunk_of (entries ++ [e]).
Proof. unfold push_entry, chunk_of. simpl. by rewrite fmap_app, omap_snoc. Qed.

(** Saturation apart, [entry_count] is the number of entries. *)
Lemma entry_count_spec m :
  entry_count m =
  N.min (StateMutation_kMaxEntries + 1)
    (len (mu_create_jobs m) + len (mu_update_jobs m) + len (mu_acquire_leases m)
     + len (mu_release_leases m)).
Proof. unfold entry_count, StateMutation_kMaxEntries. repeat (case_match; reflect_bools); lia. Qed.

Lemma entry_count_chunk entries :
  entry_count (chunk_of entries) =
  N.min (StateMutation_kMaxEntries + 1) (sum_sizes entries_needed entries).
Proof.
  rewrite entry_count_spec. f_equal. simpl. rewrite len_nil, N.add_0_r.
  induction entries as [|e entries IH]; [done|]. cbn [sum_sizes]. rewrite <- IH.
  unfold entries_needed. simpl.
  change (list_fmap _ _ re_update_job entries) with (re_update_job <$> entries).
  change (list_omap _ _ re_release_gpu entries) with (omap re_release_gpu entries).
  destruct (re_release_gpu e); rewrite ?len_cons; lia.
Qed.

Lemma entry_count_chunk_zero entries : entry_count (chunk_of entries) = 0 <-> entries = [].
Proof.
  rewrite entry_count_chunk. destruct entries as [|e entries]; [done|]. split; [|done].
  simpl. unfold entries_needed at 1, StateMutation_kMaxEntries. case_match; lia.
Qed.

Lemma updates_fold jobs records jobs' :
  fold_result update_job jobs records = Ok jobs' ->
  jobs' = fold_left (fun m r => <[sj_id r := r]> m) records jobs.
Proof.
  revert jobs. induction records as [|r records IH]; intros jobs Hf; simpl in *; [by simplify_eq|].
  apply result_bind_ok in Hf as (jobs1 & Hu & Hf). apply update_job_ok in Hu as [-> _]. by apply IH.
Qed.

Lemma releases_fold leases uuids leases' :
  fold_result release_lease leases uuids = Ok leases' ->
  leases' = fold_left (fun m u => delete u m) uuids leases.
Proof.
  revert leases. induction uuids as [|u uuids IH]; intros leases Hf; simpl in *; [by simplify_eq|].
  apply result_bind_ok in Hf as (leases1 & Hr & Hf). apply release_lease_ok in Hr as [-> _]. by apply IH.
Qed.

Lemma entry_jobs_fold entries jobs :
  entry_jobs entries jobs =
  fold_left (fun m r => <[sj_id r := r]> m) (re_update_job <$> entries) jobs.
Proof. revert jobs. induction entries as [|e entries IH]; intros jobs; simpl; [done|]. apply IH. Qed.

Lemma entry_leases_fold entries leases :
  entry_leases entries leases =
  fold_left (fun m u => delete u m) (omap re_release_gpu entries) leases.
Proof.
  revert leases. induction entries as [|e entries IH]; intros leases; simpl; [done|].
  destruct (re_release_gpu e); simpl; apply IH.
Qed.

Lemma chunk_mutation_effect config st rev entries st' :
  let chunk := chunk_of entries in
  apply_mutation config st {| chunk with mu_expected_revision := rev |} = Ok st' ->
  st_jobs st' = entry_jobs entries (st_jobs st) /\
  st_leases st' = entry_leases entries (st_leases st).
Proof.
  intros chunk (_ & _ & _ & _ & jobs1 & leases1 & Hc & Hu & Hr & Ha & _)%apply_mutation_inv.
  simpl in Hc, Hu, Hr, Ha. simplify_eq. rewrite entry_jobs_fold, entry_leases_fold.
  split; [by apply updates_fold|by apply releases_fold].
Qed.

Section writes.
Context {S : Type} `{StateStoreLaws S}.

(** [s'] is [s] with [entries] applied, however they were chunked. *)
Record EntriesApplied (entries : list RecoveryMutationEntry) (s s' : S) : Prop := {
  ea_inv : store_inv s';
  ea_config : store_config s' = store_config s;
  ea_ok : StoreOk (store_config s) (store_view s');
  ea_jobs : st_jobs (store_view s') = entry_jobs entries (st_jobs (store_view s));
  ea_leases : st_leases (store_view s') = entry_leases entries (st_leases (store_view s));
  ea_revision : st_revision (store_view s) <= st_revision (store_view s');
}.

Lemma EntriesApplied_trans e1 e2 s s1 s2 :
  EntriesApplied e1 s s1 -> EntriesApplied e2 s1 s2 -> EntriesApplied (e1 ++ e2) s s2.
Proof.
  intros [_ Hc1 _ Hj1 Hl1 Hr1] [Hi2 Hc2 Hok2 Hj2 Hl2 Hr2]. rewrite Hc1 in *. constructor; try done; [..|lia].
  - rewrite Hj2, Hj1. unfold entry_jobs. by rewrite fold_left_app.
  - rewrite Hl2, Hl1. unfold entry_leases. by rewrite fold_left_app.
Qed.

Lemma flush_chunk_spec pending s r s' :
  store_inv s -> StoreOk (store_config s) (store_view s) ->
  flush_chunk (chunk_of pending) (st_revision (store_view s)) s = (r, s') ->
  match r with
  | Ok (chunk, rev) =>
      chunk = chunk_of [] /\ rev = st_revision (store_view s') /\ EntriesApplied pending s s'
  | Err written => write_ok written = false /\ EntriesApplied [] s s'
  end.
Proof.
  intros Hinv Hok. unfold flush_chunk.
  destruct (N.eqb_spec (entry_count (chunk_of pending)) 0) as [Hz|Hnz].
  { apply entry_count_chunk_zero in Hz as ->. by intros [= <- <-]. }
  destruct (store_apply _ s) as [written s1] eqn:Happ.
  destruct (store_apply_keeps _ _ _ _ Hinv Happ) as [Hinv' Hcfg].
  destruct (write_ok written) eqn:Hw; simpl; intros [= <- <-].
  - destruct (store_apply_ok _ _ _ _ Hinv Happ Hw) as [Hmut Hrev].
    split_and!; [done..|]. destruct (chunk_mutation_effect _ _ _ _ _ Hmut) as [Hj Hl].
    constructor; try done; [by eapply apply_mutation_preserves|].
    apply apply_mutation_inv in Hmut as (_ & _ & _ & -> & _). lia.
  - pose proof (store_apply_err _ _ _ _ Hinv Happ Hw) as Hv. split; [done|].
    constructor; try done; by rewrite Hv.
Qed.

Lemma write_entries_spec entries pending s r s' :
  store_inv s -> StoreOk (store_config s) (store_view s) ->
  write_entries entries (chunk_of pending) (st_revision (store_view s)) s = (r, s') ->
  match r with
  | Ok rev => rev = st_revision (store_view s') /\ EntriesApplied (pending ++ entries) s s'
  | Err written =>
      write_ok written = false /\ exists k, EntriesApplied (take k (pending ++ entries)) s s'
  end.
Proof.
  revert pending s. induction entries as [|e entries IH]; intros pending s Hinv Hok Hrun; simpl in Hrun.
  - destruct (flush_chunk _ _ _) as [r1 s1] eqn:Hfl. simplify_eq.
    apply flush_chunk_spec in Hfl; [|done..]. rewrite app_nil_r.
    destruct r1 as [[chunk rev]|written]; simpl.
    + by destruct Hfl as (_ & ? & ?).
    + destruct Hfl as [? ?]. split; [done|]. by exists 0%nat.
  - destruct (_ <? _).
    + destruct (flush_chunk _ _ _) as [r1 s1] eqn:Hfl. apply flush_chunk_spec in Hfl; [|done..].
      destruct r1 as [[chunk rev]|written].
      * destruct Hfl as (-> & -> & Hap). rewrite push_entry_chunk in Hrun. simpl in Hrun.
        pose proof (ea_config _ _ _ Hap) as Hc.
        apply IH in Hrun; [|apply Hap|rewrite Hc; apply Hap].
        destruct r as [rev'|written].
        -- destruct Hrun as [? Hap2]. split; [done|].
           apply (EntriesApplied_trans _ _ _ _ _ Hap Hap2).
        -- destruct Hrun as (? & k & Hap2). split; [done|].
           exists (length pending + k)%nat. rewrite take_app_add.
           apply (EntriesApplied_trans _ _ _ _ _ Hap Hap2).
      * simplify_eq. destruct Hfl as [? ?]. split; [done|]. by exists 0%nat.
    + rewrite push_entry_chunk in Hrun. apply IH in Hrun; [|done..].
      by rewrite <- app_assoc in Hrun.
Qed.
End writes.

(** ** The plan *)

Section plan.
Variables (now : Z) (verifier : ProcessIdentity -> IdentityVerification).
Variables (config : ValidationConfig) (st : StoreState).
Hypothesis Hok : StoreOk config st.

Definition plan_entries : list RecoveryMutationEntry := rp_mutations (plan now verifier (snapshot_of st)).

Lemma plan_entries_omap :
  plan_entries = omap (fun r => (plan_job now verifier (snapshot_of st) r).2) (map_values (st_jobs st)).
Proof.
  unfold plan_entries, plan. simpl. rewrite <- list_fmap_compose. apply omap_id_fmap.
Qed.

Lemma recovered_id r : sj_id (recovered now verifier r) = sj_id r.
Proof. unfold recovered. by repeat case_match. Qed.

Lemma plan_job_entry r e :
  (plan_job now verifier (snapshot_of st) r).2 = Some e <->
  rewrites verifier r = true /\
  e = mkRecoveryEntry (recovered now verifier r)
        (if decision_lost (decide_job verifier r) then find_lease_gpu (snapshot_of st) (sj_id r)
         else None).
Proof.
  unfold plan_job, rewrites, recovered. case_bool_decide as Hp.
  - rewrite Hp. simpl. naive_solver.
  - destruct (decision_lost _); simpl; naive_solver.
Qed.

Lemma elem_of_plan_entries e :
  e ∈ plan_entries <->
  exists r, st_jobs st !! sj_id r = Some r /\ (plan_job now verifier (snapshot_of st) r).2 = Some e.
Proof.
  rewrite plan_entries_omap, list_elem_of_omap. by setoid_rewrite (elem_of_jobs _ _ _ Hok).
Qed.

Lemma plan_entries_ids :
  entry_id <$> plan_entries =
  sj_id <$> filter (fun r => rewrites verifier r = true) (map_values (st_jobs st)).
Proof.
  rewrite plan_entries_omap. induction (map_values (st_jobs st)) as [|r l IH]; [done|].
  rewrite filter_cons, omap_cons, fmap_app, IH.
  destruct (plan_job now verifier (snapshot_of st) r).2 as [e|] eqn:E.
  - apply plan_job_entry in E as [Hr ->]. rewrite decide_True by done. simpl.
    f_equal. unfold entry_id. simpl. apply recovered_id.
  - rewrite decide_False; [done|]. intros Hr.
    pose proof (proj2 (plan_job_entry r _) (conj Hr eq_refl)) as Hs. congruence.
Qed.

Lemma plan_entries_nodup : NoDup (entry_id <$> plan_entries).
Proof. rewrite plan_entries_ids. apply NoDup_fmap_filter, (map_values_ids_nodup _ _ Hok). Qed.

(** The lease found for an active job is the one it holds. *)
Lemma find_lease_spec id u :
  find_lease_gpu (snapshot_of st) id = Some u <->
  exists l, st_leases st !! u = Some l /\ lease_job_id l = id.
Proof.
  unfold find_lease_gpu. simpl. split.
  - destruct (find_first _ _) as [l|] eqn:E; simpl; intros [= <-].
    apply find_first_some in E as [Hl Hj%N.eqb_eq]. apply elem_of_map_values in Hl as [k Hk].
    destruct (sto_lease_key _ _ Hok _ _ Hk) as [-> _]. eauto.
  - intros (l & Hl & Hj). destruct (find_first _ _) as [l'|] eqn:E; simpl.
    + apply find_first_some in E as [Hl' Hj'%N.eqb_eq]. apply elem_of_map_values in Hl' as [k Hk].
      destruct (sto_lease_key _ _ Hok _ _ Hk) as [-> _]. f_equal.
      eapply (sto_lease_unique _ _ Hok); eauto. congruence.
    + apply (find_first_none _ _ l) in E; [|by apply elem_of_map_values; eauto].
      apply N.eqb_neq in E. congruence.
Qed.
End plan.

Lemma entry_jobs_other entries jobs id :
  id ∉ entry_id <$> entries -> entry_jobs entries jobs !! id = jobs !! id.
Proof.
  revert jobs. induction entries as [|e entries IH]; intros jobs Hid; [done|].
  rewrite fmap_cons in Hid. apply not_elem_of_cons in Hid as [Hne Hid]. simpl.
  unfold entry_jobs in IH. rewrite IH by done. by apply lookup_insert_ne.
Qed.

Lemma entry_jobs_hit entries jobs e :
  NoDup (entry_id <$> entries) -> e ∈ entries ->
  entry_jobs entries jobs !! entry_id e = Some (re_update_job e).
Proof.
  revert jobs. induction entries as [|e' entries IH]; intros jobs Hnd He; [by apply not_elem_of_nil in He|].
  rewrite fmap_cons in Hnd. apply NoDup_cons in Hnd as [Hne Hnd]. simpl.
  apply elem_of_cons in He as [->|He]; [|by apply IH].
  change (fold_left _ entries ?m) with (entry_jobs entries m).
  rewrite entry_jobs_other by done. apply lookup_insert_eq.
Qed.

Lemma entry_leases_lookup entries leases u :
  entry_leases entries leases !! u =
  if bool_decide (u ∈ omap re_release_gpu entries) then None else leases !! u.
Proof.
  rewrite entry_leases_fold. generalize (omap re_release_gpu entries). intros l.
  revert leases. induction l as [|v l IH]; intros leases; [done|]. simpl. rewrite IH.
  destruct (decide (u ∈ l)) as [Hin|Hin].
  - rewrite !bool_decide_eq_true_2; [done|by right|done].
  - rewrite (bool_decide_eq_false_2 (u ∈ l)) by done.
    destruct (decide (u = v)) as [->|Hne].
    + rewrite bool_decide_eq_true_2 by left. apply lookup_delete_eq.
    + rewrite bool_decide_eq_false_2 by (rewrite elem_of_cons; tauto).
      by apply lookup_delete_ne.
Qed.

Section effects.
Variables (now : Z) (verifier : ProcessIdentity -> IdentityVerification).
Variables (config : ValidationConfig) (st : StoreState).
Hypothesis Hok : StoreOk config st.

Let entries := plan_entries now verifier st.

Lemma recovered_same r : rewrites verifier r = false -> recovered now verifier r = r.
Proof.
  unfold rewrites, recovered. intros [Hp Hl]%orb_false_iff. by rewrite Hp, Hl.
Qed.

(** A prefix of the plan leaves every job in its old or in its final version. *)
Lemma prefix_jobs k id :
  match st_jobs st !! id with
  | None => entry_jobs (take k entries) (st_jobs st) !! id = None
  | Some r =>
      entry_jobs (take k entries) (st_jobs st) !! id = Some r \/
      rewrites verifier r = true /\
      entry_jobs (take k entries) (st_jobs st) !! id = Some (recovered now verifier r)
  end.
Proof.
  assert (NoDup (entry_id <$> take k entries)) as Hnd.
  { pose proof (plan_entries_nodup now verifier config st Hok) as Hnd. fold entries in Hnd.
    rewrite <- (take_drop k entries), fmap_app in Hnd. by apply NoDup_app in Hnd as [? _]. }
  destruct (decide (id ∈ entry_id <$> take k entries)) as [Hin|Hout].
  2: { rewrite entry_jobs_other by done. destruct (st_jobs st !! id); auto. }
  apply list_elem_of_fmap in Hin as (e & -> & He).
  rewrite (entry_jobs_hit _ _ _ Hnd He).
  assert (e ∈ entries) as (r & Hr & He')%(elem_of_plan_entries _ _ _ _ Hok).
  { rewrite <- (take_drop k entries). apply elem_of_app. by left. }
  apply plan_job_entry in He' as [Hrw ->]. unfold entry_id. simpl. rewrite recovered_id, Hr.
  by right.
Qed.

Lemma full_jobs id :
  entry_jobs entries (st_jobs st) !! id = recovered now verifier <$> st_jobs st !! id.
Proof.
  pose proof (plan_entries_nodup now verifier config st Hok) as Hnd. fold entries in Hnd.
  destruct (st_jobs st !! id) as [r|] eqn:Hr; simpl.
  - pose proof (ro_id _ _ (map_Forall_lookup_1 _ _ _ _ (sto_jobs _ _ Hok) Hr)) as Hid.
    destruct (rewrites verifier r) eqn:Hrw.
    + pose proof (proj2 (plan_job_entry now verifier st r _) (conj Hrw eq_refl)) as He.
      set (e := mkRecoveryEntry _ _) in He.
      assert (e ∈ entries) as Hin by (apply (elem_of_plan_entries _ _ _ _ Hok); exists r; by rewrite Hid).
      pose proof (entry_jobs_hit _ (st_jobs st) _ Hnd Hin) as Hhit.
      unfold entry_id, e in Hhit. simpl in Hhit. by rewrite recovered_id, Hid in Hhit.
    + rewrite recovered_same by done. rewrite entry_jobs_other; [done|].
      intros (e & -> & (r' & Hr' & He)%(elem_of_plan_entries _ _ _ _ Hok))%list_elem_of_fmap.
      apply plan_job_entry in He as [Hrw' ->]. unfold entry_id in Hr. simpl in Hr.
      rewrite recovered_id, Hr' in Hr. congruence.
  - pose proof (prefix_jobs (length entries) id) as Hp. rewrite Hr, take_ge in Hp by lia. done.
Qed.

Lemma released_spec u :
  u ∈ omap re_release_gpu entries <->
  exists l r, st_leases st !! u = Some l /\ st_jobs st !! lease_job_id l = Some r /\
    decision_lost (decide_job verifier r) = true.
Proof.
  rewrite list_elem_of_omap. split.
  - intros (e & (r & Hr & He)%(elem_of_plan_entries _ _ _ _ Hok) & Hrel).
    apply plan_job_entry in He as [Hrw ->]. simpl in Hrel.
    destruct (decision_lost _) eqn:Hl; [|done].
    apply (find_lease_spec config st Hok) in Hrel as (l & Hl' & Hj). exists l, r. by rewrite Hj.
  - intros (l & r & Hl & Hr & Hd).
    pose proof (ro_id _ _ (map_Forall_lookup_1 _ _ _ _ (sto_jobs _ _ Hok) Hr)) as Hid.
    assert (rewrites verifier r = true) as Hrw by (unfold rewrites; rewrite Hd; apply orb_true_r).
    pose proof (proj2 (plan_job_entry now verifier st r _) (conj Hrw eq_refl)) as He.
    eexists. split; [apply (elem_of_plan_entries _ _ _ _ Hok); exists r; by rewrite Hid|].
    simpl. rewrite Hd, Hid. apply (find_lease_spec config st Hok). eauto.
Qed.

Lemma full_leases u l :
  entry_leases entries (st_leases st) !! u = Some l <->
  st_leases st !! u = Some l /\
  exists r, st_jobs st !! lease_job_id l = Some r /\ decision_lost (decide_job verifier r) = false.
Proof.
  rewrite entry_leases_lookup. case_bool_decide as Hrel; rewrite released_spec in Hrel.
  - split; [done|]. intros [Hl (r & Hr & Hd)]. destruct Hrel as (l' & r' & ? & ? & ?). congruence.
  - split; [|by intros [? _]]. intros Hl. split; [done|].
    destruct (sto_lease_job _ _ Hok _ _ Hl) as (r & Hr & _). exists r. split; [done|].
    apply not_true_iff_false. intros Hd. apply Hrel. eauto.
Qed.

(** Which jobs and leases a part [pre] of the plan has dealt with. *)
Section part.
Variable pre rest : list RecoveryMutationEntry.
Hypothesis Hsplit : entries = pre ++ rest.

Lemma part_nodup : NoDup (entry_id <$> pre).
Proof.
  pose proof (plan_entries_nodup now verifier config st Hok) as Hnd. fold entries in Hnd.
  rewrite Hsplit, fmap_app in Hnd. by apply NoDup_app in Hnd as [? _].
Qed.

Lemma part_entry e :
  e ∈ pre -> exists r, st_jobs st !! entry_id e = Some r /\ sj_id r = entry_id e /\
    (plan_job now verifier (snapshot_of st) r).2 = Some e.
Proof.
  intros He. assert (e ∈ entries) as (r & Hr & He')%(elem_of_plan_entries _ _ _ _ Hok).
  { rewrite Hsplit. apply elem_of_app. by left. }
  exists r. pose proof He' as [_ ->]%plan_job_entry. unfold entry_id. simpl. by rewrite recovered_id.
Qed.

Lemma part_jobs id r :
  st_jobs st !! id = Some r ->
  entry_jobs pre (st_jobs st) !! id =
  Some (if bool_decide (id ∈ entry_id <$> pre) then recovered now verifier r else r).
Proof.
  intros Hr. case_bool_decide as Hin; [|by rewrite entry_jobs_other].
  apply list_elem_of_fmap in Hin as (e & -> & He).
  rewrite (entry_jobs_hit _ _ _ part_nodup He).
  destruct (part_entry _ He) as (r' & Hr' & _ & [_ ->]%plan_job_entry). simpl. congruence.
Qed.

Lemma part_released u :
  u ∈ omap re_release_gpu pre <->
  exists l r, st_leases st !! u = Some l /\ st_jobs st !! lease_job_id l = Some r /\
    decision_lost (decide_job verifier r) = true /\ lease_job_id l ∈ entry_id <$> pre.
Proof.
  rewrite list_elem_of_omap. split.
  - intros (e & He & Hrel). destruct (part_entry _ He) as (r & Hr & Hid & He').
    apply plan_job_entry in He' as [_ ->]. simpl in Hrel. destruct (decision_lost _) eqn:Hl; [|done].
    apply (find_lease_spec config st Hok) in Hrel as (l & Hl' & Hj). exists l, r.
    rewrite Hj, Hid. split_and!; try done. by apply (list_elem_of_fmap_2 entry_id).
  - intros (l & r & Hl & Hr & Hd & (e & Heq & He)%list_elem_of_fmap). exists e. split; [done|].
    destruct (part_entry _ He) as (r' & Hr' & Hid & He'). rewrite <- Heq in Hr'. simplify_eq.
    apply plan_job_entry in He' as [_ ->]. simpl. rewrite Hd, Hid.
    apply (find_lease_spec config st Hok). by exists l.
Qed.

Lemma part_releases_nodup : NoDup (omap re_release_gpu pre).
Proof.
  apply NoDup_omap; [|eapply (NoDup_fmap_1 entry_id), part_nodup].
  assert (forall e u, e ∈ pre -> re_release_gpu e = Some u ->
    exists l, st_leases st !! u = Some l /\ lease_job_id l = entry_id e) as Hlease.
  { intros e u He Hu. destruct (part_entry _ He) as (r & _ & Hid & Hp).
    apply plan_job_entry in Hp as [_ ->]. simpl in Hu. destruct (decision_lost _); [|done].
    apply (find_lease_spec config st Hok) in Hu as (l & Hl & Hj). exists l. by rewrite Hj. }
  intros x y u Hx Hy Hux Huy. destruct (Hlease _ _ Hx Hux) as (l1 & Hl1 & Hj1).
  destruct (Hlease _ _ Hy Huy) as (l2 & Hl2 & Hj2).
  apply list_elem_of_lookup in Hx as (i & Hi). apply list_elem_of_lookup in Hy as (j & Hj).
  assert (i = j) as ->; [|congruence].
  eapply (NoDup_lookup _ _ _ (entry_id x) part_nodup); rewrite list_lookup_fmap, ?Hi, ?Hj; simpl;
    congruence.
Qed.

Lemma part_leases u l :
  entry_leases pre (st_leases st) !! u = Some l <->
  st_leases st !! u = Some l /\
  ~ (lease_job_id l ∈ entry_id <$> pre /\
     exists r, st_jobs st !! lease_job_id l = Some r /\ decision_lost (decide_job verifier r) = true).
Proof.
  rewrite entry_leases_lookup. case_bool_decide as Hrel; rewrite part_released in Hrel.
  - split; [done|]. intros [Hl Hn]. destruct Hrel as (l' & r & ? & ? & ? & ?). simplify_eq.
    destruct Hn. eauto.
  - split; [|by intros [? _]]. intros Hl. split; [done|]. intros [Hin (r & Hr & Hd)].
    apply Hrel. exists l, r. done.
Qed.

Lemma rewritten_leaseable r :
  rewrites verifier r = true ->
  leaseable (sj_state (recovered now verifier r)) = negb (decision_lost (decide_job verifier r)).
Proof.
  unfold rewrites, recovered. case_bool_decide as Hp; [by rewrite Hp|]. simpl. by intros ->.
Qed.

Lemma part_rewritten id r : id ∈ entry_id <$> pre -> st_jobs st !! id = Some r -> rewrites verifier r = true.
Proof.
  intros (e & -> & He)%list_elem_of_fmap Hr. destruct (part_entry _ He) as (r' & Hr' & _ & He').
  simplify_eq. by apply plan_job_entry in He' as [? _].
Qed.

Lemma part_active id r : id ∈ entry_id <$> pre -> st_jobs st !! id = Some r -> leaseable (sj_state r) = true.
Proof.
  intros Hin Hr. pose proof (part_rewritten _ _ Hin Hr) as Hrw.
  unfold rewrites, decide_job in Hrw. by destruct (sj_state r).
Qed.

(** The lease matrix holds after any part of the plan. *)
Lemma part_lease_job u l :
  entry_leases pre (st_leases st) !! u = Some l ->
  leaseable_job (entry_jobs pre (st_jobs st)) (lease_job_id l) = true.
Proof.
  intros [Hl Hn]%part_leases. destruct (sto_lease_job _ _ Hok _ _ Hl) as (r & Hr & Hlease).
  apply leaseable_job_spec. eexists. split; [by apply part_jobs|].
  case_bool_decide as Hin; [|done]. rewrite rewritten_leaseable by (by eapply part_rewritten).
  apply negb_true_iff, not_true_iff_false. intros Hd. apply Hn. eauto.
Qed.

Lemma part_lease_count id r' :
  entry_jobs pre (st_jobs st) !! id = Some r' ->
  lease_count (entry_leases pre (st_leases st)) id = if leaseable (sj_state r') then 1 else 0.
Proof.
  intros Hr'. destruct (st_jobs st !! id) as [r|] eqn:Hr.
  2: { destruct (decide (id ∈ entry_id <$> pre)) as [(e & -> & He)%list_elem_of_fmap|].
       - destruct (part_entry _ He) as (? & ? & _). congruence.
       - rewrite entry_jobs_other in Hr' by done. congruence. }
  rewrite (part_jobs _ _ Hr) in Hr'. injection Hr' as <-.
  destruct (leaseable (sj_state (if bool_decide _ then _ else _))) eqn:Hlease.
  - assert (leaseable (sj_state r) = true) as Hlr
      by (case_bool_decide; [by eapply part_active|done]).
    destruct (sto_lease_exists _ _ Hok _ _ Hr Hlr) as (u & l & Hl & Hj).
    apply lease_count_one. exists u, l. split_and!; [|done|].
    + apply part_leases. split; [done|]. rewrite Hj, Hr. intros [Hin (r2 & [= <-] & Hd)].
      rewrite bool_decide_eq_true_2 in Hlease by done.
      rewrite rewritten_leaseable, Hd in Hlease by (by eapply part_rewritten). done.
    + intros u' l' [Hl' _]%part_leases Hj'. eapply (sto_lease_unique _ _ Hok); eauto. congruence.
  - apply lease_count_zero. intros u l [Hl Hn]%part_leases Hj. destruct Hj.
    destruct (sto_lease_job _ _ Hok _ _ Hl) as (r2 & Hr2 & Hl2).
    assert (r2 = r) as -> by congruence.
    case_bool_decide as Hin; [|congruence].
    rewrite rewritten_leaseable in Hlease by (by eapply part_rewritten).
    apply Hn. split; [done|]. exists r. by apply negb_false_iff in Hlease.
Qed.
End part.

(** The clock has not been stepped back before the start of a job that is lost. *)
Definition clock_ok : Prop :=
  forall id r t, st_jobs st !! id = Some r -> decision_lost (decide_job verifier r) = true ->
    xr_start_time (sj_execution r) = Some t -> (t <= now)%Z.

(** An accepted update of an existing record. *)
Definition update_valid (existing r : StoredJob) : Prop :=
  sj_id r <> 0 /\ SpecOk (sj_spec r) /\ ExecutionOk (sj_execution r) (sj_state r) (sj_spec r) /\
  sj_revision existing <> u64_max /\ sj_spec r = sj_spec existing /\
  sj_revision r = sj_revision existing + 1 /\ can_transition (sj_state existing) (sj_state r) = true.

Lemma lost_execution x s spec code :
  ExecutionOk x s spec -> decision_lost code = true -> is_active s = true ->
  (forall t, xr_start_time x = Some t -> (t <= now)%Z) ->
  ExecutionOk {| x with xr_failure_reason := Some (recovery_failure_reason code);
                        xr_end_time := Some now |} kLost spec.
Proof.
  intros [Hid Hq Hrun Hnt Hst Hend Hr Hl] Hcode Hact Hclock. constructor; simpl; try done.
  - by intros [?|?].
  - intros t t' Ht [= <-]. by apply Hclock.
  - unfold bounded_string. by destruct code.
Qed.

Lemma promoted_execution x spec :
  ExecutionOk x kStarting spec -> has_identity x = true -> ExecutionOk x kRunning spec.
Proof. intros [? ? ? Hnt ? ? ? ?] Hi. constructor; try done. Qed.

Lemma recovered_valid r :
  clock_ok -> st_jobs st !! sj_id r = Some r -> rewrites verifier r = true ->
  update_valid r (recovered now verifier r).
Proof.
  intros Hclock Hr Hrw.
  pose proof (map_Forall_lookup_1 _ _ _ _ (sto_jobs _ _ Hok) Hr) as [_ Hid Hspec Hx Hrev _].
  assert (sj_revision r <> u64_max /\ uadd64 (sj_revision r) 1 = sj_revision r + 1) as [Hmax Hinc].
  { assert (sj_revision r <= 4) by (etransitivity; [exact Hrev|]; by destruct (sj_state r)).
    unfold uadd64, u64_max in *. split; [lia|]. apply N.mod_small. lia. }
  unfold rewrites, update_valid, recovered in *.
  case_bool_decide as Hp; simpl.
  - unfold decide_job in Hp. destruct (sj_state r) eqn:Hs; simpl in Hp;
      try (destruct (has_identity _) eqn:Hi; [|done]); try destruct (verifier _); try done; simpl.
    split_and!; try done. by apply promoted_execution.
  - simpl in Hrw. rewrite Hrw. simpl.
    assert (is_active (sj_state r) = true) as Hact.
    { unfold decide_job in Hrw. by destruct (sj_state r). }
    split_and!; try done.
    eapply lost_execution; try done. intros t Ht. by eapply (Hclock _ r).
Qed.

Lemma updates_accepted chunk jobs :
  NoDup (entry_id <$> chunk) ->
  (forall e, e ∈ chunk -> exists r, jobs !! entry_id e = Some r /\ update_valid r (re_update_job e)) ->
  fold_result update_job jobs (re_update_job <$> chunk) = Ok (entry_jobs chunk jobs).
Proof.
  revert jobs. induction chunk as [|e chunk IH]; intros jobs Hnd Hval; [done|].
  rewrite fmap_cons. rewrite fmap_cons in Hnd. apply NoDup_cons in Hnd as [Hnew Hnd].
  destruct (Hval e) as (r & Hr & H1 & H2 & H3 & H4 & H5 & H6 & H7); [left|].
  assert (update_job jobs (re_update_job e) = Ok (<[entry_id e := re_update_job e]> jobs)) as Hu.
  { apply update_job_ok. split_and!; try done. by exists r. }
  simpl. rewrite Hu. simpl. apply IH; [done|]. intros e' He'.
  destruct (Hval e') as (r' & Hr' & Hv); [by right|]. exists r'. split; [|done].
  rewrite lookup_insert_ne; [done|]. intros Heq. apply Hnew. rewrite Heq.
  by apply (list_elem_of_fmap_2 entry_id).
Qed.

Lemma releases_accepted uuids leases :
  NoDup uuids ->
  (forall u, u ∈ uuids -> uuid_valid u = true /\ is_Some (leases !! u)) ->
  fold_result release_lease leases uuids = Ok (fold_left (fun m u => delete u m) uuids leases).
Proof.
  revert leases. induction uuids as [|u uuids IH]; intros leases Hnd Hval; [done|].
  apply NoDup_cons in Hnd as [Hnew Hnd]. simpl.
  assert (release_lease leases u = Ok (delete u leases)) as ->.
  { apply release_lease_ok. split; [done|]. apply Hval. left. }
  simpl. apply IH; [done|]. intros v Hv. destruct (Hval v) as [Hval1 Hval2]; [by right|].
  split; [done|]. rewrite lookup_delete_ne; [done|]. by intros <-.
Qed.

(** Any further part [chunk] of the plan is accepted after a part [pre]. *)
Lemma chunk_accepted pre chunk rest st1 :
  clock_ok -> entries = pre ++ chunk ++ rest -> chunk <> [] ->
  sum_sizes entries_needed chunk <= StateMutation_kMaxEntries ->
  st_jobs st1 = entry_jobs pre (st_jobs st) -> st_leases st1 = entry_leases pre (st_leases st) ->
  st_revision st1 <> u64_max ->
  let m := chunk_of chunk in
  exists st2, apply_mutation config st1 {| m with mu_expected_revision := st_revision st1 |} = Ok st2.
Proof.
  intros Hclock Hsplit Hne Hsize Hj Hl Hrev m.
  assert (entries = (pre ++ chunk) ++ rest) as Hsplit2 by by rewrite <- app_assoc.
  assert (NoDup (entry_id <$> pre ++ chunk)) as Hnd by by eapply part_nodup.
  rewrite fmap_app in Hnd. apply NoDup_app in Hnd as (_ & Hdis & Hndc).
  assert (forall e, e ∈ chunk -> e ∈ pre ++ chunk) as Hsub by (intros; apply elem_of_app; by right).
  exists (mkState (st_revision st1 + 1) (entry_jobs (pre ++ chunk) (st_jobs st))
            (entry_leases (pre ++ chunk) (st_leases st))).
  assert (entry_count m <> 0) as Hcnt by (intros Hz; by apply entry_count_chunk_zero in Hz).
  apply apply_mutation_inv. split_and!; try done.
  - change (entry_count _) with (entry_count m). lia.
  - change (entry_count _) with (entry_count m). unfold m. rewrite entry_count_chunk. lia.
  - exists (st_jobs st1), (entry_leases (pre ++ chunk) (st_leases st)). simpl.
    split_and!; try done.
    + unfold entry_jobs at 1. rewrite fold_left_app.
      change (fold_left _ pre _) with (entry_jobs pre (st_jobs st)). rewrite <- Hj.
      apply updates_accepted; [done|]. intros e He.
      destruct (part_entry _ _ Hsplit2 e (Hsub _ He)) as (r & Hr & Hid & Hp). exists r.
      apply plan_job_entry in Hp as [Hrw Heq]. rewrite Hj, entry_jobs_other.
      * split; [done|]. rewrite Heq. simpl. apply recovered_valid; try done. by rewrite Hid.
      * intros Hin. apply (Hdis _ Hin). by apply (list_elem_of_fmap_2 entry_id).
    + rewrite entry_leases_fold, omap_app, fold_left_app, <- (entry_leases_fold pre), <- Hl.
      pose proof (part_releases_nodup _ _ Hsplit2) as Hndr. rewrite omap_app in Hndr.
      apply NoDup_app in Hndr as (_ & Hdisr & Hndr). apply releases_accepted; [done|].
      intros u Hu. assert (u ∈ omap re_release_gpu (pre ++ chunk)) as Hu2
        by (rewrite omap_app; apply elem_of_app; by right).
      apply (part_released _ _ Hsplit2) in Hu2 as (l & r & Hlu & _).
      split; [by apply (sto_lease_key _ _ Hok _ _ Hlu)|]. exists l.
      rewrite Hl, entry_leases_lookup, bool_decide_eq_false_2; [done|].
      intros Hin. by apply (Hdisr _ Hin).
    + intros u l. by apply (part_lease_job _ _ Hsplit2).
    + intros id r. by apply (part_lease_count _ _ Hsplit2).
Qed.

Lemma recovered_queued r : sj_state (recovered now verifier r) = kQueued <-> sj_state r = kQueued.
Proof.
  unfold recovered, decide_job. destruct (sj_state r) eqn:E; simpl;
    try (destruct (has_identity _); simpl); try (destruct (verifier _); simpl);
    rewrite ?E; done.
Qed.

Lemma recovered_unqueued r : sj_state r = kQueued -> recovered now verifier r = r.
Proof. intros E. apply recovered_same. unfold rewrites, decide_job. by rewrite E. Qed.
End effects.

(** ** Progress of the chunked writes on a healthy in-memory store *)

Definition im_healthy (s : InMemoryStateStore) : Prop :=
  im_failure s = None /\ im_next_apply_failure s = None.

Section progress.
Variables (now : Z) (verifier : ProcessIdentity -> IdentityVerification) (s0 : InMemoryStateStore).
Hypothesis Hok : StoreOk (im_config s0) (im_state s0).
Hypothesis Hclock : clock_ok now verifier (im_state s0).

Let entries := plan_entries now verifier (im_state s0).

Lemma flush_chunk_progress pre pending rest s :
  entries = pre ++ pending ++ rest -> EntriesApplied pre s0 s -> im_healthy s ->
  sum_sizes entries_needed pending <= StateMutation_kMaxEntries ->
  st_revision (im_state s) + len pending <= u64_max ->
  exists s', flush_chunk (chunk_of pending) (st_revision (im_state s)) s =
      (Ok (chunk_of [], st_revision (im_state s')), s') /\
    EntriesApplied (pre ++ pending) s0 s' /\ im_healthy s' /\
    st_revision (im_state s') <= st_revision (im_state s) + len pending.
Proof.
  intros Hsplit Hap [Hf Hn] Hsize Hrev.
  destruct pending as [|e pending'].
  { exists s. rewrite app_nil_r. split_and!; try done; lia. }
  set (pending := e :: pending') in *.
  assert (1 <= len pending) as Hlen by (unfold pending; rewrite len_cons; lia).
  destruct (chunk_accepted now verifier (im_config s0) (im_state s0) Hok pre pending rest (im_state s))
    as [st2 Hmut]; try done; [apply Hap|apply Hap|lia|].
  set (s' := {| s with im_state := st2 |}).
  assert (flush_chunk (chunk_of pending) (st_revision (im_state s)) s = (Ok (chunk_of [], st_revision st2), s'))
    as Hfl.
  { unfold flush_chunk. destruct (N.eqb_spec (entry_count (chunk_of pending)) 0) as [Hz|_].
    - by apply entry_count_chunk_zero in Hz.
    - pose proof (ea_config _ _ _ Hap) as Hc. simpl in Hc.
      change (@store_apply _ _) with im_apply. cbv zeta. unfold im_apply, s'.
      rewrite Hf, Hn, Hc. cbv zeta in Hmut. by rewrite Hmut. }
  exists s'. split_and!; [done| |done|].
  - eapply EntriesApplied_trans; [exact Hap|]. pose proof (ea_config _ _ _ Hap) as Hc.
    pose proof (fun r => flush_chunk_spec (S:=InMemoryStateStore) pending s r s' (ea_inv _ _ _ Hap)) as Hspec.
    setoid_rewrite Hc in Hspec. destruct (Hspec _ (ea_ok _ _ _ Hap) Hfl) as (_ & _ & ?). done.
  - simpl. apply apply_mutation_inv in Hmut as (_ & _ & _ & -> & _). lia.
Qed.

Lemma sum_needed_snoc l e :
  sum_sizes entries_needed (l ++ [e]) = sum_sizes entries_needed l + entries_needed e.
Proof. rewrite sum_sizes_app. simpl. lia. Qed.

Lemma write_entries_progress todo : forall pre pending s,
  entries = pre ++ pending ++ todo -> EntriesApplied pre s0 s -> im_healthy s ->
  sum_sizes entries_needed pending <= StateMutation_kMaxEntries ->
  st_revision (im_state s) + len (pending ++ todo) <= u64_max ->
  exists rev s', write_entries todo (chunk_of pending) (st_revision (im_state s)) s = (Ok rev, s').
Proof.
  induction todo as [|e todo IH]; intros pre pending s Hsplit Hap Hh Hsize Hrev; cbn [write_entries].
  - rewrite app_nil_r in Hrev.
    destruct (flush_chunk_progress pre pending [] s) as (s' & -> & _); try done. by eexists _, s'.
  - assert (entries = pre ++ (pending ++ [e]) ++ todo) as Hsplit1 by by rewrite <- app_assoc.
    rewrite len_app, len_cons in Hrev.
    assert (entries_needed e <= 2) as He by (unfold entries_needed; case_match; lia).
    destruct (N.ltb_spec StateMutation_kMaxEntries (entry_count (chunk_of pending) + entries_needed e))
      as [Hfull|Hroom].
    + destruct (flush_chunk_progress pre pending (e :: todo) s) as (s' & -> & Hap' & Hh' & Hrev');
        try done; [lia|].
      rewrite push_entry_chunk. apply (IH (pre ++ pending)); try done.
      * by rewrite <- app_assoc.
      * simpl. unfold StateMutation_kMaxEntries. lia.
      * simpl. rewrite len_cons. lia.
    + rewrite push_entry_chunk. apply (IH pre); try done.
      * rewrite sum_needed_snoc. rewrite entry_count_chunk in Hroom. lia.
      * rewrite !len_app, len_cons, len_nil. lia.
Qed.
End progress.

(** ** Properties of recovery *)

Section theorems.
Context {S : Type} `{StateStoreLaws S}.
Variables (now : Z) (verifier : ProcessIdentity -> IdentityVerification).

(** The three ways a recovery goes once the store could be read. *)
Lemma recover_cases q s res q' s' :
  store_inv s -> StoreOk (store_config s) (store_view s) ->
  recover now verifier q s = (res, q', s') ->
  let entries := plan_entries now verifier (store_view s) in
  (recovery_ok res = false /\ q' = q /\ exists k, EntriesApplied (take k entries) s s') \/
  (recovery_ok res = true /\ EntriesApplied entries s s' /\
   SnapshotRestorable (q_capacity q) (snapshot_of (store_view s)) /\
   q' = {| q with q_entries :=
             sort_entries (queued_entries (map_values (st_jobs (store_view s)))) |}).
Proof.
  intros Hinv Hok Hrec entries. unfold recover in Hrec.
  assert (EntriesApplied [] s s) as Hnone by done.
  destruct (load_ok (store_load s)) eqn:Hload; simpl in Hrec.
  2: { simplify_eq. left. split_and!; try done. by exists 0%nat. }
  rewrite (store_load_view _ Hinv Hload) in Hrec. fold (plan_entries now verifier (store_view s)) in Hrec.
  change empty_mutation with (chunk_of []) in Hrec.
  destruct (write_entries _ _ _ _) as [r s1] eqn:Hw. apply write_entries_spec in Hw; [|done..].
  destruct r as [rev|written].
  - destruct Hw as [-> Hap]. simpl in Hap.
    destruct (queue_restore _ q) as [restored q1] eqn:Hres. destruct (queue_ok restored) eqn:Hqok; simpl in Hrec.
    + destruct (queue_restore_inv _ _ _ _ Hres Hqok) as [Hr ->]. simplify_eq. by right.
    + simplify_eq. left. split_and!; [done| |].
      * unfold queue_restore in Hres. destruct (_ && _); [by simplify_eq|].
        destruct (fold_result_idx _ _ _ _) as [[seen restored']|[[[? ?] ?] ?]]; by simplify_eq.
      * exists (length entries). by rewrite take_ge.
  - destruct Hw as (_ & k & Hap). simplify_eq. left. split_and!; try done. by exists k.
Qed.

Lemma recovered_queue_agrees q s s' :
  StoreOk (store_config s) (store_view s) -> QueueOk q ->
  (forall id, st_jobs (store_view s') !! id = recovered now verifier <$> st_jobs (store_view s) !! id) ->
  q_entries q ≡ₚ queued_entries (map_values (st_jobs (store_view s))) ->
  queue_agrees q (store_view s').
Proof.
  intros Hok Hq Hjobs Hp e. rewrite Hjobs.
  rewrite (proj2 (queue_agrees_perm _ _ _ Hok Hq) Hp e).
  split; intros (r & Hr & Hqd & He).
  - exists r. rewrite Hr. simpl. by rewrite recovered_unqueued.
  - destruct (st_jobs (store_view s) !! qe_job_id e) as [r0|] eqn:Hr0; [|done]. simpl in Hr.
    injection Hr as <-. rewrite recovered_queued in Hqd. rewrite recovered_unqueued in He by done. eauto.
Qed.

Lemma recover_spec q s res q' s' :
  store_inv s -> StoreOk (store_config s) (store_view s) -> QueueOk q ->
  recover now verifier q s = (res, q', s') -> recovery_ok res = true ->
  SchedOk q' s' /\
  (forall id, st_jobs (store_view s') !! id = recovered now verifier <$> st_jobs (store_view s) !! id) /\
  (forall u l, st_leases (store_view s') !! u = Some l <->
     st_leases (store_view s) !! u = Some l /\
     exists r, st_jobs (store_view s) !! lease_job_id l = Some r /\
       decision_lost (decide_job verifier r) = false).
Proof.
  intros Hinv Hok Hq Hrec Hrok.
  destruct (recover_cases _ _ _ _ _ Hinv Hok Hrec) as [(? & _)|(_ & Hap & Hr & ->)]; [congruence|].
  assert (forall id, st_jobs (store_view s') !! id =
            recovered now verifier <$> st_jobs (store_view s) !! id) as Hjobs.
  { intros id. rewrite (ea_jobs _ _ _ Hap). by eapply full_jobs. }
  pose proof (restored_entries_ok q _ Hq Hr) as Hq'. split_and!; [|done|].
  - constructor; try done; [apply Hap|rewrite (ea_config _ _ _ Hap); apply Hap|].
    eapply recovered_queue_agrees; try done. apply merge_sort_Permutation.
  - intros u l. rewrite (ea_leases _ _ _ Hap). by eapply full_leases.
Qed.

Lemma recover_outcomes q s res q' s' :
  store_inv s -> recover now verifier q s = (res, q', s') -> recovery_ok res = true ->
  rr_outcomes res = (fun r => (plan_job now verifier (snapshot_of (store_view s)) r).1) <$>
    map_values (st_jobs (store_view s)).
Proof.
  intros Hinv Hrec Hok. unfold recover in Hrec. destruct (load_ok (store_load s)) eqn:Hload; simpl in Hrec.
  2: { by simplify_eq. }
  rewrite (store_load_view _ Hinv Hload) in Hrec.
  destruct (write_entries _ _ _ _) as [[rev|written] s1]; [|by simplify_eq].
  destruct (queue_restore _ q) as [restored q1]. destruct (queue_ok restored); simpl in Hrec; simplify_eq; simpl;
    unfold plan; simpl; by rewrite <- list_fmap_compose.
Qed.

(** C9. A successful recovery is exact, whatever the chunking: every job ends
    with the record its decision prescribes and all others are untouched,
    exactly the leases of LOST jobs are gone, the stored state is well formed,
    and the queue holds precisely the QUEUED jobs in FIFO order. *)
Theorem recover_exact q s res q' s' :
  store_inv s -> StoreOk (store_config s) (store_view s) -> QueueOk q ->
  recover now verifier q s = (res, q', s') -> recovery_ok res = true ->
  SchedOk q' s' /\
  (forall id, st_jobs (store_view s') !! id = recovered now verifier <$> st_jobs (store_view s) !! id) /\
  (forall u l, st_leases (store_view s') !! u = Some l <->
     st_leases (store_view s) !! u = Some l /\
     exists r, st_jobs (store_view s) !! lease_job_id l = Some r /\
       decision_lost (decide_job verifier r) = false).
Proof. apply recover_spec. Qed.

(** A recovery that fails leaves a state from which it can be run again: the
    queue is untouched, the stored state is well formed (so no LOST job holds a
    lease, even between chunks), and every job is either as it was or already
    has its final record. *)
Theorem recover_failure q s res q' s' :
  store_inv s -> StoreOk (store_config s) (store_view s) ->
  recover now verifier q s = (res, q', s') -> recovery_ok res = false ->
  q' = q /\ store_inv s' /\ StoreOk (store_config s) (store_view s') /\
  forall id, match st_jobs (store_view s) !! id with
             | None => st_jobs (store_view s') !! id = None
             | Some r => st_jobs (store_view s') !! id = Some r \/
                         st_jobs (store_view s') !! id = Some (recovered now verifier r)
             end.
Proof.
  intros Hinv Hok Hrec Hrok.
  destruct (recover_cases _ _ _ _ _ Hinv Hok Hrec) as [(_ & -> & k & Hap)|(? & _)]; [|congruence].
  split_and!; [done|apply Hap|apply Hap|]. intros id. rewrite (ea_jobs _ _ _ Hap).
  pose proof (prefix_jobs now verifier _ _ Hok k id) as Hp.
  destruct (st_jobs (store_view s) !! id); [|done]. destruct Hp as [?|[_ ?]]; auto.
Qed.

Lemma rewrites_recovered r : rewrites verifier (recovered now verifier r) = false.
Proof.
  unfold recovered. destruct (decide_job verifier r) eqn:E; simpl; unfold rewrites; rewrite ?E; try done.
  unfold decide_job in E |- *. simpl. destruct (sj_state r); simpl in E; try done;
    destruct (has_identity _); try done; simpl in *; destruct (verifier _); done.
Qed.

Lemma no_plan_entries now2 config st :
  StoreOk config st -> (forall r, r ∈ map_values (st_jobs st) -> rewrites verifier r = false) ->
  plan_entries now2 verifier st = [].
Proof.
  intros Hok Hno. pose proof (plan_entries_ids now2 verifier st) as Hids.
  rewrite filter_none in Hids; [by apply fmap_nil_inv in Hids|].
  apply Forall_forall. intros r Hr. by rewrite (Hno r Hr).
Qed.

Lemma stored_restorable config st : StoreOk config st -> Forall Restorable (map_values (st_jobs st)).
Proof.
  intros Hok. apply Forall_forall. intros r Hr%(elem_of_jobs _ _ _ Hok).
  destruct (map_Forall_lookup_1 _ _ _ _ (sto_jobs _ _ Hok) Hr). constructor; try done.
Qed.

(** A well-formed store restores a queue that already agrees with it. *)
Lemma restore_agreeing q s' :
  SchedOk q s' -> (st_revision (store_view s') = 0 -> st_jobs (store_view s') = ∅ /\ st_leases (store_view s') = ∅) ->
  exists restored, queue_restore (snapshot_of (store_view s')) q = (restored, q) /\ queue_ok restored = true.
Proof.
  intros [_ Hok Hq Hag] Hrev. pose proof (proj1 (queue_agrees_perm _ _ _ Hok Hq) Hag) as Hp.
  assert (SnapshotRestorable (q_capacity q) (snapshot_of (store_view s'))) as Hr.
  { constructor; simpl.
    - intros Hz. destruct (Hrev Hz) as [-> ->]. done.
    - by eapply stored_restorable.
    - by eapply map_values_ids_nodup.
    - rewrite <- (len_perm _ _ Hp). apply Hq. }
  destruct (queue_restore_ok q _ Hr) as (restored & Heq & Hrok). exists restored. split; [|done].
  rewrite Heq. pose proof (restored_entries_ok q _ Hq Hr) as Hq2. f_equal.
  destruct q as [cap es]. simpl in *. f_equal.
  apply (StronglySorted_unique entry_lt); [apply Hq2|apply Hq|].
  rewrite Hp. apply merge_sort_Permutation.
Qed.

(** Recovery can be repeated: with the same verdicts about the processes, a
    second run right after a successful one writes nothing and rebuilds the
    same queue. *)
Theorem recover_idempotent now2 q s res q' s' :
  store_inv s -> StoreOk (store_config s) (store_view s) -> QueueOk q ->
  recover now verifier q s = (res, q', s') -> recovery_ok res = true ->
  load_ok (store_load s') = true ->
  exists res2, recover now2 verifier q' s' = (res2, q', s') /\ recovery_ok res2 = true.
Proof.
  intros Hinv Hok Hq Hrec Hrok Hload.
  destruct (recover_cases _ _ _ _ _ Hinv Hok Hrec) as [(? & _)|(_ & Hap & Hr & ->)]; [congruence|].
  set (q1 := {| q with q_entries := _ |}).
  assert (forall id, st_jobs (store_view s') !! id =
            recovered now verifier <$> st_jobs (store_view s) !! id) as Hjobs.
  { intros id. rewrite (ea_jobs _ _ _ Hap). by eapply full_jobs. }
  pose proof (restored_entries_ok q _ Hq Hr) as Hq'.
  assert (StoreOk (store_config s') (store_view s')) as Hok' by (rewrite (ea_config _ _ _ Hap); apply Hap).
  assert (SchedOk q1 s') as Hsc.
  { constructor; [apply Hap|done|done|].
    apply (recovered_queue_agrees q1 s s'); try done. apply merge_sort_Permutation. }
  destruct (restore_agreeing q1 s' Hsc) as (restored & Hrest & Hqok).
  { intros Hz. pose proof (ea_revision _ _ _ Hap). destruct (sr_revision _ _ Hr) as [Hnj Hnl]; [simpl; lia|].
    simpl in Hnj, Hnl. apply map_values_nil in Hnj, Hnl. split; apply map_empty; intros k.
    - by rewrite Hjobs, Hnj, lookup_empty.
    - rewrite (ea_leases _ _ _ Hap), entry_leases_lookup, Hnl, lookup_empty. by case_bool_decide. }
  eexists. unfold recover. rewrite Hload. cbn [negb]. cbv zeta.
  rewrite (store_load_view _ (ea_inv _ _ _ Hap) Hload).
  change (rp_mutations _) with (plan_entries now2 verifier (store_view s')).
  rewrite (no_plan_entries _ _ _ Hok').
  2: { intros r Hr1%(elem_of_jobs _ _ _ Hok'). rewrite Hjobs in Hr1.
       destruct (st_jobs (store_view s) !! sj_id r); [|done]. simpl in Hr1. injection Hr1 as <-.
       apply rewrites_recovered. }
  simpl. rewrite Hrest, Hqok. done.
Qed.
End theorems.

Lemma verified_spec ticks pgid i :
  verify_identity_via_proc ticks pgid i = IV_kVerified <->
  identity_valid i = true /\ ticks (pi_pid i) = Some (pi_start_ticks i) /\ pgid (pi_pid i) = Some (pi_pgid i).
Proof.
  unfold verify_identity_via_proc. destruct (identity_valid i); simpl; [|naive_solver].
  destruct (ticks (pi_pid i)) as [t|]; [|naive_solver].
  destruct (N.eqb_spec t (pi_start_ticks i)); simpl; [|naive_solver].
  destruct (pgid (pi_pid i)) as [g|]; [|naive_solver].
  destruct (Z.eqb_spec g (pi_pgid i)); simpl; naive_solver.
Qed.

(** After a recovery against [/proc], every job that is still STARTING,
    RUNNING or STOPPING is backed by its own process: a live process with the
    recorded pid, start ticks and process group (never a reused pid), and no
    STARTING job is left; it is the job that was active before, with the same
    spec, and it still holds a lease. *)
Theorem recover_active_verified {S} `{StateStoreLaws S} now ticks pgid q s res q' s' id r' :
  store_inv s -> StoreOk (store_config s) (store_view s) -> QueueOk q ->
  recover now (verify_identity_via_proc ticks pgid) q s = (res, q', s') -> recovery_ok res = true ->
  st_jobs (store_view s') !! id = Some r' -> is_active (sj_state r') = true ->
  let i := xr_identity (sj_execution r') in
  ticks (pi_pid i) = Some (pi_start_ticks i) /\ pgid (pi_pid i) = Some (pi_pgid i) /\
  sj_state r' <> kStarting /\
  (exists r, st_jobs (store_view s) !! id = Some r /\ is_active (sj_state r) = true /\
     sj_spec r' = sj_spec r /\ sj_execution r' = sj_execution r) /\
  exists u l, st_leases (store_view s') !! u = Some l /\ lease_job_id l = id.
Proof.
  intros Hinv Hok Hq Hrec Hrok Hr' Hact i.
  destruct (recover_cases _ _ _ _ _ _ _ Hinv Hok Hrec) as [(? & _)|(_ & Hap & _)]; [congruence|].
  pose proof Hr' as Hjob. rewrite (ea_jobs _ _ _ Hap), (full_jobs _ _ _ _ Hok) in Hjob.
  destruct (st_jobs (store_view s) !! id) as [r|] eqn:Hr; [|done]. simpl in Hjob. injection Hjob as <-.
  assert (is_active (sj_state r) = true /\
    verify_identity_via_proc ticks pgid (xr_identity (sj_execution r)) = IV_kVerified /\
    sj_spec (recovered now (verify_identity_via_proc ticks pgid) r) = sj_spec r /\
    sj_execution (recovered now (verify_identity_via_proc ticks pgid) r) = sj_execution r /\
    sj_state (recovered now (verify_identity_via_proc ticks pgid) r) <> kStarting)
    as (Hact' & Hver & Hspec & Hexec & Hns).
  { unfold recovered, decide_job in *. destruct (sj_state r) eqn:Hs; simpl in *; try congruence;
      rewrite ?Hs in *; try done;
      (destruct (has_identity (sj_execution r)); simpl in *; [|done]);
      destruct (verify_identity_via_proc _ _ _); simpl in *; rewrite ?Hs in *; done. }
  apply verified_spec in Hver as (_ & Ht & Hp). unfold i. rewrite Hexec. split_and!; try done; [by eauto|].
  eapply sto_lease_exists; [apply Hap|done|]. revert Hact. by destruct (sj_state _).
Qed.

(** On a healthy in-memory store with room for the QUEUED jobs and revisions
    left, recovery succeeds exactly when the clock reads no earlier than the
    recorded start of every job it has to declare LOST; a clock stepped back
    makes the whole recovery fail. *)
Theorem recover_ok_iff_clock now verifier q (s : InMemoryStateStore) :
  im_healthy s -> StoreOk (im_config s) (im_state s) -> QueueOk q ->
  SnapshotRestorable (q_capacity q) (snapshot_of (im_state s)) ->
  st_revision (im_state s) + msize (st_jobs (im_state s)) <= u64_max ->
  recovery_ok (recover now verifier q s).1.1 = true <-> clock_ok now verifier (im_state s).
Proof.
  intros Hh Hok Hq Hres Hrev.
  assert (store_inv s) as Hinv by (destruct Hh as [Hf Hn]; split; rewrite ?Hf, ?Hn; done).
  split.
  - intros Hrok id r t Hr Hlost Ht. destruct (recover now verifier q s) as [[res q'] s'] eqn:Hrec.
    destruct (recover_cases _ _ _ _ _ _ _ Hinv Hok Hrec) as [(? & _)|(_ & Hap & _)];
      [simpl in Hrok; congruence|].
    assert (st_jobs (im_state s') !! id = Some (recovered now verifier r)) as Hr'.
    { pose proof (ea_jobs _ _ _ Hap) as Hj. simpl in Hj. rewrite Hj, (full_jobs _ _ _ _ Hok).
      simpl. by rewrite Hr. }
    pose proof (map_Forall_lookup_1 _ _ _ _ (sto_jobs _ _ (ea_ok _ _ _ Hap)) Hr') as Hrok'.
    apply (xo_end _ _ _ (ro_execution _ _ Hrok') t now); unfold recovered;
      rewrite bool_decide_eq_false_2 by (intros Heq; by rewrite Heq in Hlost); by rewrite Hlost.
  - intros Hclock. unfold recover. simpl. unfold im_load. destruct Hh as [Hf Hn]. rewrite Hf. simpl.
    change (omap id _) with (plan_entries now verifier (im_state s)).
    change empty_mutation with (chunk_of []).
    destruct (write_entries_progress now verifier s Hok Hclock (plan_entries now verifier (im_state s)) [] [] s)
      as (rev & s' & Hw); [done|done|done|simpl; unfold StateMutation_kMaxEntries; lia| |].
    { simpl. assert (len (plan_entries now verifier (im_state s)) <= msize (st_jobs (im_state s))); [|lia].
      rewrite plan_entries_omap, <- len_map_values. apply len_omap_le. }
    destruct (queue_restore_ok q _ Hres) as (restored & Hrest & Hqok).
    rewrite Hw, Hrest, Hqok. done.
Qed.

(** ** Witnesses *)

Definition example_start_state : StoreState :=
  mkState 2 {[ 3 := {| example_starting with
                       sj_execution := mkExecution example_identity (Some 9%Z) None None None None |} ]}
    {[ "GPU-a" := mkLease "GPU-a" 3 ]}.

Definition example_start_mutation : StateMutation :=
  mkMutation 1 [] [{| example_starting with
                      sj_execution := mkExecution example_identity (Some 9%Z) None None None None |}]
    [mkLease "GPU-a" 3] [].

Lemma example_start_ok : StoreOk example_config example_start_state.
Proof.
  eapply (apply_mutation_preserves _ example_state1 example_start_mutation); [apply example_ok1|].
  vm_compute. reflexivity.
Qed.

Definition example_crashed : InMemoryStateStore := mkInMemory example_config example_start_state None None.
Definition example_empty_queue : GlobalJobQueue := mkQueue 4 [].

Lemma example_empty_queue_ok : QueueOk example_empty_queue.
Proof. by apply (queue_create_ok 4). Qed.

Lemma example_crashed_inv : store_inv example_crashed.
Proof. done. Qed.

Definition gone (i : ProcessIdentity) : IdentityVerification := IV_kProcessGone.
Definition live_ticks (pid : Z) : option N := Some 5.
Definition live_pgid (pid : Z) : option Z := Some 100%Z.

Lemma recover_exact_witness :
  SchedOk (recover 20 gone example_empty_queue example_crashed).1.2
          (recover 20 gone example_empty_queue example_crashed).2.
Proof.
  refine (proj1 (recover_exact 20 gone example_empty_queue example_crashed
    (recover 20 gone example_empty_queue example_crashed).1.1 _ _ _ _ _ _ _)).
  - apply example_crashed_inv.
  - apply example_start_ok.
  - apply example_empty_queue_ok.
  - vm_compute. reflexivity.
  - vm_compute. reflexivity.
Defined.

Lemma recover_failure_witness :
  (recover 8 gone example_empty_queue example_crashed).1.2 = example_empty_queue.
Proof.
  refine (proj1 (recover_failure 8 gone example_empty_queue example_crashed
    (recover 8 gone example_empty_queue example_crashed).1.1 _
    (recover 8 gone example_empty_queue example_crashed).2 _ _ _ _)).
  - apply example_crashed_inv.
  - apply example_start_ok.
  - vm_compute. reflexivity.
  - vm_compute. reflexivity.
Defined.

Lemma recover_idempotent_witness :
  exists res2,
    recover 30 gone (recover 20 gone example_empty_queue example_crashed).1.2
      (recover 20 gone example_empty_queue example_crashed).2 =
    (res2, (recover 20 gone example_empty_queue example_crashed).1.2,
     (recover 20 gone example_empty_queue example_crashed).2) /\ recovery_ok res2 = true.
Proof.
  apply (recover_idempotent 20 gone 30 example_empty_queue example_crashed
           (recover 20 gone example_empty_queue example_crashed).1.1).
  - apply example_crashed_inv.
  - apply example_start_ok.
  - apply example_empty_queue_ok.
  - vm_compute. reflexivity.
  - vm_compute. reflexivity.
  - vm_compute. reflexivity.
Defined.

Lemma recover_active_verified_witness :
  let s' := (recover 20 (verify_identity_via_proc live_ticks live_pgid) example_empty_queue example_crashed).2 in
  exists r', st_jobs (im_state s') !! 3 = Some r' /\ sj_state r' <> kStarting.
Proof.
  intros s'. eexists. split; [vm_compute; reflexivity|].
  edestruct (recover_active_verified 20 live_ticks live_pgid example_empty_queue example_crashed
    (recover 20 (verify_identity_via_proc live_ticks live_pgid) example_empty_queue example_crashed).1.1
    (recover 20 (verify_identity_via_proc live_ticks live_pgid) example_empty_queue example_crashed).1.2
    s' 3) as (_ & _ & Hns & _).
  - apply example_crashed_inv.
  - apply example_start_ok.
  - apply example_empty_queue_ok.
  - vm_compute. reflexivity.
  - vm_compute. reflexivity.
  - vm_compute. reflexivity.
  - vm_compute. reflexivity.
  - exact Hns.
Defined.

Lemma recover_ok_iff_clock_witness : ~ clock_ok 8 gone example_start_state.
Proof.
  intros Hclock.
  assert (recovery_ok (recover 8 gone example_empty_queue example_crashed).1.1 = true) as Hok.
  { apply recover_ok_iff_clock.
    - split; reflexivity.
    - apply example_start_ok.
    - apply example_empty_queue_ok.
    - destruct (queue_restore_inv example_empty_queue (snapshot_of example_start_state)
        (queue_restore (snapshot_of example_start_state) example_empty_queue).1
        (queue_restore (snapshot_of example_start_state) example_empty_queue).2) as [Hr _].
      + apply surjective_pairing.
      + vm_compute. reflexivity.
      + exact Hr.
    - vm_compute. discriminate.
    - exact Hclock. }
  vm_compute in Hok. discriminate.
Defined.
