(* ===== verification/Wire.v ===== *)
(** * The wire primitives: the classes [Writer] and [Reader] of
    [src/ipc/ipc_protocol.cpp] and the limits of
    [include/yori/ipc/ipc_protocol.hpp]

    A buffer of [std::uint8_t] is a [list ascii].  A [Writer] call is the bytes
    it appends, or [None] when it reports an out-of-range field; a [Reader] call
    runs on the bytes not yet consumed and returns a value with the rest, or a
    decode error.  [round_trips] and [extends] are the two facts about an
    encoder/decoder pair that the message files compose. *)

From S2P Require Import Prelude.

(** ** Limits and error codes *)

Definition bytes : Type := list ascii.

Definition kMaxPayloadBytes : N := 1048576.
Definition kMinPayloadBytes : N := 2.
Definition kProtocolVersion : N := 4.
Definition kMinProtocolVersion : N := 1.
Definition kStreamFrameVersion : N := 1.
Definition kMaxStringBytes : N := 65536.
Definition kMaxItemCount : N := 256.
Definition kMaxListItems : N := 1024.
Definition kMaxLogTailBytes : N := 262144.
Definition kMaxStreamDataBytes : N := 262144.
Definition kMaxBytesFieldBytes : N := 524288.

Definition ipc_payload_length_valid (payload_bytes : N) : bool :=
  (kMinPayloadBytes <=? payload_bytes) && (payload_bytes <=? kMaxPayloadBytes).

Definition ipc_version_supported (version : N) : bool :=
  (kMinProtocolVersion <=? version) && (version <=? kProtocolVersion).

Inductive IpcDecodeError :=
| DE_kNone
| DE_kTruncated
| DE_kOversize
| DE_kBadVersion
| DE_kBadKind
| DE_kBadString
| DE_kTooManyItems
| DE_kTrailingBytes
| DE_kInvalidValue.

#[export] Instance IpcDecodeError_eq_dec : EqDecision IpcDecodeError.
Proof. solve_decision. Defined.

(** [to_string(IpcDecodeError)] *)
Definition IpcDecodeError_to_string (error : IpcDecodeError) : string :=
  match error with
  | DE_kNone => "none"
  | DE_kTruncated => "truncated"
  | DE_kOversize => "oversize"
  | DE_kBadVersion => "bad version"
  | DE_kBadKind => "bad kind"
  | DE_kBadString => "bad string"
  | DE_kTooManyItems => "too many items"
  | DE_kTrailingBytes => "trailing bytes"
  | DE_kInvalidValue => "invalid value"
  end.

(** ** [Writer] *)

(** The appended bytes, or the failure mark. *)
Definition Enc : Type := option bytes.

Definition enc_seq (a b : Enc) : Enc :=
  match a, b with Some x, Some y => Some (x ++ y) | _, _ => None end.

Declare Scope wire_scope.
Notation "a +++ b" := (enc_seq a b) (at level 60, right associativity) : wire_scope.
#[global] Open Scope wire_scope.

(** [for (shift = 0; shift < 8 * width; shift += 8) push_back((value >> shift) & 0xff)] *)
Fixpoint put_le (width : nat) (shift value : N) : bytes :=
  match width with
  | O => []
  | S width' => ascii_of_N (N.land (N.shiftr value shift) 255) :: put_le width' (shift + 8) value
  end.

Definition write_u8 (value : N) : Enc := Some [ascii_of_N value].
Definition write_u32 (value : N) : Enc := Some (put_le 4 0 value).
Definition write_u64 (value : N) : Enc := Some (put_le 8 0 value).

(** [memcpy] of a two's-complement [std::int32_t] *)
Definition i32_bits (value : Z) : N := Z.to_N (value mod 4294967296).
Definition write_i32 (value : Z) : Enc := write_u32 (i32_bits value).

Definition write_string (value : string) : Enc :=
  if (kMaxStringBytes <? slen value) || contains_nul value then None
  else write_u32 (slen value) +++ Some (String.list_ascii_of_string value).

Definition write_opt_string (value : option string) : Enc :=
  match value with
  | None => write_u8 0
  | Some v => write_u8 1 +++ write_string v
  end.

Definition write_bytes (value : bytes) : Enc :=
  if kMaxBytesFieldBytes <? len value then None
  else write_u32 (len value) +++ Some value.

(** [u8(b ? 1 : 0)] *)
Definition write_flag (b : bool) : Enc := write_u8 (if b then 1 else 0).

(** [for (const auto& x : l) if (!write(x)) return false;] *)
Fixpoint write_list {A} (write : A -> Enc) (l : list A) : Enc :=
  match l with
  | [] => Some []
  | x :: l' => write x +++ write_list write l'
  end.

(** [if (condition) return false;] *)
Definition enc_reject (b : bool) (k : Enc) : Enc := if b then None else k.

(** ** [Reader] *)

Definition Reader (A : Type) : Type := bytes -> Result IpcDecodeError (A * bytes).

Definition read_ret {A} (a : A) : Reader A := fun b => Ok (a, b).
Definition read_fail {A} (e : IpcDecodeError) : Reader A := fun _ => Err e.
Definition read_bind {A B} (r : Reader A) (k : A -> Reader B) : Reader B :=
  fun b => let? '(a, rest) := r b in k a rest.

Notation "'let!' x := r 'in' k" := (read_bind r (fun x => k))
  (at level 200, x name, r at level 100, k at level 200, right associativity) : wire_scope.
(** [if (condition) return error;] *)
Notation "'fail_if' b 'with' e ; k" := (if b then read_fail e else k)
  (at level 200, b at level 100, e at level 100, k at level 200, right associativity) : wire_scope.

(** [out |= data[offset + shift / 8] << shift] *)
Fixpoint get_le (width : nat) (shift acc : N) (data : bytes) : N :=
  match width, data with
  | S width', c :: data' =>
      get_le width' (shift + 8) (N.lor acc (N.shiftl (N_of_ascii c) shift)) data'
  | _, _ => acc
  end.

Definition read_le (width : nat) : Reader N :=
  fun b => reject_if len b <? N.of_nat width with DE_kTruncated;
           Ok (get_le width 0 0 b, drop width b).

Definition read_u8 : Reader N :=
  fun b => match b with [] => Err DE_kTruncated | c :: rest => Ok (N_of_ascii c, rest) end.
Definition read_u32 : Reader N := read_le 4.
Definition read_u64 : Reader N := read_le 8.

Definition i32_of_bits (bits : N) : Z :=
  if bits <? 2147483648 then Z.of_N bits else (Z.of_N bits - 4294967296)%Z.
Definition read_i32 : Reader Z := let! bits := read_u32 in read_ret (i32_of_bits bits).

Definition read_exactly (n : N) : Reader bytes :=
  fun b => reject_if len b <? n with DE_kTruncated;
           Ok (take (N.to_nat n) b, drop (N.to_nat n) b).

Definition read_string : Reader string :=
  let! length := read_u32 in
  fail_if kMaxStringBytes <? length with DE_kOversize;
  let! raw := read_exactly length in
  fail_if contains_nul (String.string_of_list_ascii raw) with DE_kBadString;
  read_ret (String.string_of_list_ascii raw).

Definition read_opt_string : Reader (option string) :=
  let! present := read_u8 in
  fail_if 1 <? present with DE_kInvalidValue;
  if present =? 0 then read_ret None
  else let! s := read_string in read_ret (Some s).

Definition read_bytes : Reader bytes :=
  let! length := read_u32 in
  fail_if kMaxBytesFieldBytes <? length with DE_kOversize;
  read_exactly length.

Definition read_count (cap : N) : Reader N :=
  let! n := read_u32 in
  fail_if cap <? n with DE_kTooManyItems;
  read_ret n.

Definition read_flag : Reader bool :=
  let! v := read_u8 in
  fail_if 1 <? v with DE_kInvalidValue;
  read_ret (v =? 1).

(** [for (i = 0; i < n; ++i) items.push_back(read())] *)
Fixpoint read_times {A} (n : nat) (r : Reader A) : Reader (list A) :=
  match n with
  | O => read_ret []
  | S n' => let! x := r in let! l := read_times n' r in read_ret (x :: l)
  end.

(** A counted list with the count bounded by [cap]. *)
Definition read_list {A} (cap : N) (r : Reader A) : Reader (list A) :=
  let! n := read_count cap in read_times (N.to_nat n) r.

(** [if (has) { read() }] behind a flag. *)
Definition read_optional {A} (r : Reader A) : Reader (option A) :=
  let! has := read_flag in
  if has : bool then let! x := r in read_ret (Some x) else read_ret None.

(** [if (!reader.exhausted()) return kTrailingBytes;] after the body. *)
Definition read_all {A} (r : Reader A) (data : bytes) : Result IpcDecodeError A :=
  let? '(a, rest) := r data in
  reject_if negb (len rest =? 0) with DE_kTrailingBytes;
  Ok a.

(** ** Little-endian integers *)

Lemma put_le_length width shift value : length (put_le width shift value) = width.
Proof. revert shift. induction width; intros shift; simpl; [done|]. by f_equal. Qed.

Lemma len_put_le width shift value : len (put_le width shift value) = N.of_nat width.
Proof. unfold len. by rewrite put_le_length. Qed.

Lemma N_ascii_byte n : N_of_ascii (ascii_of_N (N.land n 255)) = N.land n 255.
Proof.
  apply N_ascii_embedding. change 255 with (N.ones 8). rewrite N.land_ones.
  apply N.mod_lt. done.
Qed.

Lemma get_put_le_testbit width shift acc value rest i :
  N.testbit (get_le width shift acc (put_le width shift value ++ rest)) i =
  N.testbit acc i ||
  (shift <=? i) && (i <? shift + 8 * N.of_nat width) && N.testbit value i.
Proof.
  revert shift acc. induction width as [|width IH]; intros shift acc; cbn [put_le app get_le].
  { destruct (N.leb_spec shift i), (N.ltb_spec i (shift + 8 * N.of_nat 0)); simpl;
      rewrite ?orb_false_r; done || lia. }
  rewrite IH, N_ascii_byte, N.lor_spec.
  assert (N.testbit (N.shiftl (N.land (N.shiftr value shift) 255) shift) i =
          (shift <=? i) && (i <? shift + 8) && N.testbit value i) as ->.
  { destruct (N.leb_spec shift i) as [Hle|Hlt]; simpl; [|by rewrite N.shiftl_spec_low].
    rewrite N.shiftl_spec_high' by done. rewrite N.land_spec, N.shiftr_spec'.
    rewrite N.sub_add by done. change 255 with (N.ones 8).
    destruct (N.ltb_spec i (shift + 8)).
    - rewrite N.ones_spec_low by lia. by rewrite andb_true_r.
    - rewrite N.ones_spec_high by lia. by rewrite andb_false_r. }
  destruct (N.testbit acc i), (N.testbit value i); simpl; rewrite ?andb_true_r, ?andb_false_r; try done.
  destruct (N.leb_spec shift i), (N.ltb_spec i (shift + 8)), (N.leb_spec (shift + 8) i),
    (N.ltb_spec i (shift + 8 + 8 * N.of_nat width)), (N.ltb_spec i (shift + 8 * N.of_nat (S width)));
    simpl; done || lia.
Qed.

(** A value of the right width survives. *)
Lemma get_put_le width value rest :
  value < 2 ^ (8 * N.of_nat width) -> get_le width 0 0 (put_le width 0 value ++ rest) = value.
Proof.
  intros Hv. apply N.bits_inj. intros i. rewrite get_put_le_testbit, N.bits_0. cbn [orb].
  rewrite (proj2 (N.leb_le 0 i)) by lia. cbn [andb].
  destruct (N.ltb_spec i (0 + 8 * N.of_nat width)) as [|Hge]; simpl; [done|].
  symmetry. destruct (N.eq_dec value 0) as [->|Hne]; [apply N.bits_0|].
  apply N.bits_above_log2. assert (N.log2 value < 8 * N.of_nat width) by (apply N.log2_lt_pow2; lia).
  lia.
Qed.

Lemma i32_bits_lt z : i32_bits z < 4294967296.
Proof. unfold i32_bits. pose proof (Z.mod_pos_bound z 4294967296 eq_refl). lia. Qed.

Lemma i32_of_i32_bits z : (-2147483648 <= z < 2147483648)%Z -> i32_of_bits (i32_bits z) = z.
Proof.
  intros Hz. unfold i32_of_bits, i32_bits.
  destruct (Z.lt_ge_cases z 0).
  - rewrite (Z.mod_eq z 4294967296) by lia.
    replace (z / 4294967296)%Z with (-1)%Z by (apply (Z.div_unique_pos _ _ _ (z + 4294967296)); lia).
    destruct (N.ltb_spec (Z.to_N (z - 4294967296 * -1)) 2147483648); lia.
  - rewrite Z.mod_small by lia. destruct (N.ltb_spec (Z.to_N z) 2147483648); lia.
Qed.

(** ** Round trips *)

(** Whatever [e] writes, [r] reads back as [a], leaving the bytes after it. *)
Definition round_trips {A} (e : Enc) (r : Reader A) (a : A) : Prop :=
  forall b rest, e = Some b -> r (b ++ rest) = Ok (a, rest).

Lemma enc_seq_some e1 e2 b :
  e1 +++ e2 = Some b -> exists b1 b2, e1 = Some b1 /\ e2 = Some b2 /\ b = b1 ++ b2.
Proof. destruct e1, e2; simpl; naive_solver. Qed.

Lemma rt_ret {A} (a : A) : round_trips (Some []) (read_ret a) a.
Proof. by intros b rest [= <-]. Qed.

Lemma rt_bind {A B} e1 e2 (r : Reader A) (k : A -> Reader B) a b :
  round_trips e1 r a -> round_trips e2 (k a) b -> round_trips (e1 +++ e2) (read_bind r k) b.
Proof.
  intros H1 H2 bs rest (b1 & b2 & He1 & He2 & ->)%enc_seq_some. unfold read_bind.
  rewrite <- app_assoc, (H1 _ _ He1). simpl. by apply H2.
Qed.

(** The last read of a message. *)
Lemma rt_last {A B} e (r : Reader A) (k : A -> Reader B) a b :
  round_trips e r a -> (forall rest, k a rest = Ok (b, rest)) -> round_trips e (read_bind r k) b.
Proof. intros H1 H2 bs rest He. unfold read_bind. rewrite (H1 _ _ He). simpl. apply H2. Qed.

Lemma rt_reject {A} b e (r : Reader A) a :
  (b = false -> round_trips e r a) -> round_trips (enc_reject b e) r a.
Proof. destruct b; simpl; [|auto]. by intros _ bs rest. Qed.

Lemma rt_fail_if {A} (b : bool) err e (k : Reader A) a :
  b = false -> round_trips e k a -> round_trips e (if b then read_fail err else k) a.
Proof. by intros ->. Qed.

Lemma rt_u8 v : v <= u8_max -> round_trips (write_u8 v) read_u8 v.
Proof.
  intros Hv b rest [= <-]. simpl. rewrite N_ascii_embedding; [done|]. unfold u8_max in Hv. lia.
Qed.

Lemma rt_le width v :
  v < 2 ^ (8 * N.of_nat width) -> round_trips (Some (put_le width 0 v)) (read_le width) v.
Proof.
  intros Hv b rest [= <-]. unfold read_le. rewrite len_app, len_put_le.
  destruct (N.ltb_spec (N.of_nat width + len rest) (N.of_nat width)); [lia|].
  rewrite get_put_le by done. do 2 f_equal. rewrite <- (put_le_length width 0 v) at 1.
  apply drop_app_length.
Qed.

Lemma rt_u32 v : v <= u32_max -> round_trips (write_u32 v) read_u32 v.
Proof. intros Hv. apply (rt_le 4). unfold u32_max in Hv. simpl. lia. Qed.

Lemma rt_u64 v : v <= u64_max -> round_trips (write_u64 v) read_u64 v.
Proof. intros Hv. apply (rt_le 8). unfold u64_max in Hv. simpl. lia. Qed.

Lemma rt_i32 z : (-2147483648 <= z < 2147483648)%Z -> round_trips (write_i32 z) read_i32 z.
Proof.
  intros Hz. unfold read_i32. eapply rt_last.
  - apply rt_u32. pose proof (i32_bits_lt z). unfold u32_max. lia.
  - intros rest. unfold read_ret. by rewrite i32_of_i32_bits.
Qed.

Lemma rt_exactly (l : bytes) : round_trips (Some l) (read_exactly (len l)) l.
Proof.
  intros b rest [= <-]. unfold read_exactly. rewrite len_app.
  destruct (N.ltb_spec (len l + len rest) (len l)); [lia|]. unfold len. rewrite Nat2N.id.
  by rewrite take_app_length, drop_app_length.
Qed.

Lemma slen_list s : slen s = len (String.list_ascii_of_string s).
Proof. induction s as [|a s IH]; [done|]. simpl. by rewrite slen_cons, len_cons, IH. Qed.

Lemma rt_string s : round_trips (write_string s) read_string s.
Proof.
  unfold write_string, read_string.
  destruct (_ || _) eqn:Hbad; [intros b rest Hb; discriminate Hb|].
  apply orb_false_iff in Hbad as [Hlen Hnul].
  pose proof (proj1 (N.ltb_ge _ _) Hlen) as Hle.
  eapply rt_bind; [apply rt_u32; unfold u32_max, kMaxStringBytes in *; lia|].
  apply rt_fail_if; [exact Hlen|]. rewrite slen_list.
  eapply rt_last; [apply rt_exactly|]. intros rest.
  by rewrite String.string_of_list_ascii_of_string, Hnul.
Qed.

Lemma rt_opt_string s : round_trips (write_opt_string s) read_opt_string s.
Proof.
  unfold read_opt_string, write_opt_string. destruct s as [s|].
  - eapply rt_bind; [by apply rt_u8|]. apply rt_fail_if; [done|].
    change (1 =? 0) with false. cbv iota. eapply rt_last; [apply rt_string|]. intros rest. done.
  - eapply rt_last; [by apply rt_u8|]. intros rest. done.
Qed.

Lemma rt_bytes l : round_trips (write_bytes l) read_bytes l.
Proof.
  unfold write_bytes, read_bytes.
  destruct (kMaxBytesFieldBytes <? len l) eqn:Hlen; [intros b rest Hb; discriminate Hb|].
  pose proof (proj1 (N.ltb_ge _ _) Hlen) as Hle.
  eapply rt_bind; [apply rt_u32; unfold u32_max, kMaxBytesFieldBytes in *; lia|].
  apply rt_fail_if; [exact Hlen|]. apply rt_exactly.
Qed.

Lemma rt_flag b : round_trips (write_flag b) read_flag b.
Proof. unfold read_flag, write_flag. eapply rt_last; [apply rt_u8; by destruct b|by destruct b]. Qed.

Lemma rt_times {A B} (write : A -> Enc) (r : Reader B) (f : A -> B) l :
  (forall x, x ∈ l -> round_trips (write x) r (f x)) ->
  round_trips (write_list write l) (read_times (length l) r) (f <$> l).
Proof.
  induction l as [|x l IH]; intros Hl; [apply rt_ret|]. simpl.
  eapply rt_bind; [apply Hl; left|]. eapply rt_last; [apply IH|done].
  intros y Hy. apply Hl. by right.
Qed.

Lemma rt_list {A B} cap (write : A -> Enc) (r : Reader B) (f : A -> B) l :
  len l <= cap -> cap <= u32_max ->
  (forall x, x ∈ l -> round_trips (write x) r (f x)) ->
  round_trips (write_u32 (len l) +++ write_list write l) (read_list cap r) (f <$> l).
Proof.
  intros Hlen Hcap Hl. unfold read_list. eapply rt_bind.
  - unfold read_count. eapply rt_last; [apply rt_u32; lia|]. intros rest.
    destruct (N.ltb_spec cap (len l)); [lia|done].
  - replace (N.to_nat (len l)) with (length l) by (unfold len; by rewrite Nat2N.id).
    by apply rt_times.
Qed.

Lemma rt_optional {A B} (write : A -> Enc) (r : Reader B) (f : A -> B) o :
  (forall x, o = Some x -> round_trips (write x) r (f x)) ->
  round_trips (match o with Some x => write_u8 1 +++ write x | None => write_u8 0 end)
    (read_optional r) (f <$> o).
Proof.
  intros Ho. unfold read_optional. destruct o as [x|].
  - eapply rt_bind; [apply (rt_flag true)|]. eapply rt_last; [by apply Ho|done].
  - eapply rt_last; [apply (rt_flag false)|done].
Qed.

(** A complete payload is read back by [read_all]. *)
Lemma rt_all {A} e (r : Reader A) a b : round_trips e r a -> e = Some b -> read_all r b = Ok a.
Proof.
  intros Hr He. unfold read_all. rewrite <- (app_nil_r b), (Hr _ _ He). done.
Qed.

(** ** Locality *)

(** A reader that succeeds does the same on a longer input, and leaves the
    additional bytes alone. *)
Definition extends {A} (r : Reader A) : Prop :=
  forall b a rest x, r b = Ok (a, rest) -> r (b ++ x) = Ok (a, rest ++ x).

Lemma ext_ret {A} (a : A) : extends (read_ret a).
Proof. by intros b a' rest x [= <- <-]. Qed.

Lemma ext_fail {A} e : extends (@read_fail A e).
Proof. by intros b a rest x. Qed.

Lemma ext_bind {A B} (r : Reader A) (k : A -> Reader B) :
  extends r -> (forall a, extends (k a)) -> extends (read_bind r k).
Proof.
  intros Hr Hk b a rest x. unfold read_bind. intros ([a1 rest1] & H1 & H2)%result_bind_ok.
  rewrite (Hr _ _ _ _ H1). simpl. by apply Hk.
Qed.

Lemma ext_if {A} (b : bool) (r1 r2 : Reader A) : extends r1 -> extends r2 -> extends (if b then r1 else r2).
Proof. by destruct b. Qed.

Lemma ext_u8 : extends read_u8.
Proof. intros [|c b] a rest x; simpl; [done|]. by intros [= <- <-]. Qed.

Lemma get_le_app width shift acc b x :
  (width <= length b)%nat -> get_le width shift acc (b ++ x) = get_le width shift acc b.
Proof.
  revert shift acc b. induction width as [|width IH]; intros shift acc b Hlen; [done|].
  destruct b as [|c b]; simpl in *; [lia|]. apply IH. lia.
Qed.

Lemma ext_le width : extends (read_le width).
Proof.
  intros b a rest x. unfold read_le.
  destruct (N.ltb_spec (len b) (N.of_nat width)) as [|Hge]; [done|]. intros [= <- <-].
  rewrite len_app. destruct (N.ltb_spec (len b + len x) (N.of_nat width)); [lia|].
  unfold len in Hge. rewrite get_le_app by lia. rewrite drop_app_le by lia. done.
Qed.

Lemma ext_exactly n : extends (read_exactly n).
Proof.
  intros b a rest x. unfold read_exactly. destruct (N.ltb_spec (len b) n) as [|Hge]; [done|].
  intros [= <- <-]. rewrite len_app. destruct (N.ltb_spec (len b + len x) n); [lia|].
  unfold len in Hge. rewrite take_app_le, drop_app_le by lia. done.
Qed.

Create HintDb wire discriminated.
#[export] Hint Resolve ext_ret ext_fail ext_u8 ext_le ext_exactly : wire.

(** Locality of any reader built from the primitives. *)
Ltac solve_extends :=
  repeat first
    [ progress intros
    | solve [eauto 2 with wire]
    | apply ext_bind
    | apply ext_if
    | match goal with |- extends (match ?x with _ => _ end) => destruct x end
    | match goal with |- extends (let '(_, _) := ?x in _) => destruct x end ].

Lemma ext_i32 : extends read_i32.
Proof. unfold read_i32, read_u32. solve_extends. Qed.

Lemma ext_string : extends read_string.
Proof. unfold read_string, read_u32. solve_extends. Qed.

#[export] Hint Resolve ext_i32 ext_string : wire.

Lemma ext_opt_string : extends read_opt_string.
Proof. unfold read_opt_string. solve_extends. Qed.

Lemma ext_bytes : extends read_bytes.
Proof. unfold read_bytes, read_u32. solve_extends. Qed.

Lemma ext_flag : extends read_flag.
Proof. unfold read_flag. solve_extends. Qed.

Lemma ext_times {A} n (r : Reader A) : extends r -> extends (read_times n r).
Proof. intros Hr. induction n; simpl; solve_extends. Qed.

#[export] Hint Resolve ext_opt_string ext_bytes ext_flag ext_times : wire.

Lemma ext_list {A} cap (r : Reader A) : extends r -> extends (read_list cap r).
Proof. intros Hr. unfold read_list, read_count, read_u32. solve_extends. Qed.

Lemma ext_optional {A} (r : Reader A) : extends r -> extends (read_optional r).
Proof. intros Hr. unfold read_optional. solve_extends. Qed.

Lemma ext_u32 : extends read_u32.
Proof. apply ext_le. Qed.

Lemma ext_u64 : extends read_u64.
Proof. apply ext_le. Qed.

#[export] Hint Resolve ext_list ext_optional ext_u32 ext_u64 : wire.

(** Nothing may follow a complete payload. *)
Lemma read_all_trailing {A} (r : Reader A) b a x :
  extends r -> read_all r b = Ok a -> x <> [] -> read_all r (b ++ x) = Err DE_kTrailingBytes.
Proof.
  intros Hext Hr Hx. unfold read_all in *. apply result_bind_ok in Hr as ([a1 rest] & H1 & H2).
  destruct (N.eqb_spec (len rest) 0) as [Hz|]; simpl in H2; [|done]. apply len_zero in Hz as ->.
  rewrite (Hext _ _ _ _ H1). simpl. destruct x as [|c x]; [done|].
  destruct (N.eqb_spec (len (c :: x)) 0) as [Hz|]; [|done]. by apply len_zero in Hz.
Qed.

(** ** Counted lists and version-dependent tails *)

Definition write_counted {A} (write : A -> Enc) (l : list A) : Enc :=
  write_u32 (len l) +++ write_list write l.

Lemma rt_counted {A} cap (write : A -> Enc) (r : Reader A) l :
  len l <= cap -> cap <= u32_max -> (forall x, x ∈ l -> round_trips (write x) r x) ->
  round_trips (write_counted write l) (read_list cap r) l.
Proof.
  intros Hlen Hcap Hl. pose proof (rt_list cap write r id l Hlen Hcap Hl) as Hrt.
  by rewrite list_fmap_id in Hrt.
Qed.

Lemma rt_option {A} (write : A -> Enc) (r : Reader A) o :
  (forall x, o = Some x -> round_trips (write x) r x) ->
  round_trips (match o with Some x => write_u8 1 +++ write x | None => write_u8 0 end)
    (read_optional r) o.
Proof.
  intros Ho. pose proof (rt_optional write r id o Ho) as Hrt. by rewrite option_fmap_id in Hrt.
Qed.

Lemma rt_when {A} (b : bool) e (r : Reader A) d a :
  (b = true -> round_trips e r a) -> (b = false -> a = d) ->
  round_trips (if b then e else Some []) (if b then r else read_ret d) a.
Proof. destruct b; [auto|]. intros _ ->; [apply rt_ret|done]. Qed.

(** One step of a round-trip proof along an encoder and its decoder. *)
Ltac rt_step :=
  first
    [ apply rt_reject; intros ?
    | eapply rt_bind; [first [apply rt_string | apply rt_opt_string | apply rt_bytes | apply rt_flag
                             | apply rt_u8; lia | apply rt_u32; lia | apply rt_u64; lia
                             | apply rt_i32; lia]|]
    | apply rt_fail_if; [|] ].
