(* ===== verification/Request.v ===== *)
(** * Requests and stream frames: [src/ipc/ipc_protocol.cpp],
    [include/yori/ipc/ipc_protocol.hpp]

    The request messages of protocol versions 1 to 4 and the log stream frames:
    their encoders, decoders and frame layout.  A request is written with the
    fields of its version and read back exactly; nothing may follow it. *)

From S2P Require Import Prelude.
From S2P Require Import Wire.

(** ** Data *)

Inductive IpcRequestKind :=
| RK_kSubmit | RK_kPs | RK_kQueue | RK_kGpu | RK_kCancel | RK_kLogs
| RK_kLogsFollow | RK_kTensorboard | RK_kInspect.

#[export] Instance IpcRequestKind_eq_dec : EqDecision IpcRequestKind.
Proof. solve_decision. Defined.

(** The underlying [std::uint8_t] values. *)
Definition kind_code (k : IpcRequestKind) : N :=
  match k with
  | RK_kSubmit => 1 | RK_kPs => 2 | RK_kQueue => 3 | RK_kGpu => 4 | RK_kCancel => 5
  | RK_kLogs => 6 | RK_kLogsFollow => 7 | RK_kTensorboard => 8 | RK_kInspect => 9
  end.

Definition kind_of_code (c : N) : option IpcRequestKind :=
  find_first (fun k => kind_code k =? c)
    [RK_kSubmit; RK_kPs; RK_kQueue; RK_kGpu; RK_kCancel; RK_kLogs; RK_kLogsFollow; RK_kTensorboard;
     RK_kInspect].

Record IpcEnvMetadata := mkIpcEnvMetadata {
  iem_source : N;
  iem_python_version : option string;
}.

Record IpcSubmitRequest := mkIpcSubmit {
  is_argv : list string;
  is_cwd : string;
  is_env : gmap string string;
  is_gpu_request : N;
  is_launch_profile : option string;
  is_tensorboard_logdir : option string;
  is_executable : option string;
  is_env_metadata : option IpcEnvMetadata;
  is_gpu_spec : option string;
  is_gpu_preferred_spec : option string;
}.

Record IpcLogsRequest := mkIpcLogs { il_job_id : N; il_max_bytes : N }.

Record IpcLogsFollowRequest := mkIpcFollow {
  if_job_id : N;
  if_since_stdout : option N;
  if_since_stderr : option N;
}.

(** [IpcCancelRequest], [IpcTensorboardRequest] and [IpcInspectRequest] hold one
    job id each. *)
Record IpcRequest := mkIpcRequest {
  rq_kind : IpcRequestKind;
  rq_version : N;
  rq_submit : IpcSubmitRequest;
  rq_cancel : N;
  rq_logs : IpcLogsRequest;
  rq_logs_follow : IpcLogsFollowRequest;
  rq_tensorboard : N;
  rq_inspect : N;
}.

Definition default_submit : IpcSubmitRequest :=
  mkIpcSubmit [] "" ∅ 1 None None None None None None.

(** [IpcRequest{}] with the kind and version set *)
Definition blank_request (kind : IpcRequestKind) (version : N) : IpcRequest :=
  mkIpcRequest kind version default_submit 0 (mkIpcLogs 0 0) (mkIpcFollow 0 None None) 0 0.

(** [to_string(IpcRequestKind)] *)
Definition IpcRequestKind_to_string (kind : IpcRequestKind) : string :=
  match kind with
  | RK_kSubmit => "submit"
  | RK_kPs => "ps"
  | RK_kQueue => "queue"
  | RK_kGpu => "gpu"
  | RK_kCancel => "cancel"
  | RK_kLogs => "logs"
  | RK_kLogsFollow => "logs-follow"
  | RK_kTensorboard => "tensorboard"
  | RK_kInspect => "inspect"
  end.

(** ** Encoding *)

Definition write_metadata (m : IpcEnvMetadata) : Enc :=
  enc_reject (2 <? iem_source m) (write_u8 (iem_source m) +++ write_opt_string (iem_python_version m)).

Definition write_opt_metadata (o : option IpcEnvMetadata) : Enc :=
  match o with Some m => write_u8 1 +++ write_metadata m | None => write_u8 0 end.

Definition write_env_pair (p : string * string) : Enc := write_string p.1 +++ write_string p.2.

Definition write_opt_u64 (o : option N) : Enc :=
  match o with Some v => write_u8 1 +++ write_u64 v | None => write_u8 0 end.

Definition is_present {A} (o : option A) : bool := match o with Some _ => true | None => false end.

(** The [kSubmit] case of [encode_request_body]. *)
Definition encode_submit (version : N) (submit : IpcSubmitRequest) : Enc :=
  enc_reject ((kMaxItemCount <? len (is_argv submit)) || (kMaxItemCount <? msize (is_env submit)))
  (enc_reject ((version <? 2) && (is_present (is_executable submit) || is_present (is_env_metadata submit)))
  (enc_reject ((version <? 3) && is_present (is_gpu_spec submit))
  (enc_reject ((version <? 4) && is_present (is_gpu_preferred_spec submit))
  (write_counted write_string (is_argv submit)
   +++ write_string (is_cwd submit)
   +++ write_counted write_env_pair (map_entries (is_env submit))
   +++ write_u32 (is_gpu_request submit)
   +++ write_opt_string (is_launch_profile submit)
   +++ write_opt_string (is_tensorboard_logdir submit)
   +++ (if 2 <=? version
        then write_opt_string (is_executable submit) +++ write_opt_metadata (is_env_metadata submit)
        else Some [])
   +++ (if 3 <=? version then write_opt_string (is_gpu_spec submit) else Some [])
   +++ (if 4 <=? version then write_opt_string (is_gpu_preferred_spec submit) else Some []))))).

(** [encode_request_body] *)
Definition encode_request_body (version : N) (request : IpcRequest) : Enc :=
  match rq_kind request with
  | RK_kSubmit => encode_submit version (rq_submit request)
  | RK_kPs | RK_kQueue | RK_kGpu => Some []
  | RK_kCancel => write_u64 (rq_cancel request)
  | RK_kLogs => write_u64 (il_job_id (rq_logs request)) +++ write_u32 (il_max_bytes (rq_logs request))
  | RK_kLogsFollow =>
      write_u64 (if_job_id (rq_logs_follow request))
      +++ write_opt_u64 (if_since_stdout (rq_logs_follow request))
      +++ write_opt_u64 (if_since_stderr (rq_logs_follow request))
  | RK_kTensorboard => write_u64 (rq_tensorboard request)
  | RK_kInspect => write_u64 (rq_inspect request)
  end.

(** [encode_payload]: the payload, or [None] on failure. *)
Definition encode_payload (kind : IpcRequestKind) (version : N) (body : Enc) : Enc :=
  enc_reject (negb (ipc_version_supported version))
    (match write_u8 version +++ write_u8 (kind_code kind) +++ body with
     | Some payload => if kMaxPayloadBytes <? len payload then None else Some payload
     | None => None
     end).

Definition request_payload (request : IpcRequest) : Enc :=
  encode_payload (rq_kind request) (rq_version request)
    (encode_request_body (rq_version request) request).

(** Appending a payload to [out] on success; on failure [out] is as before. *)
Definition append_payload (payload : Enc) (out : bytes) : bool * bytes :=
  match payload with Some p => (true, out ++ p) | None => (false, out) end.

(** Appending a length-prefixed frame. *)
Definition append_frame (payload : Enc) (out : bytes) : bool * bytes :=
  match payload with
  | Some p => (true, out ++ put_le 4 0 (len p) ++ p)
  | None => (false, out)
  end.

Definition encode_request_payload (request : IpcRequest) (out : bytes) : bool * bytes :=
  append_payload (request_payload request) out.

Definition append_request_frame (request : IpcRequest) (out : bytes) : bool * bytes :=
  append_frame (request_payload request) out.

(** ** Decoding *)

Definition read_metadata : Reader IpcEnvMetadata :=
  let! source := read_u8 in
  fail_if 2 <? source with DE_kInvalidValue;
  let! python_version := read_opt_string in
  read_ret (mkIpcEnvMetadata source python_version).

Definition read_env_pair : Reader (string * string) :=
  let! name := read_string in
  let! value := read_string in
  read_ret (name, value).

(** [env.emplace(name, value)] for each pair read. *)
Definition env_of_pairs (pairs : list (string * string)) : gmap string string :=
  fold_left (fun m p => emplace p.1 p.2 m) pairs ∅.

Definition decode_submit (version : N) : Reader IpcSubmitRequest :=
  let! argv := read_list kMaxItemCount read_string in
  let! cwd := read_string in
  let! pairs := read_list kMaxItemCount read_env_pair in
  let! gpu_request := read_u32 in
  let! launch_profile := read_opt_string in
  let! tensorboard_logdir := read_opt_string in
  let! v2 := (if 2 <=? version
              then let! e := read_opt_string in
                   let! m := read_optional read_metadata in
                   read_ret (e, m)
              else read_ret (None, None)) in
  let! gpu_spec := (if 3 <=? version then read_opt_string else read_ret None) in
  let! gpu_preferred_spec := (if 4 <=? version then read_opt_string else read_ret None) in
  read_ret (mkIpcSubmit argv cwd (env_of_pairs pairs) gpu_request launch_profile tensorboard_logdir
              v2.1 v2.2 gpu_spec gpu_preferred_spec).

(** [decode_request_body], before the exhaustion check. *)
Definition decode_request_body : Reader IpcRequest :=
  let! version := read_u8 in
  let! code := read_u8 in
  fail_if negb (ipc_version_supported version) with DE_kBadVersion;
  match kind_of_code code with
  | None => read_fail DE_kBadKind
  | Some kind =>
      fail_if bool_decide (kind = RK_kInspect) && (version <? 2) with DE_kBadKind;
      let out := blank_request kind version in
      match kind with
      | RK_kSubmit => let! submit := decode_submit version in read_ret {| out with rq_submit := submit |}
      | RK_kPs | RK_kQueue | RK_kGpu => read_ret out
      | RK_kCancel => let! id := read_u64 in read_ret {| out with rq_cancel := id |}
      | RK_kLogs =>
          let! id := read_u64 in
          let! max_bytes := read_u32 in
          read_ret {| out with rq_logs := mkIpcLogs id max_bytes |}
      | RK_kLogsFollow =>
          let! id := read_u64 in
          let! since_stdout := read_optional read_u64 in
          let! since_stderr := read_optional read_u64 in
          read_ret {| out with rq_logs_follow := mkIpcFollow id since_stdout since_stderr |}
      | RK_kTensorboard => let! id := read_u64 in read_ret {| out with rq_tensorboard := id |}
      | RK_kInspect => let! id := read_u64 in read_ret {| out with rq_inspect := id |}
      end
  end.

Definition decode_request_payload (data : bytes) : Result IpcDecodeError IpcRequest :=
  reject_if kMaxPayloadBytes <? len data with DE_kOversize;
  read_all decode_request_body data.

(** ** Stream frames *)

Inductive IpcStreamFrameKind := SK_kLogData | SK_kLogGap | SK_kLogBackpressure | SK_kLogEof.

Definition stream_kind_code (k : IpcStreamFrameKind) : N :=
  match k with SK_kLogData => 1 | SK_kLogGap => 2 | SK_kLogBackpressure => 3 | SK_kLogEof => 4 end.

Definition stream_kind_of_code (c : N) : option IpcStreamFrameKind :=
  find_first (fun k => stream_kind_code k =? c)
    [SK_kLogData; SK_kLogGap; SK_kLogBackpressure; SK_kLogEof].

Record IpcExitStatus := mkIpcExit { ie_exited_normally : bool; ie_code : Z }.

Record IpcStreamFrame := mkStreamFrame {
  sf_kind : IpcStreamFrameKind;
  sf_stream : N;
  sf_begin_offset : N;
  sf_end_offset : N;
  sf_data : bytes;
  sf_job_state : N;
  sf_exit : option IpcExitStatus;
}.

Definition kUnderlyingJobStateMax : N := 7.
Definition kUnderlyingStreamMax : N := 1.

(** [to_string(IpcStreamFrameKind)] *)
Definition IpcStreamFrameKind_to_string (kind : IpcStreamFrameKind) : string :=
  match kind with
  | SK_kLogData => "log-data"
  | SK_kLogGap => "log-gap"
  | SK_kLogBackpressure => "log-backpressure"
  | SK_kLogEof => "log-eof"
  end.

Definition write_exit (e : IpcExitStatus) : Enc :=
  write_flag (ie_exited_normally e) +++ write_i32 (ie_code e).

Definition write_opt_exit (o : option IpcExitStatus) : Enc :=
  match o with Some e => write_u8 1 +++ write_exit e | None => write_u8 0 end.

(** [encode_stream_frame_body] *)
Definition encode_stream_frame_body (frame : IpcStreamFrame) : Enc :=
  match sf_kind frame with
  | SK_kLogData =>
      enc_reject ((kUnderlyingStreamMax <? sf_stream frame)
                  || (kMaxStreamDataBytes <? len (sf_data frame))
                  || (sf_end_offset frame <? sf_begin_offset frame))
        (write_u8 (sf_stream frame) +++ write_u64 (sf_begin_offset frame)
         +++ write_u64 (sf_end_offset frame) +++ write_bytes (sf_data frame))
  | SK_kLogGap =>
      enc_reject ((kUnderlyingStreamMax <? sf_stream frame)
                  || (sf_end_offset frame <? sf_begin_offset frame))
        (write_u8 (sf_stream frame) +++ write_u64 (sf_begin_offset frame)
         +++ write_u64 (sf_end_offset frame))
  | SK_kLogBackpressure =>
      enc_reject (kUnderlyingStreamMax <? sf_stream frame)
        (write_u8 (sf_stream frame) +++ write_u64 (sf_begin_offset frame))
  | SK_kLogEof =>
      enc_reject (kUnderlyingJobStateMax <? sf_job_state frame)
        (write_u8 (sf_job_state frame) +++ write_opt_exit (sf_exit frame))
  end.

(** The payload of [encode_stream_frame_payload]. *)
Definition stream_payload (frame : IpcStreamFrame) : Enc :=
  match write_u8 kStreamFrameVersion +++ write_u8 (stream_kind_code (sf_kind frame))
        +++ encode_stream_frame_body frame with
  | Some payload => if kMaxPayloadBytes <? len payload then None else Some payload
  | None => None
  end.

Definition encode_stream_frame_payload (frame : IpcStreamFrame) (out : bytes) : bool * bytes :=
  append_payload (stream_payload frame) out.

Definition append_stream_frame (frame : IpcStreamFrame) (out : bytes) : bool * bytes :=
  append_frame (stream_payload frame) out.

Definition read_exit : Reader IpcExitStatus :=
  let! normal := read_flag in
  let! code := read_i32 in
  read_ret (mkIpcExit normal code).

Definition blank_frame (kind : IpcStreamFrameKind) : IpcStreamFrame :=
  mkStreamFrame kind 0 0 0 [] 0 None.

(** [decode_stream_frame_body], before the exhaustion check. *)
Definition decode_stream_frame_body : Reader IpcStreamFrame :=
  let! version := read_u8 in
  let! code := read_u8 in
  fail_if negb (version =? kStreamFrameVersion) with DE_kBadVersion;
  match stream_kind_of_code code with
  | None => read_fail DE_kBadKind
  | Some kind =>
      let out := blank_frame kind in
      match kind with
      | SK_kLogData =>
          let! stream := read_u8 in
          let! first := read_u64 in
          let! last := read_u64 in
          fail_if (kUnderlyingStreamMax <? stream) || (last <? first) with DE_kInvalidValue;
          let! data := read_bytes in
          fail_if kMaxStreamDataBytes <? len data with DE_kOversize;
          read_ret {| out with sf_stream := stream; sf_begin_offset := first; sf_end_offset := last;
                               sf_data := data |}
      | SK_kLogGap =>
          let! stream := read_u8 in
          let! first := read_u64 in
          let! last := read_u64 in
          fail_if (kUnderlyingStreamMax <? stream) || (last <? first) with DE_kInvalidValue;
          read_ret {| out with sf_stream := stream; sf_begin_offset := first; sf_end_offset := last |}
      | SK_kLogBackpressure =>
          let! stream := read_u8 in
          let! first := read_u64 in
          fail_if kUnderlyingStreamMax <? stream with DE_kInvalidValue;
          read_ret {| out with sf_stream := stream; sf_begin_offset := first |}
      | SK_kLogEof =>
          let! job_state := read_u8 in
          fail_if kUnderlyingJobStateMax <? job_state with DE_kInvalidValue;
          let! exit := read_optional read_exit in
          read_ret {| out with sf_job_state := job_state; sf_exit := exit |}
      end
  end.

Definition decode_stream_frame_payload (data : bytes) : Result IpcDecodeError IpcStreamFrame :=
  reject_if kMaxPayloadBytes <? len data with DE_kOversize;
  read_all decode_stream_frame_body data.

(** ** Specification *)

(** The integer fields fit their C++ types. *)
Record RequestInRange (r : IpcRequest) : Prop := {
  rir_gpu_request : is_gpu_request (rq_submit r) <= u32_max;
  rir_cancel : rq_cancel r <= u64_max;
  rir_logs : il_job_id (rq_logs r) <= u64_max;
  rir_max_bytes : il_max_bytes (rq_logs r) <= u32_max;
  rir_follow : if_job_id (rq_logs_follow r) <= u64_max;
  rir_since : forall v, if_since_stdout (rq_logs_follow r) = Some v \/
                        if_since_stderr (rq_logs_follow r) = Some v -> v <= u64_max;
  rir_tensorboard : rq_tensorboard r <= u64_max;
  rir_inspect : rq_inspect r <= u64_max;
}.

(** What a request says: the fields of its kind. *)
Definition request_canonical (r : IpcRequest) : IpcRequest :=
  let out := blank_request (rq_kind r) (rq_version r) in
  match rq_kind r with
  | RK_kSubmit => {| out with rq_submit := rq_submit r |}
  | RK_kPs | RK_kQueue | RK_kGpu => out
  | RK_kCancel => {| out with rq_cancel := rq_cancel r |}
  | RK_kLogs => {| out with rq_logs := rq_logs r |}
  | RK_kLogsFollow => {| out with rq_logs_follow := rq_logs_follow r |}
  | RK_kTensorboard => {| out with rq_tensorboard := rq_tensorboard r |}
  | RK_kInspect => {| out with rq_inspect := rq_inspect r |}
  end.

(** What a receiver makes of a request: the fields of its kind; an INSPECT
    request exists from version 2 on. *)
Definition request_received (r : IpcRequest) : Result IpcDecodeError IpcRequest :=
  if bool_decide (rq_kind r = RK_kInspect) && (rq_version r <? 2) then Err DE_kBadKind else Ok (request_canonical r).

Definition exit_in_range (e : IpcExitStatus) : Prop := (-2147483648 <= ie_code e < 2147483648)%Z.

Record FrameInRange (f : IpcStreamFrame) : Prop := {
  fir_begin : sf_begin_offset f <= u64_max;
  fir_end : sf_end_offset f <= u64_max;
  fir_exit : forall e, sf_exit f = Some e -> exit_in_range e;
}.

Definition frame_canonical (f : IpcStreamFrame) : IpcStreamFrame :=
  let out := blank_frame (sf_kind f) in
  match sf_kind f with
  | SK_kLogData => {| out with sf_stream := sf_stream f; sf_begin_offset := sf_begin_offset f;
                               sf_end_offset := sf_end_offset f; sf_data := sf_data f |}
  | SK_kLogGap => {| out with sf_stream := sf_stream f; sf_begin_offset := sf_begin_offset f;
                              sf_end_offset := sf_end_offset f |}
  | SK_kLogBackpressure => {| out with sf_stream := sf_stream f; sf_begin_offset := sf_begin_offset f |}
  | SK_kLogEof => {| out with sf_job_state := sf_job_state f; sf_exit := sf_exit f |}
  end.

(** ** Round-trip lemmas *)

Lemma rt_metadata m : round_trips (write_metadata m) read_metadata m.
Proof.
  unfold write_metadata, read_metadata. apply rt_reject. intros Hs.
  pose proof (proj1 (N.ltb_ge _ _) Hs) as Hle.
  eapply rt_bind; [apply rt_u8; unfold u8_max; lia|]. apply rt_fail_if; [exact Hs|].
  eapply rt_last; [apply rt_opt_string|]. intros rest. by destruct m.
Qed.

Lemma rt_env_pair p : round_trips (write_env_pair p) read_env_pair p.
Proof.
  unfold write_env_pair, read_env_pair. eapply rt_bind; [apply rt_string|].
  eapply rt_last; [apply rt_string|]. intros rest. by destruct p.
Qed.

Lemma rt_opt_u64 o : (forall v, o = Some v -> v <= u64_max) -> round_trips (write_opt_u64 o) (read_optional read_u64) o.
Proof. intros Ho. apply (rt_option write_u64). intros v Hv. by apply rt_u64, Ho. Qed.

Lemma rt_exit e : exit_in_range e -> round_trips (write_exit e) read_exit e.
Proof.
  intros He. unfold write_exit, read_exit. eapply rt_bind; [apply rt_flag|].
  eapply rt_last; [by apply rt_i32|]. intros rest. by destruct e.
Qed.

Lemma emplace_fold_env pairs (m : gmap string string) :
  NoDup pairs.*1 -> (forall k, k ∈ pairs.*1 -> m !! k = None) ->
  fold_left (fun m p => emplace p.1 p.2 m) pairs m = list_to_map pairs ∪ m.
Proof.
  revert m. induction pairs as [|[k v] pairs IH]; intros m Hnd Hnew; simpl.
  { by rewrite (left_id_L ∅ (∪)). }
  rewrite fmap_cons in Hnd, Hnew. apply NoDup_cons in Hnd as [Hk Hnd]. simpl in *.
  assert (emplace k v m = <[k:=v]> m) as -> by (unfold emplace; rewrite Hnew; [done|left]).
  rewrite IH; [|done|].
  - rewrite insert_union_singleton_l, (insert_union_singleton_l (list_to_map pairs)).
    rewrite (assoc_L (∪)). f_equal. apply map_union_comm, map_disjoint_singleton_r.
    by apply not_elem_of_list_to_map_1.
  - intros k' Hk'. rewrite lookup_insert_ne; [apply Hnew; by right|]. by intros <-.
Qed.

Lemma env_of_map_entries m : env_of_pairs (map_entries m) = m.
Proof.
  unfold env_of_pairs. rewrite emplace_fold_env.
  - rewrite (right_id_L ∅ (∪)). symmetry. apply list_to_map_flip. symmetry.
    apply map_entries_perm.
  - apply NoDup_map_entries_keys.
  - intros k _. apply lookup_empty.
Qed.

Lemma rt_submit version submit :
  is_gpu_request submit <= u32_max ->
  round_trips (encode_submit version submit) (decode_submit version) submit.
Proof.
  intros Hreq. unfold encode_submit, decode_submit.
  apply rt_reject. intros [Hargv Henv]%orb_false_iff.
  apply rt_reject. intros H2. apply rt_reject. intros H3. apply rt_reject. intros H4.
  apply N.ltb_ge in Hargv. apply N.ltb_ge in Henv.
  eapply rt_bind; [apply rt_counted; [done|done|]; intros s _; apply rt_string|].
  eapply rt_bind; [apply rt_string|].
  eapply rt_bind; [apply rt_counted; [by rewrite len_map_entries|done|]; intros p _; apply rt_env_pair|].
  eapply rt_bind; [by apply rt_u32|].
  eapply rt_bind; [apply rt_opt_string|]. eapply rt_bind; [apply rt_opt_string|].
  eapply rt_bind.
  { apply (rt_when _ _ _ _ (is_executable submit, is_env_metadata submit)); intros Hv.
    - eapply rt_bind; [apply rt_opt_string|].
      eapply rt_last; [apply (rt_option write_metadata); intros m _; apply rt_metadata|]. done.
    - apply N.leb_gt in Hv. rewrite (proj2 (N.ltb_lt _ _) Hv) in H2. simpl in H2.
      by destruct (is_executable submit), (is_env_metadata submit). }
  eapply rt_bind.
  { apply (rt_when _ _ _ _ (is_gpu_spec submit)); intros Hv; [apply rt_opt_string|].
    apply N.leb_gt in Hv. rewrite (proj2 (N.ltb_lt _ _) Hv) in H3. by destruct (is_gpu_spec submit). }
  eapply rt_last.
  { apply (rt_when _ _ _ _ (is_gpu_preferred_spec submit)); intros Hv; [apply rt_opt_string|].
    apply N.leb_gt in Hv. rewrite (proj2 (N.ltb_lt _ _) Hv) in H4.
    by destruct (is_gpu_preferred_spec submit). }
  intros rest. rewrite env_of_map_entries. by destruct submit.
Qed.

Lemma kind_of_kind_code k : kind_of_code (kind_code k) = Some k.
Proof. by destruct k. Qed.

Lemma version_supported_u8 v : ipc_version_supported v = true -> v <= u8_max.
Proof.
  unfold ipc_version_supported, kProtocolVersion, u8_max. intros [_ Hv%N.leb_le]%andb_true_iff. lia.
Qed.

(** Any INSPECT request is of version 2 or later. *)
Definition kind_version_ok (kind : IpcRequestKind) (version : N) : Prop :=
  kind = RK_kInspect -> 2 <= version.

Lemma rt_request r :
  RequestInRange r -> ipc_version_supported (rq_version r) = true ->
  kind_version_ok (rq_kind r) (rq_version r) ->
  round_trips (write_u8 (rq_version r) +++ write_u8 (kind_code (rq_kind r))
               +++ encode_request_body (rq_version r) r)
    decode_request_body (request_canonical r).
Proof.
  intros [H1 H2 H3 H4 H5 H6 H7 H8] Hv Hk. unfold decode_request_body.
  eapply rt_bind; [apply rt_u8; by apply version_supported_u8|].
  eapply rt_bind; [apply rt_u8; by destruct (rq_kind r)|].
  apply rt_fail_if; [by rewrite Hv|]. rewrite kind_of_kind_code.
  apply rt_fail_if.
  { unfold kind_version_ok in Hk. case_bool_decide; [|done]. simpl. apply N.ltb_ge. by apply Hk. }
  unfold encode_request_body, request_canonical. destruct (rq_kind r).
  - eapply rt_last; [by apply rt_submit|]. done.
  - apply rt_ret.
  - apply rt_ret.
  - apply rt_ret.
  - eapply rt_last; [by apply rt_u64|]. done.
  - eapply rt_bind; [by apply rt_u64|]. eapply rt_last; [by apply rt_u32|].
    intros rest. by destruct (rq_logs r).
  - eapply rt_bind; [by apply rt_u64|].
    eapply rt_bind; [apply rt_opt_u64; intros v ?; apply H6; by left|].
    eapply rt_last; [apply rt_opt_u64; intros v ?; apply H6; by right|].
    intros rest. by destruct (rq_logs_follow r).
  - eapply rt_last; [by apply rt_u64|]. done.
  - eapply rt_last; [by apply rt_u64|]. done.
Qed.

Lemma rt_frame f :
  FrameInRange f ->
  round_trips (write_u8 kStreamFrameVersion +++ write_u8 (stream_kind_code (sf_kind f))
               +++ encode_stream_frame_body f)
    decode_stream_frame_body (frame_canonical f).
Proof.
  intros [Hb He Hx]. unfold decode_stream_frame_body.
  eapply rt_bind; [by apply rt_u8|]. eapply rt_bind; [apply rt_u8; by destruct (sf_kind f)|].
  apply rt_fail_if; [done|].
  assert (stream_kind_of_code (stream_kind_code (sf_kind f)) = Some (sf_kind f)) as ->
    by by destruct (sf_kind f).
  assert ((kUnderlyingStreamMax <? sf_stream f) = false -> sf_stream f <= u8_max) as Hs8.
  { unfold kUnderlyingStreamMax, u8_max. rewrite N.ltb_ge. lia. }
  unfold encode_stream_frame_body, frame_canonical. destruct (sf_kind f).
  - apply rt_reject. intros [[Hs Hd]%orb_false_iff Ho]%orb_false_iff.
    eapply rt_bind; [by apply rt_u8, Hs8|]. eapply rt_bind; [by apply rt_u64|].
    eapply rt_bind; [by apply rt_u64|]. apply rt_fail_if; [by rewrite Hs, Ho|].
    eapply rt_last; [apply rt_bytes|]. intros rest. by rewrite Hd.
  - apply rt_reject. intros [Hs Ho]%orb_false_iff.
    eapply rt_bind; [by apply rt_u8, Hs8|]. eapply rt_bind; [by apply rt_u64|].
    eapply rt_last; [by apply rt_u64|]. intros rest. by rewrite Hs, Ho.
  - apply rt_reject. intros Hs. eapply rt_bind; [by apply rt_u8, Hs8|].
    eapply rt_last; [by apply rt_u64|]. intros rest. by rewrite Hs.
  - apply rt_reject. intros Hs. pose proof (proj1 (N.ltb_ge _ _) Hs) as Hle.
    eapply rt_bind; [apply rt_u8; unfold kUnderlyingJobStateMax, u8_max in *; lia|].
    apply rt_fail_if; [done|].
    eapply rt_last; [apply (rt_option write_exit); intros e ?; by apply rt_exit, Hx|]. done.
Qed.

(** ** Payloads and frames *)

Lemma encode_payload_some kind version body p :
  encode_payload kind version body = Some p ->
  ipc_version_supported version = true /\
  write_u8 version +++ write_u8 (kind_code kind) +++ body = Some p /\ len p <= kMaxPayloadBytes.
Proof.
  unfold encode_payload, enc_reject. destruct (ipc_version_supported version); [|done]. cbn [negb].
  destruct (_ +++ _) as [q|]; [|done].
  destruct (N.ltb_spec kMaxPayloadBytes (len q)); [done|]. by intros [= <-].
Qed.

Lemma stream_payload_some f p :
  stream_payload f = Some p ->
  write_u8 kStreamFrameVersion +++ write_u8 (stream_kind_code (sf_kind f))
    +++ encode_stream_frame_body f = Some p /\ len p <= kMaxPayloadBytes.
Proof.
  unfold stream_payload. destruct (_ +++ _) as [q|]; [|done].
  destruct (N.ltb_spec kMaxPayloadBytes (len q)); [done|]. by intros [= <-].
Qed.

(** A header of two bytes is always there. *)
Lemma payload_length_valid v k body p :
  write_u8 v +++ write_u8 k +++ body = Some p -> len p <= kMaxPayloadBytes ->
  ipc_payload_length_valid (len p) = true.
Proof.
  intros Hp Hmax. destruct body as [b|]; simpl in Hp; [|done]. injection Hp as <-.
  unfold ipc_payload_length_valid. apply andb_true_iff. split; apply N.leb_le; [|done].
  rewrite !len_cons. unfold kMinPayloadBytes. lia.
Qed.

Lemma append_frame_inv e out ok out' :
  append_frame e out = (ok, out') ->
  if ok then exists p, e = Some p /\ out' = out ++ put_le 4 0 (len p) ++ p else out' = out.
Proof.
  unfold append_frame. destruct e as [p|]; intros [<- <-]%pair_equal_spec; [|reflexivity].
  exists p. split; reflexivity.
Qed.

(** The length prefix of a frame leads a receiver to the payload. *)
Lemma frame_prefix p rest :
  len p <= kMaxPayloadBytes -> read_u32 (put_le 4 0 (len p) ++ p ++ rest) = Ok (len p, p ++ rest).
Proof.
  intros Hp. apply (rt_u32 (len p)); [|done]. unfold kMaxPayloadBytes, u32_max in *. lia.
Qed.

Lemma decode_within {A} (r : Reader A) data :
  len data <= kMaxPayloadBytes ->
  (if kMaxPayloadBytes <? len data then Err DE_kOversize else read_all r data) = read_all r data.
Proof. intros Hl. destruct (N.ltb_spec kMaxPayloadBytes (len data)); [lia|done]. Qed.

Lemma ext_metadata : extends read_metadata.
Proof. unfold read_metadata. solve_extends. Qed.

Lemma ext_env_pair : extends read_env_pair.
Proof. unfold read_env_pair. solve_extends. Qed.

#[export] Hint Resolve ext_metadata ext_env_pair : wire.

Lemma ext_submit version : extends (decode_submit version).
Proof. unfold decode_submit. solve_extends. Qed.

Lemma ext_exit : extends read_exit.
Proof. unfold read_exit. solve_extends. Qed.

#[export] Hint Resolve ext_submit ext_exit : wire.

Lemma ext_request : extends decode_request_body.
Proof. unfold decode_request_body. solve_extends. Qed.

Lemma ext_frame : extends decode_stream_frame_body.
Proof. unfold decode_stream_frame_body. solve_extends. Qed.

(** A payload is decoded as what the receiver should make of the request. *)
Lemma request_payload_received r p :
  RequestInRange r -> request_payload r = Some p -> decode_request_payload p = request_received r.
Proof.
  intros Hr (Hv & Hp & Hmax)%encode_payload_some. unfold decode_request_payload. rewrite decode_within by done.
  unfold request_received. case_bool_decide as Hk; cbn [andb]; [destruct (N.ltb_spec (rq_version r) 2) as [Hlt|Hge]|].
  - assert (rq_version r = 1) as Hone.
    { unfold ipc_version_supported, kMinProtocolVersion in Hv. apply andb_true_iff in Hv as [Hv%N.leb_le _]. lia. }
    rewrite Hk, Hone in Hp. destruct (encode_request_body 1 r) as [body|]; [|done].
    assert (p = ascii_of_N 1 :: ascii_of_N (kind_code RK_kInspect) :: body) as -> by (cbn [enc_seq write_u8 app] in Hp; by injection Hp). reflexivity.
  - eapply rt_all; [|exact Hp]. apply rt_request; [done|done|by intros _].
  - eapply rt_all; [|exact Hp]. apply rt_request; [done|done|by intros Heq].
Qed.

(** ** Properties of requests and stream frames *)

(** C29. A request survives the wire: a frame appended for it is the old buffer,
    the four-byte length and the payload; the length is one every receiver
    accepts, reading it leads to the payload, and decoding the payload gives
    back the request with exactly the fields of its kind, except for an INSPECT
    request of version 1, which is encoded but rejected as of a bad kind.
    When the request cannot be encoded the buffer is unchanged.  (The request's
    integers are those of their C++ types.) *)
Theorem request_frame_round_trip r out ok out' rest :
  RequestInRange r ->
  append_request_frame r out = (ok, out') ->
  if ok then
    exists payload, out' = out ++ put_le 4 0 (len payload) ++ payload /\
      ipc_payload_length_valid (len payload) = true /\
      read_u32 (put_le 4 0 (len payload) ++ payload ++ rest) = Ok (len payload, payload ++ rest) /\
      decode_request_payload payload =
        (if bool_decide (rq_kind r = RK_kInspect) && (rq_version r <? 2) then Err DE_kBadKind else Ok (request_canonical r))
  else out' = out.
Proof.
  intros Hr Ha%append_frame_inv. destruct ok; [|exact Ha].
  destruct Ha as (p & Hp & ->). exists p. pose proof (encode_payload_some _ _ _ _ Hp) as (Hv & Henc & Hmax).
  split_and!; [reflexivity| | |].
  - by eapply payload_length_valid.
  - by apply frame_prefix.
  - by apply request_payload_received.
Qed.

(** A log stream frame survives the wire in the same way. *)
Theorem stream_frame_round_trip f out ok out' rest :
  FrameInRange f -> append_stream_frame f out = (ok, out') ->
  if ok then
    exists payload, out' = out ++ put_le 4 0 (len payload) ++ payload /\
      ipc_payload_length_valid (len payload) = true /\
      read_u32 (put_le 4 0 (len payload) ++ payload ++ rest) = Ok (len payload, payload ++ rest) /\
      decode_stream_frame_payload payload = Ok (frame_canonical f)
  else out' = out.
Proof.
  intros Hf Ha%append_frame_inv. destruct ok; [|exact Ha].
  destruct Ha as (p & Hp & ->). exists p. apply stream_payload_some in Hp as (Hp & Hmax). split_and!; [reflexivity| | |].
  - by eapply payload_length_valid.
  - by apply frame_prefix.
  - unfold decode_stream_frame_payload. rewrite decode_within by done.
    eapply rt_all; [|exact Hp]. by apply rt_frame.
Qed.

(** Payloads are self-delimiting: bytes after a valid request or stream frame
    are never absorbed into it; within the size limit they are reported as
    trailing bytes. *)
Theorem no_trailing_bytes data extra :
  extra <> [] -> len (data ++ extra) <= kMaxPayloadBytes ->
  (forall r, decode_request_payload data = Ok r ->
     decode_request_payload (data ++ extra) = Err DE_kTrailingBytes) /\
  (forall f, decode_stream_frame_payload data = Ok f ->
     decode_stream_frame_payload (data ++ extra) = Err DE_kTrailingBytes).
Proof.
  intros Hx Hmax. pose proof Hmax as Hmax'. rewrite len_app in Hmax'.
  unfold decode_request_payload, decode_stream_frame_payload.
  rewrite !decode_within by lia. split; intros a Ha.
  - eapply read_all_trailing; [apply ext_request|exact Ha|done].
  - eapply read_all_trailing; [apply ext_frame|exact Ha|done].
Qed.

(** An INSPECT request of version 1 is encoded but not accepted back. *)
Example inspect_v1_not_decodable :
  exists p, request_payload (blank_request RK_kInspect 1) = Some p /\
    decode_request_payload p = Err DE_kBadKind.
Proof. eexists. split; [vm_compute; reflexivity|]. vm_compute. reflexivity. Qed.

(** ** Witnesses *)

Definition example_request : IpcRequest :=
  let out := blank_request RK_kSubmit 4 in
  {| out with rq_submit :=
       mkIpcSubmit ["python"; "train.py"] "/home/u" {[ "PATH" := "/usr/bin"; "HOME" := "/home/u" ]} 1 None
         (Some "runs/a") (Some "/usr/bin/python") (Some (mkIpcEnvMetadata 1 (Some "3.11"))) (Some "0,1") None |}.

Lemma example_request_in_range : RequestInRange example_request.
Proof.
  constructor; simpl; try (apply N.leb_le; vm_compute; reflexivity). intros v [Hv|Hv]; discriminate.
Qed.

Definition example_frame : IpcStreamFrame := mkStreamFrame SK_kLogData 1 10 12 ["o"%char; "k"%char] 0 None.

Lemma request_frame_round_trip_witness :
  exists payload, (append_request_frame example_request []).2 = [] ++ put_le 4 0 (len payload) ++ payload /\
    decode_request_payload payload = Ok (request_canonical example_request).
Proof.
  destruct (request_frame_round_trip example_request [] true
              (append_request_frame example_request []).2 []) as (payload & Hout & _ & _ & Hdec).
  - apply example_request_in_range.
  - vm_compute. reflexivity.
  - exists payload. split; [exact Hout|exact Hdec].
Defined.

Lemma stream_frame_round_trip_witness :
  exists payload, (append_stream_frame example_frame []).2 = [] ++ put_le 4 0 (len payload) ++ payload /\
    decode_stream_frame_payload payload = Ok (frame_canonical example_frame).
Proof.
  destruct (stream_frame_round_trip example_frame [] true
              (append_stream_frame example_frame []).2 []) as (payload & Hout & _ & _ & Hdec).
  - constructor; try (apply N.leb_le; vm_compute; reflexivity). intros e He. discriminate.
  - vm_compute. reflexivity.
  - exists payload. split; [exact Hout|exact Hdec].
Defined.

Lemma no_trailing_bytes_witness :
  decode_request_payload (["004"; "002"] ++ ["000"])%char = Err DE_kTrailingBytes.
Proof.
  refine (proj1 (no_trailing_bytes ["004"; "002"]%char ["000"]%char _ _) (blank_request RK_kPs 4) _).
  - discriminate.
  - vm_compute. discriminate.
  - vm_compute. reflexivity.
Defined.
