(* ===== verification/Response.v ===== *)
(** * Responses: [src/ipc/ipc_protocol.cpp], [include/yori/ipc/ipc_protocol.hpp]

    The response messages of protocol versions 1 to 4.  [ResponseOk] states the
    value ranges the decoder insists on (the encoder does not check all of
    them); a response within them is read back as [response_canonical], the
    fields its kind and version carry. *)

From S2P Require Import Prelude.
From S2P Require Import Wire.
From S2P Require Import Request.

(** ** Data *)

Inductive IpcError :=
| IE_kNone | IE_kProtocol | IE_kUnsupported | IE_kDenied | IE_kInvalidSpec | IE_kQueueRejected
| IE_kStoreFailed | IE_kNotFound | IE_kInvalidState | IE_kNotAvailable | IE_kLimit | IE_kInternal.

#[export] Instance IpcError_eq_dec : EqDecision IpcError.
Proof. solve_decision. Defined.

Definition all_errors : list IpcError :=
  [IE_kNone; IE_kProtocol; IE_kUnsupported; IE_kDenied; IE_kInvalidSpec; IE_kQueueRejected;
   IE_kStoreFailed; IE_kNotFound; IE_kInvalidState; IE_kNotAvailable; IE_kLimit; IE_kInternal].

Definition error_code (e : IpcError) : N :=
  match e with
  | IE_kNone => 0 | IE_kProtocol => 1 | IE_kUnsupported => 2 | IE_kDenied => 3 | IE_kInvalidSpec => 4
  | IE_kQueueRejected => 5 | IE_kStoreFailed => 6 | IE_kNotFound => 7 | IE_kInvalidState => 8
  | IE_kNotAvailable => 9 | IE_kLimit => 10 | IE_kInternal => 11
  end.

(** [static_cast<IpcError>], after the range check. *)
Definition error_of_code (c : N) : option IpcError := find_first (fun e => error_code e =? c) all_errors.

(** [to_string(IpcError)] *)
Definition IpcError_to_string (error : IpcError) : string :=
  match error with
  | IE_kNone => "none"
  | IE_kProtocol => "protocol"
  | IE_kUnsupported => "unsupported"
  | IE_kDenied => "denied"
  | IE_kInvalidSpec => "invalid spec"
  | IE_kQueueRejected => "queue rejected"
  | IE_kStoreFailed => "store failed"
  | IE_kNotFound => "not found"
  | IE_kInvalidState => "invalid state"
  | IE_kNotAvailable => "not available"
  | IE_kLimit => "limit"
  | IE_kInternal => "internal"
  end.

Inductive IpcWaitReason :=
| IW_kNone | IW_kNoFreeGpu | IW_kAffinityGpuAllocated | IW_kAffinityGpuExternal | IW_kAffinityGpuState.

(** [to_string(IpcWaitReason)] *)
Definition IpcWaitReason_to_string (reason : IpcWaitReason) : string :=
  match reason with
  | IW_kNone => "NONE"
  | IW_kNoFreeGpu => "NO_FREE_GPU"
  | IW_kAffinityGpuAllocated => "AFFINITY_GPU_ALLOCATED"
  | IW_kAffinityGpuExternal => "AFFINITY_GPU_EXTERNAL"
  | IW_kAffinityGpuState => "AFFINITY_GPU_STATE"
  end.

Record IpcJobSummary := mkSummary {
  js_job_id : N;
  js_state : N;
  js_owner_uid : N;
  js_revision : N;
  js_masked : bool;
  js_argv : list string;
  js_cwd : string;
  js_tensorboard_logdir : option string;
  js_exit : option IpcExitStatus;
  js_wait_reason : N;
  js_wait_detail : option string;
}.

Record IpcQueueEntry := mkIpcQueueEntry {
  iq_job_id : N;
  iq_owner_uid : N;
  iq_submit_time_unix_ns : N;
  iq_state : N;
  iq_wait_reason : N;
  iq_wait_detail : option string;
}.

Record IpcGpuDevice := mkIpcGpu {
  ig_uuid : string;
  ig_index : N;
  ig_observed_state : N;
  ig_logical_state : N;
  ig_utilization_percent : option N;
  ig_memory_used_bytes : option N;
  ig_memory_total_bytes : option N;
  ig_leased_by_job : option N;
}.

Record IpcLogsPayload := mkLogsPayload {
  lp_stdout_truncated : bool;
  lp_stdout_tail : bytes;
  lp_stderr_truncated : bool;
  lp_stderr_tail : bytes;
}.

Record IpcLogsFollowPayload := mkFollowPayload {
  fp_job_state : N;
  fp_stdout_offset : N;
  fp_stderr_offset : N;
}.

Record IpcTensorboardPayload := mkTensorboardPayload {
  tp_logdir : option string;
  tp_cwd : string;
}.

Record IpcEnvEntry := mkEnvEntry {
  ee_name : string;
  ee_masked : bool;
  ee_value : string;
}.

Record IpcInspectPayload := mkInspect {
  ip_job_id : N;
  ip_state : N;
  ip_owner_uid : N;
  ip_revision : N;
  ip_cwd : string;
  ip_executable : option string;
  ip_argv : list string;
  ip_env_metadata : option IpcEnvMetadata;
  ip_env : list IpcEnvEntry;
  ip_gpu_uuid : option string;
  ip_gpu_index : option N;
  ip_gpu_placement_mode : N;
  ip_gpu_placement_device : option string;
  ip_gpu_placement_devices : list string;
  ip_submit_time_unix_ns : N;
  ip_exit : option IpcExitStatus;
  ip_log_path : option string;
}.

Record IpcResponse := mkIpcResponse {
  rs_kind : IpcRequestKind;
  rs_version : N;
  rs_error : IpcError;
  rs_detail : string;
  rs_job_id : N;
  rs_jobs : list IpcJobSummary;
  rs_queue : list IpcQueueEntry;
  rs_gpu_revision : N;
  rs_devices : list IpcGpuDevice;
  rs_state : N;
  rs_logs : IpcLogsPayload;
  rs_logs_follow : IpcLogsFollowPayload;
  rs_tensorboard : IpcTensorboardPayload;
  rs_inspect_payload : IpcInspectPayload;
}.

Definition blank_inspect : IpcInspectPayload :=
  mkInspect 0 0 0 0 "" None [] None [] None None 0 None [] 0 None None.

(** [IpcResponse{}] with kind, version, error and detail set *)
Definition blank_response (kind : IpcRequestKind) (version : N) (error : IpcError) (detail : string)
  : IpcResponse :=
  mkIpcResponse kind version error detail 0 [] [] 0 [] 0 (mkLogsPayload false [] false [])
    (mkFollowPayload 0 0 0) (mkTensorboardPayload None "") blank_inspect.

Definition kUnderlyingGpuObservedStateMax : N := 2.
Definition kUnderlyingGpuLogicalStateMax : N := 3.
Definition kUnderlyingWaitReasonMax : N := 4.
Definition kUnderlyingGpuPlacementModeMax : N := 2.

(** ** Encoding *)

Definition write_wait (version reason : N) (detail : option string) : Enc :=
  if 3 <=? version
  then enc_reject (kUnderlyingWaitReasonMax <? reason) (write_u8 reason +++ write_opt_string detail)
  else Some [].

(** One entry of the PS list. *)
Definition write_summary (version : N) (s : IpcJobSummary) : Enc :=
  enc_reject (kMaxItemCount <? len (js_argv s))
  (write_u64 (js_job_id s) +++ write_u8 (js_state s) +++ write_u32 (js_owner_uid s)
   +++ write_u64 (js_revision s) +++ write_flag (js_masked s)
   +++ (if js_masked s then Some []
        else write_counted write_string (js_argv s) +++ write_string (js_cwd s)
             +++ write_opt_string (js_tensorboard_logdir s))
   +++ write_opt_exit (js_exit s)
   +++ write_wait version (js_wait_reason s) (js_wait_detail s)).

(** One entry of the QUEUE list. *)
Definition write_queue_entry (version : N) (e : IpcQueueEntry) : Enc :=
  write_u64 (iq_job_id e) +++ write_u32 (iq_owner_uid e) +++ write_u64 (iq_submit_time_unix_ns e)
  +++ write_u8 (iq_state e) +++ write_wait version (iq_wait_reason e) (iq_wait_detail e).

(** One device of the GPU list. *)
Definition write_gpu_device (d : IpcGpuDevice) : Enc :=
  write_string (ig_uuid d) +++ write_u32 (ig_index d) +++ write_u8 (ig_observed_state d)
  +++ write_u8 (ig_logical_state d)
  +++ match ig_utilization_percent d with Some u => write_u8 1 +++ write_u32 u | None => write_u8 0 end
  +++ match ig_memory_used_bytes d, ig_memory_total_bytes d with
      | Some used, Some total => write_u8 1 +++ write_u64 used +++ write_u64 total
      | _, _ => write_u8 0
      end
  +++ write_opt_u64 (ig_leased_by_job d).

Definition write_env_entry (e : IpcEnvEntry) : Enc :=
  write_string (ee_name e) +++ write_flag (ee_masked e) +++ write_string (ee_value e).

(** The [kInspect] case of [encode_response_body]. *)
Definition encode_inspect (version : N) (p : IpcInspectPayload) : Enc :=
  enc_reject (version <? 2)
  (enc_reject ((kMaxItemCount <? len (ip_argv p)) || (kMaxListItems <? len (ip_env p)))
  (write_u64 (ip_job_id p) +++ write_u8 (ip_state p) +++ write_u32 (ip_owner_uid p)
   +++ write_u64 (ip_revision p) +++ write_string (ip_cwd p) +++ write_opt_string (ip_executable p)
   +++ write_counted write_string (ip_argv p)
   +++ write_opt_metadata (ip_env_metadata p)
   +++ write_counted write_env_entry (ip_env p)
   +++ match ip_gpu_uuid p with Some u => write_u8 1 +++ write_string u | None => write_u8 0 end
   +++ match ip_gpu_index p with Some i => write_u8 1 +++ write_u32 i | None => write_u8 0 end
   +++ write_u64 (ip_submit_time_unix_ns p)
   +++ write_opt_exit (ip_exit p)
   +++ write_opt_string (ip_log_path p)
   +++ (if 3 <=? version
        then enc_reject (kUnderlyingGpuPlacementModeMax <? ip_gpu_placement_mode p)
               (write_u8 (ip_gpu_placement_mode p) +++ write_opt_string (ip_gpu_placement_device p))
        else Some [])
   +++ (if 4 <=? version
        then enc_reject (kMaxItemCount <? len (ip_gpu_placement_devices p))
               (write_u8 (len (ip_gpu_placement_devices p))
                +++ write_list write_string (ip_gpu_placement_devices p))
        else Some []))).

(** [encode_response_body] *)
Definition encode_response_body (version : N) (r : IpcResponse) : Enc :=
  write_u8 (error_code (rs_error r)) +++ write_string (rs_detail r) +++
  match rs_kind r with
  | RK_kSubmit => write_u64 (rs_job_id r)
  | RK_kPs =>
      enc_reject (kMaxListItems <? len (rs_jobs r)) (write_counted (write_summary version) (rs_jobs r))
  | RK_kQueue =>
      enc_reject (kMaxListItems <? len (rs_queue r)) (write_counted (write_queue_entry version) (rs_queue r))
  | RK_kGpu =>
      enc_reject (kMaxListItems <? len (rs_devices r))
        (write_u64 (rs_gpu_revision r) +++ write_counted write_gpu_device (rs_devices r))
  | RK_kCancel => write_u8 (rs_state r)
  | RK_kLogs =>
      write_flag (lp_stdout_truncated (rs_logs r)) +++ write_bytes (lp_stdout_tail (rs_logs r))
      +++ write_flag (lp_stderr_truncated (rs_logs r)) +++ write_bytes (lp_stderr_tail (rs_logs r))
  | RK_kLogsFollow =>
      write_u8 (fp_job_state (rs_logs_follow r)) +++ write_u64 (fp_stdout_offset (rs_logs_follow r))
      +++ write_u64 (fp_stderr_offset (rs_logs_follow r))
  | RK_kTensorboard =>
      write_opt_string (tp_logdir (rs_tensorboard r)) +++ write_string (tp_cwd (rs_tensorboard r))
  | RK_kInspect => encode_inspect version (rs_inspect_payload r)
  end.

Definition response_payload (r : IpcResponse) : Enc :=
  encode_payload (rs_kind r) (rs_version r) (encode_response_body (rs_version r) r).

Definition encode_response_payload (r : IpcResponse) (out : bytes) : bool * bytes :=
  append_payload (response_payload r) out.

Definition append_response_frame (r : IpcResponse) (out : bytes) : bool * bytes :=
  append_frame (response_payload r) out.

(** ** Decoding *)

Definition read_wait (version : N) : Reader (N * option string) :=
  if 3 <=? version
  then let! reason := read_u8 in
       fail_if kUnderlyingWaitReasonMax <? reason with DE_kInvalidValue;
       let! detail := read_opt_string in
       read_ret (reason, detail)
  else read_ret (0, None).

Definition read_summary (version : N) : Reader IpcJobSummary :=
  let! job_id := read_u64 in
  let! state := read_u8 in
  let! owner_uid := read_u32 in
  let! revision := read_u64 in
  fail_if kUnderlyingJobStateMax <? state with DE_kInvalidValue;
  let! masked := read_flag in
  let! private := (if masked : bool then read_ret ([], "", None)
                   else let! argv := read_list kMaxItemCount read_string in
                        let! cwd := read_string in
                        let! logdir := read_opt_string in
                        read_ret (argv, cwd, logdir)) in
  let! exit := read_optional read_exit in
  let! wait := read_wait version in
  read_ret (mkSummary job_id state owner_uid revision masked private.1.1 private.1.2 private.2 exit
              wait.1 wait.2).

Definition read_queue_entry (version : N) : Reader IpcQueueEntry :=
  let! job_id := read_u64 in
  let! owner_uid := read_u32 in
  let! submit_time := read_u64 in
  let! state := read_u8 in
  fail_if kUnderlyingJobStateMax <? state with DE_kInvalidValue;
  let! wait := read_wait version in
  read_ret (mkIpcQueueEntry job_id owner_uid submit_time state wait.1 wait.2).

Definition read_utilization : Reader N :=
  let! u := read_u32 in
  fail_if 100 <? u with DE_kInvalidValue;
  read_ret u.

Definition read_memory : Reader (N * N) :=
  let! used := read_u64 in
  let! total := read_u64 in
  fail_if total <? used with DE_kInvalidValue;
  read_ret (used, total).

Definition read_gpu_device : Reader IpcGpuDevice :=
  let! uuid := read_string in
  let! index := read_u32 in
  let! observed := read_u8 in
  let! logical := read_u8 in
  fail_if (kUnderlyingGpuObservedStateMax <? observed) || (kUnderlyingGpuLogicalStateMax <? logical)
    with DE_kInvalidValue;
  let! utilization := read_optional read_utilization in
  let! memory := read_optional read_memory in
  let! lease := read_optional read_u64 in
  read_ret (mkIpcGpu uuid index observed logical utilization (fst <$> memory) (snd <$> memory) lease).

Definition read_env_entry : Reader IpcEnvEntry :=
  let! name := read_string in
  let! masked := read_flag in
  let! value := read_string in
  read_ret (mkEnvEntry name masked value).

Definition decode_inspect (version : N) : Reader IpcInspectPayload :=
  let! job_id := read_u64 in
  let! state := read_u8 in
  let! owner_uid := read_u32 in
  let! revision := read_u64 in
  fail_if kUnderlyingJobStateMax <? state with DE_kInvalidValue;
  let! cwd := read_string in
  let! executable := read_opt_string in
  let! argv := read_list kMaxItemCount read_string in
  let! metadata := read_optional read_metadata in
  let! env := read_list kMaxListItems read_env_entry in
  let! gpu_uuid := read_optional read_string in
  let! gpu_index := read_optional read_u32 in
  let! submit_time := read_u64 in
  let! exit := read_optional read_exit in
  let! log_path := read_opt_string in
  let! placement := (if 3 <=? version
                     then let! mode := read_u8 in
                          fail_if kUnderlyingGpuPlacementModeMax <? mode with DE_kInvalidValue;
                          let! device := read_opt_string in
                          read_ret (mode, device)
                     else read_ret (0, None)) in
  let! devices := (if 4 <=? version
                   then let! n := read_u8 in read_times (N.to_nat n) read_string
                   else read_ret []) in
  read_ret (mkInspect job_id state owner_uid revision cwd executable argv metadata env gpu_uuid gpu_index
              placement.1 placement.2 devices submit_time exit log_path).

(** [decode_response_body], before the exhaustion check. *)
Definition decode_response_body : Reader IpcResponse :=
  let! version := read_u8 in
  let! code := read_u8 in
  fail_if negb (ipc_version_supported version) with DE_kBadVersion;
  match kind_of_code code with
  | None => read_fail DE_kBadKind
  | Some kind =>
      fail_if bool_decide (kind = RK_kInspect) && (version <? 2) with DE_kBadKind;
      let! ecode := read_u8 in
      match error_of_code ecode with
      | None => read_fail DE_kInvalidValue
      | Some error =>
          let! detail := read_string in
          let out := blank_response kind version error detail in
          match kind with
          | RK_kSubmit => let! id := read_u64 in read_ret {| out with rs_job_id := id |}
          | RK_kPs =>
              let! jobs := read_list kMaxListItems (read_summary version) in
              read_ret {| out with rs_jobs := jobs |}
          | RK_kQueue =>
              let! queue := read_list kMaxListItems (read_queue_entry version) in
              read_ret {| out with rs_queue := queue |}
          | RK_kGpu =>
              let! revision := read_u64 in
              let! devices := read_list kMaxListItems read_gpu_device in
              read_ret {| out with rs_gpu_revision := revision; rs_devices := devices |}
          | RK_kCancel =>
              let! state := read_u8 in
              fail_if kUnderlyingJobStateMax <? state with DE_kInvalidValue;
              read_ret {| out with rs_state := state |}
          | RK_kLogs =>
              let! stdout_truncated := read_flag in
              let! stdout_tail := read_bytes in
              let! stderr_truncated := read_flag in
              let! stderr_tail := read_bytes in
              read_ret {| out with rs_logs :=
                            mkLogsPayload stdout_truncated stdout_tail stderr_truncated stderr_tail |}
          | RK_kLogsFollow =>
              let! state := read_u8 in
              let! stdout_offset := read_u64 in
              let! stderr_offset := read_u64 in
              fail_if kUnderlyingJobStateMax <? state with DE_kInvalidValue;
              read_ret {| out with rs_logs_follow := mkFollowPayload state stdout_offset stderr_offset |}
          | RK_kTensorboard =>
              let! logdir := read_opt_string in
              let! cwd := read_string in
              read_ret {| out with rs_tensorboard := mkTensorboardPayload logdir cwd |}
          | RK_kInspect =>
              let! payload := decode_inspect version in
              read_ret {| out with rs_inspect_payload := payload |}
          end
      end
  end.

Definition decode_response_payload (data : bytes) : Result IpcDecodeError IpcResponse :=
  reject_if kMaxPayloadBytes <? len data with DE_kOversize;
  read_all decode_response_body data.

(** ** Specification *)

(** Value ranges the decoder insists on, and the widths of the fields. *)
Record SummaryOk (s : IpcJobSummary) : Prop := {
  smo_state : js_state s <= kUnderlyingJobStateMax;
  smo_id : js_job_id s <= u64_max;
  smo_uid : js_owner_uid s <= u32_max;
  smo_revision : js_revision s <= u64_max;
  smo_exit : forall e, js_exit s = Some e -> exit_in_range e;
}.

Record QueueEntryOk (e : IpcQueueEntry) : Prop := {
  qeo_state : iq_state e <= kUnderlyingJobStateMax;
  qeo_id : iq_job_id e <= u64_max;
  qeo_uid : iq_owner_uid e <= u32_max;
  qeo_time : iq_submit_time_unix_ns e <= u64_max;
}.

Record GpuDeviceOk (d : IpcGpuDevice) : Prop := {
  gdo_index : ig_index d <= u32_max;
  gdo_observed : ig_observed_state d <= kUnderlyingGpuObservedStateMax;
  gdo_logical : ig_logical_state d <= kUnderlyingGpuLogicalStateMax;
  gdo_utilization : forall u, ig_utilization_percent d = Some u -> u <= 100;
  gdo_memory : forall used total, ig_memory_used_bytes d = Some used -> ig_memory_total_bytes d = Some total ->
    used <= total <= u64_max;
  gdo_lease : forall j, ig_leased_by_job d = Some j -> j <= u64_max;
}.

Record InspectOk (p : IpcInspectPayload) : Prop := {
  ino_state : ip_state p <= kUnderlyingJobStateMax;
  ino_id : ip_job_id p <= u64_max;
  ino_uid : ip_owner_uid p <= u32_max;
  ino_revision : ip_revision p <= u64_max;
  ino_index : forall i, ip_gpu_index p = Some i -> i <= u32_max;
  ino_time : ip_submit_time_unix_ns p <= u64_max;
  ino_exit : forall e, ip_exit p = Some e -> exit_in_range e;
  ino_devices : len (ip_gpu_placement_devices p) <= 255;
}.

Record ResponseOk (r : IpcResponse) : Prop := {
  rok_job_id : rs_job_id r <= u64_max;
  rok_jobs : Forall SummaryOk (rs_jobs r);
  rok_queue : Forall QueueEntryOk (rs_queue r);
  rok_gpu_revision : rs_gpu_revision r <= u64_max;
  rok_devices : Forall GpuDeviceOk (rs_devices r);
  rok_state : rs_state r <= kUnderlyingJobStateMax;
  rok_follow : fp_job_state (rs_logs_follow r) <= kUnderlyingJobStateMax;
  rok_stdout : fp_stdout_offset (rs_logs_follow r) <= u64_max;
  rok_stderr : fp_stderr_offset (rs_logs_follow r) <= u64_max;
  rok_inspect : InspectOk (rs_inspect_payload r);
}.

(** What each element carries at a given version. *)
Definition summary_canonical (version : N) (s : IpcJobSummary) : IpcJobSummary :=
  mkSummary (js_job_id s) (js_state s) (js_owner_uid s) (js_revision s) (js_masked s)
    (if js_masked s then [] else js_argv s) (if js_masked s then "" else js_cwd s)
    (if js_masked s then None else js_tensorboard_logdir s) (js_exit s)
    (if 3 <=? version then js_wait_reason s else 0)
    (if 3 <=? version then js_wait_detail s else None).

Definition queue_entry_canonical (version : N) (e : IpcQueueEntry) : IpcQueueEntry :=
  mkIpcQueueEntry (iq_job_id e) (iq_owner_uid e) (iq_submit_time_unix_ns e) (iq_state e)
    (if 3 <=? version then iq_wait_reason e else 0)
    (if 3 <=? version then iq_wait_detail e else None).

Definition memory_pair (d : IpcGpuDevice) : option (N * N) :=
  match ig_memory_used_bytes d, ig_memory_total_bytes d with
  | Some used, Some total => Some (used, total)
  | _, _ => None
  end.

Definition gpu_device_canonical (d : IpcGpuDevice) : IpcGpuDevice :=
  mkIpcGpu (ig_uuid d) (ig_index d) (ig_observed_state d) (ig_logical_state d)
    (ig_utilization_percent d) (fst <$> memory_pair d) (snd <$> memory_pair d) (ig_leased_by_job d).

Definition inspect_canonical (version : N) (p : IpcInspectPayload) : IpcInspectPayload :=
  mkInspect (ip_job_id p) (ip_state p) (ip_owner_uid p) (ip_revision p) (ip_cwd p) (ip_executable p)
    (ip_argv p) (ip_env_metadata p) (ip_env p) (ip_gpu_uuid p) (ip_gpu_index p)
    (if 3 <=? version then ip_gpu_placement_mode p else 0)
    (if 3 <=? version then ip_gpu_placement_device p else None)
    (if 4 <=? version then ip_gpu_placement_devices p else [])
    (ip_submit_time_unix_ns p) (ip_exit p) (ip_log_path p).

Definition response_canonical (r : IpcResponse) : IpcResponse :=
  let v := rs_version r in
  let out := blank_response (rs_kind r) v (rs_error r) (rs_detail r) in
  match rs_kind r with
  | RK_kSubmit => {| out with rs_job_id := rs_job_id r |}
  | RK_kPs => {| out with rs_jobs := summary_canonical v <$> rs_jobs r |}
  | RK_kQueue => {| out with rs_queue := queue_entry_canonical v <$> rs_queue r |}
  | RK_kGpu => {| out with rs_gpu_revision := rs_gpu_revision r;
                           rs_devices := gpu_device_canonical <$> rs_devices r |}
  | RK_kCancel => {| out with rs_state := rs_state r |}
  | RK_kLogs => {| out with rs_logs := rs_logs r |}
  | RK_kLogsFollow => {| out with rs_logs_follow := rs_logs_follow r |}
  | RK_kTensorboard => {| out with rs_tensorboard := rs_tensorboard r |}
  | RK_kInspect => {| out with rs_inspect_payload := inspect_canonical v (rs_inspect_payload r) |}
  end.

(** ** Round-trip lemmas *)

Lemma state_u8 s : s <= kUnderlyingJobStateMax -> s <= u8_max.
Proof. unfold kUnderlyingJobStateMax, u8_max. lia. Qed.

Lemma state_in_range s : s <= kUnderlyingJobStateMax -> (kUnderlyingJobStateMax <? s) = false.
Proof. apply N.ltb_ge. Qed.

Lemma rt_wait version reason detail :
  round_trips (write_wait version reason detail) (read_wait version)
    (if 3 <=? version then reason else 0, if 3 <=? version then detail else None).
Proof.
  unfold write_wait, read_wait. destruct (3 <=? version); [|apply rt_ret].
  apply rt_reject. intros Hr. pose proof (proj1 (N.ltb_ge _ _) Hr) as Hle.
  eapply rt_bind; [apply rt_u8; unfold kUnderlyingWaitReasonMax, u8_max in *; lia|].
  apply rt_fail_if; [exact Hr|]. eapply rt_last; [apply rt_opt_string|]. intros rest. reflexivity.
Qed.

Lemma rt_opt_exit o :
  (forall e, o = Some e -> exit_in_range e) -> round_trips (write_opt_exit o) (read_optional read_exit) o.
Proof. intros Ho. apply (rt_option write_exit). intros e He. by apply rt_exit, Ho. Qed.

Lemma rt_summary version s :
  SummaryOk s -> round_trips (write_summary version s) (read_summary version) (summary_canonical version s).
Proof.
  intros [Hst Hid Huid Hrev Hx]. unfold write_summary, read_summary.
  apply rt_reject. intros Hargv%N.ltb_ge.
  eapply rt_bind; [by apply rt_u64|]. eapply rt_bind; [by apply rt_u8, state_u8|].
  eapply rt_bind; [by apply rt_u32|]. eapply rt_bind; [by apply rt_u64|].
  apply rt_fail_if; [by apply state_in_range|]. eapply rt_bind; [apply rt_flag|].
  eapply rt_bind.
  { instantiate (1 := (if js_masked s then ([], "", None)
                       else (js_argv s, js_cwd s, js_tensorboard_logdir s))).
    destruct (js_masked s); [apply rt_ret|].
    eapply rt_bind; [apply rt_counted; [done|done|]; intros x _; apply rt_string|].
    eapply rt_bind; [apply rt_string|]. eapply rt_last; [apply rt_opt_string|].
    intros rest. reflexivity. }
  eapply rt_bind; [by apply rt_opt_exit|]. eapply rt_last; [apply rt_wait|].
  intros rest. unfold summary_canonical. by destruct (js_masked s).
Qed.

Lemma rt_queue_entry version e :
  QueueEntryOk e ->
  round_trips (write_queue_entry version e) (read_queue_entry version) (queue_entry_canonical version e).
Proof.
  intros [Hst Hid Huid Ht]. unfold write_queue_entry, read_queue_entry.
  eapply rt_bind; [by apply rt_u64|]. eapply rt_bind; [by apply rt_u32|].
  eapply rt_bind; [by apply rt_u64|]. eapply rt_bind; [by apply rt_u8, state_u8|].
  apply rt_fail_if; [by apply state_in_range|]. eapply rt_last; [apply rt_wait|].
  intros rest. reflexivity.
Qed.

Lemma rt_memory used total :
  used <= total <= u64_max -> round_trips (write_u64 used +++ write_u64 total) read_memory (used, total).
Proof.
  intros [Hle Hmax]. unfold read_memory. eapply rt_bind; [apply rt_u64; lia|].
  eapply rt_last; [by apply rt_u64|]. intros rest. by rewrite (proj2 (N.ltb_ge _ _) Hle).
Qed.

Lemma rt_gpu_device d :
  GpuDeviceOk d -> round_trips (write_gpu_device d) read_gpu_device (gpu_device_canonical d).
Proof.
  intros [Hi Ho Hl Hu Hm Hlease]. unfold write_gpu_device, read_gpu_device.
  assert (ig_observed_state d <= u8_max /\ ig_logical_state d <= u8_max) as [Ho8 Hl8].
  { unfold kUnderlyingGpuObservedStateMax, kUnderlyingGpuLogicalStateMax, u8_max in *. lia. }
  eapply rt_bind; [apply rt_string|]. eapply rt_bind; [by apply rt_u32|].
  eapply rt_bind; [by apply rt_u8|]. eapply rt_bind; [by apply rt_u8|].
  apply rt_fail_if; [by rewrite (proj2 (N.ltb_ge _ _) Ho), (proj2 (N.ltb_ge _ _) Hl)|].
  eapply rt_bind.
  { apply (rt_option write_u32). intros u Hud. specialize (Hu u Hud).
    unfold read_utilization. eapply rt_last; [apply rt_u32; unfold u32_max; lia|].
    intros rest. by rewrite (proj2 (N.ltb_ge _ _) Hu). }
  eapply rt_bind.
  { instantiate (1 := memory_pair d). unfold memory_pair.
    destruct (ig_memory_used_bytes d) as [used|], (ig_memory_total_bytes d) as [total|];
      try (apply (rt_option (fun p => write_u64 p.1 +++ write_u64 p.2) read_memory None); done).
    apply (rt_option (fun p => write_u64 p.1 +++ write_u64 p.2) read_memory (Some (used, total))).
    intros p [= <-]. by apply rt_memory, Hm. }
  eapply rt_last; [by apply rt_opt_u64|]. intros rest. reflexivity.
Qed.

Lemma rt_env_entry e : round_trips (write_env_entry e) read_env_entry e.
Proof.
  unfold write_env_entry, read_env_entry. eapply rt_bind; [apply rt_string|].
  eapply rt_bind; [apply rt_flag|]. eapply rt_last; [apply rt_string|]. intros rest. by destruct e.
Qed.

Lemma rt_inspect version p :
  InspectOk p ->
  round_trips (encode_inspect version p) (decode_inspect version) (inspect_canonical version p).
Proof.
  intros [Hst Hid Huid Hrev Hi Ht Hx Hd]. unfold encode_inspect, decode_inspect.
  apply rt_reject. intros _. apply rt_reject. intros [Hargv%N.ltb_ge Henv%N.ltb_ge]%orb_false_iff.
  eapply rt_bind; [by apply rt_u64|]. eapply rt_bind; [by apply rt_u8, state_u8|].
  eapply rt_bind; [by apply rt_u32|]. eapply rt_bind; [by apply rt_u64|].
  apply rt_fail_if; [by apply state_in_range|].
  eapply rt_bind; [apply rt_string|]. eapply rt_bind; [apply rt_opt_string|].
  eapply rt_bind; [apply rt_counted; [done|done|]; intros x _; apply rt_string|].
  eapply rt_bind; [apply (rt_option write_metadata); intros m _; apply rt_metadata|].
  eapply rt_bind; [apply rt_counted; [done|done|]; intros x _; apply rt_env_entry|].
  eapply rt_bind; [apply (rt_option write_string); intros u _; apply rt_string|].
  eapply rt_bind; [apply (rt_option write_u32); intros i Hi'; by apply rt_u32, Hi|].
  eapply rt_bind; [by apply rt_u64|]. eapply rt_bind; [by apply rt_opt_exit|].
  eapply rt_bind; [apply rt_opt_string|].
  eapply rt_bind.
  { instantiate (1 := (if 3 <=? version then ip_gpu_placement_mode p else 0,
                       if 3 <=? version then ip_gpu_placement_device p else None)).
    destruct (3 <=? version); [|apply rt_ret]. apply rt_reject. intros Hm.
    pose proof (proj1 (N.ltb_ge _ _) Hm) as Hle.
    eapply rt_bind; [apply rt_u8; unfold kUnderlyingGpuPlacementModeMax, u8_max in *; lia|].
    apply rt_fail_if; [exact Hm|]. eapply rt_last; [apply rt_opt_string|]. intros rest. reflexivity. }
  eapply rt_last.
  { instantiate (1 := (if 4 <=? version then ip_gpu_placement_devices p else [])).
    destruct (4 <=? version); [|apply rt_ret]. apply rt_reject. intros _.
    eapply rt_bind; [by apply rt_u8|].
    replace (N.to_nat (len (ip_gpu_placement_devices p))) with (length (ip_gpu_placement_devices p))
      by (unfold len; by rewrite Nat2N.id).
    pose proof (rt_times write_string read_string id (ip_gpu_placement_devices p)
                  (fun x _ => rt_string x)) as Hrt.
    by rewrite list_fmap_id in Hrt. }
  intros rest. reflexivity.
Qed.

Lemma error_of_error_code e : error_of_code (error_code e) = Some e.
Proof. by destruct e. Qed.

Lemma rt_response r :
  ResponseOk r -> ipc_version_supported (rs_version r) = true ->
  kind_version_ok (rs_kind r) (rs_version r) ->
  round_trips (write_u8 (rs_version r) +++ write_u8 (kind_code (rs_kind r))
               +++ encode_response_body (rs_version r) r)
    decode_response_body (response_canonical r).
Proof.
  intros [H1 H2 H3 H4 H5 H6 H7 H8 H9 H10] Hv Hk. unfold decode_response_body, encode_response_body.
  rewrite Forall_forall in H2. rewrite Forall_forall in H3. rewrite Forall_forall in H5.
  eapply rt_bind; [apply rt_u8; by apply version_supported_u8|].
  eapply rt_bind; [apply rt_u8; by destruct (rs_kind r)|].
  apply rt_fail_if; [by rewrite Hv|]. rewrite kind_of_kind_code.
  apply rt_fail_if.
  { unfold kind_version_ok in Hk. case_bool_decide; [|done]. simpl. apply N.ltb_ge. by apply Hk. }
  eapply rt_bind; [apply rt_u8; by destruct (rs_error r)|]. rewrite error_of_error_code.
  eapply rt_bind; [apply rt_string|]. unfold response_canonical.
  destruct (rs_kind r).
  - eapply rt_last; [by apply rt_u64|]. intros rest. reflexivity.
  - apply rt_reject. intros Hl%N.ltb_ge.
    eapply rt_last; [apply rt_list; [done|done|]; intros s Hs; by apply rt_summary, H2|].
    intros rest. reflexivity.
  - apply rt_reject. intros Hl%N.ltb_ge.
    eapply rt_last; [apply rt_list; [done|done|]; intros s Hs; by apply rt_queue_entry, H3|].
    intros rest. reflexivity.
  - apply rt_reject. intros Hl%N.ltb_ge. eapply rt_bind; [by apply rt_u64|].
    eapply rt_last; [apply rt_list; [done|done|]; intros s Hs; by apply rt_gpu_device, H5|].
    intros rest. reflexivity.
  - eapply rt_last; [by apply rt_u8, state_u8|]. intros rest. by rewrite state_in_range.
  - eapply rt_bind; [apply rt_flag|]. eapply rt_bind; [apply rt_bytes|].
    eapply rt_bind; [apply rt_flag|]. eapply rt_last; [apply rt_bytes|].
    intros rest. by destruct (rs_logs r).
  - eapply rt_bind; [by apply rt_u8, state_u8|]. eapply rt_bind; [by apply rt_u64|].
    eapply rt_last; [by apply rt_u64|]. intros rest. rewrite state_in_range by done.
    by destruct (rs_logs_follow r).
  - eapply rt_bind; [apply rt_opt_string|]. eapply rt_last; [apply rt_string|].
    intros rest. by destruct (rs_tensorboard r).
  - eapply rt_last; [by apply rt_inspect|]. intros rest. reflexivity.
Qed.

(** ** Properties of responses *)

(** C30. A response whose values are in range survives the wire: the appended
    frame is the old buffer, the length and a payload of acceptable size, and
    decoding the payload gives back the error, the detail and the fields the
    response's kind and version carry, list entries in order; a response that
    cannot be encoded leaves the buffer unchanged. *)
Theorem response_frame_round_trip r out ok out' rest :
  ResponseOk r -> kind_version_ok (rs_kind r) (rs_version r) ->
  append_response_frame r out = (ok, out') ->
  if ok then
    exists payload, out' = out ++ put_le 4 0 (len payload) ++ payload /\
      ipc_payload_length_valid (len payload) = true /\
      read_u32 (put_le 4 0 (len payload) ++ payload ++ rest) = Ok (len payload, payload ++ rest) /\
      decode_response_payload payload = Ok (response_canonical r)
  else out' = out.
Proof.
  intros Hr Hk Ha%append_frame_inv. destruct ok; [|exact Ha].
  destruct Ha as (p & Hp & ->). exists p. apply encode_payload_some in Hp as (Hv & Hp & Hmax).
  split_and!; [reflexivity| | |].
  - by eapply payload_length_valid.
  - by apply frame_prefix.
  - unfold decode_response_payload. rewrite decode_within by done.
    eapply rt_all; [|exact Hp]. by apply rt_response.
Qed.

(** An INSPECT payload of version 4 with 256 placement devices is encoded with a
    device count of 0 and cannot be decoded. *)
Definition inspect_256 : IpcResponse :=
  let out := blank_response RK_kInspect 4 IE_kNone "" in
  let p := blank_inspect in
  {| out with rs_inspect_payload := {| p with ip_gpu_placement_devices := replicate 256 "g" |} |}.

Example inspect_256_not_decodable :
  exists p, response_payload inspect_256 = Some p /\
    decode_response_payload p = Err DE_kTrailingBytes.
Proof. eexists. split; [vm_compute; reflexivity|]. vm_compute. reflexivity. Qed.

(** ** Witnesses *)

Definition example_response : IpcResponse :=
  let out := blank_response RK_kPs 4 IE_kNone "" in
  {| out with rs_jobs :=
       [mkSummary 3 2 1000 2 false ["python"] "/home/u" (Some "runs/a") None 0 None;
        mkSummary 4 0 1001 0 true ["secret"] "/home/v" None (Some (mkIpcExit false (-9))) 1 (Some "GPU-a")] |}.

Lemma blank_inspect_ok : InspectOk blank_inspect.
Proof. constructor; try (apply N.leb_le; vm_compute; reflexivity); discriminate. Qed.

Lemma example_response_ok : ResponseOk example_response.
Proof.
  constructor; try (apply N.leb_le; vm_compute; reflexivity); try apply Forall_nil_2;
    try apply blank_inspect_ok.
  repeat apply Forall_cons_2; try apply Forall_nil_2;
    constructor; try (apply N.leb_le; vm_compute; reflexivity); try discriminate.
  intros e [= <-]. split; simpl; lia.
Qed.

Lemma response_frame_round_trip_witness :
  exists payload, (append_response_frame example_response []).2 = [] ++ put_le 4 0 (len payload) ++ payload /\
    decode_response_payload payload = Ok (response_canonical example_response).
Proof.
  destruct (response_frame_round_trip example_response [] true
              (append_response_frame example_response []).2 []) as (payload & Hout & _ & _ & Hdec).
  - apply example_response_ok.
  - discriminate.
  - vm_compute. reflexivity.
  - exists payload. split; [exact Hout|exact Hdec].
Defined.
