(* ===== verification/Service.v ===== *)
(** * The request service: [src/ipc/ipc_service.cpp],
    [include/yori/ipc/ipc_service.hpp]

    The daemon's request handlers: authorisation by peer credentials, GPU
    selector resolution, submission and cancellation handed to the single
    writer behind [JobControl], the PS / QUEUE / GPU / LOGS / LOGS_FOLLOW /
    TENSORBOARD / INSPECT views and their masking, and the bounded log tail
    reader. *)

From stdpp Require Import pretty.
From S2P Require Import Prelude.
From S2P Require Import Job.
From S2P Require Import Gpu.
From S2P Require Import Store.
From S2P Require Import Queue.
From S2P Require Import Scheduler.
From S2P Require Import Wire.
From S2P Require Import Request.
From S2P Require Import Response.

(** ** Data *)

Record PeerCredentials := mkPeer {
  peer_uid : N;
  peer_gid : N;
  peer_pid : N;
}.

Record IpcServiceConfig := mkServiceConfig {
  sc_admin_gids : list N;
  sc_admin_uids : list N;
  sc_max_listed_jobs : N;
  sc_max_log_tail_bytes : N;
  sc_sensitive_env_patterns : list string;
}.

Definition default_service_config : IpcServiceConfig :=
  mkServiceConfig [] [] kMaxListItems kMaxLogTailBytes ["TOKEN"; "KEY"; "SECRET"; "PASSWORD"].

(** [IpcServiceConfig::valid] *)
Definition service_config_valid (c : IpcServiceConfig) : bool :=
  if (sc_max_listed_jobs c =? 0) || (kMaxListItems <? sc_max_listed_jobs c)
     || (sc_max_log_tail_bytes c =? 0) || (kMaxLogTailBytes <? sc_max_log_tail_bytes c)
  then false
  else if 64 <? len (sc_sensitive_env_patterns c) then false
  else forallb (fun p => negb (sempty p || (64 <? slen p) || contains_nul p))
         (sc_sensitive_env_patterns c).

Record LogTailResult := mkTail {
  lt_ok : bool;
  lt_truncated : bool;
  lt_tail : bytes;
}.

Inductive SubmitCode := SO_kSubmitted | SO_kStoreFailed | SO_kQueueRejected | SO_kUnavailable.

#[export] Instance SubmitCode_eq_dec : EqDecision SubmitCode.
Proof. solve_decision. Defined.

Record JobSubmitOutcome := mkSubmitOutcome {
  so_code : SubmitCode;
  so_job_id : N;
  so_detail : string;
}.

Inductive CancelCode :=
| CO_kCancelled | CO_kStopping | CO_kNotFound | CO_kInvalidState | CO_kStoreFailed | CO_kUnavailable.

#[export] Instance CancelCode_eq_dec : EqDecision CancelCode.
Proof. solve_decision. Defined.

Record JobCancelOutcome := mkCancelOutcome {
  co_code : CancelCode;
  co_state : N;
  co_detail : string;
}.

(** [class JobControl]: the single writer, acting on the daemon's state. *)
Class JobControl (W : Type) := {
  submit_job : JobSpec -> W -> JobSubmitOutcome * W;
  cancel_job : N -> W -> JobCancelOutcome * W;
}.

(** What the read-only sources answer while one request is handled:
    [GpuStatusSource::try_get_snapshot], [ScheduleStatusSource::
    try_get_schedule_evaluation] ([None] for a false return),
    [LogSnapshotReader::read_tail], and [system_clock::now()]. *)
Record Sources := mkSources {
  src_gpu : option GpuObservationSnapshot;
  src_evaluation : option ScheduleEvaluation;
  src_read_tail : string -> N -> LogTailResult;
  src_now : Z;
}.

(** ** Wire values *)

Definition job_state_wire (state : JobState) : N :=
  match state with
  | kQueued => 0 | kStarting => 1 | kRunning => 2 | kStopping => 3
  | kFinished => 4 | kFailed => 5 | kCancelled => 6 | kLost => 7
  end.

Definition gpu_observed_wire (state : GpuObservedState) : N :=
  match state with GO_kFree => 0 | GO_kExternalBusy => 1 | GO_kUnavailable => 2 end.

Definition gpu_logical_wire (state : GpuLogicalState) : N :=
  match state with GL_kFree => 0 | GL_kAllocated => 1 | GL_kExternalBusy => 2 | GL_kUnavailable => 3 end.

(** [static_cast<std::uint8_t>] of the other enumerations *)
Definition wait_reason_wire (r : WaitReason) : N :=
  match r with
  | WR_kNone => 0 | WR_kNoFreeGpu => 1 | WR_kAffinityGpuAllocated => 2
  | WR_kAffinityGpuExternal => 3 | WR_kAffinityGpuState => 4
  end.

Definition env_source_wire (s : EnvSource) : N :=
  match s with ES_kNone => 0 | ES_kConda => 1 | ES_kVenv => 2 end.

Definition placement_mode_wire (m : GpuPlacementMode) : N :=
  match m with GPM_kAny => 0 | GPM_kRequired => 1 | GPM_kPreferred => 2 end.

(** [static_cast<job::EnvSource>]; the request decoder has rejected values
    above 2. *)
Definition env_source_of_wire (n : N) : EnvSource :=
  if n =? 0 then ES_kNone else if n =? 1 then ES_kConda else ES_kVenv.

(** A [system_clock] tick is a nanosecond; the cast is modulo [2^64]. *)
Definition unix_ns (time : Z) : N := Z.to_N (time mod 18446744073709551616).

Definition find_job (snapshot : StateSnapshot) (job_id : N) : option StoredJob :=
  find_first (fun r => sj_id r =? job_id) (ss_jobs snapshot).

(** ** The log tail reader

    [FileLogSnapshotReader::read_tail] over the answers of the kernel: what
    [open] found, and the answers of the successive [read] calls. *)

Inductive ReadOutcome := ReadData (b : bytes) | ReadEof | ReadIntr | ReadError.

Inductive OpenOutcome :=
| OpenMissing
| OpenFailed
| OpenFile (stat_regular : bool) (size : N) (seek_ok : bool) (reads : list ReadOutcome).

Definition tail_failed : LogTailResult := mkTail false false [].

(** The [while (received < size)] loop; [None] while the next answer is still
    awaited. *)
Fixpoint read_loop (want : N) (received : bytes) (reads : list ReadOutcome) : option (Result unit bytes) :=
  if len received <? want then
    match reads with
    | [] => None
    | ReadData b :: reads => read_loop want (received ++ b) reads
    | ReadEof :: _ => Some (Ok received)
    | ReadIntr :: reads => read_loop want received reads
    | ReadError :: _ => Some (Err tt)
    end
  else Some (Ok received).

Definition read_tail (open : OpenOutcome) (max_bytes : N) : option LogTailResult :=
  if max_bytes =? 0 then Some (mkTail true false [])
  else
    match open with
    | OpenMissing => Some (mkTail true false [])
    | OpenFailed => Some tail_failed
    | OpenFile regular size seek_ok reads =>
        if negb regular then Some tail_failed
        else
          let truncated := max_bytes <? size in
          if truncated && negb seek_ok then Some tail_failed
          else
            match read_loop max_bytes [] reads with
            | None => None
            | Some (Err _) => Some tail_failed
            | Some (Ok received) => Some (mkTail true truncated received)
            end
    end.

(** ** Selectors *)

(** [std::tolower] in the C locale. *)
Definition lower_char (c : ascii) : ascii :=
  let n := N_of_ascii c in
  if (65 <=? n) && (n <=? 90) then ascii_of_N (n + 32) else c.

Fixpoint to_lower_ascii (text : string) : string :=
  match text with
  | EmptyString => EmptyString
  | String c s => String (lower_char c) (to_lower_ascii s)
  end.

(** [text.find(pattern) != std::string::npos] *)
Fixpoint contains_sub (pattern text : string) : bool :=
  String.prefix pattern text ||
  match text with EmptyString => false | String _ rest => contains_sub pattern rest end.

Definition is_digit (c : ascii) : bool := (48 <=? N_of_ascii c) && (N_of_ascii c <=? 57).

Fixpoint all_digits (s : string) : bool :=
  match s with EmptyString => true | String c s => is_digit c && all_digits s end.

(** The number [strtoull] reads in a string of digits, before its range check. *)
Fixpoint decimal (acc : N) (s : string) : N :=
  match s with EmptyString => acc | String c s => decimal (acc * 10 + (N_of_ascii c - 48)) s end.

(** [strtoull] sets [ERANGE] above [2^64 - 1]. *)
Definition strtoull (s : string) : option N :=
  let v := decimal 0 s in if u64_max <? v then None else Some v.

Definition resolve_gpu_spec (gpu_spec : string) (snapshot : GpuObservationSnapshot)
  : Result string GpuUuid :=
  reject_if sempty gpu_spec with "GPU_SPEC_EMPTY";
  if all_digits gpu_spec then
    match strtoull gpu_spec with
    | None => Err ("GPU_INDEX_NOT_FOUND: " +:+ gpu_spec)
    | Some index =>
        reject_if 4294967295 <? index with ("GPU_INDEX_NOT_FOUND: " +:+ gpu_spec);
        match find_first (fun d => go_index d =? index) (gs_devices snapshot) with
        | Some device => Ok (go_uuid device)
        | None => Err ("GPU_INDEX_NOT_FOUND: " +:+ gpu_spec)
        end
    end
  else
    reject_if negb (uuid_valid gpu_spec) with "GPU_UUID_INVALID";
    match find_first (fun d => bool_decide (go_uuid d = gpu_spec)) (gs_devices snapshot) with
    | Some _ => Ok gpu_spec
    | None => Err ("GPU_UUID_NOT_FOUND: " +:+ gpu_spec)
    end.

(** One iteration of the comma loop: count, resolve, append unless known. *)
Definition resolve_step (gpu_spec : string) (snapshot : GpuObservationSnapshot) (index : N)
    (out : list GpuUuid) (entry : string) : Result string (list GpuUuid) :=
  reject_if kMaxPlacementDevices <? index + 1 with ("GPU_SPEC_INVALID: " +:+ gpu_spec);
  let? resolved := resolve_gpu_spec entry snapshot in
  Ok (if bool_decide (resolved ∈ out) then out else out ++ [resolved]).

Definition resolve_gpu_spec_list (gpu_spec : string) (snapshot : GpuObservationSnapshot)
  : Result string (list GpuUuid) :=
  let? out := fold_result_idx (resolve_step gpu_spec snapshot) 0 [] (split_on ","%char gpu_spec) in
  reject_if bool_decide (out = []) with ("GPU_SPEC_INVALID: " +:+ gpu_spec);
  Ok out.

(** ** Authorisation *)

Definition is_admin (c : IpcServiceConfig) (peer : PeerCredentials) : bool :=
  existsb (fun gid => peer_gid peer =? gid) (sc_admin_gids c)
  || existsb (fun uid => peer_uid peer =? uid) (sc_admin_uids c).

(** [record.spec.owner_uid != peer.uid && !admin] *)
Definition foreign (c : IpcServiceConfig) (peer : PeerCredentials) (record : StoredJob) : bool :=
  negb (owner_uid (sj_spec record) =? peer_uid peer) && negb (is_admin c peer).

Definition is_sensitive_env_name (c : IpcServiceConfig) (name : string) : bool :=
  let lowered := to_lower_ascii name in
  existsb (fun pattern => contains_sub (to_lower_ascii pattern) lowered)
    (sc_sensitive_env_patterns c).

(** ** Handlers *)

Definition error_response (kind : IpcRequestKind) (error : IpcError) (detail : string) : IpcResponse :=
  blank_response kind kProtocolVersion error detail.

(** [IpcResponse response; response.kind = kind;] *)
Definition fresh_response (kind : IpcRequestKind) : IpcResponse :=
  blank_response kind kProtocolVersion IE_kNone "".

(** The loaded snapshot, or the [kStoreFailed] answer. *)
Definition with_snapshot {W} `{StateStore W} (kind : IpcRequestKind) (w : W)
    (k : StateSnapshot -> IpcResponse) : IpcResponse :=
  let load := store_load w in
  if negb (load_ok load) then
    error_response kind IE_kStoreFailed (StateStoreErrorCode_to_string (lr_code load))
  else k (lr_snapshot load).

(** [find_job], [kNotFound], and [kDenied] for a peer that is neither owner nor
    admin: the common head of LOGS, LOGS_FOLLOW, TENSORBOARD and INSPECT. *)
Definition with_own_job (c : IpcServiceConfig) (kind : IpcRequestKind) (peer : PeerCredentials)
    (snapshot : StateSnapshot) (job_id : N) (k : StoredJob -> IpcResponse) : IpcResponse :=
  match find_job snapshot job_id with
  | None => error_response kind IE_kNotFound "job not found"
  | Some record =>
      if foreign c peer record then error_response kind IE_kDenied "not job owner or admin"
      else k record
  end.

(** The optional [IpcExitStatus] of a record. *)
Definition exit_wire (e : ExitStatus) : IpcExitStatus :=
  mkIpcExit (exit_exited e) (if exit_exited e then ex_exit_code e else ex_signal_number e).

(** Placement part of [handle_submit]: the resolved placement or the error
    response. *)
Definition resolve_placement (src : Sources) (request : IpcSubmitRequest)
  : Result IpcResponse GpuPlacement :=
  match is_gpu_spec request, is_gpu_preferred_spec request with
  | None, None => Ok (mkGpuPlacement GPM_kAny [])
  | Some _, Some _ =>
      Err (error_response RK_kSubmit IE_kInvalidSpec
             "gpu_spec and gpu_preferred_spec are mutually exclusive")
  | spec, preferred =>
      reject_if negb (is_gpu_request request =? 1)
        with error_response RK_kSubmit IE_kInvalidSpec
               (JobSpecErrorCode_to_string JSE_kPlacementGpuRequestConflict);
      match src_gpu src with
      | None =>
          Err (error_response RK_kSubmit IE_kNotAvailable
                 "no gpu observation available for placement resolution")
      | Some snapshot =>
          match spec, preferred with
          | _, Some target_spec =>
              match resolve_gpu_spec target_spec snapshot with
              | Err failure => Err (error_response RK_kSubmit IE_kInvalidSpec failure)
              | Ok target => Ok (mkGpuPlacement GPM_kPreferred [target])
              end
          | Some list_spec, None =>
              match resolve_gpu_spec_list list_spec snapshot with
              | Err failure => Err (error_response RK_kSubmit IE_kInvalidSpec failure)
              | Ok devices => Ok (mkGpuPlacement GPM_kRequired devices)
              end
          | None, None => Ok (mkGpuPlacement GPM_kAny [])
          end
      end
  end.

(** The [JobSpec] of a submission: identity from the peer, the rest from the
    request. *)
Definition submitted_spec (src : Sources) (peer : PeerCredentials) (request : IpcSubmitRequest)
    (placement : GpuPlacement) : JobSpec := {|
  owner_uid := peer_uid peer;
  owner_gid := peer_gid peer;
  argv := is_argv request;
  cwd := is_cwd request;
  env := is_env request;
  executable := is_executable request;
  env_metadata :=
    (fun m => mkEnvMetadata (env_source_of_wire (iem_source m)) (iem_python_version m))
      <$> is_env_metadata request;
  gpu_request := is_gpu_request request;
  gpu_placement := placement;
  launch_profile := is_launch_profile request;
  tensorboard_logdir := is_tensorboard_logdir request;
  submit_time := src_now src;
|}.

(** The response to a [JobSubmitOutcome] *)
Definition submit_response (outcome : JobSubmitOutcome) : IpcResponse :=
  match so_code outcome with
  | SO_kSubmitted => let r := fresh_response RK_kSubmit in {| r with rs_job_id := so_job_id outcome |}
  | SO_kStoreFailed => error_response RK_kSubmit IE_kStoreFailed (so_detail outcome)
  | SO_kQueueRejected => error_response RK_kSubmit IE_kQueueRejected (so_detail outcome)
  | SO_kUnavailable => error_response RK_kSubmit IE_kNotAvailable (so_detail outcome)
  end.

Definition handle_submit {W} `{JobControl W} (src : Sources) (peer : PeerCredentials)
    (request : IpcSubmitRequest) (w : W) : IpcResponse * W :=
  match resolve_placement src request with
  | Err response => (response, w)
  | Ok placement =>
      let spec := submitted_spec src peer request placement in
      let validation := validate spec in
      if negb (spec_result_ok validation) then
        if bool_decide (sv_code validation = JSE_kRootOwnerNotAllowed) then
          (error_response RK_kSubmit IE_kDenied "root cannot submit jobs", w)
        else
          (error_response RK_kSubmit IE_kInvalidSpec
             (JobSpecErrorCode_to_string (sv_code validation)), w)
      else
        let '(outcome, w') := submit_job spec w in
        (submit_response outcome, w')
  end.

(** The first skip of the last evaluation that names the job. *)
Definition skip_for (src : Sources) (id : JobId) : option ScheduleSkip :=
  match src_evaluation src with
  | None => None
  | Some evaluation => find_first (fun skip => sk_job skip =? id) (ev_skipped evaluation)
  end.

(** [wait_reason] and [wait_detail] of a listing entry *)
Definition wait_view (show_detail : bool) (skip : option ScheduleSkip) : N * option string :=
  match skip with
  | None => (0, None)
  | Some skip => (wait_reason_wire (sk_reason skip), if show_detail then sk_target skip else None)
  end.

Definition truncated_detail (c : IpcServiceConfig) : string :=
  "listing truncated to " +:+ pretty (sc_max_listed_jobs c) +:+ " jobs".

(** [response.error] and [response.detail] of a listing of [total] items *)
Definition listing_response (c : IpcServiceConfig) (kind : IpcRequestKind) (total : N) : IpcResponse :=
  if sc_max_listed_jobs c <? total
  then error_response kind IE_kLimit (truncated_detail c)
  else fresh_response kind.

(** The first [min(size, max_listed_jobs)] items *)
Definition listed {A} (c : IpcServiceConfig) (l : list A) : list A :=
  take (N.to_nat (N.min (len l) (sc_max_listed_jobs c))) l.

Definition ps_summary (c : IpcServiceConfig) (src : Sources) (peer : PeerCredentials)
    (record : StoredJob) : IpcJobSummary :=
  let masked := foreign c peer record in
  let spec := sj_spec record in
  let wait :=
    if bool_decide (sj_state record = kQueued)
    then wait_view (negb masked) (skip_for src (sj_id record)) else (0, None) in
  {| js_job_id := sj_id record;
     js_state := job_state_wire (sj_state record);
     js_owner_uid := owner_uid spec;
     js_revision := sj_revision record;
     js_masked := masked;
     js_argv := if masked then [] else argv spec;
     js_cwd := if masked then "" else cwd spec;
     js_tensorboard_logdir := if masked then None else tensorboard_logdir spec;
     js_exit := exit_wire <$> xr_exit (sj_execution record);
     js_wait_reason := wait.1;
     js_wait_detail := wait.2 |}.

Definition handle_ps {W} `{StateStore W} (c : IpcServiceConfig) (src : Sources)
    (peer : PeerCredentials) (w : W) : IpcResponse :=
  with_snapshot RK_kPs w (fun snapshot =>
    let response := listing_response c RK_kPs (len (ss_jobs snapshot)) in
    {| response with rs_jobs := ps_summary c src peer <$> listed c (ss_jobs snapshot) |}).

(** The comparison of [handle_queue]'s sort *)
Definition record_le (lhs rhs : StoredJob) : Prop :=
  entry_le (entry_of lhs) (entry_of rhs).

#[export] Instance record_le_dec : RelDecision record_le.
Proof. intros x y. unfold record_le. apply _. Defined.

Definition queue_view_entry (c : IpcServiceConfig) (src : Sources) (peer : PeerCredentials)
    (record : StoredJob) : IpcQueueEntry :=
  let show := is_admin c peer || (owner_uid (sj_spec record) =? peer_uid peer) in
  let wait := wait_view show (skip_for src (sj_id record)) in
  {| iq_job_id := sj_id record;
     iq_owner_uid := owner_uid (sj_spec record);
     iq_submit_time_unix_ns := unix_ns (submit_time (sj_spec record));
     iq_state := job_state_wire (sj_state record);
     iq_wait_reason := wait.1;
     iq_wait_detail := wait.2 |}.

Definition handle_queue {W} `{StateStore W} (c : IpcServiceConfig) (src : Sources)
    (peer : PeerCredentials) (w : W) : IpcResponse :=
  with_snapshot RK_kQueue w (fun snapshot =>
    let queued := merge_sort record_le (filter (fun r => sj_state r = kQueued) (ss_jobs snapshot)) in
    let response := listing_response c RK_kQueue (len queued) in
    {| response with rs_queue := queue_view_entry c src peer <$> listed c queued |}).

Definition gpu_device_view (snapshot : StateSnapshot) (observation : GpuObservation) : IpcGpuDevice :=
  let leased_by :=
    lease_job_id <$> find_first (fun l => bool_decide (lease_gpu_uuid l = go_uuid observation))
                       (ss_leases snapshot) in
  let telemetry := go_telemetry observation in
  {| ig_uuid := go_uuid observation;
     ig_index := go_index observation;
     ig_observed_state := gpu_observed_wire (go_state observation);
     ig_logical_state :=
       gpu_logical_wire (derive_logical_state (go_state observation) (is_present leased_by));
     ig_utilization_percent := utilization_percent telemetry;
     ig_memory_used_bytes := memory_used_bytes telemetry;
     ig_memory_total_bytes := memory_total_bytes telemetry;
     ig_leased_by_job := leased_by |}.

Definition handle_gpu {W} `{StateStore W} (src : Sources) (w : W) : IpcResponse :=
  match src_gpu src with
  | None => error_response RK_kGpu IE_kNotAvailable "no gpu observation available"
  | Some gpus =>
      with_snapshot RK_kGpu w (fun snapshot =>
        let response := fresh_response RK_kGpu in
        {| response with rs_gpu_revision := gs_revision gpus;
                         rs_devices := gpu_device_view snapshot <$> gs_devices gpus |})
  end.

(** The response to a [JobCancelOutcome] *)
Definition cancel_response (outcome : JobCancelOutcome) : IpcResponse :=
  match co_code outcome with
  | CO_kCancelled | CO_kStopping =>
      let r := fresh_response RK_kCancel in {| r with rs_state := co_state outcome |}
  | CO_kNotFound => error_response RK_kCancel IE_kNotFound "job not found"
  | CO_kInvalidState =>
      let r := error_response RK_kCancel IE_kInvalidState (co_detail outcome) in
      {| r with rs_state := co_state outcome |}
  | CO_kStoreFailed => error_response RK_kCancel IE_kStoreFailed (co_detail outcome)
  | CO_kUnavailable => error_response RK_kCancel IE_kNotAvailable (co_detail outcome)
  end.

Definition handle_cancel {W} `{StateStore W, JobControl W} (c : IpcServiceConfig)
    (peer : PeerCredentials) (job_id : N) (w : W) : IpcResponse * W :=
  let load := store_load w in
  if negb (load_ok load) then
    (error_response RK_kCancel IE_kStoreFailed (StateStoreErrorCode_to_string (lr_code load)), w)
  else
    match find_job (lr_snapshot load) job_id with
    | None => (error_response RK_kCancel IE_kNotFound "job not found", w)
    | Some record =>
        let current := sj_state record in
        if foreign c peer record then
          let r := error_response RK_kCancel IE_kDenied "not job owner or admin" in
          ({| r with rs_state := job_state_wire current |}, w)
        else if bool_decide (current = kCancelled) then
          let r := fresh_response RK_kCancel in
          ({| r with rs_state := job_state_wire kCancelled |}, w)
        else if is_terminal current then
          let r := error_response RK_kCancel IE_kInvalidState (JobState_to_string current) in
          ({| r with rs_state := job_state_wire current |}, w)
        else
          let '(outcome, w') := cancel_job job_id w in
          (cancel_response outcome, w')
    end.

(** [observe::log_file_name] *)
Inductive LogStreamKind := LS_kStdout | LS_kStderr.

Definition log_file_name (stream : LogStreamKind) : string :=
  match stream with LS_kStdout => "stdout.log" | LS_kStderr => "stderr.log" end.

Definition handle_logs {W} `{StateStore W} (c : IpcServiceConfig) (src : Sources)
    (peer : PeerCredentials) (request : IpcLogsRequest) (w : W) : IpcResponse :=
  with_snapshot RK_kLogs w (fun snapshot =>
    with_own_job c RK_kLogs peer snapshot (il_job_id request) (fun record =>
      match xr_log_path (sj_execution record) with
      | None => error_response RK_kLogs IE_kInvalidState "job has not started; no logs yet"
      | Some directory =>
          let max_bytes := N.min (il_max_bytes request) (sc_max_log_tail_bytes c) in
          let stdout_tail := src_read_tail src (directory +:+ "/" +:+ log_file_name LS_kStdout) max_bytes in
          let stderr_tail := src_read_tail src (directory +:+ "/" +:+ log_file_name LS_kStderr) max_bytes in
          if negb (lt_ok stdout_tail) || negb (lt_ok stderr_tail) then
            error_response RK_kLogs IE_kNotAvailable ("log read failed: " +:+ directory)
          else
            let r := fresh_response RK_kLogs in
            {| r with rs_logs := mkLogsPayload (lt_truncated stdout_tail) (lt_tail stdout_tail)
                                   (lt_truncated stderr_tail) (lt_tail stderr_tail) |}
      end)).

Definition validate_logs_follow {W} `{StateStore W} (c : IpcServiceConfig)
    (peer : PeerCredentials) (request : IpcLogsFollowRequest) (w : W) : IpcResponse :=
  with_snapshot RK_kLogsFollow w (fun snapshot =>
    with_own_job c RK_kLogsFollow peer snapshot (if_job_id request) (fun record =>
      match xr_log_path (sj_execution record) with
      | None => error_response RK_kLogsFollow IE_kInvalidState "job has not started; no logs yet"
      | Some _ =>
          let r := fresh_response RK_kLogsFollow in
          {| r with rs_logs_follow := mkFollowPayload (job_state_wire (sj_state record)) 0 0 |}
      end)).

Definition handle_tensorboard {W} `{StateStore W} (c : IpcServiceConfig)
    (peer : PeerCredentials) (job_id : N) (w : W) : IpcResponse :=
  with_snapshot RK_kTensorboard w (fun snapshot =>
    with_own_job c RK_kTensorboard peer snapshot job_id (fun record =>
      let r := fresh_response RK_kTensorboard in
      {| r with rs_tensorboard :=
           mkTensorboardPayload (tensorboard_logdir (sj_spec record)) (cwd (sj_spec record)) |})).

(** One environment entry of INSPECT: the value only when the name is not
    sensitive. *)
Definition env_view (c : IpcServiceConfig) (entry : string * string) : IpcEnvEntry :=
  let masked := is_sensitive_env_name c entry.1 in
  mkEnvEntry entry.1 masked (if masked then "***" else entry.2).

(** [gpu_uuid] and [gpu_index] of the first lease of the job *)
Definition lease_view (src : Sources) (snapshot : StateSnapshot) (id : JobId)
  : option string * option N :=
  match find_first (fun l => lease_job_id l =? id) (ss_leases snapshot) with
  | None => (None, None)
  | Some lease =>
      (Some (lease_gpu_uuid lease),
       match src_gpu src with
       | None => None
       | Some gpus =>
           go_index <$> find_first (fun d => bool_decide (go_uuid d = lease_gpu_uuid lease))
                          (gs_devices gpus)
       end)
  end.

(** [devices.front()] is undefined on an empty vector; a valid spec of the two
    modes has at least one device. *)
Definition inspect_payload (c : IpcServiceConfig) (src : Sources) (snapshot : StateSnapshot)
    (record : StoredJob) : IpcInspectPayload :=
  let spec := sj_spec record in
  let placement := gpu_placement spec in
  let lease := lease_view src snapshot (sj_id record) in
  {| ip_job_id := sj_id record;
     ip_state := job_state_wire (sj_state record);
     ip_owner_uid := owner_uid spec;
     ip_revision := sj_revision record;
     ip_cwd := cwd spec;
     ip_executable := executable spec;
     ip_argv := argv spec;
     ip_env_metadata :=
       (fun m => mkIpcEnvMetadata (env_source_wire (em_source m)) (em_python_version m))
         <$> env_metadata spec;
     ip_env := env_view c <$> map_entries (env spec);
     ip_gpu_uuid := lease.1;
     ip_gpu_index := lease.2;
     ip_gpu_placement_mode := placement_mode_wire (gp_mode placement);
     ip_gpu_placement_device :=
       match gp_mode placement with GPM_kAny => None | _ => head (gp_devices placement) end;
     ip_gpu_placement_devices :=
       match gp_mode placement with GPM_kRequired => gp_devices placement | _ => [] end;
     ip_submit_time_unix_ns := unix_ns (submit_time spec);
     ip_exit := exit_wire <$> xr_exit (sj_execution record);
     ip_log_path := xr_log_path (sj_execution record) |}.

Definition handle_inspect {W} `{StateStore W} (c : IpcServiceConfig) (src : Sources)
    (peer : PeerCredentials) (job_id : N) (w : W) : IpcResponse :=
  with_snapshot RK_kInspect w (fun snapshot =>
    with_own_job c RK_kInspect peer snapshot job_id (fun record =>
      let r := fresh_response RK_kInspect in
      {| r with rs_inspect_payload := inspect_payload c src snapshot record |})).

(** [IpcService::handle] *)
Definition handle {W} `{StateStore W, JobControl W} (c : IpcServiceConfig) (src : Sources)
    (peer : PeerCredentials) (request : IpcRequest) (w : W) : IpcResponse * W :=
  match rq_kind request with
  | RK_kSubmit => handle_submit src peer (rq_submit request) w
  | RK_kPs => (handle_ps c src peer w, w)
  | RK_kQueue => (handle_queue c src peer w, w)
  | RK_kGpu => (handle_gpu src w, w)
  | RK_kCancel => handle_cancel c peer (rq_cancel request) w
  | RK_kLogs => (handle_logs c src peer (rq_logs request) w, w)
  | RK_kLogsFollow =>
      (error_response RK_kLogsFollow IE_kUnsupported
         "streaming follow is not enabled on this endpoint", w)
  | RK_kTensorboard => (handle_tensorboard c peer (rq_tensorboard request) w, w)
  | RK_kInspect => (handle_inspect c src peer (rq_inspect request) w, w)
  end.

(** ** Specification: who may see what *)

(** Two records a peer cannot tell apart: equal but for the values of
    sensitive environment variables where the peer is owner or admin, and with
    the same public fields otherwise. *)
Definition env_indistinct (c : IpcServiceConfig) (e1 e2 : gmap string string) : Prop :=
  forall name, if is_sensitive_env_name c name
               then is_Some (e1 !! name) <-> is_Some (e2 !! name)
               else e1 !! name = e2 !! name.

Record spec_indistinct (c : IpcServiceConfig) (s1 s2 : JobSpec) : Prop := {
  sid_env : env_indistinct c (env s1) (env s2);
  sid_rest : {| s1 with env := ∅ |} = {| s2 with env := ∅ |};
}.

Record record_indistinct (c : IpcServiceConfig) (peer : PeerCredentials) (r1 r2 : StoredJob) : Prop := {
  rid_id : sj_id r1 = sj_id r2;
  rid_state : sj_state r1 = sj_state r2;
  rid_revision : sj_revision r1 = sj_revision r2;
  rid_owner : owner_uid (sj_spec r1) = owner_uid (sj_spec r2);
  rid_submit : submit_time (sj_spec r1) = submit_time (sj_spec r2);
  rid_exit : xr_exit (sj_execution r1) = xr_exit (sj_execution r2);
  rid_visible : foreign c peer r1 = false ->
    spec_indistinct c (sj_spec r1) (sj_spec r2) /\ sj_execution r1 = sj_execution r2;
}.

(** Two evaluations that differ only in the placement targets of jobs foreign
    to the peer. *)
Record skip_indistinct (visible : JobId -> Prop) (k1 k2 : ScheduleSkip) : Prop := {
  kid_job : sk_job k1 = sk_job k2;
  kid_reason : sk_reason k1 = sk_reason k2;
  kid_target : visible (sk_job k1) -> sk_target k1 = sk_target k2;
}.

(** The job ids a peer may see in full. *)
Definition visible_to (c : IpcServiceConfig) (peer : PeerCredentials) (snapshot : StateSnapshot)
    (id : JobId) : Prop :=
  exists r, r ∈ ss_jobs snapshot /\ sj_id r = id /\ foreign c peer r = false.

Record load_indistinct (c : IpcServiceConfig) (peer : PeerCredentials)
    (l1 l2 : StateStoreLoadResult) : Prop := {
  lid_code : lr_code l1 = lr_code l2;
  lid_jobs : Forall2 (record_indistinct c peer) (ss_jobs (lr_snapshot l1)) (ss_jobs (lr_snapshot l2));
  lid_leases : ss_leases (lr_snapshot l1) = ss_leases (lr_snapshot l2);
}.

Record sources_indistinct (visible : JobId -> Prop) (s1 s2 : Sources) : Prop := {
  ssi_gpu : src_gpu s1 = src_gpu s2;
  ssi_tail : forall path n, src_read_tail s1 path n = src_read_tail s2 path n;
  ssi_evaluation : option_Forall2
    (fun e1 e2 => Forall2 (skip_indistinct visible) (ev_skipped e1) (ev_skipped e2))
    (src_evaluation s1) (src_evaluation s2);
}.

(** ** Noninterference lemmas *)

Section indistinct.
Context (c : IpcServiceConfig) (peer : PeerCredentials).

Lemma foreign_indistinct r1 r2 :
  record_indistinct c peer r1 r2 -> foreign c peer r1 = foreign c peer r2.
Proof. intros H. unfold foreign. by rewrite (rid_owner _ _ _ _ H). Qed.

Lemma spec_indistinct_fields s1 s2 :
  spec_indistinct c s1 s2 ->
  argv s1 = argv s2 /\ cwd s1 = cwd s2 /\ executable s1 = executable s2 /\
  env_metadata s1 = env_metadata s2 /\ gpu_placement s1 = gpu_placement s2 /\
  tensorboard_logdir s1 = tensorboard_logdir s2.
Proof.
  intros [_ H]. split_and!;
    [exact (f_equal argv H)|exact (f_equal cwd H)|exact (f_equal executable H)
    |exact (f_equal env_metadata H)|exact (f_equal gpu_placement H)|exact (f_equal tensorboard_logdir H)].
Qed.

Lemma env_view_indistinct e1 e2 :
  env_indistinct c e1 e2 -> env_view c <$> map_entries e1 = env_view c <$> map_entries e2.
Proof.
  intros He. eapply fmap_related; [|apply (map_entries_related (fun k v1 v2 =>
    is_sensitive_env_name c k = false -> v1 = v2))].
  - intros [k v1] [k' v2] [Hk Hv]; simpl in *. subst k'. unfold env_view. simpl.
    destruct (is_sensitive_env_name c k); [done|]. by rewrite Hv.
  - intros k. specialize (He k). destruct (is_sensitive_env_name c k).
    + destruct (e1 !! k) as [v1|] eqn:E1, (e2 !! k) as [v2|] eqn:E2;
        rewrite ?E1, ?E2; [by constructor| | |constructor].
      * destruct (proj1 He) as [? ?]; [by eexists|done].
      * destruct (proj2 He) as [? ?]; [by eexists|done].
    + rewrite He. destruct (e2 !! k); by constructor.
Qed.

Section sources.
Context (visible : JobId -> Prop) (src1 src2 : Sources).
Hypothesis Hsrc : sources_indistinct visible src1 src2.

Lemma skip_for_indistinct id :
  option_Forall2 (skip_indistinct visible) (skip_for src1 id) (skip_for src2 id).
Proof using Hsrc.
  unfold skip_for. destruct (ssi_evaluation _ _ _ Hsrc) as [e1 e2 He|]; [|constructor].
  apply find_first_related; [|done]. intros k1 k2 Hk. by rewrite (kid_job _ _ _ Hk).
Qed.

Lemma wait_view_indistinct show id :
  (show = true -> visible id) ->
  wait_view show (skip_for src1 id) = wait_view show (skip_for src2 id).
Proof using Hsrc.
  intros Hshow. pose proof (skip_for_indistinct id) as Hk.
  destruct (skip_for src1 id) as [k1|] eqn:Hk1; inversion Hk as [? k2 Hkk|]; subst; simpl; [|done].
  f_equal; [by rewrite (kid_reason _ _ _ Hkk)|].
  destruct show; [|done]. apply (kid_target _ _ _ Hkk).
  unfold skip_for in Hk1. case_match; [|done]. apply find_first_some in Hk1 as [_ Hid].
  apply N.eqb_eq in Hid. rewrite Hid. by apply Hshow.
Qed.

Lemma ps_summary_indistinct r1 r2 :
  record_indistinct c peer r1 r2 -> (foreign c peer r1 = false -> visible (sj_id r1)) ->
  ps_summary c src1 peer r1 = ps_summary c src2 peer r2.
Proof using Hsrc.
  intros Hr Hv. pose proof (foreign_indistinct _ _ Hr) as Hf. unfold ps_summary. rewrite <- Hf.
  rewrite <- (rid_id _ _ _ _ Hr), <- (rid_state _ _ _ _ Hr), <- (rid_revision _ _ _ _ Hr),
    <- (rid_owner _ _ _ _ Hr), <- (rid_exit _ _ _ _ Hr).
  rewrite (wait_view_indistinct (negb (foreign c peer r1)) (sj_id r1))
    by (intros ?%negb_true_iff; auto).
  destruct (foreign c peer r1) eqn:Hfr; [done|].
  destruct (rid_visible _ _ _ _ Hr Hfr) as [Hs _].
  by destruct (spec_indistinct_fields _ _ Hs) as (-> & -> & _ & _ & _ & ->).
Qed.

Lemma queue_entry_indistinct r1 r2 :
  record_indistinct c peer r1 r2 -> (foreign c peer r1 = false -> visible (sj_id r1)) ->
  queue_view_entry c src1 peer r1 = queue_view_entry c src2 peer r2.
Proof using Hsrc.
  intros Hr Hv. unfold queue_view_entry.
  rewrite <- (rid_id _ _ _ _ Hr), <- (rid_state _ _ _ _ Hr),
    <- (rid_owner _ _ _ _ Hr), <- (rid_submit _ _ _ _ Hr).
  rewrite (wait_view_indistinct _ (sj_id r1)); [done|].
  intros Hshow. apply Hv. unfold foreign.
  by destruct (is_admin c peer), (owner_uid (sj_spec r1) =? peer_uid peer).
Qed.

Lemma inspect_indistinct s1 s2 r1 r2 :
  record_indistinct c peer r1 r2 -> foreign c peer r1 = false -> ss_leases s1 = ss_leases s2 ->
  inspect_payload c src1 s1 r1 = inspect_payload c src2 s2 r2.
Proof using Hsrc.
  intros Hr Hf Hl. destruct (rid_visible _ _ _ _ Hr Hf) as [Hs Hx].
  unfold inspect_payload, lease_view. rewrite Hl, (ssi_gpu _ _ _ Hsrc), Hx.
  rewrite (env_view_indistinct _ _ (sid_env _ _ _ Hs)).
  rewrite (rid_id _ _ _ _ Hr), (rid_state _ _ _ _ Hr), (rid_revision _ _ _ _ Hr),
    (rid_owner _ _ _ _ Hr), (rid_submit _ _ _ _ Hr).
  by destruct (spec_indistinct_fields _ _ Hs) as (-> & -> & -> & -> & -> & _).
Qed.
End sources.

Lemma listed_related {A B} (Q : A -> B -> Prop) l1 l2 :
  Forall2 Q l1 l2 -> Forall2 Q (listed c l1) (listed c l2).
Proof.
  intros Hl. unfold listed, len. rewrite (Forall2_length _ _ _ Hl). by apply Forall2_take.
Qed.

Lemma len_related {A B} (Q : A -> B -> Prop) l1 l2 : Forall2 Q l1 l2 -> len l1 = len l2.
Proof. intros Hl. unfold len. by rewrite (Forall2_length _ _ _ Hl). Qed.

(** Handlers that answer for one job give the same response. *)
Lemma with_own_job_indistinct kind s1 s2 id k1 k2 :
  Forall2 (record_indistinct c peer) (ss_jobs s1) (ss_jobs s2) ->
  (forall r1 r2, r1 ∈ ss_jobs s1 -> record_indistinct c peer r1 r2 -> foreign c peer r1 = false ->
     k1 r1 = k2 r2) ->
  with_own_job c kind peer s1 id k1 = with_own_job c kind peer s2 id k2.
Proof.
  intros Hjobs Hk. unfold with_own_job, find_job.
  assert (option_Forall2 (record_indistinct c peer)
            (find_first (fun r => sj_id r =? id) (ss_jobs s1))
            (find_first (fun r => sj_id r =? id) (ss_jobs s2))) as Hfind.
  { apply find_first_related; [|done]. intros r1 r2 Hr. by rewrite (rid_id _ _ _ _ Hr). }
  destruct (find_first _ (ss_jobs s1)) as [r1|] eqn:H1; inversion Hfind as [? r2 Hr|]; subst; [|done].
  rewrite <- (foreign_indistinct _ _ Hr). destruct (foreign c peer r1) eqn:Hf; [done|].
  apply Hk; [|done..]. by apply find_first_some in H1 as [? _].
Qed.

End indistinct.

Section with_snapshot.
Context {W : Type} `{StateStore W}.

Lemma with_snapshot_indistinct c peer kind (w1 w2 : W) k1 k2 :
  load_indistinct c peer (store_load w1) (store_load w2) ->
  k1 (lr_snapshot (store_load w1)) = k2 (lr_snapshot (store_load w2)) ->
  with_snapshot kind w1 k1 = with_snapshot kind w2 k2.
Proof.
  intros Hl Hk. unfold with_snapshot, load_ok. rewrite (lid_code _ _ _ _ Hl), Hk. done.
Qed.
End with_snapshot.

(** ** Views *)

Section views.
Context {W : Type} `{StateStore W, JobControl W}.

Lemma ps_indistinct c src1 src2 peer (w1 w2 : W) :
  load_indistinct c peer (store_load w1) (store_load w2) ->
  sources_indistinct (visible_to c peer (lr_snapshot (store_load w1))) src1 src2 ->
  handle_ps c src1 peer w1 = handle_ps c src2 peer w2.
Proof.
  intros Hl Hs. eapply with_snapshot_indistinct; [done|]. pose proof (lid_jobs _ _ _ _ Hl) as Hj.
  rewrite (len_related _ _ _ Hj). cbv zeta. f_equal.
  eapply fmap_related; [|apply listed_related, Forall2_Forall2_elem, Hj].
  intros r1 r2 [Hin Hr]. eapply ps_summary_indistinct; [done..|]. intros Hf. by exists r1.
Qed.

Lemma queue_indistinct c src1 src2 peer (w1 w2 : W) :
  load_indistinct c peer (store_load w1) (store_load w2) ->
  sources_indistinct (visible_to c peer (lr_snapshot (store_load w1))) src1 src2 ->
  handle_queue c src1 peer w1 = handle_queue c src2 peer w2.
Proof.
  intros Hl Hs. eapply with_snapshot_indistinct; [done|].
  pose proof (Forall2_Forall2_elem _ _ _ (lid_jobs _ _ _ _ Hl)) as Hj.
  assert (Forall2 (fun r1 r2 => r1 ∈ ss_jobs (lr_snapshot (store_load w1)) /\ record_indistinct c peer r1 r2)
    (merge_sort record_le (filter (fun r => sj_state r = kQueued) (ss_jobs (lr_snapshot (store_load w1)))))
    (merge_sort record_le (filter (fun r => sj_state r = kQueued) (ss_jobs (lr_snapshot (store_load w2))))))
    as Hq.
  { apply merge_sort_related.
    - intros x1 x2 y1 y2 [_ Hx] [_ Hy]. unfold record_le, entry_of.
      by rewrite (rid_id _ _ _ _ Hx), (rid_submit _ _ _ _ Hx), (rid_id _ _ _ _ Hy),
        (rid_submit _ _ _ _ Hy).
    - apply filter_related; [|done]. intros x y [_ Hx]. by rewrite (rid_state _ _ _ _ Hx). }
  cbv zeta. rewrite (len_related _ _ _ Hq). f_equal.
  eapply fmap_related; [|apply listed_related, Hq].
  intros r1 r2 [Hin Hr]. eapply queue_entry_indistinct; [done..|]. intros Hf. by exists r1.
Qed.

Lemma gpu_indistinct c src1 src2 peer visible (w1 w2 : W) :
  load_indistinct c peer (store_load w1) (store_load w2) -> sources_indistinct visible src1 src2 ->
  handle_gpu src1 w1 = handle_gpu src2 w2.
Proof.
  intros Hl Hs. unfold handle_gpu. rewrite (ssi_gpu _ _ _ Hs). destruct (src_gpu src2); [|done].
  eapply with_snapshot_indistinct; [done|]. unfold gpu_device_view.
  by rewrite (lid_leases _ _ _ _ Hl).
Qed.

(** C11. A peer learns nothing it may not see. If two daemon states differ, for
    jobs the peer neither owns nor administers, only in private data (argument
    vector, working directory, environment, executable, placement, launch
    profile, TensorBoard directory, log path, process identity, failure reason,
    the placement target of its wait), and for its own jobs only in the values
    of environment variables with a sensitive name, then every query (PS, QUEUE,
    GPU, LOGS, LOGS_FOLLOW, TENSORBOARD, INSPECT) and the validation of a log
    stream get exactly the same answer in both. *)
Theorem query_noninterference c src1 src2 peer request (w1 w2 : W) :
  rq_kind request <> RK_kSubmit -> rq_kind request <> RK_kCancel ->
  load_indistinct c peer (store_load w1) (store_load w2) ->
  sources_indistinct (visible_to c peer (lr_snapshot (store_load w1))) src1 src2 ->
  (handle c src1 peer request w1).1 = (handle c src2 peer request w2).1 /\
  validate_logs_follow c peer (rq_logs_follow request) w1 =
  validate_logs_follow c peer (rq_logs_follow request) w2.
Proof.
  intros Hsub Hcan Hl Hs. pose proof (lid_jobs _ _ _ _ Hl) as Hj. split.
  - unfold handle. destruct (rq_kind request); try done; cbn [fst].
    + by eapply ps_indistinct.
    + by eapply queue_indistinct.
    + by eapply gpu_indistinct.
    + eapply with_snapshot_indistinct; [done|]. eapply with_own_job_indistinct; [done|].
      intros r1 r2 _ Hr Hf. destruct (rid_visible _ _ _ _ Hr Hf) as [_ ->].
      destruct (xr_log_path (sj_execution r2)); [|done]. cbv zeta. by rewrite !(ssi_tail _ _ _ Hs).
    + eapply with_snapshot_indistinct; [done|]. eapply with_own_job_indistinct; [done|].
      intros r1 r2 _ Hr Hf. destruct (rid_visible _ _ _ _ Hr Hf) as [Hsp _].
      by destruct (spec_indistinct_fields _ _ _ Hsp) as (_ & -> & _ & _ & _ & ->).
    + eapply with_snapshot_indistinct; [done|]. eapply with_own_job_indistinct; [done|].
      intros r1 r2 _ Hr Hf. cbv zeta.
      by rewrite (inspect_indistinct _ _ _ _ _ Hs _ _ _ _ Hr Hf (lid_leases _ _ _ _ Hl)).
  - eapply with_snapshot_indistinct; [done|]. eapply with_own_job_indistinct; [done|].
    intros r1 r2 _ Hr Hf. destruct (rid_visible _ _ _ _ Hr Hf) as [_ ->].
    by rewrite (rid_state _ _ _ _ Hr).
Qed.
End views.

(** ** Selector resolution *)

(** The elements of a list in the order of their first occurrence. *)
Fixpoint first_occurrences (l : list GpuUuid) : list GpuUuid :=
  match l with
  | [] => []
  | x :: l => x :: filter (fun y => y <> x) (first_occurrences l)
  end.

Lemma elem_of_first_occurrences l u : u ∈ first_occurrences l <-> u ∈ l.
Proof.
  induction l as [|x l IH]; [done|]. cbn [first_occurrences]. rewrite !elem_of_cons, list_elem_of_filter, IH.
  destruct (decide (u = x)); naive_solver.
Qed.

Lemma NoDup_first_occurrences l : NoDup (first_occurrences l).
Proof.
  induction l as [|x l IH]; cbn [first_occurrences]; constructor.
  - by intros [? _]%list_elem_of_filter.
  - by apply NoDup_filter.
Qed.

Lemma len_first_occurrences l : len (first_occurrences l) <= len l.
Proof.
  induction l as [|x l IH]; cbn [first_occurrences]; [done|]. rewrite !len_cons.
  pose proof (length_filter (fun y => y <> x) (first_occurrences l)). unfold len in *. lia.
Qed.

Lemma dedup_fold out l :
  fold_left (fun out u => if bool_decide (u ∈ out) then out else out ++ [u]) l out =
  out ++ filter (fun u => u ∉ out) (first_occurrences l).
Proof.
  revert out. induction l as [|x l IH]; intros out; simpl; [by rewrite app_nil_r|].
  rewrite IH. case_bool_decide as Hx.
  - rewrite filter_cons_False by naive_solver. f_equal. rewrite list_filter_filter.
    apply list_filter_iff. intros u. split; [|tauto]. intros Hu. split; [done|]. by intros ->.
  - rewrite filter_cons_True by done. rewrite <- app_assoc. f_equal. simpl. f_equal.
    rewrite list_filter_filter. apply list_filter_iff. intros u.
    rewrite elem_of_app, list_elem_of_singleton. naive_solver.
Qed.

Section resolve.
Context (gpu_spec : string) (snapshot : GpuObservationSnapshot).

(** [entry] names a device: its uuid is [u]. *)
Definition resolves (entry : string) (u : GpuUuid) : Prop := resolve_gpu_spec entry snapshot = Ok u.

Lemma resolves_device entry u : resolves entry u -> u ∈ (go_uuid <$> gs_devices snapshot).
Proof.
  unfold resolves, resolve_gpu_spec. intros H. repeat case_in H.
  - apply find_first_some in Heqo0 as [Hin _]. apply list_elem_of_fmap. eauto.
  - apply find_first_some in Heqo as [Hin Hd]. apply list_elem_of_fmap. exists g.
    apply bool_decide_eq_true in Hd. by rewrite Hd.
Qed.

Lemma resolve_loop i out entries :
  i <= kMaxPlacementDevices ->
  match fold_result_idx (resolve_step gpu_spec snapshot) i out entries with
  | Ok ds => exists us, Forall2 resolves entries us /\ i + len entries <= kMaxPlacementDevices /\
      ds = fold_left (fun out u => if bool_decide (u ∈ out) then out else out ++ [u]) us out
  | Err e => exists pre entry post us, entries = pre ++ entry :: post /\ Forall2 resolves pre us /\
      i + len pre <= kMaxPlacementDevices /\
      if kMaxPlacementDevices <? i + len pre + 1 then e = "GPU_SPEC_INVALID: " +:+ gpu_spec
      else resolve_gpu_spec entry snapshot = Err e
  end.
Proof.
  revert i out. induction entries as [|entry entries IH]; intros i out Hi; simpl.
  { exists []. split_and!; [constructor|rewrite len_nil; lia|done]. }
  unfold resolve_step at 1. destruct (N.ltb_spec kMaxPlacementDevices (i + 1)); simpl.
  { exists [], entry, entries, []. split_and!; [done|constructor|rewrite len_nil; lia|].
    rewrite len_nil, N.add_0_r. by rewrite (proj2 (N.ltb_lt _ _)) by done. }
  destruct (resolve_gpu_spec entry snapshot) as [u|e] eqn:Hr; simpl.
  - specialize (IH (i + 1) (if bool_decide (u ∈ out) then out else out ++ [u])).
    destruct (fold_result_idx _ _ _ _) as [ds|e]; destruct IH as [a IH]; [lia| |lia|].
    + destruct IH as (Hus & Hlen & ->). exists (u :: a).
      split_and!; [by constructor|rewrite len_cons; lia|done].
    + destruct IH as (x & post & us & -> & Hpre & Hlen & He).
      exists (entry :: a), x, post, (u :: us). split_and!; [done|by constructor|rewrite len_cons; lia|].
      rewrite len_cons. by replace (i + (len a + 1) + 1) with (i + 1 + len a + 1) by lia.
  - exists [], entry, entries, []. split_and!; [done|constructor|rewrite len_nil; lia|].
    rewrite len_nil, N.add_0_r. by rewrite (proj2 (N.ltb_ge _ _)) by done.
Qed.

Lemma resolve_list_ok ds :
  resolve_gpu_spec_list gpu_spec snapshot = Ok ds ->
  exists us, Forall2 resolves (split_on ","%char gpu_spec) us /\
    len us <= kMaxPlacementDevices /\ us <> [] /\ ds = first_occurrences us.
Proof.
  unfold resolve_gpu_spec_list. pose proof (resolve_loop 0 [] (split_on ","%char gpu_spec)) as H.
  destruct (fold_result_idx _ _ _ _) as [out|e]; [|done]. simpl.
  destruct H as (us & Hus & Hlen & ->); [done|]. rewrite dedup_fold. simpl.
  rewrite filter_all by (apply Forall_forall; intros u _; by apply not_elem_of_nil).
  intros Hds. exists us. rewrite <- (len_related _ _ _ Hus). split_and!; [done|done| |by case_in Hds].
  intros ->. apply Forall2_nil_inv_r in Hus. by apply (split_on_nonempty ","%char gpu_spec).
Qed.

Lemma resolve_list_err e :
  resolve_gpu_spec_list gpu_spec snapshot = Err e ->
  fold_result_idx (resolve_step gpu_spec snapshot) 0 [] (split_on ","%char gpu_spec) = Err e.
Proof.
  unfold resolve_gpu_spec_list. pose proof (resolve_loop 0 [] (split_on ","%char gpu_spec)) as H.
  destruct (fold_result_idx _ _ _ _) as [out|e']; simpl; [|done].
  destruct H as (us & Hus & _ & ->); [done|]. rewrite dedup_fold. simpl.
  destruct us as [|u us]; [|done].
  apply Forall2_nil_inv_r in Hus. by apply split_on_nonempty in Hus.
Qed.

Lemma resolve_gpu_spec_list_devices ds :
  resolve_gpu_spec_list gpu_spec snapshot = Ok ds ->
  Forall (fun u => u ∈ (go_uuid <$> gs_devices snapshot)) ds.
Proof.
  intros (us & Hus & _ & _ & ->)%resolve_list_ok. apply Forall_forall. intros u Hu.
  rewrite elem_of_first_occurrences in Hu. apply list_elem_of_lookup in Hu as [i Hi].
  destruct (Forall2_lookup_r _ _ _ _ _ Hus Hi) as (e & _ & He). by eapply resolves_device.
Qed.

(** A GPU set selector resolves to the devices its comma separated entries
    name, in the order of their first occurrence: 1 to 8 distinct devices of
    the current observation. Otherwise the answer is the failure of the first
    entry that does not resolve, or GPU_SPEC_INVALID when eight entries resolve
    and a ninth follows. *)
Theorem resolve_gpu_spec_list_exact :
  match resolve_gpu_spec_list gpu_spec snapshot with
  | Ok devices =>
      exists us, Forall2 resolves (split_on ","%char gpu_spec) us /\
        devices = first_occurrences us /\ NoDup devices /\
        1 <= len devices <= kMaxPlacementDevices /\
        Forall (fun u => u ∈ (go_uuid <$> gs_devices snapshot)) devices
  | Err e =>
      exists pre entry post us, split_on ","%char gpu_spec = pre ++ entry :: post /\
        Forall2 resolves pre us /\ len pre <= kMaxPlacementDevices /\
        if len pre =? kMaxPlacementDevices then e = "GPU_SPEC_INVALID: " +:+ gpu_spec
        else resolve_gpu_spec entry snapshot = Err e
  end.
Proof.
  destruct (resolve_gpu_spec_list gpu_spec snapshot) as [ds|e] eqn:Hr.
  - pose proof (resolve_gpu_spec_list_devices _ Hr) as Hdev.
    apply resolve_list_ok in Hr as (us & Hus & Hlen & Hne & ->). exists us.
    pose proof (len_first_occurrences us). split_and!; [done|done|apply NoDup_first_occurrences| |lia|done].
    destruct us; [done|]. simpl. rewrite len_cons. lia.
  - apply resolve_list_err in Hr.
    pose proof (resolve_loop 0 [] (split_on ","%char gpu_spec)) as H. rewrite Hr in H.
    destruct H as (pre & entry & post & us & Hs & Hus & Hlen & He); [done|].
    exists pre, entry, post, us. split_and!; [done..|].
    change (0 + len pre) with (len pre) in *. unfold kMaxPlacementDevices in *.
    destruct (N.ltb_spec 8 (len pre + 1)), (N.eqb_spec (len pre) 8); try done; lia.
Qed.
End resolve.

(** ** Requests that change state *)

Section writes.
Context {W : Type} `{StateStore W, JobControl W}.

Lemma resolve_placement_devices src request p :
  resolve_placement src request = Ok p ->
  (is_gpu_spec request = None /\ is_gpu_preferred_spec request = None /\ p = mkGpuPlacement GPM_kAny []) \/
  exists gpus, src_gpu src = Some gpus /\
    Forall (fun u => u ∈ (go_uuid <$> gs_devices gpus)) (gp_devices p) /\
    gp_mode p = if is_present (is_gpu_spec request) then GPM_kRequired else GPM_kPreferred.
Proof.
  unfold resolve_placement. intros Hp.
  destruct (is_gpu_spec request) as [s|], (is_gpu_preferred_spec request) as [t|];
    [done| | |left; by simplify_eq].
  - right. case_in Hp. case_in Hp. exists g. case_in Hp. split_and!; [done| |done].
    pose proof (resolve_gpu_spec_list_devices s g a) as Hr. by apply Hr.
  - right. case_in Hp. case_in Hp. exists g. case_in Hp. split_and!; [done| |done].
    apply Forall_singleton. by apply (resolves_device _ t).
Qed.

Lemma resolve_placement_error src request r :
  resolve_placement src request = Err r -> rs_error r = IE_kInvalidSpec \/ rs_error r = IE_kNotAvailable.
Proof.
  unfold resolve_placement. intros Hp. repeat case_in Hp; auto.
Qed.

(** SUBMIT hands the single writer exactly the valid jobs of the connected
    user. The job specification carries the peer's uid and gid, never a client
    supplied identity, and devices of the current observation only; when it is
    valid the writer is called once with it and its outcome is the answer, and
    when it is not (or the selectors do not resolve) the state is untouched and
    the answer is an error, DENIED for root. *)
Theorem handle_submit_exact src peer request (w : W) :
  let '(r, w') := handle_submit src peer request w in
  match resolve_placement src request with
  | Err e => r = e /\ w' = w /\ (rs_error r = IE_kInvalidSpec \/ rs_error r = IE_kNotAvailable)
  | Ok placement =>
      let spec := submitted_spec src peer request placement in
      owner_uid spec = peer_uid peer /\ owner_gid spec = peer_gid peer /\
      Forall (fun u => exists gpus, src_gpu src = Some gpus /\ u ∈ (go_uuid <$> gs_devices gpus))
        (gp_devices placement) /\
      ((SpecOk spec /\ exists out, submit_job spec w = (out, w') /\ r = submit_response out) \/
       (~ SpecOk spec /\ w' = w /\
        rs_error r = if peer_uid peer =? 0 then IE_kDenied else IE_kInvalidSpec))
  end.
Proof.
  unfold handle_submit. destruct (resolve_placement src request) as [p|e] eqn:Hp; cbv zeta.
  2: { split_and!; [done..|]. by eapply resolve_placement_error. }
  set (spec := submitted_spec src peer request p).
  pose proof (spec_valid_iff spec) as Hiff. pose proof (validate_root spec) as Hroot.
  unfold spec_valid in Hiff. change (owner_uid spec) with (peer_uid peer) in Hroot.
  assert (Forall (fun u => exists gpus, src_gpu src = Some gpus /\ u ∈ (go_uuid <$> gs_devices gpus))
    (gp_devices p)) as Hdev.
  { apply resolve_placement_devices in Hp as [(_ & _ & ->)|(gpus & Hg & Hd & _)]; [done|].
    eapply Forall_impl; [exact Hd|]. intros u Hu. by exists gpus. }
  destruct (spec_result_ok (validate spec)); simpl.
  - destruct (submit_job spec w) as [out w'] eqn:Hs. split_and!; [done..|].
    left. split; [by apply Hiff|]. by exists out.
  - case_bool_decide as Hr; split_and!; try done; right;
      (split; [intros ?%Hiff; done|]); (split; [done|]); simpl.
    + by rewrite (proj2 (N.eqb_eq _ _) (proj1 Hroot Hr)).
    + rewrite (proj2 (N.eqb_neq _ _)); [done|]. by intros ?%Hroot.
Qed.
End writes.

(** ** Views of a well-formed store *)

Section store_views.
Context {W : Type} `{StateStoreLaws W} `{JobControl W}.

Lemma find_job_view config st id :
  StoreOk config st -> find_job (snapshot_of st) id = st_jobs st !! id.
Proof.
  intros Hok. unfold find_job. simpl. destruct (find_first _ _) as [r|] eqn:Hf.
  - apply find_first_some in Hf as [Hin Hid]. apply N.eqb_eq in Hid.
    apply (elem_of_jobs _ _ _ Hok) in Hin. by rewrite <- Hid.
  - destruct (st_jobs st !! id) as [r|] eqn:Hr; [|done].
    pose proof (ro_id _ _ (map_Forall_lookup_1 _ _ _ _ (sto_jobs _ _ Hok) Hr)) as Hid.
    assert (r ∈ map_values (st_jobs st)) as Hin by (apply elem_of_map_values; eauto).
    pose proof (find_first_none _ _ _ Hf Hin) as Hne. simpl in Hne. by rewrite Hid, N.eqb_refl in Hne.
Qed.

Lemma foreign_false c peer r :
  foreign c peer r = false <-> owner_uid (sj_spec r) = peer_uid peer \/ is_admin c peer = true.
Proof.
  unfold foreign. rewrite andb_false_iff, !negb_false_iff, N.eqb_eq. done.
Qed.

(** CANCEL, case by case. An unknown job is NOT_FOUND; a job of another user
    is DENIED (with its state), unless the peer is an admin; cancelling a
    CANCELLED job again succeeds; another terminal job is INVALID_STATE. In all
    of these nothing is written. Otherwise the single writer is asked once, and
    its outcome is the answer. *)
Theorem handle_cancel_exact c peer id (w : W) :
  store_inv w -> StoreOk (store_config w) (store_view w) -> load_ok (store_load w) = true ->
  let '(r, w') := handle_cancel c peer id w in
  match st_jobs (store_view w) !! id with
  | None => w' = w /\ rs_error r = IE_kNotFound
  | Some record =>
      let state := sj_state record in
      if negb (owner_uid (sj_spec record) =? peer_uid peer) && negb (is_admin c peer) then
        w' = w /\ rs_error r = IE_kDenied /\ rs_state r = job_state_wire state
      else if is_terminal state then
        w' = w /\ rs_state r = job_state_wire state /\
        (rs_error r = IE_kNone <-> state = kCancelled) /\
        (rs_error r = IE_kInvalidState <-> state <> kCancelled)
      else exists out, cancel_job id w = (out, w') /\ r = cancel_response out
  end.
Proof.
  intros Hinv Hok Hl. unfold handle_cancel. rewrite Hl. simpl.
  rewrite (store_load_view _ Hinv Hl), (find_job_view _ _ _ Hok).
  destruct (st_jobs (store_view w) !! id) as [record|]; [|done]. unfold foreign.
  destruct (negb _ && negb _); [done|]. case_bool_decide as Hc.
  { rewrite Hc. simpl. split_and!; done. }
  destruct (is_terminal (sj_state record)); [simpl; split_and!; done|].
  destruct (cancel_job id w) as [out w']. by exists out.
Qed.

(** C12. Only authorised requests reach the single writer. Whatever the request,
    the daemon state after it is the state before it, unless it is a SUBMIT of
    a valid job owned by the peer itself, or a CANCEL of a job that exists, is
    not terminal, and is owned by the peer or cancelled by an admin; then the
    new state is what the writer made of it. *)
Theorem handle_writes c src peer request (w : W) r w' :
  store_inv w -> StoreOk (store_config w) (store_view w) ->
  handle c src peer request w = (r, w') ->
  w' = w \/
  (rq_kind request = RK_kSubmit /\ exists spec out,
     SpecOk spec /\ owner_uid spec = peer_uid peer /\ owner_gid spec = peer_gid peer /\
     submit_job spec w = (out, w') /\ r = submit_response out) \/
  (rq_kind request = RK_kCancel /\ exists record out,
     st_jobs (store_view w) !! rq_cancel request = Some record /\
     (owner_uid (sj_spec record) = peer_uid peer \/ is_admin c peer = true) /\
     is_terminal (sj_state record) = false /\
     cancel_job (rq_cancel request) w = (out, w') /\ r = cancel_response out).
Proof.
  intros Hinv Hok Hh. unfold handle in Hh. destruct (rq_kind request);
    try (left; by injection Hh as _ ->).
  - unfold handle_submit in Hh. destruct (resolve_placement _ _) as [p|]; [|left; congruence].
    destruct (spec_result_ok _) eqn:Hv; cbn [negb] in Hh; [|left; case_match; congruence].
    destruct (submit_job _ w) as [out w1] eqn:Hs. injection Hh as <- <-.
    right. left. split; [done|]. exists (submitted_spec src peer (rq_submit request) p), out.
    split_and!; [|done|done|done|done].
    by apply spec_valid_iff.
  - unfold handle_cancel in Hh. destruct (load_ok (store_load w)) eqn:Hl; cbn [negb] in Hh; [|left; congruence].
    rewrite (store_load_view _ Hinv Hl), (find_job_view _ _ _ Hok) in Hh.
    destruct (st_jobs (store_view w) !! rq_cancel request) as [record|]; [|left; congruence].
    destruct (foreign c peer record) eqn:Hf; [left; congruence|]. case_bool_decide; [left; congruence|].
    destruct (is_terminal (sj_state record)) eqn:Ht; [left; congruence|].
    destruct (cancel_job _ w) as [out w1] eqn:Hs. injection Hh as <- <-.
    right. right. split; [done|]. exists record, out. split_and!; try done. by apply foreign_false in Hf.
Qed.

Lemma sorted_records l : entry_of <$> merge_sort record_le l = sort_entries (entry_of <$> l).
Proof.
  assert (Forall2 (fun r e => e = entry_of r) (merge_sort record_le l)
            (merge_sort entry_le (entry_of <$> l))) as Hs.
  { apply merge_sort_related; [|apply Forall2_fmap_r, Forall_Forall2_diag, Forall_true; done].
    intros x1 x2 y1 y2 -> ->. done. }
  unfold sort_entries. apply list_eq_Forall2. apply Forall2_fmap_l. eapply Forall2_impl; [exact Hs|done].
Qed.

(** The QUEUE view is the scheduler's queue: on a daemon state where the
    in-memory queue agrees with the store, the entries listed are the queue's
    entries in its FIFO order, with their submission times, cut to the
    configured limit; the limit is reported exactly when something was cut. *)
Theorem queue_view_fifo c src peer q (w : W) :
  SchedOk q w -> load_ok (store_load w) = true ->
  let r := handle_queue c src peer w in
  let shown := take (N.to_nat (sc_max_listed_jobs c)) (q_entries q) in
  (iq_job_id <$> rs_queue r) = (qe_job_id <$> shown) /\
  (iq_submit_time_unix_ns <$> rs_queue r) = (unix_ns ∘ qe_submit_time <$> shown) /\
  Forall (fun e => iq_state e = job_state_wire kQueued) (rs_queue r) /\
  rs_error r = (if sc_max_listed_jobs c <? len (q_entries q) then IE_kLimit else IE_kNone).
Proof.
  intros [Hinv Hok Hq Hag] Hl. cbv zeta. unfold handle_queue, with_snapshot. rewrite Hl. cbn [negb].
  rewrite (store_load_view _ Hinv Hl). set (jobs := ss_jobs (snapshot_of (store_view w))).
  set (queued := merge_sort record_le _).
  assert (entry_of <$> queued = q_entries q) as Hent.
  { unfold queued. rewrite sorted_records.
    apply (proj1 (queue_agrees_perm _ _ _ Hok Hq)) in Hag.
    apply (StronglySorted_unique entry_lt); [|apply Hq|].
    - apply sort_entries_sorted. change (NoDup (qe_job_id <$> queued_entries jobs)).
      rewrite queued_entries_ids. apply NoDup_fmap_filter, (map_values_ids_nodup _ _ Hok).
    - unfold sort_entries. rewrite merge_sort_Permutation. symmetry. exact Hag. }
  assert (len queued = len (q_entries q)) as Hlen by (rewrite <- Hent; unfold len; by rewrite length_fmap).
  assert (listed c queued = take (N.to_nat (sc_max_listed_jobs c)) queued) as Hlist.
  { unfold listed. destruct (N.le_ge_cases (len queued) (sc_max_listed_jobs c)) as [Hle|Hge].
    - rewrite N.min_l by done. unfold len in *. rewrite !take_ge by lia. done.
    - by rewrite N.min_r. }
  cbn [rs_queue rs_error]. rewrite <- Hent, <- fmap_take, <- !list_fmap_compose, Hlist.
  split_and!; [done|done| |].
  - apply Forall_fmap, Forall_forall. intros r (i & Hr%list_elem_of_lookup_2 & _)%elem_of_take. simpl.
    unfold queued in Hr. rewrite merge_sort_Permutation in Hr.
    apply list_elem_of_filter in Hr as [-> _]. done.
  - unfold listing_response. rewrite Hent, <- Hlen. by destruct (_ <? _).
Qed.
End store_views.

(** ** The GPU view *)

Section gpu_view.
Context {W : Type} `{StateStoreLaws W}.

Lemma lease_of_device config st u :
  StoreOk config st ->
  find_first (fun l => bool_decide (lease_gpu_uuid l = u)) (map_values (st_leases st)) = st_leases st !! u.
Proof.
  intros Hok. destruct (find_first _ _) as [l|] eqn:Hf.
  - apply find_first_some in Hf as [Hin Hu%bool_decide_eq_true].
    apply elem_of_map_values in Hin as [k Hk].
    destruct (sto_lease_key _ _ Hok _ _ Hk) as [<- _]. by rewrite <- Hu.
  - destruct (st_leases st !! u) as [l|] eqn:Hl; [|done].
    destruct (sto_lease_key _ _ Hok _ _ Hl) as [Hu _].
    assert (l ∈ map_values (st_leases st)) as Hin by (apply elem_of_map_values; eauto).
    pose proof (find_first_none _ _ _ Hf Hin) as Hne. by apply bool_decide_eq_false in Hne.
Qed.

(** The GPU view tells the truth about scheduling: for each observed device,
    in order, it names the job that holds the stored lease, says ALLOCATED
    exactly when there is one (whatever the observation says), and says FREE
    exactly when the scheduler could place a job on it. *)
Theorem gpu_view_exact src gpus (w : W) :
  store_inv w -> StoreOk (store_config w) (store_view w) -> load_ok (store_load w) = true ->
  src_gpu src = Some gpus ->
  let r := handle_gpu src w in
  rs_error r = IE_kNone /\ rs_gpu_revision r = gs_revision gpus /\
  Forall2 (fun observed shown =>
      ig_uuid shown = go_uuid observed /\ ig_index shown = go_index observed /\
      ig_leased_by_job shown = lease_job_id <$> st_leases (store_view w) !! go_uuid observed /\
      (ig_logical_state shown = gpu_logical_wire GL_kAllocated <->
       is_Some (st_leases (store_view w) !! go_uuid observed)) /\
      (ig_logical_state shown = gpu_logical_wire GL_kFree <-> gpu_usable (store_view w) gpus observed))
    (gs_devices gpus) (rs_devices r).
Proof.
  intros Hinv Hok Hl Hg. cbv zeta. unfold handle_gpu, with_snapshot. rewrite Hg, Hl. cbn [negb].
  rewrite (store_load_view _ Hinv Hl). split_and!; [done..|]. cbn [rs_devices].
  apply Forall2_fmap_r, Forall_Forall2_diag, Forall_forall. intros d Hd.
  unfold gpu_device_view. simpl. rewrite (lease_of_device _ _ _ Hok).
  split_and!; [done..| |]; unfold gpu_usable;
    destruct (st_leases (store_view w) !! go_uuid d) as [l|]; simpl.
  - split; [|done]. intros _. by eexists.
  - split; [|by intros []]. by destruct (go_state d).
  - split; [done|]. by intros (_ & _ & ?).
  - destruct (go_state d); simpl; naive_solver.
Qed.
End gpu_view.

(** ** Responses fit the wire *)

(** Fields are values of their C++ types. *)
Record RecordFits (r : StoredJob) : Prop := {
  rf_id : u64 (sj_id r);
  rf_owner : u32 (owner_uid (sj_spec r));
  rf_exit : forall e, xr_exit (sj_execution r) = Some e ->
    (-2147483648 <= ex_exit_code e < 2147483648 /\ -2147483648 <= ex_signal_number e < 2147483648)%Z;
}.

Record SnapshotFits (s : GpuObservationSnapshot) : Prop := {
  sf_revision : u64 (gs_revision s);
  sf_devices : Forall (fun d => u32 (go_index d) /\
    forall total, memory_total_bytes (go_telemetry d) = Some total -> u64 total) (gs_devices s);
}.

Class JobControlFits (W : Type) `{JobControl W} := {
  submit_id_fits spec w : u64 (so_job_id (submit_job spec w).1);
  cancel_state_fits id w : co_state (cancel_job id w).1 <= kUnderlyingJobStateMax;
}.

Lemma job_state_wire_max s : job_state_wire s <= kUnderlyingJobStateMax.
Proof. by destruct s. Qed.

Lemma unix_ns_fits t : unix_ns t <= u64_max.
Proof.
  unfold unix_ns, u64_max. pose proof (Z.mod_pos_bound t 18446744073709551616). lia.
Qed.

Lemma blank_response_ok kind version error detail : ResponseOk (blank_response kind version error detail).
Proof. by constructor. Qed.

Lemma exit_wire_fits r e :
  RecordFits r -> exit_wire <$> xr_exit (sj_execution r) = Some e -> exit_in_range e.
Proof.
  intros Hr He. destruct (xr_exit (sj_execution r)) as [x|] eqn:Hx; [|done]. simpl in He.
  injection He as <-. destruct (rf_exit _ Hr _ Hx). unfold exit_in_range, exit_wire. simpl.
  by destruct (exit_exited x).
Qed.

Section fits.
Context (c : IpcServiceConfig) (src : Sources) (peer : PeerCredentials).

Lemma ps_summary_ok id r : StoredOk id r -> RecordFits r -> SummaryOk (ps_summary c src peer r).
Proof.
  intros Hs Hf. constructor; simpl.
  - apply job_state_wire_max.
  - apply Hf.
  - apply Hf.
  - pose proof (ro_revision _ _ Hs). pose proof (state_rank_max (sj_state r)). unfold u64_max. lia.
  - intros e. by apply exit_wire_fits.
Qed.

Lemma queue_view_ok r : RecordFits r -> QueueEntryOk (queue_view_entry c src peer r).
Proof.
  intros Hf. constructor; simpl; [apply job_state_wire_max|apply Hf|apply Hf|apply unix_ns_fits].
Qed.

Lemma gpu_device_ok snapshot d :
  Forall (fun l => u64 (lease_job_id l)) (ss_leases snapshot) -> telemetry_ok (go_telemetry d) ->
  u32 (go_index d) -> (forall total, memory_total_bytes (go_telemetry d) = Some total -> u64 total) ->
  GpuDeviceOk (gpu_device_view snapshot d).
Proof.
  intros Hl (Hu & Hm & _) Hi Ht. constructor; simpl; [done|by destruct (go_state d)| | | |].
  - unfold derive_logical_state. by destruct (is_present _), (go_state d).
  - apply Hu.
  - intros used total Hus Hto. destruct (Hm _ Hus) as (total' & Hto' & Hle).
    assert (total' = total) as -> by congruence. split; [done|]. by apply Ht.
  - intros j Hj. destruct (find_first _ _) as [l|] eqn:Hf; [|done]. simpl in Hj. injection Hj as <-.
    apply find_first_some in Hf as [Hin _]. rewrite Forall_forall in Hl. by apply Hl.
Qed.

Lemma inspect_payload_ok snapshot id r :
  StoredOk id r -> RecordFits r -> option_all SnapshotFits (src_gpu src) ->
  InspectOk (inspect_payload c src snapshot r).
Proof.
  intros Hs Hf Hg. constructor; simpl.
  - apply job_state_wire_max.
  - apply Hf.
  - apply Hf.
  - pose proof (ro_revision _ _ Hs). pose proof (state_rank_max (sj_state r)). unfold u64_max. lia.
  - intros i. unfold lease_view. destruct (find_first _ (ss_leases snapshot)) as [l|]; [|done]. simpl.
    destruct (src_gpu src) as [gpus|]; [|done].
    destruct (find_first _ (gs_devices gpus)) as [d|] eqn:Hd; [|done]. simpl. intros [= <-].
    apply find_first_some in Hd as [Hin _]. pose proof (sf_devices _ Hg) as Hds.
    rewrite Forall_forall in Hds. by apply Hds.
  - apply unix_ns_fits.
  - intros e. by apply exit_wire_fits.
  - pose proof (so_placement _ (ro_spec _ _ Hs)) as Hp. unfold placement_ok in Hp.
    destruct (gp_mode _); [done| |done]. unfold kMaxPlacementDevices in Hp. lia.
Qed.
End fits.

Section response_ok.
Context {W : Type} `{StateStoreLaws W} `{JobControlFits W}.

(** What the daemon's parts promise about the values they hold. *)
Record DaemonFits (src : Sources) (w : W) : Prop := {
  df_inv : store_inv w;
  df_store : StoreOk (store_config w) (store_view w);
  df_records : map_Forall (fun _ r => RecordFits r) (st_jobs (store_view w));
  df_gpu : option_all SnapshotFits (src_gpu src);
  df_gpu_valid : option_all SnapshotOk (src_gpu src);
}.

Lemma with_snapshot_response_ok kind src (w : W) k :
  DaemonFits src w -> ResponseOk (k (snapshot_of (store_view w))) ->
  ResponseOk (with_snapshot kind w k).
Proof.
  intros Hd Hk. unfold with_snapshot. destruct (load_ok (store_load w)) eqn:Hl; cbn [negb].
  - by rewrite (store_load_view _ (df_inv _ _ Hd) Hl).
  - apply blank_response_ok.
Qed.

Lemma with_own_job_response_ok kind c src peer (w : W) id k :
  DaemonFits src w ->
  (forall r, StoredOk id r -> RecordFits r -> ResponseOk (k r)) ->
  ResponseOk (with_own_job c kind peer (snapshot_of (store_view w)) id k).
Proof.
  intros Hd Hk. unfold with_own_job. rewrite (find_job_view _ _ _ (df_store _ _ Hd)).
  destruct (st_jobs (store_view w) !! id) as [r|] eqn:Hr; [|apply blank_response_ok].
  destruct (foreign _ _ _); [apply blank_response_ok|]. apply Hk.
  - exact (map_Forall_lookup_1 _ _ _ _ (sto_jobs _ _ (df_store _ _ Hd)) Hr).
  - exact (map_Forall_lookup_1 _ _ _ _ (df_records _ _ Hd) Hr).
Qed.

Lemma stored_records_ok src (w : W) r :
  DaemonFits src w -> r ∈ map_values (st_jobs (store_view w)) -> StoredOk (sj_id r) r /\ RecordFits r.
Proof.
  intros Hd Hr%(elem_of_jobs _ _ _ (df_store _ _ Hd)). split.
  - exact (map_Forall_lookup_1 _ _ _ _ (sto_jobs _ _ (df_store _ _ Hd)) Hr).
  - exact (map_Forall_lookup_1 _ _ _ _ (df_records _ _ Hd) Hr).
Qed.

Lemma lease_ids_fit src (w : W) :
  DaemonFits src w -> Forall (fun l => u64 (lease_job_id l)) (map_values (st_leases (store_view w))).
Proof.
  intros Hd. apply Forall_forall. intros l [u Hl]%elem_of_map_values.
  destruct (sto_lease_job _ _ (df_store _ _ Hd) _ _ Hl) as (r & Hr & _).
  rewrite <- (ro_id _ _ (map_Forall_lookup_1 _ _ _ _ (sto_jobs _ _ (df_store _ _ Hd)) Hr)).
  apply (rf_id _ (map_Forall_lookup_1 _ _ _ _ (df_records _ _ Hd) Hr)).
Qed.

Lemma Forall_listed {A} (P : A -> Prop) c l : Forall P l -> Forall P (listed c l).
Proof. intros Hl. unfold listed. by apply Forall_take. Qed.

Lemma handle_submit_response_ok src peer request (w : W) :
  ResponseOk (handle_submit src peer request w).1.
Proof.
  unfold handle_submit. destruct (resolve_placement src request) as [p|e] eqn:Hp.
  - destruct (negb _); [case_bool_decide; apply blank_response_ok|].
    pose proof (submit_id_fits (submitted_spec src peer request p) w) as Hid.
    destruct (submit_job _ w) as [out w']. simpl in *. unfold submit_response.
    destruct (so_code out); try apply blank_response_ok. by constructor.
  - assert (exists error detail, e = error_response RK_kSubmit error detail) as (? & ? & ->).
    { unfold resolve_placement in Hp. repeat case_in Hp; eauto. }
    apply blank_response_ok.
Qed.

Lemma handle_cancel_response_ok c src peer id (w : W) :
  DaemonFits src w -> ResponseOk (handle_cancel c peer id w).1.
Proof.
  intros Hd. unfold handle_cancel. destruct (negb _); [apply blank_response_ok|].
  destruct (find_job _ _) as [r|]; [|apply blank_response_ok].
  pose proof (job_state_wire_max (sj_state r)). destruct (foreign _ _ _); [by constructor|].
  case_bool_decide; [by constructor|]. destruct (is_terminal _); [by constructor|].
  pose proof (cancel_state_fits id w) as Hst. destruct (cancel_job id w) as [out w']. simpl in *.
  unfold cancel_response. destruct (co_code out); try apply blank_response_ok; by constructor.
Qed.

(** Whatever is asked, the answer's fields are in the ranges the decoder
    accepts. *)
Lemma handle_response_ok c src peer request (w : W) :
  DaemonFits src w -> ResponseOk (handle c src peer request w).1.
Proof.
  intros Hd. unfold handle. destruct (rq_kind request); cbn [fst].
  - apply handle_submit_response_ok.
  - eapply with_snapshot_response_ok; [done|]. unfold listing_response.
    destruct (_ <? _); constructor; try done; apply Forall_fmap, Forall_listed, Forall_forall;
      intros r Hr; destruct (stored_records_ok _ _ _ Hd Hr); by eapply ps_summary_ok.
  - eapply with_snapshot_response_ok; [done|]. unfold listing_response.
    destruct (_ <? _); constructor; try done; apply Forall_fmap, Forall_listed, Forall_forall;
      intros r Hr; rewrite merge_sort_Permutation in Hr; apply list_elem_of_filter in Hr as [_ Hr];
      destruct (stored_records_ok _ _ _ Hd Hr); by apply queue_view_ok.
  - unfold handle_gpu. pose proof (df_gpu _ _ Hd) as Hg. pose proof (df_gpu_valid _ _ Hd) as Hv.
    destruct (src_gpu src) as [gpus|]; [|apply blank_response_ok].
    eapply with_snapshot_response_ok; [done|]. constructor; try done; [apply Hg|].
    apply Forall_fmap, Forall_forall. intros d Hin.
    pose proof (sf_devices _ Hg) as Hds. rewrite Forall_forall in Hds. destruct (Hds _ Hin) as [Hi Ht].
    pose proof (sn_telemetry _ Hv) as Htel. rewrite Forall_forall in Htel.
    apply gpu_device_ok; auto. by eapply lease_ids_fit.
  - by eapply handle_cancel_response_ok.
  - eapply with_snapshot_response_ok; [done|]. eapply with_own_job_response_ok; [done|].
    intros r _ _. destruct (xr_log_path _); [|apply blank_response_ok]. cbv zeta.
    destruct (_ || _); [apply blank_response_ok|by constructor].
  - apply blank_response_ok.
  - eapply with_snapshot_response_ok; [done|]. eapply with_own_job_response_ok; [done|].
    intros r _ _. by constructor.
  - eapply with_snapshot_response_ok; [done|]. eapply with_own_job_response_ok; [done|].
    intros r Hs Hf. constructor; try done. eapply inspect_payload_ok; [done..|apply Hd].
Qed.
End response_ok.

(** ** The log tail *)

(** Answers of [read(2)] on a regular file positioned before [rest], with
    [want] bytes of buffer left: some of the next bytes, end of file only when
    nothing is left. *)
Fixpoint reads_from (rest : bytes) (want : N) (reads : list ReadOutcome) : Prop :=
  match reads with
  | [] => True
  | ReadData b :: reads =>
      b <> [] /\ len b <= want /\ exists rest', rest = b ++ rest' /\ reads_from rest' (want - len b) reads
  | ReadEof :: _ => rest = []
  | ReadIntr :: reads => reads_from rest want reads
  | ReadError :: _ => True
  end.

Definition is_interrupt (r : ReadOutcome) : bool := match r with ReadIntr => true | _ => false end.

Lemma read_loop_exact want received rest reads :
  len rest <= want -> reads_from rest want reads ->
  match read_loop (len received + want) received reads with
  | None => len (filter (fun r => is_interrupt r = false) reads) <= len rest
  | Some (Ok out) => out = received ++ rest
  | Some (Err _) => ReadError ∈ reads
  end.
Proof.
  revert want received rest. induction reads as [|r reads IH]; intros want received rest Hw Hr; simpl.
  { destruct (N.ltb_spec (len received) (len received + want)); [apply N.le_0_l|].
    assert (rest = []) as -> by (apply len_zero; lia). by rewrite app_nil_r. }
  destruct (N.ltb_spec (len received) (len received + want)) as [_|Hdone].
  2: { assert (rest = []) as -> by (apply len_zero; lia). by rewrite app_nil_r. }
  destruct r as [b| | |]; simpl in Hr.
  - destruct Hr as (Hne & Hb & rest' & -> & Hr). rewrite len_app in Hw.
    specialize (IH (want - len b) (received ++ b) rest'). rewrite len_app in IH.
    replace (len received + len b + (want - len b)) with (len received + want) in IH by lia.
    specialize (IH ltac:(lia) Hr). rewrite filter_cons_True by done. rewrite len_cons, len_app.
    destruct (read_loop _ _ _) as [[out|]|].
    + by rewrite app_assoc.
    + by right.
    + destruct b; [done|]. rewrite len_cons. lia.
  - by rewrite Hr, app_nil_r.
  - rewrite filter_cons_False by done. specialize (IH want received rest Hw Hr).
    destruct (read_loop _ _ _) as [[out|]|]; [done| |done]. by right.
  - left.
Qed.

(** The log reader returns exactly the last [max_bytes] bytes of the file
    (all of it when it is shorter) and marks the cut, however the kernel splits
    or interrupts the reads; it fails only when a read fails, and it returns
    after at most one more uninterrupted read than there are bytes to return. *)
Theorem read_tail_exact content max_bytes reads :
  max_bytes <> 0 ->
  let start := len content - max_bytes in
  let tail := drop (N.to_nat start) content in
  reads_from tail max_bytes reads ->
  match read_tail (OpenFile true (len content) true reads) max_bytes with
  | None => len (filter (fun r => is_interrupt r = false) reads) <= len tail
  | Some t =>
      if lt_ok t then lt_tail t = tail /\ lt_truncated t = (max_bytes <? len content)
      else ReadError ∈ reads
  end.
Proof.
  intros Hm start tail Hr. unfold read_tail. rewrite (proj2 (N.eqb_neq _ _) Hm). cbn [negb].
  rewrite andb_false_r.
  assert (len tail <= max_bytes) as Hlen.
  { unfold tail, start, len. rewrite length_drop. unfold len. lia. }
  pose proof (read_loop_exact max_bytes [] tail reads Hlen Hr) as Hl.
  rewrite len_nil, N.add_0_l in Hl.
  destruct (read_loop max_bytes [] reads) as [[out|]|]; simpl; auto.
Qed.

(** ** Witnesses *)

(** A single writer that refuses everything, over any state. *)
Definition closed_control {W} : JobControl W := {|
  submit_job spec w := (mkSubmitOutcome SO_kUnavailable 0 "stopping", w);
  cancel_job id w := (mkCancelOutcome CO_kUnavailable 0 "stopping", w);
|}.

Definition example_sources : Sources :=
  mkSources (Some (example_gpus GO_kFree)) (Some (mkEvaluation [mkSkip 3 WR_kNoFreeGpu (Some "g")] false))
    (fun _ _ => mkTail true false []) 9.

Definition other_peer : PeerCredentials := mkPeer 2000 2000 1.

(** Another user's job with a different argument vector: the same PS answer. *)
Definition example_store' : InMemoryStateStore :=
  let spec := example_spec in
  let r := example_queued in
  mkInMemory example_config
    (mkState 1 {[ 3 := {| r with sj_spec := {| spec with argv := ["other"]; cwd := "/secret" |} |} ]} ∅)
    None None.

#[export] Instance example_control : JobControl InMemoryStateStore := closed_control.

#[export] Instance example_control_fits : JobControlFits InMemoryStateStore.
Proof. by constructor. Qed.

Lemma example_store_ok : store_inv example_store /\ StoreOk (store_config example_store) (store_view example_store).
Proof. destruct (example_sched_ok None) as [? ? _ _]; [done|]. split; done. Qed.

Lemma query_noninterference_witness :
  (handle default_service_config example_sources other_peer (blank_request RK_kPs 4) example_store).1 =
  (handle default_service_config example_sources other_peer (blank_request RK_kPs 4) example_store').1.
Proof.
  apply (query_noninterference default_service_config example_sources example_sources other_peer
           (blank_request RK_kPs 4) example_store example_store'); [done|done| |].
  - constructor; [done| |done]. vm_compute. constructor; [|constructor]. constructor; try reflexivity.
    discriminate.
  - constructor; [done|done|]. simpl. constructor. by repeat constructor.
Defined.

Lemma handle_cancel_exact_witness :
  rs_error (handle_cancel default_service_config other_peer 3 example_store).1 = IE_kDenied.
Proof.
  pose proof (handle_cancel_exact default_service_config other_peer 3 example_store
    (proj1 example_store_ok) (proj2 example_store_ok) eq_refl) as Hc.
  destruct (handle_cancel _ _ _ _) as [r w']. exact (proj1 (proj2 Hc)).
Defined.

Lemma handle_writes_witness :
  let out := handle default_service_config example_sources (mkPeer 1000 1000 1)
               {| (blank_request RK_kCancel 4) with rq_cancel := 3 |} example_store in
  out.2 = example_store \/ rq_kind (blank_request RK_kCancel 4) = RK_kCancel.
Proof.
  destruct (handle_writes default_service_config example_sources (mkPeer 1000 1000 1)
    {| (blank_request RK_kCancel 4) with rq_cancel := 3 |} example_store _ _
    (proj1 example_store_ok) (proj2 example_store_ok) (surjective_pairing _)) as [Hw|[(Hk & _)|(Hk & _)]].
  - left. exact Hw.
  - discriminate Hk.
  - right. exact Hk.
Defined.

Lemma queue_view_fifo_witness :
  iq_job_id <$> rs_queue (handle_queue default_service_config example_sources other_peer example_store) = [3].
Proof.
  exact (proj1 (queue_view_fifo default_service_config example_sources other_peer example_fifo
                  example_store (example_sched_ok None ltac:(discriminate)) eq_refl)).
Defined.

Lemma gpu_view_exact_witness :
  rs_gpu_revision (handle_gpu example_sources example_store) = 1.
Proof.
  exact (proj1 (proj2 (gpu_view_exact example_sources (example_gpus GO_kFree) example_store
    (proj1 example_store_ok) (proj2 example_store_ok) eq_refl eq_refl))).
Defined.

Lemma read_tail_exact_witness :
  exists t, read_tail (OpenFile true 4 true [ReadIntr; ReadData ["c"%char]; ReadData ["d"%char]]) 2 = Some t /\
    lt_tail t = ["c"; "d"]%char /\ lt_truncated t = true.
Proof.
  pose proof (read_tail_exact ["a"; "b"; "c"; "d"]%char 2
                [ReadIntr; ReadData ["c"%char]; ReadData ["d"%char]] ltac:(discriminate)) as Ht.
  simpl in Ht. eexists. split; [vm_compute; reflexivity|]. apply Ht.
  split_and!; [done|done|]. exists ["d"%char]. split; [done|].
  split_and!; [done|vm_compute; done|]. by exists [].
Defined.

(** Selector resolution on concrete inputs. *)
Example resolve_by_index : resolve_gpu_spec_list "0,GPU-a" (example_gpus GO_kFree) = Ok ["GPU-a"].
Proof. vm_compute. reflexivity. Qed.

Example resolve_missing : resolve_gpu_spec_list "0,7" (example_gpus GO_kFree) = Err "GPU_INDEX_NOT_FOUND: 7".
Proof. vm_compute. reflexivity. Qed.

Example sensitive_names :
  is_sensitive_env_name default_service_config "my_Api_Key" = true /\
  is_sensitive_env_name default_service_config "PATH" = false.
Proof. vm_compute. done. Qed.
