(* ===== verification/Server.v ===== *)
(** * Frames on a socket and the request server: [src/ipc/uds_io.cpp],
    [src/runtime/ipc_server.cpp]

    Frames are moved through a stream socket whose reads and writes the kernel
    may cut, interrupt or delay at will; the server reads one frame, decodes
    it, has the service handle it and writes one reply.  The kernel's answers
    are explicit scripts, so a theorem about all scripts is a theorem about all
    its behaviours. *)

From S2P Require Import Prelude.
From S2P Require Import Job.
From S2P Require Import Gpu.
From S2P Require Import Store.
From S2P Require Import Queue.
From S2P Require Import Scheduler.
From S2P Require Import Wire.
From S2P Require Import Request.
From S2P Require Import Response.
From S2P Require Import Service.

(** ** Socket *)

Inductive FrameIoError :=
| FE_kNone | FE_kTimeout | FE_kClosed | FE_kBadLength | FE_kOversize | FE_kIoError.

#[export] Instance FrameIoError_eq_dec : EqDecision FrameIoError.
Proof. solve_decision. Defined.

#[export] Instance Result_eq_dec {E A} `{EqDecision E, EqDecision A} : EqDecision (Result E A).
Proof. solve_decision. Defined.

(** [to_string(FrameIoError)] *)
Definition FrameIoError_to_string (error : FrameIoError) : string :=
  match error with
  | FE_kNone => "none"
  | FE_kTimeout => "timeout"
  | FE_kClosed => "closed"
  | FE_kBadLength => "bad frame length"
  | FE_kOversize => "oversize frame"
  | FE_kIoError => "io error"
  end.

(** Answers of [poll(2)]: ready (with an event the caller accepts, or not),
    deadline passed, [EINTR], another error. *)
Inductive PollAnswer := PollReady (usable : bool) | PollTimeout | PollIntr | PollFailed.

(** Answers of [read(2)]: at most [k + 1] of the bytes asked for and available
    (none available: end of file), end of file, [EAGAIN], [EINTR], another
    error. *)
Inductive RecvAnswer := RecvUpTo (k : N) | RecvEof | RecvAgain | RecvIntr | RecvFailed.

(** Answers of [send(2)]: at most [k] bytes taken, [EAGAIN], [EINTR], another
    error. *)
Inductive SendAnswer := SendUpTo (k : N) | SendAgain | SendIntr | SendFailed.

(** The receiving side: bytes the peer has sent and not yet been read, and the
    answers to come. *)
Record RecvSide := mkRecvSide {
  rv_inbound : bytes;
  rv_polls : list PollAnswer;
  rv_recvs : list RecvAnswer;
}.

(** A call that the script does not answer is still pending: [None]. *)
Definition Pending (A : Type) : Type := option A.

(** [wait_readable] *)
Fixpoint wait_readable (polls : list PollAnswer) : Pending (Result FrameIoError unit * list PollAnswer) :=
  match polls with
  | [] => None
  | PollReady usable :: polls => Some (if usable then Ok tt else Err FE_kIoError, polls)
  | PollTimeout :: polls => Some (Err FE_kTimeout, polls)
  | PollIntr :: polls => wait_readable polls
  | PollFailed :: polls => Some (Err FE_kIoError, polls)
  end.

(** [read_full]: [received] is what the buffer holds. *)
Fixpoint read_full (n : N) (received : bytes) (inbound : bytes) (polls : list PollAnswer)
    (recvs : list RecvAnswer) : Pending (Result FrameIoError bytes * RecvSide) :=
  if len received <? n then
    match wait_readable polls with
    | None => None
    | Some (Err e, polls) => Some (Err e, mkRecvSide inbound polls recvs)
    | Some (Ok _, polls) =>
        match recvs with
        | [] => None
        | RecvUpTo k :: recvs =>
            let chunk := take (N.to_nat (N.min (k + 1) (n - len received))) inbound in
            let rest := drop (N.to_nat (N.min (k + 1) (n - len received))) inbound in
            match chunk with
            | [] => Some (Err FE_kClosed, mkRecvSide inbound polls recvs)
            | _ => read_full n (received ++ chunk) rest polls recvs
            end
        | RecvEof :: recvs => Some (Err FE_kClosed, mkRecvSide inbound polls recvs)
        | RecvAgain :: recvs => read_full n received inbound polls recvs
        | RecvIntr :: recvs => read_full n received inbound polls recvs
        | RecvFailed :: recvs => Some (Err FE_kIoError, mkRecvSide inbound polls recvs)
        end
    end
  else Some (Ok received, mkRecvSide inbound polls recvs).

(** [decode_length] *)
Definition decode_length (header : bytes) : N := get_le 4 0 0 header.

(** [read_frame] *)
Definition read_frame (s : RecvSide) : Pending (Result FrameIoError bytes * RecvSide) :=
  match read_full 4 [] (rv_inbound s) (rv_polls s) (rv_recvs s) with
  | None => None
  | Some (Err e, s) => Some (Err e, s)
  | Some (Ok header, s) =>
      let length := decode_length header in
      if length <? kMinPayloadBytes then Some (Err FE_kBadLength, s)
      else if kMaxPayloadBytes <? length then Some (Err FE_kOversize, s)
      else read_full length [] (rv_inbound s) (rv_polls s) (rv_recvs s)
  end.

(** The sending side: bytes handed to the kernel, and the answers to come. *)
Record SendSide := mkSendSide {
  sd_sent : bytes;
  sd_polls : list PollAnswer;
  sd_sends : list SendAnswer;
}.

(** [write_full]: [data] is what is left to send; the answer also says what the
    kernel has taken. *)
Fixpoint write_full (data sent : bytes) (polls : list PollAnswer) (sends : list SendAnswer)
  : Pending (Result FrameIoError unit) * SendSide :=
  match data with
  | [] => (Some (Ok tt), mkSendSide sent polls sends)
  | _ =>
      match polls with
      | [] => (None, mkSendSide sent polls sends)
      | PollReady false :: polls | PollFailed :: polls => (Some (Err FE_kIoError), mkSendSide sent polls sends)
      | PollTimeout :: polls => (Some (Err FE_kTimeout), mkSendSide sent polls sends)
      | PollReady true :: polls | PollIntr :: polls =>
          match sends with
          | [] => (None, mkSendSide sent polls sends)
          | SendUpTo k :: sends =>
              write_full (drop (N.to_nat k) data) (sent ++ take (N.to_nat k) data) polls sends
          | SendAgain :: sends | SendIntr :: sends => write_full data sent polls sends
          | SendFailed :: sends => (Some (Err FE_kIoError), mkSendSide sent polls sends)
          end
      end
  end.

(** [write_frame]: the header bytes are those of the little-endian length. *)
Definition write_frame (payload : bytes) (s : SendSide) : Pending (Result FrameIoError unit) * SendSide :=
  if kMaxPayloadBytes <? len payload then (Some (Err FE_kOversize), s)
  else
    match write_full (put_le 4 0 (len payload)) (sd_sent s) (sd_polls s) (sd_sends s) with
    | (Some (Ok _), s) => write_full payload (sd_sent s) (sd_polls s) (sd_sends s)
    | out => out
    end.

(** ** The server *)

(** How a connection ends: closed without a reply, a reply payload handed to
    [write_frame], or the descriptor handed to the stream delegate. *)
Inductive Served := Closed | Replied (payload : bytes) | TakenOver.

(** [UdsIpcStreamDelegate::Outcome] *)
Record StreamOutcome := mkStreamOutcome {
  stream_taken_over : bool;
  stream_response : IpcResponse;
}.

(** [reject_connection] *)
Definition reject_connection (kind : IpcRequestKind) (detail : string) : Served :=
  match encode_response_payload (error_response kind IE_kProtocol detail) [] with
  | (true, payload) => Replied payload
  | (false, _) => Closed
  end.

(** [write_response_and_close] *)
Definition write_response_and_close (response : IpcResponse) : Served :=
  match encode_response_payload response [] with
  | (true, payload) => Replied payload
  | (false, out) =>
      match encode_response_payload (error_response (rs_kind response) IE_kInternal "internal error") out with
      | (true, payload) => Replied payload
      | (false, _) => Closed
      end
  end.

(** [serve], from the outcome of [read_frame] on; [delegate] is the optional
    stream delegate. *)
Definition serve {W} `{StateStore W, JobControl W} (c : IpcServiceConfig) (src : Sources)
    (delegate : option (PeerCredentials -> IpcRequest -> W -> StreamOutcome * W))
    (peer : PeerCredentials) (frame : Result FrameIoError bytes) (w : W) : Served * W :=
  match frame with
  | Err FE_kBadLength | Err FE_kOversize => (reject_connection RK_kSubmit "malformed frame", w)
  | Err _ => (Closed, w)
  | Ok payload =>
      match decode_request_payload payload with
      | Err e => (reject_connection RK_kSubmit (IpcDecodeError_to_string e), w)
      | Ok request =>
          match (if bool_decide (rq_kind request = RK_kLogsFollow) then delegate else None) with
          | Some begin_stream =>
              let '(outcome, w') := begin_stream peer request w in
              if stream_taken_over outcome then (TakenOver, w')
              else (write_response_and_close (stream_response outcome), w')
          | None =>
              let '(response, w') := handle c src peer request w in
              (write_response_and_close {| response with rs_version := rq_version request |}, w')
          end
      end
  end.

(** ** Frame lemmas *)

Definition frame_of (payload : bytes) : bytes := put_le 4 0 (len payload) ++ payload.

Lemma write_full_prefix data sent polls sends :
  let '(r, s) := write_full data sent polls sends in
  exists taken left, data = taken ++ left /\ sd_sent s = sent ++ taken /\
    (r = Some (Ok tt) <-> left = []).
Proof.
  revert data sent sends. induction polls as [|p polls IH]; intros data sent sends;
    (destruct data as [|x data]; [exists [], []; split_and!; [done|symmetry; apply app_nil_r|done]|]).
  { exists [], (x :: data). split_and!; [done|symmetry; apply app_nil_r|done]. }
  set (d := x :: data).
  assert (forall (r : Pending (Result FrameIoError unit)) s, r <> Some (Ok tt) -> sd_sent s = sent ->
    exists taken left, d = taken ++ left /\ sd_sent s = sent ++ taken /\ (r = Some (Ok tt) <-> left = []))
    as Hstop.
  { intros r s Hr Hs. exists [], d. split_and!; [done|by rewrite app_nil_r|]. by split. }
  destruct p as [[]| | |], sends as [|[k| | |] sends]; cbn [write_full];
    try (by apply Hstop); try (apply IH).
  all: specialize (IH (drop (N.to_nat k) d) (sent ++ take (N.to_nat k) d) sends).
  all: destruct (write_full _ _ _ _) as [r s]; destruct IH as (taken & left & Hd & Hs & Hr).
  all: exists (take (N.to_nat k) d ++ taken), left; split_and!; [|by rewrite app_assoc|exact Hr].
  all: by rewrite <- app_assoc, <- Hd, take_drop.
Qed.

Lemma write_frame_prefix payload polls sends :
  len payload <= kMaxPayloadBytes ->
  let '(r, s) := write_frame payload (mkSendSide [] polls sends) in
  exists left, frame_of payload = sd_sent s ++ left /\ (r = Some (Ok tt) <-> left = []).
Proof.
  intros Hl. unfold write_frame. rewrite (proj2 (N.ltb_ge _ _) Hl). cbn [sd_sent sd_polls sd_sends].
  pose proof (write_full_prefix (put_le 4 0 (len payload)) [] polls sends) as Hh.
  destruct (write_full (put_le 4 0 (len payload)) [] polls sends) as [r s].
  destruct Hh as (taken & left & Hd & Hs & Hr). rewrite app_nil_l in Hs.
  destruct r as [[[]|e]|].
  - rewrite (proj1 Hr eq_refl), app_nil_r in Hd.
    pose proof (write_full_prefix payload (sd_sent s) (sd_polls s) (sd_sends s)) as Hp.
    destruct (write_full payload _ _ _) as [r2 s2]. destruct Hp as (taken2 & left2 & Hd2 & Hs2 & Hr2).
    exists left2. split; [|exact Hr2]. unfold frame_of. rewrite Hs2, Hs, <- Hd, <- app_assoc. by f_equal.
  - exists (left ++ payload). unfold frame_of. rewrite Hd, Hs, <- app_assoc. split; [done|].
    split; [done|]. intros [Hn _]%app_nil. by apply Hr in Hn.
  - exists (left ++ payload). unfold frame_of. rewrite Hd, Hs, <- app_assoc. split; [done|].
    split; [done|]. intros [Hn _]%app_nil. by apply Hr in Hn.
Qed.

Lemma wait_readable_err polls e polls' :
  wait_readable polls = Some (Err e, polls') -> e = FE_kTimeout \/ e = FE_kIoError.
Proof.
  induction polls as [|[[]| | |] polls IH]; simpl; try done; try (intros [= <- _]; auto).
Qed.

Section read_full.
Variable n : N.

(** One [read(2)] that found bytes. *)
Lemma chunk_of_inbound (received inbound : bytes) k x chunk :
  let m := N.min (k + 1) (n - len received) in
  len received <= n -> take (N.to_nat m) inbound = x :: chunk ->
  len (received ++ x :: chunk) <= n /\ inbound = (x :: chunk) ++ drop (N.to_nat m) inbound.
Proof.
  intros m Hn Hc. split; [|by rewrite <- Hc, take_drop].
  rewrite len_app, <- Hc. unfold len in *. rewrite length_take. lia.
Qed.

Lemma read_full_sound received inbound polls recvs out s :
  len received <= n -> read_full n received inbound polls recvs = Some (Ok out, s) ->
  exists data, out = received ++ data /\ inbound = data ++ rv_inbound s /\ len out = n.
Proof.
  revert received inbound polls. induction recvs as [|a recvs IH]; intros received inbound polls Hn Hr;
    simpl in Hr; destruct (N.ltb_spec (len received) n) as [Hlt|Hge];
    try (injection Hr as <- <-; exists []; rewrite app_nil_r; split_and!; [done|done|lia]);
    destruct (wait_readable polls) as [[[[]|] polls']|]; try done.
  destruct a as [k| | | |]; try done; try (by apply IH in Hr).
  destruct (take _ inbound) as [|x chunk] eqn:Hc; [done|].
  destruct (chunk_of_inbound _ _ _ _ _ Hn Hc) as [Hn' Hin].
  apply IH in Hr as (data & -> & Hin' & Hlen); [|done].
  exists ((x :: chunk) ++ data). split_and!; [by rewrite app_assoc| |done].
  by rewrite <- app_assoc, <- Hin'.
Qed.

(** When the bytes are there, a failure comes from the script. *)
Lemma read_full_failure received data rest polls recvs e s :
  len received + len data = n ->
  read_full n received (data ++ rest) polls recvs = Some (Err e, s) ->
  e = FE_kTimeout \/ e = FE_kIoError \/ (e = FE_kClosed /\ RecvEof ∈ recvs).
Proof.
  revert received data polls. induction recvs as [|a recvs IH]; intros received data polls Hn Hr;
    simpl in Hr; destruct (N.ltb_spec (len received) n) as [Hlt|Hge]; try done;
    destruct (wait_readable polls) as [[[[]|e'] polls']|] eqn:Hw; try done;
    try (injection Hr as <- _; apply wait_readable_err in Hw; tauto).
  assert (forall received' data' polls, len received' + len data' = n ->
    read_full n received' (data' ++ rest) polls recvs = Some (Err e, s) ->
    e = FE_kTimeout \/ e = FE_kIoError \/ (e = FE_kClosed /\ RecvEof ∈ a :: recvs)) as IH'.
  { intros r' d' p' Hlen Hread. destruct (IH _ _ _ Hlen Hread) as [?|[?|[? ?]]]; auto.
    right. right. split; [done|]. by right. }
  destruct a as [k| | | |]; try (by eapply IH'); try (injection Hr as <- _; auto).
  - set (m := N.min (k + 1) (n - len received)) in *.
    assert (N.to_nat m <= length data)%nat as Hm by (unfold len in *; lia).
    rewrite take_app_le, drop_app_le in Hr by done.
    destruct (take (N.to_nat m) data) as [|x chunk] eqn:Hc.
    + apply (f_equal length) in Hc. rewrite length_take in Hc. simpl in Hc. unfold len in *. lia.
    + rewrite <- Hc in Hr. eapply IH'; [|exact Hr]. rewrite len_app. unfold len in *.
      rewrite length_take, length_drop. lia.
  - right. right. split; [done|]. left.
Qed.
End read_full.

(** A script that never fails, delays or ends: ready polls and data. *)
Definition steady (polls : list PollAnswer) (recvs : list RecvAnswer) : Prop :=
  Forall (fun a => a = PollReady true) polls /\
  Forall (fun a => match a with RecvUpTo _ => True | _ => False end) recvs.

Lemma read_full_steady n received data rest polls recvs :
  len received + len data = n -> steady polls recvs ->
  (length data <= length polls)%nat -> (length data <= length recvs)%nat ->
  exists s, read_full n received (data ++ rest) polls recvs = Some (Ok (received ++ data), s) /\
    rv_inbound s = rest /\ steady (rv_polls s) (rv_recvs s) /\
    (length polls <= length (rv_polls s) + length data)%nat /\
    (length recvs <= length (rv_recvs s) + length data)%nat.
Proof.
  revert received data polls. induction recvs as [|a recvs IH]; intros received data polls Hn [Hp Hv] Hlp Hlr.
  - assert (data = []) as -> by (destruct data; simpl in *; [done|lia]). rewrite len_nil in Hn. simpl.
    rewrite (proj2 (N.ltb_ge _ _)) by lia. rewrite app_nil_r. eexists. split; [done|]. simpl.
    split; [done|]; split; [done|]; lia.
  - simpl. destruct (N.ltb_spec (len received) n) as [Hlt|Hge].
    2: { assert (data = []) as -> by (apply len_zero; lia). rewrite app_nil_r. eexists. split; [done|].
         simpl. split; [done|]; split; [done|]; lia. }
    destruct polls as [|p polls]; [destruct data; simpl in *; [|lia]; rewrite len_nil in Hn; lia|].
    inversion Hp as [|? ? -> Hp']. inversion Hv as [|? ? Ha Hv']. subst. destruct a as [k| | | |]; try done.
    cbn [wait_readable].
    set (m := N.min (k + 1) (len received + len data - len received)).
    assert (N.to_nat m <= length data)%nat as Hm by (unfold len in *; lia).
    assert (1 <= N.to_nat m)%nat as Hm1 by (unfold len in *; lia).
    rewrite take_app_le, drop_app_le by done.
    destruct (take (N.to_nat m) data) as [|x chunk] eqn:Hc.
    { apply (f_equal length) in Hc. rewrite length_take in Hc. simpl in Hc. lia. }
    rewrite <- Hc.
    destruct (IH (received ++ take (N.to_nat m) data) (drop (N.to_nat m) data) polls)
      as (s & Hs & Hin & Hst & H1 & H2); [|done|rewrite length_drop; simpl in *; lia..|].
    { rewrite len_app. unfold len in *. rewrite length_take, length_drop. lia. }
    exists s. rewrite <- app_assoc, take_drop in Hs. split; [exact Hs|].
    rewrite length_drop in H1, H2. simpl in *. split; [done|]. split; [done|]. lia.
Qed.

Lemma decode_length_frame (payload rest : bytes) :
  len payload <= kMaxPayloadBytes -> decode_length (put_le 4 0 (len payload) ++ rest) = len payload.
Proof.
  intros Hl. unfold decode_length. apply get_put_le. unfold kMaxPayloadBytes in Hl. simpl. lia.
Qed.

Lemma read_frame_failure payload rest s e s' :
  kMinPayloadBytes <= len payload <= kMaxPayloadBytes -> rv_inbound s = frame_of payload ++ rest ->
  read_frame s = Some (Err e, s') ->
  e = FE_kTimeout \/ e = FE_kIoError \/ e = FE_kClosed.
Proof.
  intros Hl Hin Hr. unfold read_frame in Hr. rewrite Hin in Hr. unfold frame_of in Hr.
  rewrite <- app_assoc in Hr.
  destruct (read_full 4 [] _ _ _) as [[[header|e1] s1]|] eqn:Hh; [| |done].
  - pose proof (decode_length_frame payload [] (proj2 Hl)) as Hd. rewrite app_nil_r in Hd.
    apply read_full_sound in Hh as (data & -> & Hsplit & Hlen); [|done]. rewrite app_nil_l in *.
    apply app_inj_1 in Hsplit as [Hhead Htail];
      [|unfold len in Hlen; rewrite put_le_length; lia].
    rewrite <- Hhead, Hd in Hr.
    rewrite (proj2 (N.ltb_ge _ _)) in Hr by lia. rewrite (proj2 (N.ltb_ge _ _)) in Hr by lia.
    rewrite <- Htail in Hr. apply read_full_failure in Hr; [|done]. tauto.
  - injection Hr as <- _. apply read_full_failure in Hh; [tauto|]. by rewrite len_put_le.
Qed.

(** What a frame read returns is framed by its own length in the inbound bytes. *)
Lemma read_frame_sound s p s' :
  read_frame s = Some (Ok p, s') ->
  exists header, rv_inbound s = header ++ p ++ rv_inbound s' /\ len header = 4 /\
    decode_length header = len p /\ ipc_payload_length_valid (len p) = true.
Proof.
  unfold read_frame. destruct (read_full 4 _ _ _ _) as [[[header|e1] s1]|] eqn:Hh; [|done|done].
  apply read_full_sound in Hh as (data & -> & Hsplit & Hlen); [|done]. rewrite app_nil_l in *.
  cbv zeta. destruct (N.ltb_spec (decode_length data) kMinPayloadBytes); [done|].
  destruct (N.ltb_spec kMaxPayloadBytes (decode_length data)); [done|]. intros Hr.
  apply read_full_sound in Hr as (data' & -> & Hsplit' & Hlen'); [|apply N.le_0_l]. rewrite app_nil_l in *.
  exists data. split_and!; [by rewrite Hsplit, Hsplit'|done|done|].
  unfold ipc_payload_length_valid. apply andb_true_iff. rewrite !N.leb_le. lia.
Qed.

Lemma read_frame_complete payload rest s p s' :
  len payload <= kMaxPayloadBytes -> rv_inbound s = frame_of payload ++ rest ->
  read_frame s = Some (Ok p, s') -> p = payload /\ rv_inbound s' = rest.
Proof.
  intros Hl Hin Hr. apply read_frame_sound in Hr as (header & Hs & Hlen & Hdec & _).
  rewrite Hin in Hs. unfold frame_of in Hs. rewrite <- app_assoc in Hs.
  apply app_inj_1 in Hs as [Hh Hs]; [|unfold len in Hlen; rewrite put_le_length; lia].
  pose proof (decode_length_frame payload [] Hl) as Hd. rewrite app_nil_r, Hh, Hdec in Hd.
  apply app_inj_1 in Hs as [-> ->]; [done|]. unfold len in Hd. lia.
Qed.

Lemma read_frame_cut payload left s p s' :
  len payload <= kMaxPayloadBytes -> frame_of payload = rv_inbound s ++ left -> left <> [] ->
  read_frame s <> Some (Ok p, s').
Proof.
  intros Hl Hf Hne Hr. apply read_frame_sound in Hr as (header & Hs & Hlen & Hdec & _).
  rewrite Hs in Hf. unfold frame_of in Hf. rewrite <- !app_assoc in Hf.
  apply app_inj_1 in Hf as [Hh Hf]; [|unfold len in Hlen; rewrite put_le_length; lia].
  pose proof (decode_length_frame payload [] Hl) as Hd. rewrite app_nil_r, Hh, Hdec in Hd.
  rewrite Hf, !len_app in Hd. destruct left; [done|]. rewrite len_cons in Hd. lia.
Qed.

Lemma read_frame_steady payload rest s :
  kMinPayloadBytes <= len payload <= kMaxPayloadBytes -> rv_inbound s = frame_of payload ++ rest ->
  steady (rv_polls s) (rv_recvs s) ->
  (4 + length payload <= length (rv_polls s))%nat -> (4 + length payload <= length (rv_recvs s))%nat ->
  exists s', read_frame s = Some (Ok payload, s') /\ rv_inbound s' = rest /\ steady (rv_polls s') (rv_recvs s') /\
    (length (rv_polls s) <= length (rv_polls s') + (4 + length payload))%nat /\
    (length (rv_recvs s) <= length (rv_recvs s') + (4 + length payload))%nat.
Proof.
  intros Hl Hin Hst Hp Hr. unfold read_frame. rewrite Hin. unfold frame_of. rewrite <- app_assoc.
  destruct (read_full_steady 4 [] (put_le 4 0 (len payload)) (payload ++ rest) (rv_polls s) (rv_recvs s))
    as (s1 & -> & Hin1 & Hst1 & Hp1 & Hr1);
    [by rewrite len_put_le|done|rewrite put_le_length; lia..|].
  rewrite app_nil_l. pose proof (decode_length_frame payload [] (proj2 Hl)) as Hd.
  rewrite app_nil_r in Hd. cbv zeta. rewrite Hd.
  rewrite (proj2 (N.ltb_ge _ _)) by lia. rewrite (proj2 (N.ltb_ge _ _)) by lia. rewrite Hin1.
  rewrite put_le_length in Hp1, Hr1.
  destruct (read_full_steady (len payload) [] payload rest (rv_polls s1) (rv_recvs s1))
    as (s2 & Hs2 & Hin2 & Hst2 & Hp2 & Hr2); [done|done|lia..|]. rewrite app_nil_l in Hs2. exists s2.
  split_and!; [done..|lia|lia].
Qed.

(** A frame crosses the socket intact or not at all, however the kernel
    splits, delays or interrupts the reads and writes. A write that reports
    success has handed over exactly the frame, and a reader of those bytes (with
    anything behind them) that returns a payload returns that payload and leaves
    what follows; it fails only with a timeout, an I/O error or an end of file,
    and returns as soon as enough calls are answered without failure. A write
    that did not succeed has handed over a proper prefix, which no reader takes
    for a frame. *)
Theorem frame_transfer payload polls sends :
  kMinPayloadBytes <= len payload <= kMaxPayloadBytes ->
  let '(res, sent) := write_frame payload (mkSendSide [] polls sends) in
  if bool_decide (res = Some (Ok tt)) then
    forall rest r, rv_inbound r = sd_sent sent ++ rest ->
      match read_frame r with
      | Some (Ok p, r') => p = payload /\ rv_inbound r' = rest
      | Some (Err e, _) => e = FE_kTimeout \/ e = FE_kIoError \/ e = FE_kClosed
      | None => ~ (steady (rv_polls r) (rv_recvs r) /\
                   (4 + length payload <= length (rv_polls r) `min` length (rv_recvs r))%nat)
      end
  else forall r, rv_inbound r = sd_sent sent -> forall p r', read_frame r <> Some (Ok p, r').
Proof.
  intros Hl. pose proof (write_frame_prefix payload polls sends (proj2 Hl)) as Hw.
  destruct (write_frame payload _) as [res sent]. destruct Hw as (left & Hf & Hres).
  case_bool_decide as Hok.
  - apply Hres in Hok as ->. rewrite app_nil_r in Hf. intros rest r Hin. rewrite <- Hf in Hin.
    destruct (read_frame r) as [[[p|e] r']|] eqn:Hr.
    + exact (read_frame_complete _ _ _ _ _ (proj2 Hl) Hin Hr).
    + exact (read_frame_failure _ _ _ _ _ Hl Hin Hr).
    + intros [Hst Hn]. destruct (read_frame_steady payload rest r Hl Hin Hst) as (s' & Hs' & _); [lia..|].
      congruence.
  - intros r Hin p r'. rewrite <- Hin in Hf. eapply read_frame_cut; [apply Hl|exact Hf|].
    by intros ->%Hres.
Qed.

(** ** Decoded requests *)

(** Every value the reader accepts satisfies [P]. *)
Definition ensures {A} (P : A -> Prop) (r : Reader A) : Prop :=
  forall b a rest, r b = Ok (a, rest) -> P a.

Lemma ensures_ret {A} (P : A -> Prop) a : P a -> ensures P (read_ret a).
Proof. intros Ha b a' rest Hr. unfold read_ret in Hr. by simplify_eq. Qed.

Lemma ensures_fail {A} (P : A -> Prop) e : ensures P (read_fail e).
Proof. by intros b a rest Hr. Qed.

Lemma ensures_bind {A B} (P : B -> Prop) (r : Reader A) k :
  (forall a, ensures P (k a)) -> ensures P (read_bind r k).
Proof.
  intros Hk b x rest Hr. unfold read_bind in Hr. apply result_bind_ok in Hr as ([a b'] & _ & Hr).
  by eapply Hk.
Qed.

Lemma ensures_if {A} (P : A -> Prop) (b : bool) (r1 r2 : Reader A) :
  (b = true -> ensures P r1) -> (b = false -> ensures P r2) -> ensures P (if b then r1 else r2).
Proof. destruct b; auto. Qed.

(** A decoded request has a supported version and a kind that version has. *)
Lemma decode_request_version payload request :
  decode_request_payload payload = Ok request ->
  ipc_version_supported (rq_version request) = true /\
  kind_version_ok (rq_kind request) (rq_version request).
Proof.
  intros Hd. unfold decode_request_payload in Hd. destruct (_ <? _); [done|].
  unfold read_all in Hd. apply result_bind_ok in Hd as ([r rest] & Hr & Hd).
  destruct (negb _); [done|]. simplify_eq. revert Hr.
  enough (ensures (fun request => ipc_version_supported (rq_version request) = true /\
    kind_version_ok (rq_kind request) (rq_version request)) decode_request_body) as Hens by apply Hens.
  unfold decode_request_body. apply ensures_bind; intros version. apply ensures_bind; intros code.
  apply ensures_if; [intros _; apply ensures_fail|intros Hv%negb_false_iff].
  destruct (kind_of_code code) as [kind|]; [|apply ensures_fail].
  apply ensures_if; [intros _; apply ensures_fail|intros Hk].
  assert (kind_version_ok kind version) as Hkv.
  { intros ->. simpl in Hk. apply N.ltb_ge in Hk. done. }
  cbv zeta. destruct kind; repeat (apply ensures_bind; intros ?); by apply ensures_ret.
Qed.

(** ** Replies *)

Lemma reply_decodable r p :
  ResponseOk r -> kind_version_ok (rs_kind r) (rs_version r) -> response_payload r = Some p ->
  decode_response_payload p = Ok (response_canonical r).
Proof.
  intros Hr Hk Hp. apply encode_payload_some in Hp as (Hv & Hp & Hmax).
  unfold decode_response_payload. rewrite decode_within by done.
  eapply rt_all; [|exact Hp]. by apply rt_response.
Qed.

(** The fixed error replies always fit. *)
Lemma internal_reply_encodes kind :
  is_Some (response_payload (error_response kind IE_kInternal "internal error")).
Proof. destruct kind; eexists; vm_compute; reflexivity. Qed.

Lemma protocol_reply_encodes e :
  is_Some (response_payload (error_response RK_kSubmit IE_kProtocol (IpcDecodeError_to_string e))).
Proof. destruct e; eexists; vm_compute; reflexivity. Qed.

Lemma malformed_reply_encodes :
  is_Some (response_payload (error_response RK_kSubmit IE_kProtocol "malformed frame")).
Proof. eexists; vm_compute; reflexivity. Qed.

Lemma error_reply_decodes kind error detail p :
  response_payload (error_response kind error detail) = Some p ->
  decode_response_payload p = Ok (error_response kind error detail).
Proof.
  intros Hp. apply reply_decodable in Hp; [|apply blank_response_ok|by intros _]. rewrite Hp.
  by destruct kind.
Qed.

Lemma reject_connection_reply detail :
  is_Some (response_payload (error_response RK_kSubmit IE_kProtocol detail)) ->
  exists p, reject_connection RK_kSubmit detail = Replied p /\
    decode_response_payload p = Ok (error_response RK_kSubmit IE_kProtocol detail).
Proof.
  intros [p Hp]. exists p. unfold reject_connection, encode_response_payload, append_payload.
  rewrite Hp. split; [done|]. by apply error_reply_decodes.
Qed.

(** A reply is the response, or the INTERNAL reply when the response does not
    fit a payload. *)
Lemma write_response_reply r :
  ResponseOk r -> kind_version_ok (rs_kind r) (rs_version r) ->
  exists p, write_response_and_close r = Replied p /\
    decode_response_payload p =
      Ok (if is_present (response_payload r) then response_canonical r
          else error_response (rs_kind r) IE_kInternal "internal error").
Proof.
  intros Hr Hk. unfold write_response_and_close, encode_response_payload, append_payload.
  destruct (response_payload r) as [p|] eqn:Hp.
  - exists p. split; [done|]. by apply reply_decodable.
  - destruct (internal_reply_encodes (rs_kind r)) as [q Hq]. rewrite Hq. exists q.
    split; [done|]. by apply error_reply_decodes.
Qed.

Lemma handle_kind {W} `{StateStore W, JobControl W} c src peer request (w : W) :
  rs_kind (handle c src peer request w).1 = rq_kind request.
Proof.
  unfold handle. destruct (rq_kind request); cbn [fst]; try done.
  - unfold handle_submit. destruct (resolve_placement src (rq_submit request)) as [p|e] eqn:Hp.
    + destruct (negb _); [by case_bool_decide|]. destruct (submit_job _ _) as [out w']. simpl.
      unfold submit_response. by destruct (so_code out).
    + simpl. unfold resolve_placement in Hp. by repeat case_in Hp.
  - unfold handle_ps, with_snapshot, listing_response. by repeat case_match.
  - unfold handle_queue, with_snapshot, listing_response. by repeat case_match.
  - unfold handle_gpu, with_snapshot. by repeat case_match.
  - unfold handle_cancel, cancel_response. by repeat case_match; simplify_eq.
  - unfold handle_logs, with_snapshot, with_own_job. by repeat case_match.
  - unfold handle_tensorboard, with_snapshot, with_own_job. by repeat case_match.
  - unfold handle_inspect, with_snapshot, with_own_job. by repeat case_match.
Qed.

Lemma ResponseOk_version r v : ResponseOk r -> ResponseOk {| r with rs_version := v |}.
Proof. intros []. by constructor. Qed.

(** Every complete request frame gets exactly one decodable reply, from one
    run of the service. A frame that decodes to a request is handled once; the
    client decodes the reply to the service's answer in the request's protocol
    version (its fields of that version), or to an INTERNAL error of the same
    kind when the answer does not fit a payload. A frame that does not decode,
    or announces an illegal length, is answered with a PROTOCOL error and
    changes nothing; when no complete frame arrived there is no reply. *)
Theorem serve_reply {W} `{StateStoreLaws W} `{JobControlFits W} c src peer frame (w : W) :
  DaemonFits src w ->
  let '(served, w') := serve c src None peer frame w in
  match frame with
  | Ok payload =>
      match decode_request_payload payload with
      | Ok request =>
          let response := (handle c src peer request w).1 in
          let reply := {| response with rs_version := rq_version request |} in
          w' = (handle c src peer request w).2 /\ rs_kind reply = rq_kind request /\
          exists p, served = Replied p /\
            decode_response_payload p =
              Ok (if is_present (response_payload reply) then response_canonical reply
                  else error_response (rq_kind request) IE_kInternal "internal error")
      | Err e => w' = w /\ exists p, served = Replied p /\
          decode_response_payload p = Ok (error_response RK_kSubmit IE_kProtocol (IpcDecodeError_to_string e))
      end
  | Err e => w' = w /\
      if bool_decide (e = FE_kBadLength \/ e = FE_kOversize) then
        exists p, served = Replied p /\
          decode_response_payload p = Ok (error_response RK_kSubmit IE_kProtocol "malformed frame")
      else served = Closed
  end.
Proof.
  intros Hd. unfold serve. destruct frame as [payload|e].
  2: { destruct e; rewrite ?bool_decide_eq_true_2, ?bool_decide_eq_false_2 by naive_solver;
       (split; [done|]); try done; apply reject_connection_reply, malformed_reply_encodes. }
  destruct (decode_request_payload payload) as [request|e] eqn:Hdec.
  2: { split; [done|]. apply reject_connection_reply, protocol_reply_encodes. }
  replace (if bool_decide (rq_kind request = RK_kLogsFollow) then None else None)
    with (@None (PeerCredentials -> IpcRequest -> W -> StreamOutcome * W)) by (by destruct (bool_decide _)).
  pose proof (handle_response_ok c src peer request w Hd) as Hok.
  pose proof (handle_kind c src peer request w) as Hkind.
  apply decode_request_version in Hdec as [_ Hkv].
  destruct (handle c src peer request w) as [response w']. cbn [fst snd] in *. cbv zeta.
  split_and!; [done|done|]. rewrite <- Hkind in *.
  apply (write_response_reply {| response with rs_version := rq_version request |}); [|done].
  by apply ResponseOk_version.
Qed.

(** ** Witnesses *)

(** A version 1 answer that does not fit is replaced by a version 4 frame. *)
Definition oversize_v1 : IpcResponse :=
  let r := fresh_response RK_kPs in
  {| r with rs_version := 1; rs_jobs := replicate 1025 (mkSummary 1 0 1 0 true [] "" None None 0 None) |}.

Example fallback_version :
  exists p, write_response_and_close oversize_v1 = Replied p /\
    decode_response_payload p = Ok (error_response RK_kPs IE_kInternal "internal error") /\
    rs_version (error_response RK_kPs IE_kInternal "internal error") = 4.
Proof. eexists. split; [vm_compute; reflexivity|]. split; vm_compute; reflexivity. Qed.

Definition example_payload : bytes := ["004"; "002"]%char.

Definition example_write : Pending (Result FrameIoError unit) * SendSide :=
  write_frame example_payload
    (mkSendSide [] [PollReady true; PollIntr; PollReady true] [SendUpTo 4; SendAgain; SendUpTo 2]).

Definition example_recv : RecvSide :=
  mkRecvSide (sd_sent example_write.2) (replicate 6 (PollReady true)) (replicate 6 (RecvUpTo 0)).

Lemma frame_transfer_witness :
  example_write.1 = Some (Ok tt) /\
  exists r', read_frame example_recv = Some (Ok example_payload, r') /\ rv_inbound r' = [].
Proof.
  pose proof (frame_transfer example_payload [PollReady true; PollIntr; PollReady true]
    [SendUpTo 4; SendAgain; SendUpTo 2] ltac:(vm_compute; split; discriminate)) as Ht.
  change (write_frame _ _) with example_write in Ht.
  assert (example_write = (Some (Ok tt), example_write.2)) as Ew by (vm_compute; reflexivity).
  rewrite Ew in Ht. rewrite bool_decide_eq_true_2 in Ht by reflexivity.
  specialize (Ht [] example_recv). rewrite app_nil_r in Ht. specialize (Ht eq_refl).
  destruct (read_frame example_recv) as [[[p|e] r']|] eqn:Er; [|vm_compute in Er; discriminate..].
  split; [vm_compute; reflexivity|]. destruct Ht as [-> Hrest]. exists r'. split; [reflexivity|exact Hrest].
Defined.

Lemma example_daemon_fits : DaemonFits example_sources example_store.
Proof.
  constructor; [apply example_store_ok|apply example_store_ok| | |apply example_gpus_ok].
  - apply map_Forall_singleton. by constructor.
  - constructor; [done|]. by repeat constructor.
Qed.

Lemma serve_reply_witness :
  exists p, (serve default_service_config example_sources None other_peer (Ok example_payload) example_store).1
      = Replied p /\
    rs_kind (handle default_service_config example_sources other_peer (blank_request RK_kPs 4) example_store).1
      = RK_kPs.
Proof.
  pose proof (serve_reply default_service_config example_sources other_peer (Ok example_payload) example_store
                example_daemon_fits) as Hs.
  destruct (serve _ _ _ _ _ _) as [served w'].
  change (decode_request_payload example_payload) with (@Ok IpcDecodeError _ (blank_request RK_kPs 4)) in Hs.
  destruct Hs as (_ & Hk & p & Hp & _). exists p. split; [exact Hp|exact Hk].
Defined.
