(* ===== verification/Supervisor.v ===== *)
(** * The process supervisor: [src/process/process_supervisor.cpp],
    [include/yori/process/process_supervisor.hpp],
    [src/runtime/grace_escalation.cpp]

    The state machine that guards one training process (spawn or adopt, SIGTERM,
    grace period, SIGKILL, reap, abandon), its grace timer, the decoding of a
    wait status, and the reading of a process identity from [/proc/<pid>/stat].
    The answers of the system calls ([kill], [waitpid], the content of the stat
    file, the fork/exec sequence) are arguments; every [kill] call is recorded.
    Sessions of calls, which need the fork/exec sequence, are in [Spawn.v]. *)

From S2P Require Import Prelude.
From S2P Require Import Job.
From S2P Require Import Store.

(** ** Data *)

(** [ProcessSupervisor::Phase] *)
Inductive Phase := PH_kIdle | PH_kRunning | PH_kTerminating | PH_kExited.

(** [CancelOutcome] *)
Inductive CancelOutcome :=
| CX_kTerminating | CX_kAlreadyTerminating | CX_kNotRunning | CX_kAlreadyExited | CX_kSignalFailed.

(** [EscalationOutcome] *)
Inductive EscalationOutcome :=
| EO_kKilled | EO_kGraceNotExpired | EO_kNotTerminating | EO_kAlreadyExited | EO_kSignalFailed.

(** [ExitPollOutcome] *)
Inductive ExitPollOutcome := EP_kStillRunning | EP_kExited | EP_kNotSpawned | EP_kWaitFailed.

(** [AdoptErrorCode] *)
Inductive AdoptErrorCode := AE_kNone | AE_kAlreadyRunning | AE_kInvalidIdentity | AE_kIdentityVerifyFailed.

(** [AbandonCode] *)
Inductive AbandonCode := AB_kAbandoned | AB_kNotRunning.

(** [SpawnErrorCode] *)
Inductive SpawnErrorCode :=
| SP_kNone | SP_kAlreadyRunning | SP_kInvalidPlan | SP_kPipeFailed | SP_kDevNullFailed | SP_kForkFailed
| SP_kProcessGroupFailed | SP_kChdirFailed | SP_kIdentitySwitchFailed | SP_kExecFailed
| SP_kExecConfirmationTimeout | SP_kIdentityReadFailed.

#[export] Instance Phase_eq_dec : EqDecision Phase.
Proof. solve_decision. Defined.
#[export] Instance CancelOutcome_eq_dec : EqDecision CancelOutcome.
Proof. solve_decision. Defined.
#[export] Instance EscalationOutcome_eq_dec : EqDecision EscalationOutcome.
Proof. solve_decision. Defined.

Inductive Signal := SIGTERM | SIGKILL.

(** One [::kill(target, signal)]; a negative target is a process group. *)
Record KillCall := mkKill { kc_target : Z; kc_signal : Signal }.

(** [CancelPolicyLimits], in milliseconds *)
Definition kMinGracePeriod : Z := 100.
Definition kMaxGracePeriod : Z := 600000.
Definition kDefaultGracePeriod : Z := 10000.

(** [CancelPolicy::valid] *)
Definition policy_valid (grace_period : Z) : bool :=
  ((kMinGracePeriod <=? grace_period) && (grace_period <=? kMaxGracePeriod))%Z.

(** [ExitStatus{}] *)
Definition no_exit : ExitStatus := mkExitStatus ER_kUnknown 0 0.

(** [ProcessSupervisor::Impl]; times are milliseconds of the steady clock. *)
Record Supervisor := mkSupervisor {
  sp_grace_period : Z;
  sp_phase : Phase;
  sp_identity : ProcessIdentity;
  sp_exit_status : ExitStatus;
  sp_grace_deadline : Z;
}.

(** [to_string(SpawnErrorCode)] *)
Definition SpawnErrorCode_to_string (code : SpawnErrorCode) : string :=
  match code with
  | SP_kNone => "none"
  | SP_kAlreadyRunning => "supervisor already manages a running process"
  | SP_kInvalidPlan => "invalid launch plan"
  | SP_kPipeFailed => "pipe creation failed"
  | SP_kDevNullFailed => "opening /dev/null failed"
  | SP_kForkFailed => "fork failed"
  | SP_kProcessGroupFailed => "setting up the process group failed"
  | SP_kChdirFailed => "changing into the working directory failed"
  | SP_kIdentitySwitchFailed => "switching to the job owner identity failed"
  | SP_kExecFailed => "exec failed"
  | SP_kExecConfirmationTimeout => "exec confirmation timed out"
  | SP_kIdentityReadFailed => "reading the process identity failed"
  end.

(** The constructor *)
Definition new_supervisor (grace_period : Z) : Supervisor :=
  mkSupervisor grace_period PH_kIdle no_identity no_exit 0.

(** The phases with a process to guard *)
Definition guards (phase : Phase) : bool :=
  match phase with PH_kRunning | PH_kTerminating => true | PH_kIdle | PH_kExited => false end.

(** ** Operations *)

(** [kill(-pgid, sig) < 0 && kill(pgid, sig) < 0]: the calls made, and the
    [errno] of the second when both fail.  [kill] answers [None] on delivery. *)
Definition signal_group (kill : Z -> option Z) (pgid : Z) (sig : Signal) : list KillCall * option Z :=
  match kill (- pgid)%Z with
  | None => ([mkKill (- pgid) sig], None)
  | Some _ => ([mkKill (- pgid) sig; mkKill pgid sig], kill pgid)
  end.

(** The destructor *)
Definition destroy (s : Supervisor) : list KillCall :=
  if guards (sp_phase s)
  then [mkKill (- pi_pgid (sp_identity s)) SIGKILL; mkKill (pi_pid (sp_identity s)) SIGKILL]
  else [].

(** [spawn]: its guards, then the fork/exec sequence's answer.  [plan_check] is
    what [launch::validate] says of the plan. *)
Definition spawn (plan_check : option string)
    (fork_exec : Result (SpawnErrorCode * string) ProcessIdentity) (s : Supervisor)
  : Result (SpawnErrorCode * string) ProcessIdentity * Supervisor :=
  if guards (sp_phase s)
  then (Err (SP_kAlreadyRunning, SpawnErrorCode_to_string SP_kAlreadyRunning), s)
  else
    match plan_check with
    | Some message => (Err (SP_kInvalidPlan, message), s)
    | None =>
        if negb (policy_valid (sp_grace_period s)) then (Err (SP_kInvalidPlan, "invalid cancel policy"), s)
        else
          match fork_exec with
          | Err e => (Err e, s)
          | Ok identity =>
              (Ok identity,
               {| s with sp_identity := identity; sp_exit_status := no_exit; sp_phase := PH_kRunning |})
          end
    end.

(** [adopt] *)
Definition adopt (verify : ProcessIdentity -> bool) (identity : ProcessIdentity) (s : Supervisor)
  : AdoptErrorCode * Supervisor :=
  if guards (sp_phase s) then (AE_kAlreadyRunning, s)
  else if negb (identity_valid identity) then (AE_kInvalidIdentity, s)
  else if negb (verify identity) then (AE_kIdentityVerifyFailed, s)
  else (AE_kNone, {| s with sp_identity := identity; sp_exit_status := no_exit; sp_phase := PH_kRunning |}).

(** [abandon] *)
Definition abandon (s : Supervisor) : AbandonCode * Supervisor :=
  if guards (sp_phase s)
  then (AB_kAbandoned, {| s with sp_identity := no_identity; sp_exit_status := no_exit; sp_phase := PH_kIdle |})
  else (AB_kNotRunning, s).

(** [request_cancel] *)
Definition request_cancel (now : Z) (kill : Z -> option Z) (s : Supervisor)
  : CancelOutcome * list KillCall * Supervisor :=
  match sp_phase s with
  | PH_kIdle => (CX_kNotRunning, [], s)
  | PH_kTerminating => (CX_kAlreadyTerminating, [], s)
  | PH_kExited => (CX_kAlreadyExited, [], s)
  | PH_kRunning =>
      let '(calls, error) := signal_group kill (pi_pgid (sp_identity s)) SIGTERM in
      match error with
      | Some _ => (CX_kSignalFailed, calls, s)
      | None =>
          (CX_kTerminating, calls,
           {| s with sp_grace_deadline := (now + sp_grace_period s)%Z; sp_phase := PH_kTerminating |})
      end
  end.

(** [grace_expired] *)
Definition grace_expired (now : Z) (s : Supervisor) : bool :=
  bool_decide (sp_phase s = PH_kTerminating) && (sp_grace_deadline s <=? now)%Z.

Definition ESRCH : Z := 3.

(** [escalate]; it changes nothing of the supervisor. *)
Definition escalate (now : Z) (kill : Z -> option Z) (s : Supervisor) : EscalationOutcome * list KillCall :=
  match sp_phase s with
  | PH_kIdle | PH_kRunning => (EO_kNotTerminating, [])
  | PH_kExited => (EO_kAlreadyExited, [])
  | PH_kTerminating =>
      if negb (grace_expired now s) then (EO_kGraceNotExpired, [])
      else
        let '(calls, error) := signal_group kill (pi_pgid (sp_identity s)) SIGKILL in
        match error with
        | Some errno => (if (errno =? ESRCH)%Z then EO_kAlreadyExited else EO_kSignalFailed, calls)
        | None => (EO_kKilled, calls)
        end
  end.

(** The wait status macros ([WIFEXITED], [WEXITSTATUS], [WIFSIGNALED],
    [WTERMSIG]) on a 16-bit status. *)
Definition WTERMSIG (raw : Z) : Z := Z.land raw 127.
Definition WIFEXITED (raw : Z) : bool := (WTERMSIG raw =? 0)%Z.
Definition WEXITSTATUS (raw : Z) : Z := Z.shiftr (Z.land raw 65280) 8.
Definition WIFSIGNALED (raw : Z) : bool := negb (WIFEXITED raw) && negb (WTERMSIG raw =? 127)%Z.

(** [status_from_wait] *)
Definition status_from_wait (raw : Z) : ExitStatus :=
  if WIFEXITED raw then mkExitStatus ER_kExited (WEXITSTATUS raw) 0
  else if WIFSIGNALED raw then mkExitStatus ER_kSignaled 0 (WTERMSIG raw)
  else no_exit.

(** What [waitpid(pid, &raw, WNOHANG)] answers *)
Inductive WaitAnswer := WaitNone | WaitFailed (errno : Z) | WaitReaped (raw : Z).

(** [poll_exit] *)
Definition poll_exit (wait : WaitAnswer) (s : Supervisor) : ExitPollOutcome * ExitStatus * Supervisor :=
  match sp_phase s with
  | PH_kIdle => (EP_kNotSpawned, no_exit, s)
  | PH_kExited => (EP_kExited, sp_exit_status s, s)
  | PH_kRunning | PH_kTerminating =>
      match wait with
      | WaitNone => (EP_kStillRunning, no_exit, s)
      | WaitFailed _ =>
          (EP_kWaitFailed, no_exit, {| s with sp_exit_status := no_exit; sp_phase := PH_kExited |})
      | WaitReaped raw =>
          let status := status_from_wait raw in
          (EP_kExited, status, {| s with sp_exit_status := status; sp_phase := PH_kExited |})
      end
  end.

(** [consume_exit] *)
Definition consume_exit (s : Supervisor) : ExitStatus :=
  if bool_decide (sp_phase s = PH_kExited) then sp_exit_status s else no_exit.

(** ** The grace timer *)

(** [GraceArmCode] *)
Inductive GraceArmCode := GA_kArmed | GA_kAlreadyArmed | GA_kSupervisorNotTerminating | GA_kExecutorRejected.

(** [GraceEscalation::arm] on the [armed] flag *)
Definition grace_arm (accepted : bool) (s : Supervisor) (armed : bool) : GraceArmCode * bool :=
  if armed then (GA_kAlreadyArmed, armed)
  else if negb (bool_decide (sp_phase s = PH_kTerminating)) then (GA_kSupervisorNotTerminating, armed)
  else if negb accepted then (GA_kExecutorRejected, armed)
  else (GA_kArmed, true).

(** ** Reading an identity from [/proc] *)

Definition is_blank (c : ascii) : bool := bool_decide (c = " "%char) || bool_decide (c = "009"%char).

Fixpoint skip_blanks (s : string) : string :=
  match s with
  | String c rest => if is_blank c then skip_blanks rest else s
  | EmptyString => EmptyString
  end.

Fixpoint skip_token (s : string) : string :=
  match s with
  | String c rest => if is_blank c then s else skip_token rest
  | EmptyString => EmptyString
  end.

(** [strrchr(s, c) + 1] *)
Fixpoint after_last (c : ascii) (s : string) : option string :=
  match s with
  | EmptyString => None
  | String x rest =>
      match after_last c rest with
      | Some found => Some found
      | None => if bool_decide (x = c) then Some rest else None
      end
  end.

(** The token loop; [more] tokens are skipped before the one returned. *)
Fixpoint stat_token (more : nat) (s : string) : option string :=
  let s := skip_blanks s in
  if sempty s then None
  else match more with O => Some s | Datatypes.S more => stat_token more (skip_token s) end.

(** [stat_token_after_comm], for [token_index >= 1] *)
Definition stat_token_after_comm (stat : string) (token_index : nat) : option string :=
  match after_last ")"%char stat with
  | None => None
  | Some rest => stat_token (token_index - 1) rest
  end.

(** A C string: what is before the first NUL *)
Fixpoint c_string (s : string) : string :=
  match s with
  | EmptyString => EmptyString
  | String c rest => if bool_decide (c = nul) then EmptyString else String c (c_string rest)
  end.

(** [read_proc_stat]: [proc] gives the content of the stat file of a pid, [None]
    when it cannot be opened; the buffer holds 1023 bytes and a NUL. *)
Definition read_proc_stat (proc : Z -> option string) (pid : Z) : option string :=
  if (pid <=? 0)%Z then None
  else
    match proc pid with
    | None => None
    | Some content =>
        let buffer := String.substring 0 1023 content in
        if sempty buffer then None else Some (c_string buffer)
    end.

(** ** [strtoull] and [strtoll] in base 10 *)

(** [isspace] *)
Definition is_space (c : ascii) : bool :=
  bool_decide (c = " "%char) || (9 <=? N_of_ascii c) && (N_of_ascii c <=? 13).

Definition is_decimal (c : ascii) : bool := (48 <=? N_of_ascii c) && (N_of_ascii c <=? 57).

Fixpoint skip_space (s : string) : string :=
  match s with
  | String c rest => if is_space c then skip_space rest else s
  | EmptyString => EmptyString
  end.

(** The value of the longest run of digits at the front *)
Fixpoint digits_value (acc : N) (s : string) : N :=
  match s with
  | String c rest => if is_decimal c then digits_value (acc * 10 + (N_of_ascii c - 48)) rest else acc
  | EmptyString => acc
  end.

(** The sign and magnitude at the front; [None] when nothing is converted
    ([end == start]). *)
Definition scan_number (s : string) : option (bool * N) :=
  let s := skip_space s in
  let '(negative, s) :=
    match s with
    | String c rest =>
        if bool_decide (c = "-"%char) then (true, rest)
        else if bool_decide (c = "+"%char) then (false, rest) else (false, s)
    | EmptyString => (false, s)
    end in
  match s with
  | String c _ => if is_decimal c then Some (negative, digits_value 0 s) else None
  | EmptyString => None
  end.

(** The value and whether [errno] becomes [ERANGE] *)
Definition scan_ull (s : string) : option (N * bool) :=
  match scan_number s with
  | None => None
  | Some (negative, magnitude) =>
      if u64_max <? magnitude then Some (u64_max, true)
      else Some (if negative : bool then usub64 0 magnitude else magnitude, false)
  end.

Definition scan_ll (s : string) : option Z :=
  match scan_number s with
  | None => None
  | Some (negative, magnitude) =>
      let v := if negative : bool then (- Z.of_N magnitude)%Z else Z.of_N magnitude in
      Some (Z.max (- 2 ^ 63) (Z.min (2 ^ 63 - 1) v))%Z
  end.

(** [read_process_start_ticks] *)
Definition read_process_start_ticks (proc : Z -> option string) (pid : Z) : option N :=
  match read_proc_stat proc pid with
  | None => None
  | Some stat =>
      match stat_token_after_comm stat 20 with
      | None => None
      | Some cursor => fst <$> scan_ull cursor
      end
  end.

(** [read_process_pgid] *)
Definition read_process_pgid (proc : Z -> option string) (pid : Z) : option Z :=
  match read_proc_stat proc pid with
  | None => None
  | Some stat =>
      match stat_token_after_comm stat 3 with
      | None => None
      | Some cursor =>
          match scan_ll cursor with
          | None => None
          | Some pgid => if (pgid <=? 0)%Z then None else Some pgid
          end
      end
  end.

(** [verify_process_identity] *)
Definition verify_process_identity (proc : Z -> option string) (identity : ProcessIdentity) : bool :=
  if negb (identity_valid identity) then false
  else
    match read_proc_stat proc (pi_pid identity) with
    | None => false
    | Some stat =>
        match stat_token_after_comm stat 3 with
        | None => false
        | Some pgid_token =>
            match scan_ll pgid_token with
            | None => false
            | Some pgid =>
                if negb (pgid =? pi_pgid identity)%Z then false
                else
                  match stat_token_after_comm stat 20 with
                  | None => false
                  | Some ticks_token =>
                      match scan_ull ticks_token with
                      | None => false
                      | Some (ticks, erange) => negb erange && (ticks =? pi_start_ticks identity)
                      end
                  end
            end
        end
    end.

(** ** Lemmas on the stat file *)

(** A field of the stat file: not empty, no blank and no closing parenthesis. *)
Record Field (w : string) : Prop := {
  fd_some : w <> EmptyString;
  fd_space : contains_char " "%char w = false;
  fd_tab : contains_char "009"%char w = false;
  fd_paren : contains_char ")"%char w = false;
}.

(** A field that is a decimal number *)
Fixpoint all_decimal (s : string) : bool :=
  match s with EmptyString => true | String c rest => is_decimal c && all_decimal rest end.

(** The stat file as the kernel prints it: the pid, the command name in
    parentheses, and the other fields. *)
Definition stat_line (head comm : string) (fields : list string) : string :=
  head +:+ "(" +:+ comm +:+ ")" +:+ " " +:+ String.concat " " fields.

(** Nothing, or a blank and more *)
Definition field_end (s : string) : Prop := s = EmptyString \/ exists rest, s = String " "%char rest.

Lemma after_last_none c s : contains_char c s = false -> after_last c s = None.
Proof.
  induction s as [|x s IH]; simpl; [done|]. rewrite orb_false_iff. intros [Hx Hs]. rewrite (IH Hs).
  case_bool_decide; [|done]. subst. by rewrite Ascii.eqb_refl in Hx.
Qed.

Lemma after_last_app c a b :
  contains_char c b = false -> after_last c (a +:+ String c b) = Some b.
Proof.
  intros Hb. induction a as [|x a IH].
  - change (after_last c (String c b) = Some b). cbn [after_last].
    rewrite (after_last_none _ _ Hb). by rewrite bool_decide_true.
  - rewrite append_cons. cbn [after_last]. by rewrite IH.
Qed.

Lemma contains_char_app c a b : contains_char c (a +:+ b) = contains_char c a || contains_char c b.
Proof. induction a as [|x a IH]; [done|]. rewrite append_cons. simpl. by rewrite IH, orb_assoc. Qed.

Lemma contains_concat c l :
  contains_char c " " = false -> Forall (fun w => contains_char c w = false) l ->
  contains_char c (String.concat " " l) = false.
Proof.
  intros Hc. induction 1 as [|w l Hw Hl IH]; [done|]. destruct l as [|w' l]; [done|].
  change (contains_char c (w +:+ " " +:+ String.concat " " (w' :: l)) = false).
  by rewrite !contains_char_app, Hw, Hc, IH.
Qed.

Lemma blank_char c w : contains_char " "%char (String c w) = false ->
  contains_char "009"%char (String c w) = false -> is_blank c = false.
Proof.
  simpl. rewrite !orb_false_iff. intros [H1 _] [H2 _]. unfold is_blank.
  rewrite !bool_decide_false; [done|..]; intros ->; by rewrite Ascii.eqb_refl in *.
Qed.

Lemma skip_token_field w rest :
  contains_char " "%char w = false -> contains_char "009"%char w = false -> field_end rest ->
  skip_token (w +:+ rest) = rest.
Proof.
  intros Hs Ht Hr. induction w as [|c w IH].
  - destruct Hr as [->|[r ->]]; done.
  - pose proof (blank_char _ _ Hs Ht) as Hb. rewrite append_cons. simpl in Hs, Ht |- *. rewrite Hb.
    apply orb_false_iff in Hs as [_ Hs], Ht as [_ Ht]. by apply IH.
Qed.

Lemma skip_blanks_field w rest : Field w -> skip_blanks (w +:+ rest) = w +:+ rest.
Proof.
  intros [Hne Hs Ht _]. destruct w as [|c w]; [done|].
  rewrite append_cons. simpl. by rewrite (blank_char _ _ Hs Ht).
Qed.

(** The fields from one on: the field, and where it ends. *)
Lemma concat_field w l :
  exists rest, String.concat " " (w :: l) = w +:+ rest /\ field_end rest /\
    (rest = EmptyString /\ l = [] \/ rest = String " "%char (String.concat " " l) /\ l <> []).
Proof.
  destruct l as [|w' l].
  - exists EmptyString. split_and!; [|by left|by left]. simpl. symmetry. apply append_empty_r.
  - exists (String " "%char (String.concat " " (w' :: l))). split_and!; [done|right; eauto|by right].
Qed.

Lemma stat_token_fields fields k w :
  Forall Field fields -> fields !! k = Some w ->
  stat_token k (String.concat " " fields) = Some (String.concat " " (drop k fields)).
Proof.
  intros Hf. revert k. induction Hf as [|v l Hv Hl IH]; intros k Hk; [done|].
  destruct (concat_field v l) as (rest & Heq & Hend & Hrest). destruct k as [|k]; cbn [stat_token].
  - rewrite Heq, (skip_blanks_field _ _ Hv). cbn [drop]. rewrite Heq.
    destruct v; [by destruct Hv|done].
  - simpl in Hk. rewrite Heq, (skip_blanks_field _ _ Hv).
    destruct (sempty (v +:+ rest)) eqn:E; [destruct v; [by destruct Hv|done]|].
    rewrite (skip_token_field _ _ (fd_space _ Hv) (fd_tab _ Hv) Hend). cbn [drop].
    destruct Hrest as [[-> ->]|[-> _]]; [done|]. rewrite <- (IH _ Hk). by destruct k.
Qed.

Lemma stat_line_token head comm fields k w :
  Forall Field fields -> fields !! k = Some w ->
  stat_token_after_comm (stat_line head comm fields) (Datatypes.S k) =
    Some (String.concat " " (drop k fields)).
Proof.
  intros Hf Hk. unfold stat_token_after_comm, stat_line.
  replace (head +:+ "(" +:+ comm +:+ ")" +:+ " " +:+ String.concat " " fields)
    with ((head +:+ "(" +:+ comm) +:+ String ")"%char (" " +:+ String.concat " " fields))
    by (simpl; by rewrite <- !append_assoc).
  rewrite after_last_app.
  - cbn [Nat.sub]. rewrite Nat.sub_0_r. rewrite <- (stat_token_fields _ _ _ Hf Hk). by destruct k.
  - rewrite contains_char_app. simpl. apply contains_concat; [done|].
    eapply Forall_impl; [exact Hf|]. by intros ? [].
Qed.

Lemma substring_all s n : (String.length s <= n)%nat -> String.substring 0 n s = s.
Proof.
  revert n. induction s as [|c s IH]; intros n Hn; [by destruct n|].
  destruct n as [|n]; simpl in *; [lia|]. f_equal. apply IH. lia.
Qed.

Lemma c_string_all s : contains_nul s = false -> c_string s = s.
Proof.
  unfold contains_nul. induction s as [|c s IH]; [done|]. simpl. rewrite orb_false_iff. intros [Hc Hs].
  case_bool_decide; [subst; by rewrite Ascii.eqb_refl in Hc|]. by rewrite IH.
Qed.

Lemma read_proc_stat_some proc pid content :
  (0 < pid)%Z -> proc pid = Some content -> content <> EmptyString ->
  slen content <= 1023 -> contains_nul content = false -> read_proc_stat proc pid = Some content.
Proof.
  intros Hpid Hc Hne Hl Hn. unfold read_proc_stat. rewrite (proj2 (Z.leb_gt _ _) Hpid), Hc.
  unfold slen in Hl. rewrite substring_all by lia. rewrite (c_string_all _ Hn). by destruct content.
Qed.

Lemma digits_value_app d rest acc :
  all_decimal d = true -> field_end rest -> digits_value acc (d +:+ rest) = digits_value acc d.
Proof.
  intros Hd Hr. revert acc. induction d as [|c d IH]; intros acc.
  - destruct Hr as [->|[r ->]]; done.
  - rewrite append_cons. simpl in *. apply andb_true_iff in Hd as [Hc Hd]. rewrite Hc. by apply IH.
Qed.

Lemma scan_number_field d rest :
  all_decimal d = true -> d <> EmptyString -> field_end rest ->
  scan_number (d +:+ rest) = Some (false, digits_value 0 d).
Proof.
  intros Hd Hne Hr. rewrite <- (digits_value_app d rest 0 Hd Hr). destruct d as [|c d]; [done|].
  simpl in Hd. apply andb_true_iff in Hd as [Hc _]. rewrite append_cons. unfold scan_number.
  assert (is_space c = false) as Hs.
  { unfold is_space, is_decimal in *. apply andb_true_iff in Hc as [H1%N.leb_le H2%N.leb_le].
    rewrite bool_decide_false by (intros ->; vm_compute in H1; done). simpl.
    apply andb_false_iff. right. apply N.leb_gt. lia. }
  cbn [skip_space]. rewrite Hs.
  rewrite !bool_decide_false by (intros ->; done). by rewrite Hc.
Qed.

Lemma signal_group_spec kill pgid sig calls error :
  signal_group kill pgid sig = (calls, error) ->
  Forall (fun k => kc_signal k = sig /\ (kc_target k = - pgid \/ kc_target k = pgid)%Z) calls /\
  (error = None <-> kill (- pgid)%Z = None \/ kill pgid = None).
Proof.
  unfold signal_group. destruct (kill (- pgid)%Z) eqn:E; intros [= <- <-].
  - split; [rewrite !Forall_cons; simpl; auto|]. split; [by right|]. by intros [?|?].
  - split; [rewrite !Forall_cons; simpl; auto|]. split; [by left|done].
Qed.

(** ** Properties of the supervisor *)

(** The process identity is read back exactly from a stat file. Whatever
    the command name (blanks and parentheses included), when the third and the
    twentieth field after it are decimal numbers, the group and the start ticks
    that are read are those numbers, and an identity is verified exactly when
    it names them. *)
Theorem identity_read_exact proc i head comm fields pgid ticks :
  identity_valid i = true ->
  proc (pi_pid i) = Some (stat_line head comm fields) ->
  slen (stat_line head comm fields) <= 1023 -> contains_nul (stat_line head comm fields) = false ->
  Forall Field fields -> fields !! 2%nat = Some pgid -> fields !! 19%nat = Some ticks ->
  all_decimal pgid = true -> all_decimal ticks = true ->
  0 < digits_value 0 pgid < 2 ^ 63 -> digits_value 0 ticks <= u64_max ->
  read_process_pgid proc (pi_pid i) = Some (Z.of_N (digits_value 0 pgid)) /\
  read_process_start_ticks proc (pi_pid i) = Some (digits_value 0 ticks) /\
  (verify_process_identity proc i = true <->
   pi_pgid i = Z.of_N (digits_value 0 pgid) /\ pi_start_ticks i = digits_value 0 ticks).
Proof.
  intros Hv Hproc Hlen Hnul Hf Hg Ht Hgd Htd Hgb Htb.
  assert (0 < pi_pid i)%Z as Hpid by (apply andb_true_iff in Hv as [[H1%Z.ltb_lt _]%andb_true_iff _]; done).
  assert (stat_line head comm fields <> EmptyString) as Hne by (unfold stat_line; by destruct head).
  pose proof (read_proc_stat_some _ _ _ Hpid Hproc Hne Hlen Hnul) as Hread.
  pose proof (stat_line_token head comm _ _ _ Hf Hg) as Hg3.
  pose proof (stat_line_token head comm _ _ _ Hf Ht) as Ht20.
  rewrite (drop_S _ _ _ Hg) in Hg3. rewrite (drop_S _ _ _ Ht) in Ht20.
  destruct (concat_field pgid (drop 3 fields)) as (r3 & E3 & End3 & _). rewrite E3 in Hg3.
  destruct (concat_field ticks (drop 20 fields)) as (r20 & E20 & End20 & _). rewrite E20 in Ht20.
  pose proof (Forall_lookup_1 _ _ _ _ Hf Hg) as Fg. pose proof (Forall_lookup_1 _ _ _ _ Hf Ht) as Ft.
  assert (scan_ll (pgid +:+ r3) = Some (Z.of_N (digits_value 0 pgid))) as Sg.
  { unfold scan_ll. rewrite (scan_number_field _ _ Hgd (fd_some _ Fg) End3). f_equal. lia. }
  assert (scan_ull (ticks +:+ r20) = Some (digits_value 0 ticks, false)) as St.
  { unfold scan_ull. rewrite (scan_number_field _ _ Htd (fd_some _ Ft) End20).
    by rewrite (proj2 (N.ltb_ge _ _) Htb). }
  unfold read_process_pgid, read_process_start_ticks, verify_process_identity.
  rewrite Hread, Hg3, Ht20, Sg, St, Hv. simpl. rewrite (proj2 (Z.leb_gt _ _)) by lia.
  split_and!; [done..|]. destruct (Z.eqb_spec (Z.of_N (digits_value 0 pgid)) (pi_pgid i)); simpl.
  - rewrite N.eqb_eq. naive_solver.
  - naive_solver.
Qed.

(** ** Witnesses *)

Definition example_fields : list string :=
  ["S"; "1"; "100"; "100"; "0"; "-1"; "4194304"; "0"; "0"; "0"; "0"; "0"; "0"; "0"; "0"; "20"; "0"; "1"; "0";
   "5"; "0"].
Definition example_proc (pid : Z) : option string :=
  if (pid =? 100)%Z then Some (stat_line "100 " "my (odd) name" example_fields) else None.

Lemma identity_read_exact_witness :
  read_process_pgid example_proc 100 = Some 100%Z /\
  read_process_start_ticks example_proc 100 = Some 5 /\
  verify_process_identity example_proc example_identity = true.
Proof.
  assert (Forall Field example_fields) as Hf by (repeat constructor; done).
  assert (slen (stat_line "100 " "my (odd) name" example_fields) <= 1023) as Hl by (vm_compute; done).
  pose proof (identity_read_exact example_proc example_identity "100 " "my (odd) name" example_fields
                "100" "5" eq_refl eq_refl Hl eq_refl Hf eq_refl eq_refl
                eq_refl eq_refl) as Hx.
  destruct Hx as (Hp & Ht & Hv); [vm_compute; split; done|vm_compute; done|].
  split_and!; [exact Hp|exact Ht|]. apply Hv. split; reflexivity.
Defined.
