(* ===== verification/Launch.v ===== *)
(** * Launch: [include/yori/launch/launch_adapter.hpp], [src/launch/launch_adapter.cpp],
    [include/yori/launch/environment_capture.hpp], [src/launch/environment_capture.cpp]

    What a job is started with.  The submitting side captures part of its
    environment ([capture_environment]) and resolves the command
    ([resolve_executable]); the daemon resolves the owner's identity
    ([resolve]) and builds the final command line and environment
    ([prepare]), which is checked once more before the process is spawned
    ([validate_plan]).  The password and group databases, [access] and the
    probed interpreter are answers given to the definitions. *)

From stdpp Require Import pretty.
From S2P Require Import Prelude.
From S2P Require Import Job.
From S2P Require Import Supervisor.

(** ** Data *)

(** [GpuAssignment] *)
Record GpuAssignment := mkAssignment {
  ga_uuid : GpuUuid;
  ga_physical_index : N;
  ga_logical_index : N;
}.

(** [GpuAssignment::valid] *)
Definition assignment_valid (a : GpuAssignment) : bool := uuid_valid (ga_uuid a).

Inductive GpuMappingMode := GM_kCudaVisibleDevices | GM_kPhysicalArgument.

Record LaunchProfile := mkProfile {
  lp_mode : GpuMappingMode;
  lp_physical_argument : string;
}.

Definition kMaxPhysicalArgumentBytes : N := 64.

Inductive LaunchProfileErrorCode :=
| LE_kNone | LE_kPhysicalArgumentMissing | LE_kPhysicalArgumentUnexpected
| LE_kInvalidPhysicalArgument | LE_kPhysicalArgumentTooLong.

(** [IdentityInfoLimits] *)
Definition kMaxUsernameBytes : N := 64.
Definition kMaxPathBytes : N := 4096.
Definition kMaxSupplementaryGroups : N := 64.

Record IdentityInfo := mkIdentityInfo {
  ii_uid : N;
  ii_gid : N;
  ii_username : string;
  ii_home : string;
  ii_shell : string;
  ii_supplementary_groups : list N;
}.

Inductive IdentityErrorCode :=
| IV_kNone | IV_kRootIdentityNotAllowed | IV_kInvalidUid | IV_kInvalidGid | IV_kInvalidUsername
| IV_kUsernameTooLong | IV_kInvalidHome | IV_kHomeTooLong | IV_kInvalidShell | IV_kShellTooLong
| IV_kTooManySupplementaryGroups.

Inductive IdentityResolveErrorCode := IR_kNone | IR_kNotFound | IR_kBackendUnavailable.

Notation EnvironmentEntry := (string * string)%type (only parsing).

Record LaunchPlan := mkPlan {
  pl_argv : list string;
  pl_env : list EnvironmentEntry;
  pl_cwd : string;
  pl_executable : string;
  pl_uid : N;
  pl_gid : N;
  pl_username : string;
  pl_supplementary_groups : list N;
}.

Inductive LaunchPlanErrorCode :=
| PE_kNone | PE_kEmptyArguments | PE_kTooManyArguments | PE_kInvalidArgument | PE_kArgumentTooLong
| PE_kArgumentsTooLarge | PE_kInvalidWorkingDirectory | PE_kWorkingDirectoryTooLong
| PE_kTooManyEnvironmentVariables | PE_kInvalidEnvironmentName | PE_kEnvironmentNameTooLong
| PE_kEnvironmentValueTooLong | PE_kEnvironmentTooLarge | PE_kInvalidExecutable
| PE_kInvalidIdentity | PE_kInvalidUsername | PE_kInvalidJobId.

Record LaunchPlanValidationResult := mkPlanCheck {
  pv_code : LaunchPlanErrorCode;
  pv_item_index : option N;
  pv_item_name : option string;
}.

Record EnvironmentPolicy := mkPolicy {
  ep_exact_keys : list string;
  ep_prefix_keys : list string;
}.

Inductive LaunchPrepareErrorCode :=
| LP_kNone | LP_kInvalidSpec | LP_kInvalidProfile | LP_kInvalidIdentity | LP_kInvalidGpuAssignment
| LP_kReservedEnvironmentKey.

(** [LaunchPlanResult] of a refused launch: its [plan] is the empty one. *)
Record PrepareError := mkPrepareError {
  pe_code : LaunchPrepareErrorCode;
  pe_reserved_key : option string;
  pe_message : string;
}.

(** [DefaultLaunchAdapter] *)
Record LaunchAdapter := mkAdapter {
  ad_policy : EnvironmentPolicy;
  ad_daemon_environment : list EnvironmentEntry;
}.

Record EnvironmentCapturePolicy := mkCapturePolicy {
  cp_extra_keys : list string;
  cp_inherit_all : bool;
}.

Inductive EnvironmentCaptureErrorCode :=
| CE_kNone | CE_kInvalidName | CE_kTooManyVariables | CE_kValueTooLong | CE_kTooLarge.

Record EnvironmentCaptureResult := mkCapture {
  cr_code : EnvironmentCaptureErrorCode;
  cr_offending_name : string;
  cr_env : gmap string string;
}.

Inductive ExecutableResolveErrorCode :=
| XE_kNone | XE_kEmptyName | XE_kInvalidName | XE_kRelativeWithoutCwd | XE_kNotFound | XE_kNotExecutable.

Record ExecutableResolveResult := mkResolved {
  er_code : ExecutableResolveErrorCode;
  er_executable : string;
  er_message : string;
}.

(** ** Profiles *)

Definition GpuMappingMode_to_string (mode : GpuMappingMode) : string :=
  match mode with
  | GM_kCudaVisibleDevices => "cuda_visible_devices"
  | GM_kPhysicalArgument => "physical_argument"
  end.

(** [validate(const LaunchProfile&)] *)
Definition validate_profile (p : LaunchProfile) : LaunchProfileErrorCode :=
  let argument := lp_physical_argument p in
  match lp_mode p with
  | GM_kCudaVisibleDevices => if negb (sempty argument) then LE_kPhysicalArgumentUnexpected else LE_kNone
  | GM_kPhysicalArgument =>
      if sempty argument then LE_kPhysicalArgumentMissing
      else if negb (front_is "-"%char argument) || contains_nul argument
              || contains_char " "%char argument || (kMaxPhysicalArgumentBytes <? slen argument)
      then LE_kInvalidPhysicalArgument
      else LE_kNone
  end.

Definition LaunchProfileErrorCode_to_string (code : LaunchProfileErrorCode) : string :=
  match code with
  | LE_kNone => "none"
  | LE_kPhysicalArgumentMissing => "physical_argument mode requires a physical argument name"
  | LE_kPhysicalArgumentUnexpected => "physical_argument is not used in cuda_visible_devices mode"
  | LE_kInvalidPhysicalArgument => "invalid physical argument"
  | LE_kPhysicalArgumentTooLong => "physical argument too long"
  end.

(** ** Identities *)

(** [validate(const IdentityInfo&)] *)
Definition validate_identity (i : IdentityInfo) : IdentityErrorCode :=
  let bad_path (p : string) := negb (sempty p) && (contains_nul p || (kMaxPathBytes <? slen p)) in
  if ii_uid i =? 0 then IV_kRootIdentityNotAllowed
  else if ii_gid i =? 0 then IV_kInvalidGid
  else if sempty (ii_username i) || contains_nul (ii_username i) then IV_kInvalidUsername
  else if kMaxUsernameBytes <? slen (ii_username i) then IV_kUsernameTooLong
  else if bad_path (ii_home i) then IV_kInvalidHome
  else if bad_path (ii_shell i) then IV_kInvalidShell
  else if kMaxSupplementaryGroups <? len (ii_supplementary_groups i) then IV_kTooManySupplementaryGroups
  else IV_kNone.

Definition IdentityErrorCode_to_string (code : IdentityErrorCode) : string :=
  match code with
  | IV_kNone => "none"
  | IV_kRootIdentityNotAllowed => "root identity is not allowed"
  | IV_kInvalidUid => "invalid uid"
  | IV_kInvalidGid => "invalid gid"
  | IV_kInvalidUsername => "invalid username"
  | IV_kUsernameTooLong => "username too long"
  | IV_kInvalidHome => "invalid home"
  | IV_kHomeTooLong => "home too long"
  | IV_kInvalidShell => "invalid shell"
  | IV_kShellTooLong => "shell too long"
  | IV_kTooManySupplementaryGroups => "too many supplementary groups"
  end.

(** A [passwd] record; [None] is a null pointer. *)
Record Passwd := mkPasswd {
  pw_gid : N;
  pw_name : option string;
  pw_dir : option string;
  pw_shell : option string;
}.

Definition ENOENT : Z := 2.

(** [PosixIdentityResolver::resolve].  [getpwuid_r] answers its return code and
    the record found; [getgrouplist] the groups, or nothing when there are more
    than the given number. *)
Definition resolve (getpwuid_r : N -> Z * option Passwd)
    (getgrouplist : string -> N -> N -> option (list N)) (uid : N)
  : Result (IdentityResolveErrorCode * string) IdentityInfo :=
  if uid =? 0 then Err (IR_kNotFound, "uid 0 is not a valid job owner")
  else
    let '(rc, found) := getpwuid_r uid in
    match found with
    | None => Err (IR_kNotFound, "passwd entry not found for uid")
    | Some pwd =>
        if (rc =? ENOENT)%Z then Err (IR_kNotFound, "passwd entry not found for uid")
        else if negb (rc =? 0)%Z then Err (IR_kBackendUnavailable, "getpwuid_r failed")
        else
          let username := default "" (pw_name pwd) in
          match getgrouplist username (pw_gid pwd) kMaxSupplementaryGroups with
          | None => Err (IR_kBackendUnavailable, "user belongs to more groups than the supported limit")
          | Some groups =>
              let identity := mkIdentityInfo uid (pw_gid pwd) username (default "" (pw_dir pwd))
                                (default "" (pw_shell pwd)) groups in
              match validate_identity identity with
              | IV_kNone => Ok identity
              | code => Err (IR_kBackendUnavailable, IdentityErrorCode_to_string code)
              end
          end
    end.

(** ** Plans *)

Definition name_char (c : ascii) : bool :=
  let n := N_of_ascii c in
  ((65 <=? n) && (n <=? 90)) || ((97 <=? n) && (n <=? 122)) || ((48 <=? n) && (n <=? 57))
  || Ascii.eqb c "_"%char.

Fixpoint all_chars (f : ascii -> bool) (s : string) : bool :=
  match s with EmptyString => true | String c s => f c && all_chars f s end.

(** [is_valid_environment_name] of both files (narrower than the one of
    [job.cpp]) *)
Definition valid_environment_name (name : string) : bool :=
  if sempty name || (kMaxEnvironmentNameBytes <? slen name) || contains_nul name then false
  else if front_is "="%char name || contains_char "="%char name then false
  else all_chars name_char name.

(** [add_within_limit] of [launch_adapter.cpp] *)
Definition add_bytes (bytes total limit : N) : option N :=
  if (limit <? bytes) || (limit - bytes <? total) then None else Some (total + bytes).

Definition plan_reject (c : LaunchPlanErrorCode) : LaunchPlanValidationResult := mkPlanCheck c None None.

(** One iteration of the argument loop *)
Definition check_plan_argument (i argument_bytes : N) (argument : string)
  : Result LaunchPlanValidationResult N :=
  reject_if sempty argument || contains_nul argument with mkPlanCheck PE_kInvalidArgument (Some i) None;
  reject_if kMaxSingleArgumentBytes <? slen argument with mkPlanCheck PE_kArgumentTooLong (Some i) None;
  match add_bytes (slen argument) argument_bytes kMaxArgumentBytes with
  | None => Err (mkPlanCheck PE_kArgumentsTooLarge (Some i) None)
  | Some total => Ok total
  end.

(** One iteration of the environment loop *)
Definition check_plan_entry (i environment_bytes : N) (entry : EnvironmentEntry)
  : Result LaunchPlanValidationResult N :=
  let '(name, value) := entry in
  reject_if negb (valid_environment_name name)
    with mkPlanCheck PE_kInvalidEnvironmentName (Some i) (Some name);
  reject_if (kMaxEnvironmentValueBytes <? slen value) || contains_nul value
    with mkPlanCheck PE_kEnvironmentValueTooLong (Some i) (Some name);
  match add_bytes (slen name + slen value) environment_bytes kMaxEnvironmentBytes with
  | None => Err (mkPlanCheck PE_kEnvironmentTooLarge (Some i) (Some name))
  | Some total => Ok total
  end.

Definition validate_plan_checks (plan : LaunchPlan) : Result LaunchPlanValidationResult unit :=
  reject_if bool_decide (pl_argv plan = []) with plan_reject PE_kEmptyArguments;
  reject_if kMaxArgumentCount <? len (pl_argv plan) with plan_reject PE_kTooManyArguments;
  let? _ := fold_result_idx check_plan_argument 0 0 (pl_argv plan) in
  reject_if (kMaxWorkingDirectoryBytes <? slen (pl_cwd plan)) || contains_nul (pl_cwd plan)
    with plan_reject PE_kInvalidWorkingDirectory;
  reject_if negb (sempty (pl_cwd plan)) && negb (front_is "/"%char (pl_cwd plan))
    with plan_reject PE_kInvalidWorkingDirectory;
  reject_if negb (sempty (pl_executable plan))
            && (negb (front_is "/"%char (pl_executable plan)) || contains_nul (pl_executable plan)
                || (kMaxExecutableBytes <? slen (pl_executable plan)))
    with plan_reject PE_kInvalidExecutable;
  reject_if kMaxEnvironmentVariables <? len (pl_env plan) with plan_reject PE_kTooManyEnvironmentVariables;
  let? _ := fold_result_idx check_plan_entry 0 0 (pl_env plan) in
  reject_if (pl_uid plan =? 0) || (pl_gid plan =? 0) with plan_reject PE_kInvalidIdentity;
  reject_if sempty (pl_username plan) || contains_nul (pl_username plan)
            || (kMaxUsernameBytes <? slen (pl_username plan))
    with plan_reject PE_kInvalidUsername;
  reject_if kMaxSupplementaryGroups <? len (pl_supplementary_groups plan)
    with plan_reject PE_kInvalidIdentity;
  Ok tt.

(** [validate(const LaunchPlan&)] *)
Definition validate_plan (plan : LaunchPlan) : LaunchPlanValidationResult :=
  match validate_plan_checks plan with Ok _ => plan_reject PE_kNone | Err r => r end.

Definition LaunchPlanErrorCode_to_string (code : LaunchPlanErrorCode) : string :=
  match code with
  | PE_kNone => "none"
  | PE_kEmptyArguments => "empty arguments"
  | PE_kTooManyArguments => "too many arguments"
  | PE_kInvalidArgument => "invalid argument"
  | PE_kArgumentTooLong => "argument too long"
  | PE_kArgumentsTooLarge => "arguments too large"
  | PE_kInvalidWorkingDirectory => "invalid working directory"
  | PE_kWorkingDirectoryTooLong => "working directory too long"
  | PE_kTooManyEnvironmentVariables => "too many environment variables"
  | PE_kInvalidEnvironmentName => "invalid environment name"
  | PE_kEnvironmentNameTooLong => "environment name too long"
  | PE_kEnvironmentValueTooLong => "environment value too long"
  | PE_kEnvironmentTooLarge => "environment too large"
  | PE_kInvalidExecutable => "invalid executable"
  | PE_kInvalidIdentity => "invalid identity"
  | PE_kInvalidUsername => "invalid username"
  | PE_kInvalidJobId => "invalid job id"
  end.

(** ** The environment policy *)

(** [EnvironmentPolicy::defaults] *)
Definition default_policy : EnvironmentPolicy := mkPolicy ["LANG"; "PATH"; "TERM"; "TZ"] ["LC_"].

(** [EnvironmentPolicy::accepts]; [name.rfind(prefix, 0) == 0] is the prefix test. *)
Definition accepts (p : EnvironmentPolicy) (name : string) : bool :=
  existsb (fun key => bool_decide (name = key)) (ep_exact_keys p)
  || existsb (fun prefix => String.prefix prefix name) (ep_prefix_keys p).

Definition kReserved : list string :=
  ["CUDA_DEVICE_ORDER"; "CUDA_VISIBLE_DEVICES"; "HOME"; "LD_PRELOAD"; "LOGNAME"; "SHELL"; "USER"].

Definition is_reserved_environment_key (name : string) : bool :=
  existsb (fun key => bool_decide (key = name)) kReserved || String.prefix "YORI_" name.

(** ** [DefaultLaunchAdapter::prepare] *)

(** [set_daemon_environment], [set_environment_policy] *)
Definition set_daemon_environment (environment : list EnvironmentEntry) (ad : LaunchAdapter) : LaunchAdapter :=
  {| ad with ad_daemon_environment := environment |}.
Definition set_environment_policy (policy : EnvironmentPolicy) (ad : LaunchAdapter) : LaunchAdapter :=
  {| ad with ad_policy := policy |}.

(** Layer 1: the owner's [passwd] record *)
Definition identity_block (i : IdentityInfo) : gmap string string :=
  emplace "SHELL" (ii_shell i) (emplace "LOGNAME" (ii_username i)
    (emplace "USER" (ii_username i) (emplace "HOME" (ii_home i) ∅))).

(** Layer 2: what the policy lets through of the daemon's environment *)
Definition daemon_step (p : EnvironmentPolicy) (env : gmap string string) (entry : EnvironmentEntry)
  : gmap string string :=
  if accepts p entry.1 then <[entry.1 := entry.2]> env else env.

(** Layer 3: the job's own environment *)
Definition user_step (env : gmap string string) (entry : EnvironmentEntry) : gmap string string :=
  <[entry.1 := entry.2]> env.

(** Layer 4: what Yori manages *)
Definition resource_block (job_id : JobId) (a : GpuAssignment) (mode : GpuMappingMode)
    (env : gmap string string) : gmap string string :=
  let env := <["YORI_JOB_ID" := pretty job_id]> env in
  let env := <["YORI_GPU_UUID" := ga_uuid a]> env in
  match mode with
  | GM_kCudaVisibleDevices =>
      <["CUDA_DEVICE_ORDER" := "PCI_BUS_ID"]>
        (<["CUDA_VISIBLE_DEVICES" := pretty (ga_physical_index a)]> env)
  | GM_kPhysicalArgument => env
  end.

Definition merged_environment (ad : LaunchAdapter) (job_id : JobId) (spec : JobSpec) (a : GpuAssignment)
    (mode : GpuMappingMode) (i : IdentityInfo) : gmap string string :=
  let env := fold_left (daemon_step (ad_policy ad)) (ad_daemon_environment ad) (identity_block i) in
  let env := fold_left user_step (map_entries (Job.env spec)) env in
  resource_block job_id a mode env.

Definition launch_argv (spec : JobSpec) (a : GpuAssignment) (profile : LaunchProfile) : list string :=
  match lp_mode profile with
  | GM_kCudaVisibleDevices => argv spec
  | GM_kPhysicalArgument => argv spec ++ [lp_physical_argument profile; pretty (ga_physical_index a)]
  end.

Definition assemble (ad : LaunchAdapter) (job_id : JobId) (spec : JobSpec) (a : GpuAssignment)
    (profile : LaunchProfile) (i : IdentityInfo) : LaunchPlan :=
  mkPlan (launch_argv spec a profile)
    (map_entries (merged_environment ad job_id spec a (lp_mode profile) i))
    (cwd spec) (default "" (executable spec)) (ii_uid i) (ii_gid i) (ii_username i)
    (ii_supplementary_groups i).

Definition prepare (ad : LaunchAdapter) (job_id : JobId) (spec : JobSpec) (a : GpuAssignment)
    (profile : LaunchProfile) (i : IdentityInfo) : Result PrepareError LaunchPlan :=
  reject_if negb (job_id_valid job_id) with mkPrepareError LP_kInvalidSpec None "invalid job id";
  let spec_check := validate spec in
  reject_if negb (spec_result_ok spec_check)
    with mkPrepareError LP_kInvalidSpec None (JobSpecErrorCode_to_string (sv_code spec_check));
  let? _ := match validate_profile profile with
            | LE_kNone => Ok tt
            | code => Err (mkPrepareError LP_kInvalidProfile None (LaunchProfileErrorCode_to_string code))
            end in
  let? _ := match validate_identity i with
            | IV_kNone => Ok tt
            | code => Err (mkPrepareError LP_kInvalidIdentity None (IdentityErrorCode_to_string code))
            end in
  reject_if negb (assignment_valid a)
    with mkPrepareError LP_kInvalidGpuAssignment None "invalid gpu assignment uuid";
  match find_first is_reserved_environment_key (map_entries (Job.env spec)).*1 with
  | Some name =>
      Err (mkPrepareError LP_kReservedEnvironmentKey (Some name)
             "job environment may not override reserved key")
  | None =>
      let plan := assemble ad job_id spec a profile i in
      let plan_check := validate_plan plan in
      match pv_code plan_check with
      | PE_kNone => Ok plan
      | code => Err (mkPrepareError LP_kInvalidSpec None (LaunchPlanErrorCode_to_string code))
      end
  end.

(** ** Environment capture *)

Definition kDefaultKeys : list string :=
  ["CONDA_DEFAULT_ENV"; "CONDA_PREFIX"; "CUDA_HOME"; "CUDA_PATH"; "HTTP_PROXY"; "HTTPS_PROXY";
   "LD_LIBRARY_PATH"; "MKL_NUM_THREADS"; "NO_PROXY"; "OMP_NUM_THREADS"; "PATH"; "PYTHONPATH";
   "VIRTUAL_ENV"; "http_proxy"; "https_proxy"].

(** [EnvironmentCapturePolicy::captures] *)
Definition captures (p : EnvironmentCapturePolicy) (name : string) : bool :=
  if is_reserved_environment_key name then false
  else if cp_inherit_all p then true
  else if bool_decide (name = "no_proxy") then true
  else if existsb (fun key => bool_decide (key = name)) kDefaultKeys then true
  else existsb (fun key => bool_decide (key = name)) (cp_extra_keys p).

Definition EnvironmentCaptureErrorCode_to_string (code : EnvironmentCaptureErrorCode) : string :=
  match code with
  | CE_kNone => "none"
  | CE_kInvalidName => "invalid environment name in source"
  | CE_kTooManyVariables => "captured environment exceeds the variable count limit"
  | CE_kValueTooLong => "captured environment value exceeds the single value limit"
  | CE_kTooLarge => "captured environment exceeds the total size limit"
  end.

(** One iteration: the captured map and [total_bytes], or the error and the
    name it is reported for. *)
Definition capture_step (p : EnvironmentCapturePolicy) (acc : gmap string string * N)
    (entry : EnvironmentEntry) : Result (EnvironmentCaptureErrorCode * string) (gmap string string * N) :=
  let '(captured, total_bytes) := acc in
  let '(name, value) := entry in
  if negb (captures p name) then Ok acc
  else if negb (valid_environment_name name) then Ok acc
  else if kMaxEnvironmentVariables <=? msize captured then Err (CE_kTooManyVariables, name)
  else if kMaxEnvironmentValueBytes <? slen value then Err (CE_kValueTooLong, name)
  else
    let entry_bytes := slen name + slen value in
    if (kMaxEnvironmentBytes <? entry_bytes) || (kMaxEnvironmentBytes - entry_bytes <? total_bytes)
    then Err (CE_kTooLarge, name)
    else Ok (emplace name value captured, total_bytes + entry_bytes).

Definition capture_environment (source : list EnvironmentEntry) (p : EnvironmentCapturePolicy)
  : EnvironmentCaptureResult :=
  match fold_result (capture_step p) (∅, 0) source with
  | Ok (captured, _) => mkCapture CE_kNone "" captured
  | Err (code, name) => mkCapture code name ∅
  end.

(** ** The executable *)

Definition ExecutableResolveErrorCode_to_string (code : ExecutableResolveErrorCode) : string :=
  match code with
  | XE_kNone => "none"
  | XE_kEmptyName => "empty command name"
  | XE_kInvalidName => "invalid command name"
  | XE_kRelativeWithoutCwd => "relative command requires a working directory"
  | XE_kNotFound => "executable not found"
  | XE_kNotExecutable => "target is not executable"
  end.

Definition EINTR : Z := 4.
Definition EACCES : Z := 13.

(** [access(candidate, X_OK)]: [None] is success, [Some] the error number. *)
Definition probe_candidate (access : string -> option Z) (candidate : string) : ExecutableResolveErrorCode :=
  match access candidate with
  | None => XE_kNone
  | Some errno => if (errno =? EACCES)%Z then XE_kNotExecutable else XE_kNotFound
  end.

Fixpoint back_is (c : ascii) (s : string) : bool :=
  match s with
  | EmptyString => false
  | String a EmptyString => Ascii.eqb a c
  | String _ s => back_is c s
  end.

(** [directory + '/' + name], without doubling a final slash *)
Definition join_path (directory name : string) : string :=
  directory +:+ (if back_is "/"%char directory then "" else "/") +:+ name.

Definition probed (access : string -> option Z) (candidate : string) : ExecutableResolveResult :=
  match probe_candidate access candidate with
  | XE_kNone => mkResolved XE_kNone candidate ""
  | code => mkResolved code "" (ExecutableResolveErrorCode_to_string code)
  end.

(** The candidates the [PATH] loop probes, in order *)
Definition path_candidates (path argv0 : string) : list string :=
  (fun directory => join_path directory argv0)
    <$> filter (fun directory => sempty directory = false) (split_on ":"%char path).

Definition search_path (captured_env : gmap string string) : string :=
  match captured_env !! "PATH" with
  | Some path => if sempty path then "/usr/bin:/bin" else path
  | None => "/usr/bin:/bin"
  end.

Definition resolve_executable (access : string -> option Z) (argv0 cwd : string)
    (captured_env : gmap string string) : ExecutableResolveResult :=
  if sempty argv0 then mkResolved XE_kEmptyName "" "argv[0] is empty"
  else if contains_nul argv0 || (kMaxExecutableBytes <? slen argv0)
  then mkResolved XE_kInvalidName "" "argv[0] is invalid"
  else if contains_char "/"%char argv0 then
    if front_is "/"%char argv0 then probed access argv0
    else if sempty cwd || negb (front_is "/"%char cwd)
    then mkResolved XE_kRelativeWithoutCwd "" "cwd must be absolute"
    else probed access (join_path cwd argv0)
  else
    match find_first (fun candidate =>
            match probe_candidate access candidate with XE_kNone => true | _ => false end)
            (path_candidates (search_path captured_env) argv0) with
    | Some candidate => mkResolved XE_kNone candidate ""
    | None => mkResolved XE_kNotFound "" "command not found in captured PATH"
    end.

(** [detect_environment_source] *)
Definition detect_environment_source (captured_env : gmap string string) : EnvSource :=
  if bool_decide (is_Some (captured_env !! "CONDA_PREFIX")) then ES_kConda
  else if bool_decide (is_Some (captured_env !! "VIRTUAL_ENV")) then ES_kVenv
  else ES_kNone.

(** ** The interpreter version *)

(** The text after the first occurrence of [needle]; [output.find(needle)]. *)
Fixpoint after_first (needle s : string) : option string :=
  if String.prefix needle s
  then Some (String.substring (String.length needle) (String.length s - String.length needle) s)
  else match s with EmptyString => None | String _ s => after_first needle s end.

(** The longest prefix of characters that satisfy [f], and how many of them
    are digits *)
Fixpoint scan_version (s : string) : string * N :=
  match s with
  | EmptyString => (EmptyString, 0)
  | String c s =>
      if is_decimal c || Ascii.eqb c "."%char then
        let '(v, digits) := scan_version s in (String c v, digits + (if is_decimal c then 1 else 0))
      else (EmptyString, 0)
  end.

Definition parse_python_version (output : string) : option string :=
  match after_first "Python " output with
  | None => None
  | Some rest =>
      let '(version, digits) := scan_version rest in
      if sempty version || (digits <? 2) then None else Some version
  end.

Definition basename_contains_python (executable : string) : bool :=
  let base := default executable (after_last "/"%char executable) in
  match after_first "python" base with Some _ => true | None => false end.

(** One [read] of the child's output before the deadline *)
Inductive PipeAnswer := PipeBytes (s : string) | PipeEof | PipeInterrupted | PipeFailed.

(** The bounded read loop: the answers until the deadline *)
Fixpoint probe_output (reads : list PipeAnswer) (output : string) : string :=
  match reads with
  | [] => output
  | PipeBytes s :: reads =>
      let output := output +:+ s in
      if 4096 <? slen output then output else probe_output reads output
  | PipeInterrupted :: reads => probe_output reads output
  | (PipeEof | PipeFailed) :: _ => output
  end.

(** The bounded wait loop: the answers of [waitpid(WNOHANG)] until the
    deadline.  The status of the reaped child; whether it had to be killed. *)
Fixpoint probe_wait (waits : list WaitAnswer) : option Z * bool :=
  match waits with
  | [] => (None, true)
  | WaitReaped raw :: _ => (Some raw, false)
  | WaitFailed errno :: waits => if negb (errno =? EINTR)%Z then (None, false) else probe_wait waits
  | WaitNone :: waits => probe_wait waits
  end.

(** [probe_python_version]: the version, and whether the child was killed *)
Definition probe_python_version (started : bool) (reads : list PipeAnswer) (waits : list WaitAnswer)
    (executable : string) : option string * bool :=
  if sempty executable || negb (basename_contains_python executable) || negb started then (None, false)
  else
    let output := probe_output reads "" in
    match probe_wait waits with
    | (Some raw, killed) =>
        if negb (WIFEXITED raw) || negb (WEXITSTATUS raw =? 0)%Z then (None, killed)
        else (parse_python_version output, killed)
    | (None, killed) => (None, killed)
    end.

(** ** Specification *)

Record ProfileOk (p : LaunchProfile) : Prop := {
  po_cuda : lp_mode p = GM_kCudaVisibleDevices -> lp_physical_argument p = "";
  po_physical : lp_mode p = GM_kPhysicalArgument ->
    front_is "-"%char (lp_physical_argument p) = true /\ contains_nul (lp_physical_argument p) = false /\
    contains_char " "%char (lp_physical_argument p) = false /\
    slen (lp_physical_argument p) <= kMaxPhysicalArgumentBytes;
}.

Definition short_path (p : string) : Prop := contains_nul p = false /\ slen p <= kMaxPathBytes.

Record IdentityOk (i : IdentityInfo) : Prop := {
  io_uid : ii_uid i <> 0;
  io_gid : ii_gid i <> 0;
  io_username : bounded_string kMaxUsernameBytes (ii_username i);
  io_home : short_path (ii_home i);
  io_shell : short_path (ii_shell i);
  io_groups : len (ii_supplementary_groups i) <= kMaxSupplementaryGroups;
}.

Definition plan_argument_ok (a : string) : Prop :=
  bounded_string kMaxSingleArgumentBytes a.

Definition plan_entry_ok (e : EnvironmentEntry) : Prop :=
  valid_environment_name e.1 = true /\ slen e.2 <= kMaxEnvironmentValueBytes /\ contains_nul e.2 = false.

(** What a spawned plan satisfies *)
Record PlanOk (plan : LaunchPlan) : Prop := {
  pk_argc : 1 <= len (pl_argv plan) <= kMaxArgumentCount;
  pk_argv : Forall plan_argument_ok (pl_argv plan);
  pk_argv_bytes : sum_sizes slen (pl_argv plan) <= kMaxArgumentBytes;
  pk_cwd : pl_cwd plan = "" \/ absolute_path kMaxWorkingDirectoryBytes (pl_cwd plan);
  pk_executable : pl_executable plan = "" \/ absolute_path kMaxExecutableBytes (pl_executable plan);
  pk_envc : len (pl_env plan) <= kMaxEnvironmentVariables;
  pk_env : Forall plan_entry_ok (pl_env plan);
  pk_env_bytes : sum_sizes entry_bytes (pl_env plan) <= kMaxEnvironmentBytes;
  pk_uid : pl_uid plan <> 0;
  pk_gid : pl_gid plan <> 0;
  pk_username : bounded_string kMaxUsernameBytes (pl_username plan);
  pk_groups : len (pl_supplementary_groups plan) <= kMaxSupplementaryGroups;
}.

(** The layers of the launch environment, as maps *)
Definition managed_env (job_id : JobId) (a : GpuAssignment) (mode : GpuMappingMode) : gmap string string :=
  match mode with
  | GM_kCudaVisibleDevices =>
      {[ "YORI_JOB_ID" := pretty job_id; "YORI_GPU_UUID" := ga_uuid a;
         "CUDA_VISIBLE_DEVICES" := pretty (ga_physical_index a); "CUDA_DEVICE_ORDER" := "PCI_BUS_ID" ]}
  | GM_kPhysicalArgument => {[ "YORI_JOB_ID" := pretty job_id; "YORI_GPU_UUID" := ga_uuid a ]}
  end.

Definition inherited_env (ad : LaunchAdapter) : gmap string string :=
  list_to_map (reverse (filter (fun e => accepts (ad_policy ad) e.1 = true) (ad_daemon_environment ad))).

Definition identity_env (i : IdentityInfo) : gmap string string :=
  {[ "HOME" := ii_home i; "USER" := ii_username i; "LOGNAME" := ii_username i; "SHELL" := ii_shell i ]}.

(** ** Validation lemmas *)

Lemma validate_profile_iff p : validate_profile p = LE_kNone <-> ProfileOk p.
Proof.
  unfold validate_profile. destruct p as [[] arg]; simpl.
  - destruct arg; simpl; (split; [intros; try done|intros [H _]; by specialize (H eq_refl)]).
  - destruct arg as [|c arg]; [by split; [|intros [_ H]; destruct (H eq_refl) as [? _]]|].
    cbn [sempty]. split.
    + case_match eqn:E; [done|]. intros _. reflect_bools. split; [done|]. intros _. by split_and!.
    + intros [_ H]. destruct (H eq_refl) as (H1 & H2 & H3 & H4). cbn [lp_physical_argument] in *.
      rewrite H1, H2, H3. apply N.ltb_ge in H4. by rewrite H4.
Qed.

Lemma bounded_string_tests limit s :
  bounded_string limit s <-> sempty s = false /\ contains_nul s = false /\ (limit <? slen s) = false.
Proof.
  rewrite <- bad_bounded_string_false. unfold bad_bounded_string. rewrite !orb_false_iff. tauto.
Qed.

Lemma short_path_tests p :
  negb (sempty p) && (contains_nul p || (kMaxPathBytes <? slen p)) = false <-> short_path p.
Proof.
  unfold short_path. destruct p as [|c p]; [by split|]. cbn [sempty negb andb].
  rewrite orb_false_iff, N.ltb_ge. done.
Qed.

Lemma validate_identity_iff i : validate_identity i = IV_kNone <-> IdentityOk i.
Proof.
  unfold validate_identity. split.
  - intros H. repeat (case_match; [done|]). reflect_bools.
    split; try done; try (by apply short_path_tests).
    by apply bounded_string_tests; split_and!; [..|by apply N.ltb_ge].
  - intros [H1 H2 H3%bounded_string_tests H4%short_path_tests H5%short_path_tests H6%N.ltb_ge].
    apply N.eqb_neq in H1, H2. destruct H3 as (H31 & H32 & H33).
    by rewrite H1, H2, H31, H32, H33, H4, H5, H6.
Qed.

Lemma add_bytes_result {X} bytes total limit (e : X) t :
  total <= limit ->
  match add_bytes bytes total limit with None => Err e | Some t' => Ok t' end = Ok t <->
  t = total + bytes /\ total + bytes <= limit.
Proof.
  intros Ht. unfold add_bytes. destruct (N.ltb_spec limit bytes); simpl; [naive_solver lia|].
  destruct (N.ltb_spec (limit - bytes) total); naive_solver lia.
Qed.

Lemma check_plan_argument_ok i acc a t :
  acc <= kMaxArgumentBytes ->
  check_plan_argument i acc a = Ok t <->
  plan_argument_ok a /\ t = acc + slen a /\ acc + slen a <= kMaxArgumentBytes.
Proof.
  intros Hacc. unfold check_plan_argument, plan_argument_ok. rewrite bounded_string_tests.
  destruct (sempty a), (contains_nul a); simpl; try naive_solver.
  destruct (N.ltb_spec kMaxSingleArgumentBytes (slen a)); [naive_solver|].
  rewrite add_bytes_result by done. naive_solver.
Qed.

Lemma check_plan_entry_ok i acc e t :
  acc <= kMaxEnvironmentBytes ->
  check_plan_entry i acc e = Ok t <->
  plan_entry_ok e /\ t = acc + entry_bytes e /\ acc + entry_bytes e <= kMaxEnvironmentBytes.
Proof.
  intros Hacc. destruct e as [name value]. unfold check_plan_entry, plan_entry_ok, entry_bytes; simpl.
  destruct (valid_environment_name name); simpl; [|naive_solver].
  destruct (N.ltb_spec kMaxEnvironmentValueBytes (slen value)); simpl; [naive_solver lia|].
  destruct (contains_nul value); [naive_solver|].
  rewrite add_bytes_result by done. naive_solver.
Qed.

Lemma optional_path_tests limit p :
  negb (sempty p) && (negb (front_is "/"%char p) || contains_nul p || (limit <? slen p)) = false <->
  p = "" \/ absolute_path limit p.
Proof.
  unfold absolute_path. rewrite bounded_string_tests.
  destruct p as [|c p]; [naive_solver|]. cbn [sempty negb andb].
  rewrite !orb_false_iff, negb_false_iff. naive_solver.
Qed.

Lemma cwd_tests limit p :
  ((limit <? slen p) || contains_nul p = false /\ negb (sempty p) && negb (front_is "/"%char p) = false) <->
  p = "" \/ absolute_path limit p.
Proof.
  rewrite <- optional_path_tests. destruct p as [|c p].
  { simpl. assert ((limit <? slen "") = false) as -> by (apply N.ltb_ge; unfold slen; simpl; lia). done. }
  cbn [sempty negb andb]. rewrite !orb_false_iff. tauto.
Qed.

Lemma is_ok_validate_plan plan : is_ok (validate_plan_checks plan) = true <-> PlanOk plan.
Proof.
  unfold validate_plan_checks.
  rewrite !is_ok_reject, !is_ok_bind_const, !is_ok_reject, !is_ok_bind_const, !is_ok_reject.
  rewrite (bounded_loop_ok check_plan_argument plan_argument_ok slen kMaxArgumentBytes) by
    (apply check_plan_argument_ok || apply N.le_0_l).
  rewrite (bounded_loop_ok check_plan_entry plan_entry_ok entry_bytes kMaxEnvironmentBytes) by
    (apply check_plan_entry_ok || apply N.le_0_l).
  rewrite optional_path_tests, !N.add_0_l, !N.ltb_ge, bool_decide_eq_false.
  rewrite (orb_false_iff (pl_uid plan =? 0)), !N.eqb_neq.
  pose proof (cwd_tests kMaxWorkingDirectoryBytes (pl_cwd plan)) as Hcwd.
  pose proof (bad_bounded_string_false kMaxUsernameBytes (pl_username plan)) as Huser.
  unfold bad_bounded_string in Huser. rewrite !orb_false_iff in Huser.
  assert (pl_argv plan <> [] <-> 1 <= len (pl_argv plan)) as Hargv.
  { destruct (pl_argv plan); [split; [done|unfold len; simpl; lia]|]. rewrite len_cons. split; [lia|done]. }
  rewrite Hargv. split.
  - intros ?. destruct_and!. rewrite !orb_false_iff in *. split; tauto.
  - intros []. rewrite !orb_false_iff in *. tauto.
Qed.

Lemma validate_plan_iff plan : pv_code (validate_plan plan) = PE_kNone <-> PlanOk plan.
Proof.
  rewrite <- is_ok_validate_plan. unfold validate_plan.
  assert (errs_sat (fun r => pv_code r <> PE_kNone) (validate_plan_checks plan)) as He.
  { unfold validate_plan_checks, check_plan_argument, check_plan_entry.
    repeat walk_errs; repeat case_match; repeat walk_errs; repeat case_match; simplify_eq; done. }
  destruct (validate_plan_checks plan); simpl in *; naive_solver.
Qed.

(** ** The merged environment *)

Lemma user_steps l (m : gmap string string) : fold_left user_step l m = list_to_map (reverse l) ∪ m.
Proof.
  induction l as [|e l IH] using rev_ind; simpl; [by rewrite (left_id_L ∅ (∪))|].
  rewrite fold_left_app, reverse_app, IH. simpl. unfold user_step.
  destruct e as [k v]. simpl. by rewrite insert_union_l.
Qed.

Lemma daemon_steps p l (m : gmap string string) :
  fold_left (daemon_step p) l m = fold_left user_step (filter (fun e => accepts p e.1 = true) l) m.
Proof.
  revert m. induction l as [|e l IH]; intros m; simpl; [done|].
  rewrite filter_cons. unfold daemon_step at 2. destruct (accepts p e.1); simpl; by rewrite IH.
Qed.

Lemma list_to_map_entries (m : gmap string string) : list_to_map (reverse (map_entries m)) = m.
Proof.
  rewrite <- (list_to_map_to_list m) at 2. apply list_to_map_proper.
  - rewrite reverse_Permutation. apply NoDup_map_entries_keys.
  - by rewrite reverse_Permutation, map_entries_perm.
Qed.

Lemma identity_block_env i : identity_block i = identity_env i.
Proof.
  unfold identity_block, identity_env, emplace. rewrite !lookup_empty.
  repeat (rewrite lookup_insert_ne by done || rewrite lookup_empty).
  apply map_eq. intros k.
  destruct (decide (k = "HOME")) as [->|]; [by simplify_map_eq|].
  destruct (decide (k = "USER")) as [->|]; [by simplify_map_eq|].
  destruct (decide (k = "LOGNAME")) as [->|]; [by simplify_map_eq|].
  destruct (decide (k = "SHELL")) as [->|]; by simplify_map_eq.
Qed.

Lemma resource_block_env job_id a mode m : resource_block job_id a mode m = managed_env job_id a mode ∪ m.
Proof.
  unfold resource_block, managed_env. apply map_eq. intros k. rewrite lookup_union.
  destruct (m !! k) eqn:Hm;
  destruct (decide (k = "YORI_JOB_ID")) as [->|]; [by destruct mode; simplify_map_eq| |
    by destruct mode; simplify_map_eq|];
  (destruct (decide (k = "YORI_GPU_UUID")) as [->|]; [by destruct mode; simplify_map_eq|]);
  (destruct mode; [|by simplify_map_eq]);
  (destruct (decide (k = "CUDA_VISIBLE_DEVICES")) as [->|]; [by simplify_map_eq|]);
  destruct (decide (k = "CUDA_DEVICE_ORDER")) as [->|]; by simplify_map_eq.
Qed.

Lemma merged_environment_layers ad job_id spec a mode i :
  merged_environment ad job_id spec a mode i =
  managed_env job_id a mode ∪ (Job.env spec ∪ (inherited_env ad ∪ identity_env i)).
Proof.
  unfold merged_environment, inherited_env.
  by rewrite resource_block_env, daemon_steps, !user_steps, list_to_map_entries, identity_block_env.
Qed.

Lemma no_reserved_iff spec :
  find_first is_reserved_environment_key (map_entries (Job.env spec)).*1 = None <->
  forall k, is_Some (Job.env spec !! k) -> is_reserved_environment_key k = false.
Proof.
  split.
  - intros Hn k Hk. eapply find_first_none; [exact Hn|]. by apply elem_of_map_entries_keys.
  - intros Hr. destruct (find_first _ _) as [k|] eqn:E; [|done].
    apply find_first_some in E as [Hk%elem_of_map_entries_keys ?]. apply Hr in Hk. congruence.
Qed.

Lemma prepare_spec ad job_id spec a profile i plan :
  prepare ad job_id spec a profile i = Ok plan <->
  job_id <> 0 /\ SpecOk spec /\ ProfileOk profile /\ IdentityOk i /\ uuid_valid (ga_uuid a) = true /\
  (forall k, is_Some (Job.env spec !! k) -> is_reserved_environment_key k = false) /\
  plan = assemble ad job_id spec a profile i /\ PlanOk plan.
Proof.
  unfold prepare. rewrite <- validate_profile_iff, <- validate_identity_iff, <- no_reserved_iff.
  rewrite <- validate_plan_iff, <- spec_valid_iff. unfold spec_valid, job_id_valid, assignment_valid.
  rewrite <- N.eqb_neq. destruct (job_id =? 0); simpl; [naive_solver|].
  destruct (spec_result_ok _); simpl; [|naive_solver].
  destruct (validate_profile profile); simpl; try naive_solver.
  destruct (validate_identity i); simpl; try naive_solver.
  destruct (uuid_valid _); simpl; [|naive_solver].
  destruct (find_first _ _); [naive_solver|].
  destruct (pv_code (validate_plan (assemble _ _ _ _ _ _))) eqn:E; naive_solver congruence.
Qed.

(** What a job is started with is determined by its specification, its
    GPU, its owner's identity and the daemon's whitelisted environment:
    [prepare] succeeds exactly when all inputs are valid, no variable of the
    job is reserved and the resulting plan is within the limits ([PlanOk]);
    then the command line is the job's (with the physical index appended in
    [kPhysicalArgument] mode) and the environment is the union of the four
    layers, an earlier one overriding a later one: Yori's resource block, the
    job's variables, the whitelisted daemon variables, the owner's identity. *)
Theorem prepare_exact ad job_id spec a profile i plan :
  prepare ad job_id spec a profile i = Ok plan <->
  job_id <> 0 /\ SpecOk spec /\ ProfileOk profile /\ IdentityOk i /\ uuid_valid (ga_uuid a) = true /\
  (forall k, is_Some (Job.env spec !! k) -> is_reserved_environment_key k = false) /\
  PlanOk plan /\
  plan = mkPlan
    (argv spec ++ match lp_mode profile with
                  | GM_kCudaVisibleDevices => []
                  | GM_kPhysicalArgument => [lp_physical_argument profile; pretty (ga_physical_index a)]
                  end)
    (map_entries (managed_env job_id a (lp_mode profile)
                  ∪ (Job.env spec ∪ (inherited_env ad ∪ identity_env i))))
    (cwd spec) (default "" (executable spec)) (ii_uid i) (ii_gid i) (ii_username i)
    (ii_supplementary_groups i).
Proof.
  rewrite prepare_spec. unfold assemble, launch_argv. rewrite merged_environment_layers.
  destruct (lp_mode profile); rewrite ?app_nil_r; tauto.
Qed.

(** The default whitelist admits no reserved name. *)
Lemma prefix_head c p k : String.prefix (String c p) k = true -> exists r, k = String c r.
Proof. destruct k as [|c' k]; simpl; [done|]. case_match; [|done]. subst. eauto. Qed.

Lemma default_policy_safe k : is_reserved_environment_key k = true -> accepts default_policy k = false.
Proof.
  unfold is_reserved_environment_key. rewrite orb_true_iff. intros [Hk|Hk].
  - apply existsb_exists in Hk as (k' & Hin & <-%bool_decide_eq_true).
    simpl in Hin. by repeat destruct Hin as [<-|Hin].
  - apply prefix_head in Hk as [r ->]. unfold accepts, default_policy. cbn [existsb ep_exact_keys ep_prefix_keys].
    rewrite !bool_decide_eq_false_2 by congruence. reflexivity.
Qed.

Lemma prepared_env ad job_id spec a profile i plan :
  prepare ad job_id spec a profile i = Ok plan ->
  (forall k, is_reserved_environment_key k = true -> accepts (ad_policy ad) k = false) ->
  (forall k v, is_reserved_environment_key k = true ->
     (k, v) ∈ pl_env plan <->
     (managed_env job_id a (lp_mode profile) ∪ identity_env i) !! k = Some v) /\
  pl_uid plan = ii_uid i /\ pl_uid plan <> 0 /\ pv_code (validate_plan plan) = PE_kNone.
Proof.
  intros (_ & _ & _ & Hid & _ & Hres & -> & Hok)%prepare_spec Hpol. unfold assemble in *.
  split_and!; simpl; [|done|by apply (pk_uid _ Hok)|by apply validate_plan_iff].
  intros k v Hk. rewrite elem_of_map_entries, merged_environment_layers.
  assert (Job.env spec !! k = None) as He.
  { destruct (Job.env spec !! k) eqn:E; [|done]. rewrite (Hres k) in Hk by eauto. done. }
  assert (inherited_env ad !! k = None) as Hi.
  { unfold inherited_env. apply not_elem_of_list_to_map_1. rewrite list_elem_of_fmap.
    intros ([k' v'] & -> & Hin). rewrite elem_of_reverse, list_elem_of_filter in Hin.
    destruct Hin as [Hin _]. simpl in *. rewrite Hpol in Hin by done. done. }
  rewrite !lookup_union, He, Hi. by destruct (managed_env _ _ _ !! k), (identity_env i !! k).
Qed.

(** C33. No user and no inherited variable can forge what Yori manages: when
    the whitelist admits no reserved key (as the default one does), the
    environment of an accepted plan has, for every reserved name, exactly the
    value of the resource block or of the owner's [passwd] record - so
    [LD_PRELOAD], other [YORI_] names and, in [kPhysicalArgument] mode, the CUDA
    variables are absent; each name occurs once, and the process runs neither
    as root nor in the root group. *)
Theorem launch_env_protected ad job_id spec a profile i plan :
  prepare ad job_id spec a profile i = Ok plan ->
  (forall k, is_reserved_environment_key k = true -> accepts (ad_policy ad) k = false) ->
  (forall k v, is_reserved_environment_key k = true ->
     (k, v) ∈ pl_env plan <->
     (managed_env job_id a (lp_mode profile) ∪ identity_env i) !! k = Some v) /\
  NoDup (pl_env plan).*1 /\ StronglySorted String.le (pl_env plan).*1 /\
  pl_uid plan = ii_uid i /\ pl_uid plan <> 0 /\ pl_gid plan <> 0.
Proof.
  intros Hp Hpol. destruct (prepared_env _ _ _ _ _ _ _ Hp Hpol) as (Henv & Huid & Hroot & _).
  apply prepare_spec in Hp as (_ & _ & _ & _ & _ & _ & -> & Hok).
  split_and!; [done|apply NoDup_map_entries_keys|refine (map_entries_keys_sorted (K:=string) (A:=string) _)|
    done|done|by apply (pk_gid _ Hok)].
Qed.

(** The daemon's resolver answers for the uid it is asked for, with a valid identity. *)
Lemma resolve_ok getpwuid_r getgrouplist uid i :
  resolve getpwuid_r getgrouplist uid = Ok i -> ii_uid i = uid /\ IdentityOk i.
Proof.
  unfold resolve. destruct (uid =? 0); [done|]. destruct (getpwuid_r uid) as [rc [pwd|]]; [|done].
  destruct (rc =? ENOENT)%Z; [done|]. destruct (rc =? 0)%Z; [|done]. cbn [negb].
  destruct (getgrouplist _ _ _) as [groups|]; [|done].
  destruct (validate_identity _) eqn:E; intros [= <-]. split; [done|]. by apply validate_identity_iff.
Qed.

Definition example_owner : IdentityInfo :=
  mkIdentityInfo 1000 1000 "ada" "/home/ada" "/bin/sh" [1000; 27].
Definition example_adapter : LaunchAdapter :=
  mkAdapter default_policy [("PATH", "/usr/bin"); ("HOME", "/root"); ("LC_ALL", "C")].
Definition example_assignment : GpuAssignment := mkAssignment "GPU-1" 2 0.

Definition example_plan : LaunchPlan :=
  assemble example_adapter 7 example_spec example_assignment (mkProfile GM_kCudaVisibleDevices "")
    example_owner.

Lemma launch_env_protected_witness :
  (forall k v, is_reserved_environment_key k = true ->
     (k, v) ∈ pl_env example_plan <->
     (managed_env 7 example_assignment GM_kCudaVisibleDevices ∪ identity_env example_owner) !! k = Some v) /\
  NoDup (pl_env example_plan).*1 /\ StronglySorted String.le (pl_env example_plan).*1 /\
  pl_uid example_plan = 1000 /\ pl_uid example_plan <> 0 /\ pl_gid example_plan <> 0.
Proof.
  apply (launch_env_protected example_adapter 7 example_spec example_assignment
           (mkProfile GM_kCudaVisibleDevices "") example_owner example_plan).
  - vm_compute. reflexivity.
  - exact default_policy_safe.
Defined.

(** ** Capture *)

(** The entries of the source that capture looks at *)
Definition wanted (p : EnvironmentCapturePolicy) (e : EnvironmentEntry) : bool :=
  captures p e.1 && valid_environment_name e.1.

Definition kept (p : EnvironmentCapturePolicy) (source : list EnvironmentEntry) : list EnvironmentEntry :=
  filter (fun e => wanted p e = true) source.

Lemma captures_not_reserved p k : captures p k = true -> is_reserved_environment_key k = false.
Proof. unfold captures. by destruct (is_reserved_environment_key k). Qed.

Lemma sum_sizes_perm {A} (f : A -> N) l1 l2 : l1 ≡ₚ l2 -> sum_sizes f l1 = sum_sizes f l2.
Proof. induction 1; simpl; lia. Qed.

Lemma sum_map_insert (m : gmap string string) k v :
  m !! k = None ->
  sum_sizes entry_bytes (map_entries (<[k:=v]> m)) = entry_bytes (k, v) + sum_sizes entry_bytes (map_entries m).
Proof.
  intros Hk. rewrite !(sum_sizes_perm _ (map_entries _) _ (map_entries_perm _)).
  by rewrite (sum_sizes_perm _ _ _ (map_to_list_insert m k v Hk)).
Qed.

(** [emplace] after the entries of [l]: the first entry of a name wins. *)
Lemma emplace_list_to_map k v (l : list EnvironmentEntry) :
  emplace k v (list_to_map l : gmap string string) = list_to_map (l ++ [(k, v)]).
Proof.
  rewrite list_to_map_app. unfold emplace. apply map_eq. intros k'. rewrite lookup_union. simpl.
  destruct (decide (k' = k)) as [->|Hne].
  - rewrite lookup_insert_eq. destruct (list_to_map l !! k) eqn:E; by simplify_map_eq.
  - rewrite lookup_insert_ne, lookup_empty by done.
    destruct (list_to_map l !! k); simplify_map_eq; by destruct (list_to_map l !! k').
Qed.

(** What holds after the entries [done] of the source *)
Record CaptureInv (p : EnvironmentCapturePolicy) (seen : list EnvironmentEntry)
    (acc : gmap string string * N) : Prop := {
  ci_env : acc.1 = list_to_map (kept p seen);
  ci_total : acc.2 = sum_sizes entry_bytes (kept p seen);
  ci_total_le : acc.2 <= kMaxEnvironmentBytes;
  ci_size : msize acc.1 <= kMaxEnvironmentVariables;
  ci_values : Forall (fun e => slen e.2 <= kMaxEnvironmentValueBytes) (kept p seen);
  ci_sum : sum_sizes entry_bytes (map_entries acc.1) <= acc.2;
}.

Lemma kept_snoc p seen e :
  kept p (seen ++ [e]) = kept p seen ++ (if wanted p e then [e] else []).
Proof. unfold kept. rewrite filter_app, filter_cons, filter_nil. by destruct (wanted p e). Qed.

Lemma msize_list_to_map (l : list EnvironmentEntry) : msize (list_to_map l : gmap string string) <= len l.
Proof.
  induction l as [|[k v] l IH]; simpl; [done|]. rewrite len_cons.
  destruct ((list_to_map l : gmap string string) !! k) eqn:E.
  - rewrite msize_insert_old by eauto. lia.
  - rewrite msize_insert_new by done. lia.
Qed.

Lemma capture_step_ok p seen acc e acc' :
  CaptureInv p seen acc -> capture_step p acc e = Ok acc' -> CaptureInv p (seen ++ [e]) acc'.
Proof.
  intros [He Ht Hl Hs Hv Hm] Hstep. destruct acc as [m total], e as [k v]; simpl in *.
  assert (wanted p (k, v) = captures p k && valid_environment_name k) as Hw by done.
  destruct (captures p k) eqn:Ec; simpl in *; simplify_eq/=;
    [|split; rewrite ?kept_snoc, ?Hw, ?app_nil_r; done].
  destruct (valid_environment_name k) eqn:En; simpl in *; simplify_eq/=;
    [|split; rewrite ?kept_snoc, ?Hw, ?app_nil_r; done].
  repeat case_in Hstep. reflect_bools.
  split; rewrite ?kept_snoc, ?Hw; simpl.
  - apply emplace_list_to_map.
  - rewrite sum_sizes_app. unfold entry_bytes at 3. simpl. lia.
  - lia.
  - unfold emplace. case_match eqn:E; [done|]. rewrite msize_insert_new by done. lia.
  - apply Forall_app. by split; [|constructor].
  - unfold emplace. case_match eqn:E; [lia|]. rewrite sum_map_insert by done. unfold entry_bytes at 1. simpl. lia.
Qed.

(** An entry that is refused is one that breaks a limit. *)
Lemma capture_step_err p seen acc e code name :
  CaptureInv p seen acc -> capture_step p acc e = Err (code, name) ->
  code <> CE_kNone /\ e ∈ kept p (seen ++ [e]) /\ name = e.1 /\
  (kMaxEnvironmentVariables < len (kept p (seen ++ [e])) \/ kMaxEnvironmentValueBytes < slen e.2 \/
   kMaxEnvironmentBytes < sum_sizes entry_bytes (kept p (seen ++ [e]))).
Proof.
  intros [He Ht Hl Hs Hv Hm] Hstep. destruct acc as [m total], e as [k v]; simpl in *.
  repeat case_in Hstep; reflect_bools;
    (split_and!; [done|unfold kept; rewrite list_elem_of_filter; unfold wanted; simpl;
       split; [by apply andb_true_iff|set_solver]|done|]);
    rewrite kept_snoc; unfold wanted; simpl;
    rewrite ?Heqb, ?Heqb0; simpl; rewrite ?len_app, ?sum_sizes_app.
  - left. pose proof (msize_list_to_map (kept p seen)). unfold len at 2. simpl. lia.
  - right; by left.
  - right; right. simpl. unfold entry_bytes at 2. simpl. apply orb_true_iff in Heqb3 as [Hb|Hb]; reflect_bools; lia.
Qed.

Lemma capture_run p l seen acc :
  CaptureInv p seen acc ->
  match fold_result (capture_step p) acc l with
  | Ok acc' => CaptureInv p (seen ++ l) acc'
  | Err (code, name) =>
      code <> CE_kNone /\
      exists e pre post, seen ++ l = pre ++ e :: post /\ name = e.1 /\ e ∈ kept p (pre ++ [e]) /\
        (kMaxEnvironmentVariables < len (kept p (pre ++ [e])) \/ kMaxEnvironmentValueBytes < slen e.2 \/
         kMaxEnvironmentBytes < sum_sizes entry_bytes (kept p (pre ++ [e])))
  end.
Proof.
  revert seen acc. induction l as [|e l IH]; intros seen acc Hinv; simpl; [by rewrite app_nil_r|].
  destruct (capture_step p acc e) as [acc'|[code name]] eqn:E; simpl.
  - specialize (IH (seen ++ [e]) acc' (capture_step_ok _ _ _ _ _ Hinv E)).
    by rewrite <- app_assoc in IH.
  - apply (capture_step_err _ seen) in E as (? & ? & ? & ?); [|done].
    split; [done|]. by exists e, seen, l.
Qed.

Lemma capture_spec source p :
  (exists acc, fold_result (capture_step p) (∅, 0) source = Ok acc /\ CaptureInv p source acc /\
     capture_environment source p = mkCapture CE_kNone "" acc.1) \/
  (exists code e pre post, source = pre ++ e :: post /\ code <> CE_kNone /\ e ∈ kept p (pre ++ [e]) /\
     capture_environment source p = mkCapture code e.1 ∅ /\
     (kMaxEnvironmentVariables < len (kept p (pre ++ [e])) \/ kMaxEnvironmentValueBytes < slen e.2 \/
      kMaxEnvironmentBytes < sum_sizes entry_bytes (kept p (pre ++ [e])))).
Proof.
  assert (CaptureInv p [] (∅, 0)) as H0.
  { split; simpl; [done|done|lia|done|constructor|done]. }
  pose proof (capture_run p source [] (∅, 0) H0) as Hr. unfold capture_environment.
  destruct (fold_result _ _ _) as [[m t]|[code name]].
  - left. by exists (m, t).
  - right. simpl in Hr. destruct Hr as (Hc & e & pre & post & -> & -> & ? & ?). by exists code, e, pre, post.
Qed.

Lemma kept_app p l1 l2 : kept p (l1 ++ l2) = kept p l1 ++ kept p l2.
Proof. apply filter_app. Qed.

Lemma kept_lookup p source k v :
  (list_to_map (kept p source) : gmap string string) !! k = Some v ->
  captures p k = true /\ valid_environment_name k = true /\ (k, v) ∈ source.
Proof.
  intros Hk%elem_of_list_to_map_2. unfold kept in Hk. rewrite list_elem_of_filter in Hk.
  destruct Hk as [Hw Hin]. unfold wanted in Hw. reflect_bools. done.
Qed.

(** Environment capture is all or nothing.  Without an error the captured
    environment is exactly the wanted entries of the source (captured by the
    policy, with a well-formed name), the first of equal names kept; none of
    them is reserved, and the limits on count, value size and total size hold.
    With an error nothing is captured, and the reported name is that of an
    entry at which the wanted entries break one of the limits: nothing is ever
    cut off silently. *)
Theorem capture_environment_exact source p :
  let r := capture_environment source p in
  match cr_code r with
  | CE_kNone =>
      cr_env r = list_to_map (kept p source) /\ msize (cr_env r) <= kMaxEnvironmentVariables /\
      sum_sizes entry_bytes (kept p source) <= kMaxEnvironmentBytes /\
      Forall (fun e => slen e.2 <= kMaxEnvironmentValueBytes) (kept p source) /\
      (forall k, is_Some (cr_env r !! k) -> is_reserved_environment_key k = false)
  | _ =>
      cr_env r = ∅ /\ exists e, e ∈ kept p source /\ cr_offending_name r = e.1 /\
        (kMaxEnvironmentVariables < len (kept p source) \/ kMaxEnvironmentValueBytes < slen e.2 \/
         kMaxEnvironmentBytes < sum_sizes entry_bytes (kept p source))
  end.
Proof.
  intros r. subst r.
  destruct (capture_spec source p) as [(acc & _ & [He Ht ? ? ? _] & ->)
    |(code & e & pre & post & -> & Hc & Hin & -> & Hlim)]; simpl.
  - split_and!; try done; [by rewrite <- Ht|]. intros k [v Hv].
    rewrite He in Hv. apply kept_lookup in Hv as [? _]. by eapply captures_not_reserved.
  - assert (kept p (pre ++ e :: post) = kept p (pre ++ [e]) ++ kept p post) as Hk.
    { by rewrite <- kept_app, <- app_assoc. }
    rewrite Hk, len_app, sum_sizes_app.
    destruct code; try done; (split; [done|]); exists e; (split_and!; [set_solver|done|]);
      (destruct Hlim as [|[|]]; [left; lia|by right; left|right; right; lia]).
Qed.

(** What is captured can be submitted and launched: the entries of a real
    environment hold no NUL, so the captured variables satisfy the environment
    limits of [job::validate], and a job that carries them is never refused by
    [prepare] for a reserved variable. *)
Theorem capture_submittable source p ad job_id spec a profile i :
  Forall (fun e => contains_nul e.2 = false) source ->
  Job.env spec = cr_env (capture_environment source p) ->
  msize (Job.env spec) <= kMaxEnvironmentVariables /\
  Forall environment_entry_ok (map_entries (Job.env spec)) /\
  sum_sizes entry_bytes (map_entries (Job.env spec)) <= kMaxEnvironmentBytes /\
  (forall e, prepare ad job_id spec a profile i = Err e -> pe_code e <> LP_kReservedEnvironmentKey).
Proof.
  intros Hnul Henv.
  assert (exists seen acc, Job.env spec = acc.1 /\ CaptureInv p seen acc /\ (forall e, e ∈ seen -> e ∈ source))
    as (seen & acc & Hacc & [He Ht Htl Hs Hv Hm] & Hsub).
  { destruct (capture_spec source p) as [(acc & _ & Hinv & Heq)|(code & e & pre & post & _ & _ & _ & Heq & _)];
      rewrite Heq in Henv; [by exists source, acc|].
    exists [], (∅, 0). split_and!; [done| |set_solver]. split; simpl; [done|done|lia|done|constructor|done]. }
  rewrite Hacc. split_and!; [done| |lia|].
  - apply Forall_forall. intros [k v] Hkv. apply elem_of_map_entries in Hkv. rewrite He in Hkv.
    pose proof (elem_of_list_to_map_2 _ _ _ Hkv) as Hin.
    rewrite Forall_forall in Hv. specialize (Hv _ Hin).
    apply kept_lookup in Hkv as (_ & Hname & Hsrc%Hsub). rewrite Forall_forall in Hnul.
    specialize (Hnul _ Hsrc). unfold environment_entry_ok, is_valid_environment_name; simpl in *.
    unfold valid_environment_name in Hname. repeat case_match; try done. reflect_bools.
    rewrite !andb_true_iff, !negb_true_iff. by split_and!.
  - assert (find_first is_reserved_environment_key (map_entries (Job.env spec)).*1 = None) as Hnone.
    { apply no_reserved_iff. rewrite Hacc, He. intros k [v Hk].
      apply kept_lookup in Hk as [? _]. by eapply captures_not_reserved. }
    intros e. unfold prepare. rewrite Hnone. destruct (negb (job_id_valid _)); [by intros [= <-]|]. cbv zeta.
    destruct (negb (spec_result_ok _)); [by intros [= <-]|].
    destruct (validate_profile profile); cbn [result_bind]; try (intros [= <-]; discriminate).
    destruct (validate_identity i); cbn [result_bind]; try (intros [= <-]; discriminate).
    destruct (negb (assignment_valid a)); [intros [= <-]; discriminate|].
    destruct (pv_code _); try (intros [= <-]; discriminate); discriminate.
Qed.

Definition example_environ : list EnvironmentEntry :=
  [("PATH", "/opt/conda/bin:/usr/bin"); ("HOME", "/home/ada"); ("YORI_JOB_ID", "1");
   ("CONDA_PREFIX", "/opt/conda"); ("PATH", "/tmp"); ("SECRET", "x")].

Definition example_capture : EnvironmentCapturePolicy := mkCapturePolicy [] false.

Definition example_captured_spec : JobSpec :=
  let spec := example_spec in
  {| spec with Job.env := cr_env (capture_environment example_environ example_capture) |}.

Lemma capture_submittable_witness :
  msize (Job.env example_captured_spec) <= kMaxEnvironmentVariables /\
  Forall environment_entry_ok (map_entries (Job.env example_captured_spec)) /\
  sum_sizes entry_bytes (map_entries (Job.env example_captured_spec)) <= kMaxEnvironmentBytes /\
  (forall e, prepare example_adapter 7 example_captured_spec example_assignment
               (mkProfile GM_kCudaVisibleDevices "") example_owner = Err e ->
             pe_code e <> LP_kReservedEnvironmentKey).
Proof.
  apply (capture_submittable example_environ example_capture).
  - repeat constructor.
  - reflexivity.
Defined.

(** ** The resolved executable *)

Lemma find_first_split {A} (f : A -> bool) l x :
  find_first f l = Some x <->
  exists before after, l = before ++ x :: after /\ f x = true /\ Forall (fun y => f y = false) before.
Proof.
  induction l as [|y l IH]; simpl.
  { split; [done|]. intros (b & a & H & _). by apply app_cons_not_nil in H. }
  destruct (f y) eqn:E.
  - split.
    + intros [= ->]. by exists [], l.
    + intros ([|z b] & a & [= -> ->] & Hx & Hb); [done|]. inv Hb. congruence.
  - rewrite IH. split.
    + intros (b & a & -> & ? & ?). exists (y :: b), a. split_and!; try done. by constructor.
    + intros ([|z b] & a & [= -> ->] & Hx & Hb); [congruence|]. inv Hb. by exists b, a.
Qed.

Lemma probe_candidate_none access c : probe_candidate access c = XE_kNone <-> access c = None.
Proof. unfold probe_candidate. repeat case_match; naive_solver. Qed.

(** The command that [argv0] names *)
Definition names_command (access : string -> option Z) (argv0 cwd path : string) (env : gmap string string) : Prop :=
  if contains_char "/"%char argv0 then
    if front_is "/"%char argv0 then path = argv0
    else front_is "/"%char cwd = true /\ path = join_path cwd argv0
  else exists before after,
    path_candidates (search_path env) argv0 = before ++ path :: after /\
    Forall (fun c => access c <> None) before.

(** A command is resolved the way a shell does it: [resolve_executable]
    succeeds with [path] exactly when [argv0] is a legal name, [path] is
    executable, and [path] is the name itself (absolute), the name in the
    working directory (with a slash), or the first executable candidate along
    the captured [PATH] (bare name). *)
Theorem resolve_executable_exact access argv0 cwd env path :
  resolve_executable access argv0 cwd env = mkResolved XE_kNone path "" <->
  bounded_string kMaxExecutableBytes argv0 /\ access path = None /\
  names_command access argv0 cwd path env.
Proof.
  unfold resolve_executable, names_command. rewrite bounded_string_tests.
  destruct (sempty argv0); [naive_solver|].
  destruct (contains_nul argv0); simpl; [naive_solver|].
  destruct (kMaxExecutableBytes <? slen argv0); [naive_solver|].
  assert (forall c, probed access c = mkResolved XE_kNone path "" <-> path = c /\ access path = None) as Hp.
  { intros c. unfold probed. rewrite <- (probe_candidate_none access path).
    destruct (probe_candidate access c) eqn:E; naive_solver congruence. }
  destruct (contains_char "/"%char argv0).
  { destruct (front_is "/"%char argv0); [rewrite Hp; naive_solver|].
    destruct cwd as [|c0 cwd]; [naive_solver|]. cbn [sempty orb].
    destruct (front_is "/"%char (String c0 cwd)); simpl; [rewrite Hp|]; naive_solver. }
  assert (forall c, match probe_candidate access c with XE_kNone => true | _ => false end = true <-> access c = None) as Ht.
  { intros c. rewrite <- probe_candidate_none. destruct (probe_candidate access c); naive_solver. }
  assert (forall l, Forall (fun c => match probe_candidate access c with XE_kNone => true | _ => false end = false) l <->
                    Forall (fun c => access c <> None) l) as Hf.
  { intros l. apply Forall_iff. intros c. rewrite <- not_true_iff_false, Ht. done. }
  destruct (find_first _ _) as [c|] eqn:E.
  - split.
    + intros [= ->]. apply find_first_split in E as (b & a & Heq & Hx & Hb).
      split_and!; try done; [by apply Ht|]. exists b, a. by rewrite <- Hf.
    + intros (_ & Hx & b & a & Heq & Hb). f_equal.
      assert (Some c = Some path) as [= ->]; [|done]. rewrite <- E. apply find_first_split.
      exists b, a. by rewrite Ht, Hf.
  - split; [done|]. intros (_ & Hx & b & a & Heq & Hb). exfalso.
    assert (find_first (fun candidate => match probe_candidate access candidate with XE_kNone => true | _ => false end)
      (path_candidates (search_path env) argv0) = Some path) as Hs
      by (apply find_first_split; exists b, a; by rewrite Ht, Hf).
    congruence.
Qed.

(** A relative [PATH] segment gives a relative path. *)
Example resolve_relative_path :
  resolve_executable (fun _ => None) "python" "/work" {[ "PATH" := "bin:/usr/bin" ]}
  = mkResolved XE_kNone "bin/python" "".
Proof. reflexivity. Qed.

(** A job that [job::validate] accepts and [prepare] refuses: an argument after
    the first may be empty for the former only. *)
Definition empty_argument_spec : JobSpec :=
  let spec := example_spec in {| spec with argv := ["python"; ""] |}.

Example empty_argument_refused :
  spec_valid empty_argument_spec = true /\
  prepare example_adapter 7 empty_argument_spec example_assignment (mkProfile GM_kCudaVisibleDevices "")
    example_owner = Err (mkPrepareError LP_kInvalidSpec None "invalid argument").
Proof. split; vm_compute; reflexivity. Qed.

(** The version of an interpreter is read from its first line. *)
Example python_version_read : parse_python_version "Python 3.11.5" = Some "3.11.5".
Proof. reflexivity. Qed.
