(* ===== verification/Directories.v ===== *)
(** * Log directories: the directory checks of [src/runtime/job_manager.cpp]

    Before the daemon writes logs below its log root it checks that nobody but
    root and itself can replace a directory on the way there:
    [validate_directory_chain], [prepare_log_root] (at start) and
    [ensure_job_directory] (per job).  The file system is given by its answers
    to [lstat] and [mkdir]. *)

From stdpp Require Import pretty.
From S2P Require Import Prelude.
From S2P Require Import Job.
From S2P Require Import Launch.

(** ** Definitions *)

(** [struct stat], as far as the checks read it *)
Record FileStatus := mkStatus {
  st_mode : N;
  st_uid : N;
}.

Definition S_IFMT : N := 61440.
Definition S_ISLNK (mode : N) : bool := N.land mode S_IFMT =? 40960.
Definition S_ISDIR (mode : N) : bool := N.land mode S_IFMT =? 16384.

Definition EEXIST : Z := 17.

Section checks.
(** [strerror], [geteuid] *)
Context (strerror : Z -> string) (euid : N).

(** The lambda [check_prefix]; [lstat] answers the error number or the status. *)
Definition check_prefix (lstat : string -> Result Z FileStatus) (current : string) : Result string unit :=
  match lstat current with
  | Err errno => Err ("cannot stat " +:+ current +:+ ": " +:+ strerror errno)
  | Ok status =>
      reject_if S_ISLNK (st_mode status) || negb (S_ISDIR (st_mode status))
        with (current +:+ " is not a real directory");
      reject_if negb (st_uid status =? 0) && negb (st_uid status =? euid)
        with (current +:+ " is owned by uid " +:+ pretty (st_uid status)
              +:+ " (expected root or daemon euid)");
      reject_if negb (N.land (st_mode status) 18 =? 0) && (N.land (st_mode status) 512 =? 0)
        with (current +:+ " is group/world writable without the sticky bit");
      Ok tt
  end.

(** The loop over the characters of the path: [prefix] is what is before the
    current one. *)
Fixpoint chain_loop (check : string -> Result string unit) (prefix rest : string) : Result string unit :=
  match rest with
  | EmptyString => Ok tt
  | String c rest =>
      let? _ := if Ascii.eqb c "/"%char then check (if sempty prefix then "/" else prefix) else Ok tt in
      chain_loop check (prefix +:+ String c EmptyString) rest
  end.

Definition validate_directory_chain (lstat : string -> Result Z FileStatus) (path : string)
  : Result string unit :=
  reject_if sempty path || negb (front_is "/"%char path) with ("log root must be an absolute path: " +:+ path);
  let? _ := chain_loop (check_prefix lstat) EmptyString path in
  if negb (back_is "/"%char path) then check_prefix lstat path else Ok tt.

(** [path.substr(0, path.find_last_of('/'))] *)
Fixpoint before_last (c : ascii) (s : string) : option string :=
  match s with
  | EmptyString => None
  | String a s' =>
      match before_last c s' with
      | Some p => Some (String a p)
      | None => if Ascii.eqb a c then Some EmptyString else None
      end
  end.

(** [prepare_log_root]: [before] and [after] are the file system before and
    after the [mkdir]. *)
Definition prepare_log_root (before : string -> Result Z FileStatus) (mkdir : string -> option Z)
    (after : string -> Result Z FileStatus) (path : string) : Result string unit :=
  reject_if sempty path || negb (front_is "/"%char path) with ("log root must be an absolute path: " +:+ path);
  let last := default EmptyString (before_last "/"%char path) in
  let parent := if sempty last then "/" else last in
  let? _ := validate_directory_chain before parent in
  let? _ := match mkdir path with
            | Some errno => if negb (errno =? EEXIST)%Z
                            then Err ("mkdir " +:+ path +:+ " failed: " +:+ strerror errno) else Ok tt
            | None => Ok tt
            end in
  validate_directory_chain after path.

(** [ensure_job_directory]: the path of the job's directory *)
Definition ensure_job_directory (mkdir : string -> option Z) (lstat : string -> Result Z FileStatus)
    (root : string) (id : JobId) : Result string string :=
  let out := root +:+ "/" +:+ pretty id in
  let? _ := match mkdir out with
            | Some errno => if negb (errno =? EEXIST)%Z
                            then Err ("mkdir " +:+ out +:+ " failed: " +:+ strerror errno) else Ok tt
            | None => Ok tt
            end in
  match lstat out with
  | Err errno => Err ("cannot stat " +:+ out +:+ ": " +:+ strerror errno)
  | Ok status =>
      reject_if S_ISLNK (st_mode status) || negb (S_ISDIR (st_mode status))
        with (out +:+ " is not a real directory");
      reject_if negb (st_uid status =? 0) && negb (st_uid status =? euid)
        with (out +:+ " is owned by uid " +:+ pretty (st_uid status));
      Ok out
  end.

(** ** Specification *)

(** A real directory of root or the daemon that nobody else can change (a
    sticky one protects its entries) *)
Definition safe_directory (lstat : string -> Result Z FileStatus) (path : string) : Prop :=
  exists status, lstat path = Ok status /\ S_ISDIR (st_mode status) = true /\
    (st_uid status = 0 \/ st_uid status = euid) /\
    (N.land (st_mode status) 18 = 0 \/ N.land (st_mode status) 512 <> 0).

(** The directories on the way to [path] *)
Definition on_the_way (path dir : string) : Prop :=
  exists before after, path = before +:+ String "/"%char after /\
    dir = if sempty before then "/" else before.

(** ** Theorems *)

Lemma dir_not_link mode : S_ISDIR mode = true -> S_ISLNK mode = false.
Proof. unfold S_ISDIR, S_ISLNK. intros H%N.eqb_eq. by rewrite H. Qed.

Lemma check_prefix_iff lstat p : is_ok (check_prefix lstat p) = true <-> safe_directory lstat p.
Proof.
  unfold check_prefix, safe_directory. destruct (lstat p) as [status|e]; [|naive_solver].
  rewrite !is_ok_reject, orb_false_iff, !andb_false_iff, !negb_false_iff, !N.eqb_eq, N.eqb_neq.
  split.
  - intros (H1 & H2 & H3 & _). exists status. split_and!; try done; apply H1.
  - intros (? & [= <-] & H1 & H2 & H3). rewrite (dir_not_link _ H1). by split_and!.
Qed.

Lemma chain_loop_iff check prefix rest :
  is_ok (chain_loop check prefix rest) = true <->
  forall before after, rest = before +:+ String "/"%char after ->
    is_ok (check (if sempty (prefix +:+ before) then "/" else prefix +:+ before)) = true.
Proof.
  revert prefix. induction rest as [|c rest IH]; intros prefix; simpl.
  { split; [|done]. intros _ [|? ?] after H; discriminate H. }
  rewrite is_ok_bind_const, IH. split.
  - intros [Hc Hr] [|c' before] after; [rewrite append_empty_r|rewrite append_cons]; intros [= -> ->].
    + by rewrite Ascii.eqb_refl in Hc.
    + specialize (Hr before after eq_refl).
      by rewrite <- append_assoc, append_cons in Hr.
  - intros Hall. split.
    + destruct (Ascii.eqb_spec c "/"%char) as [->|]; [|done].
      specialize (Hall EmptyString rest eq_refl). by rewrite append_empty_r in Hall.
    + intros before after ->. specialize (Hall (String c before) after eq_refl).
      by rewrite <- append_assoc, append_cons.
Qed.

Lemma validate_chain_iff lstat path :
  is_ok (validate_directory_chain lstat path) = true <->
  front_is "/"%char path = true /\ (forall dir, on_the_way path dir -> safe_directory lstat dir) /\
  (back_is "/"%char path = false -> safe_directory lstat path).
Proof.
  unfold validate_directory_chain.
  rewrite is_ok_reject, is_ok_bind_const, chain_loop_iff, orb_false_iff, negb_false_iff.
  setoid_rewrite check_prefix_iff. unfold on_the_way. split.
  - intros ([_ ?] & Hc & Hl). split_and!; [done| |].
    + intros dir (b & a & -> & ->). by apply (Hc b a).
    + intros Hb. rewrite Hb in Hl. by apply check_prefix_iff.
  - intros (Hf & Hc & Hl). split_and!; [by destruct path|done| |].
    + intros b a ->. apply Hc. by exists b, a.
    + destruct (back_is _ path); [done|]. apply check_prefix_iff, Hl. done.
Qed.

(** The log root is trusted only when no directory on the way to it can be
    replaced by an ordinary user: [prepare_log_root] succeeds exactly when the
    path is absolute, every directory from [/] to the parent is a real
    directory of root or the daemon and not writable by others (unless sticky)
    before the root is made, the root exists or could be made, and afterwards
    the same holds of every directory from [/] to the root itself. *)
Theorem prepare_log_root_exact before mkdir after path :
  is_ok (prepare_log_root before mkdir after path) = true <->
  front_is "/"%char path = true /\
  (let parent := match before_last "/"%char path with Some p => if sempty p then "/" else p | None => "/" end in
   front_is "/"%char parent = true /\
   (forall dir, on_the_way parent dir -> safe_directory before dir) /\
   (back_is "/"%char parent = false -> safe_directory before parent)) /\
  (mkdir path = None \/ mkdir path = Some EEXIST) /\
  (forall dir, on_the_way path dir -> safe_directory after dir) /\
  (back_is "/"%char path = false -> safe_directory after path).
Proof.
  unfold prepare_log_root. rewrite is_ok_reject, !is_ok_bind_const, !validate_chain_iff.
  rewrite orb_false_iff, negb_false_iff.
  assert (match before_last "/"%char path with Some p => if sempty p then "/" else p | None => "/" end =
          (if sempty (default EmptyString (before_last "/"%char path)) then "/"
           else default EmptyString (before_last "/"%char path))) as ->
    by (destruct (before_last _ path); done).
  assert (is_ok (match mkdir path with
            | Some errno => if negb (errno =? EEXIST)%Z
                            then Err ("mkdir " +:+ path +:+ " failed: " +:+ strerror errno) else Ok tt
            | None => Ok tt
            end) = true <-> mkdir path = None \/ mkdir path = Some EEXIST) as Hm.
  { destruct (mkdir path) as [e|]; [|naive_solver].
    destruct (Z.eqb_spec e EEXIST); simpl; naive_solver. }
  rewrite Hm. cbv zeta. split; [tauto|]. intros (Hf & ?). split_and!; try tauto. by destruct path.
Qed.
End checks.
