(* ===== verification/GpuManager.v ===== *)
(** * GPU manager: [src/runtime/gpu_manager.hpp], [src/runtime/gpu_manager.cpp]

    Periodic sampling of the GPUs: each tick observes, validates, publishes the
    snapshot and announces state changes and error streaks on a bounded event
    channel.  The provider, the executor's [DoubleBuffer] and its channel are
    external: their answers are given to the definitions.  Ticks run on other
    threads than [stop]; [system_step] interleaves their atomic parts. *)

From S2P Require Import Prelude.
From S2P Require Import Job.
From S2P Require Import Gpu.

(** ** Data *)

Inductive GpuManagerEventKind := GM_kGpuStateChanged | GM_kErrorStreakStarted | GM_kErrorStreakEnded.

#[export] Instance GpuManagerEventKind_eq_dec : EqDecision GpuManagerEventKind.
Proof. solve_decision. Defined.

Record GpuManagerEvent := mkGpuEvent {
  ge_kind : GpuManagerEventKind;
  ge_revision : N;
  ge_error : GpuProviderErrorCode;
  ge_error_streak : N;
  ge_changed : list GpuUuid;
  ge_dropped_earlier_events : bool;
}.

Record GpuManagerStats := mkGpuStats {
  gt_ticks : N;
  gt_ticks_ok : N;
  gt_ticks_failed : N;
  gt_tick_exceptions : N;
  gt_snapshots_published : N;
  gt_publish_rejected : N;
  gt_state_change_events : N;
  gt_events_dropped : N;
  gt_skipped_overlapping_ticks : N;
  gt_error_streak : N;
  gt_last_error : GpuProviderErrorCode;
  gt_last_good_revision : N;
}.

(** Durations in milliseconds *)
Record GpuManagerConfig := mkGpuConfig {
  gc_sample_period : Z;
  gc_event_capacity : N;
  gc_stop_join_timeout : Z;
}.

Inductive GpuManagerStartCode :=
| GS_kStarted | GS_kAlreadyStarted | GS_kStopped | GS_kInvalidConfig | GS_kInitialObservationFailed | GS_kExecutorRejected.

Inductive GpuManagerStopCode := GQ_kStopped | GQ_kNotRunning | GQ_kAlreadyStopped | GQ_kJoinTimedOut.

Inductive SampleCode := SC_kOk | SC_kFailed | SC_kSkipped.

#[export] Instance SampleCode_eq_dec : EqDecision SampleCode.
Proof. solve_decision. Defined.

Notation StateMap := (gmap GpuUuid GpuObservedState).

(** [GpuManager::Impl]; [gm_latest] is what the double buffer holds, [gm_events]
    are the events the channel accepted. *)
Record GpuManager := mkGpuManager {
  gm_config : GpuManagerConfig;
  gm_started : bool;
  gm_stopped : bool;
  gm_baseline_established : bool;
  gm_stopping : bool;
  gm_tick_lock : bool;
  gm_baseline : StateMap;
  gm_latest : option GpuObservationSnapshot;
  gm_events : list GpuManagerEvent;
  gm_dropped_events_pending : bool;
  gm_stats : GpuManagerStats;
}.

(** What the outside answers during one sample: the provider (which may throw),
    [try_publish], [try_load], and [try_send] for the two events it may send. *)
Record SampleAnswers := mkAnswers {
  sa_observe : option GpuProviderResult;
  sa_publish : bool;
  sa_load : option GpuObservationSnapshot;
  sa_send_streak : bool;
  sa_send_change : bool;
}.

(** ** Operations *)

Definition new_gpu_manager (c : GpuManagerConfig) : GpuManager :=
  mkGpuManager c false false false false false ∅ None [] false (mkGpuStats 0 0 0 0 0 0 0 0 0 0 GP_kNone 0).

(** [emplace] keeps the first entry of a uuid. *)
Definition build_state_map (snapshot : GpuObservationSnapshot) : StateMap :=
  fold_left (fun states d => match states !! go_uuid d with
                             | Some _ => states
                             | None => <[go_uuid d := go_state d]> states
                             end) (gs_devices snapshot) ∅.

Definition diff_states (previous current : StateMap) : list GpuUuid :=
  (filter (fun x => previous !! x.1 <> Some x.2) (map_entries current)).*1
  ++ (filter (fun x => current !! x.1 = None) (map_entries previous)).*1.

(** [send_event]; [sent] is the answer of [try_send]. *)
Definition send_event (sent : bool) (event : GpuManagerEvent) (m : GpuManager) : bool * GpuManager :=
  let event := if gm_dropped_events_pending m then {| event with ge_dropped_earlier_events := true |} else event in
  if sent then (true, {| m with gm_events := gm_events m ++ [event]; gm_dropped_events_pending := false |})
  else
    let stats := gm_stats m in
    (false, {| m with gm_dropped_events_pending := true;
                      gm_stats := {| stats with gt_events_dropped := gt_events_dropped stats + 1 |} |}).

Definition record_failure (sent : bool) (error : GpuProviderErrorCode) (m : GpuManager) : GpuManager :=
  let stats := gm_stats m in
  let streak := gt_error_streak stats + 1 in
  let m1 := {| m with gm_stats := {| stats with gt_ticks_failed := gt_ticks_failed stats + 1;
                                                gt_last_error := error; gt_error_streak := streak |} |} in
  if streak =? 1 then (send_event sent (mkGpuEvent GM_kErrorStreakStarted 0 error streak [] false) m1).2 else m1.

Definition record_success (sent : bool) (revision : N) (m : GpuManager) : GpuManager :=
  let stats := gm_stats m in
  let streak := gt_error_streak stats in
  let m1 := {| m with gm_stats := {| stats with gt_ticks_ok := gt_ticks_ok stats + 1; gt_last_error := GP_kNone;
                                                gt_last_good_revision := revision; gt_error_streak := 0 |} |} in
  if 0 <? streak then (send_event sent (mkGpuEvent GM_kErrorStreakEnded revision GP_kNone streak [] false) m1).2 else m1.

Definition count_exception (m : GpuManager) : GpuManager :=
  let stats := gm_stats m in
  {| m with gm_stats := {| stats with gt_tick_exceptions := gt_tick_exceptions stats + 1 |} |}.

Definition count_publish_rejected (m : GpuManager) : GpuManager :=
  let stats := gm_stats m in
  {| m with gm_stats := {| stats with gt_publish_rejected := gt_publish_rejected stats + 1 |} |}.

Definition count_published (snapshot : GpuObservationSnapshot) (m : GpuManager) : GpuManager :=
  let stats := gm_stats m in
  {| m with gm_latest := Some snapshot;
            gm_stats := {| stats with gt_snapshots_published := gt_snapshots_published stats + 1 |} |}.

Definition count_change (m : GpuManager) : GpuManager :=
  let stats := gm_stats m in
  {| m with gm_stats := {| stats with gt_state_change_events := gt_state_change_events stats + 1 |} |}.

(** The end of [sample_once]: the changes against the baseline *)
Definition announce (sent : bool) (revision : N) (next_baseline : StateMap) (m : GpuManager) : GpuManager :=
  if negb (gm_baseline_established m)
  then {| m with gm_baseline := next_baseline; gm_baseline_established := true |}
  else
    match diff_states (gm_baseline m) next_baseline with
    | [] => {| m with gm_baseline := next_baseline |}
    | changed =>
        let '(ok, m1) := send_event sent (mkGpuEvent GM_kGpuStateChanged revision GP_kNone 0 changed false) m in
        if ok then let m2 := count_change m1 in {| m2 with gm_baseline := next_baseline |} else m1
    end.

(** [sample_once] once the lock is held *)
Definition sample_body (a : SampleAnswers) (m : GpuManager) : SampleCode * GpuManager :=
  match sa_observe a with
  | None => (SC_kFailed, record_failure (sa_send_streak a) GP_kObservationFailed (count_exception m))
  | Some observed =>
      if negb (bool_decide (pr_code observed = GP_kNone))
      then (SC_kFailed, record_failure (sa_send_streak a) (pr_code observed) m)
      else if negb (gpu_result_ok (gpu_validate (pr_snapshot observed)))
      then (SC_kFailed, record_failure (sa_send_streak a) GP_kObservationFailed m)
      else
        let revision := gs_revision (pr_snapshot observed) in
        if negb (sa_publish a) then (SC_kOk, count_publish_rejected m)
        else
          let m1 := record_success (sa_send_streak a) revision (count_published (pr_snapshot observed) m) in
          match sa_load a with
          | None => (SC_kOk, m1)
          | Some loaded =>
              if negb (gs_revision loaded =? revision) then (SC_kOk, m1)
              else (SC_kOk, announce (sa_send_change a) revision (build_state_map loaded) m1)
          end
  end.

(** [TickGuard]: taking the lock, or skipping *)
Definition tick_enter (m : GpuManager) : bool * GpuManager :=
  let stats := gm_stats m in
  if gm_tick_lock m
  then (false, {| m with gm_stats := {| stats with gt_skipped_overlapping_ticks := gt_skipped_overlapping_ticks stats + 1 |} |})
  else (true, {| m with gm_tick_lock := true; gm_stats := {| stats with gt_ticks := gt_ticks stats + 1 |} |}).

(** [sample_once] and the release of the lock *)
Definition sample_once (a : SampleAnswers) (m : GpuManager) : SampleCode * GpuManager :=
  if gm_stopping m then (SC_kSkipped, m)
  else
    let '(held, m1) := tick_enter m in
    if held then let '(code, m2) := sample_body a m1 in (code, {| m2 with gm_tick_lock := false |})
    else (SC_kSkipped, m1).

(** [start]; [submitted] is the executor's answer. *)
Definition gpu_start (a : SampleAnswers) (submitted : bool) (m : GpuManager)
  : GpuManagerStartCode * GpuProviderErrorCode * GpuManager :=
  if gm_stopped m then (GS_kStopped, GP_kNone, m)
  else if gm_started m then (GS_kAlreadyStarted, GP_kNone, m)
  else
    let c := gm_config m in
    if (gc_sample_period c <? 1)%Z || (24 * 3600 * 1000 <? gc_sample_period c)%Z || (gc_event_capacity c =? 0)
       || (gc_stop_join_timeout c <? 0)%Z
    then (GS_kInvalidConfig, GP_kNone, m)
    else
      let '(code, m1) := sample_once a m in
      if negb (bool_decide (code = SC_kOk)) then (GS_kInitialObservationFailed, gt_last_error (gm_stats m1), m1)
      else if negb submitted then (GS_kExecutorRejected, GP_kNone, m1)
      else (GS_kStarted, GP_kNone, {| m1 with gm_started := true |}).

(** [stop] up to its wait: [None] when it has to wait. *)
Definition stop_begin (m : GpuManager) : option GpuManagerStopCode * GpuManager :=
  if gm_stopped m then (Some GQ_kAlreadyStopped, m)
  else
    let m1 := {| m with gm_stopped := true; gm_stopping := true |} in
    if gm_started m then (None, {| m1 with gm_started := false |}) else (Some GQ_kNotRunning, m1).

(** One look of [stop] at the lock *)
Definition stop_poll (expired : bool) (m : GpuManager) : option GpuManagerStopCode :=
  if gm_tick_lock m then (if expired then Some GQ_kJoinTimedOut else None) else Some GQ_kStopped.

(** [try_get_snapshot]; [loaded] is the answer of [try_load]. *)
Definition try_get_snapshot (loaded : option GpuObservationSnapshot) : option GpuObservationSnapshot :=
  match loaded with
  | Some s => if gs_revision s =? 0 then None else Some s
  | None => None
  end.

Definition GpuManagerEventKind_to_string (kind : GpuManagerEventKind) : string :=
  match kind with
  | GM_kGpuStateChanged => "gpu state changed"
  | GM_kErrorStreakStarted => "error streak started"
  | GM_kErrorStreakEnded => "error streak ended"
  end.

Definition GpuManagerStartCode_to_string (code : GpuManagerStartCode) : string :=
  match code with
  | GS_kStarted => "started"
  | GS_kAlreadyStarted => "already started"
  | GS_kStopped => "stopped"
  | GS_kInvalidConfig => "invalid config"
  | GS_kInitialObservationFailed => "initial observation failed"
  | GS_kExecutorRejected => "executor rejected"
  end.

Definition GpuManagerStopCode_to_string (code : GpuManagerStopCode) : string :=
  match code with
  | GQ_kStopped => "stopped"
  | GQ_kNotRunning => "not running"
  | GQ_kAlreadyStopped => "already stopped"
  | GQ_kJoinTimedOut => "join timed out"
  end.

(** ** Interleavings

    A tick is three atomic parts: it reads [stopping], takes the lock (or
    skips), and samples and releases the lock.  [sy_checked] ticks are between
    the first two. *)

Record System := mkSystem {
  sy_manager : GpuManager;
  sy_checked : nat;
}.

Inductive system_op :=
| OpCheck
| OpEnter
| OpSample (a : SampleAnswers)
| OpStart (a : SampleAnswers) (submitted : bool)
| OpStop.

Definition system_step (op : system_op) (s : System) : System :=
  let m := sy_manager s in
  match op with
  | OpCheck => if gm_stopping m then s else mkSystem m (S (sy_checked s))
  | OpEnter => match sy_checked s with O => s | S n => mkSystem (tick_enter m).2 n end
  | OpSample a =>
      if gm_tick_lock m
      then let m1 := (sample_body a m).2 in mkSystem {| m1 with gm_tick_lock := false |} (sy_checked s)
      else s
  | OpStart a submitted => mkSystem (gpu_start a submitted m).2 (sy_checked s)
  | OpStop => mkSystem (stop_begin m).2 (sy_checked s)
  end.

Definition system_run (ops : list system_op) (s : System) : System := fold_left (fun s op => system_step op s) ops s.

(** A tick that nothing interrupts is the code's [sample_once]. *)
Lemma sample_once_steps a m :
  gm_stopping m = false -> gm_tick_lock m = false ->
  system_run [OpCheck; OpEnter; OpSample a] (mkSystem m 0) = mkSystem (sample_once a m).2 0.
Proof.
  intros Hs Hl. unfold system_run, sample_once. cbn [fold_left system_step sy_manager sy_checked]. rewrite Hs.
  cbn [sy_manager sy_checked]. destruct (tick_enter m) as [held m1] eqn:He. unfold tick_enter in He. rewrite Hl in He.
  injection He as <- <-. cbn. by destruct (sample_body a _).
Qed.

(** ** Announcements *)

Lemma elem_of_diff previous current u : u ∈ diff_states previous current <-> previous !! u <> current !! u.
Proof.
  unfold diff_states. rewrite elem_of_app, !list_elem_of_fmap. setoid_rewrite list_elem_of_filter. split.
  - intros [([v st] & -> & Hp & Hin)|([v st] & -> & Hc & Hin)]; apply elem_of_map_entries in Hin; simpl in *; congruence.
  - intros Hne. destruct (current !! u) as [st|] eqn:Hc.
    + left. exists (u, st). split_and!; [done|done|by apply elem_of_map_entries].
    + destruct (previous !! u) as [st|] eqn:Hp; [|done].
      right. exists (u, st). split_and!; [done|done|by apply elem_of_map_entries].
Qed.

Lemma diff_states_empty previous current : diff_states previous current = [] -> previous = current.
Proof.
  intros Hd. apply map_eq. intros u. destruct (decide (previous !! u = current !! u)) as [|Hne]; [done|].
  apply elem_of_diff in Hne. rewrite Hd in Hne. by apply not_elem_of_nil in Hne.
Qed.

Lemma NoDup_diff previous current : NoDup (diff_states previous current).
Proof.
  unfold diff_states. assert (forall (P : GpuUuid * GpuObservedState -> Prop) `{forall x, Decision (P x)} (m : StateMap),
    NoDup (filter P (map_entries m)).*1) as Hf.
  { intros P ? m. eapply (sublist_NoDup _ (map_entries m).*1); [apply NoDup_map_entries_keys|]. apply fmap_sublist.
    induction (map_entries m) as [|x l IH]; [done|]. rewrite filter_cons. case_decide; by constructor. }
  apply NoDup_app. split_and!; [apply Hf| |apply Hf].
  intros u Hu Hu2. apply list_elem_of_fmap in Hu as ([v st] & -> & [_ Hin]%list_elem_of_filter).
  apply list_elem_of_fmap in Hu2 as ([w st2] & Heq & [Hn _]%list_elem_of_filter). simpl in *. subst w.
  apply elem_of_map_entries in Hin. congruence.
Qed.

(** From [m] to [m']: events were only added; whatever changed in the announced
    states is listed by a new event; and dropped events are made known. *)
Record Announced (m m' : GpuManager) (new : list GpuManagerEvent) : Prop := {
  an_events : gm_events m' = gm_events m ++ new;
  an_established : gm_baseline_established m = true -> gm_baseline_established m' = true;
  an_changes : gm_baseline_established m = true -> forall u, gm_baseline m' !! u <> gm_baseline m !! u ->
    exists e, e ∈ new /\ ge_kind e = GM_kGpuStateChanged /\ u ∈ ge_changed e;
  an_dropped : gt_events_dropped (gm_stats m) < gt_events_dropped (gm_stats m') \/ gm_dropped_events_pending m = true ->
    gm_dropped_events_pending m' = true \/ exists e, e ∈ new /\ ge_dropped_earlier_events e = true;
  an_count : gt_events_dropped (gm_stats m) <= gt_events_dropped (gm_stats m');
}.

Lemma announced_trans m1 m2 m3 new1 new2 :
  Announced m1 m2 new1 -> Announced m2 m3 new2 -> Announced m1 m3 (new1 ++ new2).
Proof.
  intros [E1 B1 C1 D1 N1] [E2 B2 C2 D2 N2]. split.
  - by rewrite E2, E1, app_assoc.
  - auto.
  - intros He u Hu. destruct (decide (gm_baseline m2 !! u = gm_baseline m1 !! u)) as [Heq|Hne].
    + destruct (C2 (B1 He) u) as (e & ? & ?); [congruence|]. exists e. by split; [apply elem_of_app; right|].
    + destruct (C1 He u Hne) as (e & ? & ?). exists e. by split; [apply elem_of_app; left|].
  - intros Hd. assert ((gm_dropped_events_pending m2 = true \/ gt_events_dropped (gm_stats m2) < gt_events_dropped (gm_stats m3)) \/
      exists e, e ∈ new1 /\ ge_dropped_earlier_events e = true) as [Hp|(e & ? & ?)].
    { destruct Hd as [Hlt|Hp]; [|destruct D1 as [|]; auto].
      destruct (N.lt_ge_cases (gt_events_dropped (gm_stats m1)) (gt_events_dropped (gm_stats m2))).
      - destruct D1 as [|]; auto.
      - left. right. lia. }
    + destruct D2 as [|(e & ? & ?)]; [tauto|by left|]. right. exists e. by split; [apply elem_of_app; right|].
    + right. exists e. by split; [apply elem_of_app; left|].
  - lia.
Qed.

Lemma announced_refl m m' :
  gm_events m' = gm_events m -> gm_baseline_established m' = gm_baseline_established m -> gm_baseline m' = gm_baseline m ->
  gm_dropped_events_pending m' = gm_dropped_events_pending m ->
  gt_events_dropped (gm_stats m') = gt_events_dropped (gm_stats m) -> Announced m m' [].
Proof.
  intros He Hb Hm Hp Hd. split; [by rewrite He, app_nil_r|by rewrite Hb|by rewrite Hm| |lia].
  rewrite Hp, Hd. intros [|]; [lia|by left].
Qed.

Lemma send_event_announced sent event m : exists new, Announced m (send_event sent event m).2 new /\
  (sent = true -> exists e, new = [e] /\ ge_kind e = ge_kind event /\ ge_changed e = ge_changed event) /\
  gm_baseline_established (send_event sent event m).2 = gm_baseline_established m /\
  gm_baseline (send_event sent event m).2 = gm_baseline m.
Proof.
  unfold send_event. set (event' := if gm_dropped_events_pending m then _ else _).
  assert (ge_kind event' = ge_kind event /\ ge_changed event' = ge_changed event /\
    (gm_dropped_events_pending m = true -> ge_dropped_earlier_events event' = true)) as (K & C & F).
  { unfold event'. by destruct (gm_dropped_events_pending m). }
  destruct sent; simpl.
  - exists [event']. split_and!; try done; [|by exists event']. split; simpl; try done.
    intros [|Hp]; [lia|]. right. exists event'. split; [by apply list_elem_of_singleton|auto].
  - exists []. split_and!; try done. split; simpl; try done; [by rewrite app_nil_r|by left|lia].
Qed.

Lemma record_announced sent event m m1 (guard : bool) :
  Announced m m1 [] -> exists new, Announced m (if guard then (send_event sent event m1).2 else m1) new.
Proof.
  intros H1. destruct guard; [|by exists []].
  destruct (send_event_announced sent event m1) as (new & Ha & _). exists ([] ++ new). by eapply announced_trans.
Qed.

Lemma record_failure_announced sent error m : exists new, Announced m (record_failure sent error m) new.
Proof. apply record_announced. by apply announced_refl. Qed.

Lemma record_success_announced sent revision m : exists new, Announced m (record_success sent revision m) new.
Proof. apply record_announced. by apply announced_refl. Qed.

Lemma announce_announced sent revision next m : exists new, Announced m (announce sent revision next m) new.
Proof.
  unfold announce. destruct (gm_baseline_established m) eqn:Hb; simpl.
  - destruct (diff_states (gm_baseline m) next) as [|u0 changed] eqn:Hd.
    + exists []. apply diff_states_empty in Hd. subst next. by apply announced_refl.
    + rewrite <- Hd. destruct (send_event_announced sent
        (mkGpuEvent GM_kGpuStateChanged revision GP_kNone 0 (diff_states (gm_baseline m) next) false) m) as (new & Ha & Hs & Hb1 & Hm1).
      exists new. destruct (send_event _ _ m) as [ok m1] eqn:Hsend. simpl in *.
      assert (ok = sent) as -> by (unfold send_event in Hsend; destruct sent; by injection Hsend as <- _).
      destruct sent; [|done]. destruct (Hs eq_refl) as (e & -> & Hk & Hc). destruct Ha as [E B C D N].
      split; simpl; try done. intros _ u Hu. exists e.
      split; [by apply list_elem_of_singleton|]. split; [done|]. rewrite Hc. simpl. apply elem_of_diff. congruence.
  - exists []. split; simpl; try done; [by rewrite app_nil_r|by rewrite Hb|intros [|]; [lia|by left]].
Qed.

Lemma sample_body_announced a m : exists new, Announced m (sample_body a m).2 new.
Proof.
  unfold sample_body. destruct (sa_observe a) as [observed|]; simpl.
  2: { destruct (record_failure_announced (sa_send_streak a) GP_kObservationFailed (count_exception m)) as [new Ha].
       exists ([] ++ new). eapply announced_trans; [|exact Ha]. by apply announced_refl. }
  destruct (negb _); simpl; [apply record_failure_announced|].
  destruct (negb _); simpl; [apply record_failure_announced|].
  destruct (negb _); simpl; [exists []; by apply announced_refl|].
  destruct (record_success_announced (sa_send_streak a) (gs_revision (pr_snapshot observed))
    (count_published (pr_snapshot observed) m)) as [new1 H1].
  set (m1 := record_success _ _ _) in *.
  assert (Announced m m1 new1) as H1'.
  { change new1 with ([] ++ new1). eapply announced_trans; [|exact H1]. by apply announced_refl. }
  destruct (sa_load a) as [loaded|]; [|by exists new1]. destruct (negb _); simpl; [by exists new1|].
  destruct (announce_announced (sa_send_change a) (gs_revision (pr_snapshot observed)) (build_state_map loaded) m1) as [new2 H2].
  exists (new1 ++ new2). by eapply announced_trans.
Qed.

(** Setting the flags of the manager announces nothing. *)
Lemma announced_frame m m1 m' new :
  Announced m m1 new -> gm_events m' = gm_events m1 -> gm_baseline_established m' = gm_baseline_established m1 ->
  gm_baseline m' = gm_baseline m1 -> gm_dropped_events_pending m' = gm_dropped_events_pending m1 ->
  gt_events_dropped (gm_stats m') = gt_events_dropped (gm_stats m1) -> Announced m m' new.
Proof.
  intros Ha ?????. rewrite <- (app_nil_r new). eapply announced_trans; [exact Ha|]. by apply announced_refl.
Qed.

Lemma tick_enter_announced m : Announced m (tick_enter m).2 [].
Proof. unfold tick_enter. destruct (gm_tick_lock m); by apply announced_refl. Qed.

Lemma sample_once_announced a m : exists new, Announced m (sample_once a m).2 new.
Proof.
  unfold sample_once. destruct (gm_stopping m); [exists []; by apply announced_refl|].
  pose proof (tick_enter_announced m) as H1. destruct (tick_enter m) as [held m1]. simpl in H1.
  destruct held; [|by exists []]. destruct (sample_body_announced a m1) as [new H2].
  destruct (sample_body a m1) as [code m2]. exists ([] ++ new). eapply announced_frame; [by eapply announced_trans|done..].
Qed.

Lemma system_step_announced op s : exists new, Announced (sy_manager s) (sy_manager (system_step op s)) new.
Proof.
  destruct op as [| |a|a submitted|]; simpl.
  - exists []. destruct (gm_stopping _); by apply announced_refl.
  - exists []. destruct (sy_checked s); [by apply announced_refl|apply tick_enter_announced].
  - destruct (gm_tick_lock _); [|exists []; by apply announced_refl].
    destruct (sample_body_announced a (sy_manager s)) as [new Ha]. exists new. by eapply announced_frame.
  - destruct (sample_once_announced a (sy_manager s)) as [new Ha]. unfold gpu_start.
    repeat case_match; simplify_eq/=; try (exists []; by apply announced_refl); exists new; by eapply announced_frame.
  - exists []. unfold stop_begin. repeat case_match; by apply announced_refl.
Qed.

(** ** The published state *)

(** [running] ticks are counted whose outcome is not. *)
Record GpuOk (running : N) (m : GpuManager) : Prop := {
  gk_latest : forall s, gm_latest m = Some s -> SnapshotOk s;
  gk_ticks : gt_ticks (gm_stats m) = gt_ticks_ok (gm_stats m) + gt_ticks_failed (gm_stats m)
    + gt_publish_rejected (gm_stats m) + running;
  gk_published : gt_snapshots_published (gm_stats m) = gt_ticks_ok (gm_stats m);
  gk_exceptions : gt_tick_exceptions (gm_stats m) <= gt_ticks_failed (gm_stats m);
  gk_streak : gt_error_streak (gm_stats m) = 0 <-> gt_last_error (gm_stats m) = GP_kNone;
}.

Lemma send_event_ok running sent event m :
  GpuOk running m -> GpuOk running (send_event sent event m).2 /\ gm_tick_lock (send_event sent event m).2 = gm_tick_lock m.
Proof. intros [H1 H2 H3 H4 H5]. unfold send_event. by destruct sent. Qed.

Lemma announce_ok running sent revision next m :
  GpuOk running m -> GpuOk running (announce sent revision next m) /\ gm_tick_lock (announce sent revision next m) = gm_tick_lock m.
Proof.
  intros Hm. unfold announce. destruct (gm_baseline_established m); simpl; [|by destruct Hm].
  destruct (diff_states _ _) as [|u changed]; [by destruct Hm|].
  destruct (send_event_ok running sent (mkGpuEvent GM_kGpuStateChanged revision GP_kNone 0 (u :: changed) false) m Hm) as [H1 H2].
  destruct (send_event _ _ _) as [ok m1]. destruct ok; [|done]. by destruct H1.
Qed.

(** The two records end a running tick. *)
Lemma record_failure_ok sent error (threw : bool) m :
  error <> GP_kNone -> GpuOk 1 m ->
  let m' := record_failure sent error (if threw then count_exception m else m) in
  GpuOk 0 m' /\ gm_tick_lock m' = gm_tick_lock m.
Proof.
  intros He [H1 H2 H3 H4 H5]. unfold record_failure. set (m0 := if threw then _ else m).
  set (m1 := {| m0 with gm_stats := _ |}).
  assert (GpuOk 0 m1 /\ gm_tick_lock m1 = gm_tick_lock m) as [Hm1 Hl].
  { unfold m1, m0. destruct threw; split; try done; (split; simpl; try done; [lia|lia|split; [lia|done]]). }
  cbn zeta. rewrite <- Hl. destruct (_ =? 1); [|done]. by apply send_event_ok.
Qed.

Lemma record_success_ok sent revision snapshot m :
  SnapshotOk snapshot -> GpuOk 1 m ->
  let m' := record_success sent revision (count_published snapshot m) in GpuOk 0 m' /\ gm_tick_lock m' = gm_tick_lock m.
Proof.
  intros Hs [H1 H2 H3 H4 H5]. unfold record_success. set (m1 := {| (count_published snapshot m) with gm_stats := _ |}).
  assert (GpuOk 0 m1) as Hm1 by (split; simpl; try done; [by intros ? [= <-]|lia|lia]).
  cbn zeta. destruct (0 <? _); [|done]. by destruct (send_event_ok 0 sent (mkGpuEvent GM_kErrorStreakEnded revision GP_kNone
    (gt_error_streak (gm_stats m)) [] false) m1 Hm1).
Qed.

Lemma sample_body_ok a m :
  GpuOk 1 m -> GpuOk 0 (sample_body a m).2 /\ gm_tick_lock (sample_body a m).2 = gm_tick_lock m.
Proof.
  intros Hm. unfold sample_body. destruct (sa_observe a) as [observed|].
  2: { by apply (record_failure_ok _ _ true m). }
  case_bool_decide as Hcode; simpl; [|by apply (record_failure_ok _ _ false m)].
  destruct (gpu_result_ok _) eqn:Hv; simpl; [|by apply (record_failure_ok _ _ false m)].
  apply gpu_valid_iff in Hv. destruct (sa_publish a); simpl.
  2: { destruct Hm. split; [|done]. split; simpl; try done; lia. }
  destruct (record_success_ok (sa_send_streak a) (gs_revision (pr_snapshot observed)) (pr_snapshot observed) m Hv Hm) as [H1 H2].
  destruct (sa_load a) as [loaded|]; [|done]. destruct (negb _); [done|]. simpl. rewrite <- H2. by apply announce_ok.
Qed.

(** A tick, from taking the lock to releasing it *)
Definition running (m : GpuManager) : N := if gm_tick_lock m then 1 else 0.

Lemma unlock_ok m : GpuOk 0 m -> let m' := {| m with gm_tick_lock := false |} in GpuOk (running m') m'.
Proof. by intros []. Qed.

Lemma tick_enter_ok m : GpuOk (running m) m -> GpuOk (running (tick_enter m).2) (tick_enter m).2.
Proof.
  unfold running, tick_enter. intros []. destruct (gm_tick_lock m) eqn:Hl; simpl; rewrite ?Hl; split; simpl; try done; lia.
Qed.

Lemma sample_once_ok a m : GpuOk (running m) m -> GpuOk (running (sample_once a m).2) (sample_once a m).2.
Proof.
  intros Hm. unfold sample_once. destruct (gm_stopping m); [done|].
  pose proof (tick_enter_ok m Hm) as H1. destruct (tick_enter m) as [held m1] eqn:He. simpl in H1.
  destruct held; [|done]. assert (gm_tick_lock m1 = true) as Hl.
  { unfold tick_enter in He. destruct (gm_tick_lock m); [done|]. by injection He as <-. }
  unfold running in H1. rewrite Hl in H1. destruct (sample_body_ok a m1 H1) as [H2 _].
  destruct (sample_body a m1) as [code m2]. by apply unlock_ok.
Qed.

Lemma system_step_ok op s :
  GpuOk (running (sy_manager s)) (sy_manager s) ->
  GpuOk (running (sy_manager (system_step op s))) (sy_manager (system_step op s)).
Proof.
  intros Hm. destruct op as [| |a|a submitted|]; simpl.
  - by destruct (gm_stopping _).
  - destruct (sy_checked s); [done|by apply tick_enter_ok].
  - destruct (gm_tick_lock (sy_manager s)) eqn:Hl; [|done]. unfold running in Hm. rewrite Hl in Hm.
    apply (unlock_ok (sample_body a (sy_manager s)).2). by apply sample_body_ok.
  - pose proof (sample_once_ok a _ Hm) as H1. unfold gpu_start.
    destruct (gm_stopped _); [done|]. destruct (gm_started _); [done|]. destruct (_ || _); [done|].
    destruct (sample_once a (sy_manager s)) as [code m1]. destruct (negb _); [done|]. destruct submitted; [by destruct H1|done].
  - unfold stop_begin. destruct (gm_stopped _); [done|]. by destruct (gm_started _), Hm.
Qed.

(** C24. The GPU manager is trustworthy under any interleaving of ticks, [start]
    and [stop]: the published snapshot is always a valid one; every counted
    tick is accounted for by exactly one outcome; between any two moments the
    events delivered list every device whose announced state differs between
    them (a change whose event the full channel refused is announced by a later
    one); and when an event was dropped, a delivered event says so, or the next
    one will. *)
Theorem gpu_session config ops1 ops2 :
  let s1 := system_run ops1 (mkSystem (new_gpu_manager config) 0) in
  let s2 := system_run ops2 s1 in
  GpuOk (running (sy_manager s2)) (sy_manager s2) /\
  exists new, Announced (sy_manager s1) (sy_manager s2) new.
Proof.
  assert (forall ops s, GpuOk (running (sy_manager s)) (sy_manager s) ->
    GpuOk (running (sy_manager (system_run ops s))) (sy_manager (system_run ops s)) /\
    exists new, Announced (sy_manager s) (sy_manager (system_run ops s)) new) as Hrun.
  { induction ops as [|op ops IH]; intros s Hs; [split; [done|]; exists []; by apply announced_refl|].
    destruct (IH _ (system_step_ok op s Hs)) as [Hok [new2 H2]]. split; [done|].
    destruct (system_step_announced op s) as [new1 H1]. exists (new1 ++ new2). by eapply announced_trans. }
  cbn zeta. apply Hrun. apply Hrun. by split.
Qed.

(** ** One tick *)

(** The map is what the devices say. *)
Lemma build_state_map_lookup s u :
  match build_state_map s !! u with
  | Some st => exists d, d ∈ gs_devices s /\ go_uuid d = u /\ go_state d = st
  | None => forall d, d ∈ gs_devices s -> go_uuid d <> u
  end.
Proof.
  unfold build_state_map. set (f := fun states d => _).
  assert (forall l acc, match fold_left f l acc !! u with
    | Some st => acc !! u = Some st \/ exists d, d ∈ l /\ go_uuid d = u /\ go_state d = st
    | None => acc !! u = None /\ forall d, d ∈ l -> go_uuid d <> u end) as Hf.
  { induction l as [|d l IH]; intros acc; simpl; [destruct (acc !! u); [by left|by split; [|intros d Hd%not_elem_of_nil]]|].
    specialize (IH (f acc d)). assert (f acc d !! u = acc !! u \/
      acc !! u = None /\ go_uuid d = u /\ f acc d !! u = Some (go_state d)) as Hstep.
    { unfold f. destruct (acc !! go_uuid d) eqn:E; [by left|]. destruct (decide (go_uuid d = u)) as [<-|Hne].
      - right. by rewrite lookup_insert_eq.
      - left. by rewrite lookup_insert_ne. }
    destruct (fold_left f l (f acc d) !! u) as [st|].
    - destruct IH as [Ha|(d' & ? & ? & ?)]; [|right; exists d'; by split_and!; [right|..]].
      destruct Hstep as [Hs|(_ & ? & Hs)]; [left; congruence|]. right. exists d. split_and!; [by left|done|congruence].
    - destruct IH as [Ha Hl]. destruct Hstep as [Hs|(_ & _ & Hs)]; [|congruence]. split; [congruence|].
      intros d' [->|Hin]%elem_of_cons; [|by apply Hl]. intros Hu. subst u. unfold f in Ha.
      destruct (acc !! go_uuid d) eqn:E; [congruence|]. by rewrite lookup_insert_eq in Ha. }
  specialize (Hf (gs_devices s) ∅). destruct (fold_left f (gs_devices s) ∅ !! u); [|by destruct Hf].
  destruct Hf as [H|H]; [|done]. by rewrite lookup_empty in H.
Qed.

Lemma record_success_effect sent revision m :
  let m' := record_success sent revision m in
  exists new, gm_events m' = gm_events m ++ new /\ Forall (fun e => ge_kind e = GM_kErrorStreakEnded) new /\
    gm_baseline m' = gm_baseline m /\ gm_baseline_established m' = gm_baseline_established m /\ gm_latest m' = gm_latest m.
Proof.
  unfold record_success, send_event. cbn zeta. destruct (0 <? _); [|exists []; split_and!; try done; by rewrite app_nil_r].
  destruct sent; simpl.
  - eexists. split_and!; try done. constructor; [|done]. by destruct (gm_dropped_events_pending m).
  - exists []. split_and!; try done. by rewrite app_nil_r.
Qed.

Lemma announce_effect sent revision next m :
  gm_baseline_established m = true ->
  let changed := diff_states (gm_baseline m) next in
  let m' := announce sent revision next m in
  gm_baseline m' = (if sent then next else gm_baseline m) /\ gm_latest m' = gm_latest m /\
  gm_events m' = gm_events m ++ (if sent && negb (bool_decide (changed = []))
    then [mkGpuEvent GM_kGpuStateChanged revision GP_kNone 0 changed (gm_dropped_events_pending m)] else []).
Proof.
  intros Hb. unfold announce, send_event. rewrite Hb. simpl.
  destruct (diff_states (gm_baseline m) next) as [|u l] eqn:Hd; simpl.
  - rewrite andb_false_r, app_nil_r. apply diff_states_empty in Hd. subst next. by destruct sent.
  - destruct sent; simpl; [|by rewrite app_nil_r]. by destruct (gm_dropped_events_pending m).
Qed.

(** A tick announces exactly what changed: on a valid observation that is
    published and read back, the snapshot becomes the published one; the
    devices listed are, each once, those that appeared, disappeared or changed
    state since the last announcement (telemetry alone lists none), and an
    event is sent only when there is one; if the channel takes it the
    observed states become the announced ones, and otherwise the announced ones
    stay, so the change is announced again. *)
Theorem tick_exact a m r :
  gm_stopping m = false -> gm_tick_lock m = false -> gm_baseline_established m = true ->
  sa_observe a = Some r -> pr_code r = GP_kNone -> SnapshotOk (pr_snapshot r) ->
  sa_publish a = true -> sa_load a = Some (pr_snapshot r) ->
  let next := build_state_map (pr_snapshot r) in
  let changed := diff_states (gm_baseline m) next in
  let '(code, m') := sample_once a m in
  code = SC_kOk /\ gm_tick_lock m' = false /\ gm_latest m' = Some (pr_snapshot r) /\
  NoDup changed /\ (forall u, u ∈ changed <-> gm_baseline m !! u <> next !! u) /\
  gm_baseline m' = (if sa_send_change a then next else gm_baseline m) /\
  exists streak flag, Forall (fun e => ge_kind e = GM_kErrorStreakEnded) streak /\
    gm_events m' = gm_events m ++ streak ++ (if sa_send_change a && negb (bool_decide (changed = []))
      then [mkGpuEvent GM_kGpuStateChanged (gs_revision (pr_snapshot r)) GP_kNone 0 changed flag] else []).
Proof.
  intros Hs Hl Hb Ho Hc Hv Hp Hld. cbn zeta. unfold sample_once. rewrite Hs.
  destruct (tick_enter m) as [held m1] eqn:He. unfold tick_enter in He. rewrite Hl in He. injection He as <- He.
  assert (gm_baseline m1 = gm_baseline m /\ gm_baseline_established m1 = true /\ gm_events m1 = gm_events m) as (B1 & Eb1 & E1)
    by (by rewrite <- He).
  clear He. unfold sample_body. rewrite Ho, Hc, Hp, Hld.
  rewrite bool_decide_eq_true_2 by done. apply gpu_valid_iff in Hv. rewrite Hv, N.eqb_refl. cbn [negb].
  destruct (record_success_effect (sa_send_streak a) (gs_revision (pr_snapshot r)) (count_published (pr_snapshot r) m1))
    as (streak & E2 & K2 & B2 & Eb2 & L2).
  set (m2 := record_success _ _ _) in *.
  destruct (announce_effect (sa_send_change a) (gs_revision (pr_snapshot r)) (build_state_map (pr_snapshot r)) m2) as (B3 & L3 & E3);
    [by rewrite Eb2|].
  set (m3 := announce _ _ _ m2) in *. simpl in B2. rewrite B2, B1 in B3, E3. simpl. split_and!; try done.
  - by rewrite L3, L2.
  - apply NoDup_diff.
  - intros u. apply elem_of_diff.
  - exists streak, (gm_dropped_events_pending m2). split; [done|]. by rewrite E3, E2, <- app_assoc; simpl; rewrite E1.
Qed.

(** ** Stopping *)

Lemma stopped_quiet s ops :
  sy_checked s = O -> gm_stopped (sy_manager s) = true -> gm_stopping (sy_manager s) = true ->
  gm_tick_lock (sy_manager s) = false -> system_run ops s = s.
Proof.
  intros Hc Hd Hs Hl. unfold system_run. induction ops as [|op ops IH]; simpl; [done|].
  replace (system_step op s) with s; [done|]. destruct s as [m n]. simpl in *. subst n.
  destruct op as [| |a|a submitted|]; simpl; [by rewrite Hs|done|by rewrite Hl|unfold gpu_start; by rewrite Hd|].
  unfold stop_begin. by rewrite Hd.
Qed.

(** No step clears the two flags, and a stopping manager lets no tick in. *)
Lemma send_event_flags sent event m :
  let m' := (send_event sent event m).2 in gm_stopped m' = gm_stopped m /\ gm_stopping m' = gm_stopping m.
Proof. unfold send_event. by destruct sent. Qed.

Lemma sample_body_flags a m :
  let m' := (sample_body a m).2 in gm_stopped m' = gm_stopped m /\ gm_stopping m' = gm_stopping m.
Proof.
  unfold sample_body, record_failure, record_success, announce, send_event. cbn zeta.
  repeat (case_match; simplify_eq/=; try done).
Qed.

Lemma stopping_kept ops s :
  gm_stopped (sy_manager s) = true -> gm_stopping (sy_manager s) = true -> sy_checked s = O ->
  let s' := system_run ops s in
  gm_stopped (sy_manager s') = true /\ gm_stopping (sy_manager s') = true /\ sy_checked s' = O.
Proof.
  revert s. induction ops as [|op ops IH]; intros s Hd Hs Hc; [done|]. apply (IH (system_step op s)); clear IH.
  all: destruct op as [| |a|a submitted|]; simpl; rewrite ?Hs, ?Hc; try done.
  all: try (destruct (gm_tick_lock _); [|done]; simpl; destruct (sample_body_flags a (sy_manager s)); congruence).
  all: unfold gpu_start, stop_begin; by rewrite Hd.
Qed.

(** [stop] joins: if no tick is between reading [stopping] and taking the lock
    when it sets that flag, then once it has seen the lock free and answered
    "stopped", no tick changes anything any more, so the provider can be
    destroyed. *)
Theorem stop_joins s ops1 ops2 :
  sy_checked s = O -> (stop_begin (sy_manager s)).1 = None ->
  let s1 := system_run ops1 (system_step OpStop s) in
  stop_poll false (sy_manager s1) = Some GQ_kStopped -> system_run ops2 s1 = s1.
Proof.
  intros Hc Hb. cbn zeta. unfold stop_begin in Hb. destruct (gm_stopped (sy_manager s)) eqn:Hd; [done|].
  destruct (gm_started (sy_manager s)) eqn:Hst; [|done].
  destruct (stopping_kept ops1 (system_step OpStop s)) as (H1 & H2 & H3);
    [simpl; unfold stop_begin; by rewrite Hd, Hst|simpl; unfold stop_begin; by rewrite Hd, Hst|done|].
  intros Hpoll. unfold stop_poll in Hpoll. apply stopped_quiet; try done.
  by destruct (gm_tick_lock (sy_manager (system_run ops1 (system_step OpStop s)))).
Qed.

(** ** Examples and witnesses *)

Definition example_device (state : GpuObservedState) : GpuObservation :=
  mkObservation "GPU-0" 0 state (mkTelemetry None None None).

Definition example_observation (revision : N) (state : GpuObservedState) : GpuProviderResult :=
  mkProviderResult GP_kNone (mkGpuSnapshot revision 1 [example_device state]).

Definition example_answers (revision : N) (state : GpuObservedState) (sent : bool) : SampleAnswers :=
  let r := example_observation revision state in mkAnswers (Some r) true (Some (pr_snapshot r)) true sent.

Definition example_started : GpuManager :=
  (gpu_start (example_answers 1 GO_kFree true) true (new_gpu_manager (mkGpuConfig 5000 64 10000))).2.

(** A tick that has read [stopping] before [stop] sets it, and takes the lock
    after [stop] has looked at it: [stop] answers "stopped" and the tick then
    calls the provider. *)
Example stop_race :
  let s := system_run [OpCheck; OpStop] (mkSystem example_started 0) in
  stop_poll false (sy_manager s) = Some GQ_kStopped /\
  gm_latest (sy_manager (system_run [OpEnter; OpSample (example_answers 2 GO_kExternalBusy true)] s))
    <> gm_latest (sy_manager s).
Proof. vm_compute. split; [reflexivity|discriminate]. Qed.

(** A refused event is sent again. *)
Example change_sent_again :
  let m1 := (sample_once (example_answers 2 GO_kExternalBusy false) example_started).2 in
  let m2 := (sample_once (example_answers 3 GO_kExternalBusy true) m1).2 in
  gm_events m1 = [] /\ gm_events m2 = [mkGpuEvent GM_kGpuStateChanged 3 GP_kNone 0 ["GPU-0"] true].
Proof. vm_compute. done. Qed.

Lemma tick_exact_witness :
  let m' := (sample_once (example_answers 2 GO_kExternalBusy true) example_started).2 in
  gm_latest m' = Some (pr_snapshot (example_observation 2 GO_kExternalBusy)).
Proof.
  pose proof (tick_exact (example_answers 2 GO_kExternalBusy true) example_started (example_observation 2 GO_kExternalBusy)
    eq_refl eq_refl eq_refl eq_refl eq_refl (proj1 (gpu_valid_iff (pr_snapshot (example_observation 2 GO_kExternalBusy))) eq_refl)
    eq_refl eq_refl) as H.
  cbn zeta in *. destruct (sample_once (example_answers 2 GO_kExternalBusy true) example_started) as [code m'].
  exact (proj1 (proj2 (proj2 H))).
Defined.

Lemma stop_joins_witness :
  let s1 := system_run [OpCheck] (system_step OpStop (mkSystem example_started 0)) in
  system_run [OpEnter; OpSample (example_answers 2 GO_kExternalBusy true)] s1 = s1.
Proof.
  apply (stop_joins (mkSystem example_started 0) [OpCheck] [OpEnter; OpSample (example_answers 2 GO_kExternalBusy true)]);
    vm_compute; reflexivity.
Defined.
