(* ===== verification/ExitMonitor.v ===== *)
(** * Exit monitor: [src/runtime/process_exit_monitor.hpp],
    [src/runtime/process_exit_monitor.cpp]

    One worker watches the processes of running jobs: it registers identities,
    reaps exited children, notices that adopted processes are gone, and delivers
    each exit as one event.  The kernel's process table is the class
    [ProcessTable] with the contract [ProcessTableLaws]; sending an event to the
    executor's channel is retried until it is accepted or the monitor is being
    stopped, and the executor may refuse the timer of adopted processes:
    [Delivery] tells how that goes. *)

From S2P Require Import Prelude.
From S2P Require Import Job.
From S2P Require Import Store.
From S2P Require Import Supervisor.

(** ** Data *)

(** [ExitEvent] *)
Record ExitEvent := mkExitEvent {
  xe_pid : Z;
  xe_identity : ProcessIdentity;
  xe_status : ExitStatus;
  xe_identity_verified : bool;
}.

Inductive ExitMonitorStartCode := XS_kStarted | XS_kAlreadyStarted | XS_kWorkerRejected | XS_kSignalInstallFailed.

Inductive ExitRegisterCode :=
| XR_kRegistered | XR_kNotStarted | XR_kInvalidIdentity | XR_kDuplicate | XR_kChannelFull | XR_kAckTimeout | XR_kStopped.

Inductive ExitUnregisterCode := XU_kUnregistered | XU_kNotStarted | XU_kNotFound | XU_kChannelFull | XU_kAckTimeout.

#[export] Instance ExitRegisterCode_eq_dec : EqDecision ExitRegisterCode.
Proof. solve_decision. Defined.

#[export] Instance ExitUnregisterCode_eq_dec : EqDecision ExitUnregisterCode.
Proof. solve_decision. Defined.

Record RegistryEntry := mkRegistryEntry {
  re_identity : ProcessIdentity;
  re_adopted : bool;
}.

(** [ReaperWorker] and the timer state of [ProcessExitMonitor::Impl];
    [xm_events] are the events the channel accepted. *)
Record Monitor := mkMonitor {
  xm_registry : gmap Z RegistryEntry;
  xm_events : list ExitEvent;
  xm_delivery_retries : N;
  xm_worker_stopping : bool;
  xm_timer_active : bool;
  xm_timer_failures : N;
}.

Definition new_monitor : Monitor := mkMonitor ∅ [] 0 false false 0.

(** How a delivery goes: how often the channel was full, whether the owner called
    [stop] before the event was accepted, and, where the timer is submitted,
    whether the executor takes it *)
Record Delivery := mkDelivery {
  dl_retries : N;
  dl_given_up : bool;
  dl_submitted : bool;
}.

(** The kernel: [read_process_start_ticks] and [waitpid(pid, _, WNOHANG)] *)
Class ProcessTable (K : Type) := {
  proc_start_ticks : Z -> K -> option N;
  waitpid_nohang : Z -> K -> WaitAnswer * K;
}.

Definition ECHILD : Z := 10.

(** ** Operations *)

Definition any_adopted (registry : gmap Z RegistryEntry) : bool :=
  existsb (fun x => re_adopted x.2) (map_to_list registry).

(** [sync_adopted_timer]; [submitted] is the executor's answer. *)
Definition sync_adopted_timer (submitted any : bool) (m : Monitor) : Monitor :=
  if xm_worker_stopping m then m
  else if any && negb (xm_timer_active m) then
    if submitted then {| m with xm_timer_active := true |}
    else {| m with xm_timer_failures := xm_timer_failures m + 1 |}
  else if negb any && xm_timer_active m then {| m with xm_timer_active := false |}
  else m.

(** [update_adopted_timer] after a change of the registry *)
Definition set_registry (submitted : bool) (registry : gmap Z RegistryEntry) (m : Monitor) : Monitor :=
  sync_adopted_timer submitted (any_adopted registry) {| m with xm_registry := registry |}.

(** [stop_adopted_timer] and the flag [stop] sets *)
Definition monitor_stop (m : Monitor) : Monitor :=
  {| m with xm_worker_stopping := true; xm_timer_active := false |}.

(** [deliver]: nothing is sent once the monitor is being stopped. *)
Definition deliver (d : Delivery) (event : ExitEvent) (pid : Z) (m : Monitor) : Monitor :=
  let m1 := set_registry (dl_submitted d) (delete pid (xm_registry m)) m in
  if xm_worker_stopping m1 then m1
  else
    let m2 := {| m1 with xm_delivery_retries := xm_delivery_retries m1 + dl_retries d |} in
    if dl_given_up d then monitor_stop m2 else {| m2 with xm_events := xm_events m2 ++ [event] |}.

#[global] Arguments deliver : simpl never.

Section operations.
Context {K : Type} `{ProcessTable K}.

(** [scan_one] *)
Definition scan_one (d : Delivery) (pid : Z) (entry : RegistryEntry) (m : Monitor) (k : K)
  : Monitor * K :=
  let gone := mkExitEvent pid (re_identity entry) no_exit false in
  if negb (bool_decide (proc_start_ticks pid k = Some (pi_start_ticks (re_identity entry))))
  then (deliver d gone pid m, k)
  else if re_adopted entry then (m, k)
  else
    match waitpid_nohang pid k with
    | (WaitNone, k1) => (m, k1)
    | (WaitReaped raw, k1) =>
        (deliver d (mkExitEvent pid (re_identity entry) (status_from_wait raw) true) pid m, k1)
    | (WaitFailed errno, k1) => (if (errno =? ECHILD)%Z then deliver d gone pid m else m, k1)
    end.

(** [scan_registered]; the order stands for that of the code's hash table.  When
    a stop is requested meanwhile, only the first [seen] pids are visited. *)
Definition scan_registered (d : Z -> Delivery) (seen : option nat) (m : Monitor) (k : K) : Monitor * K :=
  let pids := (map_to_list (xm_registry m)).*1 in
  fold_left (fun '(m, k) pid =>
               match xm_registry m !! pid with
               | Some entry => scan_one (d pid) pid entry m k
               | None => (m, k)
               end) (match seen with Some n => take n pids | None => pids end) (m, k).

(** [apply_register] *)
Definition apply_register (d : Delivery) (submitted : bool) (identity : ProcessIdentity) (m : Monitor) (k : K)
  : ExitRegisterCode * string * Monitor * K :=
  let pid := pi_pid identity in
  if negb (identity_valid identity) then (XR_kInvalidIdentity, "invalid identity", m, k)
  else
    match xm_registry m !! pid with
    | Some _ => (XR_kDuplicate, "pid already registered", m, k)
    | None =>
        let '(probed, k1) := waitpid_nohang pid k in
        let adopted := match probed with WaitFailed errno => (errno =? ECHILD)%Z | _ => false end in
        let entry := mkRegistryEntry identity adopted in
        let m1 := set_registry submitted (<[pid := entry]> (xm_registry m)) m in
        match probed with
        | WaitReaped raw =>
            (XR_kRegistered, "", deliver d (mkExitEvent pid identity (status_from_wait raw) true) pid m1, k1)
        | _ =>
            let '(m2, k2) := scan_one d pid entry m1 k1 in (XR_kRegistered, "", m2, k2)
        end
    end.
End operations.

(** [apply_unregister] *)
Definition apply_unregister (submitted : bool) (pid : Z) (m : Monitor) : ExitUnregisterCode * string * Monitor :=
  match xm_registry m !! pid with
  | None => (XU_kNotFound, "pid not registered", m)
  | Some _ => (XU_kUnregistered, "", set_registry submitted (delete pid (xm_registry m)) m)
  end.

(** ** The owner's side *)

(** The life-cycle flags of [ProcessExitMonitor::Impl] *)
Record MonitorOwner := mkOwner {
  ow_started : bool;
  ow_stop_requested : bool;
  ow_signal_installed : bool;
}.

(** [start]; the answers of [pipe2], [sigaction] and [start_worker] *)
Definition monitor_start (pipe_ok sigaction_ok worker_ok : bool) (o : MonitorOwner)
  : ExitMonitorStartCode * string * MonitorOwner :=
  if ow_started o then (XS_kAlreadyStarted, "exit monitor already started", o)
  else if ow_stop_requested o then (XS_kWorkerRejected, "exit monitor was stopped and cannot restart", o)
  else if negb pipe_ok then (XS_kWorkerRejected, "wake pipe creation failed", o)
  else if negb sigaction_ok then (XS_kSignalInstallFailed, "sigaction(SIGCHLD) failed", o)
  else if negb worker_ok
  then (XS_kWorkerRejected, "executor rejected the blocking worker", {| o with ow_signal_installed := false |})
  else (XS_kStarted, "", {| o with ow_started := true; ow_signal_installed := true |}).

(** [ExitMonitorStartResult::ok] *)
Definition start_ok (code : ExitMonitorStartCode) : bool := match code with XS_kStarted => true | _ => false end.

(** [register_process]: refused before the worker sees it, or its answer, when
    it came in time *)
Definition register_process (sent acked : bool) (answer : ExitRegisterCode * string) (o : MonitorOwner)
  : ExitRegisterCode * string :=
  if ow_stop_requested o || negb (ow_started o) then (XR_kNotStarted, "exit monitor is not running")
  else if negb sent then (XR_kChannelFull, "command channel is full")
  else if negb acked then (XR_kAckTimeout, "worker did not acknowledge registration")
  else answer.

(** [unregister_process] *)
Definition unregister_process (sent acked : bool) (answer : ExitUnregisterCode * string) (o : MonitorOwner)
  : ExitUnregisterCode * string :=
  if ow_stop_requested o || negb (ow_started o) then (XU_kNotStarted, "exit monitor is not running")
  else if negb sent then (XU_kChannelFull, "command channel is full")
  else if negb acked then (XU_kAckTimeout, "worker did not acknowledge unregistration")
  else answer.

(** The flags after [stop] *)
Definition owner_stop (o : MonitorOwner) : MonitorOwner :=
  mkOwner false true (if ow_started o then false else ow_signal_installed o).

(** A second [start] is not a success. *)
Example second_start_fails :
  start_ok (monitor_start true true true (monitor_start true true true (mkOwner false false false)).2).1.1 = false.
Proof. reflexivity. Qed.

(** ** The kernel's contract *)

(** A process: its start time, whether it is this process's child, and its wait
    status once it has exited and is not reaped *)
Record Process := mkProcess {
  pc_start_ticks : N;
  pc_child : bool;
  pc_exit : option Z;
}.

Class ProcessTableLaws (K : Type) `{ProcessTable K} := {
  process : Z -> K -> option Process;
  start_ticks_law pid k : proc_start_ticks pid k = pc_start_ticks <$> process pid k;
  waitpid_law pid k :
    let '(answer, k') := waitpid_nohang pid k in
    match process pid k with
    | Some p =>
        if pc_child p then
          match pc_exit p with
          | Some raw => answer = WaitReaped raw /\ process pid k' = None
          | None => answer = WaitNone /\ process pid k' = process pid k
          end
        else answer = WaitFailed ECHILD /\ process pid k' = process pid k
    | None => answer = WaitFailed ECHILD /\ process pid k' = None
    end /\ forall pid', pid' <> pid -> process pid' k' = process pid' k;
}.

(** The processes by pid, reaped ones removed *)
#[export] Instance table_ProcessTable : ProcessTable (gmap Z Process) := {|
  proc_start_ticks pid k := pc_start_ticks <$> k !! pid;
  waitpid_nohang pid k :=
    match k !! pid with
    | Some p => if pc_child p then match pc_exit p with Some raw => (WaitReaped raw, delete pid k) | None => (WaitNone, k) end
                else (WaitFailed ECHILD, k)
    | None => (WaitFailed ECHILD, k)
    end;
|}.

#[export] Instance table_laws : ProcessTableLaws (gmap Z Process).
Proof.
  refine {| process pid k := k !! pid |}; [done|].
  intros pid k. simpl. destruct (k !! pid) as [p|] eqn:Hp; [|by rewrite Hp].
  destruct (pc_child p); [|by rewrite Hp]. destruct (pc_exit p); [|by rewrite Hp].
  rewrite lookup_delete_eq. split; [done|]. intros pid' Hne. by rewrite lookup_delete_ne.
Defined.

(** ** What a scan reports *)

Section laws.
Context {K : Type} `{ProcessTableLaws K}.
Implicit Types (m : Monitor) (k : K).

(** The event for an entry, given the process that has its pid now: none while
    the registered process runs; its status when it is a child that exited;
    otherwise unknown. *)
Definition report (pid : Z) (entry : RegistryEntry) (p : option Process) : option ExitEvent :=
  let gone := mkExitEvent pid (re_identity entry) no_exit false in
  match p with
  | None => Some gone
  | Some p =>
      if negb (pc_start_ticks p =? pi_start_ticks (re_identity entry)) then Some gone
      else if re_adopted entry then None
      else if pc_child p then
        match pc_exit p with
        | Some raw => Some (mkExitEvent pid (re_identity entry) (status_from_wait raw) true)
        | None => None
        end
      else Some gone
  end.

(** A verified event reaps its process. *)
Definition after_report (e : option ExitEvent) (p : option Process) : option Process :=
  match e with Some e => if xe_identity_verified e then None else p | None => p end.

(** What the channel gets of the events of these pids: they are sent in order,
    until the monitor is being stopped *)
Fixpoint accepted (stopping : bool) (d : Z -> Delivery) (event : Z -> option ExitEvent) (pids : list Z) : list ExitEvent :=
  match pids with
  | [] => []
  | pid :: pids =>
      match event pid with
      | None => accepted stopping d event pids
      | Some e => if stopping || dl_given_up (d pid) then accepted true d event pids else e :: accepted stopping d event pids
      end
  end.

Lemma set_registry_frame submitted registry m :
  xm_registry (set_registry submitted registry m) = registry /\
  xm_events (set_registry submitted registry m) = xm_events m /\
  xm_worker_stopping (set_registry submitted registry m) = xm_worker_stopping m.
Proof. unfold set_registry, sync_adopted_timer. by repeat case_match. Qed.

Lemma deliver_effect d event pid m :
  let m' := deliver d event pid m in
  xm_registry m' = delete pid (xm_registry m) /\
  xm_events m' = xm_events m ++ (if xm_worker_stopping m || dl_given_up d then [] else [event]) /\
  xm_worker_stopping m' = xm_worker_stopping m || dl_given_up d.
Proof.
  unfold deliver. destruct (set_registry_frame (dl_submitted d) (delete pid (xm_registry m)) m) as (R & E & S).
  set (m1 := set_registry _ _ m) in *. cbn zeta. rewrite S. destruct (xm_worker_stopping m) eqn:Hs; cbn [orb].
  { by rewrite app_nil_r. }
  destruct (dl_given_up d); simpl; rewrite ?R, ?E, ?S, ?app_nil_r; by split_and!.
Qed.

(** The effect of one report on the monitor's flag and the channel *)
Definition stopped_by (d : Delivery) (e : option ExitEvent) (stopping : bool) : bool :=
  stopping || (if e then dl_given_up d else false).

Definition delivered (stopping : bool) (d : Delivery) (e : option ExitEvent) : list ExitEvent :=
  match e with Some e => if stopping || dl_given_up d then [] else [e] | None => [] end.

Lemma accepted_cons stopping d event pid pids :
  accepted stopping d event (pid :: pids) =
  delivered stopping (d pid) (event pid) ++ accepted (stopped_by (d pid) (event pid) stopping) d event pids.
Proof.
  unfold stopped_by. simpl. destruct (event pid) as [e|]; simpl; [|by rewrite orb_false_r].
  destruct stopping, (dl_given_up (d pid)); done.
Qed.

Lemma accepted_ext stopping d event event' pids :
  (forall pid, pid ∈ pids -> event pid = event' pid) -> accepted stopping d event pids = accepted stopping d event' pids.
Proof.
  revert stopping. induction pids as [|pid pids IH]; intros stopping Heq; [done|]. rewrite !accepted_cons, Heq by (by left).
  f_equal. apply IH. intros pid' Hin. apply Heq. by right.
Qed.

Lemma scan_one_exact d pid entry m k m' k' :
  xm_registry m !! pid = Some entry -> scan_one d pid entry m k = (m', k') ->
  let e := report pid entry (process pid k) in
  xm_registry m' = (if e then delete pid (xm_registry m) else xm_registry m) /\
  xm_events m' = xm_events m ++ delivered (xm_worker_stopping m) d e /\
  xm_worker_stopping m' = stopped_by d e (xm_worker_stopping m) /\
  process pid k' = after_report e (process pid k) /\ forall pid', pid' <> pid -> process pid' k' = process pid' k.
Proof.
  intros Hr. unfold scan_one, report, stopped_by. rewrite start_ticks_law.
  pose proof (waitpid_law pid k) as Hw. destruct (waitpid_nohang pid k) as [answer k1].
  pose proof (fun event => deliver_effect d event pid m) as Hd. cbn zeta in Hd.
  destruct (process pid k) as [p|] eqn:Hp; cbn [fmap option_fmap option_map].
  2: { rewrite bool_decide_eq_false_2 by done. cbn [negb]. intros [= <- <-].
       destruct (Hd (mkExitEvent pid (re_identity entry) no_exit false)) as (-> & -> & ->). by rewrite Hp. }
  case_bool_decide as Ht; cbn [negb].
  2: { intros [= <- <-]. destruct (N.eqb_spec (pc_start_ticks p) (pi_start_ticks (re_identity entry))) as [Heq|]; [congruence|].
       cbn [negb]. destruct (Hd (mkExitEvent pid (re_identity entry) no_exit false)) as (-> & -> & ->). by rewrite Hp. }
  injection Ht as ->. rewrite N.eqb_refl. cbn [negb].
  destruct (re_adopted entry); [intros [= <- <-]; by rewrite app_nil_r, orb_false_r|].
  destruct Hw as [Hans Hother]. destruct (pc_child p).
  - destruct (pc_exit p) as [raw|]; destruct Hans as [-> Hk]; intros [= <- <-]; cbn [after_report xe_identity_verified].
    + destruct (Hd (mkExitEvent pid (re_identity entry) (status_from_wait raw) true)) as (-> & -> & ->). done.
    + by rewrite app_nil_r, orb_false_r.
  - destruct Hans as [-> Hk]. rewrite Z.eqb_refl. intros [= <- <-].
    destruct (Hd (mkExitEvent pid (re_identity entry) no_exit false)) as (-> & -> & ->). by split_and!.
Qed.

(** What is to be reported for a pid *)
Definition reports m k (pid : Z) : option ExitEvent :=
  xm_registry m !! pid ≫= fun entry => report pid entry (process pid k).

Lemma scan_list_exact d l m k m' k' :
  NoDup l ->
  fold_left (fun '(m, k) pid => match xm_registry m !! pid with
                                | Some entry => scan_one (d pid) pid entry m k
                                | None => (m, k)
                                end) l (m, k) = (m', k') ->
  (forall pid, xm_registry m' !! pid =
     if bool_decide (pid ∈ l) then (if reports m k pid then None else xm_registry m !! pid) else xm_registry m !! pid) /\
  xm_events m' = xm_events m ++ accepted (xm_worker_stopping m) d (reports m k) l /\
  (forall pid, process pid k' =
     if bool_decide (pid ∈ l) then after_report (reports m k pid) (process pid k) else process pid k).
Proof.
  intros Hnd. revert m k. induction Hnd as [|pid l Hni Hnd IH]; intros m k; cbn [fold_left].
  { intros [= <- <-]. split_and!; [done|by rewrite app_nil_r|done]. }
  assert (exists m1 k1, (match xm_registry m !! pid with
      | Some entry => scan_one (d pid) pid entry m k | None => (m, k) end) = (m1, k1) /\
    xm_registry m1 = (if reports m k pid then delete pid (xm_registry m) else xm_registry m) /\
    xm_events m1 = xm_events m ++ delivered (xm_worker_stopping m) (d pid) (reports m k pid) /\
    xm_worker_stopping m1 = stopped_by (d pid) (reports m k pid) (xm_worker_stopping m) /\
    process pid k1 = after_report (reports m k pid) (process pid k) /\
    forall pid', pid' <> pid -> process pid' k1 = process pid' k) as (m1 & k1 & -> & R1 & E1 & S1 & P1 & O1).
  { unfold reports. destruct (xm_registry m !! pid) as [entry|] eqn:He; simpl.
    - destruct (scan_one (d pid) pid entry m k) as [m1 k1] eqn:Hs.
      exists m1, k1. split; [done|]. by eapply scan_one_exact.
    - exists m, k. unfold stopped_by. by rewrite app_nil_r, orb_false_r. }
  assert (forall pid', pid' <> pid -> xm_registry m1 !! pid' = xm_registry m !! pid') as Hreg.
  { intros pid' Hne. rewrite R1. destruct (reports m k pid); [by rewrite lookup_delete_ne|done]. }
  assert (forall pid', pid' <> pid -> reports m1 k1 pid' = reports m k pid') as Hrep.
  { intros pid' Hne. unfold reports. by rewrite Hreg, O1. }
  intros Hfold. apply IH in Hfold as (R2 & E2 & P2). split_and!.
  - intros pid'. rewrite R2. destruct (decide (pid' = pid)) as [->|Hne].
    + rewrite bool_decide_eq_false_2, bool_decide_eq_true_2 by (done || by left). rewrite R1.
      destruct (reports m k pid); [by rewrite lookup_delete_eq|done].
    + rewrite Hrep, Hreg by done. rewrite (bool_decide_ext (pid' ∈ pid :: l) (pid' ∈ l)); [done|].
      rewrite elem_of_cons. naive_solver.
  - rewrite E2, E1, S1, <- app_assoc, accepted_cons. f_equal. f_equal. apply accepted_ext.
    intros pid' Hin. apply Hrep. by intros ->.
  - intros pid'. rewrite P2. destruct (decide (pid' = pid)) as [->|Hne].
    + rewrite bool_decide_eq_false_2, bool_decide_eq_true_2 by (done || by left). done.
    + rewrite Hrep, O1 by done. rewrite (bool_decide_ext (pid' ∈ pid :: l) (pid' ∈ l)); [done|].
      rewrite elem_of_cons. naive_solver.
Qed.

(** C22. A scan tells the truth about every registered process, and about no other:
    a process that still runs is left alone; a child that exited is reaped and
    reported with the status it exited with, as verified; a process that is gone,
    or whose pid now belongs to another process (other start time), is
    reported as unknown and unverified, and the other process is not touched.
    Every report ends the registration and is one event, in the order of the
    scan; only those that are due once the monitor is being stopped are given
    up. *)
Theorem scan_exact d m k m' k' :
  scan_registered d None m k = (m', k') ->
  (forall pid, xm_registry m' !! pid = if reports m k pid then None else xm_registry m !! pid) /\
  xm_events m' = xm_events m ++ accepted (xm_worker_stopping m) d (reports m k) (map_to_list (xm_registry m)).*1 /\
  (forall pid, process pid k' = after_report (reports m k pid) (process pid k)).
Proof.
  intros Hs. destruct (scan_list_exact d _ m k m' k' (NoDup_fst_map_to_list (xm_registry m)) Hs) as (R & E & P).
  assert (forall pid, pid ∉ (map_to_list (xm_registry m)).*1 -> xm_registry m !! pid = None) as Hn.
  { intros pid Hni. destruct (xm_registry m !! pid) as [e|] eqn:He; [|done]. destruct Hni.
    apply list_elem_of_fmap. exists (pid, e). split; [done|]. by apply elem_of_map_to_list. }
  split_and!; [|done|]; intros pid; rewrite ?R, ?P; case_bool_decide as Hin; try done;
    unfold reports; by rewrite (Hn pid Hin).
Qed.
End laws.

(** ** Registrations and events *)

Section accounted.
Context {K : Type} `{ProcessTable K}.
Implicit Types (m : Monitor) (k : K).

(** A command, a scan, the owner's [stop], or any change of the process table
    (processes start and exit) *)
Inductive monitor_op :=
| MRegister (d : Delivery) (submitted : bool) (identity : ProcessIdentity)
| MUnregister (submitted : bool) (pid : Z)
| MScan (d : Z -> Delivery) (seen : option nat)
| MStop
| MWorld (k : K).

Definition monitor_step (op : monitor_op) (s : Monitor * K) : Monitor * K :=
  let '(m, k) := s in
  match op with
  | MRegister d submitted identity => let '(_, _, m1, k1) := apply_register d submitted identity m k in (m1, k1)
  | MUnregister submitted pid => ((apply_unregister submitted pid m).2, k)
  | MScan d seen => scan_registered d seen m k
  | MStop => (monitor_stop m, k)
  | MWorld k1 => (m, k1)
  end.

(** The identities of successful registrations and unregistrations *)
Definition registered_by (op : monitor_op) (s : Monitor * K) : list ProcessIdentity :=
  match op with
  | MRegister d submitted identity =>
      if bool_decide ((apply_register d submitted identity s.1 s.2).1.1.1 = XR_kRegistered) then [identity] else []
  | _ => []
  end.

Definition unregistered_by (op : monitor_op) (s : Monitor * K) : list ProcessIdentity :=
  match op with
  | MUnregister submitted pid =>
      if bool_decide ((apply_unregister submitted pid s.1).1.1 = XU_kUnregistered)
      then match xm_registry s.1 !! pid with Some entry => [re_identity entry] | None => [] end else []
  | _ => []
  end.

Fixpoint monitor_run (ops : list monitor_op) (s : Monitor * K) : Monitor * K :=
  match ops with [] => s | op :: ops => monitor_run ops (monitor_step op s) end.

Fixpoint collect (f : monitor_op -> Monitor * K -> list ProcessIdentity) (ops : list monitor_op) (s : Monitor * K)
  : list ProcessIdentity :=
  match ops with [] => [] | op :: ops => f op s ++ collect f ops (monitor_step op s) end.

(** The identities being watched *)
Definition watched m : list ProcessIdentity := (fun x => re_identity x.2) <$> map_to_list (xm_registry m).

(** [lost] are the identities whose event was given up. *)
Record Accounted (registered unregistered lost : list ProcessIdentity) m : Prop := {
  ac_identities : (xe_identity <$> xm_events m) ++ unregistered ++ watched m ++ lost ≡ₚ registered;
  ac_lost : xm_worker_stopping m = false -> lost = [];
  ac_registry : forall pid e, xm_registry m !! pid = Some e -> pi_pid (re_identity e) = pid;
  ac_events : Forall (fun e => xe_pid e = pi_pid (xe_identity e)) (xm_events m);
  ac_stopped : xm_worker_stopping m = true -> xm_timer_active m = false;
  ac_timer : xm_worker_stopping m = false ->
    xm_timer_active m = any_adopted (xm_registry m) \/
    (xm_timer_active m = false /\ any_adopted (xm_registry m) = true /\ 0 < xm_timer_failures m);
}.

Lemma watched_delete m pid e :
  xm_registry m !! pid = Some e ->
  watched m ≡ₚ re_identity e :: ((fun x => re_identity x.2) <$> map_to_list (delete pid (xm_registry m))).
Proof. intros Hp. unfold watched. by rewrite <- (map_to_list_delete _ _ _ Hp). Qed.

(** Once the registry has changed, the timer runs as it should, or the executor
    has refused it. *)
Lemma set_registry_timer submitted registry m :
  let m' := set_registry submitted registry m in
  (xm_worker_stopping m = true -> xm_timer_active m = false) ->
  (xm_worker_stopping m = true -> xm_timer_active m' = false) /\
  (xm_worker_stopping m = false ->
    xm_timer_active m' = any_adopted registry \/
    (xm_timer_active m' = false /\ any_adopted registry = true /\ submitted = false /\ 0 < xm_timer_failures m')).
Proof.
  cbn zeta. intros Hs. unfold set_registry, sync_adopted_timer. simpl. destruct (xm_worker_stopping m); simpl.
  { split; [by intros; apply Hs|done]. }
  split; [done|]. intros _. destruct (any_adopted registry), (xm_timer_active m) eqn:Ht, submitted; simpl; rewrite ?Ht;
    first [by left|right; split_and!; try done; lia].
Qed.

(** Changing the registry keeps the books if what leaves it is booked. *)
Lemma set_registry_accounted registered unregistered unregistered' lost registered' submitted registry m :
  Accounted registered unregistered lost m ->
  (xe_identity <$> xm_events m) ++ unregistered' ++ ((fun x => re_identity x.2) <$> map_to_list registry) ++ lost ≡ₚ registered' ->
  (forall pid e, registry !! pid = Some e -> pi_pid (re_identity e) = pid) ->
  Accounted registered' unregistered' lost (set_registry submitted registry m).
Proof.
  intros [Hp Hl Hi He Hs Ht] Hp' Hi'. destruct (set_registry_frame submitted registry m) as (R & E & S).
  destruct (set_registry_timer submitted registry m Hs) as [T1 T2].
  split; unfold watched; rewrite ?R, ?E, ?S; try done. intros Hf. destruct (T2 Hf) as [?|(? & ? & _ & ?)]; [by left|by right].
Qed.

Lemma deliver_accounted registered unregistered lost d event pid entry m :
  Accounted registered unregistered lost m -> xm_registry m !! pid = Some entry ->
  xe_pid event = pid -> xe_identity event = re_identity entry ->
  exists lost', Accounted registered unregistered lost' (deliver d event pid m).
Proof.
  intros Hm Hr Hpid Hid. destruct (set_registry_frame (dl_submitted d) (delete pid (xm_registry m)) m) as (R & E & S).
  pose proof (ac_stopped _ _ _ _ Hm) as Hs. destruct (set_registry_timer (dl_submitted d) (delete pid (xm_registry m)) m Hs) as [T1 T2].
  destruct Hm as [Hp Hl Hi He _ Ht]. rewrite (watched_delete _ _ _ Hr) in Hp. unfold deliver.
  set (m1 := set_registry _ _ m) in *. cbn zeta. rewrite S.
  assert (forall pid' e, delete pid (xm_registry m) !! pid' = Some e -> pi_pid (re_identity e) = pid') as Hi'.
  { intros pid' e [_ H']%lookup_delete_Some. by apply Hi. }
  destruct (xm_worker_stopping m) eqn:Hst; [|destruct (dl_given_up d)].
  - exists (re_identity entry :: lost). split; unfold watched; rewrite ?R, ?E, ?S; try done.
    rewrite <- Hp. simpl. by rewrite Permutation_middle.
  - exists (re_identity entry :: lost). split; unfold watched; simpl; rewrite ?R, ?E; try done.
    rewrite <- Hp. simpl. by rewrite Permutation_middle.
  - exists lost. split; unfold watched; simpl; rewrite ?R, ?E, ?S; try done.
    + rewrite <- Hp, fmap_app. simpl. rewrite Hid, <- !app_assoc. simpl. by rewrite !Permutation_middle.
    + apply Forall_app. split; [done|]. constructor; [|done]. rewrite Hid, Hpid. symmetry. by apply Hi.
    + intros Hf. destruct (T2 Hf) as [?|(? & ? & _ & ?)]; [by left|by right].
Qed.

Lemma scan_one_accounted registered unregistered lost d pid entry m k :
  Accounted registered unregistered lost m -> xm_registry m !! pid = Some entry ->
  exists lost', Accounted registered unregistered lost' (scan_one d pid entry m k).1.
Proof.
  intros Hm Hr. unfold scan_one. destruct (negb _); [by eapply deliver_accounted|].
  destruct (re_adopted entry); [by exists lost|].
  destruct (waitpid_nohang pid k) as [[|errno|raw] k1]; [by exists lost| |by eapply deliver_accounted].
  destruct (_ =? _)%Z; [by eapply deliver_accounted|by exists lost].
Qed.

Lemma scan_accounted registered unregistered lost d seen m k :
  Accounted registered unregistered lost m ->
  exists lost', Accounted registered unregistered lost' (scan_registered d seen m k).1.
Proof.
  intros Hm. unfold scan_registered. cbn zeta.
  generalize (match seen with Some n => take n (map_to_list (xm_registry m)).*1 | None => (map_to_list (xm_registry m)).*1 end) as l.
  intros l. revert m k lost Hm. induction l as [|pid l IH]; intros m k lost Hm; cbn [fold_left]; [by exists lost|].
  destruct (xm_registry m !! pid) as [entry|] eqn:Hr; [|by eapply IH].
  destruct (scan_one_accounted _ _ _ (d pid) pid entry m k Hm Hr) as [lost' H1].
  destruct (scan_one _ _ _ _ _) as [m1 k1]. by eapply IH.
Qed.

Lemma register_accounted registered unregistered lost d submitted identity m k :
  Accounted registered unregistered lost m ->
  let op := MRegister d submitted identity in
  exists lost', Accounted (registered ++ registered_by op (m, k)) unregistered lost' (monitor_step op (m, k)).1.
Proof.
  intros Hm. simpl. unfold apply_register. destruct (negb _); [exists lost; by rewrite app_nil_r|].
  destruct (xm_registry m !! pi_pid identity) eqn:Hr; [exists lost; by rewrite app_nil_r|].
  destruct (waitpid_nohang (pi_pid identity) k) as [probed k1]. set (entry := mkRegistryEntry identity _).
  assert (Accounted (registered ++ [identity]) unregistered lost
    (set_registry submitted (<[pi_pid identity := entry]> (xm_registry m)) m)) as H1.
  { eapply set_registry_accounted; [exact Hm|..].
    - rewrite <- (ac_identities _ _ _ _ Hm), map_to_list_insert by done. unfold watched. simpl.
      rewrite (Permutation_app_comm _ [_]). simpl. by rewrite !Permutation_middle.
    - intros pid e [[<- <-]|[_ H']]%lookup_insert_Some; [done|by apply Hm]. }
  set (m1 := set_registry _ _ m) in *.
  assert (xm_registry m1 !! pi_pid identity = Some entry) as Hr1.
  { unfold m1. by rewrite (proj1 (set_registry_frame _ _ m)), lookup_insert_eq. }
  destruct probed as [|errno|raw]; cbn [fst]; [..|by eapply deliver_accounted].
  all: destruct (scan_one_accounted _ _ _ d _ _ _ k1 H1 Hr1) as [lost' H2]; exists lost'; by destruct (scan_one _ _ _ _ _).
Qed.

Lemma unregister_accounted registered unregistered lost submitted pid m k :
  Accounted registered unregistered lost m ->
  let op := MUnregister submitted pid in
  Accounted registered (unregistered ++ unregistered_by op (m, k)) lost (monitor_step op (m, k)).1.
Proof.
  intros Hm. simpl. unfold apply_unregister. destruct (xm_registry m !! pid) as [e|] eqn:Hr; simpl; [|by rewrite app_nil_r].
  eapply set_registry_accounted; [exact Hm|..].
  - rewrite <- (ac_identities _ _ _ _ Hm), (watched_delete _ _ _ Hr), <- app_assoc. done.
  - intros pid' e' [_ H']%lookup_delete_Some. by apply Hm.
Qed.

Lemma monitor_step_accounted registered unregistered lost op m k :
  Accounted registered unregistered lost m ->
  exists lost', Accounted (registered ++ registered_by op (m, k)) (unregistered ++ unregistered_by op (m, k)) lost'
    (monitor_step op (m, k)).1.
Proof.
  intros Hm. destruct op as [d submitted identity|submitted pid|d seen| |k1].
  - cbn [unregistered_by]. rewrite app_nil_r. by eapply register_accounted.
  - cbn [registered_by]. rewrite app_nil_r. exists lost. by apply unregister_accounted.
  - cbn [registered_by unregistered_by]. rewrite !app_nil_r. by eapply scan_accounted.
  - cbn [registered_by unregistered_by]. rewrite !app_nil_r. exists lost. destruct Hm as [Hp Hl Hi He Hs Ht]. by split.
  - cbn [registered_by unregistered_by]. exists lost. by rewrite !app_nil_r.
Qed.

(** C23. No exit is lost or repeated while the monitor runs.  Whatever is
    registered, unregistered and scanned, while processes come and go, the channel
    is full or the executor refuses timers, the identities (pid, group and start
    time) of the successful registrations are, each once: those of the events
    the channel accepted, those unregistered, those still watched, and those
    whose event was given up, of which there is none unless the monitor was being
    stopped.  An event's pid is that of its identity.  The periodic scan
    that adopted processes depend on never runs after [stop]; before, it runs
    exactly while one of them is watched, unless the executor refused to
    start it, which is counted. *)
Theorem monitor_accounts ops k :
  let s := (new_monitor, k) in
  let m := (monitor_run ops s).1 in
  exists lost,
  (xe_identity <$> xm_events m) ++ collect unregistered_by ops s ++ watched m ++ lost ≡ₚ collect registered_by ops s /\
  (xm_worker_stopping m = false -> lost = []) /\
  Forall (fun e => xe_pid e = pi_pid (xe_identity e)) (xm_events m) /\
  (xm_worker_stopping m = true -> xm_timer_active m = false) /\
  (xm_worker_stopping m = false ->
    xm_timer_active m = any_adopted (xm_registry m) \/
    (xm_timer_active m = false /\ any_adopted (xm_registry m) = true /\ 0 < xm_timer_failures m)).
Proof.
  assert (forall ops registered unregistered lost m k, Accounted registered unregistered lost m ->
    exists lost', Accounted (registered ++ collect registered_by ops (m, k)) (unregistered ++ collect unregistered_by ops (m, k))
      lost' (monitor_run ops (m, k)).1) as Hrun.
  { clear. induction ops as [|op ops IH]; intros registered unregistered lost m k Hm; cbn [collect monitor_run].
    { exists lost. by rewrite !app_nil_r. }
    destruct (monitor_step_accounted _ _ _ op m k Hm) as [lost' H1]. destruct (monitor_step op (m, k)) as [m1 k1].
    rewrite !app_assoc. by eapply IH. }
  cbn zeta. destruct (Hrun ops [] [] [] new_monitor k) as (lost & [Hp Hl _ He Hs Ht]); [by split; try done; left|].
  by exists lost.
Qed.
End accounted.

(** ** Examples and witnesses *)

(** Pid 100 is a child that exited with code 3, pid 101 a running child, pid 102
    belongs to another process by now. *)
Definition example_table : gmap Z Process :=
  list_to_map [(100%Z, mkProcess 5 true (Some 768%Z)); (101%Z, mkProcess 6 true None); (102%Z, mkProcess 9 false None)].

Definition example_monitor : Monitor :=
  mkMonitor (list_to_map [(100%Z, mkRegistryEntry (mkIdentity 100 100 5) false);
                          (101%Z, mkRegistryEntry (mkIdentity 101 101 6) false);
                          (102%Z, mkRegistryEntry (mkIdentity 102 102 7) true)]) [] 0 false true 0.

Example example_scan :
  let m := (scan_registered (fun _ => mkDelivery 0 false true) None example_monitor example_table).1 in
  (xm_events m ≡ₚ [mkExitEvent 100 (mkIdentity 100 100 5) (mkExitStatus ER_kExited 3 0) true;
                   mkExitEvent 102 (mkIdentity 102 102 7) no_exit false]) /\
  (map_to_list (xm_registry m)).*1 = [101%Z].
Proof. vm_compute. split; [|done]. reflexivity || apply Permutation_swap. Qed.

Lemma scan_exact_witness :
  let '(m', k') := scan_registered (fun _ => mkDelivery 0 false true) None example_monitor example_table in
  forall pid, process pid k' = after_report (reports example_monitor example_table pid) (process pid example_table).
Proof.
  destruct (scan_registered (fun _ => mkDelivery 0 false true) None example_monitor example_table) as [m' k'] eqn:E.
  exact (proj2 (proj2 (scan_exact (fun _ => mkDelivery 0 false true) example_monitor example_table m' k' E))).
Defined.
