(* ===== verification/LogSink.v ===== *)
(** * Log sink: [include/yori/observe/log_sink.hpp], [src/observe/log_sink.cpp]

    The files a job's output is written to: [open], [append] with rotation by
    size and markers for dropped bytes, [close], [close_all].  The sink reaches
    the file system through the interface [LogIo] (a class here as in the
    code); what it relies on is [LogIoLaws], and [FileSystem] is a model of the
    POSIX implementation that satisfies it, faults included. *)

From stdpp Require Import pretty.
From S2P Require Import Prelude.
From S2P Require Import Job.
From S2P Require Import Service.
From S2P Require Import Launch.

(** ** Data *)

(** [LogStreamKind] and [log_file_name] are those of [Service]. *)

#[export] Instance LogStreamKind_eq_dec : EqDecision LogStreamKind.
Proof. solve_decision. Defined.

(** [LogSinkLimits] *)
Definition kMinFileBytes : N := 4096.
Definition kMaxFileBytes : N := 2 ^ 30.
Definition kMaxRotationHistory : N := 4.
Definition kMaxLogDirectoryBytes : N := 4096.

Record LogSinkConfig := mkSinkConfig {
  lc_directory : string;
  lc_max_file_bytes : N;
  lc_rotation_history : N;
}.

Inductive LogSinkErrorCode :=
| LK_kNone | LK_kInvalidConfig | LK_kNotOpen | LK_kOpenFailed | LK_kOwnershipFailed | LK_kCloseFailed
| LK_kWriteFailed | LK_kRotateFailed.

#[export] Instance LogSinkErrorCode_eq_dec : EqDecision LogSinkErrorCode.
Proof. solve_decision. Defined.

Record LogSinkStatistics := mkSinkStatistics {
  ls_bytes_accepted : N;
  ls_bytes_dropped : N;
  ls_rotations : N;
  ls_write_failures : N;
}.

Record LogWriteResult := mkLogWrite {
  lw_code : LogSinkErrorCode;
  lw_bytes_accepted : N;
  lw_dropped_bytes : N;
  lw_rotated : bool;
  lw_message : string;
}.

Record LogSinkOpenOptions := mkOpenOptions {
  oo_owner_uid : N;
  oo_owner_gid : N;
  oo_allow_ownership_downgrade : bool;
}.

(** [LogSink::Impl::Stream]; [fd] is [-1] when there is none. *)
Record Stream := mkStream {
  st_fd : Z;
  st_open : bool;
  st_file_bytes : N;
  st_offset : N;
  st_pending_drop : N;
}.

Definition no_stream : Stream := mkStream (-1) false 0 0 0.

(** [LogSink::Impl] *)
Record Sink := mkSink {
  sk_config : LogSinkConfig;
  sk_options : LogSinkOpenOptions;
  sk_ownership_downgraded : bool;
  sk_opened : bool;
  sk_stdout : Stream;
  sk_stderr : Stream;
  sk_statistics : LogSinkStatistics;
}.

(** The interface [LogIo] on the state [I] of the file system.  [None] is the
    code's [true]; [Some] carries the error text. *)
Class LogIo (I : Type) := {
  open_append : string -> I -> Result string Z * I;
  write_all : Z -> string -> I -> option string * I;
  close_fd : Z -> I -> option string * I;
  rotate : string -> string -> I -> option string * I;
  remove_file : string -> I -> option string * I;
  file_size : Z -> I -> option N;
  apply_ownership : Z -> N -> N -> I -> option string * I;
}.

(** ** Names *)

Definition LogStreamKind_to_string (stream : LogStreamKind) : string :=
  match stream with LS_kStdout => "stdout" | LS_kStderr => "stderr" end.

Definition newline : string := String "010"%char EmptyString.

Definition drop_marker_text (dropped_bytes : N) : string :=
  "[yori] dropped " +:+ pretty dropped_bytes +:+ " bytes" +:+ newline.

Definition join_directory (directory name : string) : string :=
  if negb (sempty directory) && back_is "/"%char directory then directory +:+ name
  else directory +:+ "/" +:+ name.

(** [LogSinkConfig::valid] *)
Definition sink_config_valid (c : LogSinkConfig) : bool :=
  negb (sempty (lc_directory c)) && (slen (lc_directory c) <=? kMaxLogDirectoryBytes)
  && negb (contains_nul (lc_directory c)) && front_is "/"%char (lc_directory c)
  && (kMinFileBytes <=? lc_max_file_bytes c) && (lc_max_file_bytes c <=? kMaxFileBytes)
  && (lc_rotation_history c <=? kMaxRotationHistory).

Definition LogSinkErrorCode_to_string (code : LogSinkErrorCode) : string :=
  match code with
  | LK_kNone => "none"
  | LK_kInvalidConfig => "invalid log sink config"
  | LK_kNotOpen => "log stream is not open"
  | LK_kOpenFailed => "opening the log file failed"
  | LK_kOwnershipFailed => "applying log file ownership failed"
  | LK_kCloseFailed => "closing the log file failed"
  | LK_kWriteFailed => "writing log data failed"
  | LK_kRotateFailed => "rotating the log file failed"
  end.

Definition current_path (c : LogSinkConfig) (kind : LogStreamKind) : string :=
  join_directory (lc_directory c) (log_file_name kind).

Definition history_path (c : LogSinkConfig) (kind : LogStreamKind) (index : N) : string :=
  current_path c kind +:+ "." +:+ pretty index.

(** ** Operations *)

Definition stream (kind : LogStreamKind) (k : Sink) : Stream :=
  match kind with LS_kStdout => sk_stdout k | LS_kStderr => sk_stderr k end.

Definition set_stream (kind : LogStreamKind) (s : Stream) (k : Sink) : Sink :=
  match kind with
  | LS_kStdout => {| k with sk_stdout := s |}
  | LS_kStderr => {| k with sk_stderr := s |}
  end.

(** [LogSink::LogSink] *)
Definition new_sink : Sink :=
  mkSink (mkSinkConfig "" 268435456 1) (mkOpenOptions 0 0 true) false false no_stream no_stream
    (mkSinkStatistics 0 0 0 0).

Section operations.
Context {I : Type} `{LogIo I}.

(** [apply_ownership_for_new_file]: the code, and the error text it leaves *)
Definition apply_ownership_for_new_file (fd : Z) (k : Sink) (io : I)
  : Result (LogSinkErrorCode * string) Sink * I :=
  let '(r, io1) := apply_ownership fd (oo_owner_uid (sk_options k)) (oo_owner_gid (sk_options k)) io in
  match r with
  | None => (Ok k, io1)
  | Some error =>
      if oo_allow_ownership_downgrade (sk_options k)
      then (Ok {| k with sk_ownership_downgraded := true |}, io1)
      else (Err (LK_kOwnershipFailed, error), io1)
  end.

(** [open_stream]: [Err] carries the code and the error text. *)
Definition open_stream (kind : LogStreamKind) (k : Sink) (io : I)
  : Result (LogSinkErrorCode * string) unit * Sink * I :=
  match open_append (current_path (sk_config k) kind) io with
  | (Err error, io1) => (Err (LK_kOpenFailed, error), k, io1)
  | (Ok fd, io1) =>
      match apply_ownership_for_new_file fd k io1 with
      | (Err e, io2) => (Err e, k, (close_fd fd io2).2)
      | (Ok k1, io2) =>
          match file_size fd io2 with
          | None => (Err (LK_kOpenFailed, "fstat on the log file failed"), k1, (close_fd fd io2).2)
          | Some size =>
              let s := stream kind k1 in
              (Ok tt, set_stream kind {| s with st_fd := fd; st_open := true; st_file_bytes := size;
                                                st_offset := size |} k1, io2)
          end
      end
  end.

(** The loop [for (index = history; index >= 2; --index)]: older files move up,
    failures ignored *)
Fixpoint shift_history (c : LogSinkConfig) (kind : LogStreamKind) (n : nat) (io : I) : I :=
  match n with
  | O | S O => io
  | S n' =>
      shift_history c kind n'
        (rotate (history_path c kind (N.of_nat n')) (history_path c kind (N.of_nat n)) io).2
  end.

(** [rotate_stream]: [None] is the code's [true] *)
Definition rotate_stream (kind : LogStreamKind) (k : Sink) (io : I) : option string * Sink * I :=
  let s := stream kind k in
  let offset_before := st_offset s in
  let '(k1, io1) :=
    if (0 <=? st_fd s)%Z
    then (set_stream kind {| s with st_fd := (-1)%Z; st_open := false |} k, (close_fd (st_fd s) io).2)
    else (k, io) in
  let '(moved, io2) :=
    if lc_rotation_history (sk_config k) =? 0
    then remove_file (current_path (sk_config k) kind) io1
    else rotate (current_path (sk_config k) kind) (history_path (sk_config k) kind 1)
           (shift_history (sk_config k) kind (N.to_nat (lc_rotation_history (sk_config k))) io1) in
  match moved with
  | Some error => (Some error, k1, io2)
  | None =>
      match open_stream kind k1 io2 with
      | (Err (_, error), k2, io3) => (Some error, k2, io3)
      | (Ok _, k2, io3) =>
          let s2 := stream kind k2 in
          let k3 := set_stream kind {| s2 with st_offset := offset_before |} k2 in
          let stats := sk_statistics k3 in
          (None, {| k3 with sk_statistics := {| stats with ls_rotations := ls_rotations stats + 1 |} |}, io3)
      end
  end.

(** [LogSink::close_all] *)
Definition close_stream (kind : LogStreamKind) (k : Sink) (io : I) : Sink * I :=
  let s := stream kind k in
  (set_stream kind {| s with st_open := false; st_fd := (-1)%Z |} k,
   if st_open s && (0 <=? st_fd s)%Z then (close_fd (st_fd s) io).2 else io).

Definition close_all (k : Sink) (io : I) : Sink * I :=
  let '(k1, io1) := close_stream LS_kStdout k io in
  let '(k2, io2) := close_stream LS_kStderr k1 io1 in
  ({| k2 with sk_opened := false |}, io2).

(** [LogSink::open] *)
Definition sink_open (config : LogSinkConfig) (options : LogSinkOpenOptions) (k : Sink) (io : I)
  : Result (LogSinkErrorCode * string) unit * Sink * I :=
  if negb (sink_config_valid config)
  then (Err (LK_kInvalidConfig, "log sink config is invalid"), k, io)
  else
    let k0 := {| k with sk_config := config; sk_options := options |} in
    match open_stream LS_kStdout k0 io with
    | (Err e, k1, io1) => let '(k2, io2) := close_all k1 io1 in (Err e, k2, io2)
    | (Ok _, k1, io1) =>
        match open_stream LS_kStderr k1 io1 with
        | (Err e, k2, io2) => let '(k3, io3) := close_all k2 io2 in (Err e, k3, io3)
        | (Ok _, k2, io2) => (Ok tt, {| k2 with sk_opened := true |}, io2)
        end
    end.

Definition add_write_failure (k : Sink) : Sink :=
  let stats := sk_statistics k in
  {| k with sk_statistics := {| stats with ls_write_failures := ls_write_failures stats + 1 |} |}.

(** The pending drop marker *)
Definition write_marker (kind : LogStreamKind) (k : Sink) (io : I) : Sink * I :=
  let s := stream kind k in
  if 0 <? st_pending_drop s then
    let marker := drop_marker_text (st_pending_drop s) in
    match write_all (st_fd s) marker io with
    | (None, io1) =>
        (set_stream kind {| s with st_file_bytes := st_file_bytes s + slen marker; st_pending_drop := 0 |} k, io1)
    | (Some _, io1) => (add_write_failure k, io1)
    end
  else (k, io).

(** The loop of [append] over the rest of the data: whether it rotated, how it
    ended, and what is left; [None] when the fuel is used up. *)
Fixpoint append_loop (fuel : nat) (kind : LogStreamKind) (rotated : bool) (rest : string) (k : Sink) (io : I)
  : option (option (LogSinkErrorCode * string) * bool * string * Sink * I) :=
  match fuel with
  | O => None
  | S fuel =>
      if sempty rest then Some (None, rotated, rest, k, io)
      else
        let s := stream kind k in
        let limit := lc_max_file_bytes (sk_config k) in
        if limit <=? st_file_bytes s then
          match rotate_stream kind k io with
          | (Some error, k1, io1) => Some (Some (LK_kRotateFailed, error), rotated, rest, k1, io1)
          | (None, k1, io1) => append_loop fuel kind true rest k1 io1
          end
        else
          let room := limit - st_file_bytes s in
          let chunk := N.min room (slen rest) in
          match write_all (st_fd s) (String.substring 0 (N.to_nat chunk) rest) io with
          | (Some error, io1) => Some (Some (LK_kWriteFailed, error), rotated, rest, add_write_failure k, io1)
          | (None, io1) =>
              let k1 := set_stream kind {| s with st_file_bytes := st_file_bytes s + chunk;
                                                  st_offset := st_offset s + chunk |} k in
              append_loop fuel kind rotated
                (String.substring (N.to_nat chunk) (String.length rest - N.to_nat chunk) rest) k1 io1
          end
  end.

(** Twice the number of bytes, and two more: each byte may need a rotation. *)
Definition append_fuel (data : string) : nat := 2 * String.length data + 2.

(** [LogSink::append] *)
Definition sink_append (kind : LogStreamKind) (data : string) (k : Sink) (io : I)
  : option (LogWriteResult * Sink * I) :=
  if negb (sk_opened k) || negb (st_open (stream kind k))
  then Some (mkLogWrite LK_kNotOpen 0 0 false (LogSinkErrorCode_to_string LK_kNotOpen), k, io)
  else
    let '(k1, io1) := write_marker kind k io in
    match append_loop (append_fuel data) kind false data k1 io1 with
    | None => None
    | Some (failure, rotated, rest, k2, io2) =>
        let dropped := slen rest in
        let accepted := slen data - dropped in
        let s := stream kind k2 in
        let k3 := set_stream kind {| s with st_pending_drop := st_pending_drop s + dropped |} k2 in
        let stats := sk_statistics k3 in
        let k4 := {| k3 with sk_statistics :=
                       {| stats with ls_bytes_dropped := ls_bytes_dropped stats + dropped;
                                     ls_bytes_accepted := ls_bytes_accepted stats + accepted |} |} in
        let '(code, message) := default (LK_kNone, "") failure in
        Some (mkLogWrite code accepted dropped rotated message, k4, io2)
    end.

(** [LogSink::close] *)
Definition sink_close (kind : LogStreamKind) (k : Sink) (io : I) : LogSinkErrorCode * string * Sink * I :=
  let s := stream kind k in
  if negb (st_open s) || (st_fd s <? 0)%Z then (LK_kNotOpen, "", k, io)
  else
    let k1 := set_stream kind {| s with st_fd := (-1)%Z; st_open := false |} k in
    match close_fd (st_fd s) io with
    | (Some error, io1) => (LK_kCloseFailed, error, k1, io1)
    | (None, io1) => (LK_kNone, "", k1, io1)
    end.

(** [LogSink::is_open], [LogSink::logical_offset] *)
Definition sink_is_open (kind : LogStreamKind) (k : Sink) : bool := sk_opened k && st_open (stream kind k).
Definition logical_offset (kind : LogStreamKind) (k : Sink) : N := st_offset (stream kind k).
End operations.

(** ** What the sink relies on *)

(** Nothing changes for the files in [P]: neither what [view] shows of them nor
    the descriptors that are open on them. *)
Definition io_keeps {I V} (view : string -> I -> V) (target : Z -> I -> option string) (P : string -> Prop)
    (io io' : I) : Prop :=
  forall p, P p -> view p io' = view p io /\ forall fd, target fd io = Some p -> target fd io' = Some p.

(** The contract of [LogIo]: [io_content] is what the file at a path holds
    (empty when there is none), [io_target] the path of the file an open
    descriptor writes to.  A failing write may have written any prefix. *)
Class LogIoLaws (I : Type) `{LogIo I} := {
  io_content : string -> I -> string;
  io_target : Z -> I -> option string;
  open_append_content path io :
    match open_append path io with
    | (Ok fd, io') => (0 <= fd)%Z /\ io_target fd io' = Some path /\ io_keeps io_content io_target (fun _ => True) io io'
    | (Err _, io') => io_keeps io_content io_target (fun _ => True) io io'
    end;
  write_all_content fd p data io :
    io_target fd io = Some p ->
    match write_all fd data io with
    | (None, io') => io_content p io' = io_content p io +:+ data
    | (Some _, io') => exists part rest, data = part +:+ rest /\ io_content p io' = io_content p io +:+ part
    end /\
    let io' := (write_all fd data io).2 in
    (forall fd', io_target fd' io' = io_target fd' io) /\
    (forall p', p' <> p -> io_content p' io' = io_content p' io);
  close_fd_content fd io :
    let io' := (close_fd fd io).2 in
    (forall p, io_content p io' = io_content p io) /\
    (forall fd' p, fd' <> fd -> io_target fd' io = Some p -> io_target fd' io' = Some p);
  rotate_content from to io :
    from <> to ->
    match rotate from to io with
    | (None, io') => io_content to io' = io_content from io /\ io_content from io' = ""
    | (Some _, io') => io_content to io' = io_content to io /\ io_content from io' = io_content from io
    end /\
    io_keeps io_content io_target (fun p => p <> from /\ p <> to) io (rotate from to io).2;
  remove_file_content path io :
    match remove_file path io with
    | (None, io') => io_content path io' = ""
    | (Some _, io') => io_content path io' = io_content path io
    end /\
    io_keeps io_content io_target (fun p => p <> path) io (remove_file path io).2;
  file_size_content fd p n io : io_target fd io = Some p -> file_size fd io = Some n -> n = slen (io_content p io);
  apply_ownership_content fd uid gid io :
    io_keeps io_content io_target (fun _ => True) io (apply_ownership fd uid gid io).2;
}.

(** The number of bytes in the file at a path *)
Definition io_size {I} `{LogIoLaws I} (p : string) (io : I) : N := slen (io_content p io).

Section sizes.
Context {I : Type} `{LogIoLaws I}.

Lemma keeps_sizes P (io io' : I) :
  io_keeps io_content io_target P io io' -> io_keeps io_size io_target P io io'.
Proof. intros Hk p Hp. destruct (Hk p Hp) as [Hc Ht]. unfold io_size. by rewrite Hc. Qed.

Lemma open_append_law path (io : I) :
  match open_append path io with
  | (Ok fd, io') => (0 <= fd)%Z /\ io_target fd io' = Some path /\ io_keeps io_size io_target (fun _ => True) io io'
  | (Err _, io') => io_keeps io_size io_target (fun _ => True) io io'
  end.
Proof.
  pose proof (open_append_content path io) as Hl. destruct (open_append path io) as [[fd|e] io'].
  - destruct Hl as (? & ? & ?). split_and!; try done. by apply keeps_sizes.
  - by apply keeps_sizes.
Qed.

Lemma write_all_law fd p data (io : I) :
  io_target fd io = Some p ->
  match write_all fd data io with
  | (None, io') => io_size p io' = io_size p io + slen data
  | (Some _, io') => io_size p io <= io_size p io' <= io_size p io + slen data
  end /\
  let io' := (write_all fd data io).2 in
  (forall fd', io_target fd' io' = io_target fd' io) /\ (forall p', p' <> p -> io_size p' io' = io_size p' io).
Proof.
  intros Ht. destruct (write_all_content fd p data io Ht) as (Hw & Htg & Ho). unfold io_size. split.
  - destruct (write_all fd data io) as [[e|] io'].
    + destruct Hw as (part & rest & -> & ->). rewrite !slen_append. lia.
    + by rewrite Hw, slen_append.
  - split; [done|]. intros p' Hne. by rewrite Ho.
Qed.

Lemma close_fd_law fd (io : I) :
  let io' := (close_fd fd io).2 in
  (forall p, io_size p io' = io_size p io) /\
  (forall fd' p, fd' <> fd -> io_target fd' io = Some p -> io_target fd' io' = Some p).
Proof. destruct (close_fd_content fd io) as [Hc Ht]. split; [|done]. intros p. unfold io_size. by rewrite Hc. Qed.

Lemma rotate_law from to (io : I) :
  from <> to ->
  match rotate from to io with
  | (None, io') => io_size to io' = io_size from io /\ io_size from io' = 0
  | (Some _, io') => io_size to io' = io_size to io /\ io_size from io' = io_size from io
  end /\
  io_keeps io_size io_target (fun p => p <> from /\ p <> to) io (rotate from to io).2.
Proof.
  intros Hne. destruct (rotate_content from to io Hne) as [Hr Hk]. split; [|by apply keeps_sizes].
  unfold io_size. destruct (rotate from to io) as [[e|] io']; by destruct Hr as [-> ->].
Qed.

Lemma remove_file_law path (io : I) :
  match remove_file path io with
  | (None, io') => io_size path io' = 0
  | (Some _, io') => io_size path io' = io_size path io
  end /\
  io_keeps io_size io_target (fun p => p <> path) io (remove_file path io).2.
Proof.
  destruct (remove_file_content path io) as [Hr Hk]. split; [|by apply keeps_sizes].
  unfold io_size. destruct (remove_file path io) as [[e|] io']; by rewrite Hr.
Qed.

Lemma file_size_law fd p n (io : I) : io_target fd io = Some p -> file_size fd io = Some n -> n = io_size p io.
Proof. apply file_size_content. Qed.

Lemma apply_ownership_law fd uid gid (io : I) :
  io_keeps io_size io_target (fun _ => True) io (apply_ownership fd uid gid io).2.
Proof. apply keeps_sizes, apply_ownership_content. Qed.
End sizes.

(** ** Paths *)

(** The files of one stream *)
Definition stream_file (c : LogSinkConfig) (kind : LogStreamKind) (p : string) : Prop :=
  p = current_path c kind \/ exists i, p = history_path c kind i.

Lemma append_inj_r a b c : a +:+ b = a +:+ c -> b = c.
Proof. induction a as [|x a IH]; [done|]. rewrite !append_cons. intros [= ?]. auto. Qed.

Lemma append_neq_self a c b : a +:+ String c b <> a.
Proof. intros Heq. apply (f_equal slen) in Heq. rewrite slen_append, slen_cons in Heq. lia. Qed.

Lemma current_path_split c :
  exists d, forall kind', current_path c kind' = d +:+ log_file_name kind'.
Proof.
  unfold current_path, join_directory. destruct (_ && _); [by exists (lc_directory c)|].
  exists (lc_directory c +:+ "/"). intros kind'. by rewrite <- append_assoc.
Qed.

Lemma history_neq_current c kind i : history_path c kind i <> current_path c kind.
Proof. unfold history_path. apply append_neq_self. Qed.

Lemma history_inj c kind i j : history_path c kind i = history_path c kind j -> i = j.
Proof. unfold history_path. intros Heq%append_inj_r%append_inj_r. by apply (inj pretty) in Heq. Qed.

Lemma stream_files_disjoint c p : stream_file c LS_kStdout p -> ~ stream_file c LS_kStderr p.
Proof.
  destruct (current_path_split c) as [d Hd].
  assert (forall a b, current_path c LS_kStdout +:+ a <> current_path c LS_kStderr +:+ b) as Hne.
  { intros a b. rewrite !Hd, <- !append_assoc. intros Heq%append_inj_r. discriminate Heq. }
  assert (forall kind q, stream_file c kind q -> exists a, q = current_path c kind +:+ a) as Hex.
  { intros kind q [->|[i ->]]; [exists ""; by rewrite append_empty_r|by eexists]. }
  intros [a ->]%Hex [b Hb]%Hex. by apply Hne in Hb.
Qed.

Definition other (kind : LogStreamKind) : LogStreamKind :=
  match kind with LS_kStdout => LS_kStderr | LS_kStderr => LS_kStdout end.

Lemma other_disjoint c kind p : stream_file c (other kind) p -> ~ stream_file c kind p.
Proof. destruct kind; simpl; intros H H'; by eapply stream_files_disjoint. Qed.

Lemma stream_set kind s k : stream kind (set_stream kind s k) = s.
Proof. by destruct kind. Qed.

Lemma stream_set_other kind s k : stream (other kind) (set_stream kind s k) = stream (other kind) k.
Proof. by destruct kind. Qed.

Lemma set_stream_frame kind s k :
  sk_config (set_stream kind s k) = sk_config k /\ sk_opened (set_stream kind s k) = sk_opened k /\
  sk_statistics (set_stream kind s k) = sk_statistics k /\ sk_options (set_stream kind s k) = sk_options k.
Proof. by destruct kind. Qed.

(** ** Opening and rotating *)

Section laws.
Context {I : Type} `{LogIoLaws I}.
Implicit Types (k : Sink) (io : I) (c : LogSinkConfig).

(** Only the files of [kind] may have changed. *)
Definition touches c kind io io' : Prop := io_keeps io_size io_target (fun p => ~ stream_file c kind p) io io'.

(** Every file of [kind] has at most [B] bytes. *)
Definition bounded c kind (B : N) io : Prop := forall p, stream_file c kind p -> io_size p io <= B.

(** What an operation on one stream leaves alone *)
Record SameRest kind k k' : Prop := {
  sr_other : stream (other kind) k' = stream (other kind) k;
  sr_config : sk_config k' = sk_config k;
  sr_options : sk_options k' = sk_options k;
  sr_opened : sk_opened k' = sk_opened k;
}.

(** The stream writes to its current file. *)
Definition attached kind k io : Prop :=
  (0 <= st_fd (stream kind k))%Z /\
  io_target (st_fd (stream kind k)) io = Some (current_path (sk_config k) kind).

Lemma keeps_trans (P : string -> Prop) io1 io2 io3 :
  io_keeps io_size io_target P io1 io2 -> io_keeps io_size io_target P io2 io3 ->
  io_keeps io_size io_target P io1 io3.
Proof.
  intros H1 H2 p Hp. destruct (H1 p Hp) as [S1 T1], (H2 p Hp) as [S2 T2].
  split; [congruence|]. auto.
Qed.

Lemma keeps_weaken (P Q : string -> Prop) io io' :
  (forall p, Q p -> P p) -> io_keeps io_size io_target P io io' -> io_keeps io_size io_target Q io io'.
Proof. intros HPQ Hk p Hp. by apply Hk, HPQ. Qed.

Lemma touches_trans c kind io1 io2 io3 :
  touches c kind io1 io2 -> touches c kind io2 io3 -> touches c kind io1 io3.
Proof. apply keeps_trans. Qed.

(** Closing the descriptor of the current file *)
Lemma close_touches c kind fd io :
  io_target fd io = Some (current_path c kind) -> touches c kind io (close_fd fd io).2.
Proof.
  intros Ht p Hp. destruct (close_fd_law fd io) as [Hs Hc]. split; [done|]. intros fd' Ht'.
  apply Hc; [|done]. intros ->. rewrite Ht in Ht'. injection Ht' as <-. apply Hp. by left.
Qed.

Lemma SameRest_refl kind k : SameRest kind k k.
Proof. done. Qed.

Lemma SameRest_trans kind k1 k2 k3 : SameRest kind k1 k2 -> SameRest kind k2 k3 -> SameRest kind k1 k3.
Proof. intros [] []. split; congruence. Qed.

Lemma SameRest_set kind s k : SameRest kind k (set_stream kind s k).
Proof. by destruct kind. Qed.

Record Opened kind k io (r : Result (LogSinkErrorCode * string) unit) k' io' : Prop := {
  op_rest : SameRest kind k k';
  op_stats : sk_statistics k' = sk_statistics k;
  op_sizes : forall p, io_size p io' = io_size p io;
  op_touches : touches (sk_config k) kind io io';
  op_stream : match r with
              | Ok _ => attached kind k' io' /\ st_open (stream kind k') = true /\
                  st_file_bytes (stream kind k') = io_size (current_path (sk_config k) kind) io /\
                  st_offset (stream kind k') = io_size (current_path (sk_config k) kind) io /\
                  st_pending_drop (stream kind k') = st_pending_drop (stream kind k)
              | Err _ => stream kind k' = stream kind k
              end;
}.

Lemma open_stream_spec kind k io r k' io' :
  open_stream kind k io = (r, k', io') -> Opened kind k io r k' io'.
Proof.
  unfold open_stream. pose proof (open_append_law (current_path (sk_config k) kind) io) as Ho.
  destruct (open_append _ io) as [[fd|error] io1].
  2: { intros [= <- <- <-]. split; try done; [by intros p; apply Ho|]. intros p Hp. by apply Ho. }
  destruct Ho as (Hfd & Ht & Hk). unfold apply_ownership_for_new_file.
  pose proof (apply_ownership_law fd (oo_owner_uid (sk_options k)) (oo_owner_gid (sk_options k)) io1) as Ha.
  destruct (apply_ownership _ _ _ _) as [answer io2]. simpl in Ha.
  pose proof (keeps_trans _ _ _ _ Hk Ha) as Hka. apply (proj2 (Ha (current_path (sk_config k) kind) Logic.I)) in Ht.
  assert (forall k1, sk_config k1 = sk_config k -> sk_options k1 = sk_options k -> sk_opened k1 = sk_opened k ->
    sk_statistics k1 = sk_statistics k -> (forall kind', stream kind' k1 = stream kind' k) -> forall e,
    Opened kind k io (Err e) k1 (close_fd fd io2).2) as Hfail.
  { intros k1 H1 H2 H3 H4 H5 e. destruct (close_fd_law fd io2) as [Hs _]. split; try done.
    - intros p. rewrite Hs. by apply Hka.
    - eapply touches_trans; [by eapply keeps_weaken; [|exact Hka]|]. by apply close_touches. }
  assert (forall k1, sk_config k1 = sk_config k -> sk_options k1 = sk_options k -> sk_opened k1 = sk_opened k ->
    sk_statistics k1 = sk_statistics k -> (forall kind', stream kind' k1 = stream kind' k) ->
    match file_size fd io2 with
    | None => (Err (LK_kOpenFailed, "fstat on the log file failed"), k1, (close_fd fd io2).2)
    | Some size =>
        let s := stream kind k1 in
        (Ok tt, set_stream kind {| s with st_fd := fd; st_open := true; st_file_bytes := size;
                                          st_offset := size |} k1, io2)
    end = (r, k', io') -> Opened kind k io r k' io') as Hsized.
  { intros k1 H1 H2 H3 H4 H5. destruct (file_size fd io2) as [n|] eqn:En.
    2: { intros [= <- <- <-]. by apply Hfail. }
    apply (file_size_law _ _ _ _ Ht) in En. intros [= <- <- <-].
    destruct (Hka (current_path (sk_config k) kind) Logic.I) as [Hsz _]. rewrite Hsz in En.
    split; try (by destruct kind).
    - split; [by rewrite stream_set_other|by destruct kind..].
    - intros p. by apply Hka.
    - by eapply keeps_weaken; [|exact Hka].
    - unfold attached. rewrite stream_set. simpl. split_and!; try done; [|by rewrite <- H5].
      destruct kind; simpl; by rewrite H1. }
  destruct answer as [error|].
  - destruct (oo_allow_ownership_downgrade (sk_options k)); [by apply Hsized|]. intros [= <- <- <-].
    by apply Hfail.
  - by apply Hsized.
Qed.

Definition moves c kind io io' : Prop :=
  touches c kind io io' /\ forall B, bounded c kind B io -> bounded c kind B io'.

Lemma moves_refl c kind io : moves c kind io io.
Proof. split; [|done]. by intros p Hp. Qed.

Lemma moves_trans c kind io1 io2 io3 : moves c kind io1 io2 -> moves c kind io2 io3 -> moves c kind io1 io3.
Proof. intros [T1 B1] [T2 B2]. split; [by eapply touches_trans|auto]. Qed.

Lemma same_sizes_moves c kind io io' :
  touches c kind io io' -> (forall p, io_size p io' = io_size p io) -> moves c kind io io'.
Proof. intros Ht Hs. split; [done|]. intros B Hb p Hp. rewrite Hs. by apply Hb. Qed.

Lemma rotate_moves c kind from to io :
  stream_file c kind from -> stream_file c kind to -> from <> to -> moves c kind io (rotate from to io).2.
Proof.
  intros Hf Ht Hne. destruct (rotate_law from to io Hne) as [Hr Hk]. split.
  - intros p Hp. apply Hk. split; intros ->; by apply Hp.
  - intros B Hb p Hp. destruct (decide (p = from)) as [Hpf|Hpf].
    { subst p. destruct (rotate from to io) as [[e|] io']; simpl in *; destruct Hr as [_ ->]; [by apply Hb|lia]. }
    destruct (decide (p = to)) as [Hpt|Hpt].
    { subst p. destruct (rotate from to io) as [[e|] io']; simpl in *; destruct Hr as [-> _]; by apply Hb. }
    destruct (Hk p) as [-> _]; [done|]. by apply Hb.
Qed.

Lemma shift_history_moves c kind n io : moves c kind io (shift_history c kind n io).
Proof.
  revert io. induction n as [|[|n] IH]; intros io; [apply moves_refl..|].
  change (shift_history c kind (S (S n)) io) with
    (shift_history c kind (S n)
       (rotate (history_path c kind (N.of_nat (S n))) (history_path c kind (N.of_nat (S (S n)))) io).2).
  eapply moves_trans; [|apply IH]. apply rotate_moves; [right; by eexists..|].
  intros Heq%history_inj. lia.
Qed.

Record Rotated kind k io (r : option string) k' io' : Prop := {
  ro_rest : SameRest kind k k';
  ro_moves : moves (sk_config k) kind io io';
  ro_offset : st_offset (stream kind k') = st_offset (stream kind k);
  ro_pending : st_pending_drop (stream kind k') = st_pending_drop (stream kind k);
  ro_dropped : ls_bytes_dropped (sk_statistics k') = ls_bytes_dropped (sk_statistics k);
  ro_failures : ls_write_failures (sk_statistics k') = ls_write_failures (sk_statistics k);
  ro_accepted : ls_bytes_accepted (sk_statistics k') = ls_bytes_accepted (sk_statistics k);
  ro_stream : match r with
              | None => attached kind k' io' /\ st_open (stream kind k') = true /\
                        st_file_bytes (stream kind k') = 0 /\
                        io_size (current_path (sk_config k) kind) io' = 0
              | Some _ => st_open (stream kind k') = false
              end;
}.

Lemma rotate_stream_spec kind k io r k' io' :
  attached kind k io -> rotate_stream kind k io = (r, k', io') -> Rotated kind k io r k' io'.
Proof.
  intros [Hfd Ht]. unfold rotate_stream. apply Z.leb_le in Hfd. rewrite Hfd.
  set (k1 := set_stream kind _ k). set (io1 := (close_fd _ io).2).
  assert (moves (sk_config k) kind io io1) as M1.
  { apply same_sizes_moves; [by apply close_touches|]. apply close_fd_law. }
  assert (sk_config k1 = sk_config k) as Hc by (by destruct kind).
  set (c := sk_config k) in *.
  match goal with |- context [let '(moved, io2) := ?x in _] => destruct x as [moved io2] eqn:Em end.
  assert (moves c kind io io2 /\ (moved = None -> io_size (current_path c kind) io2 = 0)) as [M2 Hz].
  { destruct (lc_rotation_history c =? 0).
    - destruct (remove_file_law (current_path c kind) io1) as [Hr Hk]. rewrite Em in Hr, Hk. simpl in Hk. split.
      + eapply moves_trans; [exact M1|]. split.
        * intros p Hp. apply Hk. intros ->. apply Hp. by left.
        * intros B Hb p Hp. destruct (decide (p = current_path c kind)) as [->|Hne].
          -- destruct moved; rewrite Hr; [by apply Hb|lia].
          -- destruct (Hk p Hne) as [-> _]. by apply Hb.
      + by intros ->.
    - assert (current_path c kind <> history_path c kind 1) as Hne by (intros Heq; by apply (history_neq_current c kind 1)).
      pose proof (rotate_law (current_path c kind) (history_path c kind 1)
        (shift_history c kind (N.to_nat (lc_rotation_history c)) io1) Hne) as [Hr _]. rewrite Em in Hr. split.
      + eapply moves_trans; [exact M1|]. eapply moves_trans; [apply shift_history_moves|].
        replace io2 with (rotate (current_path c kind) (history_path c kind 1)
          (shift_history c kind (N.to_nat (lc_rotation_history c)) io1)).2 by (by rewrite Em).
        apply rotate_moves; [by left|right; by eexists|done].
      + intros ->. apply Hr. }
  assert (SameRest kind k k1 /\ sk_statistics k1 = sk_statistics k) as [R1 S1] by (by destruct kind).
  assert (st_offset (stream kind k1) = st_offset (stream kind k) /\ st_open (stream kind k1) = false /\
    st_pending_drop (stream kind k1) = st_pending_drop (stream kind k)) as (O1 & C1 & P1) by (by destruct kind).
  destruct moved as [error|].
  { intros [= <- <- <-]. split; try done; by rewrite S1. }
  destruct (open_stream kind k1 io2) as [[r2 k2] io3] eqn:Eo. apply open_stream_spec in Eo as [R2 S2 Hs2 T2 St2].
  rewrite Hc in *. assert (moves c kind io io3) as M3 by (eapply moves_trans; [exact M2|]; by apply same_sizes_moves).
  pose proof (SameRest_trans _ _ _ _ R1 R2) as R. destruct r2 as [[]|[code error]].
  - destruct St2 as ((F1 & F2) & Op & Fb & _ & Pd). intros [= <- <- <-].
    rewrite (Hz eq_refl) in Fb. split; try done; simpl; rewrite ?stream_set_other; try (by destruct kind);
      try (destruct kind; simpl; by rewrite S2, S1).
    + destruct R. split; by destruct kind.
    + unfold attached in *. rewrite (sr_config _ _ _ R) in *. destruct kind; simpl in *;
        (split_and!; try done; rewrite ?(sr_config _ _ _ R), ?Hs2; auto).
  - intros [= <- <- <-]. simpl in St2.
    split; try done; rewrite ?St2; try done; by rewrite ?S2, ?S1.
Qed.

(** ** Appending *)

Lemma substring_split n s :
  (n <= String.length s)%nat ->
  String.substring 0 n s +:+ String.substring n (String.length s - n) s = s /\
  String.length (String.substring 0 n s) = n /\
  String.length (String.substring n (String.length s - n) s) = (String.length s - n)%nat.
Proof.
  revert n. induction s as [|a s IH]; intros [|n] Hn; simpl in *; try lia.
  - done.
  - assert (String.substring 0 (String.length s) s = s) as ->.
    { clear. induction s as [|b s IH]; simpl; [done|]. by rewrite IH. }
    done.
  - destruct (IH n) as (H1 & H2 & H3); [lia|]. rewrite append_cons, H1, H2, H3. done.
Qed.

Lemma pretty_go_length n s m : (n < 10 ^ N.of_nat m)%N ->
  (String.length (pretty_N_go n s) <= m + String.length s)%nat.
Proof.
  revert n s. induction m as [|m IH]; intros n s Hn.
  { assert (n = 0) as -> by (simpl in Hn; lia). by rewrite pretty_N_go_0. }
  destruct (decide (n = 0)) as [->|Hne]; [rewrite pretty_N_go_0; lia|].
  rewrite pretty_N_go_step by lia. etransitivity; [apply IH|simpl; lia].
  rewrite Nat2N.inj_succ, N.pow_succ_r' in Hn. apply N.Div0.div_lt_upper_bound. lia.
Qed.

Lemma marker_short n : n <= u64_max -> slen (drop_marker_text n) <= 64.
Proof.
  intros Hn. unfold drop_marker_text. rewrite !slen_append.
  assert (slen (pretty n) <= 20) as Hp.
  { unfold slen, pretty, pretty_N. destruct (decide (n = 0)); [simpl; lia|].
    pose proof (pretty_go_length n "" 20) as Hl. simpl in Hl. unfold u64_max in Hn.
    assert (n < 100000000000000000000) as Hn' by lia. specialize (Hl Hn'). lia. }
  change (slen "[yori] dropped ") with 15. change (slen " bytes") with 6. change (slen newline) with 1. lia.
Qed.

Definition max_bytes k : N := lc_max_file_bytes (sk_config k).

(** What failed writes may have left in the files without being counted *)
Definition slack k : N := 64 * ls_write_failures (sk_statistics k) + ls_bytes_dropped (sk_statistics k).

(** A log directory may hold files of earlier sinks of up to this size. *)
Variable old : N.

(** The state between two writes to one stream *)
Record Live kind k io : Prop := {
  lv_attached : attached kind k io;
  lv_open : st_open (stream kind k) = true;
  lv_bytes : st_file_bytes (stream kind k) <= N.max old (max_bytes k + 64);
  lv_size : io_size (current_path (sk_config k) kind) io <= st_file_bytes (stream kind k) + slack k;
  lv_bounded : bounded (sk_config k) kind (N.max old (max_bytes k + 64) + slack k) io;
}.

(** What the loop of [append] leaves behind *)
Record Looped kind k io (failure : option (LogSinkErrorCode * string)) (done rest : string) k' io' : Prop := {
  lo_rest : SameRest kind k k';
  lo_touches : touches (sk_config k) kind io io';
  lo_offset : st_offset (stream kind k') = st_offset (stream kind k) + slen done;
  lo_pending : st_pending_drop (stream kind k') = st_pending_drop (stream kind k);
  lo_dropped : ls_bytes_dropped (sk_statistics k') = ls_bytes_dropped (sk_statistics k);
  lo_accepted : ls_bytes_accepted (sk_statistics k') = ls_bytes_accepted (sk_statistics k);
  lo_outcome :
    match failure with
    | None => rest = "" /\ Live kind k' io' /\
        ls_write_failures (sk_statistics k') = ls_write_failures (sk_statistics k) /\
        st_file_bytes (stream kind k') <= N.max (st_file_bytes (stream kind k)) (max_bytes k)
    | Some (code, _) =>
        rest <> "" /\
        ((code = LK_kWriteFailed /\ attached kind k' io' /\ st_open (stream kind k') = true /\
          st_file_bytes (stream kind k') < max_bytes k' /\
          ls_write_failures (sk_statistics k') = ls_write_failures (sk_statistics k) + 1 /\
          io_size (current_path (sk_config k) kind) io' <= st_file_bytes (stream kind k') + slack k' + slen rest /\
          bounded (sk_config k) kind (N.max old (max_bytes k + 64) + slack k' + slen rest) io') \/
         (code = LK_kRotateFailed /\ st_open (stream kind k') = false /\
          ls_write_failures (sk_statistics k') = ls_write_failures (sk_statistics k) /\
          bounded (sk_config k) kind (N.max old (max_bytes k + 64) + slack k) io'))
    end;
}.

(** One successful write of the loop *)
Lemma write_chunk kind k io data io' :
  Live kind k io -> write_all (st_fd (stream kind k)) data io = (None, io') ->
  let s := stream kind k in
  let k' := set_stream kind {| s with st_file_bytes := st_file_bytes s + slen data;
                                      st_offset := st_offset s + slen data |} k in
  st_file_bytes s + slen data <= max_bytes k ->
  Live kind k' io' /\ SameRest kind k k' /\ touches (sk_config k) kind io io' /\ sk_statistics k' = sk_statistics k.
Proof.
  intros [[Hfd Ht] Hop Hb Hs Hbd] Hw s k' Hroom.
  destruct (write_all_law _ _ data _ Ht) as [Hsize [Htg Hoth]]. rewrite Hw in Hsize, Htg, Hoth. simpl in Htg, Hoth.
  assert (sk_statistics k' = sk_statistics k /\ sk_config k' = sk_config k) as [Hst Hc] by (by destruct kind).
  assert (max_bytes k' = max_bytes k /\ slack k' = slack k) as [Hm Hsl].
  { unfold max_bytes, slack. by rewrite Hst, Hc. }
  split_and!; [|apply SameRest_set| |done].
  - split; rewrite ?Hc, ?Hm, ?Hsl.
    + split; destruct kind; simpl in *; by rewrite ?Htg.
    + by destruct kind.
    + unfold k'. rewrite stream_set. simpl. fold s in Hb. lia.
    + unfold k'. rewrite stream_set, Hsize. simpl. fold s in Hs. lia.
    + intros p Hp. destruct (decide (p = current_path (sk_config k) kind)) as [->|Hne].
      * rewrite Hsize. fold s in Hs. lia.
      * rewrite Hoth by done. by apply Hbd.
  - intros p Hp. split; [|by intros fd; rewrite Htg]. apply Hoth. intros ->. apply Hp. by left.
Qed.

Lemma slack_eq k k' :
  ls_write_failures (sk_statistics k') = ls_write_failures (sk_statistics k) ->
  ls_bytes_dropped (sk_statistics k') = ls_bytes_dropped (sk_statistics k) -> slack k' = slack k.
Proof. unfold slack. by intros -> ->. Qed.

Lemma sempty_false_len s : sempty s = false -> s <> "" /\ 1 <= slen s.
Proof. destruct s; [done|]. rewrite slen_cons. split; [done|lia]. Qed.

(** A failing write stops the loop. *)
Lemma write_refused kind k io data io' error :
  Live kind k io -> write_all (st_fd (stream kind k)) data io = (Some error, io') ->
  st_file_bytes (stream kind k) < max_bytes k -> forall rest, rest <> "" -> slen data <= slen rest ->
  Looped kind k io (Some (LK_kWriteFailed, error)) "" rest (add_write_failure k) io'.
Proof.
  intros [[Hfd Ht] Hop Hb Hs Hbd] Hw Hroom rest Hne Hlen.
  destruct (write_all_law _ _ data _ Ht) as [Hsize [Htg Hoth]]. rewrite Hw in Hsize, Htg, Hoth. simpl in Htg, Hoth.
  assert (slack (add_write_failure k) = slack k + 64) as Hsl by (unfold slack; simpl; lia).
  split; try done; try (by destruct kind).
  - intros p Hp. split; [|by intros fd; rewrite Htg]. apply Hoth. intros ->. apply Hp. by left.
  - change (slen "") with 0. rewrite N.add_0_r. by destruct kind.
  - split; [done|]. left. split_and!; try done; try (by destruct kind).
    + split; destruct kind; simpl in *; by rewrite ?Htg.
    + rewrite Hsl. replace (stream kind (add_write_failure k)) with (stream kind k) by (by destruct kind). lia.
    + rewrite Hsl. intros p Hp. destruct (decide (p = current_path (sk_config k) kind)) as [->|Hp'].
      * lia.
      * rewrite Hoth by done. specialize (Hbd p Hp). lia.
Qed.

Lemma append_loop_spec fuel kind rotated rest k io :
  0 < max_bytes k -> Live kind k io ->
  (2 * String.length rest + (if (max_bytes k <=? st_file_bytes (stream kind k))%N then 2 else 1) <= fuel)%nat ->
  exists failure rotated' done rest' k' io',
    append_loop fuel kind rotated rest k io = Some (failure, rotated', rest', k', io') /\
    rest = done +:+ rest' /\ Looped kind k io failure done rest' k' io'.
Proof.
  intros Hmax. revert rotated rest k io Hmax. induction fuel as [|fuel IH]; intros rotated rest k io Hmax Hl Hf.
  { destruct (_ <=? _); lia. }
  cbn [append_loop]. destruct (sempty rest) eqn:Hempty.
  { destruct rest; [|done]. exists None, rotated, "", "", k, io. split_and!; try done.
    split; try done; [by change (slen "") with 0; rewrite N.add_0_r|]. split_and!; try done. lia. }
  apply sempty_false_len in Hempty as [Hne Hlen]. fold (max_bytes k). destruct (N.leb_spec (max_bytes k) (st_file_bytes (stream kind k))).
  - destruct (rotate_stream kind k io) as [[[error|] k1] io1] eqn:Hr;
      apply (rotate_stream_spec _ _ _ _ _ _ (lv_attached _ _ _ Hl)) in Hr as [R [T B] O P D F A St].
    + exists (Some (LK_kRotateFailed, error)), rotated, "", rest, k1, io1. split_and!; try done.
      split; try done; [by change (slen "") with 0; rewrite N.add_0_r|]. split; [done|]. right. split_and!; try done.
      apply B, (lv_bounded _ _ _ Hl).
    + destruct St as (Hat & Hop & Hfb & Hz).
      assert (max_bytes k1 = max_bytes k) as Hm by (unfold max_bytes; by rewrite (sr_config _ _ _ R)).
      assert (Live kind k1 io1) as Hl1.
      { split; try done; rewrite ?Hfb, ?Hm, ?(sr_config _ _ _ R), ?Hz, ?(slack_eq _ _ F D); try lia.
        apply B, (lv_bounded _ _ _ Hl). }
      destruct (IH true rest k1 io1) as (failure & rot' & dn & rest' & k' & io' & E & Hsplit & [R' T' O' P' D' A' Out]);
        [by rewrite Hm|done| |].
      { rewrite Hfb, Hm. destruct (N.leb_spec (max_bytes k) 0); lia. }
      exists failure, rot', dn, rest', k', io'. split_and!; try done.
      rewrite (sr_config _ _ _ R) in T', Out. rewrite F, (slack_eq _ _ F D), Hm in Out.
      split; try done; try congruence; [by eapply SameRest_trans|by eapply touches_trans|].
      destruct failure as [[]|]; [done|]. destruct Out as (? & ? & ? & ?). split_and!; try done. lia.
  - set (chunk := N.min (max_bytes k - st_file_bytes (stream kind k)) (slen rest)).
    set (n := N.to_nat chunk). assert (n <= String.length rest)%nat as Hn by (unfold n, chunk, slen; lia).
    destruct (substring_split n rest Hn) as (S1 & S2 & S3).
    assert (slen (String.substring 0 n rest) = chunk) as Hchunk by (unfold slen; rewrite S2; unfold n; lia).
    assert (1 <= chunk) as Hpos by (unfold chunk; lia).
    destruct (write_all _ _ io) as [[error|] io1] eqn:Hw.
    + exists (Some (LK_kWriteFailed, error)), rotated, "", rest, (add_write_failure k), io1.
      split_and!; try done. eapply write_refused; try done. rewrite Hchunk. unfold chunk. lia.
    + destruct (write_chunk kind k io _ io1 Hl Hw) as (Hl1 & R & T & St); [rewrite Hchunk; unfold chunk; lia|].
      rewrite Hchunk in Hl1, R, St. set (k1 := set_stream kind _ k) in *.
      assert (max_bytes k1 = max_bytes k) as Hm by (unfold max_bytes; by rewrite (sr_config _ _ _ R)).
      destruct (IH rotated (String.substring n (String.length rest - n) rest) k1 io1)
        as (failure & rot' & dn & rest' & k' & io' & E & Hsplit & [R' T' O' P' D' A' Out]); [by rewrite Hm|done| |].
      { rewrite S3. assert (1 <= n)%nat by (unfold n; lia). destruct (_ <=? _); lia. }
      exists failure, rot', (String.substring 0 n rest +:+ dn), rest', k', io'.
      split_and!; [done|by rewrite <- append_assoc, <- Hsplit, S1|].
      assert (slack k1 = slack k) as Hsl by (apply slack_eq; by rewrite St).
      rewrite (sr_config _ _ _ R) in T', Out. rewrite St, Hsl, Hm in Out. rewrite St in D', A'.
      split; try done.
      * by eapply SameRest_trans.
      * by eapply touches_trans.
      * rewrite O', slen_append, Hchunk. unfold k1. rewrite stream_set. simpl. lia.
      * rewrite P'. unfold k1. by rewrite stream_set.
      * destruct failure as [[]|]; [done|]. destruct Out as (? & ? & ? & Hfb). split_and!; try done.
        unfold k1 in Hfb. rewrite stream_set in Hfb. simpl in Hfb. unfold chunk in Hfb. lia.
Qed.

(** Without a rotation the data goes to the end of the current file. *)
Lemma append_loop_content fuel kind rest k io k' io' :
  attached kind k io -> append_loop fuel kind false rest k io = Some (None, false, "", k', io') ->
  io_content (current_path (sk_config k) kind) io' = io_content (current_path (sk_config k) kind) io +:+ rest.
Proof.
  assert (forall fuel rest k io failure rot rest' k' io',
    append_loop fuel kind true rest k io = Some (failure, rot, rest', k', io') -> rot = true) as Hrot.
  { clear. induction fuel as [|fuel IH]; intros rest k io failure rot rest' k' io'; [done|]. simpl.
    repeat case_match; intros; simplify_eq; try done; by eapply IH. }
  revert rest k io. induction fuel as [|fuel IH]; intros rest k io Hat; [done|]. cbn [append_loop].
  destruct (sempty rest) eqn:Hempty.
  { destruct rest; [|done]. intros [= <- <-]. by rewrite append_empty_r. }
  apply sempty_false_len in Hempty as [Hne Hlen]. fold (max_bytes k).
  destruct (N.leb_spec (max_bytes k) (st_file_bytes (stream kind k))).
  { destruct (rotate_stream kind k io) as [[[error|] k1] io1]; [done|]. intros E%Hrot. done. }
  set (n := N.to_nat _). assert (n <= String.length rest)%nat as Hn by (unfold n, slen; lia).
  destruct (substring_split n rest Hn) as (S1 & _ & _). destruct Hat as [Hfd Ht].
  pose proof (write_all_content _ _ (String.substring 0 n rest) _ Ht) as (Hw & Htg & _).
  destruct (write_all _ _ io) as [[error|] io1]; [done|]. simpl in Htg.
  match goal with |- append_loop _ _ _ _ ?k1 _ = _ -> _ => set (k1' := k1) end. intros E.
  assert (sk_config k1' = sk_config k) as Hc by (by destruct kind).
  rewrite <- Hc. rewrite (IH _ _ _) with (2 := E); [|split; rewrite ?Hc; destruct kind; simpl in *; by rewrite ?Htg].
  rewrite Hc, Hw, <- append_assoc. by rewrite S1.
Qed.

(** ** The invariant *)

Record StreamOk kind k io : Prop := {
  sm_bounded : bounded (sk_config k) kind (N.max old (max_bytes k + 64) + slack k) io;
  sm_live : st_open (stream kind k) = true -> Live kind k io;
  sm_marker : st_open (stream kind k) = true -> 0 < st_pending_drop (stream kind k) ->
    st_file_bytes (stream kind k) <= max_bytes k;
  sm_pending : st_pending_drop (stream kind k) <= ls_bytes_dropped (sk_statistics k);
}.

Definition SinkOk k io : Prop := 0 < max_bytes k /\ forall kind, StreamOk kind k io.

Lemma touches_bounded c kind io io' B :
  touches c kind io io' -> bounded c (other kind) B io -> bounded c (other kind) B io'.
Proof.
  intros Ht Hb p Hp. destruct (Ht p) as [-> _]; [by eapply other_disjoint|]. by apply Hb.
Qed.

(** Work on one stream leaves the other one in order. *)
Lemma other_ok kind k io k' io' :
  SameRest kind k k' -> touches (sk_config k) kind io io' ->
  ls_write_failures (sk_statistics k) <= ls_write_failures (sk_statistics k') ->
  ls_bytes_dropped (sk_statistics k) <= ls_bytes_dropped (sk_statistics k') ->
  StreamOk (other kind) k io -> StreamOk (other kind) k' io'.
Proof.
  intros [Ro Rc _ _] Ht Hf Hd [B L M P].
  assert (max_bytes k' = max_bytes k) as Hm by (unfold max_bytes; by rewrite Rc).
  assert (slack k <= slack k') as Hsl by (unfold slack; lia).
  assert (bounded (sk_config k') (other kind) (N.max old (max_bytes k' + 64) + slack k') io') as B'.
  { rewrite Rc, Hm. intros p Hp. etransitivity; [exact (touches_bounded _ _ _ _ _ Ht B p Hp)|lia]. }
  split; [done| |by rewrite Ro, Hm|rewrite Ro; lia].
  rewrite Ro. intros Hop. destruct (L Hop) as [[Hfd Htg] _ Hb Hs _]. rewrite ?Hm in *.
  assert (~ stream_file (sk_config k) kind (current_path (sk_config k) (other kind))) as Hnf
    by (apply other_disjoint; by left).
  destruct (Ht _ Hnf) as [Hsz Htg']. split; try done; rewrite ?Ro, ?Rc, ?Hm; try done.
  - split; rewrite ?Ro, ?Rc; auto.
  - rewrite Hsz. lia.
  - by rewrite <- Rc.
Qed.

Lemma kinds_ok kind k io : StreamOk kind k io -> StreamOk (other kind) k io -> forall kind', StreamOk kind' k io.
Proof. intros H1 H2 kind'. by destruct kind, kind'. Qed.

Lemma write_marker_spec kind k io k' io' :
  StreamOk kind k io -> st_open (stream kind k) = true -> ls_bytes_dropped (sk_statistics k) <= u64_max ->
  write_marker kind k io = (k', io') ->
  Live kind k' io' /\ SameRest kind k k' /\ touches (sk_config k) kind io io' /\
  st_offset (stream kind k') = st_offset (stream kind k) /\
  ls_bytes_dropped (sk_statistics k') = ls_bytes_dropped (sk_statistics k) /\
  ls_bytes_accepted (sk_statistics k') = ls_bytes_accepted (sk_statistics k) /\
  ls_write_failures (sk_statistics k) <= ls_write_failures (sk_statistics k') /\
  ((st_pending_drop (stream kind k') = 0 /\
    io_content (current_path (sk_config k) kind) io' = io_content (current_path (sk_config k) kind) io +:+
      (if 0 <? st_pending_drop (stream kind k) then drop_marker_text (st_pending_drop (stream kind k)) else "")) \/
   (0 < st_pending_drop (stream kind k) /\ st_pending_drop (stream kind k') = st_pending_drop (stream kind k) /\
    st_file_bytes (stream kind k') <= max_bytes k /\
    ls_write_failures (sk_statistics k) < ls_write_failures (sk_statistics k'))).
Proof.
  intros [B L M P] Hop Hu. unfold write_marker. destruct (N.ltb_spec 0 (st_pending_drop (stream kind k))) as [Hp|Hp].
  2: { intros [= <- <-]. split_and!; try done; [by apply L|]. left. rewrite append_empty_r. split; [lia|done]. }
  specialize (L Hop) as HL. destruct HL as [[Hfd Ht] _ Hb Hs Hbd]. specialize (M Hop Hp).
  assert (slen (drop_marker_text (st_pending_drop (stream kind k))) <= 64) as Hlen by (apply marker_short; lia).
  set (marker := drop_marker_text _) in *.
  destruct (write_all_law _ _ marker _ Ht) as [Hsize [Htg Hoth]].
  pose proof (proj1 (write_all_content _ _ marker _ Ht)) as Hcont.
  assert (forall io', (forall fd', io_target fd' io' = io_target fd' io) ->
    (forall p', p' <> current_path (sk_config k) kind -> io_size p' io' = io_size p' io) ->
    touches (sk_config k) kind io io') as Htouch.
  { intros io2 T2 O2 p Hnp. split; [|by intros fd; rewrite T2]. apply O2. intros ->. apply Hnp. by left. }
  destruct (write_all _ marker io) as [[error|] io1]; simpl in Htg, Hoth; intros [= <- <-].
  - assert (slack (add_write_failure k) = slack k + 64) as Hsl by (unfold slack; simpl; lia).
    assert (stream kind (add_write_failure k) = stream kind k) as Hst by (by destruct kind).
    split_and!; rewrite ?Hst; try done; [|by apply Htouch|simpl; lia|right; simpl; split_and!; try done; lia].
    split; rewrite ?Hst, ?Hsl; try done.
    + split; rewrite ?Hst, ?Htg; done.
    + simpl. lia.
    + intros p Hpf. change (max_bytes (add_write_failure k)) with (max_bytes k).
      destruct (decide (p = current_path (sk_config k) kind)) as [->|Hne]; [lia|].
      rewrite Hoth by done. specialize (Hbd p Hpf). lia.
  - set (k1 := set_stream kind _ k).
    assert (sk_config k1 = sk_config k /\ sk_statistics k1 = sk_statistics k) as [Hc Hst] by (by destruct kind).
    assert (max_bytes k1 = max_bytes k /\ slack k1 = slack k) as [Hm Hsl]
      by (unfold max_bytes, slack; by rewrite Hc, Hst).
    assert (stream kind k1 = mkStream (st_fd (stream kind k)) (st_open (stream kind k))
      (st_file_bytes (stream kind k) + slen marker) (st_offset (stream kind k)) 0) as Hk1 by (by destruct kind).
    rewrite Hst, Hk1. simpl. split_and!; try done; [|apply SameRest_set|by apply Htouch|by left].
    split; rewrite ?Hc, ?Hm, ?Hsl, ?Hk1; simpl; try done.
    + split; rewrite ?Hk1; simpl; [done|]. by rewrite Hc, Htg.
    + lia.
    + lia.
    + intros p Hpf. destruct (decide (p = current_path (sk_config k) kind)) as [->|Hne]; [lia|].
      rewrite Hoth by done. by apply Hbd.
Qed.

(** *** [append] *)

Record Appended kind data k io (r : LogWriteResult) k' io' : Prop := {
  ap_ok : SinkOk k' io';
  ap_bytes : lw_bytes_accepted r + lw_dropped_bytes r = slen data;
  ap_offset : st_offset (stream kind k') = st_offset (stream kind k) + lw_bytes_accepted r;
  ap_code : match lw_code r with
            | LK_kNone => lw_dropped_bytes r = 0 /\ st_open (stream kind k') = true
            | LK_kWriteFailed => 0 < lw_dropped_bytes r /\ st_open (stream kind k') = true
            | LK_kRotateFailed => 0 < lw_dropped_bytes r /\ st_open (stream kind k') = false
            | _ => False
            end;
  ap_content : lw_code r = LK_kNone -> lw_rotated r = false ->
    ls_write_failures (sk_statistics k') = ls_write_failures (sk_statistics k) ->
    st_pending_drop (stream kind k') = 0 /\
    io_content (current_path (sk_config k) kind) io' =
      io_content (current_path (sk_config k) kind) io +:+
      (if 0 <? st_pending_drop (stream kind k) then drop_marker_text (st_pending_drop (stream kind k)) else "") +:+ data;
  ap_other : stream (other kind) k' = stream (other kind) k;
  ap_accepted : ls_bytes_accepted (sk_statistics k') = ls_bytes_accepted (sk_statistics k) + lw_bytes_accepted r;
  ap_dropped : ls_bytes_dropped (sk_statistics k') = ls_bytes_dropped (sk_statistics k) + lw_dropped_bytes r;
  ap_failures : ls_write_failures (sk_statistics k) <= ls_write_failures (sk_statistics k');
  ap_config : sk_config k' = sk_config k /\ sk_opened k' = sk_opened k;
}.

Lemma looped_ok kind k io failure dn rest k' io' :
  0 < max_bytes k -> Looped kind k io failure dn rest k' io' ->
  st_pending_drop (stream kind k) <= ls_bytes_dropped (sk_statistics k) ->
  (0 < st_pending_drop (stream kind k) -> st_file_bytes (stream kind k) <= max_bytes k) ->
  ls_write_failures (sk_statistics k) <= ls_write_failures (sk_statistics k') /\
  forall k2, SameRest kind k' k2 ->
    stream kind k2 = (let s := stream kind k' in {| s with st_pending_drop := st_pending_drop s + slen rest |}) ->
    ls_write_failures (sk_statistics k2) = ls_write_failures (sk_statistics k') ->
    ls_bytes_dropped (sk_statistics k2) = ls_bytes_dropped (sk_statistics k') + slen rest ->
    StreamOk kind k2 io'.
Proof.
  intros Hmax [R T O P D A Out] Hpd Hpend.
  assert (max_bytes k' = max_bytes k) as Hm by (unfold max_bytes; by rewrite (sr_config _ _ _ R)).
  assert (forall k2, SameRest kind k' k2 -> max_bytes k2 = max_bytes k /\ sk_config k2 = sk_config k) as Hmc.
  { intros k2 [_ Rc _ _]. unfold max_bytes. by rewrite Rc, (sr_config _ _ _ R). }
  destruct failure as [[code error]|].
  - destruct Out as [Hne [(-> & Hat & Hop & Hfb & Hf & Hs & Hb)|(-> & Hop & Hf & Hb)]]; (split; [lia|]);
      intros k2 R2 Hs2 Hf2 Hd2; destruct (Hmc _ R2) as [Hm2 Hc2];
      assert (slack k2 = slack k' + slen rest) as Hsl by (unfold slack; lia).
    + split; rewrite ?Hc2, ?Hm2, ?Hsl, ?Hs2; simpl; [by rewrite N.add_assoc| |lia|lia].
      intros _. split; rewrite ?Hc2, ?Hm2, ?Hsl, ?Hs2; simpl; try lia; try done; [|by rewrite N.add_assoc].
      destruct Hat as [H1 H2]. rewrite (sr_config _ _ _ R) in H2. split; rewrite ?Hs2, ?Hc2; done.
    + assert (slack k' = slack k) as Hsk by (by apply slack_eq).
      split; rewrite ?Hc2, ?Hm2, ?Hsl, ?Hs2; simpl; try (by rewrite Hop); [|lia].
      intros p Hp. specialize (Hb p Hp). lia.
  - destruct Out as (-> & [Hat Hop Hfb Hs Hb] & Hf & Hfb'). split; [lia|]. intros k2 R2 Hs2 Hf2 Hd2.
    destruct (Hmc _ R2) as [Hm2 Hc2]. change (slen "") with 0 in *. rewrite N.add_0_r in *.
    assert (slack k2 = slack k') as Hsl by (by apply slack_eq).
    rewrite (sr_config _ _ _ R), Hm in *. assert (StreamOk kind k2 io') as ?; [|done].
    split; rewrite ?Hc2, ?Hm2, ?Hsl, ?Hs2; simpl; try done; [|lia..].
    intros _. split; rewrite ?Hc2, ?Hm2, ?Hsl, ?Hs2; simpl; try done.
    destruct Hat as [H1 H2]. rewrite (sr_config _ _ _ R) in H2. split; rewrite ?Hs2, ?Hc2; done.
Qed.

Lemma sink_append_spec kind data k io :
  SinkOk k io -> sink_is_open kind k = true -> ls_bytes_dropped (sk_statistics k) <= u64_max ->
  exists r k' io', sink_append kind data k io = Some (r, k', io') /\ Appended kind data k io r k' io'.
Proof.
  intros [Hmax Hok] Hopen Hu. unfold sink_is_open in Hopen. apply andb_true_iff in Hopen as [Hopened Hop].
  unfold sink_append. rewrite Hopened, Hop. cbn [negb orb].
  destruct (write_marker kind k io) as [k1 io1] eqn:Hmk.
  destruct (write_marker_spec _ _ _ _ _ (Hok kind) Hop Hu Hmk) as (L1 & R1 & T1 & O1 & D1 & A1 & F1 & Pend).
  assert (max_bytes k1 = max_bytes k) as Hm1 by (unfold max_bytes; by rewrite (sr_config _ _ _ R1)).
  destruct (append_loop_spec (append_fuel data) kind false data k1 io1) as
    (failure & rot & dn & rest & k2 & io2 & Hrun & Hdata & Hloop); [by rewrite Hm1|done|
      unfold append_fuel; destruct (_ <=? _); lia|]. rewrite Hrun.
  assert (st_pending_drop (stream kind k1) <= ls_bytes_dropped (sk_statistics k1)) as Hp1.
  { pose proof (sm_pending _ _ _ (Hok kind)). rewrite D1. destruct Pend as [[-> _]|(_ & -> & _)]; lia. }
  destruct (looped_ok _ _ _ _ _ _ _ _ ltac:(by rewrite Hm1) Hloop Hp1) as [F2 Hfin].
  { rewrite Hm1. destruct Pend as [[-> _]|(_ & _ & ? & _)]; [lia|done]. }
  assert (slen data = slen dn + slen rest) as Hlen by (rewrite Hdata; apply slen_append).
  set (k3 := set_stream kind _ k2). set (k4 := {| k3 with sk_statistics := _ |}).
  assert (SameRest kind k2 k4) as R4 by (by destruct kind).
  assert (stream kind k4 = (let s := stream kind k2 in {| s with st_pending_drop := st_pending_drop s + slen rest |}))
    as Hs4 by (by destruct kind).
  assert (sk_statistics k4 = (let stats := sk_statistics k2 in
     {| stats with ls_bytes_dropped := ls_bytes_dropped stats + slen rest;
                   ls_bytes_accepted := ls_bytes_accepted stats + (slen data - slen rest) |})) as Hst4 by (by destruct kind).
  destruct Hloop as [R2 T2 O2 P2 D2 A2 Out].
  pose proof (SameRest_trans _ _ _ _ R1 (SameRest_trans _ _ _ _ R2 R4)) as R.
  rewrite (sr_config _ _ _ R1) in T2. pose proof (touches_trans _ _ _ _ _ T1 T2) as T.
  destruct (default (LK_kNone, "") failure) as [code message] eqn:Edef. eexists _, k4, io2. split; [done|].
  split; cbn [lw_bytes_accepted lw_dropped_bytes lw_code lw_rotated].
  - split; [unfold max_bytes; by rewrite (sr_config _ _ _ R)|]. apply (kinds_ok kind).
    + apply Hfin; [done|done|by rewrite Hst4|by rewrite Hst4].
    + apply (other_ok kind k io k4 io2); try done; rewrite Hst4; simpl; lia.
  - lia.
  - rewrite Hs4. simpl. rewrite O2, O1. lia.
  - destruct failure as [[c e]|]; simplify_eq/=.
    + destruct Out as [Hne Hc]. assert (0 < slen rest) by (destruct rest; [done|rewrite slen_cons; lia]).
      destruct Hc as [(-> & _ & Hop2 & _)|(-> & Hop2 & _)]; simpl; rewrite Hs4; done.
    + destruct Out as (-> & Hlive & _). rewrite Hs4. split; [done|]. by destruct Hlive.
  - intros -> -> Hf4. rewrite Hst4 in Hf4. simpl in Hf4.
    destruct failure as [[c e]|]; simplify_eq/=; [by destruct Out as [_ [(Hc & _)|(Hc & _)]]|].
    destruct Out as (-> & _ & Hf2 & _). destruct Pend as [[Hp0 Hc1]|(_ & _ & _ & Hlt)]; [|lia].
    rewrite Hs4. simpl. change (slen "") with 0. rewrite P2, Hp0. split; [done|].
    apply append_loop_content in Hrun; [|apply L1]. rewrite (sr_config _ _ _ R1) in Hrun.
    by rewrite Hrun, Hc1, <- append_assoc.
  - apply R.
  - rewrite Hst4. simpl. lia.
  - rewrite Hst4. simpl. lia.
  - rewrite Hst4. simpl. lia.
  - split; apply R.
Qed.

(** ** Sessions *)

Lemma close_stream_ok kind k io s io' :
  SinkOk k io -> st_open s = false -> st_pending_drop s = st_pending_drop (stream kind k) ->
  io' = io \/ (st_open (stream kind k) = true /\ io' = (close_fd (st_fd (stream kind k)) io).2) ->
  SinkOk (set_stream kind s k) io'.
Proof.
  intros [Hmax Hok] Hs Hp Hio. destruct (set_stream_frame kind s k) as (Hc & _ & Hst & _).
  assert (max_bytes (set_stream kind s k) = max_bytes k /\ slack (set_stream kind s k) = slack k) as [Hm Hsl]
    by (unfold max_bytes, slack; by rewrite Hc, Hst).
  assert (touches (sk_config k) kind io io' /\ forall p, io_size p io' = io_size p io) as [Ht Hsz].
  { destruct Hio as [->|[Hop ->]]; [by split; [|done]; intros p|]. split; [|apply close_fd_law].
    apply close_touches, (sm_live _ _ _ (Hok kind) Hop). }
  split; [by rewrite Hm|]. apply (kinds_ok kind).
  - destruct (Hok kind) as [B L M P]. split; rewrite ?Hc, ?Hm, ?Hsl, ?stream_set, ?Hs, ?Hst, ?Hp; try done.
    intros p Hpf. rewrite Hsz. by apply B.
  - apply (other_ok kind k io); try done; [apply SameRest_set|by rewrite Hst..].
Qed.

Inductive sink_call :=
| CallAppend (kind : LogStreamKind) (data : string)
| CallClose (kind : LogStreamKind)
| CallCloseAll.

(** One call; [None] when [append] does not return. *)
Definition sink_step (call : sink_call) k io : option (Sink * I) :=
  match call with
  | CallAppend kind data => '(_, k', io') ← sink_append kind data k io; Some (k', io')
  | CallClose kind => let '(_, _, k', io') := sink_close kind k io in Some (k', io')
  | CallCloseAll => Some (close_all k io)
  end.

Fixpoint sink_run (calls : list sink_call) k io : option (Sink * I) :=
  match calls with
  | [] => Some (k, io)
  | call :: calls => '(k', io') ← sink_step call k io; sink_run calls k' io'
  end.

Definition call_bytes (call : sink_call) : N :=
  match call with CallAppend _ data => slen data | _ => 0 end.

Lemma close_one_ok kind k io k' io' : SinkOk k io -> close_stream kind k io = (k', io') ->
  SinkOk k' io' /\ sk_config k' = sk_config k /\ sk_statistics k' = sk_statistics k.
Proof.
  intros Hok. unfold close_stream. intros [= <- <-]. split; [|by destruct kind].
  apply (close_stream_ok kind k io); try done. destruct (st_open (stream kind k)); [|by left].
  destruct (_ <=? _)%Z; [by right|by left].
Qed.

Lemma close_all_ok k io k' io' : SinkOk k io -> close_all k io = (k', io') ->
  SinkOk k' io' /\ sk_config k' = sk_config k /\ sk_statistics k' = sk_statistics k.
Proof.
  intros Hok. unfold close_all.
  destruct (close_stream LS_kStdout k io) as [k1 io1] eqn:H1.
  destruct (close_one_ok _ _ _ _ _ Hok H1) as (Hok1 & Hc1 & Hs1).
  destruct (close_stream LS_kStderr k1 io1) as [k2 io2] eqn:H2.
  destruct (close_one_ok _ _ _ _ _ Hok1 H2) as ([Hm Hk] & Hc2 & Hs2).
  intros [= <- <-]. split_and!; simpl; [|congruence..]. split; [done|]. intros kind.
  destruct (Hk kind) as [B L M P]. split; try done.
  intros Hop. by destruct (L Hop).
Qed.

Lemma sink_step_ok call k io :
  SinkOk k io -> ls_bytes_dropped (sk_statistics k) + call_bytes call <= u64_max ->
  exists k' io', sink_step call k io = Some (k', io') /\ SinkOk k' io' /\ sk_config k' = sk_config k /\
    ls_bytes_dropped (sk_statistics k') <= ls_bytes_dropped (sk_statistics k) + call_bytes call.
Proof.
  intros Hok Hu. destruct call as [kind data|kind|]; simpl in *.
  - destruct (sink_is_open kind k) eqn:Hop.
    + destruct (sink_append_spec kind data k io Hok Hop) as (r & k' & io' & -> & [Ok' Hb _ _ _ _ _ Hd _ [Hc _]]); [lia|].
      exists k', io'. simpl. split_and!; try done. rewrite Hd. lia.
    + unfold sink_append. unfold sink_is_open in Hop.
      replace (negb (sk_opened k) || negb (st_open (stream kind k))) with true by (by rewrite <- negb_andb, Hop).
      exists k, io. simpl. split_and!; try done. lia.
  - unfold sink_close. destruct (st_open (stream kind k)) eqn:Hop; simpl; [|exists k, io; split_and!; try done; lia].
    destruct (st_fd (stream kind k) <? 0)%Z; [exists k, io; split_and!; try done; lia|].
    set (k1 := set_stream kind _ k).
    assert (SinkOk k1 (close_fd (st_fd (stream kind k)) io).2) as Hk1 by (apply (close_stream_ok kind k io); try done; by right).
    assert (sk_config k1 = sk_config k /\ sk_statistics k1 = sk_statistics k) as [Hc Hs] by (by destruct kind).
    destruct (close_fd _ io) as [[e|] io1]; exists k1, io1; (split_and!; try done; rewrite Hs; lia).
  - destruct (close_all k io) as [k' io'] eqn:Hrun. destruct (close_all_ok _ _ _ _ Hok Hrun) as (? & ? & Hs).
    exists k', io'. split_and!; try done. rewrite Hs. lia.
Qed.

Lemma sink_run_ok calls k io :
  SinkOk k io -> ls_bytes_dropped (sk_statistics k) + sum_sizes call_bytes calls <= u64_max ->
  exists k' io', sink_run calls k io = Some (k', io') /\ SinkOk k' io' /\ sk_config k' = sk_config k.
Proof.
  revert k io. induction calls as [|call calls IH]; intros k io Hok Hu; simpl in *; [by exists k, io|].
  destruct (sink_step_ok call k io Hok) as (k1 & io1 & -> & Hok1 & Hc & Hd); [lia|]. simpl.
  destruct (IH k1 io1 Hok1) as (k' & io' & -> & Hok' & Hc'); [lia|]. exists k', io'. split_and!; try done. congruence.
Qed.

(** Opening a fresh sink over log files that are within the bound *)
Lemma sink_open_ok config options io k' io' :
  (forall kind, bounded config kind old io) ->
  sink_open config options new_sink io = (Ok tt, k', io') ->
  SinkOk k' io' /\ sk_config k' = config /\ ls_bytes_dropped (sk_statistics k') = 0 /\
  forall kind, sink_is_open kind k' = true.
Proof.
  intros Hb. unfold sink_open. destruct (sink_config_valid config) eqn:Hvalid; cbn [negb]; [|done].
  unfold sink_config_valid in Hvalid. reflect_bools.
  cbn zeta. match goal with |- context [open_stream LS_kStdout ?x io] => set (k0 := x) end.
  destruct (open_stream LS_kStdout k0 io) as [[[[]|e] k1] io1] eqn:E1; [|by destruct (close_all k1 io1)].
  destruct (open_stream LS_kStderr k1 io1) as [[[[]|e] k2] io2] eqn:E2; [|by destruct (close_all k2 io2)].
  intros [= <- <-]. apply open_stream_spec in E1 as [R1 S1 Z1 T1 (At1 & Op1 & Fb1 & _ & Pd1)].
  apply open_stream_spec in E2 as [R2 S2 Z2 T2 (At2 & Op2 & Fb2 & _ & Pd2)].
  assert (sk_config k1 = config) as C1 by (by rewrite (sr_config _ _ _ R1)).
  assert (sk_config k2 = config) as C2 by (by rewrite (sr_config _ _ _ R2)).
  change (sk_config k0) with config in *. rewrite C1 in *.
  assert (stream LS_kStdout k2 = stream LS_kStdout k1) as Ho by apply (sr_other _ _ _ R2).
  assert (sk_statistics k2 = mkSinkStatistics 0 0 0 0) as St by (by rewrite S2, S1).
  assert (slack k2 = 0 /\ max_bytes k2 = lc_max_file_bytes config) as [Hsl Hm]
    by (unfold slack, max_bytes; by rewrite St, C2).
  assert (attached LS_kStdout k2 io2) as At1'.
  { destruct At1 as [F1 G1]. rewrite C1 in G1. split; rewrite Ho; [done|]. rewrite C2.
    apply T2; [|done]. apply (other_disjoint config LS_kStderr). by left. }
  set (k3 := {| k2 with sk_opened := true |}).
  assert (forall kind, st_file_bytes (stream kind k2) = io_size (current_path config kind) io /\
    st_open (stream kind k2) = true /\ st_pending_drop (stream kind k2) = 0 /\ attached kind k2 io2) as Hk.
  { intros []; [by rewrite Ho, Fb1, Op1, Pd1|]. rewrite Fb2, Op2, Pd2, Z1.
    pose proof (sr_other _ _ _ R1) as Hso. simpl in Hso. simpl. by rewrite Hso. }
  assert (forall kind, stream kind k3 = stream kind k2) as Hs3 by (by intros []).
  split_and!; [|done|unfold k3; simpl; by rewrite St|].
  - split; [change (0 < max_bytes k2); rewrite Hm; unfold kMinFileBytes in *; lia|]. intros kind.
    destruct (Hk kind) as (Fb & Op & Pd & At).
    assert (forall p, stream_file config kind p -> io_size p io2 <= N.max old (lc_max_file_bytes config + 64)) as Hbd.
    { intros p Hp. rewrite Z2, Z1. pose proof (Hb kind p Hp). lia. }
    split; rewrite ?Hs3; change (slack k3) with (slack k2); change (max_bytes k3) with (max_bytes k2);
      change (sk_config k3) with (sk_config k2); rewrite ?C2, ?Hm, ?Hsl, ?N.add_0_r; try done; [|lia|lia].
    intros _. split; rewrite ?Hs3; change (slack k3) with (slack k2); change (max_bytes k3) with (max_bytes k2);
      change (sk_config k3) with (sk_config k2); rewrite ?C2, ?Hm, ?Hsl, ?N.add_0_r; try done.
    + rewrite Fb. pose proof (Hb kind (current_path config kind) ltac:(by left)). lia.
    + by rewrite Z2, Z1, Fb.
  - intros kind. unfold sink_is_open. rewrite Hs3. by destruct (Hk kind) as (_ & -> & _).
Qed.

(** C34. Output is accounted for byte by byte: [append] on an open stream always
    returns (its loop over writes and rotations ends, the fuel suffices); the
    bytes accepted and dropped add up to the data; the logical offset grows by
    exactly the accepted ones, across rotations; bytes are dropped only with a
    reported failure, and a failed rotation closes the stream; the other stream
    is untouched; and when neither a rotation nor a failure happened, the
    current file grew by the pending drop marker, if any, and the data. *)
Theorem append_exact kind data k io :
  SinkOk k io -> sink_is_open kind k = true -> ls_bytes_dropped (sk_statistics k) <= u64_max ->
  exists r k' io', sink_append kind data k io = Some (r, k', io') /\ Appended kind data k io r k' io'.
Proof. apply sink_append_spec. Qed.

(** C35. Disk use is bounded: in any session of calls on a freshly opened sink
    (fewer than 2^64 bytes in all), every call returns, and at the end every
    file of the job's logs holds at most the configured size plus one drop
    marker, or, if that is more, the size of the largest log file that was there
    before the sink was opened; plus what failed writes may have left behind
    uncounted (64 bytes per failure and the dropped bytes). *)
Theorem sink_session_bounded config options io k0 io0 calls :
  (forall kind, bounded config kind old io) ->
  sink_open config options new_sink io = (Ok tt, k0, io0) ->
  sum_sizes call_bytes calls <= u64_max ->
  exists k' io', sink_run calls k0 io0 = Some (k', io') /\
    forall kind p, stream_file config kind p ->
      io_size p io' <= N.max old (lc_max_file_bytes config + 64)
        + 64 * ls_write_failures (sk_statistics k') + ls_bytes_dropped (sk_statistics k').
Proof.
  intros Hb Hopen Hu. destruct (sink_open_ok _ _ _ _ _ Hb Hopen) as (Hok & Hc & Hd & _).
  destruct (sink_run_ok calls k0 io0 Hok) as (k' & io' & Hrun & [_ Hok'] & Hc'); [lia|].
  exists k', io'. split; [done|]. intros kind p Hp. rewrite <- Hc, <- Hc' in Hp.
  pose proof (sm_bounded _ _ _ (Hok' kind) p Hp) as Hbd. unfold max_bytes, slack in Hbd.
  rewrite Hc', Hc in Hbd. lia.
Qed.
End laws.

(** ** A file system

    Files by path, the open descriptors (by index, [None] when closed or when
    their file has no name any more) and the faults to come: one entry is used
    up by every call, [Some n] makes it fail (a write after [n] bytes). *)

Record FileSystem := mkFileSystem {
  fs_files : gmap string string;
  fs_open : list (option string);
  fs_faults : list (option N);
}.

Definition fs_content (p : string) (fs : FileSystem) : string := default "" (fs_files fs !! p).

Definition fs_target (fd : Z) (fs : FileSystem) : option string :=
  if (fd <? 0)%Z then None else mjoin (fs_open fs !! Z.to_nat fd).

(** The next fault, and the rest *)
Definition fault (fs : FileSystem) : option N * FileSystem :=
  match fs_faults fs with
  | [] => (None, fs)
  | f :: rest => (f, {| fs with fs_faults := rest |})
  end.

(** [rename] takes the open descriptors of the file with it. *)
Definition redirect (from to : string) (o : option string) : option string :=
  match o with
  | Some p => if bool_decide (p = from) then Some to else if bool_decide (p = to) then None else Some p
  | None => None
  end.

#[export] Instance FileSystem_LogIo : LogIo FileSystem := {|
  open_append path fs :=
    let '(f, fs1) := fault fs in
    match f with
    | Some _ => (Err "open failed", fs1)
    | None =>
        (Ok (Z.of_nat (length (fs_open fs1))),
         mkFileSystem (<[path := fs_content path fs1]> (fs_files fs1)) (fs_open fs1 ++ [Some path]) (fs_faults fs1))
    end;
  write_all fd data fs :=
    let '(f, fs1) := fault fs in
    match fs_target fd fs1 with
    | None => (Some "write failed", fs1)
    | Some p =>
        let put s := {| fs1 with fs_files := <[p := fs_content p fs1 +:+ s]> (fs_files fs1) |} in
        match f with
        | Some n => (Some "write failed", put (String.substring 0 (N.to_nat n `min` String.length data)%nat data))
        | None => (None, put data)
        end
    end;
  close_fd fd fs :=
    let '(f, fs1) := fault fs in
    (match f with Some _ => Some "close failed" | None => None end,
     if (fd <? 0)%Z then fs1 else {| fs1 with fs_open := <[Z.to_nat fd := None]> (fs_open fs1) |});
  rotate from to fs :=
    let '(f, fs1) := fault fs in
    match f, fs_files fs1 !! from with
    | None, Some content =>
        if bool_decide (from = to) then (None, fs1)
        else (None, mkFileSystem (<[to := content]> (delete from (fs_files fs1)))
                      (redirect from to <$> fs_open fs1) (fs_faults fs1))
    | _, _ => (Some "rename failed", fs1)
    end;
  remove_file path fs :=
    let '(f, fs1) := fault fs in
    match f with
    | Some _ => (Some "unlink failed", fs1)
    | None =>
        (None, mkFileSystem (delete path (fs_files fs1))
                 ((fun o => if bool_decide (o = Some path) then None else o) <$> fs_open fs1) (fs_faults fs1))
    end;
  file_size fd fs := (fun p => slen (fs_content p fs)) <$> fs_target fd fs;
  apply_ownership fd uid gid fs :=
    let '(f, fs1) := fault fs in (match f with Some _ => Some "fchown failed" | None => None end, fs1);
|}.

Lemma fault_view fs : fs_files (fault fs).2 = fs_files fs /\ fs_open (fault fs).2 = fs_open fs.
Proof. unfold fault. by destruct (fs_faults fs). Qed.

Lemma fs_content_insert p q s fs l faults :
  fs_content q (mkFileSystem (<[p := s]> (fs_files fs)) l faults) = if bool_decide (q = p) then s else fs_content q fs.
Proof.
  unfold fs_content. simpl. case_bool_decide; [subst; by rewrite lookup_insert_eq|by rewrite lookup_insert_ne].
Qed.

Lemma fs_same (fs fs' : FileSystem) :
  fs_files fs' = fs_files fs -> fs_open fs' = fs_open fs ->
  (forall p, fs_content p fs' = fs_content p fs) /\ (forall fd, fs_target fd fs' = fs_target fd fs).
Proof. unfold fs_content, fs_target. by intros -> ->. Qed.

Lemma fs_fault fs : exists f fs1, fault fs = (f, fs1) /\
  (forall p, fs_content p fs1 = fs_content p fs) /\ (forall fd, fs_target fd fs1 = fs_target fd fs).
Proof.
  destruct (fault fs) as [f fs1] eqn:E. exists f, fs1. split; [done|].
  destruct (fault_view fs) as [H1 H2]. rewrite E in H1, H2. by apply fs_same.
Qed.

Lemma fs_target_some fd p fs : fs_target fd fs = Some p <-> (0 <= fd)%Z /\ fs_open fs !! Z.to_nat fd = Some (Some p).
Proof.
  unfold fs_target. destruct (Z.ltb_spec fd 0); [naive_solver lia|].
  destruct (fs_open fs !! Z.to_nat fd) as [[q|]|]; simpl; naive_solver.
Qed.

Lemma substring_prefix n s : exists rest, s = String.substring 0 n s +:+ rest.
Proof.
  revert n. induction s as [|a s IH]; intros [|n]; simpl; [by exists ""|by exists ""|by exists (String a s)|].
  destruct (IH n) as [rest Hr]. exists rest. by rewrite append_cons, <- Hr.
Qed.

#[export] Instance FileSystem_laws : LogIoLaws FileSystem.
Proof.
  refine {| io_content := fs_content; io_target := fs_target |}.
  - intros path fs. simpl. destruct (fs_fault fs) as (f & fs1 & -> & Hc & Ht). destruct f as [n|].
    { intros p _. rewrite Hc. split; [done|]. intros fd. by rewrite Ht. }
    split_and!; [lia| |].
    + apply fs_target_some. split; [lia|]. simpl. rewrite Nat2Z.id. by rewrite lookup_app_r, Nat.sub_diag by lia.
    + intros p _. rewrite fs_content_insert. split; [case_bool_decide; subst; by rewrite Hc|].
      intros fd. rewrite <- Ht, !fs_target_some. intros [Hfd Hl]. split; [done|]. simpl.
      rewrite lookup_app_l; [done|]. by eapply lookup_lt_Some.
  - intros fd p data fs. simpl. destruct (fs_fault fs) as (f & fs1 & -> & Hc & Ht). rewrite <- Ht. intros Hfd.
    rewrite Hfd. destruct f as [n|]; simpl.
    + split.
      * destruct (substring_prefix (N.to_nat n `min` String.length data)%nat data) as [rest Hr].
        exists (String.substring 0 (N.to_nat n `min` String.length data)%nat data), rest. split; [done|].
        rewrite fs_content_insert, bool_decide_eq_true_2 by done. by rewrite Hc.
      * split; [by intros fd'; rewrite <- Ht|]. intros p' Hne. by rewrite fs_content_insert, bool_decide_eq_false_2, Hc.
    + split; [rewrite fs_content_insert, bool_decide_eq_true_2 by done; by rewrite Hc|].
      split; [by intros fd'; rewrite <- Ht|]. intros p' Hne. by rewrite fs_content_insert, bool_decide_eq_false_2, Hc.
  - intros fd fs. simpl. destruct (fs_fault fs) as (f & fs1 & -> & Hc & Ht). simpl.
    destruct (fd <? 0)%Z eqn:Hneg; [split; [done|]; intros fd' p _; by rewrite Ht|]. split; [done|].
    intros fd' p Hne. rewrite <- Ht, !fs_target_some. intros [Hfd Hl]. split; [done|]. simpl.
    apply Z.ltb_ge in Hneg. rewrite list_lookup_insert_ne; [done|]. intros Heq. apply Hne. lia.
  - intros from to fs Hne. simpl. destruct (fs_fault fs) as (f & fs1 & -> & Hc & Ht).
    assert (forall P, io_keeps fs_content fs_target P fs fs1) as Hk.
    { intros P p _. split; [done|]. intros fd. by rewrite Ht. }
    destruct f as [n|]; [by split; [rewrite !Hc|]|]. destruct (fs_files fs1 !! from) as [content|] eqn:Hf.
    2: { by split; [rewrite !Hc|]. }
    rewrite bool_decide_eq_false_2 by done. simpl.
    assert (fs_content from fs = content) as Hfrom by (rewrite <- Hc; unfold fs_content; by rewrite Hf).
    split.
    + unfold fs_content at 1 3. simpl. rewrite lookup_insert_eq, lookup_insert_ne, lookup_delete_eq by done.
      by rewrite Hfrom.
    + intros p [Hpf Hpt]. split.
      * rewrite <- Hc. unfold fs_content. simpl. by rewrite lookup_insert_ne, lookup_delete_ne.
      * intros fd. rewrite <- Ht, !fs_target_some. intros [Hfd Hl]. split; [done|]. simpl.
        rewrite list_lookup_fmap, Hl. simpl. by rewrite !bool_decide_eq_false_2.
  - intros path fs. simpl. destruct (fs_fault fs) as (f & fs1 & -> & Hc & Ht). destruct f as [n|].
    { split; [by rewrite Hc|]. intros p _. split; [done|]. intros fd. by rewrite Ht. }
    simpl. split; [unfold fs_content; simpl; by rewrite lookup_delete_eq|]. intros p Hp. split.
    + rewrite <- Hc. unfold fs_content. simpl. by rewrite lookup_delete_ne.
    + intros fd. rewrite <- Ht, !fs_target_some. intros [Hfd Hl]. split; [done|]. simpl.
      rewrite list_lookup_fmap, Hl. simpl. rewrite bool_decide_eq_false_2; [done|]. congruence.
  - intros fd p n fs Ht. simpl. rewrite Ht. simpl. by intros [= <-].
  - intros fd uid gid fs. simpl. destruct (fs_fault fs) as (f & fs1 & -> & Hc & Ht). simpl.
    intros p _. split; [done|]. intros fd'. by rewrite Ht.
Defined.

(** ** Examples and witnesses *)

Definition example_sink_config : LogSinkConfig := mkSinkConfig "/var/log/7" 4096 1.

Definition empty_fs : FileSystem := mkFileSystem ∅ [] [].

Definition opened_sink : Sink * FileSystem :=
  let '(_, k, io) := sink_open example_sink_config (mkOpenOptions 1000 1000 true) new_sink empty_fs in (k, io).

Fixpoint repeat_char (c : ascii) (n : nat) : string :=
  match n with O => EmptyString | S n => String c (repeat_char c n) end.

Definition long_output : string := repeat_char "x"%char 5000.

(** 5000 bytes into files of 4096: one rotation *)
Example append_rotates :
  (fun '(r, k, io) => (r, st_offset (stream LS_kStdout k), io_size "/var/log/7/stdout.log" io,
                       io_size "/var/log/7/stdout.log.1" io))
    <$> sink_append LS_kStdout long_output opened_sink.1 opened_sink.2
  = Some (mkLogWrite LK_kNone 5000 0 true "", 5000, 904, 4096).
Proof. vm_compute. reflexivity. Qed.

Lemma empty_fs_bounded c kind B : bounded c kind B empty_fs.
Proof. intros p _. unfold io_size, empty_fs. simpl. unfold fs_content. simpl. rewrite lookup_empty. simpl. unfold slen. simpl. lia. Qed.

Lemma opened_sink_ok : SinkOk 0 opened_sink.1 opened_sink.2 /\ sink_is_open LS_kStdout opened_sink.1 = true.
Proof.
  destruct (sink_open example_sink_config (mkOpenOptions 1000 1000 true) new_sink empty_fs) as [[r k] io] eqn:E.
  assert (r = Ok tt) as -> by (vm_compute in E; by injection E as <- _ _).
  replace opened_sink with (k, io) by (unfold opened_sink; by rewrite E).
  destruct (sink_open_ok 0 _ _ _ _ _ ltac:(intros kind; apply empty_fs_bounded) E) as (Hok & _ & _ & Hop). by split.
Qed.

Lemma append_exact_witness :
  exists r k' io', sink_append LS_kStdout long_output opened_sink.1 opened_sink.2 = Some (r, k', io') /\
    Appended 0 LS_kStdout long_output opened_sink.1 opened_sink.2 r k' io'.
Proof.
  apply (append_exact 0 LS_kStdout long_output opened_sink.1 opened_sink.2);
    [exact (proj1 opened_sink_ok)|exact (proj2 opened_sink_ok)|vm_compute; discriminate].
Defined.

(** A directory that already holds a file over the limit, as after the limit was
    lowered *)
Definition used_fs : FileSystem := mkFileSystem {[ "/var/log/7/stdout.log" := long_output ]} [] [].

Lemma used_fs_bounded c kind : bounded c kind 5000 used_fs.
Proof.
  intros p _. unfold io_size, used_fs. simpl. unfold fs_content. simpl.
  destruct (decide (p = "/var/log/7/stdout.log")) as [->|Hne].
  - rewrite lookup_singleton_eq. vm_compute. discriminate.
  - rewrite lookup_singleton_ne by done. vm_compute. discriminate.
Qed.

Definition reopened_sink : Sink * FileSystem :=
  let '(_, k, io) := sink_open example_sink_config (mkOpenOptions 1000 1000 true) new_sink used_fs in (k, io).

Lemma sink_session_bounded_witness :
  exists k' io', sink_run [CallAppend LS_kStdout long_output; CallAppend LS_kStdout long_output; CallCloseAll]
      reopened_sink.1 reopened_sink.2 = Some (k', io') /\
    forall kind p, stream_file example_sink_config kind p ->
      io_size p io' <= 5000 + 64 * ls_write_failures (sk_statistics k') + ls_bytes_dropped (sk_statistics k').
Proof.
  apply (sink_session_bounded 5000 example_sink_config (mkOpenOptions 1000 1000 true) used_fs).
  - intros kind. apply used_fs_bounded.
  - vm_compute. reflexivity.
  - vm_compute. discriminate.
Defined.
