(* ===== verification/PosixIo.v ===== *)
(** * The default [LogIo]: [PosixLogIo] of [src/observe/log_sink.cpp]

    [PosixLogIo] turns system calls into the interface that the log sink is
    written against: partial writes and [EINTR] are retried, errors become texts.
    The kernel is a file system with a script of answers, one for each system
    call: an [errno], or how much a [write] takes.  [PosixHost_laws] shows that
    the class keeps the contract [LogIoLaws], so what is proved of the sink for
    any [LogIo] holds for the files of the daemon; [posix_write_exact] is the
    case of a write. *)

From stdpp Require Import pretty.
From S2P Require Import Prelude.
From S2P Require Import Supervisor.
From S2P Require Import Service.
From S2P Require Import LogSink.
#[local] Open Scope N_scope.

(** ** The kernel *)

(** The answer to one system call; a write takes [cut + 1] bytes at most. *)
Inductive SysAnswer := SY_error (errno : Z) | SY_ok (cut : nat).

Definition sys_error (a : option SysAnswer) : option Z :=
  match a with Some (SY_error errno) => Some errno | _ => None end.

Record PosixHost := mkPosixHost {
  ph_files : gmap string string;
  ph_open : list (option string);
  ph_answers : list SysAnswer;
  ph_fstat : bool;
}.

Definition host_fs (h : PosixHost) : FileSystem := mkFileSystem (ph_files h) (ph_open h) [].
Definition with_fs (fs : FileSystem) (h : PosixHost) : PosixHost :=
  {| h with ph_files := fs_files fs; ph_open := fs_open fs |}.

(** The next answer *)
Definition next_answer (h : PosixHost) : option SysAnswer * PosixHost :=
  match ph_answers h with
  | [] => (None, h)
  | a :: rest => (Some a, {| h with ph_answers := rest |})
  end.

Definition EINTR_number : Z := 4.
Definition ENOENT_number : Z := 2.
Definition EBADF_number : Z := 9.

(** [write(2)]: how many bytes it took *)
Definition sys_write (fd : Z) (cut : nat) (data : string) (fs : FileSystem) : option (string * FileSystem) :=
  match fs_target fd fs with
  | None => None
  | Some p =>
      let part := String.substring 0 (S cut) data in
      Some (part, {| fs with fs_files := <[p := fs_content p fs +:+ part]> (fs_files fs) |})
  end.

Fixpoint drop_bytes (n : nat) (s : string) : string :=
  match n, s with O, _ => s | S n, String _ s => drop_bytes n s | S _, EmptyString => EmptyString end.

(** ** [PosixLogIo] *)

Definition errno_text (errno : Z) : string := "failed: errno " +:+ pretty errno.

(** [open_append] *)
Definition posix_open_append (path : string) (h : PosixHost) : Result string Z * PosixHost :=
  let '(a, h) := next_answer h in
  match sys_error a with
  | Some errno => (Err ("open(" +:+ path +:+ ") " +:+ errno_text errno), h)
  | None => let '(fd, fs) := open_append path (host_fs h) in (fd, with_fs fs h)
  end.

(** [write_all]'s loop; without an answer a write takes everything. *)
Fixpoint write_loop (fd : Z) (answers : list SysAnswer) (data : string) (fs : FileSystem)
  : option string * list SysAnswer * FileSystem :=
  if sempty data then (None, answers, fs)
  else
    match answers with
    | SY_error errno :: answers =>
        if (errno =? EINTR_number)%Z then write_loop fd answers data fs
        else (Some ("write " +:+ errno_text errno), answers, fs)
    | SY_ok cut :: answers =>
        match sys_write fd cut data fs with
        | None => (Some ("write " +:+ errno_text EBADF_number), answers, fs)
        | Some (part, fs) => write_loop fd answers (drop_bytes (String.length part) data) fs
        end
    | [] =>
        match sys_write fd (String.length data) data fs with
        | None => (Some ("write " +:+ errno_text EBADF_number), [], fs)
        | Some (_, fs) => (None, [], fs)
        end
    end.

Definition posix_write_all (fd : Z) (data : string) (h : PosixHost) : option string * PosixHost :=
  let '(error, answers, fs) := write_loop fd (ph_answers h) data (host_fs h) in
  (error, {| h with ph_files := fs_files fs; ph_open := fs_open fs; ph_answers := answers |}).

(** [close_fd]: the descriptor is gone whatever [close(2)] answers. *)
Definition posix_close_fd (fd : Z) (h : PosixHost) : option string * PosixHost :=
  let '(a, h) := next_answer h in
  let '(_, fs) := close_fd fd (host_fs h) in
  (match sys_error a with
   | Some errno => if (errno =? EINTR_number)%Z then None else Some ("close " +:+ errno_text errno)
   | None => None
   end, with_fs fs h).

(** [rotate] *)
Definition posix_rotate (from to : string) (h : PosixHost) : option string * PosixHost :=
  let '(a, h) := next_answer h in
  let text errno := "rename(" +:+ from +:+ ", " +:+ to +:+ ") " +:+ errno_text errno in
  match sys_error a with
  | Some errno => (Some (text errno), h)
  | None =>
      match rotate from to (host_fs h) with
      | (None, fs) => (None, with_fs fs h)
      | (Some _, fs) => (Some (text ENOENT_number), with_fs fs h)
      end
  end.

(** [unlink(2)] answers [ENOENT] exactly when there is no file. *)
Definition sys_unlink (a : option SysAnswer) (path : string) (fs : FileSystem) : option Z * FileSystem :=
  match fs_files fs !! path with
  | None => (Some ENOENT_number, fs)
  | Some _ =>
      match sys_error a with
      | Some errno => if (errno =? ENOENT_number)%Z then (None, (remove_file path fs).2) else (Some errno, fs)
      | None => (None, (remove_file path fs).2)
      end
  end.

(** [remove_file] *)
Definition posix_remove_file (path : string) (h : PosixHost) : option string * PosixHost :=
  let '(a, h) := next_answer h in
  let '(errno, fs) := sys_unlink a path (host_fs h) in
  (match errno with
   | Some errno =>
       if (errno =? ENOENT_number)%Z then None else Some ("unlink(" +:+ path +:+ ") " +:+ errno_text errno)
   | None => None
   end, with_fs fs h).

(** [file_size]; [None] is [kUnknownFileSize]. *)
Definition posix_file_size (fd : Z) (h : PosixHost) : option N :=
  if ph_fstat h then file_size fd (host_fs h) else None.

(** [apply_ownership]: [fchmod], then [fchown] *)
Definition posix_apply_ownership (fd : Z) (uid gid : N) (h : PosixHost) : option string * PosixHost :=
  let '(a, h) := next_answer h in
  match sys_error a with
  | Some errno => (Some ("fchmod 0640 " +:+ errno_text errno), h)
  | None =>
      let '(a, h) := next_answer h in
      (match sys_error a with Some errno => Some ("fchown " +:+ errno_text errno) | None => None end, h)
  end.

#[export] Instance PosixHost_LogIo : LogIo PosixHost := {|
  open_append := posix_open_append;
  write_all := posix_write_all;
  close_fd := posix_close_fd;
  rotate := posix_rotate;
  remove_file := posix_remove_file;
  file_size := posix_file_size;
  apply_ownership := posix_apply_ownership;
|}.

(** ** The contract *)

Definition posix_content (p : string) (h : PosixHost) : string := fs_content p (host_fs h).
Definition posix_target (fd : Z) (h : PosixHost) : option string := fs_target fd (host_fs h).

Lemma next_answer_fs h : host_fs (next_answer h).2 = host_fs h.
Proof. unfold next_answer. by destruct (ph_answers h). Qed.

Lemma host_fs_with fs h : fs_faults fs = [] -> host_fs (with_fs fs h) = fs.
Proof. destruct fs. cbn. by intros ->. Qed.

Lemma drop_prefix n data : data = String.substring 0 n data +:+ drop_bytes (String.length (String.substring 0 n data)) data.
Proof.
  revert n. induction data as [|c data IH]; intros [|n]; cbn; [done..|]. rewrite append_cons. f_equal. apply IH.
Qed.

(** One [write] appends what it took, and touches nothing else. *)
Lemma sys_write_spec fd p cut data fs part fs' :
  fs_target fd fs = Some p -> sys_write fd cut data fs = Some (part, fs') ->
  part = String.substring 0 (S cut) data /\ fs_content p fs' = fs_content p fs +:+ part /\ fs_faults fs' = fs_faults fs /\
  (forall fd', fs_target fd' fs' = fs_target fd' fs) /\ (forall p', p' <> p -> fs_content p' fs' = fs_content p' fs).
Proof.
  intros Ht. unfold sys_write. rewrite Ht. intros [= <- <-]. split; [done|]. unfold fs_content at 1. cbn.
  rewrite lookup_insert_eq. split_and!; try done. intros p' Hne. unfold fs_content. cbn. by rewrite lookup_insert_ne.
Qed.

(** The whole loop: all of the data, or an error and a part of it *)
Lemma write_loop_spec fd p answers data fs :
  fs_target fd fs = Some p ->
  let '(error, _, fs') := write_loop fd answers data fs in
  match error with
  | None => fs_content p fs' = fs_content p fs +:+ data
  | Some _ => exists part rest, data = part +:+ rest /\ fs_content p fs' = fs_content p fs +:+ part
  end /\ fs_faults fs' = fs_faults fs /\
  (forall fd', fs_target fd' fs' = fs_target fd' fs) /\ (forall p', p' <> p -> fs_content p' fs' = fs_content p' fs).
Proof.
  revert data fs. induction answers as [|[errno|cut] answers IH]; intros data fs Ht; cbn [write_loop];
    (destruct data as [|c data0]; [cbn [sempty]; rewrite append_empty_r; by split_and!|]); cbn [sempty]; set (data := String c data0).
  - destruct (sys_write fd (String.length data) data fs) as [[part fs']|] eqn:E.
    + destruct (sys_write_spec _ _ _ _ _ _ _ Ht E) as (-> & Hc & Hrest). rewrite substring_all in Hc by lia. by split.
    + unfold sys_write in E. by rewrite Ht in E.
  - destruct (errno =? EINTR_number)%Z; [by apply IH|]. split_and!; try done. exists "", data. by rewrite append_empty_r.
  - destruct (sys_write fd cut data fs) as [[part fs1]|] eqn:E; [|unfold sys_write in E; by rewrite Ht in E].
    destruct (sys_write_spec _ _ _ _ _ _ _ Ht E) as (Hp & Hc & Hf & Ht1 & Ho).
    specialize (IH (drop_bytes (String.length part) data) fs1). rewrite Ht1 in IH. specialize (IH Ht).
    pose proof (drop_prefix (S cut) data) as Hd. rewrite <- Hp in Hd. set (rest := drop_bytes _ _) in *. clearbody rest data.
    destruct (write_loop fd answers rest fs1) as [[error answers'] fs'].
    destruct IH as (IHc & IHf & IHt & IHo). subst data. split_and!.
    + destruct error as [text|].
      * destruct IHc as (part' & rest' & -> & ->). exists (part +:+ part'), rest'. by rewrite Hc, !append_assoc.
      * by rewrite IHc, Hc, append_assoc.
    + by rewrite IHf.
    + intros fd'. by rewrite IHt.
    + intros p' Hne. by rewrite IHo, Ho.
Qed.

Lemma host_fs_open path h : fs_faults (open_append path (host_fs h)).2 = [].
Proof. done. Qed.

(** [PosixLogIo] keeps the contract of [LogIo], whatever the kernel answers. *)
#[export] Instance PosixHost_laws : LogIoLaws PosixHost.
Proof.
  refine {| io_content := posix_content; io_target := posix_target |}; unfold posix_content, posix_target; cbn.
  - intros path h. unfold posix_open_append. pose proof (next_answer_fs h) as Hn. destruct (next_answer h) as [a h1].
    cbn [snd] in Hn. destruct (sys_error a); [unfold io_keeps; by rewrite Hn|].
    pose proof (open_append_content path (host_fs h1)) as Hl. pose proof (host_fs_open path h1) as Hf.
    destruct (open_append path (host_fs h1)) as [[fd|e] fs]; cbn [snd] in Hf; unfold io_keeps in *; rewrite host_fs_with by done;
      rewrite <- Hn; exact Hl.
  - intros fd p data h Ht. unfold posix_write_all. pose proof (write_loop_spec fd p (ph_answers h) data (host_fs h) Ht) as Hl.
    destruct (write_loop _ _ _ _) as [[error answers] fs]. destruct Hl as (Hc & Hf & Htt & Ho).
    assert (forall h', host_fs {| h' with ph_files := fs_files fs; ph_open := fs_open fs; ph_answers := answers |} = fs) as Hfs
      by (intros h'; destruct fs; cbn in *; by rewrite Hf).
    cbn [snd]. rewrite Hfs. split; [exact Hc|]. split; [exact Htt|exact Ho].
  - intros fd h. unfold posix_close_fd. pose proof (next_answer_fs h) as Hn. destruct (next_answer h) as [a h1]. cbn [snd] in Hn.
    pose proof (close_fd_content fd (host_fs h1)) as Hl. cbn zeta in Hl.
    assert (fs_faults (close_fd fd (host_fs h1)).2 = []) as Hf by (cbn; by destruct (fd <? 0)%Z).
    destruct (close_fd fd (host_fs h1)) as [e fs]. cbn [snd] in *. rewrite host_fs_with by done. rewrite <- Hn. exact Hl.
  - intros from to h Hne. unfold posix_rotate. pose proof (next_answer_fs h) as Hn. destruct (next_answer h) as [a h1].
    cbn [snd] in Hn. destruct (sys_error a); [cbn [snd]; unfold io_keeps; by rewrite Hn|].
    pose proof (rotate_content from to (host_fs h1) Hne) as Hl. unfold io_keeps in *.
    assert (fs_faults (rotate from to (host_fs h1)).2 = []) as Hf by (cbn; repeat case_match; done).
    destruct (rotate from to (host_fs h1)) as [[e|] fs]; cbn [snd] in *; rewrite host_fs_with by done; rewrite <- Hn; exact Hl.
  - intros path h. unfold posix_remove_file, sys_unlink. pose proof (next_answer_fs h) as Hn.
    destruct (next_answer h) as [a h1]. cbn [snd] in Hn.
    pose proof (remove_file_content path (host_fs h1)) as Hl. unfold io_keeps in *.
    assert ((remove_file path (host_fs h1)).1 = None /\ fs_faults (remove_file path (host_fs h1)).2 = []) as [He Hf] by done.
    destruct (remove_file path (host_fs h1)) as [e fs]. cbn [fst snd] in He, Hf, Hl. subst e.
    destruct (fs_files (host_fs h1) !! path) as [content|] eqn:Hc; cbn [snd].
    2: { cbn. rewrite host_fs_with by done. rewrite Hn. split; [rewrite <- Hn; unfold fs_content; by rewrite Hc|done]. }
    destruct (sys_error a) as [errno|]; [destruct (errno =? ENOENT_number)%Z eqn:Heq|]; cbn [snd].
    2: rewrite Heq; cbn [snd].
    all: rewrite host_fs_with by done; rewrite <- Hn; done.
  - intros fd p n h Ht. unfold posix_file_size. destruct (ph_fstat h); [|done]. exact (file_size_content fd p n (host_fs h) Ht).
  - intros fd uid gid h. unfold posix_apply_ownership. pose proof (next_answer_fs h) as Hn.
    destruct (next_answer h) as [a h1]. cbn [snd] in Hn. unfold io_keeps.
    destruct (sys_error a); cbn [snd]; [by rewrite Hn|].
    pose proof (next_answer_fs h1) as Hn1. destruct (next_answer h1) as [a1 h2]. cbn [snd] in *. by rewrite Hn1, Hn.
Defined.

(** ** Writes *)

(** A write through [PosixLogIo] is all or an error: whatever the kernel answers,
    short writes and interruptions included, a call on an open log file appends
    the data completely and reports success, or reports an error after a prefix
    of it; no other file changes. *)
Theorem posix_write_exact fd p data h :
  posix_target fd h = Some p ->
  let '(error, h') := posix_write_all fd data h in
  match error with
  | None => posix_content p h' = posix_content p h +:+ data
  | Some _ => exists part rest, data = part +:+ rest /\ posix_content p h' = posix_content p h +:+ part
  end /\ forall p', p' <> p -> posix_content p' h' = posix_content p' h.
Proof.
  intros Ht. pose proof (write_all_content fd p data h Ht) as [Hc [_ Ho]]. cbn in Hc, Ho.
  destruct (posix_write_all fd data h) as [[text|] h']; by split.
Qed.

(** A descriptor of a file on a host that writes in small pieces, interrupted *)
Definition example_posix : PosixHost :=
  mkPosixHost {["/var/log/7/stdout.log" := "ab"]} [Some "/var/log/7/stdout.log"]
    [SY_ok 1; SY_error EINTR_number; SY_ok 0] true.

Lemma posix_write_exact_witness :
  posix_content "/var/log/7/stdout.log" (posix_write_all 0 "cdefg" example_posix).2 = "abcdefg".
Proof.
  pose proof (posix_write_exact 0 "/var/log/7/stdout.log" "cdefg" example_posix eq_refl) as Hx.
  destruct (posix_write_all 0 "cdefg" example_posix) as [error h'] eqn:E. vm_compute in E. injection E as <- <-.
  destruct Hx as [Hc _]. exact Hc.
Defined.

(** The sink on the default files: 5000 bytes into files of 4096, with short
    writes *)
Example posix_rotates :
  let h := mkPosixHost ∅ [] [SY_ok 0; SY_ok 0; SY_ok 0; SY_ok 0; SY_ok 0; SY_ok 0; SY_ok 99] true in
  let '(_, k, io) := sink_open example_sink_config (mkOpenOptions 1000 1000 true) new_sink h in
  (fun '(r, k, io) => (lw_message r, io_size "/var/log/7/stdout.log" io, io_size "/var/log/7/stdout.log.1" io))
    <$> sink_append LS_kStdout long_output k io = Some ("", 904, 4096).
Proof. vm_compute. reflexivity. Qed.
