(* ===== verification/LogStreamer.v ===== *)
(** * Log streamer: [src/runtime/log_streamer.hpp], [src/runtime/log_streamer.cpp]

    Live distribution of job output: a registry of jobs, each with a window of
    recent chunks per stream, and the admission of follow sessions with their
    replay plans.  The executor's [Topic] that carries chunks to subscribers is
    external: a publication records the chunk and is told how many subscribers
    refused it. *)

From S2P Require Import Prelude.
From S2P Require Import Job.
From S2P Require Import Wire.
From S2P Require Import Request.
From S2P Require Import Response.
From S2P Require Import Launch.
From S2P Require Import Service.
From S2P Require Import LogSink.

(** ** Data *)

Inductive LogChunkKind := LC_kData | LC_kEof.

#[export] Instance LogChunkKind_eq_dec : EqDecision LogChunkKind.
Proof. solve_decision. Defined.

Record LogChunk := mkChunk {
  ch_kind : LogChunkKind;
  ch_stream : LogStreamKind;
  ch_begin_offset : N;
  ch_end_offset : N;
  ch_data : string;
  ch_job_state : N;
  ch_exit : option IpcExitStatus;
}.

Record LogStreamerConfig := mkStreamerConfig {
  lg_max_sessions_per_job : N;
  lg_max_total_sessions : N;
  lg_backlog_bytes_per_stream : N;
  lg_subscription_capacity : N;
}.

Definition kMaxSessionsPerJobLimit : N := 1024.
Definition kMaxTotalSessionsLimit : N := 4096.
Definition kMinBacklogBytes : N := 64 * 1024.
Definition kMaxBacklogBytes : N := 64 * 2 ^ 20.
Definition kMinSubscriptionCapacity : N := 4.

Inductive LogRegisterCode := LR_kRegistered | LR_kAlreadyRegistered | LR_kInvalidJob.
Inductive LogUnregisterCode := LU_kUnregistered | LU_kNotFound.
Inductive LogPublishCode := LB_kPublished | LB_kNotRegistered | LB_kJobFinished | LB_kInvalidOffset.
Inductive LogFinishCode := LF_kFinished | LF_kNotFound | LF_kAlreadyFinished.
Inductive LogSubscribeCode := LX_kSubscribed | LX_kJobUnknown | LX_kSessionLimitJob | LX_kSessionLimitTotal.

Record LogReplayPlan := mkReplay {
  rp_start_offset : N;
  rp_gap_bytes : N;
  rp_chunks : list LogChunk;
}.

(** [JobEntry::StreamState] *)
Record StreamState := mkStreamState {
  ss_backlog : list LogChunk;
  ss_backlog_bytes : N;
  ss_offset : N;
  ss_seen : bool;
}.

(** [LogStreamer::JobEntry]; [je_entry] tells entries of the same job apart (the
    code holds them by [shared_ptr]); [je_topic] are the chunks published. *)
Record JobEntry := mkEntry {
  je_entry : N;
  je_topic : list LogChunk;
  je_topic_open : bool;
  je_sessions : N;
  je_finished : bool;
  je_job_state : N;
  je_exit : option IpcExitStatus;
  je_stdout : StreamState;
  je_stderr : StreamState;
}.

(** [LogFollowSession::Token] *)
Record Token := mkToken {
  tk_job : N;
  tk_entry : N;
  tk_stdout_plan : LogReplayPlan;
  tk_stderr_plan : LogReplayPlan;
}.

(** [LogStreamer::Impl]; [sm_tokens] are the sessions that exist. *)
Record Streamer := mkStreamer {
  sm_config : LogStreamerConfig;
  sm_jobs : gmap N JobEntry;
  sm_total_sessions : N;
  sm_published_chunks : N;
  sm_rejected_publishes : N;
  sm_backlog_trims : N;
  sm_next_entry : N;
  sm_tokens : list Token;
}.

Record LogSubscribeResult := mkSubscribe {
  su_code : LogSubscribeCode;
  su_message : string;
  su_session : option Token;
  su_finished : bool;
  su_job_state : N;
  su_exit : option IpcExitStatus;
}.

(** ** Operations *)

(** [LogStreamerConfig::valid] *)
Definition streamer_config_valid (c : LogStreamerConfig) : Result string unit :=
  reject_if (lg_max_sessions_per_job c =? 0) || (kMaxSessionsPerJobLimit <? lg_max_sessions_per_job c)
    with "max_sessions_per_job must be in [1, 1024]";
  reject_if (lg_max_total_sessions c =? 0) || (kMaxTotalSessionsLimit <? lg_max_total_sessions c)
    with "max_total_sessions must be in [1, 4096]";
  reject_if (lg_backlog_bytes_per_stream c <? kMinBacklogBytes) || (kMaxBacklogBytes <? lg_backlog_bytes_per_stream c)
    with "backlog_bytes_per_stream must be in [64 KiB, 64 MiB]";
  reject_if lg_subscription_capacity c <? kMinSubscriptionCapacity
    with "subscription_capacity must be at least 4";
  Ok tt.

Definition new_streamer (c : LogStreamerConfig) : Streamer := mkStreamer c ∅ 0 0 0 0 0 [].

Definition data_size (c : LogChunk) : N := slen (ch_data c).

(** [trim_backlog]: the window, its bytes and the trim count *)
Fixpoint trim_backlog (backlog : list LogChunk) (backlog_bytes budget trims : N) : list LogChunk * N * N :=
  match backlog with
  | c :: ((_ :: _) as rest) =>
      if budget <? backlog_bytes then trim_backlog rest (backlog_bytes - data_size c) budget (trims + 1)
      else (backlog, backlog_bytes, trims)
  | _ => (backlog, backlog_bytes, trims)
  end.

(** [Impl::stream] *)
Definition entry_stream (kind : LogStreamKind) (e : JobEntry) : StreamState :=
  match kind with LS_kStdout => je_stdout e | LS_kStderr => je_stderr e end.

Definition set_entry_stream (kind : LogStreamKind) (s : StreamState) (e : JobEntry) : JobEntry :=
  match kind with
  | LS_kStdout => {| e with je_stdout := s |}
  | LS_kStderr => {| e with je_stderr := s |}
  end.

(** [topic.publish]: nothing happens to a closed topic. *)
Definition topic_publish (c : LogChunk) (e : JobEntry) : JobEntry :=
  if je_topic_open e then {| e with je_topic := je_topic e ++ [c] |} else e.

(** The window part of [publish_locked]: [None] when the chunk does not
    continue the stream; also the new trim count. *)
Definition push_chunk (budget trims : N) (c : LogChunk) (s : StreamState) : option (StreamState * N) :=
  if ss_seen s && negb (ch_begin_offset c =? ss_offset s) then None
  else
    let '(backlog, bytes, trims) :=
      trim_backlog (ss_backlog s ++ [c]) (ss_backlog_bytes s + data_size c) budget trims in
    Some (mkStreamState backlog bytes (ch_end_offset c) true, trims).

(** [publish_locked] for the job's entry; [rejected] is the topic's answer. *)
Definition publish_locked (rejected job : N) (e : JobEntry) (c : LogChunk) (m : Streamer)
  : LogPublishCode * Streamer :=
  let published e trims :=
    (LB_kPublished, {| m with sm_jobs := <[job := topic_publish c e]> (sm_jobs m);
                              sm_published_chunks := sm_published_chunks m + 1;
                              sm_rejected_publishes := sm_rejected_publishes m + rejected;
                              sm_backlog_trims := trims |}) in
  match ch_kind c with
  | LC_kData =>
      match push_chunk (lg_backlog_bytes_per_stream (sm_config m)) (sm_backlog_trims m) c
              (entry_stream (ch_stream c) e) with
      | None => (LB_kInvalidOffset, m)
      | Some (s, trims) => published (set_entry_stream (ch_stream c) s e) trims
      end
  | LC_kEof => published e (sm_backlog_trims m)
  end.

Definition publish_to_job (rejected job : N) (c : LogChunk) (m : Streamer) : LogPublishCode * Streamer :=
  match sm_jobs m !! job with
  | None => (LB_kNotRegistered, m)
  | Some e => if je_finished e then (LB_kJobFinished, m) else publish_locked rejected job e c m
  end.

(** [publish_chunk]; [begin_offset + data.size()] is computed on 64 bits. *)
Definition publish_chunk (rejected job : N) (kind : LogStreamKind) (data : string) (begin_offset end_offset : N)
    (m : Streamer) : LogPublishCode * Streamer :=
  if sempty data || (end_offset <? begin_offset) || negb (uadd64 begin_offset (slen data) =? end_offset)
  then (LB_kInvalidOffset, m)
  else publish_to_job rejected job (mkChunk LC_kData kind begin_offset end_offset data 0 None) m.

(** [publish_drop_marker] *)
Definition publish_drop_marker (rejected job : N) (kind : LogStreamKind) (offset dropped_bytes : N) (m : Streamer)
  : LogPublishCode * Streamer :=
  publish_to_job rejected job (mkChunk LC_kData kind offset offset (drop_marker_text dropped_bytes) 0 None) m.

(** [register_job] *)
Definition no_stream_state : StreamState := mkStreamState [] 0 0 false.

Definition register_job (job : JobId) (m : Streamer) : LogRegisterCode * Streamer :=
  if negb (job_id_valid job) then (LR_kInvalidJob, m)
  else match sm_jobs m !! job with
       | Some _ => (LR_kAlreadyRegistered, m)
       | None =>
           (LR_kRegistered,
            {| m with sm_jobs := <[job := mkEntry (sm_next_entry m) [] true 0 false 0 None
                                            no_stream_state no_stream_state]> (sm_jobs m);
                      sm_next_entry := sm_next_entry m + 1 |})
       end.

(** [unregister_job] *)
Definition unregister_job (job : JobId) (m : Streamer) : LogUnregisterCode * Streamer :=
  match sm_jobs m !! job with
  | None => (LU_kNotFound, m)
  | Some _ => (LU_kUnregistered, {| m with sm_jobs := delete job (sm_jobs m) |})
  end.

(** [finish_job] *)
Definition finish_job (rejected : N) (job : JobId) (job_state : N) (exit : option IpcExitStatus) (m : Streamer)
  : LogFinishCode * Streamer :=
  match sm_jobs m !! job with
  | None => (LF_kNotFound, m)
  | Some e =>
      if je_finished e then (LF_kAlreadyFinished, m)
      else
        let c := mkChunk LC_kEof LS_kStdout 0 0 "" job_state exit in
        let e1 := topic_publish c {| e with je_finished := true; je_job_state := job_state; je_exit := exit |} in
        (LF_kFinished,
         {| m with sm_jobs := <[job := {| e1 with je_topic_open := false |}]> (sm_jobs m);
                   sm_rejected_publishes := sm_rejected_publishes m + rejected |})
  end.

(** The first chunks of the window that end at or before [since] are skipped. *)
Fixpoint replay_window (since : N) (backlog : list LogChunk) : list LogChunk :=
  match backlog with
  | [] => []
  | c :: rest => if ch_end_offset c <=? since then replay_window since rest else backlog
  end.

(** [plan_locked] *)
Definition plan_locked (s : StreamState) (since : option N) : LogReplayPlan :=
  match since with
  | None => mkReplay (ss_offset s) 0 []
  | Some since =>
      if ss_offset s <=? since then mkReplay (ss_offset s) 0 []
      else
        match replay_window since (ss_backlog s) with
        | [] => mkReplay (ss_offset s) (ss_offset s - since) []
        | (c :: _) as chunks =>
            if since <? ch_begin_offset c
            then mkReplay (ch_begin_offset c) (ch_begin_offset c - since) chunks
            else mkReplay since 0 chunks
        end
  end.

(** [subscribe] *)
Definition subscribe (job : JobId) (since_stdout since_stderr : option N) (m : Streamer)
  : LogSubscribeResult * Streamer :=
  match sm_jobs m !! job with
  | None => (mkSubscribe LX_kJobUnknown "job has no log source" None false 0 None, m)
  | Some e =>
      if lg_max_sessions_per_job (sm_config m) <=? je_sessions e
      then (mkSubscribe LX_kSessionLimitJob "per-job follow session limit reached" None false 0 None, m)
      else if lg_max_total_sessions (sm_config m) <=? sm_total_sessions m
      then (mkSubscribe LX_kSessionLimitTotal "global follow session limit reached" None false 0 None, m)
      else
        let token := mkToken job (je_entry e) (plan_locked (je_stdout e) since_stdout)
                       (plan_locked (je_stderr e) since_stderr) in
        (mkSubscribe LX_kSubscribed "" (Some token) (je_finished e) (je_job_state e) (je_exit e),
         {| m with sm_jobs := <[job := {| e with je_sessions := je_sessions e + 1 |}]> (sm_jobs m);
                   sm_total_sessions := sm_total_sessions m + 1;
                   sm_tokens := token :: sm_tokens m |})
  end.

(** [Token::~Token] for the [i]-th session: both counts are given back; the
    entry may have been unregistered meanwhile. *)
Definition release (i : nat) (m : Streamer) : Streamer :=
  match sm_tokens m !! i with
  | None => m
  | Some t =>
      {| m with sm_jobs := match sm_jobs m !! tk_job t with
                           | Some e => if je_entry e =? tk_entry t
                                       then <[tk_job t := {| e with je_sessions := je_sessions e - 1 |}]> (sm_jobs m)
                                       else sm_jobs m
                           | None => sm_jobs m
                           end;
                sm_total_sessions := sm_total_sessions m - 1;
                sm_tokens := delete i (sm_tokens m) |}
  end.

(** ** The window *)

(** A chunk carries the bytes of its interval, or is a marker at one offset. *)
Definition piece_ok (c : LogChunk) : Prop :=
  (ch_data c <> "" /\ ch_end_offset c = ch_begin_offset c + slen (ch_data c)) \/ ch_end_offset c = ch_begin_offset c.

(** The bytes of the log that a chunk carries *)
Definition chunk_text (c : LogChunk) : string :=
  if ch_begin_offset c =? ch_end_offset c then "" else ch_data c.

Fixpoint window_text (l : list LogChunk) : string :=
  match l with [] => "" | c :: l => chunk_text c +:+ window_text l end.

(** The chunks cover the interval from [from] to [to] without a hole. *)
Fixpoint contiguous (from : N) (l : list LogChunk) (to : N) : Prop :=
  match l with
  | [] => from = to
  | c :: l => ch_begin_offset c = from /\ piece_ok c /\ contiguous (ch_end_offset c) l to
  end.

(** [log] is what was published since the offset [base]. *)
Record WindowOk (budget base : N) (log : string) (s : StreamState) : Prop := {
  wo_unseen : ss_seen s = false -> s = no_stream_state /\ log = "";
  wo_seen : ss_seen s = true -> ss_backlog s <> [] /\ ss_offset s = base + slen log /\
    exists old, log = old +:+ window_text (ss_backlog s) /\
      contiguous (base + slen old) (ss_backlog s) (ss_offset s);
  wo_bytes : ss_backlog_bytes s = sum_sizes data_size (ss_backlog s);
  wo_budget : len (ss_backlog s) <= 1 \/ ss_backlog_bytes s <= budget;
}.

Lemma chunk_text_size c : piece_ok c -> ch_end_offset c = ch_begin_offset c + slen (chunk_text c).
Proof.
  unfold piece_ok, chunk_text. intros [[Hne He]|He].
  - destruct (N.eqb_spec (ch_begin_offset c) (ch_end_offset c)); [|done].
    destruct (ch_data c); [done|]. rewrite slen_cons in He. lia.
  - rewrite He, N.eqb_refl. unfold slen. simpl. lia.
Qed.

Lemma contiguous_app from l1 l2 to :
  contiguous from (l1 ++ l2) to <-> exists mid, contiguous from l1 mid /\ contiguous mid l2 to.
Proof.
  revert from. induction l1 as [|c l1 IH]; intros from; simpl; [naive_solver|].
  rewrite IH. naive_solver.
Qed.

Lemma contiguous_size from l to : contiguous from l to -> to = from + slen (window_text l).
Proof.
  revert from. induction l as [|c l IH]; intros from; simpl; [unfold slen; simpl; lia|].
  intros (<- & Hc & Hl). rewrite slen_append, (IH _ Hl), (chunk_text_size c Hc). lia.
Qed.

Lemma window_text_app l1 l2 : window_text (l1 ++ l2) = window_text l1 +:+ window_text l2.
Proof. induction l1 as [|c l1 IH]; simpl; [done|]. by rewrite IH, append_assoc. Qed.

(** Trimming drops the oldest chunks and keeps the newest one. *)
Lemma trim_backlog_spec l bytes budget trims l' bytes' trims' :
  bytes = sum_sizes data_size l -> trim_backlog l bytes budget trims = (l', bytes', trims') ->
  exists dropped, l = dropped ++ l' /\ bytes' = sum_sizes data_size l' /\ trims' = trims + len dropped /\
    (l <> [] -> l' <> []) /\ (len l' <= 1 \/ bytes' <= budget).
Proof.
  revert bytes trims. induction l as [|c l IH]; intros bytes trims Hb; cbn [trim_backlog].
  { intros [= <- <- <-]. exists []. split_and!; try done; [unfold len; simpl; lia|left; unfold len; simpl; lia]. }
  destruct l as [|c2 l].
  { intros [= <- <- <-]. exists []. split_and!; try done; [unfold len; simpl; lia|left; unfold len; simpl; lia]. }
  destruct (N.ltb_spec budget bytes).
  - intros Ht. apply IH in Ht as (dropped & Heq & -> & -> & Hne & Hbud); [|simpl in *; lia].
    exists (c :: dropped). rewrite len_cons. split_and!; try done; [simpl; by rewrite <- Heq|lia|]. intros _. by apply Hne.
  - intros [= <- <- <-]. exists []. split_and!; try done; [unfold len; simpl; lia|by right].
Qed.

Lemma push_chunk_ok budget base log s trims c s' trims' :
  WindowOk budget base log s -> piece_ok c -> push_chunk budget trims c s = Some (s', trims') ->
  WindowOk budget (if ss_seen s then base else ch_begin_offset c) (log +:+ chunk_text c) s' /\
  ss_seen s' = true /\ ss_offset s' = ch_end_offset c /\ trims <= trims'.
Proof.
  intros [Hu Hs Hb Hbud] Hc. unfold push_chunk. destruct (ss_seen s && _) eqn:Eg; [done|].
  destruct (trim_backlog _ _ _ _) as [[l' bytes'] t'] eqn:Et. intros [= <- <-].
  apply trim_backlog_spec in Et as (dropped & Hl & -> & -> & Hne & Hbud');
    [|rewrite sum_sizes_app; simpl; rewrite Hb; lia].
  assert (l' <> []) as Hne' by (apply Hne; by destruct (ss_backlog s)).
  split; [|split_and!; try done; lia]. split; simpl; try done. intros _. split; [done|].
  assert (exists b old0, (if ss_seen s then base else ch_begin_offset c) = b /\ log = old0 +:+ window_text (ss_backlog s) /\
    contiguous (b + slen old0) (ss_backlog s) (ch_begin_offset c) /\ ch_begin_offset c = b + slen log) as
    (b & old0 & -> & Hlog & Hct & Hoff).
  { destruct (ss_seen s).
    - destruct (Hs eq_refl) as (_ & Ho & old & Hlog & Hct). simpl in Eg.
      apply negb_false_iff, N.eqb_eq in Eg. rewrite <- Eg in Hct, Ho. by exists base, old.
    - destruct (Hu eq_refl) as [-> ->]. exists (ch_begin_offset c), "". split_and!; try done; simpl; unfold slen; simpl; lia. }
  assert (contiguous (b + slen old0) (ss_backlog s ++ [c]) (ch_end_offset c)) as Hct'.
  { apply contiguous_app. exists (ch_begin_offset c). by split. }
  rewrite Hl in Hct'. apply contiguous_app in Hct' as (mid & Hd & Hrest).
  split; [rewrite slen_append, (chunk_text_size c Hc); lia|].
  exists (old0 +:+ window_text dropped). split.
  - rewrite Hlog, <- !append_assoc. f_equal. rewrite <- window_text_app, <- Hl, window_text_app. simpl.
    by rewrite append_empty_r.
  - rewrite slen_append, N.add_assoc. by rewrite <- (contiguous_size _ _ _ Hd).
Qed.

Lemma no_window_ok budget : WindowOk budget 0 "" no_stream_state.
Proof. split; simpl; try done. left. unfold len. simpl. lia. Qed.

(** ** Replay *)

Lemma replay_window_spec since l :
  exists skipped, l = skipped ++ replay_window since l /\
    Forall (fun c => ch_end_offset c <= since) skipped /\
    match replay_window since l with [] => True | c :: _ => since < ch_end_offset c end.
Proof.
  induction l as [|c l (skipped & Hl & Hs & Hr)]; simpl; [by exists []|].
  destruct (N.leb_spec (ch_end_offset c) since).
  - exists (c :: skipped). split_and!; [simpl; by f_equal|by constructor|done].
  - by exists [].
Qed.

(** Reconnecting with an offset loses nothing silently: a follower that asks
    for the bytes since an offset it has seen gets a plan whose start is that
    offset plus the reported gap; the replayed chunks reach without a hole
    exactly to the current end of the stream, and their bytes are the end of
    what was published, from the first chunk's offset on; the start lies in
    the first chunk; and a gap is reported only when the window starts after
    the requested offset, and then exactly up to the oldest chunk kept. *)
Theorem replay_exact budget base log s since plan :
  WindowOk budget base log s -> ss_seen s = true -> base <= since < ss_offset s ->
  plan_locked s (Some since) = plan ->
  rp_start_offset plan = since + rp_gap_bytes plan /\
  exists before c rest,
    rp_chunks plan = c :: rest /\ log = before +:+ window_text (rp_chunks plan) /\
    ch_begin_offset c = base + slen before /\
    contiguous (ch_begin_offset c) (rp_chunks plan) (base + slen log) /\
    ch_begin_offset c <= rp_start_offset plan <= ch_end_offset c /\ since < ch_end_offset c /\
    (rp_gap_bytes plan <> 0 -> ss_backlog s = rp_chunks plan /\ rp_start_offset plan = ch_begin_offset c).
Proof.
  intros [_ Hs _ _] Hseen [Hlo Hhi] <-. destruct (Hs Hseen) as (Hne & Hoff & old & Hlog & Hct).
  destruct (replay_window_spec since (ss_backlog s)) as (skipped & Hl & Hsk & Hr).
  unfold plan_locked. destruct (N.leb_spec (ss_offset s) since); [lia|].
  rewrite Hl in Hct. apply contiguous_app in Hct as (mid & Hskip & Hrest).
  destruct (replay_window since (ss_backlog s)) as [|c rest] eqn:Ew.
  { exfalso. rewrite app_nil_r in Hl. simpl in Hrest. subst mid.
    destruct skipped as [|c0 sk] using rev_ind; [done|]. apply contiguous_app in Hskip as (m & _ & Hc0).
    simpl in Hc0. destruct Hc0 as (_ & _ & Hend). apply Forall_app in Hsk as [_ Hc]. inv Hc. lia. }
  pose proof Hrest as (Hbegin & Hpiece & _).
  assert (log = (old +:+ window_text skipped) +:+ window_text (c :: rest)) as Hlog'.
  { by rewrite Hlog, Hl, window_text_app, append_assoc. }
  assert (mid = base + slen (old +:+ window_text skipped)) as Hmid.
  { rewrite slen_append, N.add_assoc. by apply contiguous_size. }
  assert (since < ch_begin_offset c -> skipped = []) as Hgap.
  { intros Hlt. destruct skipped as [|c0 sk] using rev_ind; [done|]. exfalso.
    apply contiguous_app in Hskip as (m & _ & Hc0). simpl in Hc0. destruct Hc0 as (_ & _ & Hend).
    apply Forall_app in Hsk as [_ Hc]. inv Hc. lia. }
  rewrite <- Hbegin in Hrest. rewrite Hoff in Hrest.
  pose proof (chunk_text_size c Hpiece) as Hsize.
  destruct (N.ltb_spec since (ch_begin_offset c)) as [Hlt|Hge];
    cbn [rp_start_offset rp_gap_bytes rp_chunks]; (split; [lia|]);
    exists (old +:+ window_text skipped), c, rest;
    (split; [done|]); (split; [exact Hlog'|]); (split; [lia|]); (split; [exact Hrest|]);
    (split; [lia|]); (split; [exact Hr|]); [|done].
  intros _. rewrite (Hgap Hlt) in Hl. done.
Qed.

(** ** Sessions and windows over time *)

Inductive streamer_call :=
| SCRegister (job : JobId)
| SCUnregister (job : JobId)
| SCPublish (rejected job : N) (kind : LogStreamKind) (data : string) (begin_offset end_offset : N)
| SCMarker (rejected job : N) (kind : LogStreamKind) (offset dropped : N)
| SCFinish (rejected : N) (job : JobId) (state : N) (exit : option IpcExitStatus)
| SCSubscribe (job : JobId) (since_stdout since_stderr : option N)
| SCRelease (i : nat).

(** The arguments are 64-bit values and sizes. *)
Definition call_ok (call : streamer_call) : Prop :=
  match call with
  | SCPublish _ _ _ data begin_offset _ => u64 begin_offset /\ u64 (slen data)
  | _ => True
  end.

Definition streamer_step (call : streamer_call) (m : Streamer) : Streamer :=
  match call with
  | SCRegister job => (register_job job m).2
  | SCUnregister job => (unregister_job job m).2
  | SCPublish rejected job kind data b e => (publish_chunk rejected job kind data b e m).2
  | SCMarker rejected job kind offset dropped => (publish_drop_marker rejected job kind offset dropped m).2
  | SCFinish rejected job state exit => (finish_job rejected job state exit m).2
  | SCSubscribe job so se => (subscribe job so se m).2
  | SCRelease i => release i m
  end.

(** The sessions of an entry *)
Definition entry_sessions (entry : N) (tokens : list Token) : N :=
  len (filter (fun t => tk_entry t = entry) tokens).

Definition window_ok (budget : N) (s : StreamState) : Prop := exists base log, WindowOk budget base log s.

Record EntryOk (m : Streamer) (e : JobEntry) : Prop := {
  eo_fresh : je_entry e < sm_next_entry m;
  eo_sessions : je_sessions e = entry_sessions (je_entry e) (sm_tokens m);
  eo_limit : je_sessions e <= lg_max_sessions_per_job (sm_config m);
  eo_windows : forall kind, window_ok (lg_backlog_bytes_per_stream (sm_config m)) (entry_stream kind e);
  eo_topic : je_finished e = true <-> je_topic_open e = false;
}.

Record StreamerOk (m : Streamer) : Prop := {
  so_entries : forall job e, sm_jobs m !! job = Some e -> EntryOk m e;
  so_distinct : forall j1 j2 e1 e2, sm_jobs m !! j1 = Some e1 -> sm_jobs m !! j2 = Some e2 ->
    je_entry e1 = je_entry e2 -> j1 = j2;
  so_tokens : forall t, t ∈ sm_tokens m -> tk_entry t < sm_next_entry m /\
    forall job e, sm_jobs m !! job = Some e -> je_entry e = tk_entry t -> tk_job t = job;
  so_total : sm_total_sessions m = len (sm_tokens m);
  so_limit : sm_total_sessions m <= lg_max_total_sessions (sm_config m);
}.

(** An entry changes, its identity and the sessions do not. *)
Lemma update_entry_ok m m' job e e' :
  StreamerOk m -> sm_jobs m !! job = Some e -> sm_jobs m' = <[job := e']> (sm_jobs m) ->
  sm_config m' = sm_config m -> sm_total_sessions m' = sm_total_sessions m -> sm_tokens m' = sm_tokens m ->
  sm_next_entry m' = sm_next_entry m -> je_entry e' = je_entry e -> je_sessions e' = je_sessions e ->
  (forall kind, window_ok (lg_backlog_bytes_per_stream (sm_config m)) (entry_stream kind e')) ->
  (je_finished e' = true <-> je_topic_open e' = false) -> StreamerOk m'.
Proof.
  intros [He Hd Ht Htot Hlim] Hj Ejobs Ec Etot Etok Enext Eid Es Hw Htop.
  pose proof (He _ _ Hj) as [Hfresh Hsess Hl _ _].
  split; rewrite ?Ejobs, ?Ec, ?Etot, ?Etok, ?Enext; try done.
  - intros j e1 [[<- <-]|[Hne H1]]%lookup_insert_Some.
    + split; rewrite ?Ec, ?Etok, ?Enext, ?Eid, ?Es; done.
    + destruct (He _ _ H1). split; rewrite ?Ec, ?Etok, ?Enext; done.
  - intros j1 j2 e1 e2 [[<- <-]|[Hn1 H1]]%lookup_insert_Some [[<- <-]|[Hn2 H2]]%lookup_insert_Some; [done|..];
      rewrite ?Eid; by apply Hd.
  - intros t Htk. destruct (Ht _ Htk) as [Hf Hjob]. split; [done|].
    intros j e1 [[<- <-]|[Hne H1]]%lookup_insert_Some; [rewrite Eid|]; by eapply Hjob.
Qed.

Lemma topic_publish_same c e :
  je_entry (topic_publish c e) = je_entry e /\ je_sessions (topic_publish c e) = je_sessions e /\
  je_finished (topic_publish c e) = je_finished e /\ je_topic_open (topic_publish c e) = je_topic_open e /\
  forall kind, entry_stream kind (topic_publish c e) = entry_stream kind e.
Proof. unfold topic_publish. destruct (je_topic_open e) eqn:E; simpl; rewrite ?E; split_and!; try done; by intros []. Qed.

Lemma set_entry_stream_same kind s e :
  je_entry (set_entry_stream kind s e) = je_entry e /\ je_sessions (set_entry_stream kind s e) = je_sessions e /\
  je_finished (set_entry_stream kind s e) = je_finished e /\
  je_topic_open (set_entry_stream kind s e) = je_topic_open e /\
  forall kind', entry_stream kind' (set_entry_stream kind s e) = if decide (kind' = kind) then s else entry_stream kind' e.
Proof. destruct kind; split_and!; try done; by intros []. Qed.

Lemma publish_to_job_ok rejected job c m :
  StreamerOk m -> ch_kind c = LC_kData -> piece_ok c -> StreamerOk (publish_to_job rejected job c m).2.
Proof.
  intros Hm Hkind Hc. unfold publish_to_job. destruct (sm_jobs m !! job) as [e|] eqn:Hj; [|done].
  destruct (je_finished e) eqn:Hfin; [done|]. unfold publish_locked. rewrite Hkind.
  destruct (push_chunk _ _ _ _) as [[s trims]|] eqn:Hp; [|done].
  pose proof (so_entries _ Hm _ _ Hj) as [_ _ _ Hw Htop].
  destruct (set_entry_stream_same (ch_stream c) s e) as (S1 & S2 & S3 & S4 & S5).
  destruct (topic_publish_same c (set_entry_stream (ch_stream c) s e)) as (T1 & T2 & T3 & T4 & T5).
  eapply (update_entry_ok m _ job e); simpl; try done; [congruence..| |by rewrite T3, T4, S3, S4].
  intros kind. rewrite T5, S5. case_decide; [|apply Hw]. subst kind.
  destruct (Hw (ch_stream c)) as (base & log & Hwin).
  destruct (push_chunk_ok _ _ _ _ _ _ _ _ Hwin Hc Hp) as [Hw' _]. by eexists _, _.
Qed.

(** A chunk that starts where the stream ends is published. *)
Lemma publish_continues rejected job c m e base log :
  StreamerOk m -> sm_jobs m !! job = Some e -> je_finished e = false -> ch_kind c = LC_kData -> piece_ok c ->
  WindowOk (lg_backlog_bytes_per_stream (sm_config m)) base log (entry_stream (ch_stream c) e) ->
  ch_begin_offset c = base + slen log ->
  exists m' e', publish_to_job rejected job c m = (LB_kPublished, m') /\
    StreamerOk m' /\ sm_config m' = sm_config m /\ sm_jobs m' !! job = Some e' /\ je_finished e' = false /\
    WindowOk (lg_backlog_bytes_per_stream (sm_config m)) base (log +:+ chunk_text c) (entry_stream (ch_stream c) e') /\
    (forall kind, kind <> ch_stream c -> entry_stream kind e' = entry_stream kind e).
Proof.
  intros Hm Hj Hfin Hkind Hc Hw Hbegin. pose proof (publish_to_job_ok rejected job c m Hm Hkind Hc) as Hok.
  unfold publish_to_job in *. rewrite Hj, Hfin in *. unfold publish_locked in *. rewrite Hkind in *.
  destruct (push_chunk _ _ _ _) as [[s trims]|] eqn:Hp.
  - destruct (push_chunk_ok _ _ _ _ _ _ _ _ Hw Hc Hp) as (Hw' & _).
    assert ((if ss_seen (entry_stream (ch_stream c) e) then base else ch_begin_offset c) = base) as Hbase.
    { destruct (ss_seen _) eqn:Es; [done|]. destruct (wo_unseen _ _ _ _ Hw Es) as [_ ->].
      rewrite Hbegin. unfold slen. simpl. lia. }
    rewrite Hbase in Hw'.
    destruct (set_entry_stream_same (ch_stream c) s e) as (_ & _ & S3 & _ & S5).
    destruct (topic_publish_same c (set_entry_stream (ch_stream c) s e)) as (_ & _ & T3 & _ & T5).
    eexists _, (topic_publish c (set_entry_stream (ch_stream c) s e)). split; [done|]. split; [exact Hok|].
    split; [done|]. split; [apply lookup_insert_eq|]. split; [by rewrite T3, S3|].
    split; [by rewrite T5, S5, decide_True|]. intros kind Hne. by rewrite T5, S5, decide_False.
  - exfalso. unfold push_chunk in Hp. destruct (ss_seen _ && _) eqn:Eg; [|by destruct (trim_backlog _ _ _ _) as [[]]].
    apply andb_true_iff in Eg as [Es Eg]. destruct (wo_seen _ _ _ _ Hw Es) as (_ & Ho & _).
    rewrite Ho, Hbegin, N.eqb_refl in Eg. done.
Qed.

Lemma uadd64_interval b n e :
  u64 b -> u64 n -> b <= e -> uadd64 b n = e -> e = b + n.
Proof.
  unfold u64, uadd64. intros Hb Hn Hle <-.
  destruct (N.lt_ge_cases (b + n) (u64_max + 1)) as [Hlt|Hge]; [by rewrite N.mod_small|].
  exfalso. assert ((b + n) mod (u64_max + 1) = b + n - (u64_max + 1)) as Hm.
  { symmetry. apply (N.mod_unique _ _ 1); unfold u64_max in *; lia. }
  lia.
Qed.

Lemma entry_sessions_cons entry t l :
  entry_sessions entry (t :: l) = entry_sessions entry l + (if decide (tk_entry t = entry) then 1 else 0).
Proof. unfold entry_sessions. rewrite filter_cons. case_decide; [by rewrite len_cons|lia]. Qed.

Lemma entry_sessions_delete entry l i t :
  l !! i = Some t ->
  entry_sessions entry (delete i l) = entry_sessions entry l - (if decide (tk_entry t = entry) then 1 else 0) /\
  (if decide (tk_entry t = entry) then 1 else 0) <= entry_sessions entry l /\ len (delete i l) = len l - 1 /\ 1 <= len l.
Proof.
  intros Hi. pose proof (delete_Permutation _ _ _ Hi) as Hp.
  assert (entry_sessions entry l = entry_sessions entry (t :: delete i l)) as ->.
  { unfold entry_sessions. apply len_perm. by rewrite <- Hp. }
  rewrite entry_sessions_cons, (len_perm _ _ Hp), len_cons. split_and!; lia.
Qed.

Lemma subscribe_ok job so se m : StreamerOk m -> StreamerOk (subscribe job so se m).2.
Proof.
  intros Hm. destruct Hm as [He Hd Ht Htot Hlim]. unfold subscribe.
  destruct (sm_jobs m !! job) as [e|] eqn:Hj; [|done].
  destruct (N.leb_spec (lg_max_sessions_per_job (sm_config m)) (je_sessions e)); [done|].
  destruct (N.leb_spec (lg_max_total_sessions (sm_config m)) (sm_total_sessions m)); [done|].
  pose proof (He _ _ Hj) as [Hfresh Hsess Hl Hw Htop]. split; simpl; try lia.
  - intros j e1 [[<- <-]|[Hne H1]]%lookup_insert_Some.
    + split; simpl; try done; [|lia]. rewrite entry_sessions_cons, decide_True by done. by rewrite Hsess.
    + destruct (He _ _ H1) as [? Hs1 ? ? ?]. split; simpl; try done.
      rewrite entry_sessions_cons, decide_False; [lia|]. simpl. intros Heq. apply Hne. by eapply Hd.
  - intros j1 j2 e1 e2 [[<- <-]|[Hn1 H1]]%lookup_insert_Some [[<- <-]|[Hn2 H2]]%lookup_insert_Some; [done|..];
      simpl; by apply Hd.
  - intros t [->|Htk]%elem_of_cons; simpl.
    + split; [done|]. intros j e1 [[<- <-]|[Hne H1]]%lookup_insert_Some; simpl; [done|].
      intros Heq. by eapply Hd.
    + destruct (Ht _ Htk) as [Hf Hjob]. split; [done|].
      intros j e1 [[<- <-]|[Hne H1]]%lookup_insert_Some; simpl; by apply Hjob.
  - rewrite len_cons. by rewrite Htot.
Qed.

Lemma release_ok i m : StreamerOk m -> StreamerOk (release i m).
Proof.
  intros Hm. unfold release. destruct (sm_tokens m !! i) as [t|] eqn:Hi; [|done].
  destruct Hm as [He Hd Ht Htot Hlim].
  assert (forall t', t' ∈ delete i (sm_tokens m) -> t' ∈ sm_tokens m) as Hsub.
  { intros t' Hin. rewrite (delete_Permutation _ _ _ Hi). by right. }
  destruct (entry_sessions_delete 0 _ _ _ Hi) as (_ & _ & Hlen & Hlen1).
  set (jobs := match sm_jobs m !! tk_job t with Some e => _ | None => _ end).
  assert (forall j e1, jobs !! j = Some e1 -> exists e0, sm_jobs m !! j = Some e0 /\ je_entry e1 = je_entry e0 /\
    (forall kind, entry_stream kind e1 = entry_stream kind e0) /\ je_finished e1 = je_finished e0 /\
    je_topic_open e1 = je_topic_open e0 /\
    je_sessions e1 = je_sessions e0 - (if decide (tk_entry t = je_entry e0) then 1 else 0)) as Hjobs.
  { intros j e1. unfold jobs. destruct (Ht t) as [_ Htj]; [by eapply list_elem_of_lookup_2|].
    assert (sm_jobs m !! j = Some e1 -> (forall e, sm_jobs m !! tk_job t = Some e -> je_entry e <> tk_entry t) \/ j <> tk_job t ->
      exists e0, sm_jobs m !! j = Some e0 /\ je_entry e1 = je_entry e0 /\
      (forall kind, entry_stream kind e1 = entry_stream kind e0) /\ je_finished e1 = je_finished e0 /\
      je_topic_open e1 = je_topic_open e0 /\
      je_sessions e1 = je_sessions e0 - (if decide (tk_entry t = je_entry e0) then 1 else 0)) as Hother.
    { intros H1 Hno. exists e1. split_and!; try done. rewrite decide_False; [lia|]. intros Heq.
      pose proof (Htj _ _ H1 (eq_sym Heq)) as Hjt. subst j. destruct Hno as [Hno|]; [|done]. by apply (Hno _ H1). }
    destruct (sm_jobs m !! tk_job t) as [e|] eqn:Hjt; [|intros H1; apply Hother; [done|by left]].
    destruct (N.eqb_spec (je_entry e) (tk_entry t)) as [Heq|Hne].
    - intros [[<- <-]|[Hne H1]]%lookup_insert_Some; [|apply Hother; [done|by right]].
      exists e. split_and!; try done. simpl. by rewrite decide_True.
    - intros H1. apply Hother; [done|]. left. by intros e' [= <-]. }
  split; simpl.
  - intros j e1 (e0 & H0 & E1 & E2 & E3 & E4 & E5)%Hjobs. destruct (He _ _ H0) as [Hf Hs Hl Hw Htop].
    destruct (entry_sessions_delete (je_entry e0) _ _ _ Hi) as (Hdel & _ & _).
    split; simpl; rewrite ?E1, ?E3, ?E4; try done.
    + by rewrite E5, Hdel, Hs.
    + rewrite E5. lia.
    + intros kind. by rewrite E2.
  - intros j1 j2 e1 e2 (e0 & H0 & E1 & _)%Hjobs (e0' & H0' & E1' & _)%Hjobs. rewrite E1, E1'. by apply Hd.
  - intros t' Htk%Hsub. destruct (Ht _ Htk) as [Hf Hjob]. split; [done|].
    intros j e1 (e0 & H0 & E1 & _)%Hjobs. rewrite E1. by apply Hjob.
  - rewrite Hlen, Htot. done.
  - lia.
Qed.

Lemma register_ok job m : StreamerOk m -> StreamerOk (register_job job m).2.
Proof.
  intros Hm. destruct Hm as [He Hd Ht Htot Hlim]. unfold register_job.
  destruct (job_id_valid job); simpl; [|done]. destruct (sm_jobs m !! job) as [e|] eqn:Hj; [done|].
  assert (forall j e1, sm_jobs m !! j = Some e1 -> je_entry e1 <> sm_next_entry m) as Hnew.
  { intros j e1 H1. pose proof (eo_fresh _ _ (He _ _ H1)). lia. }
  assert (filter (fun t => tk_entry t = sm_next_entry m) (sm_tokens m) = []) as Hnone.
  { apply filter_none, Forall_forall. intros t Htk. destruct (Ht _ Htk) as [? _]. lia. }
  split; simpl; try done.
  - intros j e1 [[<- <-]|[Hne H1]]%lookup_insert_Some.
    + split; simpl; try done; [lia|unfold entry_sessions; by rewrite Hnone|lia|].
      intros kind. exists 0, "". by destruct kind; apply no_window_ok.
    + destruct (He _ _ H1). split; simpl; try done. lia.
  - intros j1 j2 e1 e2 [[<- <-]|[Hn1 H1]]%lookup_insert_Some [[<- <-]|[Hn2 H2]]%lookup_insert_Some; simpl;
      [done|intros Heq; by destruct (Hnew _ _ H2)|intros Heq; by destruct (Hnew _ _ H1)|by apply Hd].
  - intros t Htk. destruct (Ht _ Htk) as [Hf Hjob]. split; [lia|].
    intros j e1 [[<- <-]|[Hne H1]]%lookup_insert_Some; simpl; [lia|by apply Hjob].
Qed.

Lemma unregister_ok job m : StreamerOk m -> StreamerOk (unregister_job job m).2.
Proof.
  intros Hm. destruct Hm as [He Hd Ht Htot Hlim]. unfold unregister_job.
  destruct (sm_jobs m !! job) as [e|] eqn:Hj; [|done]. split; simpl; try done.
  - intros j e1 [_ H1]%lookup_delete_Some. by destruct (He _ _ H1).
  - intros j1 j2 e1 e2 [_ H1]%lookup_delete_Some [_ H2]%lookup_delete_Some. by apply Hd.
  - intros t Htk. destruct (Ht _ Htk) as [Hf Hjob]. split; [done|]. intros j e1 [_ H1]%lookup_delete_Some. by apply Hjob.
Qed.

Lemma finish_ok rejected job state exit m : StreamerOk m -> StreamerOk (finish_job rejected job state exit m).2.
Proof.
  intros Hm. unfold finish_job. destruct (sm_jobs m !! job) as [e|] eqn:Hj; [|done].
  destruct (je_finished e) eqn:Hfin; [done|]. pose proof (so_entries _ Hm _ _ Hj) as [_ _ _ Hw Htop].
  set (e1 := topic_publish _ _).
  assert (je_entry e1 = je_entry e /\ je_sessions e1 = je_sessions e /\ je_finished e1 = true /\
    forall kind, entry_stream kind e1 = entry_stream kind e) as (T1 & T2 & T3 & T4).
  { unfold e1. destruct (topic_publish_same (mkChunk LC_kEof LS_kStdout 0 0 "" state exit)
      {| e with je_finished := true; je_job_state := state; je_exit := exit |}) as (S1 & S2 & S3 & _ & S5).
    rewrite S1, S2, S3. by split_and!. }
  eapply (update_entry_ok m _ job e); simpl; try done.
  intros kind. specialize (T4 kind). specialize (Hw kind). rewrite <- T4 in Hw. by destruct kind.
Qed.

Lemma streamer_step_ok call m : StreamerOk m -> call_ok call -> StreamerOk (streamer_step call m).
Proof.
  intros Hm Hc. destruct call as [job|job|rej job kind data b e|rej job kind off dr|rej job st ex|job so se|i]; simpl.
  - by apply register_ok.
  - by apply unregister_ok.
  - unfold publish_chunk. destruct (sempty data) eqn:Hempty; simpl; [done|].
    destruct (N.ltb_spec e b); simpl; [done|].
    destruct (N.eqb_spec (uadd64 b (slen data)) e) as [He|]; simpl; [|done].
    apply publish_to_job_ok; [done|done|]. left. simpl. destruct Hc as [Hb Hn].
    split; [by destruct data|]. by apply uadd64_interval.
  - unfold publish_drop_marker. apply publish_to_job_ok; [done|done|]. by right.
  - by apply finish_ok.
  - by apply subscribe_ok.
  - by apply release_ok.
Qed.

Lemma new_streamer_ok config : StreamerOk (new_streamer config).
Proof. split; simpl; try done; [|lia]. intros t Ht. by apply not_elem_of_nil in Ht. Qed.

(** Whatever is registered, published, finished, followed and released, the
    streamer keeps its promises: each job has at most
    [max_sessions_per_job] sessions and there are at most
    [max_total_sessions] in all (the counts are exact, also when sessions
    outlive the registration of their job); each window is a hole-free end of
    what was published and is within its byte budget unless it is a single
    chunk; and a topic is closed exactly when its job is finished. *)
Theorem streamer_session config calls :
  Forall call_ok calls ->
  let m := fold_left (fun m call => streamer_step call m) calls (new_streamer config) in
  StreamerOk m /\ len (sm_tokens m) <= lg_max_total_sessions (sm_config m).
Proof.
  intros Hcalls. assert (forall m0, StreamerOk m0 ->
    StreamerOk (fold_left (fun m call => streamer_step call m) calls m0)) as Hrun.
  { induction Hcalls as [|call calls Hc _ IH]; intros m0 Hm; simpl; [done|]. by apply IH, streamer_step_ok. }
  cbn zeta. set (m := fold_left _ calls _). assert (StreamerOk m) as Hm.
  { apply Hrun, new_streamer_ok. }
  split; [done|]. destruct Hm as [_ _ _ <- Hl]. done.
Qed.

(** The bytes of a job's live view are those its log accepted, in order: a
    chunk that continues the stream is always published, its bytes are added
    to the end of the followed log and the stream's end moves by their number;
    a chunk that does not continue it is refused and changes nothing. *)
Theorem publish_exact rejected job kind data b e m entry base log :
  StreamerOk m -> sm_jobs m !! job = Some entry -> je_finished entry = false ->
  WindowOk (lg_backlog_bytes_per_stream (sm_config m)) base log (entry_stream kind entry) ->
  data <> "" -> u64 b -> u64 (slen data) -> e = b + slen data -> u64 e ->
  let '(code, m') := publish_chunk rejected job kind data b e m in
  if ss_seen (entry_stream kind entry) && negb (b =? ss_offset (entry_stream kind entry))
  then code = LB_kInvalidOffset /\ m' = m
  else code = LB_kPublished /\
    exists entry', sm_jobs m' !! job = Some entry' /\
      WindowOk (lg_backlog_bytes_per_stream (sm_config m))
        (if ss_seen (entry_stream kind entry) then base else b) (log +:+ data) (entry_stream kind entry') /\
      ss_offset (entry_stream kind entry') = e /\
      je_topic entry' = je_topic entry ++ [mkChunk LC_kData kind b e data 0 None].
Proof.
  intros Hm Hj Hfin Hw Hne Hb Hn -> He. unfold publish_chunk.
  destruct (sempty data) eqn:Hempty; [by destruct data|]. simpl.
  destruct (N.ltb_spec (b + slen data) b); [lia|]. simpl.
  assert (uadd64 b (slen data) = b + slen data) as -> by (unfold uadd64, u64 in *; apply N.mod_small; lia).
  rewrite N.eqb_refl. simpl. unfold publish_to_job. rewrite Hj, Hfin. unfold publish_locked. simpl.
  set (c := mkChunk LC_kData kind b (b + slen data) data 0 None).
  destruct (push_chunk _ _ c _) as [[s trims]|] eqn:Hp.
  - assert (chunk_text c = data) as Htext.
    { unfold chunk_text. simpl. destruct (N.eqb_spec b (b + slen data)); [|done].
      destruct data; [done|]. rewrite slen_cons in *. lia. }
    destruct (push_chunk_ok _ _ _ _ _ c _ _ Hw ltac:(by left) Hp) as (Hw' & Hseen & Hoff & _). rewrite Htext in Hw'.
    unfold push_chunk in Hp. simpl in Hp. destruct (_ && _); [done|]. split; [done|].
    destruct (set_entry_stream_same kind s entry) as (_ & _ & S3 & S4 & S5).
    destruct (topic_publish_same c (set_entry_stream kind s entry)) as (_ & _ & _ & _ & T5).
    eexists. split; [apply lookup_insert_eq|]. rewrite T5, S5, decide_True by done. split_and!; try done.
    assert (je_topic_open entry = true) as Hopen.
    { destruct (so_entries _ Hm _ _ Hj) as [_ _ _ _ Htop]. destruct (je_topic_open entry); [done|].
      rewrite (proj2 Htop eq_refl) in Hfin. done. }
    unfold topic_publish. rewrite S4, Hopen. by destruct kind.
  - unfold push_chunk in Hp. simpl in Hp. destruct (_ && _); [done|]. by destruct (trim_backlog _ _ _ _) as [[]].
Qed.

(** ** Examples and witnesses *)

Definition example_streamer_config : LogStreamerConfig := mkStreamerConfig 1 1 kMinBacklogBytes 4.

(** Job 7 is registered and published ["hello"] at offset 10. *)
Definition example_calls : list streamer_call :=
  [SCRegister 7; SCPublish 0 7 LS_kStdout "hello" 10 15; SCSubscribe 7 (Some 12) None].

Definition example_streamer : Streamer :=
  fold_left (fun m call => streamer_step call m) example_calls (new_streamer example_streamer_config).

(** The follower that has seen 12 bytes is sent the chunk; a second session is
    refused. *)
Example example_session :
  ((fun t => (rp_start_offset (tk_stdout_plan t), len (rp_chunks (tk_stdout_plan t)))) <$> sm_tokens example_streamer)
    = [(12, 1)] /\
  su_code (subscribe 7 None None example_streamer).1 = LX_kSessionLimitJob.
Proof. vm_compute. done. Qed.

Lemma example_calls_ok : Forall call_ok example_calls.
Proof. repeat constructor; vm_compute; discriminate. Qed.

Lemma example_streamer_ok : StreamerOk example_streamer.
Proof.
  unfold example_streamer, example_calls. cbn [fold_left].
  repeat (apply streamer_step_ok; [|by repeat constructor; vm_compute]). apply new_streamer_ok.
Qed.

Lemma streamer_session_witness :
  StreamerOk example_streamer /\ len (sm_tokens example_streamer) <= lg_max_total_sessions (sm_config example_streamer).
Proof. apply (streamer_session example_streamer_config example_calls example_calls_ok). Defined.

Definition example_window : StreamState :=
  mkStreamState [mkChunk LC_kData LS_kStdout 10 15 "hello" 0 None] 5 15 true.

Lemma example_window_ok : WindowOk kMinBacklogBytes 10 "hello" example_window.
Proof.
  split; [done| |done|left; vm_compute; discriminate]. intros _. split; [done|]. split; [done|].
  exists "". split; [done|]. split; [done|]. split; [by left|]. done.
Qed.

Lemma replay_exact_witness :
  let plan := mkReplay 12 0 [mkChunk LC_kData LS_kStdout 10 15 "hello" 0 None] in
  plan_locked example_window (Some 12) = plan /\
  rp_start_offset plan = 12 + rp_gap_bytes plan /\
  exists before c rest,
    rp_chunks plan = c :: rest /\ "hello" = before +:+ window_text (rp_chunks plan) /\
    ch_begin_offset c = 10 + slen before /\
    contiguous (ch_begin_offset c) (rp_chunks plan) (10 + slen "hello") /\
    ch_begin_offset c <= rp_start_offset plan <= ch_end_offset c /\ 12 < ch_end_offset c /\
    (rp_gap_bytes plan <> 0 -> ss_backlog example_window = rp_chunks plan /\ rp_start_offset plan = ch_begin_offset c).
Proof.
  split; [reflexivity|].
  apply (replay_exact kMinBacklogBytes 10 "hello" example_window 12); [exact example_window_ok|reflexivity| |reflexivity].
  simpl. lia.
Defined.

Definition example_entry : JobEntry := default (mkEntry 0 [] true 0 false 0 None no_stream_state no_stream_state)
  (sm_jobs example_streamer !! 7).

Lemma publish_exact_witness :
  let '(code, m') := publish_chunk 0 7 LS_kStdout " world" 15 21 example_streamer in
  code = LB_kPublished /\
  exists entry', sm_jobs m' !! 7 = Some entry' /\
    WindowOk kMinBacklogBytes 10 ("hello" +:+ " world") (je_stdout entry') /\
    ss_offset (je_stdout entry') = 21 /\
    je_topic entry' = je_topic example_entry ++ [mkChunk LC_kData LS_kStdout 15 21 " world" 0 None].
Proof.
  apply (publish_exact 0 7 LS_kStdout " world" 15 21 example_streamer example_entry 10 "hello");
    [exact example_streamer_ok|vm_compute; reflexivity|vm_compute; reflexivity|exact example_window_ok
    |discriminate|vm_compute; discriminate|vm_compute; discriminate|reflexivity|vm_compute; discriminate].
Defined.
