(* ===== verification/LogPump.v ===== *)
(** * Log pump: [src/runtime/log_pump.hpp], [src/runtime/log_pump.cpp], and the
    bridge to the streamer in [src/runtime/job_manager.cpp]

    One worker moves the output of all jobs from their pipes into their sinks:
    [apply_attach], [apply_detach], [pump_stream] (one [read] of one pipe),
    completion and [shutdown_entries]; [pump_once] is one round of the loop.
    What the sink accepted is then published to the streamer by
    [StreamerBridge].  The answers of [read] are given to the definitions. *)

From stdpp Require Import pretty.
From S2P Require Import Prelude.
From S2P Require Import Job.
From S2P Require Import Wire.
From S2P Require Import Request.
From S2P Require Import Response.
From S2P Require Import Service.
From S2P Require Import LogSink.
From S2P Require Import LogStreamer.

(** ** Data *)

(** [PumpWorker::Stream]: a pipe; [-1] is no descriptor. *)
Record Pipe := mkPipe {
  pi_fd : Z;
  pi_done : bool;
}.

(** [PumpWorker::Entry] *)
Record PumpEntry := mkPumpEntry {
  pn_job : N;
  pn_stdout : Pipe;
  pn_stderr : Pipe;
  pn_sink : Sink;
  pn_observed : bool;
  pn_error : string;
}.

(** [LogPumpJobInput] *)
Record LogPumpJobInput := mkPumpInput {
  li_job : N;
  li_stdout_read : Z;
  li_stderr_read : Z;
  li_sink : Sink;
  li_observed : bool;
}.

(** [LogPumpDone] *)
Record LogPumpDone := mkPumpDone {
  pd_job : N;
  pd_completed : bool;
  pd_error : string;
  pd_statistics : LogSinkStatistics;
}.

Inductive LogPumpAttachCode :=
| PA_kAttached | PA_kNotStarted | PA_kInvalidInput | PA_kDuplicateJob | PA_kChannelFull | PA_kAckTimeout.
Inductive LogPumpDetachCode :=
| PT_kDetached | PT_kNotStarted | PT_kNotFound | PT_kChannelFull | PT_kAckTimeout.

(** A call of [LogChunkObserver] *)
Inductive ObserverCall :=
| OnChunk (job : N) (kind : LogStreamKind) (data : string) (begin_offset end_offset : N)
| OnDrop (job : N) (kind : LogStreamKind) (offset dropped_bytes : N).

(** [PumpWorker]: its entries, the file system behind the sinks, the completion
    events it posted, the descriptors it closed and the observer calls it made. *)
Record Pump (I : Type) := mkPump {
  pm_entries : gmap N PumpEntry;
  pm_io : I;
  pm_done : list LogPumpDone;
  pm_closed : list Z;
  pm_calls : list ObserverCall;
}.
Arguments mkPump {I}.
Arguments pm_entries {I}.
Arguments pm_io {I}.
Arguments pm_done {I}.
Arguments pm_closed {I}.
Arguments pm_calls {I}.

(** The answer of one [read] *)
Inductive ReadAnswer := ReadBytes (data : string) | ReadEof | ReadInterrupted | ReadFailed (errno : Z).

(** [kMaxChunkBytes] *)
Definition kMaxChunkBytes : N := 64 * 1024.

(** ** Operations *)

Definition entry_pipe (kind : LogStreamKind) (e : PumpEntry) : Pipe :=
  match kind with LS_kStdout => pn_stdout e | LS_kStderr => pn_stderr e end.

Definition set_entry_pipe (kind : LogStreamKind) (p : Pipe) (e : PumpEntry) : PumpEntry :=
  match kind with
  | LS_kStdout => {| e with pn_stdout := p |}
  | LS_kStderr => {| e with pn_stderr := p |}
  end.

(** [entry.error += (entry.error.empty() ? "" : "; ") + message] *)
Definition add_error (message : string) (e : PumpEntry) : PumpEntry :=
  {| e with pn_error := pn_error e +:+ (if sempty (pn_error e) then "" else "; ") +:+ message |}.

Section pump.
Context {I : Type} `{LogIo I}.
Implicit Types m : Pump I.

(** [close_entry_streams]: the descriptors that are closed *)
Definition close_pipe (p : Pipe) : list Z := if (0 <=? pi_fd p)%Z then [pi_fd p] else [].

(** [if (sink.is_open(kind)) sink.close(kind)] for both streams *)
Definition close_sink (k : Sink) (io : I) : Sink * I :=
  let close kind '(k, io) :=
    if sink_is_open kind k then let '(_, _, k1, io1) := sink_close kind k io in (k1, io1) else (k, io) in
  close LS_kStderr (close LS_kStdout (k, io)).

(** [finalize_entry]; the completion reaches its channel unless the worker is
    being stopped, when posting is given up. *)
Definition finalize_entry (job : N) (e : PumpEntry) (post_done : bool) m : Pump I :=
  let '(k, io) := close_sink (pn_sink e) (pm_io m) in
  mkPump (delete job (pm_entries m)) io
    (pm_done m ++ if post_done then [mkPumpDone (pn_job e) true (pn_error e) (sk_statistics k)] else [])
    (pm_closed m ++ close_pipe (pn_stdout e) ++ close_pipe (pn_stderr e)) (pm_calls m).

(** [check_entry_completion] *)
Definition check_entry_completion (job : N) m : Pump I :=
  match pm_entries m !! job with
  | None => m
  | Some e =>
      let ended p := pi_done p || (pi_fd p <? 0)%Z in
      if ended (pn_stdout e) && ended (pn_stderr e) then finalize_entry job e true m else m
  end.

(** [apply_attach] *)
Definition apply_attach (input : LogPumpJobInput) m : LogPumpAttachCode * string * Pump I :=
  if negb (job_id_valid (li_job input)) || ((li_stdout_read input <? 0)%Z && (li_stderr_read input <? 0)%Z)
     || negb (sink_is_open LS_kStdout (li_sink input))
  then (PA_kInvalidInput, "invalid pump input", m)
  else
    match pm_entries m !! li_job input with
    | Some _ => (PA_kDuplicateJob, "job already attached", m)
    | None =>
        let e := mkPumpEntry (li_job input) (mkPipe (li_stdout_read input) false)
                   (mkPipe (li_stderr_read input) false) (li_sink input) (li_observed input) "" in
        (PA_kAttached, "",
         check_entry_completion (li_job input) {| m with pm_entries := <[li_job input := e]> (pm_entries m) |})
    end.

(** [apply_detach] *)
Definition apply_detach (job : N) m : LogPumpDetachCode * string * Pump I :=
  match pm_entries m !! job with
  | None => (PT_kNotFound, "job not attached", m)
  | Some e => (PT_kDetached, "", finalize_entry job e false m)
  end.

(** The observer calls for one accepted read *)
Definition observer_calls (e : PumpEntry) (kind : LogStreamKind) (data : string) (begin_offset : N)
    (r : LogWriteResult) : list ObserverCall :=
  if pn_observed e then
    (if 0 <? lw_bytes_accepted r
     then [OnChunk (pn_job e) kind (String.substring 0 (N.to_nat (lw_bytes_accepted r)) data) begin_offset
             (begin_offset + lw_bytes_accepted r)] else [])
    ++ (if 0 <? lw_dropped_bytes r
        then [OnDrop (pn_job e) kind (begin_offset + lw_bytes_accepted r) (lw_dropped_bytes r)] else [])
  else [].

(** [pump_stream]; [None] only when [append] does not return. *)
Definition pump_stream (read : ReadAnswer) (job : N) (kind : LogStreamKind) m : option (Pump I) :=
  match pm_entries m !! job with
  | None => Some m
  | Some e =>
      let p := entry_pipe kind e in
      if pi_done p || (pi_fd p <? 0)%Z then Some m
      else
        match read with
        | ReadBytes data =>
            let begin_offset := logical_offset kind (pn_sink e) in
            '(r, k, io) ← sink_append kind data (pn_sink e) (pm_io m);
            let e1 := {| e with pn_sink := k |} in
            let e2 := if bool_decide (lw_code r = LK_kNone) then e1 else add_error (lw_message r) e1 in
            Some (mkPump (<[job := e2]> (pm_entries m)) io (pm_done m) (pm_closed m)
                    (pm_calls m ++ observer_calls e kind data begin_offset r))
        | ReadInterrupted => Some m
        | ReadEof | ReadFailed _ =>
            let e1 := match read with
                      | ReadFailed errno => add_error ("stream read failed: errno " +:+ pretty errno) e
                      | _ => e
                      end in
            let e2 := set_entry_pipe kind (mkPipe (-1) true) e1 in
            Some (check_entry_completion job
                    (mkPump (<[job := e2]> (pm_entries m)) (pm_io m) (pm_done m) (pm_closed m ++ [pi_fd p])
                       (pm_calls m)))
        end
  end.

(** [shutdown_entries]: no completion is posted. *)
Definition shutdown_entries m : Pump I :=
  let step (acc : I * list Z) (x : N * PumpEntry) :=
    let '(io, closed) := acc in
    ((close_sink (pn_sink x.2) io).2, closed ++ close_pipe (pn_stdout x.2) ++ close_pipe (pn_stderr x.2)) in
  let '(io, closed) := fold_left step (map_entries (pm_entries m)) (pm_io m, pm_closed m) in
  mkPump ∅ io (pm_done m) closed (pm_calls m).

Inductive PumpCommand := CmdAttach (input : LogPumpJobInput) | CmdDetach (job : N).

Definition apply_command (m : Pump I) (c : PumpCommand) : Pump I :=
  match c with
  | CmdAttach input => (apply_attach input m).2
  | CmdDetach job => (apply_detach job m).2
  end.

(** The streams a round polls *)
Definition polled (m : Pump I) (job : N) (kind : LogStreamKind) : bool :=
  match pm_entries m !! job with
  | Some e => negb (pi_done (entry_pipe kind e)) && (0 <=? pi_fd (entry_pipe kind e))%Z
  | None => false
  end.

(** [pump_once]: the commands that arrived, then the streams found ready, each
    with the answer of its [read] *)
Definition pump_once (commands : list PumpCommand) (ready : list (N * LogStreamKind * ReadAnswer)) m
  : option (Pump I) :=
  let ready := filter (fun x => polled m x.1.1 x.1.2 = true) ready in
  foldl (fun acc x => acc ≫= pump_stream x.2 x.1.1 x.1.2) (Some (fold_left apply_command commands m)) ready.
End pump.

(** ** The bridge *)

(** [StreamerBridge::on_chunk] and [on_drop]; [rejected] is the topic's answer. *)
Definition bridge (rejected : N) (m : Streamer) (call : ObserverCall) : LogPublishCode * Streamer :=
  match call with
  | OnChunk job kind data b e => publish_chunk rejected job kind data b e m
  | OnDrop job kind offset dropped => publish_drop_marker rejected job kind offset dropped m
  end.

Fixpoint bridge_all (rejected : N) (calls : list ObserverCall) (m : Streamer) : list LogPublishCode * Streamer :=
  match calls with
  | [] => ([], m)
  | call :: calls =>
      let '(code, m1) := bridge rejected m call in
      let '(codes, m2) := bridge_all rejected calls m1 in (code :: codes, m2)
  end.

(** ** What is followed is what was stored *)

(** The reads of a job, each pumped into the sink and bridged to the streamer:
    the answers to the publications, the pump and the streamer. *)
Fixpoint follow {I} `{LogIo I} (rejected job : N) (reads : list (LogStreamKind * string)) (p : Pump I) (s : Streamer)
  : option (list LogPublishCode * Pump I * Streamer) :=
  match reads with
  | [] => Some ([], p, s)
  | (kind, data) :: reads =>
      p1 ← pump_stream (ReadBytes data) job kind p;
      let '(codes, s1) := bridge_all rejected (drop (length (pm_calls p)) (pm_calls p1)) s in
      '(codes', p2, s2) ← follow rejected job reads p1 s1;
      Some (codes ++ codes', p2, s2)
  end.

(** The bytes read from one pipe *)
Fixpoint reads_text (kind : LogStreamKind) (reads : list (LogStreamKind * string)) : string :=
  match reads with
  | [] => ""
  | (k, data) :: reads => (if decide (k = kind) then data else "") +:+ reads_text kind reads
  end.

Definition reads_bytes (reads : list (LogStreamKind * string)) : N := sum_sizes (fun r => slen r.2) reads.

Section followed.
Context {I : Type} `{LogIoLaws I}.
Implicit Types p : Pump I.
Variable old : N.

(** The job is attached, registered and not finished; the stored output starts
    at [base] and the followed one, [log], continues it to the sink's offset. *)
Record Followed (job : N) (base : LogStreamKind -> N) (log : LogStreamKind -> string) p s
    (e : PumpEntry) (je : JobEntry) : Prop := {
  fo_entry : pm_entries p !! job = Some e;
  fo_observed : pn_job e = job /\ pn_observed e = true;
  fo_sink : SinkOk old (pn_sink e) (pm_io p);
  fo_streamer : StreamerOk s;
  fo_job : sm_jobs s !! job = Some je;
  fo_live : je_finished je = false;
  fo_offset : forall kind, logical_offset kind (pn_sink e) = base kind + slen (log kind);
  fo_window : forall kind,
    WindowOk (lg_backlog_bytes_per_stream (sm_config s)) (base kind) (log kind) (entry_stream kind je);
}.

Definition extend (kind : LogStreamKind) (text : string) (log : LogStreamKind -> string) : LogStreamKind -> string :=
  fun kind' => if decide (kind' = kind) then log kind +:+ text else log kind'.

(** One bridged call continues the stream. *)
Lemma bridge_data rejected job kind data base log s je :
  StreamerOk s -> sm_jobs s !! job = Some je -> je_finished je = false ->
  (forall k, WindowOk (lg_backlog_bytes_per_stream (sm_config s)) (base k) (log k) (entry_stream k je)) ->
  data <> "" -> base kind + slen (log kind) + slen data <= u64_max ->
  let b := base kind + slen (log kind) in
  exists s' je', bridge rejected s (OnChunk job kind data b (b + slen data)) = (LB_kPublished, s') /\
    StreamerOk s' /\ sm_jobs s' !! job = Some je' /\ je_finished je' = false /\ sm_config s' = sm_config s /\
    forall k, WindowOk (lg_backlog_bytes_per_stream (sm_config s')) (base k) (extend kind data log k) (entry_stream k je').
Proof.
  intros Hs Hj Hfin Hw Hne Hu b. simpl. unfold publish_chunk.
  assert (uadd64 b (slen data) = b + slen data) as Hadd.
  { unfold uadd64. apply N.mod_small. subst b. unfold u64_max in *. lia. }
  destruct (sempty data) eqn:Hempty; [by destruct data|].
  destruct (N.ltb_spec (b + slen data) b); [lia|]. simpl. rewrite Hadd, N.eqb_refl. simpl.
  set (c := mkChunk LC_kData kind b (b + slen data) data 0 None).
  destruct (publish_continues rejected job c s je (base kind) (log kind) Hs Hj Hfin eq_refl ltac:(by left) (Hw kind) eq_refl)
    as (s' & je' & Hp & Hok & Hc & Hj' & Hf & Hw' & Ho).
  assert (chunk_text c = data) as Ht.
  { unfold chunk_text. simpl. apply sempty_false_len in Hempty as [_ Hl]. destruct (N.eqb_spec b (b + slen data)); [lia|done]. }
  rewrite Ht in Hw'. exists s', je'. split_and!; try done. intros k. rewrite Hc. unfold extend.
  case_decide as Hk; [subst k; exact Hw'|]. rewrite Ho by done. apply Hw.
Qed.

Lemma bridge_marker rejected job kind dropped base log s je :
  StreamerOk s -> sm_jobs s !! job = Some je -> je_finished je = false ->
  (forall k, WindowOk (lg_backlog_bytes_per_stream (sm_config s)) (base k) (log k) (entry_stream k je)) ->
  exists s' je', bridge rejected s (OnDrop job kind (base kind + slen (log kind)) dropped) = (LB_kPublished, s') /\
    StreamerOk s' /\ sm_jobs s' !! job = Some je' /\ je_finished je' = false /\ sm_config s' = sm_config s /\
    forall k, WindowOk (lg_backlog_bytes_per_stream (sm_config s')) (base k) (log k) (entry_stream k je').
Proof.
  intros Hs Hj Hfin Hw. simpl. unfold publish_drop_marker. set (b := base kind + slen (log kind)).
  set (c := mkChunk LC_kData kind b b (drop_marker_text dropped) 0 None).
  destruct (publish_continues rejected job c s je (base kind) (log kind) Hs Hj Hfin eq_refl ltac:(by right) (Hw kind) eq_refl)
    as (s' & je' & Hp & Hok & Hc & Hj' & Hf & Hw' & Ho).
  assert (chunk_text c = "") as Ht by (unfold chunk_text; simpl; by rewrite N.eqb_refl).
  rewrite Ht, append_empty_r in Hw'. exists s', je'. split_and!; try done. intros k. rewrite Hc.
  destruct (decide (k = kind)) as [->|Hk]; [exact Hw'|]. rewrite Ho by done. apply Hw.
Qed.

Lemma slen_substring0 n data : n <= slen data -> slen (String.substring 0 (N.to_nat n) data) = n.
Proof.
  intros Hn. destruct (substring_split (N.to_nat n) data) as (_ & Hl & _); [unfold slen in Hn; lia|]. unfold slen. lia.
Qed.

Lemma extend_nothing kind log k : extend kind "" log k = log k.
Proof. unfold extend. case_decide; [subst; by rewrite append_empty_r|done]. Qed.

(** What the bridge needs and keeps of the streamer *)
Definition followable (job : N) (base : LogStreamKind -> N) (log : LogStreamKind -> string) s je : Prop :=
  StreamerOk s /\ sm_jobs s !! job = Some je /\ je_finished je = false /\
  forall k, WindowOk (lg_backlog_bytes_per_stream (sm_config s)) (base k) (log k) (entry_stream k je).

(** The calls of one read are all published. *)
Lemma bridge_read rejected job kind e data base log s je r :
  followable job base log s je -> pn_job e = job -> pn_observed e = true ->
  lw_bytes_accepted r <= slen data -> base kind + slen (log kind) + slen data <= u64_max ->
  let text := String.substring 0 (N.to_nat (lw_bytes_accepted r)) data in
  exists codes s' je',
    bridge_all rejected (observer_calls e kind data (base kind + slen (log kind)) r) s = (codes, s') /\
    Forall (eq LB_kPublished) codes /\ followable job base (extend kind text log) s' je'.
Proof.
  intros (Hs & Hj & Hfin & Hw) He Ho Hn Hu text. unfold observer_calls. rewrite He, Ho.
  assert (slen text = lw_bytes_accepted r) as Ht by (by apply slen_substring0).
  set (b := base kind + slen (log kind)) in *.
  set (drops := if 0 <? lw_dropped_bytes r then _ else _).
  assert (forall s1 je1, followable job base (extend kind text log) s1 je1 ->
    exists codes s' je', bridge_all rejected drops s1 = (codes, s') /\ Forall (eq LB_kPublished) codes /\
      followable job base (extend kind text log) s' je') as Hdrops.
  { intros s1 je1 (Hs1 & Hj1 & Hf1 & Hw1). unfold drops. destruct (0 <? lw_dropped_bytes r).
    - destruct (bridge_marker rejected job kind (lw_dropped_bytes r) base _ s1 je1 Hs1 Hj1 Hf1 Hw1)
        as (s2 & je2 & Hb & ? & ? & ? & _ & ?).
      replace (base kind + slen (extend kind text log kind)) with (b + lw_bytes_accepted r) in Hb
        by (unfold extend; rewrite decide_True by done; rewrite slen_append; lia).
      exists [LB_kPublished], s2, je2. cbn [bridge_all]. rewrite Hb. split_and!; [done|by constructor|done..].
    - exists [], s1, je1. by split_and!. }
  destruct (N.ltb_spec 0 (lw_bytes_accepted r)) as [Hpos|Hz].
  - destruct (bridge_data rejected job kind text base log s je) as (s1 & je1 & Hb & ? & ? & ? & _ & ?); try done.
    { intros Heq. rewrite Heq in Ht. unfold slen in Ht. simpl in Ht. lia. }
    { lia. }
    fold b in Hb. rewrite Ht in Hb. destruct (Hdrops s1 je1) as (codes & s' & je' & Hb' & Hc & Hf); [done|].
    exists (LB_kPublished :: codes), s', je'. cbn [app bridge_all]. fold text. rewrite Hb, Hb'.
    split_and!; [done|by constructor|done].
  - apply (Hdrops s je). split_and!; try done. intros k.
    replace text with "" by (destruct text; [done|rewrite slen_cons in Ht; lia]). rewrite extend_nothing. apply Hw.
Qed.

(** One read of an open stream: everything is published. *)
Lemma follow_read rejected job base log p s e je kind data :
  Followed job base log p s e je -> polled p job kind = true -> sink_is_open kind (pn_sink e) = true ->
  ls_bytes_dropped (sk_statistics (pn_sink e)) <= u64_max -> base kind + slen (log kind) + slen data <= u64_max ->
  exists p' calls e' n, pump_stream (ReadBytes data) job kind p = Some p' /\ pm_calls p' = pm_calls p ++ calls /\
    n <= slen data /\
    ls_bytes_dropped (sk_statistics (pn_sink e')) = ls_bytes_dropped (sk_statistics (pn_sink e)) + (slen data - n) /\
    (n = slen data -> forall k, sink_is_open k (pn_sink e) = true -> sink_is_open k (pn_sink e') = true) /\
    (forall k, polled p' job k = polled p job k) /\
    exists codes s' je', bridge_all rejected calls s = (codes, s') /\ Forall (eq LB_kPublished) codes /\
      Followed job base (extend kind (String.substring 0 (N.to_nat n) data) log) p' s' e' je'.
Proof.
  intros [Hent [Hjob Hobs] Hsink Hs Hj Hfin Hoff Hw] Hpol Hopen Hd Hu. unfold pump_stream, polled in *.
  rewrite Hent in *. apply andb_true_iff in Hpol as [Hp1 Hp2]. apply negb_true_iff in Hp1. apply Z.leb_le in Hp2.
  rewrite Hp1. destruct (Z.ltb_spec (pi_fd (entry_pipe kind e)) 0); [lia|]. cbn [orb].
  destruct (sink_append_spec old kind data (pn_sink e) (pm_io p) Hsink Hopen Hd) as (r & k & io & -> & Ha).
  destruct Ha as [Aok Abytes Aoff Acode _ Aother _ Adrop _ [_ Aopened]].
  cbn [mbind option_bind].
  set (e1 := {| e with pn_sink := k |}). set (e2 := if bool_decide _ then e1 else _).
  assert (pn_sink e2 = k /\ pn_job e2 = job /\ pn_observed e2 = true) as (He2 & Hj2 & Ho2).
  { unfold e2. by case_bool_decide. }
  rewrite (Hoff kind).
  destruct (bridge_read rejected job kind e data base log s je r) as (codes & s' & je' & Hb & Hc & Hs' & Hj' & Hf' & Hw');
    [done|done|done|lia|done|].
  eexists _, _, e2, (lw_bytes_accepted r). split; [reflexivity|]. split; [reflexivity|]. split; [lia|]. rewrite He2.
  split; [rewrite Adrop; f_equal; lia|].
  split.
  { intros Hn k'. unfold sink_is_open in *. rewrite Aopened. destruct (decide (k' = kind)) as [->|Hk].
    - intros [-> _]%andb_true_iff. destruct (lw_code r); try done; destruct Acode as [? ->]; [done|lia..].
    - assert (k' = other kind) as -> by (destruct kind, k'; done). by rewrite Aother. }
  split.
  { intros k'. simpl. rewrite lookup_insert_eq. unfold e2. by destruct (bool_decide _), k'. }
  exists codes, s', je'. split; [exact Hb|]. split; [exact Hc|].
  split; simpl; rewrite ?He2; try done; [by rewrite lookup_insert_eq|].
  intros kind'. unfold extend, logical_offset in *. case_decide as Hk; [subst kind'|].
  - rewrite Aoff, Hoff, slen_append, slen_substring0 by lia. lia.
  - assert (kind' = other kind) as -> by (destruct kind, kind'; done). rewrite Aother. apply Hoff.
Qed.

(** A read of a stream the sink has closed: nothing is stored or published. *)
Lemma closed_read job base log p s e je kind data :
  Followed job base log p s e je -> polled p job kind = true -> sink_is_open kind (pn_sink e) = false ->
  exists p' e', pump_stream (ReadBytes data) job kind p = Some p' /\ pm_calls p' = pm_calls p /\
    pn_sink e' = pn_sink e /\ (forall k, polled p' job k = polled p job k) /\ Followed job base log p' s e' je.
Proof.
  intros [Hent [Hjob Hobs] Hsink Hs Hj Hfin Hoff Hw] Hpol Hopen. unfold pump_stream, polled in *.
  rewrite Hent in *. apply andb_true_iff in Hpol as [Hp1 Hp2]. apply negb_true_iff in Hp1. apply Z.leb_le in Hp2.
  rewrite Hp1. destruct (Z.ltb_spec (pi_fd (entry_pipe kind e)) 0); [lia|]. cbn [orb].
  unfold sink_append. unfold sink_is_open in Hopen. apply andb_false_iff in Hopen.
  assert (negb (sk_opened (pn_sink e)) || negb (st_open (stream kind (pn_sink e))) = true) as ->
    by (destruct Hopen as [-> | ->]; [done|by rewrite orb_true_r]).
  cbn [mbind option_bind lw_code lw_message]. rewrite bool_decide_eq_false_2 by done.
  eexists _, _. split; [reflexivity|]. unfold observer_calls. cbn [lw_bytes_accepted lw_dropped_bytes pm_calls].
  split; [destruct (pn_observed e); apply app_nil_r|].
  split; [|split; [|split; simpl; [by rewrite lookup_insert_eq|done..]]]; [done|].
  intros k'. simpl. rewrite lookup_insert_eq. by destruct k'.
Qed.

Lemma substring_whole s : String.substring 0 (String.length s) s = s.
Proof. induction s as [|a s IH]; simpl; [done|]. by rewrite IH. Qed.

(** One read, whether the sink takes it or not *)
Lemma follow_step rejected job base log p s e je kind data :
  Followed job base log p s e je -> polled p job kind = true ->
  ls_bytes_dropped (sk_statistics (pn_sink e)) <= u64_max -> base kind + slen (log kind) + slen data <= u64_max ->
  exists p' codes s' e' je' text,
    pump_stream (ReadBytes data) job kind p = Some p' /\
    bridge_all rejected (drop (length (pm_calls p)) (pm_calls p')) s = (codes, s') /\
    Forall (eq LB_kPublished) codes /\ Followed job base (extend kind text log) p' s' e' je' /\
    (forall k, polled p' job k = polled p job k) /\ slen text <= slen data /\
    let d := ls_bytes_dropped (sk_statistics (pn_sink e)) in
    let d' := ls_bytes_dropped (sk_statistics (pn_sink e')) in
    d <= d' <= d + slen data /\
    (d' = d -> (forall k, sink_is_open k (pn_sink e) = true) ->
     text = data /\ forall k, sink_is_open k (pn_sink e') = true).
Proof.
  intros Hf Hpol Hd Hu. destruct (sink_is_open kind (pn_sink e)) eqn:Hop.
  - destruct (follow_read rejected _ _ _ _ _ _ _ _ _ Hf Hpol Hop Hd Hu)
      as (p' & calls & e' & n & Hp & Hc & Hn & Hdr & Hopen & Hpol' & codes & s' & je' & Hb & Hpub & Hf').
    exists p', codes, s', e', je', (String.substring 0 (N.to_nat n) data).
    rewrite Hc, drop_app_length. cbn zeta.
    split_and!; try done; [rewrite slen_substring0; lia|lia|lia|].
    intros Heq Hall. assert (n = slen data) as -> by lia. split; [|intros k; by apply Hopen].
    unfold slen. rewrite Nat2N.id. apply substring_whole.
  - destruct (closed_read _ _ _ _ _ _ _ _ data Hf Hpol Hop) as (p' & e' & Hp & Hc & Hk & Hpol' & Hf').
    exists p', [], s, e', je, "". rewrite Hc, drop_all, Hk. change (slen "") with 0. cbn zeta. split_and!; try done; try lia.
    + destruct Hf' as [? ? ? ? ? ? Hoff Hw]. split; try done; intros k; rewrite extend_nothing; [apply Hoff|apply Hw].
    + intros _ Hall. by rewrite Hall in Hop.
Qed.

Lemma follow_ok rejected job base reads log p s e je :
  Followed job base log p s e je -> Forall (fun r => polled p job r.1 = true) reads ->
  ls_bytes_dropped (sk_statistics (pn_sink e)) + reads_bytes reads <= u64_max ->
  (forall k, base k + slen (log k) + reads_bytes reads <= u64_max) ->
  exists codes p' s' log' e' je', follow rejected job reads p s = Some (codes, p', s') /\
    Forall (eq LB_kPublished) codes /\ Followed job base log' p' s' e' je' /\
    ls_bytes_dropped (sk_statistics (pn_sink e)) <= ls_bytes_dropped (sk_statistics (pn_sink e')) /\
    (ls_bytes_dropped (sk_statistics (pn_sink e')) = ls_bytes_dropped (sk_statistics (pn_sink e)) ->
     (forall k, sink_is_open k (pn_sink e) = true) -> forall k, log' k = log k +:+ reads_text k reads).
Proof.
  revert log p s e je. induction reads as [|[kind data] reads IH]; intros log p s e je Hf Hpol Hd Hu; simpl.
  { exists [], p, s, log, e, je. split_and!; try done. intros _ _ k. by rewrite append_empty_r. }
  unfold reads_bytes in *. cbn [sum_sizes snd] in *. inv Hpol.
  destruct (follow_step rejected job base log p s e je kind data) as
    (p1 & codes1 & s1 & e1 & je1 & text & -> & Hb & Hpub & Hf1 & Hpol1 & Ht & Hd1 & Hx); [done|done|lia|specialize (Hu kind); lia|].
  cbn [mbind option_bind]. rewrite Hb.
  destruct (IH (extend kind text log) p1 s1 e1 je1) as (codes2 & p2 & s2 & log2 & e2 & je2 & -> & Hpub2 & Hf2 & Hd2 & Hx2); try done.
  - eapply Forall_impl; [done|]. intros r Hr. simpl in *. by rewrite Hpol1.
  - lia.
  - intros k. specialize (Hu k). unfold extend. case_decide; [subst|]; rewrite ?slen_append; lia.
  - exists (codes1 ++ codes2), p2, s2, log2, e2, je2. split_and!; try done; [by apply Forall_app|lia|].
    intros Heq Hall k. destruct Hx as [-> Hopen]; [lia|done|]. rewrite Hx2; [|lia|done].
    unfold extend. destruct (decide (kind = k)) as [->|Hk].
    + rewrite decide_True by done. by rewrite append_assoc.
    + by rewrite decide_False.
Qed.

(** C20. A follower sees exactly what was stored.  While the pump reads the output
    of an attached job (any interleaving of the two pipes, less than 2^64 bytes
    in all), every read returns, and everything it hands to the bridge is
    published, never refused: the end of each followed stream stays equal to
    the sink's logical offset, also across rotations, failed writes and drop
    markers, and the window holds the end of the followed text without a
    hole; when both streams of the sink were open and nothing was dropped, that
    text is the stored one followed by all the bytes read, in order. *)
Theorem follow_exact rejected job base reads log p s e je :
  Followed job base log p s e je -> Forall (fun r => polled p job r.1 = true) reads ->
  ls_bytes_dropped (sk_statistics (pn_sink e)) + reads_bytes reads <= u64_max ->
  (forall k, base k + slen (log k) + reads_bytes reads <= u64_max) ->
  exists codes p' s' log' e' je', follow rejected job reads p s = Some (codes, p', s') /\
    Forall (eq LB_kPublished) codes /\ Followed job base log' p' s' e' je' /\
    (ls_bytes_dropped (sk_statistics (pn_sink e')) = ls_bytes_dropped (sk_statistics (pn_sink e)) ->
     (forall k, sink_is_open k (pn_sink e) = true) -> forall k, log' k = log k +:+ reads_text k reads).
Proof.
  intros Hf Hpol Hd Hu.
  destruct (follow_ok rejected _ _ _ _ _ _ _ _ Hf Hpol Hd Hu) as (codes & p' & s' & log' & e' & je' & ? & ? & ? & _ & ?).
  by exists codes, p', s', log', e', je'.
Qed.
End followed.

(** ** Descriptors and completions *)

Section conserved.
Context {I : Type} `{LogIo I}.
Implicit Types m : Pump I.

(** What happens to the worker: a command it receives, or a [read]. *)
Inductive pump_event := PCommand (c : PumpCommand) | PRead (read : ReadAnswer) (job : N) (kind : LogStreamKind).

Definition pump_event_step (event : pump_event) m : option (Pump I) :=
  match event with
  | PCommand c => Some (apply_command m c)
  | PRead read job kind => pump_stream read job kind m
  end.

Fixpoint pump_events (events : list pump_event) m : option (Pump I) :=
  match events with [] => Some m | event :: events => pump_event_step event m ≫= pump_events events end.

(** The inputs of the successful attaches, and the jobs successfully detached *)
Definition accepted_by (event : pump_event) m : list LogPumpJobInput :=
  match event with
  | PCommand (CmdAttach input) => match (apply_attach input m).1.1 with PA_kAttached => [input] | _ => [] end
  | _ => []
  end.

Definition detached_by (event : pump_event) m : list N :=
  match event with
  | PCommand (CmdDetach job) => match (apply_detach job m).1.1 with PT_kDetached => [job] | _ => [] end
  | _ => []
  end.

Fixpoint ghost {A} (f : pump_event -> Pump I -> list A) (events : list pump_event) m : list A :=
  match events with
  | [] => []
  | event :: events => f event m ++ match pump_event_step event m with Some m' => ghost f events m' | None => [] end
  end.

Definition entry_fds (e : PumpEntry) : list Z := close_pipe (pn_stdout e) ++ close_pipe (pn_stderr e).
Definition input_fds (i : LogPumpJobInput) : list Z :=
  close_pipe (mkPipe (li_stdout_read i) false) ++ close_pipe (mkPipe (li_stderr_read i) false).

Definition held (entries : gmap N PumpEntry) : list Z := map_to_list entries ≫= (fun x => entry_fds x.2).
Definition attached_jobs (entries : gmap N PumpEntry) : list N := (map_to_list entries).*1.

Record Conserved (accepted : list LogPumpJobInput) (detached : list N) m : Prop := {
  co_keys : forall job e, pm_entries m !! job = Some e -> pn_job e = job;
  co_fds : pm_closed m ++ held (pm_entries m) ≡ₚ accepted ≫= input_fds;
  co_jobs : (pd_job <$> pm_done m) ++ detached ++ attached_jobs (pm_entries m) ≡ₚ li_job <$> accepted;
}.

Lemma held_delete entries job e :
  entries !! job = Some e -> held entries ≡ₚ entry_fds e ++ held (delete job entries).
Proof. intros Hj. unfold held. by rewrite <- (map_to_list_delete _ _ _ Hj). Qed.

Lemma jobs_delete entries job (e : PumpEntry) :
  entries !! job = Some e -> attached_jobs entries ≡ₚ job :: attached_jobs (delete job entries).
Proof. intros Hj. unfold attached_jobs. by rewrite <- (map_to_list_delete _ _ _ Hj). Qed.

Lemma held_insert entries job e :
  entries !! job = None -> held (<[job := e]> entries) ≡ₚ entry_fds e ++ held entries.
Proof. intros Hj. unfold held. by rewrite map_to_list_insert. Qed.

Lemma jobs_insert entries job (e : PumpEntry) :
  entries !! job = None -> attached_jobs (<[job := e]> entries) ≡ₚ job :: attached_jobs entries.
Proof. intros Hj. unfold attached_jobs. by rewrite map_to_list_insert. Qed.

Lemma finalize_conserved accepted detached m job e post :
  Conserved accepted detached m -> pm_entries m !! job = Some e ->
  Conserved accepted (detached ++ if (post : bool) then [] else [job]) (finalize_entry job e post m).
Proof.
  intros [Hk Hf Hj] He. unfold finalize_entry. destruct (close_sink (pn_sink e) (pm_io m)) as [k io].
  split; cbn [pm_entries pm_closed pm_done].
  - intros job' e' [_ H']%lookup_delete_Some. by apply Hk.
  - rewrite <- Hf, (held_delete _ _ _ He), <- app_assoc. done.
  - rewrite <- Hj, (jobs_delete _ _ _ He), fmap_app, <- (Hk _ _ He).
    destruct post; simpl; rewrite ?app_nil_r, <- ?app_assoc; simpl; [|done].
    by rewrite !Permutation_middle.
Qed.

Lemma check_completion_conserved accepted detached m job :
  Conserved accepted detached m -> Conserved accepted detached (check_entry_completion job m).
Proof.
  intros Hm. unfold check_entry_completion. destruct (pm_entries m !! job) as [e|] eqn:He; [|done].
  destruct (_ && _); [|done]. rewrite <- (app_nil_r detached). by apply (finalize_conserved _ _ _ _ _ true).
Qed.

Lemma update_conserved accepted detached m job e e' io fds calls :
  Conserved accepted detached m -> pm_entries m !! job = Some e -> pn_job e' = job -> entry_fds e ≡ₚ fds ++ entry_fds e' ->
  Conserved accepted detached
    (mkPump (<[job := e']> (pm_entries m)) io (pm_done m) (pm_closed m ++ fds) calls).
Proof.
  intros [Hk Hf Hj] He Hjob Hfds. rewrite <- insert_delete_eq.
  split; cbn [pm_entries pm_closed pm_done].
  - intros job' e1 [[<- <-]|[_ [_ H']%lookup_delete_Some]]%lookup_insert_Some; [done|by apply Hk].
  - rewrite <- Hf, (held_delete _ _ _ He), held_insert, Hfds by apply lookup_delete_eq.
    by rewrite <- !app_assoc.
  - rewrite <- Hj, (jobs_delete _ _ _ He), jobs_insert by apply lookup_delete_eq. done.
Qed.

Lemma attach_conserved accepted detached m input :
  Conserved accepted detached m ->
  Conserved (accepted ++ accepted_by (PCommand (CmdAttach input)) m) detached (apply_attach input m).2.
Proof.
  intros Hm. unfold accepted_by, apply_attach. destruct (_ || _); [by rewrite app_nil_r|].
  destruct (pm_entries m !! li_job input) eqn:He; [by rewrite app_nil_r|]. simpl.
  apply check_completion_conserved. destruct Hm as [Hk Hf Hj]. split; cbn [pm_entries pm_closed pm_done].
  - intros job e [[<- <-]|[_ H']]%lookup_insert_Some; [done|by apply Hk].
  - rewrite held_insert, bind_app by done. simpl. rewrite app_nil_r, <- Hf.
    by rewrite (Permutation_app_comm (entry_fds _)), app_assoc.
  - rewrite jobs_insert, fmap_app, <- Hj by done. rewrite (Permutation_app_comm _ (li_job <$> [input])).
    simpl. by rewrite <- !Permutation_middle.
Qed.

Lemma pump_stream_conserved accepted detached m m' read job kind :
  Conserved accepted detached m -> pump_stream read job kind m = Some m' -> Conserved accepted detached m'.
Proof.
  intros Hm. unfold pump_stream. destruct (pm_entries m !! job) as [e|] eqn:He; [|by intros [= <-]].
  pose proof (co_keys _ _ _ Hm _ _ He) as Hjob.
  destruct (pi_done (entry_pipe kind e) || _) eqn:Hguard; [by intros [= <-]|].
  apply orb_false_iff in Hguard as [_ Hfd]. apply Z.ltb_ge in Hfd.
  assert (forall e1, pn_job e1 = job -> pn_stdout e1 = pn_stdout e -> pn_stderr e1 = pn_stderr e ->
    Conserved accepted detached (check_entry_completion job
      (mkPump (<[job := set_entry_pipe kind (mkPipe (-1) true) e1]> (pm_entries m)) (pm_io m) (pm_done m)
         (pm_closed m ++ [pi_fd (entry_pipe kind e)]) (pm_calls m)))) as Hend.
  { intros e1 H1 H2 H3. eapply check_completion_conserved, update_conserved; [done|done|by destruct kind|].
    unfold entry_fds, close_pipe. apply Z.leb_le in Hfd. destruct kind; simpl in *; rewrite ?H2, ?H3, Hfd; simpl; [done|].
    by rewrite app_nil_r, (Permutation_app_comm _ [_]). }
  destruct read as [data| | |errno].
  - destruct (sink_append _ _ _ _) as [[[r k] io]|]; [|done]. cbn [mbind option_bind]. intros [= <-].
    rewrite <- (app_nil_r (pm_closed m)).
    apply (update_conserved _ _ _ _ e); [done|done|by case_bool_decide|by case_bool_decide].
  - intros [= <-]. by apply Hend.
  - by intros [= <-].
  - intros [= <-]. by apply Hend.
Qed.

Lemma event_conserved accepted detached m m' event :
  Conserved accepted detached m -> pump_event_step event m = Some m' ->
  Conserved (accepted ++ accepted_by event m) (detached ++ detached_by event m) m'.
Proof.
  intros Hm. destruct event as [[input|job]|read job kind]; simpl.
  - intros [= <-]. rewrite (app_nil_r detached). by apply attach_conserved.
  - intros [= <-]. rewrite app_nil_r. unfold apply_detach.
    destruct (pm_entries m !! job) as [e|] eqn:He; simpl; [by apply (finalize_conserved _ _ _ _ _ false)|by rewrite app_nil_r].
  - rewrite !app_nil_r. by apply pump_stream_conserved.
Qed.

Lemma events_conserved events accepted detached m m' :
  Conserved accepted detached m -> pump_events events m = Some m' ->
  Conserved (accepted ++ ghost accepted_by events m) (detached ++ ghost detached_by events m) m'.
Proof.
  revert accepted detached m. induction events as [|event events IH]; intros accepted detached m Hm; simpl.
  { intros [= <-]. by rewrite !app_nil_r. }
  destruct (pump_event_step event m) as [m1|] eqn:He; [|done]. simpl. rewrite !app_assoc.
  apply IH. by apply event_conserved.
Qed.

Lemma shutdown_closed m : pm_closed (shutdown_entries m) ≡ₚ pm_closed m ++ held (pm_entries m).
Proof.
  unfold shutdown_entries, held. rewrite <- (map_entries_perm (pm_entries m)).
  generalize (pm_closed m) as closed, (pm_io m) as io. induction (map_entries (pm_entries m)) as [|[job e] l IH];
    intros closed io; simpl; [by rewrite app_nil_r|].
  specialize (IH (closed ++ close_pipe (pn_stdout e) ++ close_pipe (pn_stderr e)) (close_sink (pn_sink e) io).2).
  destruct (fold_left _ l _) as [io' closed']. simpl in *. rewrite IH. unfold entry_fds. by rewrite <- !app_assoc.
Qed.

Lemma pump_events_app l1 l2 m : pump_events (l1 ++ l2) m = pump_events l1 m ≫= pump_events l2.
Proof.
  revert m. induction l1 as [|event l1 IH]; intros m; simpl; [done|].
  destruct (pump_event_step event m); simpl; [apply IH|done].
Qed.

(** A round of the worker is its commands and then its reads. *)
Lemma pump_once_events commands ready m :
  pump_once commands ready m =
  pump_events ((PCommand <$> commands) ++
    ((fun x => PRead x.2 x.1.1 x.1.2) <$> filter (fun x => polled m x.1.1 x.1.2 = true) ready)) m.
Proof.
  unfold pump_once. rewrite pump_events_app. generalize (filter (fun x => polled m x.1.1 x.1.2 = true) ready) as l.
  intros l. replace (pump_events (PCommand <$> commands) m) with (Some (fold_left apply_command commands m)).
  - generalize (Some (fold_left apply_command commands m)) as acc. induction l as [|x l IH]; intros acc; simpl;
      [by destruct acc|]. rewrite IH. by destruct acc.
  - revert m. induction commands as [|c commands IH]; intros m; simpl; [done|]. apply IH.
Qed.

(** The pump neither leaks nor double-closes a descriptor and neither loses nor
    repeats a completion.  After any sequence of commands and reads, the
    descriptors closed and those still read from are exactly the valid ones
    of the accepted attaches, each as often as it was handed over; after
    shutdown all of them are closed.  Every accepted job is in exactly one of
    three situations: completed with one event, detached, or still
    attached. *)
Theorem pump_conserves events io m :
  pump_events events (mkPump ∅ io [] [] []) = Some m ->
  let accepted := ghost accepted_by events (mkPump ∅ io [] [] []) in
  let detached := ghost detached_by events (mkPump ∅ io [] [] []) in
  pm_closed m ++ held (pm_entries m) ≡ₚ accepted ≫= input_fds /\
  pm_closed (shutdown_entries m) ≡ₚ accepted ≫= input_fds /\
  (pd_job <$> pm_done m) ++ detached ++ attached_jobs (pm_entries m) ≡ₚ li_job <$> accepted.
Proof.
  intros Hrun. assert (Conserved [] [] (mkPump ∅ io [] [] [])) as H0.
  { by split. }
  destruct (events_conserved _ _ _ _ _ H0 Hrun) as [_ Hf Hj]. cbn zeta. rewrite shutdown_closed. by split_and!.
Qed.
End conserved.

(** ** Examples and witnesses *)

(** Job 7 is attached with descriptors 10 and 11 and registered with the streamer. *)
Definition example_input : LogPumpJobInput := mkPumpInput 7 10 11 opened_sink.1 true.

Definition example_pump : Pump FileSystem := (apply_attach example_input (mkPump ∅ opened_sink.2 [] [] [])).2.

Definition example_registered : Streamer := (register_job 7 (new_streamer example_streamer_config)).2.

Definition example_pump_entry : PumpEntry :=
  mkPumpEntry 7 (mkPipe 10 false) (mkPipe 11 false) opened_sink.1 true "".

Lemma example_followed :
  Followed 0 7 (fun _ => 0) (fun _ => "") example_pump example_registered example_pump_entry
    (mkEntry 0 [] true 0 false 0 None no_stream_state no_stream_state).
Proof.
  split; [vm_compute; reflexivity|done|apply opened_sink_ok|apply register_ok, new_streamer_ok
         |vm_compute; reflexivity|done|by intros []|].
  intros []; apply no_window_ok.
Qed.

Lemma follow_exact_witness :
  exists codes p' s' log' e' je',
    follow 0 7 [(LS_kStdout, long_output); (LS_kStderr, "oops"); (LS_kStdout, "end")] example_pump example_registered
      = Some (codes, p', s') /\
    Forall (eq LB_kPublished) codes /\ Followed 0 7 (fun _ => 0) log' p' s' e' je' /\
    (ls_bytes_dropped (sk_statistics (pn_sink e')) = 0 -> (forall k, sink_is_open k opened_sink.1 = true) ->
     forall k, log' k = "" +:+ reads_text k [(LS_kStdout, long_output); (LS_kStderr, "oops"); (LS_kStdout, "end")]).
Proof.
  apply (follow_exact 0 0 7 (fun _ => 0) [(LS_kStdout, long_output); (LS_kStderr, "oops"); (LS_kStdout, "end")]
    (fun _ => "") example_pump example_registered example_pump_entry _ example_followed).
  - repeat constructor.
  - vm_compute. discriminate.
  - intros k. vm_compute. discriminate.
Defined.

(** Both pipes end, and the job completes once. *)
Definition example_events : list pump_event :=
  [PCommand (CmdAttach example_input); PCommand (CmdAttach example_input); PRead (ReadBytes "hi") 7 LS_kStdout;
   PRead ReadEof 7 LS_kStderr; PRead ReadEof 7 LS_kStdout; PCommand (CmdDetach 7)].

Definition example_ended : Pump FileSystem :=
  default example_pump (pump_events example_events (mkPump ∅ opened_sink.2 [] [] [])).

Example example_completed :
  (pm_closed example_ended, (fun d => (pd_job d, pd_completed d)) <$> pm_done example_ended) = ([11; 10]%Z, [(7, true)]).
Proof. vm_compute. reflexivity. Qed.

Lemma pump_conserves_witness :
  let accepted := ghost accepted_by example_events (mkPump ∅ opened_sink.2 [] [] []) in
  let detached := ghost detached_by example_events (mkPump ∅ opened_sink.2 [] [] []) in
  pm_closed example_ended ++ held (pm_entries example_ended) ≡ₚ accepted ≫= input_fds /\
  pm_closed (shutdown_entries example_ended) ≡ₚ accepted ≫= input_fds /\
  (pd_job <$> pm_done example_ended) ++ detached ++ attached_jobs (pm_entries example_ended) ≡ₚ li_job <$> accepted.
Proof. apply (pump_conserves example_events opened_sink.2 example_ended). vm_compute. reflexivity. Defined.
