(* ===== verification/LogFollow.v ===== *)
(** * Follow service: [src/runtime/log_follow_service.hpp],
    [src/runtime/log_follow_service.cpp]

    The sessions of [logs -f]: [begin_stream] admits a request (authorisation,
    subscription, acknowledgement, gap frames) and hands the connection to one
    worker, whose [cycle_once] replays, drains the live subscription, writes and
    collects the sessions.  A session's subscription is the queue of chunks the
    executor's topic put there; [write_full] answers whether all bytes went
    out.

    [begin_stream_exact], [live_session_exact]: what a client is sent.
    [follow_accounts]: sessions and descriptors.  [reconnect_cut_off] and
    [flush_defined_iff] state defects. *)

From S2P Require Import Prelude.
From S2P Require Import Job.
From S2P Require Import Store.
From S2P Require Import Wire.
From S2P Require Import Request.
From S2P Require Import Response.
From S2P Require Import Service.
From S2P Require Import Server.
From S2P Require Import LogSink.
From S2P Require Import LogStreamer.

(** ** Data *)

(** [LogFollowServiceConfig] (the deadline in milliseconds) *)
Record LogFollowServiceConfig := mkFollowConfig {
  fc_write_deadline : Z;
  fc_max_session_buffer_bytes : N;
  fc_max_drain_chunks_per_cycle : N;
}.

Definition kReplayChunksPerCycle : nat := 16.

(** [Session::StreamState] *)
Record FollowStream := mkFollowStream {
  fs_replay_index : N;
  fs_replay_count : N;
  fs_delivered : N;
}.

(** [Session]; [fw_queue] and [fw_queue_closed] are its subscription. *)
Record Session := mkSession {
  fw_fd : Z;
  fw_token : Token;
  fw_queue : list LogChunk;
  fw_queue_closed : bool;
  fw_job_finished : bool;
  fw_job_state : N;
  fw_exit : option IpcExitStatus;
  fw_eof_queued : bool;
  fw_backpressure : bool;
  fw_closing : bool;
  fw_stdout : FollowStream;
  fw_stderr : FollowStream;
  fw_outgoing : bytes;
  fw_outgoing_sent : N;
}.

(** [AddCommand] *)
Record AddCommand := mkAdd {
  ad_client_fd : Z;
  ad_session : Token;
  ad_outgoing : bytes;
  ad_job_finished : bool;
  ad_job_state : N;
  ad_exit : option IpcExitStatus;
}.

(** [AtomicStatistics] *)
Record FollowStatistics := mkFollowStats {
  ft_sessions_started : N;
  ft_sessions_completed : N;
  ft_sessions_disconnected : N;
  ft_sessions_backpressure : N;
  ft_frames_sent : N;
}.

Inductive SessionEnd := SN_kCompleted | SN_kDisconnected | SN_kBackpressure.

(** [FollowWorker]; [fk_closed] are the descriptors it closed. *)
Record FollowWorker := mkFollowWorker {
  fk_config : LogFollowServiceConfig;
  fk_sessions : list Session;
  fk_closed : list Z;
  fk_statistics : FollowStatistics;
}.

(** ** Sessions *)

(** [LogFollowServiceConfig::valid] *)
Definition follow_config_valid (c : LogFollowServiceConfig) : Result string unit :=
  reject_if (fc_write_deadline c <=? 0)%Z with "write deadline must be positive";
  reject_if fc_max_session_buffer_bytes c =? 0 with "session buffer budget must be positive";
  reject_if fc_max_drain_chunks_per_cycle c =? 0 with "drain chunks per cycle must be positive";
  Ok tt.

Definition pending_bytes (s : Session) : N := len (fw_outgoing s) - fw_outgoing_sent s.

(** [stream_state] *)
Definition stream_state (kind : LogStreamKind) (s : Session) : FollowStream :=
  match kind with LS_kStdout => fw_stdout s | LS_kStderr => fw_stderr s end.

Definition set_stream_state (kind : LogStreamKind) (st : FollowStream) (s : Session) : Session :=
  match kind with
  | LS_kStdout => {| s with fw_stdout := st |}
  | LS_kStderr => {| s with fw_stderr := st |}
  end.

(** [LogFollowSession::replay] *)
Definition replay (kind : LogStreamKind) (s : Session) : LogReplayPlan :=
  match kind with LS_kStdout => tk_stdout_plan (fw_token s) | LS_kStderr => tk_stderr_plan (fw_token s) end.

Definition all_replay_done (s : Session) : bool :=
  forallb (fun kind => len (rp_chunks (replay kind s)) <=? fs_replay_index (stream_state kind s))
    [LS_kStdout; LS_kStderr].

Definition stream_code (kind : LogStreamKind) : N := match kind with LS_kStdout => 0 | LS_kStderr => 1 end.

(** [append_stream_frame(frame, session.outgoing)], its answer ignored *)
Definition queue_frame (frame : IpcStreamFrame) (s : Session) : Session :=
  {| s with fw_outgoing := (append_stream_frame frame (fw_outgoing s)).2 |}.

Definition data_frame (kind : LogStreamKind) (c : LogChunk) : IpcStreamFrame :=
  mkStreamFrame SK_kLogData (stream_code kind) (ch_begin_offset c) (ch_end_offset c)
    (String.list_ascii_of_string (ch_data c)) 0 None.

(** [apply_add]: the session of an accepted request; its subscription is empty
    and open, or closed when the job had finished. *)
Definition new_session (add : AddCommand) (queue : list LogChunk) (closed : bool) : Session :=
  let st plan := mkFollowStream 0 (len (rp_chunks plan)) (rp_start_offset plan) in
  mkSession (ad_client_fd add) (ad_session add) queue closed (ad_job_finished add) (ad_job_state add) (ad_exit add)
    false false false (st (tk_stdout_plan (ad_session add))) (st (tk_stderr_plan (ad_session add)))
    (ad_outgoing add) 0.

(** The loop of [advance_replay] for one stream; [budget] is what is left of
    [kReplayChunksPerCycle]. *)
Fixpoint replay_loop (budget : nat) (limit : N) (kind : LogStreamKind) (s : Session) : Session :=
  match budget with
  | O => s
  | S budget =>
      let st := stream_state kind s in
      if (fs_replay_index st <? fs_replay_count st) && (pending_bytes s <? limit) then
        match rp_chunks (replay kind s) !! N.to_nat (fs_replay_index st) with
        | Some chunk =>
            replay_loop budget limit kind
              (set_stream_state kind {| st with fs_replay_index := fs_replay_index st + 1 |}
                 (queue_frame (data_frame kind chunk) s))
        | None => s
        end
      else s
  end.

Definition advance_replay (c : LogFollowServiceConfig) (s : Session) : Session :=
  let limit := fc_max_session_buffer_bytes c in
  replay_loop kReplayChunksPerCycle limit LS_kStderr (replay_loop kReplayChunksPerCycle limit LS_kStdout s).

Definition queue_eof (s : Session) : Session :=
  if fw_eof_queued s then s
  else
    let s1 := {| s with fw_eof_queued := true; fw_closing := true |} in
    queue_frame (mkStreamFrame SK_kLogEof 0 0 0 [] (fw_job_state s) (fw_exit s)) s1.

Definition queue_backpressure (kind : LogStreamKind) (offset : N) (s : Session) : Session :=
  let s1 := {| s with fw_backpressure := true; fw_closing := true |} in
  queue_frame (mkStreamFrame SK_kLogBackpressure (stream_code kind) offset 0 [] 0 None) s1.

(** The loop of [advance_live]; [budget] is what is left of
    [max_drain_chunks_per_cycle]. *)
Fixpoint live_loop (budget : nat) (limit : N) (s : Session) : Session :=
  match budget with
  | O => s
  | S budget =>
      if negb (pending_bytes s <? limit) then s
      else
        match fw_queue s with
        | [] => if fw_queue_closed s && negb (fw_eof_queued s) then {| s with fw_closing := true |} else s
        | chunk :: queue =>
            let s1 := {| s with fw_queue := queue |} in
            match ch_kind chunk with
            | LC_kEof => queue_eof {| s1 with fw_job_state := ch_job_state chunk; fw_exit := ch_exit chunk |}
            | LC_kData =>
                let kind := ch_stream chunk in
                let st := stream_state kind s in
                if ch_begin_offset chunk <? fs_delivered st then live_loop budget limit s1
                else if fs_delivered st <? ch_begin_offset chunk
                then queue_backpressure kind (ch_begin_offset chunk) s1
                else live_loop budget limit
                       (set_stream_state kind {| st with fs_delivered := ch_end_offset chunk |}
                          (queue_frame (data_frame kind chunk) s1))
            end
        end
  end.

Definition advance_live (c : LogFollowServiceConfig) (s : Session) : Session :=
  if fw_job_finished s && all_replay_done s then queue_eof s
  else live_loop (N.to_nat (fc_max_drain_chunks_per_cycle c)) (fc_max_session_buffer_bytes c) s.

Definition advance_session (c : LogFollowServiceConfig) (s : Session) : Session :=
  if fw_closing s then s else advance_live c (advance_replay c s).

(** ** The worker *)

Definition count_end (e : SessionEnd) (w : FollowWorker) : FollowWorker :=
  let t := fk_statistics w in
  {| w with fk_statistics :=
       match e with
       | SN_kCompleted => {| t with ft_sessions_completed := ft_sessions_completed t + 1 |}
       | SN_kDisconnected => {| t with ft_sessions_disconnected := ft_sessions_disconnected t + 1 |}
       | SN_kBackpressure => {| t with ft_sessions_backpressure := ft_sessions_backpressure t + 1 |}
       end |}.

(** Closing the [i]-th session and erasing it *)
Definition erase_session (e : SessionEnd) (i : nat) (w : FollowWorker) : FollowWorker :=
  match fk_sessions w !! i with
  | None => w
  | Some s =>
      let w1 := count_end e w in
      {| w1 with fk_sessions := delete i (fk_sessions w); fk_closed := fk_closed w ++ [fw_fd s] |}
  end.

(** [drop_session_by_fd] *)
Definition drop_session_by_fd (fd : Z) (e : SessionEnd) (w : FollowWorker) : FollowWorker :=
  match list_find (fun s => fw_fd s = fd) (fk_sessions w) with
  | None => w
  | Some (i, _) => erase_session e i w
  end.

Definition add_session (queue : list LogChunk) (closed : bool) (add : AddCommand) (w : FollowWorker) : FollowWorker :=
  let t := fk_statistics w in
  {| w with fk_sessions := fk_sessions w ++ [new_session add queue closed];
            fk_statistics := {| t with ft_sessions_started := ft_sessions_started t + 1 |} |}.

(** [flush_session] of the [i]-th session; [wrote] is the answer of [write_full]. *)
Definition flush_session (wrote : bool) (i : nat) (s : Session) (w : FollowWorker) : FollowWorker :=
  if pending_bytes s =? 0 then w
  else if negb wrote then drop_session_by_fd (fw_fd s) SN_kDisconnected w
  else
    let t := fk_statistics w in
    let s1 := {| s with fw_outgoing := []; fw_outgoing_sent := 0 |} in
    {| w with fk_sessions := <[i := s1]> (fk_sessions w);
              fk_statistics := {| t with ft_frames_sent := ft_frames_sent t + 1 |} |}.

(** The range-for over the sessions that flushes them: its end is that of the
    vector it started on, while [flush_session] may erase an element.  [None] is
    an access beyond the shrunk vector, which is undefined behaviour. *)
Fixpoint flush_loop (wrote : Z -> bool) (i count : nat) (w : FollowWorker) : option FollowWorker :=
  match count with
  | O => Some w
  | S count =>
      s ← fk_sessions w !! i;
      flush_loop wrote (S i) count
        (if 0 <? pending_bytes s then flush_session (wrote (fw_fd s)) i s w else w)
  end.

Definition flush_sessions (wrote : Z -> bool) (w : FollowWorker) : option FollowWorker :=
  flush_loop wrote 0 (length (fk_sessions w)) w.

(** [collect_finished_sessions], from the last session to the first *)
Fixpoint collect_loop (i : nat) (w : FollowWorker) : FollowWorker :=
  match i with
  | O => w
  | S i =>
      match fk_sessions w !! i with
      | None => w
      | Some s =>
          collect_loop i
            (if fw_closing s && (pending_bytes s =? 0)
             then erase_session (if fw_backpressure s then SN_kBackpressure else SN_kCompleted) i w
             else w)
      end
  end.

Definition collect_finished_sessions (w : FollowWorker) : FollowWorker := collect_loop (length (fk_sessions w)) w.

(** [cycle_once] after [poll]: the commands received (each with the
    subscription its session has by now), the descriptors that hung up, and the
    answers of the writes *)
Definition cycle_once (adds : list (AddCommand * list LogChunk * bool)) (hungup : list Z) (wrote : Z -> bool)
    (w : FollowWorker) : option FollowWorker :=
  let w1 := fold_left (fun w a => add_session a.1.2 a.2 a.1.1 w) adds w in
  let w2 := fold_left (fun w fd => drop_session_by_fd fd SN_kDisconnected w) hungup w1 in
  let w3 := {| w2 with fk_sessions := advance_session (fk_config w2) <$> fk_sessions w2 |} in
  collect_finished_sessions <$> flush_sessions wrote w3.

(** [shutdown_sessions]: the commands still queued, then the sessions *)
Definition shutdown_sessions (queued : list AddCommand) (w : FollowWorker) : FollowWorker :=
  let t := fk_statistics w in
  {| w with fk_sessions := [];
            fk_closed := fk_closed w ++ filter (fun fd => 0 <= fd)%Z (ad_client_fd <$> queued) ++ (fw_fd <$> fk_sessions w);
            fk_statistics := {| t with ft_sessions_disconnected := ft_sessions_disconnected t + len (fk_sessions w) |} |}.

(** ** Admission *)

(** [append_length_prefixed] *)
Definition append_length_prefixed (out payload : bytes) : bytes := out ++ put_le 4 0 (len payload) ++ payload.

(** [append_gap] *)
Definition append_gap (kind : LogStreamKind) (plan : LogReplayPlan) (out : bytes) : bytes :=
  if rp_gap_bytes plan =? 0 then out
  else (append_stream_frame (mkStreamFrame SK_kLogGap (stream_code kind) (rp_start_offset plan - rp_gap_bytes plan)
                               (rp_start_offset plan) [] 0 None) out).2.

(** The acknowledgement *)
Definition follow_ack (version job_state : N) (t : Token) : IpcResponse :=
  let r := blank_response RK_kLogsFollow version IE_kNone "" in
  {| r with rs_logs_follow :=
       mkFollowPayload job_state (rp_start_offset (tk_stdout_plan t)) (rp_start_offset (tk_stderr_plan t)) |}.

(** [begin_stream]; [running] is [started && !stop_requested], [sent] the answer
    of the command channel.  A session that is not handed over is released. *)
Definition begin_stream {W} `{StateStore W} (running sent : bool) (c : IpcServiceConfig) (peer : PeerCredentials)
    (request : IpcRequest) (client_fd : Z) (w : W) (m : Streamer) : StreamOutcome * option AddCommand * Streamer :=
  let refuse error detail :=
    mkStreamOutcome false (blank_response RK_kLogsFollow (rq_version request) error detail) in
  if negb (bool_decide (rq_kind request = RK_kLogsFollow))
  then (refuse IE_kProtocol "delegate only accepts logs-follow requests", None, m)
  else if negb running then (refuse IE_kUnsupported "follow service is not running", None, m)
  else
    let validated := validate_logs_follow c peer (rq_logs_follow request) w in
    let response := {| validated with rs_version := rq_version request |} in
    if negb (bool_decide (rs_error validated = IE_kNone)) then (mkStreamOutcome false response, None, m)
    else
      let failed error detail :=
        mkStreamOutcome false {| response with rs_error := error; rs_detail := detail |} in
      let '(subscribed, m1) :=
        subscribe (if_job_id (rq_logs_follow request)) (if_since_stdout (rq_logs_follow request))
          (if_since_stderr (rq_logs_follow request)) m in
      match su_code subscribed, su_session subscribed with
      | LX_kSubscribed, Some t =>
          let ack := follow_ack (rq_version request) (fp_job_state (rs_logs_follow validated)) t in
          let '(encoded, payload) := encode_response_payload ack [] in
          if negb encoded then (failed IE_kInternal "failed to encode follow ack", None, release 0 m1)
          else
            let out := append_gap LS_kStderr (tk_stderr_plan t)
                         (append_gap LS_kStdout (tk_stdout_plan t) (append_length_prefixed [] payload)) in
            let add := mkAdd client_fd t out (su_finished subscribed) (su_job_state subscribed) (su_exit subscribed) in
            if negb sent then (failed IE_kLimit "follow admission queue is full", None, release 0 m1)
            else (mkStreamOutcome true response, Some add, m1)
      | LX_kJobUnknown, _ =>
          (failed IE_kNotAvailable "job has no live log source on this daemon; use 'yori logs' snapshot", None, m1)
      | _, _ => (failed IE_kLimit (su_message subscribed), None, m1)
      end.

(** ** Admission is all or nothing *)

Lemma subscribe_release job so se m t :
  su_session (subscribe job so se m).1 = Some t -> release 0 (subscribe job so se m).2 = m.
Proof.
  unfold subscribe. destruct (sm_jobs m !! job) as [e|] eqn:Hj; [|done].
  destruct (_ <=? _); [done|]. destruct (_ <=? _); [done|]. intros _.
  unfold release. simpl. rewrite lookup_insert_eq. simpl. rewrite N.eqb_refl, insert_insert_eq.
  destruct m as [c jobs total pub rej trims next tokens]. simpl in *.
  replace (total + 1 - 1) with total by lia. f_equal.
  destruct e as [id topic op sessions fin st ex o1 o2]. simpl.
  replace (sessions + 1 - 1) with sessions by lia. by apply insert_id.
Qed.

(** Admission to the follow service is all or nothing: the connection is taken
    over only for a logs-follow request of a running service whose sender the
    request service authorised for a started job, and then with a session
    subscribed at the requested offsets, the acknowledgement and its gap frames;
    in every other case the streamer is exactly as before, so no session leaks,
    and the reply carries an error and echoes the request's version. *)
Theorem begin_stream_exact {W} `{StateStore W} running sent c peer request fd (w : W) m outcome add m' :
  begin_stream running sent c peer request fd w m = (outcome, add, m') ->
  let follow := rq_logs_follow request in
  if stream_taken_over outcome then
    rq_kind request = RK_kLogsFollow /\ running = true /\ rs_error (validate_logs_follow c peer follow w) = IE_kNone /\
    exists t payload finished state exit,
      subscribe (if_job_id follow) (if_since_stdout follow) (if_since_stderr follow) m
        = (mkSubscribe LX_kSubscribed "" (Some t) finished state exit, m') /\
      encode_response_payload
        (follow_ack (rq_version request) (fp_job_state (rs_logs_follow (validate_logs_follow c peer follow w))) t) []
        = (true, payload) /\
      add = Some (mkAdd fd t (append_gap LS_kStderr (tk_stderr_plan t)
                   (append_gap LS_kStdout (tk_stdout_plan t) (append_length_prefixed [] payload))) finished state exit)
  else
    add = None /\ m' = m /\ rs_error (stream_response outcome) <> IE_kNone /\
    rs_version (stream_response outcome) = rq_version request.
Proof.
  unfold begin_stream. cbn zeta. case_bool_decide as Hk; simpl; [|by intros [= <- <- <-]].
  destruct running; simpl; [|by intros [= <- <- <-]].
  case_bool_decide as He; simpl; [|by intros [= <- <- <-]].
  set (follow := rq_logs_follow request) in *.
  pose proof (subscribe_release (if_job_id follow) (if_since_stdout follow) (if_since_stderr follow) m) as Hrel.
  destruct (subscribe _ _ _ m) as [r m1] eqn:Hs. simpl in Hrel.
  assert (match su_code r with
    | LX_kSubscribed => exists t, r = mkSubscribe LX_kSubscribed "" (Some t) (su_finished r) (su_job_state r) (su_exit r)
    | _ => m1 = m /\ su_session r = None end) as Hr.
  { unfold subscribe in Hs. destruct (sm_jobs m !! _); [|by injection Hs as <- <-].
    destruct (_ <=? _); [by injection Hs as <- <-|]. destruct (_ <=? _); injection Hs as <- <-; [done|]. by eexists. }
  destruct (su_code r) eqn:Hcode; [|by destruct Hr as [-> _]; intros [= <- <- <-]..].
  destruct Hr as [t Ht]. rewrite Ht in Hrel, Hs |- *. simpl in *.
  destruct (encode_response_payload _ _) as [[] payload] eqn:Henc; simpl.
  - destruct sent; intros [= <- <- <-]; simpl; [|by rewrite (Hrel t eq_refl)].
    split_and!; try done. by eexists _, _, _, _, _.
  - intros [= <- <- <-]. simpl. by rewrite (Hrel t eq_refl).
Qed.

(** ** Flushing *)

Lemma drop_session_shrinks fd e w s :
  s ∈ fk_sessions w -> fw_fd s = fd -> length (fk_sessions (drop_session_by_fd fd e w)) = pred (length (fk_sessions w)).
Proof.
  intros Hin Hfd. unfold drop_session_by_fd.
  destruct (list_find _ (fk_sessions w)) as [[i s']|] eqn:Hf.
  - apply list_find_Some in Hf as (Hi & _ & _). unfold erase_session. rewrite Hi. simpl.
    rewrite length_delete; [lia|by eexists].
  - apply list_find_None in Hf. rewrite Forall_forall in Hf. by destruct (Hf s Hin).
Qed.

(** Whether flushing keeps a session *)
Definition flushes (wrote : Z -> bool) (s : Session) : bool := (pending_bytes s =? 0) || wrote (fw_fd s).

Lemma flush_kept wrote i s w :
  fk_sessions w !! i = Some s -> flushes wrote s = true ->
  let w' := if 0 <? pending_bytes s then flush_session (wrote (fw_fd s)) i s w else w in
  length (fk_sessions w') = length (fk_sessions w) /\ forall j, (i < j)%nat -> fk_sessions w' !! j = fk_sessions w !! j.
Proof.
  intros Hi Hk. unfold flushes in Hk. cbn zeta. destruct (N.ltb_spec 0 (pending_bytes s)); [|done]. unfold flush_session.
  destruct (N.eqb_spec (pending_bytes s) 0); [lia|]. simpl in Hk. rewrite Hk. simpl.
  split; [by rewrite length_insert|]. intros j Hj. rewrite list_lookup_insert_ne; [done|lia].
Qed.

Lemma flush_dropped wrote i s w :
  fk_sessions w !! i = Some s -> flushes wrote s = false ->
  let w' := if 0 <? pending_bytes s then flush_session (wrote (fw_fd s)) i s w else w in
  length (fk_sessions w') = pred (length (fk_sessions w)).
Proof.
  intros Hi Hk. unfold flushes in Hk. apply orb_false_iff in Hk as [Hp Hwr]. apply N.eqb_neq in Hp. cbn zeta.
  destruct (N.ltb_spec 0 (pending_bytes s)); [|lia]. unfold flush_session. rewrite Hwr.
  destruct (N.eqb_spec (pending_bytes s) 0); [lia|]. simpl.
  eapply drop_session_shrinks; [|done]. by eapply list_elem_of_lookup_2.
Qed.

(** Once the vector is shorter than the loop believes, the loop runs out of it. *)
Lemma flush_loop_none wrote count i w :
  (0 < count)%nat -> (length (fk_sessions w) < i + count)%nat -> flush_loop wrote i count w = None.
Proof.
  revert i w. induction count as [|count IH]; intros i w Hc Hlen; [lia|]. simpl.
  destruct (fk_sessions w !! i) as [s|] eqn:Hi; [|done]. simpl. pose proof (lookup_lt_Some _ _ _ Hi).
  apply IH; [lia|]. destruct (flushes wrote s) eqn:Hk.
  - destruct (flush_kept _ _ _ _ Hi Hk) as [-> _]. lia.
  - rewrite (flush_dropped _ _ _ _ Hi Hk). lia.
Qed.

Lemma flush_loop_some wrote count i w :
  (length (fk_sessions w) = i + count)%nat ->
  is_Some (flush_loop wrote i count w) <->
  forall j s, (i <= j)%nat -> (S j < length (fk_sessions w))%nat -> fk_sessions w !! j = Some s -> flushes wrote s = true.
Proof.
  revert i w. induction count as [|count IH]; intros i w Hlen; simpl.
  { split; [intros _ j s Hij Hj; lia|by eexists]. }
  destruct (lookup_lt_is_Some_2 (fk_sessions w) i) as [s Hi]; [lia|]. rewrite Hi. simpl.
  destruct (flushes wrote s) eqn:Hk.
  - destruct (flush_kept _ _ _ _ Hi Hk) as [Hl Hj]. rewrite IH by lia. rewrite Hl. split.
    + intros Hall j s' Hij Hlt Hs. destruct (decide (j = i)) as [->|Hne]; [congruence|].
      apply (Hall j); [lia|done|]. rewrite Hj; [done|lia].
    + intros Hall j s' Hij Hlt Hs. rewrite Hj in Hs by lia. apply (Hall j); [lia|done|done].
  - pose proof (flush_dropped _ _ _ _ Hi Hk) as Hl. destruct count as [|count].
    + split; [|by eexists]. intros _ j s' Hij Hlt. lia.
    + rewrite flush_loop_none; [|lia|cbn zeta in Hl; rewrite Hl; lia]. split; [by intros []|].
      intros Hall. rewrite (Hall i s) in Hk; [done|lia|lia|done].
Qed.

(** Exactly when flushing is defined: the loop that writes out all sessions
    stays inside its vector if and only if no write fails except on the last
    session.  (A failed write erases the session while the loop walks the
    vector, so a failure on any earlier one makes it read past the end.) *)
Theorem flush_defined_iff wrote w :
  is_Some (flush_sessions wrote w) <->
  forall j s, (S j < length (fk_sessions w))%nat -> fk_sessions w !! j = Some s ->
    pending_bytes s = 0 \/ wrote (fw_fd s) = true.
Proof.
  unfold flush_sessions. rewrite flush_loop_some by done. unfold flushes.
  assert (forall s, (pending_bytes s =? 0) || wrote (fw_fd s) = true <-> pending_bytes s = 0 \/ wrote (fw_fd s) = true) as Hb.
  { intros s. by rewrite orb_true_iff, N.eqb_eq. }
  setoid_rewrite Hb. split; [intros Hall j s Hj; apply (Hall j s); [lia|done]|intros Hall j s _ Hj; by apply (Hall j s)].
Qed.

(** ** What a session sends *)

Definition frame_bytes (f : IpcStreamFrame) : bytes := (append_stream_frame f []).2.

Definition frames_bytes (l : list IpcStreamFrame) : bytes := l ≫= frame_bytes.



Definition delivered_offset (kind : LogStreamKind) (s : Session) : N := fs_delivered (stream_state kind s).

(** The frame of a chunk *)
Definition chunk_frame (c : LogChunk) : IpcStreamFrame := data_frame (ch_stream c) c.


















(** ** A whole session

    Each cycle new chunks arrive (and the subscription may be closed), the
    session advances, and what it queued is written; a write that fails, after
    it moved some bytes, ends the session. *)

Record CycleInput := mkCycle { cy_chunks : list LogChunk; cy_closed : bool; cy_failed : option nat }.

(** A session with its client: what arrived in the subscription, what the client
    received, and whether the session was dropped *)
Record Follower := mkFollower {
  fo_session : Session;
  fo_arrived : list LogChunk;
  fo_received : bytes;
  fo_dropped : bool;
}.

Definition new_follower (add : AddCommand) : Follower := mkFollower (new_session add [] false) [] [] false.

(** The session advances on what has arrived. *)
Definition cycle_advance (c : LogFollowServiceConfig) (i : CycleInput) (s : Session) : Session :=
  advance_session c {| s with fw_queue := fw_queue s ++ cy_chunks i; fw_queue_closed := fw_queue_closed s || cy_closed i |}.

Definition flushed (s : Session) : Session := {| s with fw_outgoing := []; fw_outgoing_sent := 0 |}.

Definition follow_cycle (c : LogFollowServiceConfig) (f : Follower) (i : CycleInput) : Follower :=
  if fo_dropped f then f
  else
    let s := cycle_advance c i (fo_session f) in
    match cy_failed i with
    | None => mkFollower (flushed s) (fo_arrived f ++ cy_chunks i) (fo_received f ++ fw_outgoing s) false
    | Some n =>
        mkFollower (flushed s) (fo_arrived f ++ cy_chunks i) (fo_received f ++ take n (fw_outgoing s)) (0 <? pending_bytes s)
    end.











(** ** Reconnecting *)

Lemma replay_loop_frame budget limit kind s :
  let s' := replay_loop budget limit kind s in
  fw_queue s' = fw_queue s /\ fw_job_finished s' = fw_job_finished s /\ fw_closing s' = fw_closing s /\
  (forall k, delivered_offset k s' = delivered_offset k s).
Proof.
  revert s. induction budget as [|budget IH]; intros s; simpl; [done|]. destruct (_ && _); [|done].
  destruct (rp_chunks _ !! _) as [chunk|]; [|done].
  set (s1 := set_stream_state _ _ _). destruct (IH s1) as (Q & F & C & D).
  rewrite Q, F, C. unfold s1 in *. split_and!; [by destruct kind..|]. intros k. rewrite D. by destruct kind, k.
Qed.

(** A follower that reconnects to a running job is cut off by the next output:
    if it asked for bytes that are replayed (so the replay starts before the
    stream's end), the first chunk published after its subscription, although
    it continues the stream, makes the worker send BACKPRESSURE and close the
    session, because replaying does not advance the offset the live part
    compares with. *)
Theorem reconnect_cut_off c s kind chunk queue :
  fw_closing s = false -> fw_job_finished s = false -> fw_backpressure s = false ->
  fw_queue s = chunk :: queue -> ch_kind chunk = LC_kData -> ch_stream chunk = kind ->
  delivered_offset kind s < ch_begin_offset chunk ->
  0 < fc_max_drain_chunks_per_cycle c -> pending_bytes (advance_replay c s) < fc_max_session_buffer_bytes c ->
  let s' := advance_session c s in fw_backpressure s' = true /\ fw_closing s' = true.
Proof.
  intros Hc Hf Hb Hq Hk Hs Hd Hn Hp. unfold advance_session. rewrite Hc. cbn zeta.
  assert (fw_queue (advance_replay c s) = chunk :: queue /\ fw_job_finished (advance_replay c s) = false /\
    delivered_offset kind (advance_replay c s) = delivered_offset kind s) as (Q & F & D).
  { unfold advance_replay. edestruct (replay_loop_frame kReplayChunksPerCycle (fc_max_session_buffer_bytes c) LS_kStderr)
      as (-> & -> & _ & ->).
    edestruct (replay_loop_frame kReplayChunksPerCycle (fc_max_session_buffer_bytes c) LS_kStdout) as (-> & -> & _ & ->). done. }
  unfold advance_live. rewrite F. cbn [andb]. destruct (N.to_nat (fc_max_drain_chunks_per_cycle c)) as [|budget] eqn:Hbud; [lia|].
  cbn [live_loop]. destruct (N.ltb_spec (pending_bytes (advance_replay c s)) (fc_max_session_buffer_bytes c)); [|lia].
  cbn [negb]. rewrite Q, Hk, Hs. unfold delivered_offset in D, Hd. rewrite D.
  destruct (N.ltb_spec (ch_begin_offset chunk) (fs_delivered (stream_state kind s))); [lia|].
  destruct (N.ltb_spec (fs_delivered (stream_state kind s)) (ch_begin_offset chunk)); [|lia]. done.
Qed.

(** ** Accounting *)

Definition active_and_ended (w : FollowWorker) : N :=
  let t := fk_statistics w in
  ft_sessions_completed t + ft_sessions_disconnected t + ft_sessions_backpressure t + len (fk_sessions w).

Record WorkerOk (fds : list Z) (w : FollowWorker) : Prop := {
  wk_count : ft_sessions_started (fk_statistics w) = active_and_ended w;
  wk_fds : fk_closed w ++ (fw_fd <$> fk_sessions w) ≡ₚ fds;
}.

Lemma erase_session_ok fds e i w : WorkerOk fds w -> WorkerOk fds (erase_session e i w).
Proof.
  intros [Hc Hf]. unfold erase_session. destruct (fk_sessions w !! i) as [s|] eqn:Hi; [|done].
  pose proof (delete_Permutation _ _ _ Hi) as Hp. unfold active_and_ended in *.
  split; simpl.
  - unfold active_and_ended. simpl. rewrite (len_perm _ _ Hp), len_cons in Hc. destruct e; simpl; lia.
  - rewrite <- Hf. rewrite Hp at 2. simpl. by rewrite <- app_assoc.
Qed.

Lemma drop_session_ok fds fd e w : WorkerOk fds w -> WorkerOk fds (drop_session_by_fd fd e w).
Proof. intros Hw. unfold drop_session_by_fd. destruct (list_find _ _) as [[i s]|]; [by apply erase_session_ok|done]. Qed.

Lemma add_session_ok fds queue closed add w :
  WorkerOk fds w -> WorkerOk (fds ++ [ad_client_fd add]) (add_session queue closed add w).
Proof.
  intros [Hc Hf]. split; simpl.
  - unfold active_and_ended in *. simpl. rewrite len_app, len_cons, len_nil. lia.
  - by rewrite <- Hf, fmap_app, app_assoc.
Qed.

Lemma set_sessions_ok fds w l :
  WorkerOk fds w -> fw_fd <$> l = fw_fd <$> fk_sessions w -> WorkerOk fds {| w with fk_sessions := l |}.
Proof.
  intros [Hc Hf] Hl. split; simpl; [|by rewrite Hl]. unfold active_and_ended in *. simpl.
  assert (len l = len (fk_sessions w)) as ->; [|done]. unfold len. f_equal.
  rewrite <- (length_fmap fw_fd l), <- (length_fmap fw_fd (fk_sessions w)). by f_equal.
Qed.

Lemma advance_session_fd c s : fw_fd (advance_session c s) = fw_fd s.
Proof.
  assert (forall budget limit kind s, fw_fd (replay_loop budget limit kind s) = fw_fd s) as Hr.
  { induction budget as [|budget IH]; intros limit kind s0; simpl; [done|]. destruct (_ && _); [|done].
    destruct (rp_chunks _ !! _); [|done]. rewrite IH. by destruct kind. }
  assert (forall s, fw_fd (queue_eof s) = fw_fd s) as He by (intros s0; unfold queue_eof; by destruct (fw_eof_queued s0)).
  assert (forall budget limit s, fw_fd (live_loop budget limit s) = fw_fd s) as Hl.
  { induction budget as [|budget IH]; intros limit s0; simpl; [done|]. destruct (negb _); [done|].
    destruct (fw_queue s0) as [|chunk queue]; [by destruct (_ && _)|]. destruct (ch_kind chunk); [|by rewrite He].
    destruct (_ <? _); [by rewrite IH|]. destruct (_ <? _); [done|]. rewrite IH. by destruct (ch_stream chunk). }
  unfold advance_session. destruct (fw_closing s); [done|]. unfold advance_live, advance_replay.
  destruct (_ && _); [by rewrite He, !Hr|by rewrite Hl, !Hr].
Qed.

Lemma flush_loop_ok fds wrote count i w w' :
  WorkerOk fds w -> flush_loop wrote i count w = Some w' -> WorkerOk fds w'.
Proof.
  revert i w. induction count as [|count IH]; intros i w Hw; simpl; [by intros [= <-]|].
  destruct (fk_sessions w !! i) as [s|] eqn:Hi; [|done]. simpl. apply IH.
  destruct (0 <? _); [|done]. unfold flush_session. destruct (_ =? 0); [done|].
  destruct (negb _); [by apply drop_session_ok|].
  pose proof (set_sessions_ok fds w (<[i := {| s with fw_outgoing := []; fw_outgoing_sent := 0 |}]> (fk_sessions w)) Hw) as H1.
  destruct H1 as [H1 H2]; [|by split]. rewrite list_fmap_insert. simpl. apply list_insert_id.
  by rewrite list_lookup_fmap, Hi.
Qed.

Lemma collect_loop_ok fds i w : WorkerOk fds w -> WorkerOk fds (collect_loop i w).
Proof.
  revert w. induction i as [|i IH]; intros w Hw; simpl; [done|]. destruct (fk_sessions w !! i); [|done].
  apply IH. destruct (_ && _); [by apply erase_session_ok|done].
Qed.

Lemma cycle_ok fds adds hungup wrote w w' :
  WorkerOk fds w -> cycle_once adds hungup wrote w = Some w' ->
  WorkerOk (fds ++ ((fun a => ad_client_fd a.1.1) <$> adds)) w'.
Proof.
  intros Hw. unfold cycle_once. set (w1 := fold_left _ adds w). set (w2 := fold_left _ hungup w1).
  assert (WorkerOk (fds ++ ((fun a => ad_client_fd a.1.1) <$> adds)) w1) as H1.
  { unfold w1. clear w1 w2. revert fds w Hw. induction adds as [|a adds IH]; intros fds w Hw; simpl; [by rewrite app_nil_r|].
    rewrite cons_middle, app_assoc. apply IH. by apply add_session_ok. }
  assert (WorkerOk (fds ++ ((fun a => ad_client_fd a.1.1) <$> adds)) w2) as H2.
  { unfold w2. clear w2. revert H1. generalize w1. induction hungup as [|fd l IH]; intros w0 H0; simpl; [done|].
    by apply IH, drop_session_ok. }
  assert (WorkerOk (fds ++ ((fun a => ad_client_fd a.1.1) <$> adds))
    {| w2 with fk_sessions := advance_session (fk_config w2) <$> fk_sessions w2 |}) as H3.
  { apply set_sessions_ok; [done|]. rewrite <- list_fmap_compose. apply list_fmap_ext. intros ? s _. apply advance_session_fd. }
  unfold flush_sessions. destruct (flush_loop _ _ _ _) as [w4|] eqn:Hfl; [|done]. simpl. intros [= <-].
  apply collect_loop_ok. by eapply flush_loop_ok.
Qed.

(** The rounds of the worker *)
Fixpoint follow_rounds (rounds : list (list (AddCommand * list LogChunk * bool) * list Z * (Z -> bool))) (w : FollowWorker)
  : option FollowWorker :=
  match rounds with
  | [] => Some w
  | (adds, hungup, wrote) :: rounds => cycle_once adds hungup wrote w ≫= follow_rounds rounds
  end.

Lemma rounds_ok rounds fds w0 w :
  WorkerOk fds w0 -> follow_rounds rounds w0 = Some w ->
  WorkerOk (fds ++ (rounds ≫= fun r => (fun a => ad_client_fd a.1.1) <$> r.1.1)) w.
Proof.
  revert fds w0. induction rounds as [|[[adds hungup] wrote] rounds IH]; intros fds w0 H0 Hrun; cbn [follow_rounds mbind list_bind] in *.
  { injection Hrun as <-. by rewrite app_nil_r. }
  destruct (cycle_once adds hungup wrote w0) as [w1|] eqn:Hc; [|done]. cbn [option_bind mbind] in Hrun. rewrite app_assoc.
  apply (IH _ w1); [by eapply cycle_ok|done].
Qed.

(** Sessions are accounted for: over any rounds of the worker that stay
    defined, every connection handed over is closed exactly once or still
    served; the sessions started are those completed, disconnected or ended by
    backpressure, and those active; and after shutdown, which also closes the
    connections still waiting for admission, none is left open. *)
Theorem follow_accounts c rounds w queued :
  follow_rounds rounds (mkFollowWorker c [] [] (mkFollowStats 0 0 0 0 0)) = Some w ->
  let handed := rounds ≫= fun r => (fun a => ad_client_fd a.1.1) <$> r.1.1 in
  ft_sessions_started (fk_statistics w) = active_and_ended w /\
  fk_closed w ++ (fw_fd <$> fk_sessions w) ≡ₚ handed /\
  (Forall (fun a => 0 <= ad_client_fd a)%Z queued ->
   fk_closed (shutdown_sessions queued w) ≡ₚ handed ++ (ad_client_fd <$> queued)).
Proof.
  intros Hrun handed. assert (WorkerOk handed w) as [H1 H2].
  { change handed with ([] ++ handed). eapply rounds_ok; [|exact Hrun]. by split. }
  split_and!; [done|done|]. intros Hq. simpl.
  assert (filter (fun fd => (0 <= fd)%Z) (ad_client_fd <$> queued) = ad_client_fd <$> queued) as ->.
  { induction Hq as [|a l Ha _ IH]; [done|]. rewrite fmap_cons, filter_cons_True by done. by f_equal. }
  rewrite <- H2, <- !app_assoc. by rewrite (Permutation_app_comm (ad_client_fd <$> queued)).
Qed.

(** ** Examples and witnesses *)

Definition example_follow_config : LogFollowServiceConfig := mkFollowConfig 2000 (2 * 2 ^ 20) 32.

Definition data_chunk (b : N) (data : string) : LogChunk :=
  mkChunk LC_kData LS_kStdout b (b + slen data) data 0 None.

Definition eof_chunk : LogChunk := mkChunk LC_kEof LS_kStdout 0 0 "" 4 None.

(** A follower that starts at offset 10, without a replay *)
Definition example_add (replayed : list LogChunk) : AddCommand :=
  mkAdd 5 (mkToken 7 0 (mkReplay 10 0 replayed) (mkReplay 0 0 [])) [] false 0 None.

(** The subscription dropped the chunk at 13 and then got the end of the output:
    the client sees a regular end and no report. *)
Example eof_hides_loss :
  let f := follow_cycle example_follow_config (new_follower (example_add [])) (mkCycle [data_chunk 10 "abc"; eof_chunk] false None) in
  fo_received f = frames_bytes [chunk_frame (data_chunk 10 "abc"); mkStreamFrame SK_kLogEof 0 0 0 [] 4 None] /\
  fw_backpressure (fo_session f) = false.
Proof. vm_compute. done. Qed.

(** The job had finished and its replay has more chunks than one cycle sends: the
    session is closed without the rest and without the end of the output. *)
Example finished_replay_truncated :
  let add := example_add ((fun i => data_chunk (10 + N.of_nat i) "x") <$> seq 0 20) in
  let s := advance_session example_follow_config (new_session {| add with ad_job_finished := true |} [] true) in
  fw_closing s = true /\ fw_eof_queued s = false /\ fs_replay_index (fw_stdout s) = 16.
Proof. vm_compute. done. Qed.



Lemma reconnect_cut_off_witness :
  let s := new_session (example_add [data_chunk 10 "abc"]) [data_chunk 13 "de"] false in
  let s' := advance_session example_follow_config s in fw_backpressure s' = true /\ fw_closing s' = true.
Proof.
  apply (reconnect_cut_off example_follow_config (new_session (example_add [data_chunk 10 "abc"]) [data_chunk 13 "de"] false)
    LS_kStdout (data_chunk 13 "de") []); vm_compute; reflexivity.
Defined.

Definition example_rounds : list (list (AddCommand * list LogChunk * bool) * list Z * (Z -> bool)) :=
  [([(example_add [], [data_chunk 10 "abc"; eof_chunk], true)], [], fun _ => true)].

Definition example_follow_end : FollowWorker :=
  mkFollowWorker example_follow_config [] [5%Z] (mkFollowStats 1 1 0 0 1).

Lemma follow_accounts_witness :
  ft_sessions_started (fk_statistics example_follow_end) = active_and_ended example_follow_end /\
  fk_closed example_follow_end ++ (fw_fd <$> fk_sessions example_follow_end) ≡ₚ [5%Z] /\
  (Forall (fun a => 0 <= ad_client_fd a)%Z [] -> fk_closed (shutdown_sessions [] example_follow_end) ≡ₚ [5%Z] ++ []).
Proof.
  apply (follow_accounts example_follow_config example_rounds example_follow_end []). vm_compute. reflexivity.
Defined.

(** Two followers, and the write to the first one fails *)
Example slow_follower_undefined :
  cycle_once [(example_add [], [data_chunk 10 "abc"], false); ({| (example_add []) with ad_client_fd := 6%Z |}, [], false)] []
    (fun fd => negb (fd =? 5)%Z) (mkFollowWorker example_follow_config [] [] (mkFollowStats 0 0 0 0 0)) = None.
Proof. vm_compute. reflexivity. Qed.

(** The owner of the started job 3 follows it. *)
Definition example_follow_store : InMemoryStateStore :=
  let x := empty_execution in
  mkInMemory example_config
    (mkState 1 {[ 3 := mkStored 3 example_spec kRunning 2 {| x with xr_log_path := Some "/var/log/3" |} ]} ∅) None None.

Definition example_follow_request : IpcRequest :=
  let r := blank_request RK_kLogsFollow kProtocolVersion in {| r with rq_logs_follow := mkIpcFollow 3 None None |}.

Definition example_follow_streamer : Streamer := (register_job 3 (new_streamer example_streamer_config)).2.

Lemma begin_stream_exact_witness :
  let '(outcome, add, m') := begin_stream true true default_service_config (mkPeer (owner_uid example_spec) 0 1)
    example_follow_request 5 example_follow_store example_follow_streamer in
  stream_taken_over outcome = true /\
  exists t finished state exit, subscribe 3 None None example_follow_streamer
    = (mkSubscribe LX_kSubscribed "" (Some t) finished state exit, m').
Proof.
  destruct (begin_stream true true default_service_config (mkPeer (owner_uid example_spec) 0 1)
    example_follow_request 5 example_follow_store example_follow_streamer) as [[outcome add] m'] eqn:E.
  assert (stream_taken_over outcome = true) as Ht.
  { assert (stream_taken_over (begin_stream true true default_service_config (mkPeer (owner_uid example_spec) 0 1)
      example_follow_request 5 example_follow_store example_follow_streamer).1.1 = true) as H by (vm_compute; reflexivity).
    rewrite E in H. exact H. }
  pose proof (begin_stream_exact true true default_service_config (mkPeer (owner_uid example_spec) 0 1)
    example_follow_request 5 example_follow_store example_follow_streamer outcome add m' E) as H.
  cbn zeta in H. rewrite Ht in H. destruct H as (_ & _ & _ & t & payload & finished & state & exit & Hs & _).
  split; [exact Ht|]. exists t, finished, state, exit. exact Hs.
Defined.
