(* ===== verification/JobManager.v ===== *)
(** * The job manager: [src/runtime/job_manager.cpp],
    [src/runtime/job_manager.hpp]

    The daemon's single writer.  One worker runs every change of the store and
    the queue: submissions, cancellations, scheduling and the launch of what was
    scheduled, process exits, log completions, and the adoption of processes
    found by recovery.  Each operation is a function of the manager's state and
    of the answers of the parts it calls (executor admission, clock, identity
    resolver, launch adapter, log sink, process supervisor, exit monitor, log
    pump), which are arguments. *)

From stdpp Require Import pretty.
From S2P Require Import Prelude.
From S2P Require Import Job.
From S2P Require Import Gpu.
From S2P Require Import Store.
From S2P Require Import Queue.
From S2P Require Import Scheduler.
From S2P Require Import Recovery.
From S2P Require Import Wire.
From S2P Require Import Request.
From S2P Require Import Response.
From S2P Require Import Service.
From S2P Require Import Supervisor.
From S2P Require Import Launch.
From S2P Require Import Directories.
From S2P Require Import ExitMonitor.

(** ** Data *)

(** [JobManagerConfig] (periods in milliseconds; the environment snapshot and
    the log back end are passed on to other parts) *)
Record JobManagerConfig := mkManagerConfig {
  jc_cancel_grace : Z;
  jc_log_root : string;
  jc_command_capacity : N;
  jc_ack_timeout : Z;
  jc_scheduler_scan_window : N;
}.

(** [LogSinkLimits::kMaxDirectoryBytes] *)
Definition kMaxDirectoryBytes : N := 4096.

(** [JobManagerConfig::valid]; [Err] is the message. *)
Definition manager_config_valid (c : JobManagerConfig) : Result string unit :=
  reject_if sempty (jc_log_root c) || negb (front_is "/"%char (jc_log_root c))
    with "log root must be an absolute path";
  reject_if kMaxDirectoryBytes <? slen (jc_log_root c) with "log root too long";
  reject_if negb (policy_valid (jc_cancel_grace c)) with "cancel grace out of range";
  reject_if jc_command_capacity c =? 0 with "command capacity must be positive";
  reject_if (jc_ack_timeout c <=? 0)%Z with "ack timeout must be positive";
  reject_if negb (scan_window_valid (jc_scheduler_scan_window c))
    with "scheduler scan window must be within [1, 4096]";
  Ok tt.

(** [SupervisedJob]: its supervisor object, its grace timer object (with the
    timer's [armed] flag), and the flags. *)
Record SupervisedJob := mkSupervised {
  sv_id : JobId;
  sv_leased_gpu : GpuUuid;
  sv_supervisor : option Supervisor;
  sv_grace : option bool;
  sv_cancelling : bool;
  sv_adopted : bool;
  sv_exited : bool;
  sv_pump_done : bool;
  sv_terminal_state : N;
  sv_terminal_exit : option IpcExitStatus;
}.

(** [AtomicStats] *)
Record Stats := mkStats {
  stat_commands_processed : N;
  stat_jobs_submitted : N;
  stat_jobs_launched : N;
  stat_launch_failures : N;
  stat_jobs_finished : N;
  stat_jobs_failed : N;
  stat_jobs_cancelled : N;
  stat_jobs_adopted : N;
  stat_recancels_armed : N;
  stat_scheduler_runs : N;
  stat_scheduler_scheduled : N;
  stat_scheduler_failed : N;
  stat_affinity_avoids : N;
  stat_affinity_fallbacks : N;
  stat_store_write_failures : N;
  stat_active_supervised : N;
}.

Definition zero_stats : Stats := mkStats 0 0 0 0 0 0 0 0 0 0 0 0 0 0 0 0.

(** Calls that leave the manager: the log streamer's registry, the cancellation
    timer, the exit monitor, and the signals supervisors send. *)
Inductive Output :=
| OutRegister (id : JobId)
| OutUnregister (id : JobId)
| OutFinish (id : JobId) (state : N) (exit : option IpcExitStatus)
| OutSpawn (plan : LaunchPlan)
| OutArmGrace (id : JobId)
| OutDisarmGrace (id : JobId)
| OutSignal (call : KillCall)
| OutMonitor (pid : Z)
| OutUnmonitor (pid : Z).

(** [ManagerWorker]: the store and queue it writes, and its private state. *)
Record Manager (S : Type) := mkManager {
  mg_store : S;
  mg_queue : GlobalJobQueue;
  mg_supervised : gmap N SupervisedJob;
  mg_by_pid : gmap Z N;
  mg_stats : Stats;
  mg_evaluation : option ScheduleEvaluation;
  mg_wakes : list SchedulerTrigger;
  mg_out : list Output;
}.
Arguments mkManager {S}.
Arguments mg_store {S}.
Arguments mg_queue {S}.
Arguments mg_supervised {S}.
Arguments mg_by_pid {S}.
Arguments mg_stats {S}.
Arguments mg_evaluation {S}.
Arguments mg_wakes {S}.
Arguments mg_out {S}.

(** [profile_from_spec] *)
Definition profile_from_spec (spec : JobSpec) : LaunchProfile :=
  match launch_profile spec with
  | Some argument =>
      if sempty argument then mkProfile GM_kCudaVisibleDevices ""
      else mkProfile GM_kPhysicalArgument argument
  | None => mkProfile GM_kCudaVisibleDevices ""
  end.

(** What the parts around one launch answer.  [Err] carries the message the
    part reports. *)
Record LaunchAnswers := mkLaunchAnswers {
  la_gpus : option GpuObservationSnapshot;
  la_identity : N -> Result (IdentityResolveErrorCode * string) IdentityInfo;
  la_adapter : LaunchAdapter;
  la_strerror : Z -> string;
  la_euid : N;
  la_mkdir : string -> option Z;
  la_lstat : string -> Result Z FileStatus;
  la_sink : string -> Result string unit;
  la_register : Result string unit;
  la_spawn : Result (SpawnErrorCode * string) ProcessIdentity;
  la_monitor : bool;
  la_attach : bool;
  la_running_admits : nat -> bool;
  la_failed_admits : nat -> bool;
  la_started_at : Z;
  la_failed_at : Z;
}.

Section manager.
Context {S : Type} `{StateStore S}.
Implicit Types m : Manager S.

(** ** Small steps *)

Definition emit (o : Output) m : Manager S := {| m with mg_out := mg_out m ++ [o] |}.

Definition emit_signals (calls : list KillCall) m : Manager S :=
  {| m with mg_out := mg_out m ++ (OutSignal <$> calls) |}.

Definition bump (f : Stats -> Stats) m : Manager S := {| m with mg_stats := f (mg_stats m) |}.

Definition inc_commands (s : Stats) : Stats :=
  {| s with stat_commands_processed := stat_commands_processed s + 1 |}.
Definition inc_submitted (s : Stats) : Stats :=
  {| s with stat_jobs_submitted := stat_jobs_submitted s + 1 |}.
Definition inc_launched (s : Stats) : Stats :=
  {| s with stat_jobs_launched := stat_jobs_launched s + 1 |}.
Definition inc_launch_failures (s : Stats) : Stats :=
  {| s with stat_launch_failures := stat_launch_failures s + 1 |}.
Definition inc_finished (s : Stats) : Stats :=
  {| s with stat_jobs_finished := stat_jobs_finished s + 1 |}.
Definition inc_failed (s : Stats) : Stats := {| s with stat_jobs_failed := stat_jobs_failed s + 1 |}.
Definition inc_cancelled (s : Stats) : Stats :=
  {| s with stat_jobs_cancelled := stat_jobs_cancelled s + 1 |}.
Definition inc_adopted (s : Stats) : Stats :=
  {| s with stat_jobs_adopted := stat_jobs_adopted s + 1 |}.
Definition inc_recancels (s : Stats) : Stats :=
  {| s with stat_recancels_armed := stat_recancels_armed s + 1 |}.
Definition inc_runs (s : Stats) : Stats :=
  {| s with stat_scheduler_runs := stat_scheduler_runs s + 1 |}.
Definition inc_scheduled (s : Stats) : Stats :=
  {| s with stat_scheduler_scheduled := stat_scheduler_scheduled s + 1 |}.
Definition inc_scheduler_failed (s : Stats) : Stats :=
  {| s with stat_scheduler_failed := stat_scheduler_failed s + 1 |}.
Definition inc_avoids (s : Stats) : Stats :=
  {| s with stat_affinity_avoids := stat_affinity_avoids s + 1 |}.
Definition inc_fallbacks (s : Stats) : Stats :=
  {| s with stat_affinity_fallbacks := stat_affinity_fallbacks s + 1 |}.
Definition inc_write_failures (s : Stats) : Stats :=
  {| s with stat_store_write_failures := stat_store_write_failures s + 1 |}.
Definition inc_active (s : Stats) : Stats :=
  {| s with stat_active_supervised := uadd64 (stat_active_supervised s) 1 |}.
Definition dec_active (s : Stats) : Stats :=
  {| s with stat_active_supervised := usub64 (stat_active_supervised s) 1 |}.

(** [find_stored] *)
Definition find_stored (snapshot : StateSnapshot) (job_id : N) : option StoredJob :=
  find_first (fun r => sj_id r =? job_id) (ss_jobs snapshot).

(** [run_write]: the mutation runs on the executor, or is refused by it. *)
Definition run_write (admitted : bool) (mutation : StateMutation) m
  : StateStoreWriteResult * Manager S :=
  if negb admitted then (mkWrite SE_kBackendUnavailable 0, bump inc_write_failures m)
  else
    let '(written, s) := store_apply mutation (mg_store m) in
    (written, {| m with mg_store := s |}).

(** What a [Compose] argument does: the updated record, and the lease it adds to
    the mutation's [release_leases]. *)
Definition Compose : Type := StoredJob -> StoredJob * option GpuUuid.

(** One attempt of [rewrite_job]; [attempts] more may follow a conflict. *)
Fixpoint rewrite_attempts (attempts : nat) (admits : nat -> bool) (job_id : N) (compose : Compose) m
  : StateStoreWriteResult * Manager S :=
  match attempts with
  | O => (mkWrite SE_kRevisionConflict 0, m)
  | Datatypes.S attempts =>
      let load := store_load (mg_store m) in
      if negb (load_ok load) then (mkWrite (lr_code load) 0, m)
      else
        match find_stored (lr_snapshot load) job_id with
        | None => (mkWrite SE_kJobNotFound 0, m)
        | Some record =>
            let '(updated, release) := compose record in
            let mutation :=
              mkMutation (ss_revision (lr_snapshot load)) [] [updated] [] (option_list release) in
            let '(write, m') := run_write (admits attempts) mutation m in
            if write_ok write || negb (bool_decide (wr_code write = SE_kRevisionConflict))
            then (write, m')
            else rewrite_attempts attempts admits job_id compose m'
        end
  end.

Definition rewrite_job (admits : nat -> bool) (job_id : N) (compose : Compose) m
  : StateStoreWriteResult * Manager S :=
  rewrite_attempts 3 admits job_id compose m.

(** ** Submission and cancellation *)

(** The next job id: one above the largest stored one ([std::uint64_t]). *)
Definition next_job_id (snapshot : StateSnapshot) : N :=
  uadd64 (fold_left (fun max_id r => N.max max_id (sj_id r)) (ss_jobs snapshot) 0) 1.

Definition submit_failed (code : StateStoreErrorCode) : JobSubmitOutcome :=
  mkSubmitOutcome SO_kStoreFailed 0 (StateStoreErrorCode_to_string code).

(** [process_submit]; [create] and [rollback] say whether the executor admits
    the two writes. *)
Definition process_submit (create_admitted rollback_admitted : bool) (spec : JobSpec) m
  : JobSubmitOutcome * Manager S :=
  let load := store_load (mg_store m) in
  if negb (load_ok load) then (submit_failed (lr_code load), m)
  else
    let record := mkStored (next_job_id (lr_snapshot load)) spec kQueued 0 empty_execution in
    let mutation := mkMutation (ss_revision (lr_snapshot load)) [record] [] [] [] in
    let '(write, m1) := run_write create_admitted mutation m in
    if negb (write_ok write) then (submit_failed (wr_code write), m1)
    else
      let '(admission, q) := queue_admit record (mg_queue m1) in
      let m2 := {| m1 with mg_queue := q |} in
      if negb (queue_ok admission) then
        let cancelled := {| record with sj_state := kCancelled; sj_revision := 1 |} in
        let rollback := mkMutation (wr_revision write) [] [cancelled] [] [] in
        let '(rollback_write, m3) := run_write rollback_admitted rollback m2 in
        let detail := QueueErrorCode_to_string (qr_code admission) in
        let detail :=
          if write_ok rollback_write then detail
          else detail +:+ "; rollback failed: " +:+ StateStoreErrorCode_to_string (wr_code rollback_write) in
        (mkSubmitOutcome SO_kQueueRejected 0 detail, m3)
      else (mkSubmitOutcome SO_kSubmitted (sj_id record) "", bump inc_submitted m2).

(** The [Compose] of a bare state change *)
Definition compose_state (state : JobState) : Compose :=
  fun current => ({| current with sj_state := state; sj_revision := sj_revision current + 1 |}, None).

(** What the outside answers one cancellation: the steady clock, [kill], and
    whether the executor takes the grace timer. *)
Record CancelAnswers := mkCancelAnswers {
  ca_now : Z;
  ca_kill : Z -> option Z;
  ca_timer : bool;
}.

(** [begin_cancellation] *)
Definition begin_cancellation (c : CancelAnswers) (job_id : N) (from_recovery : bool) m : Manager S :=
  match mg_supervised m !! job_id with
  | None => m
  | Some job =>
      match sv_supervisor job with
      | None => m
      | Some supervisor =>
          let '(outcome, calls, supervisor) := request_cancel (ca_now c) (ca_kill c) supervisor in
          let m1 := emit_signals calls m in
          let job := {| job with sv_supervisor := Some supervisor |} in
          if bool_decide (outcome = CX_kNotRunning) || bool_decide (outcome = CX_kAlreadyExited) then
            {| m1 with mg_supervised := <[job_id := job]> (mg_supervised m1) |}
          else
            let armed := default false (sv_grace job) in
            let '(code, armed) :=
              if negb (sv_cancelling job) || from_recovery then grace_arm (ca_timer c) supervisor armed
              else (GA_kAlreadyArmed, armed) in
            let job := {| job with sv_grace := Some armed; sv_cancelling := true |} in
            let m2 := {| m1 with mg_supervised := <[job_id := job]> (mg_supervised m1) |} in
            match code with GA_kArmed => emit (OutArmGrace job_id) m2 | _ => m2 end
      end
  end.

(** The grace timer of a job fires: the supervisor escalates. *)
Definition grace_fire (now : Z) (kill : Z -> option Z) (job_id : N) m : Manager S :=
  match mg_supervised m !! job_id with
  | Some job =>
      match sv_supervisor job, sv_grace job with
      | Some supervisor, Some true => emit_signals (escalate now kill supervisor).2 m
      | _, _ => m
      end
  | None => m
  end.

Definition cancel_failed (code : StateStoreErrorCode) : JobCancelOutcome :=
  mkCancelOutcome CO_kStoreFailed 0 (StateStoreErrorCode_to_string code).

Definition cancel_stopping : JobCancelOutcome := mkCancelOutcome CO_kStopping (job_state_wire kStopping) "".

(** [process_cancel] *)
Definition process_cancel (admits : nat -> bool) (c : CancelAnswers) (job_id : N) m
  : JobCancelOutcome * Manager S :=
  let load := store_load (mg_store m) in
  if negb (load_ok load) then (cancel_failed (lr_code load), m)
  else
    match find_stored (lr_snapshot load) job_id with
    | None => (mkCancelOutcome CO_kNotFound 0 "job not found", m)
    | Some record =>
        match sj_state record with
        | kQueued =>
            let '(write, m1) := rewrite_job admits job_id (compose_state kCancelled) m in
            if negb (write_ok write) then (cancel_failed (wr_code write), m1)
            else
              let '(removal, q) := queue_remove job_id (mg_queue m1) in
              let detail :=
                if negb (queue_ok removal) && negb (bool_decide (qr_code removal = QE_kJobNotFound))
                then "cancelled but queue removal failed: " +:+ QueueErrorCode_to_string (qr_code removal)
                else "" in
              (mkCancelOutcome CO_kCancelled (job_state_wire kCancelled) detail,
               bump inc_cancelled {| m1 with mg_queue := q |})
        | kStarting | kRunning =>
            let '(write, m1) := rewrite_job admits job_id (compose_state kStopping) m in
            if negb (write_ok write) then (cancel_failed (wr_code write), m1)
            else (cancel_stopping, begin_cancellation c job_id false m1)
        | kStopping => (cancel_stopping, begin_cancellation c job_id false m)
        | kCancelled => (mkCancelOutcome CO_kCancelled (job_state_wire kCancelled) "", m)
        | state => (mkCancelOutcome CO_kInvalidState (job_state_wire state) (JobState_to_string state), m)
        end
    end.

(** ** Launch *)

(** The [Compose] of [fail_launch] *)
Definition compose_failed (now : Z) (reason : string) (uuid : GpuUuid) : Compose :=
  fun current =>
    if is_terminal (sj_state current) then (current, None)
    else
      let x := sj_execution current in
      ({| current with sj_state := kFailed; sj_revision := sj_revision current + 1;
          sj_execution := {| x with xr_failure_reason := Some (String.substring 0 (N.to_nat kMaxFailureReasonBytes) reason);
                                    xr_end_time := Some now |} |},
       Some uuid).

(** [fail_launch] *)
Definition fail_launch (admits : nat -> bool) (now : Z) (job_id : N) (uuid : GpuUuid) (reason : string) m
  : Manager S :=
  let m1 := bump inc_launch_failures m in
  let '(write, m2) := rewrite_job admits job_id (compose_failed now reason uuid) m1 in
  let m3 := if negb (write_ok write) then bump inc_write_failures m2 else m2 in
  let m4 := emit (OutFinish job_id (job_state_wire kFailed) None) m3 in
  bump inc_failed m4.

(** The physical index of the leased device in the current observation *)
Definition physical_index (gpus : option GpuObservationSnapshot) (uuid : GpuUuid) : N :=
  match gpus with
  | None => 0
  | Some snapshot =>
      match find_first (fun d => bool_decide (go_uuid d = uuid)) (gs_devices snapshot) with
      | Some device => go_index device
      | None => 0
      end
  end.

(** The [Compose] of a successful spawn *)
Definition compose_running (now : Z) (identity : ProcessIdentity) (directory : string) : Compose :=
  fun current =>
    let x := sj_execution current in
    ({| current with sj_state := kRunning; sj_revision := sj_revision current + 1;
        sj_execution := {| x with xr_identity := identity; xr_start_time := Some now;
                                  xr_log_path := Some directory |} |}, None).

(** The checks before the process is spawned, in order: the plan and the job's
    directory; [Err] is the reason [fail_launch] records. *)
Definition prepare_launch (a : LaunchAnswers) (log_root : string) (job_id : N) (uuid : GpuUuid)
    (spec : JobSpec) : Result string (LaunchPlan * string) :=
  let? identity := match la_identity a (owner_uid spec) with
                   | Ok identity => Ok identity
                   | Err (_, message) => Err ("identity resolve failed: " +:+ message)
                   end in
  let profile := profile_from_spec spec in
  let? _ := match validate_profile profile with
            | LE_kNone => Ok tt
            | code => Err ("invalid launch profile: " +:+ LaunchProfileErrorCode_to_string code)
            end in
  let? plan := match prepare (la_adapter a) job_id spec
                       (mkAssignment uuid (physical_index (la_gpus a) uuid) 0) profile identity with
               | Ok plan => Ok plan
               | Err e => Err ("launch plan rejected: " +:+ pe_message e)
               end in
  let? directory := ensure_job_directory (la_strerror a) (la_euid a) (la_mkdir a) (la_lstat a) log_root job_id in
  let? _ := match la_sink a directory with
            | Ok _ => Ok tt
            | Err message => Err ("log sink open failed: " +:+ message)
            end in
  let? _ := match la_register a with
            | Ok _ => Ok tt
            | Err message => Err ("log streamer register failed: " +:+ message)
            end in
  Ok (plan, directory).

(** What [spawn] says of a plan that [validate] refuses *)
Definition plan_message (plan : LaunchPlan) : option string :=
  match pv_code (validate_plan plan) with
  | PE_kNone => None
  | code => Some (LaunchPlanErrorCode_to_string code)
  end.

Definition spawn_failed_reason (e : SpawnErrorCode * string) : string :=
  "spawn failed: " +:+ SpawnErrorCode_to_string e.1 +:+ (if sempty e.2 then "" else ": " +:+ e.2).

(** The part of [launch_scheduled] after the process was spawned *)
Definition launch_spawned (a : LaunchAnswers) (job_id : N) (uuid : GpuUuid) (directory : string)
    (identity : ProcessIdentity) (supervisor : Supervisor) m : Manager S :=
  let fail reason m := fail_launch (la_failed_admits a) (la_failed_at a) job_id uuid reason m in
  let '(write, m1) :=
    rewrite_job (la_running_admits a) job_id (compose_running (la_started_at a) identity directory) m in
  if negb (write_ok write) then
    fail ("running state persist failed: " +:+ StateStoreErrorCode_to_string (wr_code write))
      (emit_signals (destroy supervisor) (emit (OutUnregister job_id) m1))
  else if negb (la_monitor a) then
    fail "exit monitor registration failed"
      (emit_signals (destroy supervisor) (emit (OutUnregister job_id) m1))
  else
    let m2 := emit (OutMonitor (pi_pid identity)) m1 in
    if negb (la_attach a) then
      fail "log pump attach failed"
        (emit_signals (destroy supervisor)
          (emit (OutUnmonitor (pi_pid identity)) (emit (OutUnregister job_id) m2)))
    else
      let job := mkSupervised job_id uuid (Some supervisor) None false false false false 0 None in
      bump inc_active (bump inc_launched
        {| m2 with mg_supervised := <[job_id := job]> (mg_supervised m2);
                   mg_by_pid := <[pi_pid identity := job_id]> (mg_by_pid m2) |}).

(** [launch_scheduled] *)
Definition launch_scheduled (config : JobManagerConfig) (a : LaunchAnswers) (job_id : N) (uuid : GpuUuid) m
  : Manager S :=
  let load := store_load (mg_store m) in
  if negb (load_ok load) then bump inc_launch_failures m
  else
    match find_stored (lr_snapshot load) job_id with
    | None => bump inc_launch_failures m
    | Some record =>
        if negb (bool_decide (sj_state record = kStarting)) then bump inc_launch_failures m
        else
          let fail reason m := fail_launch (la_failed_admits a) (la_failed_at a) job_id uuid reason m in
          match prepare_launch a (jc_log_root config) job_id uuid (sj_spec record) with
          | Err reason => fail reason m
          | Ok (plan, directory) =>
              let m1 := emit (OutRegister job_id) m in
              let '(spawned, supervisor) :=
                spawn (plan_message plan) (la_spawn a) (new_supervisor (jc_cancel_grace config)) in
              match spawned with
              | Err e => fail (spawn_failed_reason e) (emit (OutUnregister job_id) m1)
              | Ok identity =>
                  launch_spawned a job_id uuid directory identity supervisor (emit (OutSpawn plan) m1)
              end
          end
    end.

(** ** Scheduling *)

(** What the parts around one scheduling round answer: the startup gate, the
    GPU manager's snapshot, the executor (admission of the task, and its
    completion: [None] when the task did not run or threw). *)
Record ScheduleAnswers := mkScheduleAnswers {
  sa_open : bool;
  sa_gpus : option GpuObservationSnapshot;
  sa_admitted : bool;
  sa_completed : bool;
}.

(** [schedule_now] *)
Definition schedule_now (config : JobManagerConfig) (sa : ScheduleAnswers)
    (a : LaunchAnswers) (trigger : SchedulerTrigger) m : Manager S :=
  if negb (sa_open sa) then m
  else
    match sa_gpus sa with
    | None => bump inc_scheduler_failed m
    | Some snapshot =>
        if negb (sa_admitted sa) then bump inc_scheduler_failed m
        else if negb (sa_completed sa) then bump inc_scheduler_failed (bump inc_runs m)
        else
          let '(result, q, s) := run_once (jc_scheduler_scan_window config) trigger snapshot (mg_queue m) (mg_store m) in
          let m1 := {| m with mg_queue := q; mg_store := s |} in
          let m2 := bump inc_runs m1 in
          match result with
          | None => bump inc_scheduler_failed m2
          | Some result =>
              let m3 :=
                if schedule_scheduled result || bool_decide (sr_code result = SR_kNoCandidate)
                then {| m2 with mg_evaluation := Some (sr_evaluation result) |} else m2 in
              match schedule_scheduled result, se_job_id (sr_event result), se_gpu_uuid (sr_event result) with
              | true, Some id, Some uuid =>
                  let m4 := bump inc_scheduled m3 in
                  let m5 :=
                    match se_selection_reason (sr_event result) with
                    | GS_kAvoidRequiredAffinity => bump inc_avoids m4
                    | GS_kAffinityFallback => bump inc_fallbacks m4
                    | _ => m4
                    end in
                  launch_scheduled config a id uuid m5
              | _, _, _ => if schedule_failed result then bump inc_scheduler_failed m3 else m3
              end
          end
    end.

(** ** Exits and log completion *)

(** [disarm] of a job's grace timer, if it has one *)
Definition disarm_grace (job_id : N) (job : SupervisedJob) m : SupervisedJob * Manager S :=
  match sv_grace job with
  | None => (job, m)
  | Some armed =>
      ({| job with sv_grace := Some false |}, if armed : bool then emit (OutDisarmGrace job_id) m else m)
  end.

(** Erasing an entry destroys its grace timer, then its supervisor. *)
Definition drop_supervised (job_id : N) (job : SupervisedJob) m : Manager S :=
  let m1 := {| m with mg_supervised := delete job_id (mg_supervised m) |} in
  let '(job, m2) := disarm_grace job_id job m1 in
  let m3 := match sv_supervisor job with
            | Some supervisor => emit_signals (destroy supervisor) m2
            | None => m2
            end in
  bump dec_active m3.

(** The terminal state and failure reason of an exit *)
Definition exit_verdict (cancelling : bool) (event : ExitEvent) : JobState * option string :=
  if cancelling then (kCancelled, None)
  else if negb (xe_identity_verified event) then
    (kFailed, Some "exit status unavailable (identity verification failed or adopted process)")
  else if exit_is_success (xe_status event) then (kFinished, None)
  else
    (kFailed, Some (if exit_exited (xe_status event)
                    then "exited with code " +:+ pretty (ex_exit_code (xe_status event))
                    else "terminated by signal " +:+ pretty (ex_signal_number (xe_status event)))).

(** The [Compose] of [process_exit] *)
Definition compose_exit (now : Z) (terminal : JobState) (reason : option string) (event : ExitEvent)
    (uuid : GpuUuid) : Compose :=
  fun current =>
    if is_terminal (sj_state current) then (current, None)
    else
      let x := sj_execution current in
      ({| current with sj_state := terminal; sj_revision := sj_revision current + 1;
          sj_execution :=
            {| x with xr_exit := if xe_identity_verified event then Some (xe_status event) else xr_exit x;
                      xr_end_time := Some now; xr_failure_reason := reason |} |},
       Some uuid).

(** The entry marked as exited *)
Definition exited_job (state : N) (exit : option IpcExitStatus) (job : SupervisedJob) : SupervisedJob :=
  {| job with sv_exited := true; sv_terminal_state := state; sv_terminal_exit := exit |}.

(** The last part of [process_exit]: the end of the log is published when the
    pump is done (or there is none), else when it will be. *)
Definition settle_exit (job_id : N) (job : SupervisedJob) (state : N) (exit : option IpcExitStatus) m
  : Manager S :=
  if sv_adopted job || sv_pump_done job then
    drop_supervised job_id job (emit (OutFinish job_id state exit) m)
  else {| m with mg_supervised := <[job_id := exited_job state exit job]> (mg_supervised m) |}.

(** [process_exit]; the wake it posts is part of the state. *)
Definition process_exit (admits : nat -> bool) (now : Z) (event : ExitEvent) m : Manager S :=
  match mg_by_pid m !! xe_pid event with
  | None => m
  | Some job_id =>
      match mg_supervised m !! job_id with
      | None => {| m with mg_by_pid := delete (xe_pid event) (mg_by_pid m) |}
      | Some job =>
          let '(job, m1) := disarm_grace job_id job m in
          let '(terminal, reason) := exit_verdict (sv_cancelling job) event in
          let '(write, m2) :=
            rewrite_job admits job_id (compose_exit now terminal reason event (sv_leased_gpu job)) m1 in
          let m3 :=
            bump (if negb (write_ok write) then inc_write_failures
                  else match terminal with
                       | kFinished => inc_finished
                       | kCancelled => inc_cancelled
                       | _ => inc_failed
                       end) m2 in
          let exit_info := if xe_identity_verified event then Some (exit_wire (xe_status event)) else None in
          let m4 := settle_exit job_id job (job_state_wire terminal) exit_info m3 in
          {| m4 with mg_by_pid := delete (xe_pid event) (mg_by_pid m4);
                     mg_wakes := mg_wakes m4 ++ [ST_kJobExited] |}
      end
  end.

(** One event of [drain_pump_done] *)
Definition process_pump_done (job_id : N) m : Manager S :=
  match mg_supervised m !! job_id with
  | None => m
  | Some job =>
      let job' := {| job with sv_pump_done := true |} in
      let m1 := {| m with mg_supervised := <[job_id := job']> (mg_supervised m) |} in
      if sv_exited job then
        drop_supervised job_id job'
          (emit (OutFinish job_id (sv_terminal_state job) (sv_terminal_exit job)) m1)
      else m1
  end.

(** ** Stopping *)

(** [abandon_supervised] for one job *)
Definition abandon_job (job : SupervisedJob) : SupervisedJob :=
  {| job with sv_supervisor := None; sv_grace := None |}.

Definition abandons (job : SupervisedJob) : bool :=
  match sv_supervisor job with
  | Some supervisor => match (abandon supervisor).1 with AB_kAbandoned => true | AB_kNotRunning => false end
  | None => false
  end.

(** [abandon_supervised]: timers are disarmed, processes forgotten. *)
Definition abandon_supervised m : N * Manager S :=
  let entries := map_entries (mg_supervised m) in
  let abandoned := len (filter (fun e => abandons e.2 = true) entries) in
  let m1 := fold_left (fun m e => (disarm_grace e.1 e.2 m).2) entries m in
  let m2 := {| m1 with mg_supervised := abandon_job <$> mg_supervised m1 |} in
  (abandoned,
   if 0 <? abandoned
   then bump (fun s => {| s with stat_active_supervised := usub64 (stat_active_supervised s) abandoned |}) m2
   else m2).

(** Destroying the worker destroys what its table still holds. *)
Definition destroy_worker m : list KillCall :=
  flat_map (fun e => match sv_supervisor e.2 with Some s => destroy s | None => [] end)
    (map_entries (mg_supervised m)).

(** ** Commands and recovery *)

(** What arrives at the worker: a command of its channel, with the answers the
    outside gives while it is processed; an exit event; a completed log pump; a
    GPU state change; and a grace timer. *)
Inductive Event :=
| EvSubmit (create_admitted rollback_admitted : bool) (spec : JobSpec)
| EvCancel (admits : nat -> bool) (c : CancelAnswers) (job_id : N)
| EvWake (sa : ScheduleAnswers) (a : LaunchAnswers) (trigger : SchedulerTrigger)
| EvExit (admits : nat -> bool) (now : Z) (event : ExitEvent)
| EvPumpDone (job_id : N)
| EvGpuChanged (sa : ScheduleAnswers) (a : LaunchAnswers)
| EvGrace (now : Z) (kill : Z -> option Z) (job_id : N).

Definition post_wake (trigger : SchedulerTrigger) m : Manager S :=
  {| m with mg_wakes := mg_wakes m ++ [trigger] |}.

(** One event of the worker's loop: [process_commands], [drain_exit_events],
    [drain_pump_done] and [drain_gpu_events].  The wakes it posts to itself are
    collected; they come back as [EvWake]. *)
Definition worker_step (config : JobManagerConfig) (e : Event) m : Manager S :=
  match e with
  | EvSubmit create rollback spec =>
      post_wake ST_kJobSubmitted (process_submit create rollback spec (bump inc_commands m)).2
  | EvCancel admits c job_id =>
      post_wake ST_kJobCancelled (process_cancel admits c job_id (bump inc_commands m)).2
  | EvWake sa a trigger => schedule_now config sa a trigger (bump inc_commands m)
  | EvExit admits now event => process_exit admits now event m
  | EvPumpDone job_id => process_pump_done job_id m
  | EvGpuChanged sa a => schedule_now config sa a ST_kGpuStateChanged m
  | EvGrace now kill job_id => grace_fire now kill job_id m
  end.

(** What the outside answers for one adopted job. *)
Record AdoptAnswers := mkAdoptAnswers {
  aa_verify : ProcessIdentity -> bool;
  aa_monitor : bool;
  aa_cancel : CancelAnswers;
}.

(** The decisions whose process is adopted *)
Definition adopts (outcome : RecoveryJobOutcome) : bool :=
  bool_decide (ro_decision outcome = RD_kAdoptedRunning)
  || bool_decide (ro_decision outcome = RD_kAdoptedPromotedToRunning)
  || bool_decide (ro_decision outcome = RD_kAdoptedStoppingNeedsRecancel).

(** One outcome of [arm_recovery].  When the monitor refuses, the local
    supervisor, which holds the process, is destroyed. *)
Definition arm_job (config : JobManagerConfig) (a : AdoptAnswers) (outcome : RecoveryJobOutcome) m
  : Manager S :=
  let needs_recancel := bool_decide (ro_decision outcome = RD_kAdoptedStoppingNeedsRecancel) in
  let job_id := ro_job_id outcome in
  if negb (adopts outcome) then m
  else
    let load := store_load (mg_store m) in
    if negb (load_ok load) then m
    else
      match find_stored (lr_snapshot load) job_id with
      | None => m
      | Some record =>
          let identity := xr_identity (sj_execution record) in
          if negb (has_identity (sj_execution record)) then m
          else
            let '(adopted, supervisor) :=
              adopt (aa_verify a) identity (new_supervisor (jc_cancel_grace config)) in
            match adopted with
            | AE_kNone =>
                if negb (aa_monitor a) then emit_signals (destroy supervisor) m
                else
                  let leased_gpu := default "" (find_lease_gpu (lr_snapshot load) job_id) in
                  let job := mkSupervised job_id leased_gpu (Some supervisor)
                               (if needs_recancel then Some false else None) needs_recancel true false false
                               0 None in
                  let m1 := bump inc_active (bump inc_adopted (emit (OutMonitor (pi_pid identity)) m)) in
                  let m2 := {| m1 with mg_supervised := <[job_id := job]> (mg_supervised m1);
                                       mg_by_pid := <[pi_pid identity := job_id]> (mg_by_pid m1) |} in
                  if needs_recancel
                  then bump inc_recancels (begin_cancellation (aa_cancel a) job_id true m2)
                  else m2
            | _ => m
            end
      end.

(** [arm_recovery] *)
Definition arm_recovery (config : JobManagerConfig) (answers : JobId -> AdoptAnswers)
    (recovery : option RecoveryResult) m : Manager S :=
  match recovery with
  | Some result =>
      if recovery_ok result
      then fold_left (fun m outcome => arm_job config (answers (ro_job_id outcome)) outcome m)
             (rr_outcomes result) m
      else m
  | None => m
  end.
End manager.
