(* ===== verification/ManagerProofs.v ===== *)
(** * Correctness of the job manager

    The invariant of the single writer ([MgrOk]) and its preservation by every
    operation of [JobManager], startup after a recovery included; the exact
    effect of submission, cancellation, launch, exit and stop as step
    relations; and progress of exits on the in-memory store. *)

From stdpp Require Import pretty.
From S2P Require Import Prelude.
From S2P Require Import Job.
From S2P Require Import Gpu.
From S2P Require Import Store.
From S2P Require Import Queue.
From S2P Require Import Scheduler.
From S2P Require Import Recovery.
From S2P Require Import Wire.
From S2P Require Import Request.
From S2P Require Import Response.
From S2P Require Import Service.
From S2P Require Import Supervisor.
From S2P Require Import Launch.
From S2P Require Import Directories.
From S2P Require Import ExitMonitor.
From S2P Require Import JobManager.

(** ** The worker's invariant *)

Section invariant.
Context {S : Type} `{StateStoreLaws S}.
Implicit Types m : Manager S.

(** A supervised job and its stored record: its supervisor guards the stored
    process; the record has left QUEUED and STARTING; and until its exit was
    handled the job is active, holds the lease on its GPU, and its pid leads
    back to it. *)
Record SupervisedOk (st : StoreState) (pids : gmap Z N) (id : N) (job : SupervisedJob) (r : StoredJob)
  : Prop := {
  su_id : sv_id job = id;
  su_process : exists sup, sv_supervisor job = Some sup /\ guards (sp_phase sup) = true /\
    sp_identity sup = xr_identity (sj_execution r);
  su_launched : sj_state r <> kQueued /\ sj_state r <> kStarting;
  su_live : sv_exited job = false ->
    leaseable (sj_state r) = true /\ pids !! pi_pid (xr_identity (sj_execution r)) = Some id /\
    exists l, st_leases st !! sv_leased_gpu job = Some l /\ lease_job_id l = id;
}.

Record MgrCore m : Prop := {
  mk_sched : SchedOk (mg_queue m) (mg_store m);
  mk_room : max_jobs (store_config (mg_store m)) <= q_capacity (mg_queue m);
  mk_supervised : forall id job, mg_supervised m !! id = Some job ->
    exists r, st_jobs (store_view (mg_store m)) !! id = Some r /\
      SupervisedOk (store_view (mg_store m)) (mg_by_pid m) id job r;
  mk_pids : forall pid id, mg_by_pid m !! pid = Some id ->
    exists job sup, mg_supervised m !! id = Some job /\ sv_exited job = false /\
      sv_supervisor job = Some sup /\ pi_pid (sp_identity sup) = pid;
  mk_active : stat_active_supervised (mg_stats m) = msize (mg_supervised m) mod 2 ^ 64;
}.

(** A live job is marked as being cancelled exactly when it is STOPPING. *)
Definition cancelling_exact m : Prop :=
  forall id job r, mg_supervised m !! id = Some job -> sv_exited job = false ->
    st_jobs (store_view (mg_store m)) !! id = Some r ->
    sv_cancelling job = true <-> sj_state r = kStopping.

Definition MgrOk m : Prop := MgrCore m /\ cancelling_exact m.

(** Only the store and the counters differ, and not the number of supervised
    jobs. *)
Record StoreOnly m m' : Prop := {
  so_queue : mg_queue m' = mg_queue m;
  so_supervised : mg_supervised m' = mg_supervised m;
  so_pids : mg_by_pid m' = mg_by_pid m;
  so_active : stat_active_supervised (mg_stats m') = stat_active_supervised (mg_stats m);
  so_evaluation : mg_evaluation m' = mg_evaluation m;
  so_wakes : mg_wakes m' = mg_wakes m;
  so_out : mg_out m' = mg_out m;
  so_inv : store_inv (mg_store m');
  so_config : store_config (mg_store m') = store_config (mg_store m);
}.

Lemma StoreOnly_refl m : store_inv (mg_store m) -> StoreOnly m m.
Proof. by constructor. Qed.

Lemma StoreOnly_trans m1 m2 m3 : StoreOnly m1 m2 -> StoreOnly m2 m3 -> StoreOnly m1 m3.
Proof. intros [] []. constructor; congruence. Qed.

Lemma MgrOk_same m m' :
  mg_store m' = mg_store m -> mg_queue m' = mg_queue m -> mg_supervised m' = mg_supervised m ->
  mg_by_pid m' = mg_by_pid m ->
  stat_active_supervised (mg_stats m') = stat_active_supervised (mg_stats m) ->
  MgrOk m -> MgrOk m'.
Proof.
  intros E1 E2 E3 E4 E5 [[] Hc]. split.
  - constructor; rewrite ?E1, ?E2, ?E3, ?E4, ?E5; done.
  - unfold cancelling_exact. by rewrite E1, E3.
Qed.

Lemma find_stored_view config st id :
  StoreOk config st -> find_stored (snapshot_of st) id = st_jobs st !! id.
Proof. intros Hok. exact (find_job_view _ _ _ Hok). Qed.

(** ** Writes *)

Lemma run_write_spec admitted mutation m w m' :
  store_inv (mg_store m) -> run_write admitted mutation m = (w, m') ->
  StoreOnly m m' /\
  (if write_ok w
   then apply_mutation (store_config (mg_store m)) (store_view (mg_store m)) mutation
          = Ok (store_view (mg_store m')) /\ wr_revision w = st_revision (store_view (mg_store m'))
   else store_view (mg_store m') = store_view (mg_store m)).
Proof.
  intros Hinv. unfold run_write. destruct admitted; simpl.
  - destruct (store_apply mutation (mg_store m)) as [written s] eqn:Happ. intros [= <- <-].
    destruct (store_apply_keeps _ _ _ _ Hinv Happ) as [Hinv' Hcfg]. split; [by constructor|].
    destruct (write_ok written) eqn:Hw; simpl; [by eapply store_apply_ok|by eapply store_apply_err].
  - intros [= <- <-]. split; [by constructor|done].
Qed.

(** What a rewrite of one record does to the stored state. *)
Record Rewritten (config : ValidationConfig) (st st' : StoreState) (r u : StoredJob)
    (release : option GpuUuid) : Prop := {
  rw_ok : StoreOk config st';
  rw_record : st_jobs st !! sj_id r = Some r;
  rw_step : stored_step r u;
  rw_jobs : st_jobs st' = <[sj_id r := u]> (st_jobs st);
  rw_leases : st_leases st' = match release with Some g => delete g (st_leases st) | None => st_leases st end;
  rw_released : forall g, release = Some g -> is_Some (st_leases st !! g);
}.

Lemma rewrite_mutation_inv config st rev u release st' :
  StoreOk config st -> apply_mutation config st (mkMutation rev [] [u] [] (option_list release)) = Ok st' ->
  forall r, st_jobs st !! sj_id u = Some r -> sj_id r = sj_id u -> Rewritten config st st' r u release.
Proof.
  intros Hok Happ r Hr Hid. pose proof (apply_mutation_preserves _ _ _ _ Hok Happ) as Hok'.
  apply apply_mutation_inv in Happ as (_ & _ & _ & _ & jobs1 & leases1 & Hc & Hu & Hl & Ha & _).
  simpl in Hc, Ha. simplify_eq/=.
  apply result_bind_ok in Hu as (jobs2 & Hu & [= ->]).
  apply update_job_ok in Hu as (Hj & _ & _ & _ & existing & Hex & _ & Hsp & Hrev & Hct).
  rewrite Hr in Hex. injection Hex as <-.
  constructor; rewrite ?Hid; try done.
  - destruct release as [g|]; simpl in Hl; [|congruence].
    apply result_bind_ok in Hl as (l2 & Hl & [= ->]). by apply release_lease_ok in Hl as [-> _].
  - intros g ->. simpl in Hl. apply result_bind_ok in Hl as (l2 & Hl & _).
    by apply release_lease_ok in Hl as (_ & _ & ?).
Qed.

(** [rewrite_job] either rewrites the one record as [compose] says, or changes
    nothing that is stored. *)
Lemma rewrite_job_spec admits id compose m w m' :
  store_inv (mg_store m) -> StoreOk (store_config (mg_store m)) (store_view (mg_store m)) ->
  (forall r, sj_id (compose r).1 = sj_id r) ->
  rewrite_job admits id compose m = (w, m') ->
  StoreOnly m m' /\
  (if write_ok w
   then exists r, sj_id r = id /\
     Rewritten (store_config (mg_store m)) (store_view (mg_store m)) (store_view (mg_store m'))
       r (compose r).1 (compose r).2
   else store_view (mg_store m') = store_view (mg_store m)).
Proof.
  intros Hinv Hok Hcid. unfold rewrite_job. generalize 3%nat as attempts. intros attempts.
  revert m Hinv Hok.
  induction attempts as [|attempts IH]; intros m Hinv Hok; cbn [rewrite_attempts].
  { intros [= <- <-]. split; [by apply StoreOnly_refl|done]. }
  destruct (load_ok (store_load (mg_store m))) eqn:Hl; cbn [negb].
  2: { intros [= <- <-]. split; [by apply StoreOnly_refl|]. unfold write_ok, load_ok in *. cbn [wr_code].
       by rewrite Hl. }
  rewrite (store_load_view _ Hinv Hl), (find_stored_view _ _ _ Hok).
  destruct (st_jobs (store_view (mg_store m)) !! id) as [r|] eqn:Hr.
  2: { intros [= <- <-]. split; [by apply StoreOnly_refl|done]. }
  pose proof (ro_id _ _ (map_Forall_lookup_1 _ _ _ _ (sto_jobs _ _ Hok) Hr)) as Hid.
  pose proof (Hcid r) as Hu. destruct (compose r) as [u release] eqn:Hc. simpl in Hu.
  destruct (run_write _ _ m) as [w1 m1] eqn:Hrun.
  destruct (run_write_spec _ _ _ _ _ Hinv Hrun) as [Hso Heff].
  destruct (write_ok w1) eqn:Hw; cbn [orb].
  - intros [= <- <-]. split; [done|]. rewrite Hw. exists r. split; [done|]. rewrite Hc.
    apply (rewrite_mutation_inv _ _ _ _ _ _ Hok (proj1 Heff) r); congruence.
  - destruct (negb _); [intros [= <- <-]; split; [done|by rewrite Hw]|].
    intros Hrec. apply IH in Hrec as [Hso' Heff'];
      [|apply Hso|by rewrite (so_config _ _ Hso), Heff].
    split; [by eapply StoreOnly_trans|]. destruct (write_ok w); [|congruence].
    by rewrite (so_config _ _ Hso), Heff in Heff'.
Qed.

(** ** Frame lemmas *)

Lemma lease_survives config st st' id r g l :
  StoreOk config st -> StoreOk config st' ->
  (forall u k, st_leases st' !! u = Some k -> lease_job_id k = id -> st_leases st !! u = Some k) ->
  st_jobs st' !! id = Some r -> leaseable (sj_state r) = true ->
  st_leases st !! g = Some l -> lease_job_id l = id -> st_leases st' !! g = Some l.
Proof.
  intros Hok Hok' Hsub Hr Hl Hg Hid.
  destruct (sto_lease_exists _ _ Hok' _ _ Hr Hl) as (u & k & Hk & Hkid).
  pose proof (Hsub _ _ Hk Hkid) as Hu.
  assert (u = g) as -> by (eapply (sto_lease_unique _ _ Hok); eauto; congruence). congruence.
Qed.

(** A supervised job survives any change that keeps its process and its
    progress, whatever happens to other jobs. *)
Lemma SupervisedOk_next config st st' pids pids' id job r r' :
  StoreOk config st -> StoreOk config st' ->
  (forall u k, st_leases st' !! u = Some k -> lease_job_id k = id -> st_leases st !! u = Some k) ->
  st_jobs st' !! id = Some r' ->
  xr_identity (sj_execution r') = xr_identity (sj_execution r) ->
  sj_state r' = sj_state r \/ sj_state r' = kStopping ->
  (pids !! pi_pid (xr_identity (sj_execution r)) = Some id ->
   pids' !! pi_pid (xr_identity (sj_execution r)) = Some id) ->
  SupervisedOk st pids id job r -> SupervisedOk st' pids' id job r'.
Proof.
  intros Hok Hok' Hsub Hr' Hx Hst Hp [Hid Hproc Hq Hlive]. constructor; rewrite ?Hx; try done.
  - destruct Hst as [->| ->]; done.
  - intros He. destruct (Hlive He) as (Hl & Hpid & l & Hg & Hlid).
    assert (leaseable (sj_state r') = true) as Hl' by (destruct Hst as [->| ->]; done).
    split_and!; [done|by apply Hp|]. exists l. split; [|done]. exact (lease_survives _ _ _ _ _ _ _ Hok Hok' Hsub Hr' Hl' Hg Hlid).
Qed.

Lemma StoreOnly_unchanged m m' :
  StoreOnly m m' -> store_view (mg_store m') = store_view (mg_store m) -> MgrOk m -> MgrOk m'.
Proof.
  intros [] Hv [[[Hinv Hok Hq Hag] Hroom Hsup Hpids Hact] Hc]. split.
  - constructor; [constructor|..]; try congruence.
    + by replace (mg_queue m') with (mg_queue m); rewrite Hv.
    + intros id job. replace (mg_supervised m') with (mg_supervised m). rewrite Hv.
      replace (mg_by_pid m') with (mg_by_pid m). apply Hsup.
    + intros pid id. replace (mg_supervised m') with (mg_supervised m).
      replace (mg_by_pid m') with (mg_by_pid m). apply Hpids.
  - intros id job r. replace (mg_supervised m') with (mg_supervised m). rewrite Hv. apply Hc.
Qed.

Lemma Rewritten_left config st st' r u release : Rewritten config st st' r u release -> sj_state u <> kQueued.
Proof. intros [_ _ Hstep _ _ _]. inv Hstep. by eapply can_transition_not_queued. Qed.

Lemma Rewritten_agrees config st st' r u release q :
  Rewritten config st st' r u release -> sj_state r <> kQueued -> queue_agrees q st -> queue_agrees q st'.
Proof.
  intros Hrw Hr Hag e. pose proof (Rewritten_left _ _ _ _ _ _ Hrw) as Hu.
  rewrite (Hag e), (rw_jobs _ _ _ _ _ _ Hrw).
  destruct (decide (qe_job_id e = sj_id r)) as [Heq|Hne]; [|by rewrite lookup_insert_ne].
  rewrite Heq, lookup_insert_eq, (rw_record _ _ _ _ _ _ Hrw). naive_solver.
Qed.

Lemma Rewritten_leases config st st' r u release g l :
  Rewritten config st st' r u release -> st_leases st' !! g = Some l -> st_leases st !! g = Some l.
Proof.
  intros Hrw. rewrite (rw_leases _ _ _ _ _ _ Hrw). destruct release as [x|]; [|done].
  by intros [_ ?]%lookup_delete_Some.
Qed.

Lemma Rewritten_other config st st' r u release pids pids' id job r0 :
  StoreOk config st -> Rewritten config st st' r u release -> id <> sj_id r ->
  (pids !! pi_pid (xr_identity (sj_execution r0)) = Some id ->
   pids' !! pi_pid (xr_identity (sj_execution r0)) = Some id) ->
  st_jobs st !! id = Some r0 -> SupervisedOk st pids id job r0 ->
  st_jobs st' !! id = Some r0 /\ SupervisedOk st' pids' id job r0.
Proof.
  intros Hok Hrw Hne Hp Hr0 Hsup.
  assert (st_jobs st' !! id = Some r0) as Hr'
    by (by rewrite (rw_jobs _ _ _ _ _ _ Hrw), lookup_insert_ne).
  split; [done|]. eapply SupervisedOk_next; try done; [apply Hrw| |by left].
  intros v k Hk _. by eapply Rewritten_leases.
Qed.

(** A launched job's record is the only one a rewrite may touch besides those of
    jobs that are not supervised. *)
Lemma rewritten_sched m m' r u release :
  MgrCore m -> StoreOnly m m' ->
  Rewritten (store_config (mg_store m)) (store_view (mg_store m)) (store_view (mg_store m')) r u release ->
  sj_state r <> kQueued -> SchedOk (mg_queue m') (mg_store m').
Proof.
  intros [[Hinv Hok Hq Hag] _ _ _ _] Hso Hrw Hr. constructor.
  - apply Hso.
  - rewrite (so_config _ _ Hso). apply Hrw.
  - by rewrite (so_queue _ _ Hso).
  - rewrite (so_queue _ _ Hso). by eapply Rewritten_agrees.
Qed.

Lemma rewritten_unsupervised m m' r u release :
  MgrOk m -> StoreOnly m m' ->
  Rewritten (store_config (mg_store m)) (store_view (mg_store m)) (store_view (mg_store m')) r u release ->
  sj_state r <> kQueued -> mg_supervised m !! sj_id r = None -> MgrOk m'.
Proof.
  intros [Hm Hc] Hso Hrw Hr Hnone. pose proof (rewritten_sched _ _ _ _ _ Hm Hso Hrw Hr) as Hsc.
  destruct Hm as [[Hinv Hok Hq Hag] Hroom Hsup Hpids Hact]. destruct Hso. split.
  - constructor; [done|congruence|..|congruence].
    + intros id job. replace (mg_supervised m') with (mg_supervised m).
      replace (mg_by_pid m') with (mg_by_pid m). intros Hjob.
      destruct (Hsup _ _ Hjob) as (r0 & Hr0 & Hs). exists r0.
      eapply (Rewritten_other _ _ _ _ _ _ _ _ _ _ _ Hok Hrw); try done. intros ->. congruence.
    + intros pid id. replace (mg_supervised m') with (mg_supervised m).
      replace (mg_by_pid m') with (mg_by_pid m). apply Hpids.
  - intros id job r0. replace (mg_supervised m') with (mg_supervised m).
    rewrite (rw_jobs _ _ _ _ _ _ Hrw). intros Hjob He.
    rewrite lookup_insert_ne by (intros <-; congruence). by apply Hc.
Qed.

(** ** Submission *)

Lemma create_mutation_inv config st rev record st' :
  apply_mutation config st (mkMutation rev [record] [] [] []) = Ok st' ->
  st_jobs st' = <[sj_id record := record]> (st_jobs st) /\ st_leases st' = st_leases st /\
  st_jobs st !! sj_id record = None /\ msize (st_jobs st) < max_jobs config /\
  sj_id record <> 0 /\ SpecOk (sj_spec record).
Proof.
  intros (_ & _ & _ & _ & jobs1 & leases1 & Hc & Hu & Hl & Ha & _)%apply_mutation_inv.
  simpl in Hu, Hl, Ha. simplify_eq/=. apply result_bind_ok in Hc as (jobs2 & Hc & [= ->]).
  apply create_job_ok in Hc as (-> & Hn & Hsz & Hid & Hs & _). split_and!; congruence || done.
Qed.

Lemma queue_length config q st :
  StoreOk config st -> QueueOk q -> queue_agrees q st -> len (q_entries q) <= msize (st_jobs st).
Proof.
  intros Hok Hq Hag. rewrite (len_perm _ _ (proj1 (queue_agrees_perm _ _ _ Hok Hq) Hag)).
  unfold queued_entries, len. rewrite length_fmap. rewrite <- len_map_values. unfold len.
  pose proof (length_filter (fun r => sj_state r = kQueued) (map_values (st_jobs st))). lia.
Qed.

Lemma queue_ids q st e : queue_agrees q st -> e ∈ q_entries q -> is_Some (st_jobs st !! qe_job_id e).
Proof. intros Hag He. apply Hag in He as (r & Hr & _). by exists r. Qed.

Lemma queue_agrees_admitted q st st' record position :
  queue_agrees q st -> st_jobs st !! sj_id record = None -> sj_state record = kQueued ->
  st_jobs st' = <[sj_id record := record]> (st_jobs st) ->
  queue_agrees {| q with q_entries := insert_at position (entry_of record) (q_entries q) |} st'.
Proof.
  intros Hag Hnew Hst Hjobs e. simpl. rewrite (insert_at_perm _ _ _), elem_of_cons, Hjobs.
  destruct (decide (qe_job_id e = sj_id record)) as [Heq|Hne].
  - rewrite Heq, lookup_insert_eq. split.
    + intros [->|Hin]; [by exists record|]. apply (queue_ids _ _ _ Hag) in Hin. rewrite Heq, Hnew in Hin.
      by destruct Hin.
    + intros (r & [= <-] & _ & ->). by left.
  - rewrite lookup_insert_ne by done. rewrite <- (Hag e). split; [|by right]. intros [->|?]; done.
Qed.

Lemma fold_max_ids l acc :
  acc <= fold_left (fun max_id r => N.max max_id (sj_id r)) l acc /\
  (forall r, r ∈ l -> sj_id r <= fold_left (fun max_id r => N.max max_id (sj_id r)) l acc) /\
  (acc <= u64_max -> Forall (fun r => u64 (sj_id r)) l ->
   fold_left (fun max_id r => N.max max_id (sj_id r)) l acc <= u64_max).
Proof.
  revert acc. induction l as [|x l IH]; intros acc; simpl; [split_and!; [lia|set_solver|done]|].
  destruct (IH (N.max acc (sj_id x))) as (H1 & H2 & H3). split_and!; [lia|..].
  - intros y [->|Hy]%elem_of_cons; [lia|by apply H2].
  - intros Ha [Hx Hl]%Forall_cons. apply H3; [unfold u64 in Hx; lia|done].
Qed.

(** The next id is above every stored one, unless the ids are exhausted. *)
Lemma next_job_id_above snapshot :
  Forall (fun r => u64 (sj_id r)) (ss_jobs snapshot) -> next_job_id snapshot <> 0 ->
  Forall (fun r => sj_id r < next_job_id snapshot) (ss_jobs snapshot).
Proof.
  intros Hall. unfold next_job_id, uadd64.
  destruct (fold_max_ids (ss_jobs snapshot) 0) as (_ & Hmax & Hb).
  specialize (Hb (N.le_0_l _) Hall). revert Hmax Hb. generalize (fold_left (fun max_id r => N.max max_id (sj_id r)) (ss_jobs snapshot) 0).
  intros top Hmax Hb Hne. apply Forall_forall. intros r Hr. specialize (Hmax _ Hr).
  destruct (decide (top = u64_max)) as [->|?]; [done|]. unfold u64_max in *.
  rewrite N.mod_small by lia. lia.
Qed.

(** What a submission does. *)
Inductive submit_step (spec : JobSpec) m : JobSubmitOutcome -> Manager S -> Prop :=
| submit_refused code m' :
    StoreOnly m m' -> store_view (mg_store m') = store_view (mg_store m) ->
    submit_step spec m (submit_failed code) m'
| submit_accepted id m' :
    let st := store_view (mg_store m) in
    let record := mkStored id spec kQueued 0 empty_execution in
    id = next_job_id (snapshot_of st) -> st_jobs st !! id = None -> id <> 0 -> SpecOk spec ->
    st_jobs (store_view (mg_store m')) = <[id := record]> (st_jobs st) ->
    st_leases (store_view (mg_store m')) = st_leases st ->
    q_entries (mg_queue m') =
      insert_at (entries_before (q_entries (mg_queue m)) (entry_of record)) (entry_of record)
        (q_entries (mg_queue m)) ->
    mg_supervised m' = mg_supervised m -> mg_by_pid m' = mg_by_pid m ->
    submit_step spec m (mkSubmitOutcome SO_kSubmitted id "") m'.

Lemma process_submit_step create rollback spec m out m' :
  MgrOk m -> process_submit create rollback spec m = (out, m') ->
  MgrOk m' /\ submit_step spec m out m'.
Proof.
  intros Hm. pose proof Hm as [[[Hinv Hok Hq Hag] Hroom Hsup Hpids Hact] Hc]. unfold process_submit.
  destruct (load_ok (store_load (mg_store m))) eqn:Hl; cbn [negb].
  2: { intros [= <- <-]. split; [done|]. by apply submit_refused; [apply StoreOnly_refl|]. }
  rewrite (store_load_view _ Hinv Hl). set (id := next_job_id _).
  set (record := mkStored id spec kQueued 0 empty_execution).
  destruct (run_write create _ m) as [w m1] eqn:Hrun.
  destruct (run_write_spec _ _ _ _ _ Hinv Hrun) as [Hso Heff].
  destruct (write_ok w) eqn:Hw; cbn [negb].
  2: { intros [= <- <-]. split; [by eapply StoreOnly_unchanged|]. by apply submit_refused. }
  destruct Heff as [Hmut _]. pose proof (apply_mutation_preserves _ _ _ _ Hok Hmut) as Hok1.
  apply create_mutation_inv in Hmut as (Hjobs & Hleases & Hnew & Hsz & Hid & Hspec).
  change (sj_id record) with id in *. change (sj_spec record) with spec in *.
  assert (Admissible (mg_queue m1) record) as Hadm.
  { rewrite (so_queue _ _ Hso). constructor; try done.
    - intros (e & He & Hin)%list_elem_of_fmap. apply (queue_ids _ _ _ Hag) in Hin.
      change (sj_id record) with id in He. rewrite <- He, Hnew in Hin. by destruct Hin.
    - pose proof (queue_length _ _ _ Hok Hq Hag). lia. }
  assert (QueueOk (mg_queue m1)) as Hq1 by (by rewrite (so_queue _ _ Hso)).
  destruct (queue_admit_ok _ _ Hq1 Hadm) as (res & -> & Hres & _). rewrite Hres. cbn [negb].
  intros [= <- <-]. rewrite <- (so_config _ _ Hso) in Hroom, Hok1. split; [split|].
  - constructor; simpl.
    + constructor; simpl; [apply Hso|done|by apply insert_entry_ok|].
      eapply queue_agrees_admitted; [by rewrite (so_queue _ _ Hso)|done..].
    + by rewrite (so_queue _ _ Hso).
    + rewrite (so_supervised _ _ Hso), (so_pids _ _ Hso). intros id' job Hjob.
      destruct (Hsup _ _ Hjob) as (r & Hr & Hs). exists r. rewrite Hjobs.
      assert (id' <> id) by (intros ->; congruence). rewrite lookup_insert_ne by done. split; [done|].
      rewrite (so_config _ _ Hso) in Hok1.
      eapply (SupervisedOk_next _ _ _ _ _ _ _ r r Hok Hok1); try done; [|by rewrite Hjobs, lookup_insert_ne|by left].
      intros u k. by rewrite Hleases.
    + by rewrite (so_supervised _ _ Hso), (so_pids _ _ Hso).
    + by rewrite (so_supervised _ _ Hso), (so_active _ _ Hso).
  - intros id' job r. simpl. rewrite (so_supervised _ _ Hso), Hjobs. intros Hjob He.
    destruct (Hsup _ _ Hjob) as (r0 & Hr0 & _).
    rewrite lookup_insert_ne by (intros <-; congruence). by apply (Hc _ _ _ Hjob He).
  - apply submit_accepted; simpl; try done; try apply Hso. by rewrite (so_queue _ _ Hso).
Qed.

(** ** Cancellation *)

(** Two entries of the table that guard the same process. *)
Record same_job (job job' : SupervisedJob) : Prop := {
  sm_id : sv_id job' = sv_id job;
  sm_gpu : sv_leased_gpu job' = sv_leased_gpu job;
  sm_exited : sv_exited job' = sv_exited job;
  sm_adopted : sv_adopted job' = sv_adopted job;
  sm_pump : sv_pump_done job' = sv_pump_done job;
  sm_process : forall sup, sv_supervisor job = Some sup -> guards (sp_phase sup) = true ->
    exists sup', sv_supervisor job' = Some sup' /\ guards (sp_phase sup') = true /\
      sp_identity sup' = sp_identity sup;
}.

Lemma same_job_ok st pids id job job' r :
  same_job job job' -> SupervisedOk st pids id job r -> SupervisedOk st pids id job' r.
Proof.
  intros [Hid Hg He _ _ Hp] [? (sup & Hsup & Hgu & Hi) ? ?].
  constructor; rewrite ?Hid, ?Hg, ?He; try done.
  destruct (Hp _ Hsup Hgu) as (sup' & ? & ? & ?). exists sup'. split_and!; congruence.
Qed.

(** Replacing one entry by one that guards the same process. *)
Lemma replace_job m m' id job job' :
  MgrCore m -> mg_supervised m !! id = Some job -> same_job job job' ->
  mg_store m' = mg_store m -> mg_queue m' = mg_queue m -> mg_by_pid m' = mg_by_pid m ->
  stat_active_supervised (mg_stats m') = stat_active_supervised (mg_stats m) ->
  mg_supervised m' = <[id := job']> (mg_supervised m) -> MgrCore m'.
Proof.
  intros [Hsc Hroom Hsup Hpids Hact] Hjob Hsame Es Eq Ep Ea Em.
  constructor; rewrite ?Es, ?Eq, ?Ep, ?Ea, ?Em; try done.
  - intros id' job1 [[<- <-]|[Hne Hj]]%lookup_insert_Some; [|by apply Hsup].
    destruct (Hsup _ _ Hjob) as (r & Hr & Hs). exists r. split; [done|]. by eapply same_job_ok.
  - intros pid id' Hp. destruct (Hpids _ _ Hp) as (job1 & sup & Hj & He & Hs & Hpid).
    destruct (decide (id' = id)) as [->|Hne].
    + rewrite Hjob in Hj. injection Hj as <-. destruct (Hsup _ _ Hjob) as (r & _ & [_ (sup0 & Hs0 & Hg & _) _ _]).
      rewrite Hs in Hs0. injection Hs0 as <-. destruct (sm_process _ _ Hsame _ Hs Hg) as (sup' & Hs' & _ & Hi').
      exists job', sup'. rewrite lookup_insert_eq, (sm_exited _ _ Hsame), Hi'. done.
    + exists job1, sup. by rewrite lookup_insert_ne.
  - by rewrite msize_insert_old.
Qed.

(** A SIGTERM for the group of [sup] is delivered, to the group or to its leader. *)
Definition term_delivered (c : CancelAnswers) (sup : Supervisor) : bool :=
  let group := pi_pgid (sp_identity sup) in
  bool_decide (ca_kill c (- group)%Z = None) || bool_decide (ca_kill c group = None).

(** The signals a request to stop sends: to the group of a running process, and
    to its leader when the group cannot be signalled; to a process that was
    signalled before, none *)
Definition term_calls (c : CancelAnswers) (sup : Supervisor) : list KillCall :=
  let group := pi_pgid (sp_identity sup) in
  match sp_phase sup with
  | PH_kRunning =>
      mkKill (- group) SIGTERM :: match ca_kill c (- group)%Z with Some _ => [mkKill group SIGTERM] | None => [] end
  | _ => []
  end.

(** Whether the grace timer is started: on the first request (or the one that
    recovery repeats), once the process has its SIGTERM, if the executor takes
    it and it does not run yet *)
Definition starts_grace (c : CancelAnswers) (from_recovery : bool) (job : SupervisedJob) (sup' : Supervisor) : bool :=
  (negb (sv_cancelling job) || from_recovery) && negb (default false (sv_grace job)) &&
  bool_decide (sp_phase sup' = PH_kTerminating) && ca_timer c.

(** The supervisor of [job] is asked to terminate its process: [job'] is the job
    after it, [out] what leaves the manager. *)
Record StopAsked (c : CancelAnswers) (id : N) (from_recovery : bool) (job job' : SupervisedJob) (sup sup' : Supervisor)
    (out : list Output) : Prop := {
  ask_before : sv_supervisor job = Some sup;
  ask_after : sv_supervisor job' = Some sup';
  ask_marked : sv_cancelling job' = true;
  ask_identity : sp_identity sup' = sp_identity sup;
  ask_running : sp_phase sup = PH_kRunning ->
    if term_delivered c sup
    then sp_phase sup' = PH_kTerminating /\ sp_grace_deadline sup' = (ca_now c + sp_grace_period sup)%Z
    else sup' = sup;
  ask_again : sp_phase sup = PH_kTerminating -> sup' = sup;
  ask_grace : sv_grace job' = Some (default false (sv_grace job) || starts_grace c from_recovery job sup');
  ask_out : out = (OutSignal <$> term_calls c sup) ++ (if starts_grace c from_recovery job sup' then [OutArmGrace id] else []);
}.

(** What [request_cancel] does on a guarded process *)
Lemma request_cancel_guarded (c : CancelAnswers) sup outcome calls sup' :
  guards (sp_phase sup) = true -> request_cancel (ca_now c) (ca_kill c) sup = (outcome, calls, sup') ->
  outcome <> CX_kNotRunning /\ outcome <> CX_kAlreadyExited /\ guards (sp_phase sup') = true /\
  sp_identity sup' = sp_identity sup /\ calls = term_calls c sup /\
  (sp_phase sup = PH_kRunning ->
   if term_delivered c sup
   then sp_phase sup' = PH_kTerminating /\ sp_grace_deadline sup' = (ca_now c + sp_grace_period sup)%Z
   else sup' = sup) /\
  (sp_phase sup = PH_kTerminating -> sup' = sup).
Proof.
  unfold request_cancel, term_calls, term_delivered, signal_group. intros Hg.
  destruct (sp_phase sup) eqn:Hp; try done; [|intros [= <- <- <-]; by rewrite Hp].
  destruct (ca_kill c (- pi_pgid (sp_identity sup))%Z), (ca_kill c (pi_pgid (sp_identity sup)));
    intros [= <- <- <-]; cbn; rewrite ?Hp; split_and!; done.
Qed.

(** What becomes of the grace timer *)
Lemma grace_arm_spec c (from_recovery : bool) job sup' :
  exists code,
    (if negb (sv_cancelling job) || from_recovery then grace_arm (ca_timer c) sup' (default false (sv_grace job))
     else (GA_kAlreadyArmed, default false (sv_grace job))) =
      (code, default false (sv_grace job) || starts_grace c from_recovery job sup') /\
    starts_grace c from_recovery job sup' = match code with GA_kArmed => true | _ => false end.
Proof.
  unfold starts_grace, grace_arm. destruct (negb (sv_cancelling job) || from_recovery); cbn [andb].
  2: { eexists. by rewrite orb_false_r. }
  destruct (default false (sv_grace job)); cbn [negb andb orb]; [by eexists|].
  destruct (bool_decide _), (ca_timer c); cbn; by eexists.
Qed.

(** On a supervised job the supervisor is asked, and the job is marked;
    otherwise nothing happens. *)
Lemma begin_cancellation_spec c id from_recovery m :
  MgrCore m ->
  let m' := begin_cancellation c id from_recovery m in
  mg_store m' = mg_store m /\ mg_queue m' = mg_queue m /\ mg_by_pid m' = mg_by_pid m /\
  mg_stats m' = mg_stats m /\
  match mg_supervised m !! id with
  | None => m' = m
  | Some job => exists job' sup sup' out, mg_supervised m' = <[id := job']> (mg_supervised m) /\
      same_job job job' /\ StopAsked c id from_recovery job job' sup sup' out /\ mg_out m' = mg_out m ++ out
  end.
Proof.
  intros Hm. unfold begin_cancellation. destruct (mg_supervised m !! id) as [job|] eqn:Hjob; [|done].
  destruct (mk_supervised _ Hm _ _ Hjob) as (r & _ & [_ (sup & Hs & Hg & _) _ _]). rewrite Hs.
  destruct (request_cancel (ca_now c) (ca_kill c) sup) as [[outcome calls] sup'] eqn:Hreq.
  destruct (request_cancel_guarded _ _ _ _ _ Hg Hreq) as (H1 & H2 & Hg' & Hi' & Hcalls & Hrun & Hterm).
  rewrite !bool_decide_false by done. cbn [orb].
  destruct (grace_arm_spec c from_recovery job sup') as (code & Harm & Hcode). cbn [sv_cancelling sv_grace].
  rewrite Harm.
  assert (forall job', sv_supervisor job' = Some sup' -> sv_id job' = sv_id job ->
    sv_leased_gpu job' = sv_leased_gpu job -> sv_exited job' = sv_exited job ->
    sv_adopted job' = sv_adopted job -> sv_pump_done job' = sv_pump_done job -> same_job job job') as Hsame.
  { intros job' E1 E2 E3 E4 E5 E6. constructor; try done. intros sup1 Hs1 _. exists sup'.
    split_and!; [done..|]. congruence. }
  destruct code; (split_and!; [done..|]);
    eexists _, sup, sup', ((OutSignal <$> calls) ++ (if starts_grace c from_recovery job sup' then [OutArmGrace id] else []));
    (split_and!; [reflexivity|by apply Hsame| |rewrite Hcode; cbn; by rewrite ?app_nil_r, ?app_assoc]);
    constructor; try done; by rewrite Hcalls.
Qed.

Lemma rewritten_stopping m m' r u :
  MgrCore m -> StoreOnly m m' ->
  Rewritten (store_config (mg_store m)) (store_view (mg_store m)) (store_view (mg_store m')) r u None ->
  sj_state r <> kQueued -> sj_state u = kStopping ->
  xr_identity (sj_execution u) = xr_identity (sj_execution r) -> MgrCore m'.
Proof.
  intros Hm Hso Hrw Hr Hu Hx. pose proof (rewritten_sched _ _ _ _ _ Hm Hso Hrw Hr) as Hsc.
  destruct Hm as [[Hinv Hok Hq Hag] Hroom Hsup Hpids Hact]. destruct Hso.
  constructor; [done|congruence|..|congruence].
  - intros id job. replace (mg_supervised m') with (mg_supervised m).
    replace (mg_by_pid m') with (mg_by_pid m). intros Hjob.
    destruct (Hsup _ _ Hjob) as (r0 & Hr0 & Hs). destruct (decide (id = sj_id r)) as [->|Hne].
    + rewrite (rw_record _ _ _ _ _ _ Hrw) in Hr0. injection Hr0 as <-. exists u.
      rewrite (rw_jobs _ _ _ _ _ _ Hrw), lookup_insert_eq. split; [done|].
      eapply (SupervisedOk_next _ _ _ _ _ _ _ r u Hok (rw_ok _ _ _ _ _ _ Hrw)); try done; [|
        by rewrite (rw_jobs _ _ _ _ _ _ Hrw), lookup_insert_eq|by right].
      intros g k Hk _. by eapply Rewritten_leases.
    + exists r0. by eapply (Rewritten_other _ _ _ _ _ _ _ _ _ _ _ Hok Hrw).
  - intros pid id. replace (mg_supervised m') with (mg_supervised m).
    replace (mg_by_pid m') with (mg_by_pid m). apply Hpids.
Qed.

(** The record after a bare state change *)
Definition with_state (state : JobState) (r : StoredJob) : StoredJob :=
  {| r with sj_state := state; sj_revision := sj_revision r + 1 |}.

(** The process of job [id] is asked to stop, if it is supervised; nothing else
    of the manager but the store may differ. *)
Definition stop_requested (c : CancelAnswers) (id : N) (from_recovery : bool) m m' : Prop :=
  match mg_supervised m !! id with
  | Some job => exists job' sup sup' out,
      mg_supervised m' = <[id := job']> (mg_supervised m) /\ same_job job job' /\
      StopAsked c id from_recovery job job' sup sup' out /\ mg_out m' = mg_out m ++ out
  | None => mg_supervised m' = mg_supervised m /\ mg_out m' = mg_out m
  end.

(** What a cancellation does, by the state of the job. *)
Inductive cancel_step (c : CancelAnswers) (id : N) m : JobCancelOutcome -> Manager S -> Prop :=
| cancel_store_failed code m' :
    StoreOnly m m' -> store_view (mg_store m') = store_view (mg_store m) ->
    cancel_step c id m (cancel_failed code) m'
| cancel_not_found :
    st_jobs (store_view (mg_store m)) !! id = None ->
    cancel_step c id m (mkCancelOutcome CO_kNotFound 0 "job not found") m
| cancel_queued r m' :
    st_jobs (store_view (mg_store m)) !! id = Some r -> sj_state r = kQueued ->
    st_jobs (store_view (mg_store m')) =
      <[id := with_state kCancelled r]> (st_jobs (store_view (mg_store m))) ->
    st_leases (store_view (mg_store m')) = st_leases (store_view (mg_store m)) ->
    mg_supervised m' = mg_supervised m -> mg_out m' = mg_out m ->
    cancel_step c id m (mkCancelOutcome CO_kCancelled (job_state_wire kCancelled) "") m'
| cancel_active r m' :
    st_jobs (store_view (mg_store m)) !! id = Some r -> sj_state r = kStarting \/ sj_state r = kRunning ->
    st_jobs (store_view (mg_store m')) =
      <[id := with_state kStopping r]> (st_jobs (store_view (mg_store m))) ->
    st_leases (store_view (mg_store m')) = st_leases (store_view (mg_store m)) ->
    stop_requested c id false m m' ->
    cancel_step c id m cancel_stopping m'
| cancel_again r m' :
    st_jobs (store_view (mg_store m)) !! id = Some r -> sj_state r = kStopping ->
    mg_store m' = mg_store m ->
    stop_requested c id false m m' ->
    cancel_step c id m cancel_stopping m'
| cancel_done r :
    st_jobs (store_view (mg_store m)) !! id = Some r -> sj_state r = kCancelled ->
    cancel_step c id m (mkCancelOutcome CO_kCancelled (job_state_wire kCancelled) "") m
| cancel_invalid r :
    st_jobs (store_view (mg_store m)) !! id = Some r ->
    sj_state r = kFinished \/ sj_state r = kFailed \/ sj_state r = kLost ->
    cancel_step c id m (mkCancelOutcome CO_kInvalidState (job_state_wire (sj_state r))
                        (JobState_to_string (sj_state r))) m.

(** The QUEUED case: the record and the queue entry go together. *)
Lemma cancel_queued_ok m m1 r :
  MgrOk m -> StoreOnly m m1 -> sj_state r = kQueued ->
  Rewritten (store_config (mg_store m)) (store_view (mg_store m)) (store_view (mg_store m1)) r
    (with_state kCancelled r) None ->
  exists res q, queue_remove (sj_id r) (mg_queue m1) = (res, q) /\ queue_ok res = true /\
    MgrOk {| m1 with mg_queue := q |}.
Proof.
  intros [[[Hinv Hok Hq Hag] Hroom Hsup Hpids Hact] Hc] Hso Hr Hrw.
  assert (entry_of r ∈ q_entries (mg_queue m)) as Hin.
  { apply Hag. exists r. split_and!; [apply (rw_record _ _ _ _ _ _ Hrw)|done..]. }
  rewrite (so_queue _ _ Hso).
  destruct (queue_remove_ok (mg_queue m) (sj_id r) Hq) as (res & i & e & Hrem & Hres & Hi & He & _).
  { by apply (list_elem_of_fmap_2 qe_job_id) in Hin. }
  assert (e = entry_of r) as ->.
  { pose proof (proj1 (Hag e) (list_elem_of_lookup_2 _ _ _ Hi)) as (r1 & Hr1 & _ & ->).
    rewrite He, (rw_record _ _ _ _ _ _ Hrw) in Hr1. congruence. }
  exists res, {| (mg_queue m) with q_entries := delete i (q_entries (mg_queue m)) |}.
  split_and!; [exact Hrem|done|]. split.
  - constructor; simpl.
    + constructor; simpl; [apply Hso|rewrite (so_config _ _ Hso); apply Hrw|by eapply delete_entry_ok|].
      eapply (queue_agrees_left _ _ _ _ (with_state kCancelled r)); try done. apply Hrw.
    + by rewrite (so_config _ _ Hso).
    + rewrite (so_supervised _ _ Hso), (so_pids _ _ Hso). intros id job Hjob.
      destruct (Hsup _ _ Hjob) as (r0 & Hr0 & Hs). exists r0.
      eapply (Rewritten_other _ _ _ _ _ _ _ _ _ _ _ Hok Hrw); try done. intros ->.
      rewrite (rw_record _ _ _ _ _ _ Hrw) in Hr0. injection Hr0 as <-. by destruct (su_launched _ _ _ _ _ Hs).
    + by rewrite (so_supervised _ _ Hso), (so_pids _ _ Hso).
    + by rewrite (so_supervised _ _ Hso), (so_active _ _ Hso).
  - intros id job r0. simpl. rewrite (so_supervised _ _ Hso), (rw_jobs _ _ _ _ _ _ Hrw). intros Hjob He0.
    destruct (Hsup _ _ Hjob) as (r1 & Hr1 & Hs). rewrite lookup_insert_ne; [by apply Hc|].
    intros <-. rewrite (rw_record _ _ _ _ _ _ Hrw) in Hr1. injection Hr1 as <-.
    by destruct (su_launched _ _ _ _ _ Hs).
Qed.

Lemma view_id m id r :
  MgrCore m -> st_jobs (store_view (mg_store m)) !! id = Some r -> sj_id r = id.
Proof.
  intros Hm Hr. exact (ro_id _ _ (map_Forall_lookup_1 _ _ _ _ (sto_jobs _ _ (sc_store _ _ (mk_sched _ Hm))) Hr)).
Qed.

(** [rewrite_job] under the invariant, on a record that is there. *)
Lemma rewrite_known admits id compose m r w m' :
  MgrCore m -> st_jobs (store_view (mg_store m)) !! id = Some r ->
  (forall x, sj_id (compose x).1 = sj_id x) ->
  rewrite_job admits id compose m = (w, m') ->
  StoreOnly m m' /\
  (if write_ok w
   then Rewritten (store_config (mg_store m)) (store_view (mg_store m)) (store_view (mg_store m'))
          r (compose r).1 (compose r).2
   else store_view (mg_store m') = store_view (mg_store m)).
Proof.
  intros Hm Hr Hc Hrun. pose proof (mk_sched _ Hm) as [Hinv Hok _ _].
  destruct (rewrite_job_spec _ _ _ _ _ _ Hinv Hok Hc Hrun) as [Hso Heff]. split; [done|].
  destruct (write_ok w); [|done]. destruct Heff as (r' & Hid & Hrw).
  pose proof (rw_record _ _ _ _ _ _ Hrw) as Hr'. rewrite Hid, Hr in Hr'. by injection Hr' as <-.
Qed.

Lemma compose_state_id state x : sj_id (compose_state state x).1 = sj_id x.
Proof. reflexivity. Qed.

(** Marking after STOPPING was stored restores the exact correspondence. *)
Lemma begin_cancellation_ok c id from_recovery m m1 r :
  MgrCore m1 -> mg_supervised m1 = mg_supervised m -> mg_out m1 = mg_out m -> cancelling_exact m ->
  st_jobs (store_view (mg_store m1)) !! id = Some r -> sj_state r = kStopping ->
  (forall id', id' <> id ->
     st_jobs (store_view (mg_store m1)) !! id' = st_jobs (store_view (mg_store m)) !! id') ->
  MgrOk (begin_cancellation c id from_recovery m1) /\
  mg_store (begin_cancellation c id from_recovery m1) = mg_store m1 /\
  stop_requested c id from_recovery m (begin_cancellation c id from_recovery m1).
Proof.
  intros Hm Hsup Hout Hc Hr Hst Hother. unfold stop_requested.
  destruct (begin_cancellation_spec c id from_recovery m1 Hm) as (Es & Eq & Ep & Et & Hcase).
  set (m2 := begin_cancellation _ _ _ _) in *. rewrite Hsup in Hcase.
  destruct (mg_supervised m !! id) as [job|] eqn:Hjob.
  - destruct Hcase as (job' & sup & sup' & out & Em & Hsame & Hask & Eout).
    pose proof (ask_marked _ _ _ _ _ _ _ _ Hask) as Hcan. split_and!; [split|done|].
    + eapply (replace_job m1 m2); try done; [by rewrite Hsup|by rewrite Et|by rewrite Em, Hsup].
    + intros id' job1 r1. rewrite Em, Es. destruct (decide (id' = id)) as [->|Hne].
      * rewrite lookup_insert_eq, Hr. intros [= <-] _ [= <-]. done.
      * rewrite lookup_insert_ne by done. rewrite (Hother _ Hne). apply Hc.
    + exists job', sup, sup', out. rewrite <- Hout. by split_and!.
  - rewrite Hcase. split; [split; [done|]|split; [done|split; congruence]].
    intros id' job1 r1. rewrite Hsup. intros Hj He. rewrite Hother; [by apply Hc|]. intros ->. congruence.
Qed.

Lemma process_cancel_step admits c id m out m' :
  MgrOk m -> process_cancel admits c id m = (out, m') -> MgrOk m' /\ cancel_step c id m out m'.
Proof.
  intros Hm. pose proof Hm as [Hcore Hc]. pose proof (mk_sched _ Hcore) as [Hinv Hok Hq Hag].
  unfold process_cancel. destruct (load_ok (store_load (mg_store m))) eqn:Hl; cbn [negb].
  2: { intros [= <- <-]. split; [done|]. by apply cancel_store_failed; [apply StoreOnly_refl|]. }
  rewrite (store_load_view _ Hinv Hl), (find_stored_view _ _ _ Hok).
  destruct (st_jobs (store_view (mg_store m)) !! id) as [r|] eqn:Hr.
  2: { intros [= <- <-]. split; [done|]. by apply cancel_not_found. }
  pose proof (view_id _ _ _ Hcore Hr) as Hid.
  assert (sj_state r = kStarting \/ sj_state r = kRunning ->
    (let '(write, m1) := rewrite_job admits id (compose_state kStopping) m in
     if negb (write_ok write) then (cancel_failed (wr_code write), m1)
     else (cancel_stopping, begin_cancellation c id false m1)) = (out, m') ->
    MgrOk m' /\ cancel_step c id m out m') as Hactive.
  { intros Hst. destruct (rewrite_job _ _ _ _) as [w m1] eqn:Hrun.
    destruct (rewrite_known _ _ _ _ _ _ _ Hcore Hr (compose_state_id _) Hrun) as [Hso Heff].
    destruct (write_ok w) eqn:Hw; cbn [negb]; intros [= <- <-].
    2: { split; [by eapply StoreOnly_unchanged|]. by apply cancel_store_failed. }
    pose proof (rw_jobs _ _ _ _ _ _ Heff) as Hjobs. rewrite Hid in Hjobs.
    destruct (begin_cancellation_ok c id false m m1 (with_state kStopping r)) as (Hm' & Es & Hmark).
    { eapply (rewritten_stopping m m1 r); try done. destruct Hst; congruence. } { apply Hso. } { apply Hso. } { done. }
    { by rewrite Hjobs, lookup_insert_eq. } { done. }
    { intros id' Hne. by rewrite Hjobs, lookup_insert_ne. }
    split; [done|]. eapply cancel_active; [done..| | |done]; rewrite Es; [done|apply Heff]. }
  destruct (sj_state r) eqn:Hst; try (by apply Hactive; auto).
  - destruct (rewrite_job admits id (compose_state kCancelled) m) as [w m1] eqn:Hrun.
    destruct (rewrite_known _ _ _ _ _ _ _ Hcore Hr (compose_state_id _) Hrun) as [Hso Heff].
    destruct (write_ok w) eqn:Hw; cbn [negb].
    2: { intros [= <- <-]. split; [by eapply StoreOnly_unchanged|]. by apply cancel_store_failed. }
    destruct (cancel_queued_ok _ _ _ Hm Hso Hst Heff) as (res & q & Hrem & Hres & Hm').
    rewrite Hid in Hrem. rewrite Hrem, Hres. cbn [negb andb]. intros [= <- <-].
    split; [by eapply MgrOk_same; [..|exact Hm']|].
    eapply cancel_queued; simpl; [done|done| | |apply Hso|apply Hso].
    + by rewrite (rw_jobs _ _ _ _ _ _ Heff), Hid.
    + apply Heff.
  - intros [= <- <-].
    destruct (begin_cancellation_ok c id false m m r Hcore eq_refl eq_refl Hc Hr Hst) as (Hm' & Es & Hmark); [done|].
    split; [done|]. by eapply cancel_again.
  - intros [= <- <-]. split; [done|]. pose proof (cancel_invalid c id m r Hr) as Hx. rewrite Hst in Hx. apply Hx. auto.
  - intros [= <- <-]. split; [done|]. pose proof (cancel_invalid c id m r Hr) as Hx. rewrite Hst in Hx. apply Hx. auto.
  - intros [= <- <-]. split; [done|]. by eapply cancel_done.
  - intros [= <- <-]. split; [done|]. pose proof (cancel_invalid c id m r Hr) as Hx. rewrite Hst in Hx. apply Hx. auto.
Qed.

(** ** Exits *)

(** After an exit the job has left the pid table, and its entry is gone or marked. *)
Lemma exit_frame m m' pid id job r r' :
  MgrOk m -> mg_by_pid m !! pid = Some id -> mg_supervised m !! id = Some job ->
  st_jobs (store_view (mg_store m)) !! id = Some r ->
  SchedOk (mg_queue m') (mg_store m') -> mg_queue m' = mg_queue m ->
  store_config (mg_store m') = store_config (mg_store m) ->
  st_jobs (store_view (mg_store m')) = <[id := r']> (st_jobs (store_view (mg_store m))) ->
  (forall g k, st_leases (store_view (mg_store m')) !! g = Some k ->
     st_leases (store_view (mg_store m)) !! g = Some k) ->
  xr_identity (sj_execution r') = xr_identity (sj_execution r) ->
  sj_state r' <> kQueued /\ sj_state r' <> kStarting ->
  mg_by_pid m' = delete pid (mg_by_pid m) ->
  (forall id', id' <> id -> mg_supervised m' !! id' = mg_supervised m !! id') ->
  (forall job', mg_supervised m' !! id = Some job' ->
     sv_id job' = sv_id job /\ sv_exited job' = true /\ sv_supervisor job' = sv_supervisor job) ->
  stat_active_supervised (mg_stats m') = msize (mg_supervised m') mod 2 ^ 64 -> MgrOk m'.
Proof.
  intros [[[Hinv Hok Hq Hag] Hroom Hsup Hpids Hact] Hc] Hpid Hjob Hr Hsc Eq Ec Ej Hsub Hx Hst Ep Hother Hself Ha.
  pose proof (sc_store _ _ Hsc) as Hok'. rewrite Ec in Hok'.
  assert (forall pid' id', pid' <> pid -> mg_by_pid m !! pid' = Some id' -> id' <> id) as Hdiff.
  { intros pid' id' Hne Hp ->. destruct (Hpids _ _ Hpid) as (j1 & s1 & E1 & _ & E2 & E3).
    destruct (Hpids _ _ Hp) as (j2 & s2 & F1 & _ & F2 & F3). congruence. }
  split; [constructor; [done|by rewrite Eq, Ec|..|done]|].
  - intros id' job1 Hj1. rewrite Ej, Ep. destruct (decide (id' = id)) as [->|Hne].
    + destruct (Hself _ Hj1) as (E1 & E2 & E3). exists r'. rewrite lookup_insert_eq. split; [done|].
      destruct (Hsup _ _ Hjob) as (r0 & Hr0 & [Hsid (sup & Hs & Hg & Hi) _ _]).
      rewrite Hr in Hr0. injection Hr0 as <-. constructor; [congruence| |done|congruence].
      exists sup. rewrite E3, Hx. done.
    + rewrite (Hother _ Hne) in Hj1. destruct (Hsup _ _ Hj1) as (r0 & Hr0 & Hs). exists r0.
      rewrite lookup_insert_ne by done. split; [done|].
      eapply (SupervisedOk_next _ _ _ (mg_by_pid m) _ _ _ r0 r0 Hok Hok'); try done;
        [by intros; apply Hsub|by rewrite Ej, lookup_insert_ne|by left|].
      intros Hp. rewrite lookup_delete_ne; [done|]. intros Heq. rewrite Heq in Hpid. congruence.
  - intros pid' id'. rewrite Ep. intros [Hne Hp]%lookup_delete_Some.
    destruct (Hpids _ _ Hp) as (j & sup & Hj & Hrest). exists j, sup. split; [|done].
    rewrite Hother; [done|]. by eapply Hdiff.
  - intros id' job1 r1 Hj1 He. rewrite Ej. destruct (decide (id' = id)) as [->|Hne].
    + destruct (Hself _ Hj1) as (_ & E2 & _). congruence.
    + rewrite lookup_insert_ne by done. rewrite (Hother _ Hne) in Hj1. by apply Hc.
Qed.

Lemma usub64_mod n : usub64 ((n + 1) mod 2 ^ 64) 1 = n mod 2 ^ 64.
Proof.
  unfold usub64, u64_max. change (2 ^ 64) with 18446744073709551616.
  pose proof (N.div_mod n 18446744073709551616 ltac:(done)) as E1.
  pose proof (N.mod_lt n 18446744073709551616 ltac:(done)) as L1.
  destruct (decide (n mod 18446744073709551616 = 18446744073709551615)) as [E|E].
  - replace ((n + 1) mod 18446744073709551616) with 0; [cbn; lia|].
    apply (N.mod_unique _ _ (n / 18446744073709551616 + 1)); lia.
  - replace ((n + 1) mod 18446744073709551616) with (n mod 18446744073709551616 + 1).
    2: { apply (N.mod_unique _ _ (n / 18446744073709551616)); lia. }
    rewrite (proj2 (N.leb_le 1 (n mod 18446744073709551616 + 1)) (N.le_add_l _ _)). apply N.add_sub.
Qed.

Lemma msize_delete_in {A} (t : gmap N A) k x : t !! k = Some x -> msize t = msize (delete k t) + 1.
Proof.
  intros Hk. rewrite <- (insert_delete_id t k x Hk) at 1. rewrite msize_insert_new; [done|].
  apply lookup_delete_eq.
Qed.

(** Erasing an entry keeps the count of supervised jobs. *)
Lemma drop_supervised_spec id job job' m :
  mg_supervised m !! id = Some job' ->
  stat_active_supervised (mg_stats m) = msize (mg_supervised m) mod 2 ^ 64 ->
  let m' := drop_supervised id job m in
  mg_store m' = mg_store m /\ mg_queue m' = mg_queue m /\ mg_by_pid m' = mg_by_pid m /\
  mg_wakes m' = mg_wakes m /\ mg_supervised m' = delete id (mg_supervised m) /\
  stat_active_supervised (mg_stats m') = msize (mg_supervised m') mod 2 ^ 64.
Proof.
  intros Hjob Ha. unfold drop_supervised, disarm_grace.
  assert (usub64 (stat_active_supervised (mg_stats m)) 1 = msize (delete id (mg_supervised m)) mod 2 ^ 64) as Hd.
  { rewrite Ha, (msize_delete_in _ _ _ Hjob). apply usub64_mod. }
  destruct (sv_grace job) as [[]|]; simpl; destruct (sv_supervisor job); simpl; done.
Qed.

Lemma disarm_grace_spec id job m :
  let '(job', m') := disarm_grace id job m in
  same_job job job' /\ sv_cancelling job' = sv_cancelling job /\ sv_supervisor job' = sv_supervisor job /\
  mg_store m' = mg_store m /\ mg_queue m' = mg_queue m /\
  mg_by_pid m' = mg_by_pid m /\ mg_wakes m' = mg_wakes m /\ mg_supervised m' = mg_supervised m /\
  mg_stats m' = mg_stats m.
Proof.
  unfold disarm_grace. destruct (sv_grace job) as [armed|]; [|split_and!; try done; constructor; eauto].
  destruct armed; (split_and!; try done; constructor; eauto).
Qed.

(** The record an exit leaves: the terminal state of [exit_verdict], the status
    when it is known, the end time and the reason. *)
Definition exit_record (now : Z) (cancelling : bool) (event : ExitEvent) (r : StoredJob) : StoredJob :=
  let '(terminal, reason) := exit_verdict cancelling event in
  let x := sj_execution r in
  mkStored (sj_id r) (sj_spec r) terminal (sj_revision r + 1)
    (mkExecution (xr_identity x) (xr_start_time x) (Some now)
       (if xe_identity_verified event then Some (xe_status event) else xr_exit x) reason (xr_log_path x)).

Lemma compose_exit_id now terminal reason event uuid x :
  sj_id (compose_exit now terminal reason event uuid x).1 = sj_id x.
Proof. unfold compose_exit. by destruct (is_terminal (sj_state x)). Qed.

Lemma exit_verdict_terminal cancelling event : is_terminal (exit_verdict cancelling event).1 = true.
Proof. unfold exit_verdict. repeat case_match; done. Qed.

Lemma terminal_left s : is_terminal s = true -> s <> kQueued /\ s <> kStarting.
Proof. by destruct s. Qed.

(** What handling an exit stores: the terminal record and the release of the
    lease together, or nothing. *)
Definition exit_stored (now : Z) (event : ExitEvent) (job : SupervisedJob) (r : StoredJob)
    (st st' : StoreState) : Prop :=
  st_jobs st' = <[sj_id r := exit_record now (sv_cancelling job) event r]> (st_jobs st) /\
  st_leases st' = delete (sv_leased_gpu job) (st_leases st).

Lemma settle_exit_spec id job0 job state exit m :
  mg_supervised m !! id = Some job0 ->
  stat_active_supervised (mg_stats m) = msize (mg_supervised m) mod 2 ^ 64 ->
  let m' := settle_exit id job state exit m in
  mg_store m' = mg_store m /\ mg_queue m' = mg_queue m /\ mg_by_pid m' = mg_by_pid m /\
  mg_wakes m' = mg_wakes m /\
  stat_active_supervised (mg_stats m') = msize (mg_supervised m') mod 2 ^ 64 /\
  (forall id', id' <> id -> mg_supervised m' !! id' = mg_supervised m !! id') /\
  mg_supervised m' !! id =
    (if sv_adopted job || sv_pump_done job then None else Some (exited_job state exit job)).
Proof.
  intros Hjob Ha. unfold settle_exit. destruct (sv_adopted job || sv_pump_done job).
  - destruct (drop_supervised_spec id job job0 (emit (OutFinish id state exit) m) Hjob Ha)
      as (E1 & E2 & E3 & E4 & E5 & E6). rewrite E5. split_and!; try done.
    + by rewrite <- E5.
    + intros id' Hne. by rewrite lookup_delete_ne.
    + apply lookup_delete_eq.
  - split_and!; simpl; try done.
    + by rewrite msize_insert_old.
    + intros id' Hne. by rewrite lookup_insert_ne.
    + apply lookup_insert_eq.
Qed.

(** What the write of an exit does. *)
Lemma exit_write admits now event m id job r w m' :
  MgrOk m -> st_jobs (store_view (mg_store m)) !! id = Some r ->
  sj_state r = kRunning \/ sj_state r = kStopping ->
  let '(terminal, reason) := exit_verdict (sv_cancelling job) event in
  rewrite_job admits id (compose_exit now terminal reason event (sv_leased_gpu job)) m = (w, m') ->
  StoreOnly m m' /\ SchedOk (mg_queue m') (mg_store m') /\
  (if write_ok w
   then exit_stored now event job r (store_view (mg_store m)) (store_view (mg_store m'))
   else store_view (mg_store m') = store_view (mg_store m)) /\
  exists r', xr_identity (sj_execution r') = xr_identity (sj_execution r) /\
    (sj_state r' <> kQueued /\ sj_state r' <> kStarting) /\
    st_jobs (store_view (mg_store m')) = <[id := r']> (st_jobs (store_view (mg_store m))) /\
    (forall g k, st_leases (store_view (mg_store m')) !! g = Some k ->
       st_leases (store_view (mg_store m)) !! g = Some k).
Proof.
  intros Hm Hr Hstate. pose proof (exit_verdict_terminal (sv_cancelling job) event) as Hterm.
  pose proof (view_id _ _ _ (proj1 Hm) Hr) as Hid. unfold exit_stored. set (u := exit_record _ _ _ _).
  assert (u = exit_record now (sv_cancelling job) event r) as Hu by done. unfold exit_record in Hu.
  destruct (exit_verdict (sv_cancelling job) event) as [terminal reason]. cbn [fst] in Hterm. intros Hrun.
  destruct (rewrite_known _ _ _ _ _ _ _ (proj1 Hm) Hr (compose_exit_id _ _ _ _ _) Hrun) as [Hso Heff].
  assert (compose_exit now terminal reason event (sv_leased_gpu job) r = (u, Some (sv_leased_gpu job))) as Hcomp.
  { unfold compose_exit. destruct Hstate as [Hs|Hs]; rewrite Hs, Hu; done. }
  rewrite Hcomp in Heff. cbn [fst snd] in Heff. split; [done|]. destruct (write_ok w).
  - pose proof (rw_jobs _ _ _ _ _ _ Heff) as Hj. rewrite Hid in *. split_and!; [|done|apply Heff|].
    + eapply rewritten_sched; [apply Hm|done|exact Heff|]. destruct Hstate; congruence.
    + exists u. rewrite Hu at 1. split_and!; [done|by apply terminal_left; rewrite Hu..|done|].
      intros g k. by eapply Rewritten_leases.
  - split_and!; [|done|].
    + apply (mk_sched m'). by eapply StoreOnly_unchanged.
    + exists r. rewrite Heff. split_and!; [done|destruct Hstate; congruence..| |done]. by rewrite insert_id.
Qed.

(** The [Compose] of an exit of this job *)
Definition exit_compose (now : Z) (event : ExitEvent) (job : SupervisedJob) : Compose :=
  let '(terminal, reason) := exit_verdict (sv_cancelling job) event in
  compose_exit now terminal reason event (sv_leased_gpu job).

(** The live job a known pid stands for. *)
Lemma live_job m pid id :
  MgrOk m -> mg_by_pid m !! pid = Some id ->
  exists job r, mg_supervised m !! id = Some job /\ sv_exited job = false /\
    st_jobs (store_view (mg_store m)) !! id = Some r /\
    (sj_state r = kRunning \/ sj_state r = kStopping) /\
    (sv_cancelling job = true <-> sj_state r = kStopping) /\
    pi_pid (xr_identity (sj_execution r)) = pid.
Proof.
  intros [Hcore Hc] Hpid. destruct (mk_pids _ Hcore _ _ Hpid) as (job & sup & Hjob & Hex & Hsup & Hsp).
  destruct (mk_supervised _ Hcore _ _ Hjob) as (r & Hr & Hs). exists job, r.
  destruct (su_live _ _ _ _ _ Hs Hex) as (Hlease & _). pose proof (su_launched _ _ _ _ _ Hs) as [Hnq Hns].
  destruct (su_process _ _ _ _ _ Hs) as (sup' & Hsup' & _ & Hi').
  split_and!; try done; [destruct (sj_state r); auto; done|exact (Hc _ _ _ Hjob Hex Hr)|congruence].
Qed.

Lemma process_exit_spec admits now event m id job r :
  MgrOk m -> mg_by_pid m !! xe_pid event = Some id -> mg_supervised m !! id = Some job ->
  st_jobs (store_view (mg_store m)) !! id = Some r ->
  let m' := process_exit admits now event m in
  MgrOk m' /\ mg_by_pid m' = delete (xe_pid event) (mg_by_pid m) /\
  mg_wakes m' = mg_wakes m ++ [ST_kJobExited] /\
  (mg_supervised m' !! id = None \/
   exists job', mg_supervised m' !! id = Some job' /\ sv_exited job' = true /\ sv_pump_done job' = false) /\
  exists w m1 m2, mg_store m1 = mg_store m /\
    rewrite_job admits id (exit_compose now event job) m1 = (w, m2) /\
    (if write_ok w
     then exit_stored now event job r (store_view (mg_store m)) (store_view (mg_store m'))
     else store_view (mg_store m') = store_view (mg_store m)).
Proof.
  intros Hm Hpid Hjob Hr. destruct (live_job _ _ _ Hm Hpid) as (job0 & r0 & Hj0 & Hex & Hr0 & Hstate & _ & _).
  rewrite Hjob in Hj0. injection Hj0 as <-. rewrite Hr in Hr0. injection Hr0 as <-.
  unfold process_exit. rewrite Hpid, Hjob.
  pose proof (disarm_grace_spec id job m) as Hdis. destruct (disarm_grace id job m) as [job1 m1].
  destruct Hdis as (Hsame & Ecan & Esv & Es1 & Eq1 & Ep1 & Ew1 & Em1 & Et1). rewrite Ecan.
  assert (MgrOk m1) as Hm1 by (by eapply MgrOk_same; [..|exact Hm]; rewrite ?Et1).
  pose proof (fun w m' => exit_write admits now event m1 id job r w m' Hm1 ltac:(by rewrite Es1) Hstate) as Hw.
  rewrite Es1 in Hw. unfold exit_compose. rewrite (sm_gpu _ _ Hsame).
  destruct (exit_verdict (sv_cancelling job) event) as [terminal reason].
  destruct (rewrite_job _ _ _ _) as [w m2] eqn:Hrun.
  destruct (Hw _ _ eq_refl) as (Hso & Hsc & Heff & r' & Hx' & Hst' & Hj' & Hl'). clear Hw.
  set (m3 := bump _ m2). set (exit_info := if xe_identity_verified event then _ else None).
  assert (mg_supervised m3 = mg_supervised m) as F3 by (unfold m3; simpl; rewrite (so_supervised _ _ Hso); done).
  assert (stat_active_supervised (mg_stats m3) = msize (mg_supervised m3) mod 2 ^ 64) as F6.
  { rewrite F3. transitivity (stat_active_supervised (mg_stats m2)); [unfold m3; repeat case_match; done|].
    rewrite (so_active _ _ Hso), Et1. apply (mk_active _ (proj1 Hm)). }
  assert (mg_supervised m3 !! id = Some job) as Hj3 by (by rewrite F3).
  destruct (settle_exit_spec id job job1 (job_state_wire terminal) exit_info m3 Hj3 F6)
    as (G1 & G2 & G3 & G4 & G5 & G6 & G7).
  set (m4 := settle_exit _ _ _ _ _) in *.
  assert (mg_store m4 = mg_store m2) as E4 by (by rewrite G1).
  assert (mg_queue m4 = mg_queue m) as E5 by (rewrite G2; unfold m3; simpl; rewrite (so_queue _ _ Hso); done).
  assert (mg_by_pid m4 = mg_by_pid m) as E6 by (rewrite G3; unfold m3; simpl; rewrite (so_pids _ _ Hso); done).
  split_and!; simpl.
  - eapply (exit_frame m _ (xe_pid event) id job r r'); simpl; rewrite ?E4, ?E6; try done.
    + rewrite E5, <- Eq1, <- (so_queue _ _ Hso). done.
    + by rewrite (so_config _ _ Hso), Es1.
    + intros id' Hne. by rewrite (G6 _ Hne), F3.
    + rewrite G7. intros job'. destruct (_ || _); [done|]. intros [= <-]. split_and!; [apply Hsame|done..].
  - by rewrite E6.
  - rewrite G4. unfold m3. simpl. by rewrite (so_wakes _ _ Hso), Ew1.
  - rewrite G7. destruct (sv_adopted job1 || sv_pump_done job1) eqn:Ho; [by left|]. right.
    eexists. split_and!; [done..|]. simpl. by apply orb_false_iff in Ho as [_ ?].
  - exists w, m1, m2. rewrite E4. done.
Qed.

Lemma process_exit_ok admits now event m : MgrOk m -> MgrOk (process_exit admits now event m).
Proof.
  intros Hm. destruct (mg_by_pid m !! xe_pid event) as [id|] eqn:Hpid.
  - destruct (live_job _ _ _ Hm Hpid) as (job & r & Hjob & _ & Hr & _).
    by eapply process_exit_spec.
  - unfold process_exit. by rewrite Hpid.
Qed.

(** ** Log completion and the grace timer *)

Lemma process_pump_done_ok id m : MgrOk m -> MgrOk (process_pump_done id m).
Proof.
  intros Hm. unfold process_pump_done. destruct (mg_supervised m !! id) as [job|] eqn:Hjob; [|done].
  set (job' := {| job with sv_pump_done := true |}).
  set (m1 := {| m with mg_supervised := <[id := job']> (mg_supervised m) |}). cbn zeta.
  assert (forall m2, mg_store m2 = mg_store m -> mg_queue m2 = mg_queue m -> mg_by_pid m2 = mg_by_pid m ->
    stat_active_supervised (mg_stats m2) = msize (mg_supervised m2) mod 2 ^ 64 ->
    (forall id', id' <> id -> mg_supervised m2 !! id' = mg_supervised m !! id') ->
    (mg_supervised m2 !! id = Some job' \/ mg_supervised m2 !! id = None /\ sv_exited job = true) ->
    MgrOk m2) as Hgen.
  { destruct Hm as [[Hsc Hroom Hsup Hpids Hact] Hc]. intros m2 E1 E2 E3 E4 Hother Hself.
    assert (forall id' j, mg_supervised m2 !! id' = Some j -> exists j0, mg_supervised m !! id' = Some j0 /\
      sv_id j = sv_id j0 /\ sv_supervisor j = sv_supervisor j0 /\ sv_exited j = sv_exited j0 /\
      sv_leased_gpu j = sv_leased_gpu j0 /\ sv_cancelling j = sv_cancelling j0) as Hback.
    { intros id' j Hj. destruct (decide (id' = id)) as [->|Hne].
      - exists job. destruct Hself as [Hs|[Hs _]]; [|congruence]. rewrite Hs in Hj. by injection Hj as <-.
      - rewrite (Hother _ Hne) in Hj. by exists j. }
    split; [constructor; rewrite ?E1, ?E2, ?E3; try done|].
    - intros id' j Hj. destruct (Hback _ _ Hj) as (j0 & Hj0 & A1 & A2 & A3 & A4 & _).
      destruct (Hsup _ _ Hj0) as (r & Hr & []). exists r. split; [done|].
      constructor; rewrite ?A1, ?A2, ?A3, ?A4; done.
    - intros pid id' Hp. destruct (Hpids _ _ Hp) as (j & sup & Hj & He & Hrest).
      destruct (decide (id' = id)) as [->|Hne].
      + rewrite Hjob in Hj. injection Hj as <-. exists job', sup.
        destruct Hself as [Hs|[_ Hs]]; [done|congruence].
      + exists j, sup. by rewrite (Hother _ Hne).
    - intros id' j r Hj He Hr. destruct (Hback _ _ Hj) as (j0 & Hj0 & _ & _ & A3 & _ & A5).
      rewrite A5. rewrite A3 in He. rewrite E1 in Hr. by apply (Hc id'). }
  assert (stat_active_supervised (mg_stats m1) = msize (mg_supervised m1) mod 2 ^ 64) as Ha1
    by (unfold m1; simpl; rewrite msize_insert_old by done; apply Hm).
  assert (mg_supervised m1 !! id = Some job') as Hj1 by (apply lookup_insert_eq).
  destruct (sv_exited job) eqn:He.
  - destruct (drop_supervised_spec id job' job' (emit (OutFinish id (sv_terminal_state job) (sv_terminal_exit job)) m1)
      Hj1 Ha1) as (E1 & E2 & E3 & E4 & E5 & E6).
    apply Hgen; try done; rewrite E5.
    + intros id' Hne. rewrite lookup_delete_ne by done. unfold m1. simpl. by rewrite lookup_insert_ne.
    + right. split; [apply lookup_delete_eq|done].
  - apply Hgen; try done; [|by left]. intros id' Hne. unfold m1. simpl. by rewrite lookup_insert_ne.
Qed.

Lemma grace_fire_ok now kill id m : MgrOk m -> MgrOk (grace_fire now kill id m).
Proof.
  intros Hm. unfold grace_fire. repeat case_match; try done. by eapply MgrOk_same; [..|exact Hm].
Qed.

(** ** Launch *)

(** The record of a failed launch *)
Definition failed_record (now : Z) (reason : string) (r : StoredJob) : StoredJob :=
  let x := sj_execution r in
  mkStored (sj_id r) (sj_spec r) kFailed (sj_revision r + 1)
    (mkExecution (xr_identity x) (xr_start_time x) (Some now) (xr_exit x)
       (Some (String.substring 0 (N.to_nat kMaxFailureReasonBytes) reason)) (xr_log_path x)).

(** The record of a launched job *)
Definition running_record (now : Z) (identity : ProcessIdentity) (directory : string) (r : StoredJob)
  : StoredJob :=
  let x := sj_execution r in
  mkStored (sj_id r) (sj_spec r) kRunning (sj_revision r + 1)
    (mkExecution identity (Some now) (xr_end_time x) (xr_exit x) (xr_failure_reason x) (Some directory)).

(** The store after a failed launch of [r]: FAILED with the lease released, or
    as it was when the write itself was refused. *)
Definition failure_stored (uuid : GpuUuid) (r : StoredJob) (st st' : StoreState) : Prop :=
  st' = st \/
  (exists now reason, st_jobs st' = <[sj_id r := failed_record now reason r]> (st_jobs st)) /\
  st_leases st' = delete uuid (st_leases st).

Lemma compose_failed_id now reason uuid x : sj_id (compose_failed now reason uuid x).1 = sj_id x.
Proof. unfold compose_failed. by destruct (is_terminal (sj_state x)). Qed.

Lemma fail_launch_spec admits now id uuid reason m r :
  MgrOk m -> mg_supervised m !! id = None -> st_jobs (store_view (mg_store m)) !! id = Some r ->
  sj_state r = kStarting \/ sj_state r = kRunning ->
  let m' := fail_launch admits now id uuid reason m in
  MgrOk m' /\ mg_supervised m' = mg_supervised m /\ mg_by_pid m' = mg_by_pid m /\
  mg_wakes m' = mg_wakes m /\
  mg_out m' = mg_out m ++ [OutFinish id (job_state_wire kFailed) None] /\
  failure_stored uuid r (store_view (mg_store m)) (store_view (mg_store m')).
Proof.
  intros Hm Hnone Hr Hst. unfold fail_launch.
  assert (MgrOk (bump inc_launch_failures m)) as Hm1 by (by eapply MgrOk_same; [..|exact Hm]).
  destruct (rewrite_job _ _ _ _) as [w m2] eqn:Hrun.
  destruct (rewrite_known _ _ _ _ r _ _ (proj1 Hm1) Hr (compose_failed_id _ _ _) Hrun) as [Hso Heff].
  assert (compose_failed now reason uuid r = (failed_record now reason r, Some uuid)) as Hcomp.
  { unfold compose_failed. destruct Hst as [Hst|Hst]; by rewrite Hst. }
  rewrite Hcomp in Heff. cbn [fst snd] in Heff.
  assert (MgrOk m2 /\ failure_stored uuid r (store_view (mg_store m)) (store_view (mg_store m2))) as [Hm2 Hfs].
  { destruct (write_ok w).
    - split.
      + eapply (rewritten_unsupervised _ m2 r _ _ Hm1 Hso Heff); [destruct Hst; congruence|].
        by rewrite (view_id _ _ _ (proj1 Hm) Hr).
      + right. split; [eexists _, _; apply Heff|apply Heff].
    - split; [by eapply StoreOnly_unchanged|by left]. }
  destruct (write_ok w); cbn [negb]; (split_and!; [by eapply MgrOk_same; [..|exact Hm2]|..|done]); simpl;
    try apply Hso; by rewrite (so_out _ _ Hso).
Qed.

(** A spawned process is under control: its group is signalled. *)
Definition killed (identity : ProcessIdentity) (out : list Output) : Prop :=
  OutSignal (mkKill (- pi_pgid identity) SIGKILL) ∈ out /\ OutSignal (mkKill (pi_pid identity) SIGKILL) ∈ out.

Lemma spawn_new_ok check answer grace identity sup :
  spawn check answer (new_supervisor grace) = (Ok identity, sup) ->
  answer = Ok identity /\ sp_phase sup = PH_kRunning /\ sp_identity sup = identity.
Proof. unfold spawn. simpl. repeat case_match; naive_solver. Qed.

Lemma destroy_kills sup identity l l' :
  sp_phase sup = PH_kRunning -> sp_identity sup = identity ->
  killed identity ((l ++ (OutSignal <$> destroy sup)) ++ l').
Proof.
  intros Hp <-. unfold destroy, killed. rewrite Hp. simpl. rewrite !elem_of_app, !elem_of_cons. naive_solver.
Qed.

(** What a launch does to a STARTING job. *)
Inductive launch_step (config : JobManagerConfig) (a : LaunchAnswers) (id : N) (uuid : GpuUuid)
    (r : StoredJob) m : Manager S -> Prop :=
| launch_unread m' :
    mg_store m' = mg_store m -> mg_supervised m' = mg_supervised m -> mg_by_pid m' = mg_by_pid m ->
    mg_out m' = mg_out m -> launch_step config a id uuid r m m'
| launch_running identity plan directory m' :
    la_spawn a = Ok identity ->
    prepare_launch a (jc_log_root config) id uuid (sj_spec r) = Ok (plan, directory) ->
    st_jobs (store_view (mg_store m')) =
      <[id := running_record (la_started_at a) identity directory r]> (st_jobs (store_view (mg_store m))) ->
    st_leases (store_view (mg_store m')) = st_leases (store_view (mg_store m)) ->
    (exists sup, mg_supervised m' =
       <[id := mkSupervised id uuid (Some sup) None false false false false 0 None]> (mg_supervised m) /\
       sp_phase sup = PH_kRunning /\ sp_identity sup = identity) ->
    mg_by_pid m' = <[pi_pid identity := id]> (mg_by_pid m) ->
    mg_out m' = mg_out m ++ [OutRegister id; OutSpawn plan; OutMonitor (pi_pid identity)] ->
    launch_step config a id uuid r m m'
| launch_failed m' :
    mg_supervised m' = mg_supervised m -> mg_by_pid m' = mg_by_pid m ->
    (failure_stored uuid r (store_view (mg_store m)) (store_view (mg_store m')) \/
     exists identity directory st,
       la_spawn a = Ok identity /\
       st_jobs st = <[id := running_record (la_started_at a) identity directory r]>
                      (st_jobs (store_view (mg_store m))) /\
       st_leases st = st_leases (store_view (mg_store m)) /\
       failure_stored uuid (running_record (la_started_at a) identity directory r) st
         (store_view (mg_store m'))) ->
    (forall identity sup plan directory,
       prepare_launch a (jc_log_root config) id uuid (sj_spec r) = Ok (plan, directory) ->
       spawn (plan_message plan) (la_spawn a) (new_supervisor (jc_cancel_grace config)) = (Ok identity, sup) ->
       killed identity (mg_out m')) ->
    launch_step config a id uuid r m m'.

Lemma starting_unsupervised m id r :
  MgrCore m -> st_jobs (store_view (mg_store m)) !! id = Some r -> sj_state r = kStarting ->
  mg_supervised m !! id = None.
Proof.
  intros Hm Hr Hst. destruct (mg_supervised m !! id) as [job|] eqn:Hjob; [|done].
  destruct (mk_supervised _ Hm _ _ Hjob) as (r0 & Hr0 & Hs). rewrite Hr in Hr0. injection Hr0 as <-.
  by destruct (su_launched _ _ _ _ _ Hs).
Qed.

(** A RUNNING job that holds its lease enters the table. *)
Lemma supervise_ok m m' id job r l :
  MgrOk m -> mg_supervised m !! id = None -> mg_by_pid m !! pi_pid (xr_identity (sj_execution r)) = None ->
  st_jobs (store_view (mg_store m)) !! id = Some r -> SupervisedOk (store_view (mg_store m)) (mg_by_pid m') id job r ->
  sv_exited job = false -> (sv_cancelling job = true <-> sj_state r = kStopping) ->
  st_leases (store_view (mg_store m)) !! sv_leased_gpu job = Some l -> lease_job_id l = id ->
  mg_store m' = mg_store m -> mg_queue m' = mg_queue m ->
  mg_supervised m' = <[id := job]> (mg_supervised m) ->
  mg_by_pid m' = <[pi_pid (xr_identity (sj_execution r)) := id]> (mg_by_pid m) ->
  stat_active_supervised (mg_stats m') = uadd64 (stat_active_supervised (mg_stats m)) 1 -> MgrOk m'.
Proof.
  intros [[Hsc Hroom Hsup Hpids Hact] Hc] Hnone Hfresh Hr Hs He Hcan Hl Hlid Es Eq Em Ep Ea.
  split; [constructor; rewrite ?Es, ?Eq; try done|].
  - intros id' job1. rewrite Em. intros [[<- <-]|[Hne Hj]]%lookup_insert_Some; [by exists r|].
    destruct (Hsup _ _ Hj) as (r0 & Hr0 & [A1 A2 A3 A4]). exists r0. split; [done|]. constructor; try done.
    intros He1. destruct (A4 He1) as (B1 & B2 & B3). split_and!; try done. rewrite Ep, lookup_insert_ne; [done|].
    intros Heq. rewrite Heq in Hfresh. congruence.
  - intros pid id'. rewrite Ep, Em. intros [[<- <-]|[Hne Hp]]%lookup_insert_Some.
    + destruct (su_process _ _ _ _ _ Hs) as (sup & B1 & _ & B2). exists job, sup.
      rewrite lookup_insert_eq, B2. done.
    + destruct (Hpids _ _ Hp) as (j & sup & Hj & Hrest). exists j, sup. rewrite lookup_insert_ne; [done|].
      intros <-. congruence.
  - rewrite Ea, Em, msize_insert_new by done. rewrite Hact. unfold uadd64.
    change (u64_max + 1) with (2 ^ 64). apply N.Div0.add_mod_idemp_l.
  - intros id' job1 r1. rewrite Em, Es. intros [[<- <-]|[Hne Hj]]%lookup_insert_Some He1 Hr1.
    + rewrite Hr in Hr1. by injection Hr1 as <-.
    + by apply (Hc id').
Qed.

Lemma emit_ok o m : MgrOk m -> MgrOk (emit o m).
Proof. intros Hm. by eapply MgrOk_same; [..|exact Hm]. Qed.

Lemma emit_signals_ok k m : MgrOk m -> MgrOk (emit_signals k m).
Proof. intros Hm. by eapply MgrOk_same; [..|exact Hm]. Qed.

Lemma bump_ok f m :
  (forall x, stat_active_supervised (f x) = stat_active_supervised x) -> MgrOk m -> MgrOk (bump f m).
Proof. intros Hf Hm. eapply MgrOk_same; [..|exact Hm]; try done. apply Hf. Qed.

Lemma compose_running_id now identity directory x : sj_id (compose_running now identity directory x).1 = sj_id x.
Proof. reflexivity. Qed.

(** A failed launch before RUNNING was stored. *)
Lemma fail_starting config a id uuid r m m1 reason :
  MgrOk m -> st_jobs (store_view (mg_store m)) !! id = Some r -> sj_state r = kStarting ->
  MgrOk m1 -> store_view (mg_store m1) = store_view (mg_store m) ->
  mg_supervised m1 = mg_supervised m -> mg_by_pid m1 = mg_by_pid m ->
  (forall identity sup plan directory,
     prepare_launch a (jc_log_root config) id uuid (sj_spec r) = Ok (plan, directory) ->
     spawn (plan_message plan) (la_spawn a) (new_supervisor (jc_cancel_grace config)) = (Ok identity, sup) ->
     forall tail, killed identity (mg_out m1 ++ tail)) ->
  let m' := fail_launch (la_failed_admits a) (la_failed_at a) id uuid reason m1 in
  MgrOk m' /\ launch_step config a id uuid r m m'.
Proof.
  intros Hm Hr Hst Hm1 E1 E2 E3 Hk. pose proof (starting_unsupervised _ _ _ (proj1 Hm) Hr Hst) as Hnone.
  destruct (fail_launch_spec (la_failed_admits a) (la_failed_at a) id uuid reason m1 r)
    as (F1 & F2 & F3 & F4 & F5 & F6); [done|by rewrite E2|by rewrite E1|by left|].
  split; [done|]. apply launch_failed; [congruence..| |].
  - left. by rewrite <- E1.
  - intros identity sup plan directory Hp Hs. rewrite F5. by eapply Hk.
Qed.

(** A failed launch after RUNNING was stored. *)
Lemma fail_running config a id uuid r m m1 reason identity directory :
  MgrOk m1 -> mg_supervised m !! id = None -> la_spawn a = Ok identity -> sj_id r = id ->
  st_jobs (store_view (mg_store m1)) =
    <[id := running_record (la_started_at a) identity directory r]> (st_jobs (store_view (mg_store m))) ->
  st_leases (store_view (mg_store m1)) = st_leases (store_view (mg_store m)) ->
  mg_supervised m1 = mg_supervised m -> mg_by_pid m1 = mg_by_pid m ->
  (forall identity', la_spawn a = Ok identity' -> forall tail, killed identity' (mg_out m1 ++ tail)) ->
  let m' := fail_launch (la_failed_admits a) (la_failed_at a) id uuid reason m1 in
  MgrOk m' /\ launch_step config a id uuid r m m'.
Proof.
  intros Hm1 Hnone Hans Hid Ej El E2 E3 Hk. set (u := running_record _ _ _ _) in Ej.
  destruct (fail_launch_spec (la_failed_admits a) (la_failed_at a) id uuid reason m1 u)
    as (F1 & F2 & F3 & F4 & F5 & F6); [done|by rewrite E2|by rewrite Ej, lookup_insert_eq|by right|].
  split; [done|]. apply launch_failed; [congruence..| |].
  - right. by exists identity, directory, (store_view (mg_store m1)).
  - intros identity' sup plan dir _ Hs. apply spawn_new_ok in Hs as [Ha _]. rewrite F5. by apply Hk.
Qed.

Lemma launch_spawned_step config a id uuid r l m plan directory identity sup :
  MgrOk m -> st_jobs (store_view (mg_store m)) !! id = Some r -> sj_state r = kStarting ->
  st_leases (store_view (mg_store m)) !! uuid = Some l -> lease_job_id l = id ->
  mg_by_pid m !! pi_pid identity = None ->
  prepare_launch a (jc_log_root config) id uuid (sj_spec r) = Ok (plan, directory) ->
  spawn (plan_message plan) (la_spawn a) (new_supervisor (jc_cancel_grace config)) = (Ok identity, sup) ->
  let m' := launch_spawned a id uuid directory identity sup (emit (OutSpawn plan) (emit (OutRegister id) m)) in
  MgrOk m' /\ launch_step config a id uuid r m m'.
Proof.
  intros Hm Hr Hst Hl Hlid Hfresh Hprep Hspawn.
  destruct (spawn_new_ok _ _ _ _ _ Hspawn) as (Hans & Hph & Hsid).
  pose proof (starting_unsupervised _ _ _ (proj1 Hm) Hr Hst) as Hnone.
  pose proof (view_id _ _ _ (proj1 Hm) Hr) as Hid. pose proof (emit_ok (OutSpawn plan) _ (emit_ok (OutRegister id) _ Hm)) as Hm0.
  unfold launch_spawned. destruct (rewrite_job _ _ _ _) as [w m1] eqn:Hrun.
  destruct (rewrite_known _ _ _ _ r _ _ (proj1 Hm0) Hr (compose_running_id _ _ _) Hrun) as [Hso Heff].
  destruct (write_ok w); cbn [negb].
  2: { apply fail_starting; try done; [|apply Hso..|].
       - by apply emit_signals_ok, emit_ok, (StoreOnly_unchanged _ _ Hso Heff).
       - intros identity' sup' plan' dir Hp' Hs tail. rewrite Hprep in Hp'. injection Hp' as <- <-.
         rewrite Hspawn in Hs. injection Hs as <- <-.
         by apply destroy_kills. }
  assert (MgrOk m1) as Hm1.
  { eapply (rewritten_unsupervised _ m1 r _ _ Hm0 Hso Heff); [congruence|]. by rewrite Hid. }
  pose proof (rw_jobs _ _ _ _ _ _ Heff) as Ej. rewrite Hid in Ej.
  pose proof (rw_leases _ _ _ _ _ _ Heff) as El.
  destruct (la_monitor a); cbn [negb].
  2: { eapply (fail_running _ _ _ _ _ _ _ _ identity directory); try done; try apply Hso.
       - by apply emit_signals_ok, emit_ok.
       - intros i Hi tail. rewrite Hans in Hi. injection Hi as <-. by apply destroy_kills. }
  destruct (la_attach a); cbn [negb].
  2: { eapply (fail_running _ _ _ _ _ _ _ _ identity directory); try done; try apply Hso.
       - by repeat first [apply emit_signals_ok|apply emit_ok].
       - intros i Hi tail. rewrite Hans in Hi. injection Hi as <-. by apply destroy_kills. }
  set (job := mkSupervised id uuid (Some sup) None false false false false 0 None).
  set (u := running_record (la_started_at a) identity directory r).
  assert (st_jobs (store_view (mg_store m1)) !! id = Some u) as Hu by (by rewrite Ej, lookup_insert_eq).
  split.
  - eapply (supervise_ok m1 _ id job u l); simpl; try done.
    + by rewrite (so_supervised _ _ Hso).
    + by rewrite (so_pids _ _ Hso).
    + constructor; simpl; try done; [by exists sup; rewrite Hph|]. intros _. rewrite lookup_insert_eq.
      split_and!; [done..|]. exists l. by rewrite El.
    + by rewrite El.
  - eapply (launch_running _ _ _ _ _ _ identity plan directory); simpl; try done.
    + exists sup. by rewrite (so_supervised _ _ Hso).
    + by rewrite (so_pids _ _ Hso).
    + rewrite (so_out _ _ Hso). simpl. by rewrite <- !app_assoc.
Qed.

Lemma launch_scheduled_step config a id uuid r l m :
  MgrOk m -> st_jobs (store_view (mg_store m)) !! id = Some r -> sj_state r = kStarting ->
  st_leases (store_view (mg_store m)) !! uuid = Some l -> lease_job_id l = id ->
  (forall i, la_spawn a = Ok i -> mg_by_pid m !! pi_pid i = None) ->
  let m' := launch_scheduled config a id uuid m in
  MgrOk m' /\ launch_step config a id uuid r m m'.
Proof.
  intros Hm Hr Hst Hl Hlid Hfresh. pose proof (mk_sched _ (proj1 Hm)) as [Hinv Hok _ _].
  unfold launch_scheduled. destruct (load_ok (store_load (mg_store m))) eqn:Hload; cbn [negb].
  2: { split; [by apply bump_ok|]. by apply launch_unread. }
  rewrite (store_load_view _ Hinv Hload), (find_stored_view _ _ _ Hok), Hr.
  rewrite bool_decide_true by done. cbn [negb].
  destruct (prepare_launch _ _ _ _ _) as [[plan directory]|reason] eqn:Hprep.
  2: { apply fail_starting; try done. congruence. }
  destruct (spawn _ _ _) as [[identity|e] sup] eqn:Hspawn.
  - eapply launch_spawned_step; try done. apply Hfresh. by apply spawn_new_ok in Hspawn as [? _].
  - apply fail_starting; try done; [by repeat apply emit_ok|]. congruence.
Qed.

(** ** Scheduling *)

Lemma schedule_frame w gpus res q s m :
  MgrOk m -> schedule_step w gpus (mg_queue m) (mg_store m) res q s ->
  MgrOk {| m with mg_queue := q; mg_store := s |}.
Proof.
  intros [[Hsc Hroom Hsup Hpids Hact] Hc] Hstep.
  pose proof (schedule_step_ok _ _ _ _ _ _ _ Hsc Hstep) as Hsc'.
  assert (store_view s = store_view (mg_store m) -> store_config s = store_config (mg_store m) ->
    q_capacity q = q_capacity (mg_queue m) -> MgrOk {| m with mg_queue := q; mg_store := s |}) as Hsame.
  { intros Hv Hcfg Hcap. split; [constructor; simpl; rewrite ?Hv, ?Hcfg, ?Hcap; done|].
    intros id job r. simpl. rewrite Hv. apply Hc. }
  destruct Hstep as [| | | |res position r d reason s' Hg Hld Hpl _ _ _ _ _ Hmut Hinv' Hcfg]; try (by apply Hsame).
  pose proof (schedule_mutation_inv _ _ _ _ _ Hmut) as Hview.
  pose proof (pl_job _ _ _ _ _ _ _ _ Hpl) as Hr. pose proof (pl_queued _ _ _ _ _ _ _ _ Hpl) as Hrq.
  assert (forall id job, mg_supervised m !! id = Some job -> id <> sj_id r) as Hne.
  { intros id job Hjob ->. destruct (Hsup _ _ Hjob) as (r0 & Hr0 & Hs). rewrite Hr in Hr0. injection Hr0 as <-.
    by destruct (su_launched _ _ _ _ _ Hs). }
  pose proof (sc_store _ _ Hsc') as Hok'. rewrite Hcfg in Hok'. split.
  - constructor; simpl; [done|by rewrite Hcfg| |done|done]. intros id job Hjob.
    destruct (Hsup _ _ Hjob) as (r0 & Hr0 & Hs). specialize (Hne _ _ Hjob). exists r0.
    assert (st_jobs (store_view s') !! id = Some r0) as Hr0' by (rewrite Hview; simpl; by rewrite lookup_insert_ne).
    split; [done|].
    eapply (SupervisedOk_next _ _ _ (mg_by_pid m) _ _ _ r0 r0 (sc_store _ _ Hsc) Hok'); try done; [|by left].
    intros u k. rewrite Hview. simpl. intros [[<- <-]|[_ ?]]%lookup_insert_Some Hk; [|done]. simpl in Hk. congruence.
  - intros id job r0 Hjob He. simpl. rewrite Hview. simpl.
    rewrite lookup_insert_ne by (intros Heq; by apply (Hne _ _ Hjob)). by apply Hc.
Qed.

(** A scheduled job is ready to be launched. *)
Lemma schedule_ready w gpus res q s m id uuid :
  MgrOk m -> schedule_step w gpus (mg_queue m) (mg_store m) res q s ->
  schedule_scheduled res = true -> se_job_id (sr_event res) = Some id -> se_gpu_uuid (sr_event res) = Some uuid ->
  exists r l, st_jobs (store_view s) !! id = Some r /\ sj_state r = kStarting /\
    st_leases (store_view s) !! uuid = Some l /\ lease_job_id l = id.
Proof.
  intros Hm Hstep Hsch Hid Huuid. unfold schedule_scheduled in Hsch. apply bool_decide_eq_true in Hsch.
  destruct Hstep as [res Hcase| | | |res position r d reason s' Hg Hld Hpl _ Hi Hu _ _ Hmut Hinv' Hcfg];
    try congruence; [destruct Hcase as [[? ?]|(? & ? & ?)]; congruence|].
  apply schedule_mutation_inv in Hmut. rewrite Hi in Hid. rewrite Hu in Huuid. simplify_eq.
  exists (starting_record r), (mkLease (go_uuid d) (sj_id r)). rewrite Hmut. simpl. by rewrite !lookup_insert_eq.
Qed.

(** What the answers of a launch must satisfy: the new process has a pid that is
    not in the manager's pid table.  The system never reuses the pid of a process
    that is not reaped; what this excludes beyond that is the reuse of the pid of
    a process that the exit monitor has reaped but whose event the manager has
    not handled yet.  The code has no defence there, see [exit_by_pid_only]. *)
Definition fresh_pid (a : LaunchAnswers) m : Prop :=
  forall i, la_spawn a = Ok i -> mg_by_pid m !! pi_pid i = None.

Lemma schedule_now_ok config sa a trigger m :
  MgrOk m -> fresh_pid a m -> MgrOk (schedule_now config sa a trigger m).
Proof.
  intros Hm Hfresh. unfold schedule_now. destruct (sa_open sa); cbn [negb]; [|done].
  destruct (sa_gpus sa) as [gpus|]; [|by apply bump_ok].
  destruct (sa_admitted sa); cbn [negb]; [|by apply bump_ok].
  destruct (sa_completed sa); cbn [negb]; [|by repeat apply bump_ok].
  destruct (run_once _ _ _ _ _) as [[result q] s] eqn:Hrun.
  destruct (run_once_step _ _ _ _ _ _ _ _ (mk_sched _ (proj1 Hm)) Hrun) as (res & -> & Hstep).
  pose proof (schedule_frame _ _ _ _ _ _ Hm Hstep) as Hm1.
  set (m1 := {| m with mg_queue := q; mg_store := s |}) in *.
  cbn zeta. match goal with |- context [if ?b || ?c then ?x else ?y] => set (m3 := if b || c then x else y) end.
  assert (MgrOk m3 /\ mg_store m3 = s /\ mg_by_pid m3 = mg_by_pid m) as (Hm3 & Es & Ep).
  { unfold m3. case_match; (split_and!; [|done..]); by eapply MgrOk_same; [..|exact Hm1]. }
  clearbody m3. destruct (schedule_scheduled res) eqn:Hsch; [|case_match; by repeat apply bump_ok].
  destruct (se_job_id (sr_event res)) as [id|] eqn:Hid; [|case_match; by repeat apply bump_ok].
  destruct (se_gpu_uuid (sr_event res)) as [uuid|] eqn:Hu; [|case_match; by repeat apply bump_ok].
  destruct (schedule_ready _ _ _ _ _ _ _ _ Hm Hstep Hsch Hid Hu) as (r & l & Hr & Hst & Hl & Hlid).
  cbn zeta. match goal with |- MgrOk (launch_scheduled _ _ _ _ ?x) => set (m5 := x) end.
  assert (MgrOk m5 /\ mg_store m5 = s /\ mg_by_pid m5 = mg_by_pid m) as (Hm5 & Es5 & Ep5)
    by (unfold m5; case_match; split_and!; by repeat apply bump_ok).
  eapply (launch_scheduled_step _ _ _ _ r l); rewrite ?Es5; try done. intros i Hi. rewrite Ep5. by apply Hfresh.
Qed.

(** ** All events *)

(** The one assumption on the system: see [fresh_pid]. *)
Definition event_ok (e : Event) m : Prop :=
  match e with EvWake _ a _ | EvGpuChanged _ a => fresh_pid a m | _ => True end.

Lemma worker_step_ok config e m : MgrOk m -> event_ok e m -> MgrOk (worker_step config e m).
Proof.
  intros Hm He. destruct e as [create rollback spec|admits c id|sa a trigger|admits now event|id|sa a|now kill id];
    simpl in *.
  - destruct (process_submit _ _ _ _) as [out m'] eqn:Hs.
    destruct (process_submit_step _ _ _ _ _ _ (bump_ok inc_commands _ (fun _ => eq_refl) Hm) Hs) as [Hm' _].
    by eapply MgrOk_same; [..|exact Hm'].
  - destruct (process_cancel _ _ _ _) as [out m'] eqn:Hs.
    destruct (process_cancel_step _ _ _ _ _ _ (bump_ok inc_commands _ (fun _ => eq_refl) Hm) Hs) as [Hm' _].
    by eapply MgrOk_same; [..|exact Hm'].
  - apply schedule_now_ok; [by apply bump_ok|done].
  - by apply process_exit_ok.
  - by apply process_pump_done_ok.
  - by apply schedule_now_ok.
  - by apply grace_fire_ok.
Qed.

(** Sessions of the worker *)
Inductive worker_run (config : JobManagerConfig) : Manager S -> list Event -> Manager S -> Prop :=
| run_nil m : worker_run config m [] m
| run_cons m e events m' :
    event_ok e m -> worker_run config (worker_step config e m) events m' -> worker_run config m (e :: events) m'.

Lemma worker_run_inv config m events m' : worker_run config m events m' -> MgrOk m -> MgrOk m'.
Proof. induction 1 as [|m e events m' He _ IH]; [done|]. intros Hm. by apply IH, worker_step_ok. Qed.

(** ** Startup *)

(** The manager before its worker starts *)
Definition new_manager (q : GlobalJobQueue) (s : S) : Manager S :=
  mkManager s q ∅ ∅ zero_stats None [] [].

Lemma new_manager_ok q s :
  SchedOk q s -> max_jobs (store_config s) <= q_capacity q -> MgrOk (new_manager q s).
Proof. intros Hsc Hroom. split; [constructor; try done|done]. Qed.

(** The record of an adopted job is in the state its decision says. *)
Definition decision_fits (d : RecoveryDecisionCode) (state : JobState) : Prop :=
  match d with
  | RD_kAdoptedRunning | RD_kAdoptedPromotedToRunning => state = kRunning
  | RD_kAdoptedStoppingNeedsRecancel => state = kStopping
  | _ => True
  end.

Lemma adopt_new verify identity grace code sup :
  adopt verify identity (new_supervisor grace) = (code, sup) ->
  code = AE_kNone -> sp_phase sup = PH_kRunning /\ sp_identity sup = identity /\ verify identity = true.
Proof. unfold adopt. simpl. destruct (identity_valid identity), (verify identity); naive_solver. Qed.

(** The signals that adopting a recovered job may send: the SIGTERM of a
    cancellation that was interrupted, to the group of a STOPPING job (or its
    leader); and SIGKILL to a process whose exit cannot be watched, because the
    local supervisor that took it over is destroyed. *)
Definition arming_signal (a : AdoptAnswers) (o : RecoveryJobOutcome) (r : StoredJob) (k : KillCall) : Prop :=
  let i := xr_identity (sj_execution r) in
  adopts o = true /\ aa_verify a i = true /\
  match kc_signal k with
  | SIGTERM => sj_state r = kStopping /\ aa_monitor a = true /\ (kc_target k = - pi_pgid i \/ kc_target k = pi_pgid i)%Z
  | SIGKILL => aa_monitor a = false /\ (kc_target k = - pi_pgid i \/ kc_target k = pi_pid i)%Z
  end.

Lemma term_calls_target c sup k :
  k ∈ term_calls c sup ->
  kc_signal k = SIGTERM /\
  (kc_target k = - pi_pgid (sp_identity sup) \/ kc_target k = pi_pgid (sp_identity sup))%Z.
Proof.
  unfold term_calls. destruct (sp_phase sup); try by intros ?%elem_of_nil.
  destruct (ca_kill _ _); rewrite !elem_of_cons, ?elem_of_nil; naive_solver.
Qed.

Lemma asked_signals c id b job job' sup sup' out k :
  StopAsked c id b job job' sup sup' out -> OutSignal k ∈ out -> k ∈ term_calls c sup.
Proof.
  intros Hask. rewrite (ask_out _ _ _ _ _ _ _ _ Hask). intros [Hk|Hk]%elem_of_app.
  - by apply list_elem_of_fmap in Hk as (? & [= ->] & ?).
  - destruct (starts_grace _ _ _ _); [by apply list_elem_of_singleton in Hk|by apply elem_of_nil in Hk].
Qed.

Lemma destroy_adopted sup k :
  sp_phase sup = PH_kRunning -> k ∈ destroy sup ->
  kc_signal k = SIGKILL /\ (kc_target k = - pi_pgid (sp_identity sup) \/ kc_target k = pi_pid (sp_identity sup))%Z.
Proof.
  intros Hp. unfold destroy. rewrite Hp. cbn [guards]. rewrite !elem_of_cons, elem_of_nil. naive_solver.
Qed.

Lemma arm_job_ok config a o m r :
  MgrOk m -> st_jobs (store_view (mg_store m)) !! ro_job_id o = Some r ->
  mg_supervised m !! ro_job_id o = None -> mg_by_pid m !! pi_pid (xr_identity (sj_execution r)) = None ->
  decision_fits (ro_decision o) (sj_state r) ->
  let m' := arm_job config a o m in
  MgrOk m' /\ mg_store m' = mg_store m /\
  (forall id, id <> ro_job_id o -> mg_supervised m' !! id = mg_supervised m !! id) /\
  (forall pid, pid <> pi_pid (xr_identity (sj_execution r)) -> mg_by_pid m' !! pid = mg_by_pid m !! pid) /\
  (forall k, OutSignal k ∈ mg_out m' -> OutSignal k ∈ mg_out m \/ arming_signal a o r k).
Proof.
  intros Hm Hr Hnone Hfresh Hfit. pose proof (mk_sched _ (proj1 Hm)) as [Hinv Hok _ _]. unfold arm_job.
  set (needs := bool_decide _). destruct (adopts o) eqn:Had; cbn [negb]; [|by split_and!; [..|left]].
  destruct (load_ok (store_load (mg_store m))) eqn:Hload; cbn [negb]; [|by split_and!; [..|left]].
  rewrite (store_load_view _ Hinv Hload), (find_stored_view _ _ _ Hok), Hr.
  destruct (has_identity (sj_execution r)); cbn [negb]; [|by split_and!; [..|left]].
  destruct (adopt _ _ _) as [code sup] eqn:Hadopt. destruct code; try by split_and!; [..|left].
  destruct (adopt_new _ _ _ _ _ Hadopt eq_refl) as (Hph & Hsid & Hver).
  destruct (aa_monitor a) eqn:Hmon; cbn [negb].
  2: { split_and!; [by apply emit_signals_ok|done..|]. cbn. intros k [Hk|Hk]%elem_of_app; [by left|right].
       apply list_elem_of_fmap in Hk as (? & [= <-] & Hk). apply (destroy_adopted _ _ Hph) in Hk as [Hs Ht].
       rewrite Hsid in Ht. unfold arming_signal. by rewrite Hs. }
  assert (sj_state r = kRunning /\ needs = false \/ sj_state r = kStopping /\ needs = true) as Hst.
  { unfold adopts, needs in *. destruct (ro_decision o); simpl in *; auto; done. }
  assert (leaseable (sj_state r) = true) as Hls by (destruct Hst as [[-> _]|[-> _]]; done).
  destruct (sto_lease_exists _ _ Hok _ _ Hr Hls) as (u & l & Hl & Hlid).
  rewrite (proj2 (find_lease_spec _ _ Hok (ro_job_id o) u)) by eauto. cbn [default].
  set (job := mkSupervised _ _ _ _ _ _ _ _ _ _). cbn zeta.
  match goal with |- context [begin_cancellation _ _ _ ?x] => set (m2 := x) end.
  assert (MgrOk m2) as Hm2.
  { eapply (supervise_ok m m2 (ro_job_id o) job r l); simpl; try done.
    - constructor; simpl; try done; [by exists sup; rewrite Hph| |].
      + destruct Hst as [[-> _]|[-> _]]; done.
      + intros _. rewrite lookup_insert_eq. split_and!; [done..|]. by exists l.
    - destruct Hst as [[-> ->]|[-> ->]]; done. }
  assert (forall id, id <> ro_job_id o -> mg_supervised m2 !! id = mg_supervised m !! id) as Hs2
    by (intros id Hne; simpl; by rewrite lookup_insert_ne).
  assert (forall pid, pid <> pi_pid (xr_identity (sj_execution r)) -> mg_by_pid m2 !! pid = mg_by_pid m !! pid)
    as Hp2 by (intros pid Hne; simpl; by rewrite lookup_insert_ne).
  assert (forall k, OutSignal k ∈ mg_out m2 -> OutSignal k ∈ mg_out m) as Ho2
    by (cbn; intros k [Hk|Hk%list_elem_of_singleton]%elem_of_app; done).
  destruct needs; [|by split_and!; [..|left; apply Ho2]].
  assert (sj_state r = kStopping) as Hstop by (destruct Hst as [[_ ?]|[? _]]; done).
  destruct (begin_cancellation_ok (aa_cancel a) (ro_job_id o) true m2 m2 r) as (Hm3 & Es & _);
    [apply Hm2|done|done|apply Hm2|done..|].
  destruct (begin_cancellation_spec (aa_cancel a) (ro_job_id o) true m2 (proj1 Hm2)) as (_ & _ & Ep & _ & Hcase).
  assert (mg_supervised m2 !! ro_job_id o = Some job) as Hj2 by (simpl; apply lookup_insert_eq).
  rewrite Hj2 in Hcase. destruct Hcase as (job' & sup0 & sup' & out & Em & _ & Hask & Eout).
  split_and!; [by apply bump_ok|by simpl; rewrite Es|..]; simpl.
  - intros id Hne. rewrite Em, lookup_insert_ne by done. by apply Hs2.
  - intros pid Hne. rewrite Ep. by apply Hp2.
  - intros k. rewrite Eout. intros [Hk|Hk]%elem_of_app; [left; by apply Ho2|right].
    pose proof (ask_before _ _ _ _ _ _ _ _ Hask) as [= <-].
    apply (asked_signals _ _ _ _ _ _ _ _ _ Hask), term_calls_target in Hk as [Hs Ht].
    rewrite Hsid in Ht. unfold arming_signal. by rewrite Hs.
Qed.

(** Adopting a list of outcomes, one job each, of distinct processes. *)
Lemma arm_fold_ok config answers outcomes m :
  MgrOk m -> NoDup (ro_job_id <$> outcomes) ->
  (forall o, o ∈ outcomes -> adopts o = true -> mg_supervised m !! ro_job_id o = None /\
     exists r, st_jobs (store_view (mg_store m)) !! ro_job_id o = Some r /\
       decision_fits (ro_decision o) (sj_state r) /\
       mg_by_pid m !! pi_pid (xr_identity (sj_execution r)) = None) ->
  (forall o1 o2 r1 r2, o1 ∈ outcomes -> o2 ∈ outcomes -> adopts o1 = true -> adopts o2 = true ->
     st_jobs (store_view (mg_store m)) !! ro_job_id o1 = Some r1 ->
     st_jobs (store_view (mg_store m)) !! ro_job_id o2 = Some r2 ->
     pi_pid (xr_identity (sj_execution r1)) = pi_pid (xr_identity (sj_execution r2)) ->
     ro_job_id o1 = ro_job_id o2) ->
  let m' := fold_left (fun m o => arm_job config (answers (ro_job_id o)) o m) outcomes m in
  MgrOk m' /\
  forall k, OutSignal k ∈ mg_out m' -> OutSignal k ∈ mg_out m \/
    exists o r, o ∈ outcomes /\ st_jobs (store_view (mg_store m)) !! ro_job_id o = Some r /\
      arming_signal (answers (ro_job_id o)) o r k.
Proof.
  revert m. induction outcomes as [|o outcomes IH]; intros m Hm Hnd Hready Hdist; [by auto|]. simpl.
  apply NoDup_cons in Hnd as [Hnew Hnd]. destruct (adopts o) eqn:Ha.
  2: { assert (arm_job config (answers (ro_job_id o)) o m = m) as -> by (unfold arm_job; by rewrite Ha).
       destruct (IH m Hm Hnd) as [Hm' Hk].
       - intros o' Ho'. apply Hready. by right.
       - intros o1 o2 r1 r2 H1 H2. apply Hdist; by right.
       - split; [done|]. intros k [?|(o' & r & ? & ? & ?)]%Hk; [by left|]. right. exists o', r. by split; [right|]. }
  destruct (Hready o) as (Hnone & r & Hr & Hfit & Hfresh); [by left|done|].
  destruct (arm_job_ok config (answers (ro_job_id o)) o m r Hm Hr Hnone Hfresh Hfit) as (Hm' & Es & Hs & Hp & Ho).
  destruct (IH (arm_job config (answers (ro_job_id o)) o m) Hm' Hnd) as [Hm2 Hk].
  - intros o' Ho' Ha'. destruct (Hready o') as (Hnone' & r' & Hr' & Hfit' & Hfresh'); [by right|done|].
    assert (ro_job_id o' <> ro_job_id o) as Hne
      by (intros Heq; apply Hnew; rewrite <- Heq; by apply list_elem_of_fmap_2).
    rewrite (Hs _ Hne), Es. split; [done|]. exists r'. split_and!; [done..|]. rewrite Hp; [done|].
    intros Heq. apply Hne. by eapply (Hdist o' o); [right|left|..].
  - rewrite Es. intros o1 o2 r1 r2 H1 H2. apply Hdist; by right.
  - split; [done|]. intros k [[?|?]%Ho|(o' & r' & ? & Hr' & ?)]%Hk; [by left|right..].
    + exists o, r. by split; [left|].
    + rewrite Es in Hr'. exists o', r'. by split; [right|].
Qed.
End invariant.

(** The table is as bounded as the store. *)
Lemma supervised_bound {S : Type} `{StateStoreLaws S} (m : Manager S) :
  MgrCore m -> msize (mg_supervised m) <= kMaxCapacity.
Proof.
  intros [[_ Hok Hq _] Hroom Hsup _ _].
  assert (msize (mg_supervised m) <= msize (st_jobs (store_view (mg_store m)))) as Hle.
  { unfold msize. rewrite <- !size_dom. enough (size (dom (mg_supervised m)) <= size (dom (st_jobs (store_view (mg_store m)))))%nat by lia.
    apply subseteq_size. intros id Hid.
    apply elem_of_dom in Hid as [job Hjob]. destruct (Hsup _ _ Hjob) as (r & Hr & _).
    apply elem_of_dom. by exists r. }
  pose proof (sto_max_jobs _ _ Hok). pose proof (qo_capacity _ Hq). lia.
Qed.

(** ** Writes that are accepted *)

(** Ending a job that holds its lease is always accepted. *)
Lemma end_job_accepted config st r u g l :
  StoreOk config st -> st_revision st < u64_max -> st_jobs st !! sj_id r = Some r ->
  st_leases st !! g = Some l -> lease_job_id l = sj_id r ->
  sj_id u = sj_id r -> sj_spec u = sj_spec r -> sj_revision u = sj_revision r + 1 ->
  can_transition (sj_state r) (sj_state u) = true -> is_terminal (sj_state u) = true ->
  ExecutionOk (sj_execution u) (sj_state u) (sj_spec u) ->
  apply_mutation config st (mkMutation (st_revision st) [] [u] [] [g]) =
    Ok (mkState (st_revision st + 1) (<[sj_id r := u]> (st_jobs st)) (delete g (st_leases st))).
Proof.
  intros Hok Hrev Hr Hl Hlid Hid Hspec Hrv Hct Hterm Hx.
  pose proof (map_Forall_lookup_1 _ _ _ _ (sto_jobs _ _ Hok) Hr) as Hro.
  assert (leaseable (sj_state u) = false) as Hnl by (destruct (sj_state u); done).
  apply apply_mutation_inv. simpl. split_and!; [done|done|done|unfold u64_max in *; lia|done|].
  exists (st_jobs st), (delete g (st_leases st)). split_and!; [done| | |done|..].
  - apply result_bind_ret, update_job_ok. rewrite Hid, Hspec in *. split_and!; try done; try apply Hro.
    exists r. split_and!; try done. pose proof (ro_revision _ _ Hro). pose proof (state_rank_max (sj_state r)).
    unfold u64_max. lia.
  - apply result_bind_ret, release_lease_ok. split_and!; [done| |by rewrite Hl]. by eapply (sto_lease_key _ _ Hok).
  - intros v k [Hne Hk]%lookup_delete_Some. destruct (sto_lease_job _ _ Hok _ _ Hk) as (r2 & Hr2 & Hl2).
    apply leaseable_job_spec. exists r2. rewrite lookup_insert_ne; [done|]. intros Heq. apply Hne.
    eapply (sto_lease_unique _ _ Hok); [exact Hl|exact Hk|congruence].
  - intros id r2 [[<- <-]|[Hne Hr2]]%lookup_insert_Some.
    + rewrite Hnl. apply lease_count_zero. intros v k [Hv Hk]%lookup_delete_Some Hj. apply Hv.
      eapply (sto_lease_unique _ _ Hok); [exact Hl|exact Hk|congruence].
    + destruct (leaseable (sj_state r2)) eqn:Hls.
      * destruct (sto_lease_exists _ _ Hok _ _ Hr2 Hls) as (v & k & Hk & Hj). apply lease_count_one.
        exists v, k. split_and!; [|done|].
        { rewrite lookup_delete_ne; [done|]. intros <-. congruence. }
        intros v' k' [_ Hk']%lookup_delete_Some Hj'.
        eapply (sto_lease_unique _ _ Hok); [exact Hk'|exact Hk|congruence].
      * apply lease_count_zero. intros v k [_ Hk]%lookup_delete_Some Hj.
        destruct (sto_lease_job _ _ Hok _ _ Hk) as (r3 & Hr3 & Hl3). congruence.
Qed.

(** The reasons an exit records are short. *)
Lemma exit_reason_fits cancelling event :
  (0 <= ex_exit_code (xe_status event) <= 255)%Z -> (0 <= ex_signal_number (xe_status event) <= 127)%Z ->
  option_all (bounded_string kMaxFailureReasonBytes) (exit_verdict cancelling event).2.
Proof.
  intros Hcode Hsig. unfold exit_verdict.
  assert (forall prefix bound z, (0 <= z <= Z.of_nat bound)%Z ->
    forallb (fun n => negb (bad_bounded_string kMaxFailureReasonBytes (prefix +:+ pretty (Z.of_nat n))))
      (seq 0 (Datatypes.S bound)) = true ->
    bounded_string kMaxFailureReasonBytes (prefix +:+ pretty z)) as Hall.
  { intros prefix bound z Hz Hb. rewrite forallb_forall in Hb. specialize (Hb (Z.to_nat z)).
    rewrite Z2Nat.id in Hb by lia. rewrite negb_true_iff in Hb.
    assert (bad_bounded_string kMaxFailureReasonBytes (prefix +:+ pretty z) = false) as Hg
      by (apply Hb, in_seq; lia). unfold bad_bounded_string in Hg. apply orb_false_iff in Hg as [Hg Hn].
    apply orb_false_iff in Hg as [He Hl%N.ltb_ge]. split_and!; try done. intros Hnil. by rewrite Hnil in He. }
  destruct cancelling; [done|]. destruct (xe_identity_verified event); simpl; [|split_and!; done].
  destruct (exit_is_success (xe_status event)); [done|]. simpl.
  destruct (exit_exited (xe_status event)).
  - apply (Hall _ 255%nat); [lia|vm_compute; reflexivity].
  - apply (Hall _ 127%nat); [lia|vm_compute; reflexivity].
Qed.

(** Ending a live job by its verdict is a legal transition: a job is STOPPING
    exactly when its verdict is CANCELLED. *)
Lemma exit_transition cancelling event state :
  state = kRunning \/ state = kStopping -> (cancelling = true <-> state = kStopping) ->
  can_transition state (exit_verdict cancelling event).1 = true.
Proof.
  intros [-> | ->] Hc.
  - destruct cancelling; [discriminate (proj1 Hc eq_refl)|]. unfold exit_verdict. repeat case_match; done.
  - rewrite (proj2 Hc eq_refl). done.
Qed.

Lemma exit_record_ok now cancelling event r :
  ExecutionOk (sj_execution r) (sj_state r) (sj_spec r) ->
  sj_state r = kRunning \/ sj_state r = kStopping ->
  (forall t, xr_start_time (sj_execution r) = Some t -> (t <= now)%Z) ->
  option_all (bounded_string kMaxFailureReasonBytes) (exit_verdict cancelling event).2 ->
  ExecutionOk (sj_execution (exit_record now cancelling event r))
    (sj_state (exit_record now cancelling event r)) (sj_spec (exit_record now cancelling event r)).
Proof.
  intros Hx Hst Hclock Hreason. pose proof (exit_verdict_terminal cancelling event) as Hterm.
  unfold exit_record. destruct (exit_verdict cancelling event) as [terminal reason]. simpl in *.
  assert (is_terminal (sj_state r) = false) as Hnt by (destruct Hst as [->| ->]; done).
  constructor; simpl; try done.
  - apply Hx.
  - intros ->. done.
  - intros _. apply (xo_running _ _ _ Hx Hst).
  - rewrite Hterm. done.
  - apply Hx.
  - intros t t' Ht [= <-]. by apply Hclock.
  - apply Hx.
Qed.

(** A store that works: it can be read, and it takes what the mutation core
    accepts. *)
Definition store_takes {S} `{StateStoreLaws S} (s : S) : Prop :=
  load_ok (store_load s) = true /\
  forall m st', apply_mutation (store_config s) (store_view s) m = Ok st' -> write_ok (store_apply m s).1 = true.

(** The in-memory store does unless a test makes it fail. *)
Lemma im_healthy_takes s : im_healthy s -> store_takes s.
Proof.
  intros [Hf Hn]. split; cbn; [unfold im_load; by rewrite Hf|].
  intros m st' Hm. unfold im_apply. by rewrite Hf, Hn, Hm.
Qed.

Lemma rewrite_job_accepted {S} `{StateStoreLaws S} admits id compose (m : Manager S) r st' :
  store_inv (mg_store m) -> StoreOk (store_config (mg_store m)) (store_view (mg_store m)) -> store_takes (mg_store m) ->
  admits 2%nat = true -> st_jobs (store_view (mg_store m)) !! id = Some r ->
  apply_mutation (store_config (mg_store m)) (store_view (mg_store m))
    (mkMutation (st_revision (store_view (mg_store m))) [] [(compose r).1] [] (option_list (compose r).2)) = Ok st' ->
  write_ok (rewrite_job admits id compose m).1 = true.
Proof.
  intros Hinv Hok [Hl Ht] Ha Hr Hmut. unfold rewrite_job. cbn [rewrite_attempts]. rewrite Hl. cbn [negb].
  rewrite (store_load_view _ Hinv Hl), (find_stored_view _ _ _ Hok), Hr.
  destruct (compose r) as [u release]. cbn [fst snd] in Hmut. unfold run_write. rewrite Ha. cbn [negb].
  cbn [ss_revision snapshot_of]. specialize (Ht _ _ Hmut).
  destruct (store_apply _ (mg_store m)) as [w s']. cbn [fst] in Ht. rewrite Ht. exact Ht.
Qed.

Section theorems.
Context {S : Type} `{StateStoreLaws S}.
Implicit Types m : Manager S.

(** No two active jobs of the store name the same live process. *)
Definition distinct_processes (verifier : ProcessIdentity -> IdentityVerification) (st : StoreState) : Prop :=
  forall id1 id2 r1 r2, st_jobs st !! id1 = Some r1 -> st_jobs st !! id2 = Some r2 ->
    is_active (sj_state r1) = true -> is_active (sj_state r2) = true ->
    verifier (xr_identity (sj_execution r1)) = IV_kVerified ->
    verifier (xr_identity (sj_execution r2)) = IV_kVerified ->
    pi_pid (xr_identity (sj_execution r1)) = pi_pid (xr_identity (sj_execution r2)) -> id1 = id2.

(** The outcome of an adopted job, and its record after recovery. *)
Lemma adopted_record now verifier snapshot r :
  let o := (plan_job now verifier snapshot r).1 in
  ro_job_id o = sj_id r /\ ro_decision o = decide_job verifier r /\
  (adopts o = true ->
   decision_fits (ro_decision o) (sj_state (recovered now verifier r)) /\
   xr_identity (sj_execution (recovered now verifier r)) = xr_identity (sj_execution r) /\
   is_active (sj_state r) = true /\ verifier (xr_identity (sj_execution r)) = IV_kVerified).
Proof.
  unfold plan_job, recovered, adopts, decide_job.
  destruct (is_active (sj_state r)) eqn:Ha; simpl.
  2: { destruct (bool_decide (sj_state r = kQueued)); simpl; done. }
  destruct (has_identity (sj_execution r)); simpl; [|done].
  destruct (verifier (xr_identity (sj_execution r))) eqn:Hv; simpl; [|done..].
  destruct (sj_state r) eqn:Hs; simpl; rewrite ?Hs; done.
Qed.

(** A signal that [arm_recovery] may send, on the store that recovery left *)
Definition startup_signal (answers : JobId -> AdoptAnswers) (res : RecoveryResult) (st : StoreState) (k : KillCall) : Prop :=
  exists o r, o ∈ rr_outcomes res /\ st_jobs st !! ro_job_id o = Some r /\ arming_signal (answers (ro_job_id o)) o r k.

Lemma startup_spec config now verifier answers q s res q' s' :
  store_inv s -> StoreOk (store_config s) (store_view s) -> QueueOk q ->
  max_jobs (store_config s) <= q_capacity q ->
  recover now verifier q s = (res, q', s') -> recovery_ok res = true ->
  distinct_processes verifier (store_view s) ->
  let m := arm_recovery config answers (Some res) (new_manager q' s') in
  MgrOk m /\ forall k, OutSignal k ∈ mg_out m -> startup_signal answers res (store_view s') k.
Proof.
  intros Hinv Hok Hq Hroom Hrec Hrok Hdist. unfold arm_recovery. rewrite Hrok.
  destruct (recover_spec now verifier _ _ _ _ _ Hinv Hok Hq Hrec Hrok) as (Hsc & Hjobs & _).
  pose proof (recover_outcomes _ _ _ _ _ _ _ Hinv Hrec Hrok) as Hres. rewrite Hres.
  destruct (recover_cases now verifier _ _ _ _ _ Hinv Hok Hrec) as [(? & _)|(_ & Hap & _ & ->)]; [congruence|].
  assert (forall o, o ∈ (fun r => (plan_job now verifier (snapshot_of (store_view s)) r).1) <$>
      map_values (st_jobs (store_view s)) -> exists r, st_jobs (store_view s) !! sj_id r = Some r /\
      o = (plan_job now verifier (snapshot_of (store_view s)) r).1) as Hout.
  { intros o (r & -> & Hr)%list_elem_of_fmap. exists r. split; [|done]. by apply (elem_of_jobs _ _ _ Hok). }
  set (outcomes := _ <$> map_values (st_jobs (store_view s))) in *. fold outcomes.
  match goal with |- context [new_manager ?x ?y] => destruct (arm_fold_ok config answers outcomes (new_manager x y)) as [Hm Hk] end.
  - apply new_manager_ok; [done|]. simpl. by rewrite (ea_config _ _ _ Hap).
  - unfold outcomes. rewrite <- list_fmap_compose.
    rewrite (list_fmap_ext _ sj_id) by (intros ???; apply (adopted_record now verifier)).
    by eapply map_values_ids_nodup.
  - intros o Ho Ha. split; [done|]. destruct (Hout _ Ho) as (r & Hr & ->).
    destruct (adopted_record now verifier (snapshot_of (store_view s)) r) as (Hid & _ & Hx).
    destruct (Hx Ha) as (Hfit & _). exists (recovered now verifier r).
    rewrite Hid. simpl. rewrite Hjobs, Hr. done.
  - intros o1 o2 u1 u2 Ho1 Ho2 Ha1 Ha2. destruct (Hout _ Ho1) as (r1 & Hr1 & ->), (Hout _ Ho2) as (r2 & Hr2 & ->).
    destruct (adopted_record now verifier (snapshot_of (store_view s)) r1) as (Hid1 & _ & Hx1).
    destruct (adopted_record now verifier (snapshot_of (store_view s)) r2) as (Hid2 & _ & Hx2).
    destruct (Hx1 Ha1) as (_ & Hi1 & Hac1 & Hv1), (Hx2 Ha2) as (_ & Hi2 & Hac2 & Hv2).
    rewrite Hid1, Hid2. simpl. rewrite !Hjobs, Hr1, Hr2. intros [= <-] [= <-]. rewrite Hi1, Hi2. by apply Hdist.
  - split; [done|]. intros k [?%elem_of_nil|(o & r & ? & ? & ?)]%Hk; [done|]. exists o, r.
    split_and!; [|done..]. by rewrite Hres.
Qed.

(** ** Properties of the job manager *)

(** C3. The daemon's invariant, from startup through any session. Recovery
    followed by the adoption of its processes, followed by any sequence of
    submissions, cancellations, scheduling rounds, process exits, log
    completions and timers, whatever the executor, the launch path, the
    supervisor, the monitor and the clock answer, keeps: the store well formed,
    the queue its FIFO view, every supervised job guarded by a supervisor that
    holds its stored process, active with the lease on its GPU until its exit is
    handled, marked as cancelled exactly when it is STOPPING, and found from its
    pid; the counter of supervised jobs is exact.  The queue can hold all jobs the
    store may have, no two stored processes that are still alive are the same,
    and a new process does not get a pid whose exit is still to be handled
    ([fresh_pid]). *)
Theorem daemon_session config now verifier answers q s res q' s' events m :
  store_inv s -> StoreOk (store_config s) (store_view s) -> QueueOk q ->
  max_jobs (store_config s) <= q_capacity q ->
  recover now verifier q s = (res, q', s') -> recovery_ok res = true ->
  distinct_processes verifier (store_view s) ->
  worker_run config (arm_recovery config answers (Some res) (new_manager q' s')) events m -> MgrOk m.
Proof.
  intros Hinv Hok Hq Hroom Hrec Hrok Hdist Hrun. eapply worker_run_inv; [exact Hrun|]. by eapply startup_spec.
Qed.

(** A submission is all or nothing: it either fails with a store error and
    nothing stored or queued changes, or it returns an id above every stored
    one, under which the job is stored QUEUED with revision 0, no lease
    changes, and the job enters the queue at its FIFO place. With a queue as
    large as the store it is never rejected by the queue. *)
Theorem process_submit_exact create rollback spec m out m' :
  MgrOk m -> process_submit create rollback spec m = (out, m') ->
  MgrOk m' /\ submit_step spec m out m' /\ so_code out <> SO_kQueueRejected /\
  (so_code out = SO_kSubmitted ->
   (forall id r, st_jobs (store_view (mg_store m)) !! id = Some r -> u64 id) ->
   forall id r, st_jobs (store_view (mg_store m)) !! id = Some r -> id < so_job_id out).
Proof.
  intros Hm Hrun. destruct (process_submit_step _ _ _ _ _ _ Hm Hrun) as [Hm' Hstep].
  split_and!; [done|done|by destruct Hstep|]. intros Hcode Hids id r Hr.
  destruct Hstep as [|nid m' st record Hnid Hnew Hne _ _ _ _ _ _]; [done|]. simpl. rewrite Hnid in *.
  pose proof (sc_store _ _ (mk_sched _ (proj1 Hm))) as Hok.
  assert (Forall (fun r => sj_id r < next_job_id (snapshot_of st)) (map_values (st_jobs st))) as Habove.
  { apply (next_job_id_above (snapshot_of st)); [|done]. apply Forall_forall. intros x Hx. simpl in Hx.
    apply (elem_of_jobs _ _ _ Hok) in Hx. by eapply Hids. }
  rewrite Forall_forall in Habove. rewrite <- (view_id _ _ _ (proj1 Hm) Hr). apply Habove.
  apply elem_of_map_values. eauto.
Qed.


(** *** The process that a launch starts *)

Lemma rewrite_job_out admits id compose m : mg_out (rewrite_job admits id compose m).2 = mg_out m.
Proof.
  unfold rewrite_job. generalize 3%nat. intros n. revert m. induction n as [|n IH]; intros m; simpl; [done|].
  destruct (load_ok _); simpl; [|done]. destruct (find_stored _ _) as [r|]; [|done].
  destruct (compose r) as [u release]. unfold run_write. destruct (admits n); simpl.
  - destruct (store_apply _ _) as [w s]. case_match; [done|]. by rewrite IH.
  - done.
Qed.

Lemma fail_launch_out admits now id uuid reason m :
  mg_out (fail_launch admits now id uuid reason m) = mg_out m ++ [OutFinish id (job_state_wire kFailed) None].
Proof.
  unfold fail_launch.
  pose proof (rewrite_job_out admits id (compose_failed now reason uuid) (bump inc_launch_failures m)) as Ho.
  destruct (rewrite_job _ _ _ _) as [w m2]. simpl in Ho. destruct (write_ok w); simpl; by rewrite Ho.
Qed.

Lemma launch_spawned_out a id uuid directory identity sup m plan :
  OutSpawn plan ∈ mg_out (launch_spawned a id uuid directory identity sup m) -> OutSpawn plan ∈ mg_out m.
Proof.
  unfold launch_spawned. pose proof (rewrite_job_out (la_running_admits a) id
    (compose_running (la_started_at a) identity directory) m) as Ho.
  destruct (rewrite_job _ _ _ _) as [w m1]. simpl in Ho.
  assert (forall (calls : list KillCall), OutSpawn plan ∉ OutSignal <$> calls) as Hk.
  { intros calls (c & Hc & _)%list_elem_of_fmap. discriminate Hc. }
  destruct (write_ok w), (la_monitor a), (la_attach a); cbn [negb];
    rewrite ?fail_launch_out; simpl; rewrite ?elem_of_app, ?elem_of_cons, ?elem_of_nil, Ho; naive_solver.
Qed.

(** The plan that a launch spawns comes from [prepare]. *)
Lemma launch_spawn_prepared config a id uuid m plan :
  OutSpawn plan ∈ mg_out (launch_scheduled config a id uuid m) -> OutSpawn plan ∈ mg_out m \/
  exists r i, load_ok (store_load (mg_store m)) = true /\
    find_stored (lr_snapshot (store_load (mg_store m))) id = Some r /\ sj_state r = kStarting /\
    la_identity a (owner_uid (sj_spec r)) = Ok i /\
    prepare (la_adapter a) id (sj_spec r) (mkAssignment uuid (physical_index (la_gpus a) uuid) 0)
      (profile_from_spec (sj_spec r)) i = Ok plan.
Proof.
  unfold launch_scheduled. destruct (load_ok _) eqn:Hload; cbn [negb]; [|by left].
  destruct (find_stored _ _) as [r|] eqn:Hfind; [|by left].
  destruct (bool_decide_reflect (sj_state r = kStarting)) as [Hst|]; cbn [negb]; [|by left].
  assert (forall reason m0, OutSpawn plan ∈ mg_out
    (fail_launch (la_failed_admits a) (la_failed_at a) id uuid reason m0) -> OutSpawn plan ∈ mg_out m0) as Hf.
  { intros reason m0. rewrite fail_launch_out, elem_of_app, elem_of_cons, elem_of_nil. naive_solver. }
  destruct (prepare_launch _ _ _ _ _) as [[plan' directory]|reason] eqn:Hprep; [|by intros ?%Hf; left].
  assert (exists i, la_identity a (owner_uid (sj_spec r)) = Ok i /\
    prepare (la_adapter a) id (sj_spec r) (mkAssignment uuid (physical_index (la_gpus a) uuid) 0)
      (profile_from_spec (sj_spec r)) i = Ok plan') as (i & Hi & Hp).
  { unfold prepare_launch in Hprep. destruct (la_identity a _) as [i|[]] eqn:Hi; [|discriminate Hprep].
    cbn [result_bind] in Hprep. apply result_bind_ok in Hprep as (_ & _ & Hprep).
    apply result_bind_ok in Hprep as (plan0 & Hp & Hprep). exists i. split; [done|].
    destruct (prepare _ _ _ _ _ _) as [p|]; [|discriminate Hp]. injection Hp as ->.
    apply result_bind_ok in Hprep as (? & _ & Hprep). apply result_bind_ok in Hprep as (? & _ & Hprep).
    apply result_bind_ok in Hprep as (? & _ & Hprep). by injection Hprep as -> _. }
  destruct (spawn _ _ _) as [[identity|e] sup]; intros Hin.
  - apply launch_spawned_out in Hin. simpl in Hin. rewrite !elem_of_app, !elem_of_cons, elem_of_nil in Hin.
    destruct Hin as [[|[|]]|[[= ->]|]]; try done; [by left|]. right. by exists r, i.
  - apply Hf in Hin. simpl in Hin. rewrite !elem_of_app, !elem_of_cons, elem_of_nil in Hin. naive_solver.
Qed.

(** A job runs as its owner: every process a launch starts belongs to the
    STARTING job it was asked to launch, runs under the uid of that job's owner
    (never root), and, whatever the job's own variables say, its environment
    names this job and the leased GPU and carries the owner's [HOME] and
    [USER]; and the plan passed the final check of [spawn].  The resolver is
    asked to answer for the uid it is given and the whitelist to admit no
    reserved name; the daemon's own ones do. *)
Theorem launch_runs_as_owner config a id uuid m plan :
  (forall uid i, la_identity a uid = Ok i -> ii_uid i = uid) ->
  (forall k, is_reserved_environment_key k = true -> accepts (ad_policy (la_adapter a)) k = false) ->
  MgrOk m -> OutSpawn plan ∈ mg_out (launch_scheduled config a id uuid m) -> OutSpawn plan ∉ mg_out m ->
  exists r i,
    st_jobs (store_view (mg_store m)) !! id = Some r /\ sj_state r = kStarting /\
    la_identity a (owner_uid (sj_spec r)) = Ok i /\
    pl_uid plan = owner_uid (sj_spec r) /\ pl_uid plan <> 0 /\ plan_message plan = None /\
    (forall v, ("YORI_JOB_ID", v) ∈ pl_env plan <-> v = pretty id) /\
    (forall v, ("YORI_GPU_UUID", v) ∈ pl_env plan <-> v = uuid) /\
    (forall v, ("USER", v) ∈ pl_env plan <-> v = ii_username i) /\
    (forall v, ("HOME", v) ∈ pl_env plan <-> v = ii_home i) /\
    (forall v, ("LD_PRELOAD", v) ∉ pl_env plan).
Proof.
  intros Hres Hpol Hm Hin Hnew. pose proof (mk_sched _ (proj1 Hm)) as [Hinv Hok _ _].
  destruct (launch_spawn_prepared _ _ _ _ _ _ Hin) as [?|(r & i & Hload & Hfind & Hst & Hi & Hp)]; [done|].
  rewrite (store_load_view _ Hinv Hload), (find_stored_view _ _ _ Hok) in Hfind.
  destruct (prepared_env _ _ _ _ _ _ _ Hp Hpol) as (Henv & Huid & Hroot & Hmsg).
  assert (forall k w, is_reserved_environment_key k = true ->
    (managed_env id (mkAssignment uuid (physical_index (la_gpus a) uuid) 0) (lp_mode (profile_from_spec (sj_spec r)))
       ∪ identity_env i) !! k = Some w -> forall v, (k, v) ∈ pl_env plan <-> v = w) as Hval.
  { intros k w Hk Hw v. rewrite (Henv _ _ Hk), Hw. naive_solver. }
  exists r, i. rewrite Huid, <- (Hres _ _ Hi).
  split_and!; try done; [by rewrite (Hres _ _ Hi)|by rewrite <- Huid|unfold plan_message; by rewrite Hmsg|..].
  1-4: apply Hval; [done|]; by destruct (lp_mode _).
  intros v. rewrite Henv by done. by destruct (lp_mode _).
Qed.

(** C13. A launch never leaves a process behind: when a process was spawned for a
    STARTING job that holds its lease, either the job is RUNNING with that
    process stored, monitored and supervised, its lease kept, or the whole
    process group was killed, nothing new is supervised, and the job is FAILED
    with its lease released (or the store refused the write).  The new process
    does not have a pid whose exit is still to be handled ([fresh_pid]). *)
Theorem launch_exact config a id uuid r l m :
  MgrOk m -> st_jobs (store_view (mg_store m)) !! id = Some r -> sj_state r = kStarting ->
  st_leases (store_view (mg_store m)) !! uuid = Some l -> lease_job_id l = id -> fresh_pid a m ->
  let m' := launch_scheduled config a id uuid m in
  MgrOk m' /\ launch_step config a id uuid r m m'.
Proof. intros Hm Hr Hst Hl Hlid Hfresh. by eapply launch_scheduled_step. Qed.

(** C15. An exit is handled once and in one write: the event of a supervised pid
    belongs to a RUNNING or STOPPING job and its verdict (CANCELLED for a job
    being stopped, otherwise by the exit status) is a legal transition of that
    job; the terminal record and the release of the lease are stored together
    or not at all; the pid is forgotten, so that a second event for it changes
    nothing, and a scheduling round is requested. *)
Theorem process_exit_exact admits now event m id :
  MgrOk m -> mg_by_pid m !! xe_pid event = Some id ->
  let m' := process_exit admits now event m in
  exists job r, mg_supervised m !! id = Some job /\
    st_jobs (store_view (mg_store m)) !! id = Some r /\
    can_transition (sj_state r) (exit_verdict (sv_cancelling job) event).1 = true /\
    ((exit_verdict (sv_cancelling job) event).1 = kCancelled <-> sj_state r = kStopping) /\
    (exit_stored now event job r (store_view (mg_store m)) (store_view (mg_store m')) \/
     store_view (mg_store m') = store_view (mg_store m)) /\
    mg_wakes m' = mg_wakes m ++ [ST_kJobExited] /\ MgrOk m' /\
    forall admits' now' event', xe_pid event' = xe_pid event -> process_exit admits' now' event' m' = m'.
Proof.
  intros Hm Hpid m'. destruct (live_job _ _ _ Hm Hpid) as (job & r & Hjob & _ & Hr & Hst & Hcan & _).
  exists job, r.
  destruct (process_exit_spec admits now event m id job r Hm Hpid Hjob Hr)
    as (Hm' & Hp & Hw & _ & w & m1 & m2 & _ & _ & Heff).
  pose proof (exit_transition _ event _ Hst Hcan) as Htr. fold m' in Hp, Hw, Hm', Heff.
  split_and!; try done.
  - rewrite <- Hcan. unfold exit_verdict. destruct (sv_cancelling job); [done|]. repeat case_match; done.
  - destruct (write_ok w); auto.
  - intros admits' now' event' Heq. unfold process_exit. by rewrite Heq, Hp, lookup_delete_eq.
Qed.

(** Stopping the daemon ends no job: [abandon_supervised] forgets every
    supervised process (their number is what it returns and the counter drops
    to zero), sends no signal, writes nothing to the store or the queue, and
    destroying the worker afterwards sends no signal either. *)
Theorem stop_abandons m :
  MgrOk m ->
  let '(abandoned, m') := abandon_supervised m in
  abandoned = msize (mg_supervised m) /\ stat_active_supervised (mg_stats m') = 0 /\
  mg_store m' = mg_store m /\ mg_queue m' = mg_queue m /\
  (forall k, OutSignal k ∈ mg_out m' -> OutSignal k ∈ mg_out m) /\ destroy_worker m' = [].
Proof.
  intros Hm. unfold abandon_supervised.
  set (entries := map_entries (mg_supervised m)).
  assert (filter (fun e : N * SupervisedJob => abandons e.2 = true) entries = entries) as Hall.
  { apply filter_all, Forall_forall. intros [id job] He. apply elem_of_map_entries in He.
    destruct (mk_supervised _ (proj1 Hm) _ _ He) as (r & _ & [_ (sup & Hs & Hg & _) _ _]).
    unfold abandons. simpl. rewrite Hs. unfold abandon. by rewrite Hg. }
  rewrite Hall. replace (len entries) with (msize (mg_supervised m)) by (symmetry; apply len_map_entries).
  set (m1 := fold_left _ entries m).
  assert (mg_store m1 = mg_store m /\ mg_queue m1 = mg_queue m /\ mg_supervised m1 = mg_supervised m /\
    mg_stats m1 = mg_stats m /\ forall k, OutSignal k ∈ mg_out m1 -> OutSignal k ∈ mg_out m)
    as (E1 & E2 & E3 & E4 & E5).
  { unfold m1. clear Hall. generalize entries as l. clear m1 entries. intros l. revert m Hm.
    induction l as [|[id job] l IH] using rev_ind; intros m Hm; [done|]. rewrite fold_left_app. simpl.
    destruct (IH m Hm) as (A1 & A2 & A3 & A4 & A5). unfold disarm_grace.
    destruct (sv_grace job) as [[]|]; simpl; split_and!; try done.
    intros k [Hk|Hk%list_elem_of_singleton]%elem_of_app; [by apply A5|done]. }
  assert (forall m2 : Manager S, mg_supervised m2 = abandon_job <$> mg_supervised m1 -> destroy_worker m2 = []) as Hd.
  { intros m2 Em. unfold destroy_worker. assert (forall e, e ∈ map_entries (mg_supervised m2) ->
      sv_supervisor e.2 = None) as Hn.
    { intros [id job] He. apply elem_of_map_entries in He. rewrite Em, lookup_fmap_Some in He.
      by destruct He as (job0 & <- & _). }
    induction (map_entries (mg_supervised m2)) as [|e l IH]; simpl; [done|].
    rewrite (Hn e) by (by left). apply IH. intros e' He'. apply Hn. by right. }
  pose proof (mk_active _ (proj1 Hm)) as Hact. pose proof (supervised_bound _ (proj1 Hm)) as Hb.
  rewrite N.mod_small in Hact by (unfold kMaxCapacity in Hb; lia).
  destruct (N.ltb_spec 0 (msize (mg_supervised m))) as [Hpos|Hz]; (split_and!; simpl; try done; try by apply Hd).
  - rewrite E4, Hact. unfold usub64. rewrite N.leb_refl. lia.
  - rewrite E4, Hact. lia.
Qed.
End theorems.

(** C16. An exit is recorded.  On any store that keeps the contract of
    [StateStore] (the in-memory store and the serial wrapper do; the SQLite store
    answers like the in-memory one while its engine works and the records fit
    their columns) and that can be read and takes what the mutation core
    accepts, with an executor that takes the write, a revision below 2^64 - 1, a
    clock not before the job's start and an exit status as [waitpid] reports it:
    the exit of a supervised process ends its job in the terminal state of the
    verdict and frees its GPU, also when a cancellation came first. *)
Theorem exit_recorded {S} `{StateStoreLaws S} admits now event (m : Manager S) id :
  MgrOk m -> mg_by_pid m !! xe_pid event = Some id ->
  store_takes (mg_store m) -> admits 2%nat = true -> st_revision (store_view (mg_store m)) < u64_max ->
  (forall r t, st_jobs (store_view (mg_store m)) !! id = Some r ->
     xr_start_time (sj_execution r) = Some t -> (t <= now)%Z) ->
  (0 <= ex_exit_code (xe_status event) <= 255)%Z -> (0 <= ex_signal_number (xe_status event) <= 127)%Z ->
  let m' := process_exit admits now event m in
  exists job r, mg_supervised m !! id = Some job /\ st_jobs (store_view (mg_store m)) !! id = Some r /\
    exit_stored now event job r (store_view (mg_store m)) (store_view (mg_store m')) /\
    is_terminal (sj_state (exit_record now (sv_cancelling job) event r)) = true /\
    (forall u l, st_leases (store_view (mg_store m')) !! u = Some l -> lease_job_id l <> id).
Proof.
  intros Hm Hpid Hh Ha Hrev Hclock Hcode Hsig m'.
  destruct (live_job _ _ _ Hm Hpid) as (job & r & Hjob & Hex & Hr & Hst & Hcan & _). exists job, r.
  pose proof (view_id _ _ _ (proj1 Hm) Hr) as Hid.
  destruct (process_exit_spec admits now event m id job r Hm Hpid Hjob Hr)
    as (Hm' & _ & _ & _ & w & m1 & m2 & Es1 & Hrun & Heff).
  destruct (mk_supervised _ (proj1 Hm) _ _ Hjob) as (r0 & Hr0 & Hs). rewrite Hr in Hr0. injection Hr0 as <-.
  destruct (su_live _ _ _ _ _ Hs Hex) as (_ & _ & l & Hl & Hlid).
  pose proof (mk_sched _ (proj1 Hm)) as [Hinv Hok _ _].
  set (u := exit_record now (sv_cancelling job) event r).
  assert (exit_compose now event job r = (u, Some (sv_leased_gpu job))) as Hcomp.
  { unfold exit_compose, compose_exit, u, exit_record.
    destruct (exit_verdict _ _) as [terminal reason]. destruct Hst as [Hst|Hst]; by rewrite Hst. }
  assert (sj_id u = sj_id r /\ sj_spec u = sj_spec r /\ sj_revision u = sj_revision r + 1 /\
    sj_state u = (exit_verdict (sv_cancelling job) event).1) as (U1 & U2 & U3 & U4).
  { unfold u, exit_record. by destruct (exit_verdict _ _). }
  assert (is_terminal (sj_state u) = true) as Hterm by (rewrite U4; apply exit_verdict_terminal).
  assert (ExecutionOk (sj_execution u) (sj_state u) (sj_spec u)) as Hx.
  { apply exit_record_ok; [|done|by intros t; apply (Hclock r)|by apply exit_reason_fits].
    apply (map_Forall_lookup_1 _ _ _ _ (sto_jobs _ _ Hok) Hr). }
  pose proof (end_job_accepted (store_config (mg_store m)) (store_view (mg_store m)) r u (sv_leased_gpu job) l Hok Hrev
    ltac:(by rewrite Hid) Hl ltac:(by rewrite Hid) U1 U2 U3
    ltac:(rewrite U4; by apply exit_transition) Hterm Hx) as Hmut.
  assert (write_ok w = true) as Hw.
  { replace w with (rewrite_job admits id (exit_compose now event job) m1).1 by (by rewrite Hrun).
    eapply (rewrite_job_accepted _ _ _ _ r); rewrite ?Es1; try done. by rewrite Hcomp. }
  rewrite Hw in Heff. split_and!; [done..|]. intros v k Hk Hkid.
  assert (st_jobs (store_view (mg_store m')) !! id = Some u) as Hu
    by (pose proof (proj1 Heff) as Hj; rewrite Hid in Hj;
        exact (eq_trans (f_equal (lookup id) Hj) (lookup_insert_eq _ _ _))).
  destruct (sto_lease_job _ _ (sc_store _ _ (mk_sched _ (proj1 Hm'))) _ _ Hk) as (r2 & Hr2 & Hl2).
  rewrite Hkid in Hr2. pose proof (eq_trans (eq_sym Hr2) Hu) as [= ->]. by destruct (sj_state u).
Qed.

(** ** Witnesses *)

Definition example_manager_config : JobManagerConfig := mkManagerConfig 10000 "/var/log" 256 5000 32.

Definition example_manager : Manager InMemoryStateStore := new_manager example_fifo example_store.

Lemma example_manager_ok : MgrOk example_manager.
Proof. apply new_manager_ok; [apply (example_sched_ok None); done|vm_compute; done]. Qed.

(** Answers under which every part does its work *)
Definition example_launch : LaunchAnswers :=
  mkLaunchAnswers (Some (example_gpus GO_kFree))
    (resolve (fun _ => (0%Z, Some (mkPasswd 1000 (Some "ada") (Some "/home/ada") (Some "/bin/sh"))))
       (fun _ gid _ => Some [gid]))
    example_adapter (fun _ => "error") 0 (fun _ => None) (fun _ => Ok (mkStatus 16872 0)) (fun _ => Ok tt) (Ok tt)
    (Ok example_identity) true true (fun _ => true) (fun _ => true) 8 9.

Definition example_schedule_answers : ScheduleAnswers := mkScheduleAnswers true (Some (example_gpus GO_kFree)) true true.

Definition example_wake : Event := EvWake example_schedule_answers example_launch ST_kJobSubmitted.

(** Job 3 is running. *)
Definition example_running : Manager InMemoryStateStore :=
  worker_step example_manager_config example_wake example_manager.

Lemma example_running_ok : MgrOk example_running.
Proof. apply worker_step_ok; [apply example_manager_ok|]. intros i Hi. reflexivity. Qed.

Definition example_exit : ExitEvent := mkExitEvent 100 (mkIdentity 100 100 5) (mkExitStatus ER_kExited 0 0) true.

Definition example_cancel_answers : CancelAnswers := mkCancelAnswers 0 (fun _ => None) true.

Definition example_adopt : AdoptAnswers := mkAdoptAnswers (fun _ => true) true example_cancel_answers.

(** An exit event is matched with a job by its pid alone: one of an earlier process
    with this pid (another start time) ends the job whose process is running. *)
Definition stale_exit : ExitEvent := mkExitEvent 100 (mkIdentity 100 100 4) (mkExitStatus ER_kExited 0 0) true.

Example exit_by_pid_only :
  xr_identity ∘ sj_execution <$> st_jobs (store_view (mg_store example_running)) !! 3 = Some (mkIdentity 100 100 5) /\
  sj_state <$> st_jobs (store_view (mg_store (process_exit (fun _ => true) 9 stale_exit example_running))) !! 3 = Some kFinished.
Proof. by vm_compute. Qed.

(** A daemon that restarts on a store with a queued job and runs it. *)
Lemma daemon_session_witness :
  let '(res, q, s) := recover 8 gone example_empty_queue example_store in
  MgrOk (worker_step example_manager_config example_wake
           (arm_recovery example_manager_config (fun _ => example_adopt) (Some res) (new_manager q s))).
Proof.
  destruct (recover 8 gone example_empty_queue example_store) as [[res q] s] eqn:Hrec.
  pose proof (example_sched_ok None ltac:(done)) as [Hinv Hok _ _].
  apply (daemon_session example_manager_config 8 gone (fun _ => example_adopt) example_empty_queue example_store res q s
           [example_wake] _ Hinv Hok example_empty_queue_ok ltac:(vm_compute; done) Hrec).
  - vm_compute in Hrec. injection Hrec as <- _ _. reflexivity.
  - intros id1 id2 r1 r2 _ _ _ _ Hv. discriminate Hv.
  - apply run_cons; [|apply run_nil]. intros i _. vm_compute in Hrec. injection Hrec as <- <- <-. reflexivity.
Defined.

Lemma process_submit_exact_witness :
  so_code (process_submit true true example_spec example_manager).1 = SO_kSubmitted /\
  so_job_id (process_submit true true example_spec example_manager).1 = 4 /\
  MgrOk (process_submit true true example_spec example_manager).2.
Proof.
  destruct (process_submit true true example_spec example_manager) as [out m'] eqn:Hrun.
  destruct (process_submit_exact _ _ _ _ _ _ example_manager_ok Hrun) as (Hm & _).
  split_and!; [vm_compute in Hrun; injection Hrun as <- _; reflexivity..|exact Hm].
Defined.


Lemma process_exit_exact_witness :
  mg_by_pid example_running !! 100%Z = Some 3 /\
  MgrOk (process_exit (fun _ => true) 9 example_exit example_running).
Proof.
  split; [vm_compute; reflexivity|].
  destruct (process_exit_exact (fun _ => true) 9 example_exit example_running 3 example_running_ok
              ltac:(vm_compute; reflexivity)) as (job & r & _ & _ & _ & _ & _ & _ & Hm & _). exact Hm.
Defined.

Lemma exit_recorded_witness :
  st_leases (im_state (mg_store example_running)) !! "GPU-a" = Some (mkLease "GPU-a" 3) /\
  forall u l, st_leases (im_state (mg_store (process_exit (fun _ => true) 9 example_exit example_running))) !! u = Some l ->
    lease_job_id l <> 3.
Proof.
  split; [vm_compute; reflexivity|].
  destruct (exit_recorded (fun _ => true) 9 example_exit example_running 3 example_running_ok
    ltac:(vm_compute; reflexivity) (im_healthy_takes (mg_store example_running) ltac:(vm_compute; done)) eq_refl ltac:(vm_compute; done)
    ltac:(intros r t Hr; vm_compute in Hr; injection Hr as <-; intros [= <-]; done)
    ltac:(vm_compute; done) ltac:(vm_compute; done)) as (job & r & _ & _ & _ & _ & Hl). exact Hl.
Defined.

Lemma stop_abandons_witness : (abandon_supervised example_running).1 = 1.
Proof.
  pose proof (stop_abandons example_running example_running_ok) as Hs.
  destruct (abandon_supervised example_running) as [n m']. destruct Hs as [-> _]. vm_compute. reflexivity.
Defined.

(** Job 3 is about to be launched. *)
Definition example_starting_manager : Manager InMemoryStateStore :=
  new_manager (mkQueue 4 []) (mkInMemory example_config example_state2 None None).

Lemma example_starting_ok : MgrOk example_starting_manager.
Proof.
  apply new_manager_ok; [|vm_compute; done]. constructor; simpl.
  - done.
  - apply store_reachable_inv, example_reachable2.
  - constructor; simpl; [unfold kMaxCapacity; lia|constructor..|vm_compute; done].
  - intros e. simpl. split; [by intros ?%not_elem_of_nil|]. intros (r & Hr & Hq & _).
    apply lookup_singleton_Some in Hr as [_ <-]. discriminate Hq.
Qed.

Definition example_started_plan : LaunchPlan :=
  assemble example_adapter 3 example_spec
    (mkAssignment "GPU-a" (physical_index (Some (example_gpus GO_kFree)) "GPU-a") 0)
    (mkProfile GM_kCudaVisibleDevices "") (mkIdentityInfo 1000 1000 "ada" "/home/ada" "/bin/sh" [1000]).

Lemma launch_runs_as_owner_witness :
  mg_out (launch_scheduled example_manager_config example_launch 3 "GPU-a" example_starting_manager)
    = [OutRegister 3; OutSpawn example_started_plan; OutMonitor 100] /\
  forall v, ("YORI_GPU_UUID", v) ∈ pl_env example_started_plan <-> v = "GPU-a".
Proof.
  assert (mg_out (launch_scheduled example_manager_config example_launch 3 "GPU-a" example_starting_manager)
    = [OutRegister 3; OutSpawn example_started_plan; OutMonitor 100]) as Hout by (vm_compute; reflexivity).
  split; [exact Hout|].
  destruct (launch_runs_as_owner example_manager_config example_launch 3 "GPU-a" example_starting_manager
    example_started_plan) as (r & i & _ & _ & _ & _ & _ & _ & _ & Hgpu & _).
  - intros uid i Hi. exact (proj1 (resolve_ok _ _ _ _ Hi)).
  - exact default_policy_safe.
  - exact example_starting_ok.
  - rewrite Hout. right. left.
  - by intros ?%not_elem_of_nil.
  - exact Hgpu.
Defined.

Lemma launch_exact_witness :
  mg_by_pid (launch_scheduled example_manager_config example_launch 3 "GPU-a" example_starting_manager)
    = {[ 100%Z := 3 ]} /\
  MgrOk (launch_scheduled example_manager_config example_launch 3 "GPU-a" example_starting_manager).
Proof.
  split; [vm_compute; reflexivity|].
  refine (proj1 (launch_exact example_manager_config example_launch 3 "GPU-a" example_starting
    (mkLease "GPU-a" 3) example_starting_manager example_starting_ok _ _ _ _ _)); try reflexivity.
  intros i _. reflexivity.
Defined.
