(* ===== verification/Spawn.v ===== *)
(** * Starting a process: the fork and exec part of
    [src/process/process_supervisor.cpp]

    [ProcessSupervisor::spawn] from its guards to the running process: the three
    pipes, [fork], the child's preparation ([run_child]: report descriptor,
    process group, standard descriptors, change of identity, working
    directory), the choice of the program ([child_exec]), the child's error
    report and the parent's reading of it, and the clean-up on failure.

    Descriptor tables are explicit: a new descriptor is the lowest free one, a
    descriptor has its close-on-exec flag, and [dup2], [close_range] and
    [execve] act on the table the way POSIX says.  Credentials follow the kernel
    rule that only root may change its groups or become somebody else.  What
    the kernel decides beyond that (whether a call fails, and with which
    [errno]; what the file system has; how reads and writes are cut) is an
    answer given to the definitions.

    [spawn_confined], [spawn_verdict]: what a [spawn] leaves, by its result.
    [child_exec_exact]: which program runs.  [job_runs_as_owner]: as whom.
    [supervisor_signals]: the signals of any session of calls. *)

From S2P Require Import Prelude.
From S2P Require Import Job.
From S2P Require Import Store.
From S2P Require Import Supervisor.
From S2P Require Import Launch.
From S2P Require Import JobManager.
From S2P Require Import ManagerProofs.

(** ** Descriptor tables *)

Inductive PipeName := P_stdout | P_stderr | P_report.

(** What a descriptor refers to; [Inherited] is whatever the daemon had open. *)
Inductive OpenFile := Inherited (id : N) | DevNull | ReadEnd (p : PipeName) | WriteEnd (p : PipeName).

(** Descriptors with their [FD_CLOEXEC] flag *)
Notation FdTable := (gmap N (OpenFile * bool)).

Fixpoint first_free (fuel : nat) (n : N) (t : FdTable) : N :=
  match fuel with
  | O => n
  | Datatypes.S fuel => match t !! n with Some _ => first_free fuel (n + 1) t | None => n end
  end.

(** The lowest descriptor that is not open; [size t] steps are enough. *)
Definition lowest_free (t : FdTable) : N := first_free (size t) 0 t.

Definition fd_open (file : OpenFile) (t : FdTable) : N * FdTable :=
  let n := lowest_free t in (n, <[n := (file, true)]> t).

(** [pipe2(_, O_CLOEXEC)] *)
Definition fd_pipe (p : PipeName) (t : FdTable) : N * N * FdTable :=
  let '(r, t1) := fd_open (ReadEnd p) t in
  let '(w, t2) := fd_open (WriteEnd p) t1 in
  (r, w, t2).

(** [dup2(old, new)] *)
Definition fd_dup2 (old new : N) (t : FdTable) : option FdTable :=
  match t !! old with
  | Some (file, _) => Some (if old =? new then t else <[new := (file, false)]> t)
  | None => None
  end.

(** [close_range(first, ~0U, 0)] *)
Definition fd_close_from (first : N) (t : FdTable) : FdTable := filter (fun entry => entry.1 < first) t.

(** What is left of the table after [execve] *)
Definition fd_exec (t : FdTable) : FdTable := filter (fun entry => entry.2.2 = false) t.

(** ** Names *)

(** [to_string] of the supervisor's codes *)
Definition ExitReason_to_string (reason : ExitReason) : string :=
  match reason with ER_kExited => "exited" | ER_kSignaled => "signaled" | ER_kUnknown => "unknown" end.

Definition AdoptErrorCode_to_string (code : AdoptErrorCode) : string :=
  match code with
  | AE_kNone => "none"
  | AE_kAlreadyRunning => "supervisor already manages a running process"
  | AE_kInvalidIdentity => "invalid process identity"
  | AE_kIdentityVerifyFailed => "process identity verification failed"
  end.

Definition CancelOutcome_to_string (outcome : CancelOutcome) : string :=
  match outcome with
  | CX_kTerminating => "terminating"
  | CX_kAlreadyTerminating => "already terminating"
  | CX_kNotRunning => "no running process"
  | CX_kAlreadyExited => "already exited"
  | CX_kSignalFailed => "signal delivery failed"
  end.

Definition EscalationOutcome_to_string (outcome : EscalationOutcome) : string :=
  match outcome with
  | EO_kKilled => "killed"
  | EO_kGraceNotExpired => "grace period not expired"
  | EO_kNotTerminating => "not terminating"
  | EO_kAlreadyExited => "already exited"
  | EO_kSignalFailed => "signal delivery failed"
  end.

Definition ExitPollOutcome_to_string (outcome : ExitPollOutcome) : string :=
  match outcome with
  | EP_kStillRunning => "still running"
  | EP_kExited => "exited"
  | EP_kNotSpawned => "not spawned"
  | EP_kWaitFailed => "waitpid failed"
  end.

Definition Phase_to_string (phase : Phase) : string :=
  match phase with
  | PH_kIdle => "idle"
  | PH_kRunning => "running"
  | PH_kTerminating => "terminating"
  | PH_kExited => "exited"
  end.

(** ** The child *)

Definition kExecReportFd : N := 3.

(** [kExecConfirmationTimeout], in milliseconds *)
Definition kExecConfirmationTimeout : Z := 10000.

Inductive ChildStage := CG_kProcessGroup | CG_kDemotion | CG_kChdir | CG_kExec.

Definition stage_byte (stage : ChildStage) : N :=
  match stage with CG_kProcessGroup => 1 | CG_kDemotion => 2 | CG_kChdir => 3 | CG_kExec => 4 end.

Record Creds := mkCreds { cr_uid : N; cr_gid : N; cr_groups : list N }.

(** What the child process has that the code sets up *)
Record Child := mkChild {
  ch_fds : FdTable;
  ch_leader : bool;          (* leads a process group of its own *)
  ch_sigpipe_ignored : bool;
  ch_creds : Creds;
  ch_cwd : string;
  ch_blocked : list Z;       (* the signal mask, kept by [fork] and [execve] *)
}.

(** The kernel's answers to the child's calls: [Some errno] is a failure.
    [ca_dup] is asked for the target of a [dup2], [ca_report] gives the results
    of the writes of the error report. *)
Record ChildAnswers := mkChildAnswers {
  ca_dup : N -> option Z;
  ca_setpgid : option Z;
  ca_devnull : option Z;
  ca_close_range : bool;
  ca_setgroups : option Z;
  ca_setgid : option Z;
  ca_setuid : option Z;
  ca_chdir : string -> option Z;
  ca_access : string -> bool;
  ca_execve : string -> option Z;
  ca_report : list Z;
}.

(** A program that replaced the child *)
Record Image := mkImage {
  im_path : string;
  im_argv : list string;
  im_envp : list string;
  im_child : Child;
}.

(** How a child ends that does not reach its program *)
Inductive ChildFailure := CF_exit126 | CF_report (stage : ChildStage) (errno : Z).

Definition EPERM : Z := 1.
Definition EBADF : Z := 9.
Definition ENOTDIR : Z := 20.
Definition ENAMETOOLONG : Z := 36.
Definition ELOOP : Z := 40.

Definition SIGINT_number : Z := 2.
Definition SIGTERM_number : Z := 15.

(** [write_child_report]'s loop: the bytes that reach the pipe *)
Fixpoint write_report (answers : list Z) (report : list N) : list N :=
  match answers with
  | [] => report
  | n :: answers =>
      match report with
      | [] => []
      | _ => if (n <=? 0)%Z then [] else take (Z.to_nat n) report ++ write_report answers (drop (Z.to_nat n) report)
      end
  end.

(** What is in the report pipe when the child has ended or runs its program *)
Definition report_of (a : ChildAnswers) (fate : Result ChildFailure Image) : list N :=
  match fate with
  | Ok _ | Err CF_exit126 => []
  | Err (CF_report stage errno) => write_report (ca_report a) [stage_byte stage; Z.to_N (Z.land errno 255)]
  end.

Definition child_dup2 (a : ChildAnswers) (old new : N) (c : Child) : Result Z Child :=
  match ca_dup a new with
  | Some errno => Err errno
  | None =>
      match fd_dup2 old new (ch_fds c) with
      | Some t => Ok {| c with ch_fds := t |}
      | None => Err EBADF
      end
  end.

(** A failure of the child at a stage it reports *)
Definition at_stage {A} (stage : ChildStage) (r : Result Z A) : Result ChildFailure A :=
  match r with Ok x => Ok x | Err errno => Err (CF_report stage errno) end.

Definition answered (answer : option Z) : Result Z unit :=
  match answer with Some errno => Err errno | None => Ok tt end.

(** [setgroups], [setgid], [setuid]: a process that is not root may only keep
    the identity it has. *)
Definition sys_setgroups (answer : option Z) (groups : list N) (cr : Creds) : Result Z Creds :=
  if cr_uid cr =? 0 then let? '_ := answered answer in Ok {| cr with cr_groups := groups |} else Err EPERM.

Definition sys_setgid (answer : option Z) (gid : N) (cr : Creds) : Result Z Creds :=
  if (cr_uid cr =? 0) || (cr_gid cr =? gid)
  then let? '_ := answered answer in Ok {| cr with cr_gid := gid |} else Err EPERM.

Definition sys_setuid (answer : option Z) (uid : N) (cr : Creds) : Result Z Creds :=
  if (cr_uid cr =? 0) || (cr_uid cr =? uid)
  then let? '_ := answered answer in Ok {| cr with cr_uid := uid |} else Err EPERM.

(** The change of identity in [run_child] *)
Definition demote (a : ChildAnswers) (plan : LaunchPlan) (cr : Creds) : Result Z Creds :=
  if (cr_uid cr =? pl_uid plan) && (cr_gid cr =? pl_gid plan) then Ok cr
  else
    let groups :=
      match pl_supplementary_groups plan with [] => [pl_gid plan] | groups => groups end in
    let? cr := sys_setgroups (ca_setgroups a) groups cr in
    let? cr := sys_setgid (ca_setgid a) (pl_gid plan) cr in
    sys_setuid (ca_setuid a) (pl_uid plan) cr.

(** *** [child_exec] *)

(** [join_path] of the child, into a buffer of [out_size] bytes *)
Definition child_join_path (directory name : string) (out_size : N) : option string :=
  if sempty directory || sempty name || (out_size <? slen directory + 1 + slen name + 1) then None
  else Some (directory +:+ (if back_is "/"%char directory then "" else "/") +:+ name).

(** [strchr(cursor, ':')]: what is before the colon, and after it if there is one *)
Fixpoint cut_colon (cursor : string) : string * option string :=
  match cursor with
  | EmptyString => ("", None)
  | String c rest =>
      if Ascii.eqb c ":" then ("", Some rest)
      else let '(entry, next) := cut_colon rest in (String c entry, next)
  end.

(** The errors after which the search goes on *)
Definition skips (errno : Z) : bool :=
  ((errno =? EACCES) || (errno =? ENOENT) || (errno =? ENOTDIR) || (errno =? ELOOP) || (errno =? ENAMETOOLONG))%Z.

(** The loop over [PATH]: the program started, or the [errno] reported *)
Fixpoint path_loop (fuel : nat) (a : ChildAnswers) (name cursor : string) : Result Z string :=
  match fuel with
  | O => Err ENOENT
  | Datatypes.S fuel =>
      if sempty cursor then Err ENOENT
      else
        let '(entry, rest) := cut_colon cursor in
        let next := match rest with Some rest => path_loop fuel a name rest | None => Err ENOENT end in
        match child_join_path entry name 4096 with
        | Some candidate =>
            if ca_access a candidate then
              match ca_execve a candidate with
              | None => Ok candidate
              | Some errno => if skips errno then next else Err ENOENT
              end
            else next
        | None => next
        end
  end.

(** The value of the first [PATH=] entry *)
Fixpoint env_path (envp : list string) : option string :=
  match envp with
  | [] => None
  | entry :: envp => if String.prefix "PATH=" entry then Some (String.substring 5 (String.length entry - 5) entry) else env_path envp
  end.

Definition direct_exec (a : ChildAnswers) (path : string) : Result Z string :=
  match ca_execve a path with None => Ok path | Some errno => Err errno end.

(** [child_exec]: the program started, or the [errno] reported.  The strings of
    a valid plan have no NUL, so they are the C strings passed on. *)
Definition child_exec (a : ChildAnswers) (plan : LaunchPlan) (envp : list string) : Result Z string :=
  let name := hd "" (pl_argv plan) in
  if negb (sempty (pl_executable plan)) then direct_exec a (pl_executable plan)
  else if contains_char "/"%char name then direct_exec a name
  else
    let path := default "/bin:/usr/bin" (env_path envp) in
    path_loop (Datatypes.S (String.length path)) a name path.

(** The [environment_strings] of [spawn] *)
Definition env_strings (plan : LaunchPlan) : list string := (fun e => e.1 +:+ "=" +:+ e.2) <$> pl_env plan.

(** [run_child] *)
Definition run_child (a : ChildAnswers) (plan : LaunchPlan) (out_w err_w report_w : N) (c : Child)
  : Result ChildFailure Image :=
  match child_dup2 a report_w kExecReportFd c with
  | Err _ => Err CF_exit126
  | Ok c =>
      let c := {| c with ch_fds := alter (fun e => (e.1, true)) kExecReportFd (ch_fds c) |} in
      let? '_ := at_stage CG_kProcessGroup (answered (ca_setpgid a)) in
      let c := {| c with ch_leader := true |} in
      let c := {| c with ch_sigpipe_ignored := true |} in
      let? '_ := at_stage CG_kExec (answered (ca_devnull a)) in
      let '(devnull, fds) := fd_open DevNull (ch_fds c) in
      let c := {| c with ch_fds := fds |} in
      let? c := at_stage CG_kExec (child_dup2 a devnull 0 c) in
      let? c := at_stage CG_kExec (child_dup2 a out_w 1 c) in
      let? c := at_stage CG_kExec (child_dup2 a err_w 2 c) in
      let c := if ca_close_range a then {| c with ch_fds := fd_close_from (kExecReportFd + 1) (ch_fds c) |} else c in
      let? cr := at_stage CG_kDemotion (demote a plan (ch_creds c)) in
      let c := {| c with ch_creds := cr |} in
      let? '_ := at_stage CG_kChdir
                  (if sempty (pl_cwd plan) then Ok tt else answered (ca_chdir a (pl_cwd plan))) in
      let c := if sempty (pl_cwd plan) then c else {| c with ch_cwd := pl_cwd plan |} in
      let? path := at_stage CG_kExec (child_exec a plan (env_strings plan)) in
      Ok (mkImage path (pl_argv plan) (env_strings plan) {| c with ch_fds := fd_exec (ch_fds c) |})
  end.

(** ** The parent *)

(** [map_child_stage] of the reported byte; a byte that is no stage is taken
    for the last one. *)
Definition map_child_stage (stage : N) : SpawnErrorCode :=
  if stage =? 1 then SP_kProcessGroupFailed
  else if stage =? 2 then SP_kIdentitySwitchFailed
  else if stage =? 3 then SP_kChdirFailed
  else SP_kExecFailed.

(** What [poll] on the report pipe answers *)
Inductive ReportPoll := RL_intr | RL_timeout | RL_failed (errno : Z) | RL_ready.

Fixpoint poll_report (answers : list ReportPoll) : ReportPoll :=
  match answers with
  | [] => RL_ready
  | RL_intr :: answers => poll_report answers
  | answer :: _ => answer
  end.

(** One [read]: interrupted, failed, or at most [cut + 1] bytes *)
Inductive ReportRead := RR_intr | RR_failed | RR_some (cut : nat).

(** The read loop: [content] is what the pipe still holds before its end. *)
Fixpoint read_report (answers : list ReportRead) (content report : list N) : list N :=
  if 2 <=? len report then report
  else
    match answers with
    | [] => report ++ take (2 - length report) content
    | RR_intr :: answers => read_report answers content report
    | RR_failed :: _ => report
    | RR_some cut :: answers =>
        let n := Nat.min (Datatypes.S cut) (2 - length report) in
        match content with
        | [] => report
        | _ => read_report answers (drop n content) (report ++ take n content)
        end
    end.

(** [code], [error_number] and [message] of a [SpawnResult] *)
Record SpawnError := mkSpawnError { se_code : SpawnErrorCode; se_errno : Z; se_message : string }.

Definition spawn_error (code : SpawnErrorCode) (errno : Z) : SpawnError :=
  mkSpawnError code errno (SpawnErrorCode_to_string code).

(** [wait_for_exec_confirmation] *)
Definition wait_for_exec_confirmation (polls : list ReportPoll) (reads : list ReportRead) (content : list N)
  : option SpawnError :=
  match poll_report polls with
  | RL_timeout =>
      Some (mkSpawnError SP_kExecConfirmationTimeout 0 "child did not confirm exec within the timeout")
  | RL_failed errno =>
      Some (mkSpawnError SP_kExecConfirmationTimeout errno "poll on the exec report pipe failed")
  | _ =>
      match read_report reads content [] with
      | [] => None
      | [stage] => Some (mkSpawnError (map_child_stage stage) 0 "child failed before or during exec")
      | stage :: errno :: _ =>
          Some (mkSpawnError (map_child_stage stage) (Z.of_N errno) "child failed before or during exec")
      end
  end.

(** [reap_child]: whether the child is gone from the process table.  The list
    gives what [waitpid] answers before it answers with the child. *)
Fixpoint reap_child (answers : list WaitAnswer) : bool :=
  match answers with
  | [] => true
  | WaitReaped _ :: _ => true
  | WaitFailed errno :: answers =>
      if (errno =? 10)%Z then true else if (errno =? EINTR)%Z then reap_child answers else false
  | WaitNone :: answers => reap_child answers
  end.

(** The daemon as [spawn] finds it *)
Record Parent := mkParent { pa_fds : FdTable; pa_creds : Creds; pa_cwd : string; pa_blocked : list Z }.

(** The kernel's answers to the parent.  [an_errno] is [errno] after the child
    was killed and reaped, from what it was before; [an_identity_errno] is what
    it is when the identity could not be read. *)
Record SpawnAnswers := mkSpawnAnswers {
  an_pipe : PipeName -> option Z;
  an_fork : Result Z Z;
  an_child : ChildAnswers;
  an_setpgid : option Z;
  an_polls : list ReportPoll;
  an_reads : list ReportRead;
  an_getpgid : option Z;
  an_start_ticks : option N;
  an_waits : list WaitAnswer;
  an_errno : Z -> Z;
  an_identity_errno : Z;
}.

(** What became of the child process *)
Inductive ChildState := CS_none | CS_killed (pid : Z) (reaped : bool) | CS_running (fate : Result ChildFailure Image).

(** The three pipes; those made before a failure stay open. *)
Definition spawn_pipes (an : SpawnAnswers) (t : FdTable)
  : Result (Z * FdTable) ((N * N) * (N * N) * (N * N) * FdTable) :=
  match an_pipe an P_stdout with
  | Some errno => Err (errno, t)
  | None =>
      let '(out_r, out_w, t1) := fd_pipe P_stdout t in
      match an_pipe an P_stderr with
      | Some errno => Err (errno, t1)
      | None =>
          let '(err_r, err_w, t2) := fd_pipe P_stderr t1 in
          match an_pipe an P_report with
          | Some errno => Err (errno, t2)
          | None =>
              let '(rep_r, rep_w, t3) := fd_pipe P_report t2 in
              Ok ((out_r, out_w), (err_r, err_w), (rep_r, rep_w), t3)
          end
      end
  end.

(** The parent's own [setpgid(child, child)]: the errors that count *)
Definition setpgid_error (an : SpawnAnswers) : option Z :=
  match an_setpgid an with
  | Some errno => if negb (errno =? EACCES)%Z && negb (errno =? ESRCH)%Z then Some errno else None
  | None => None
  end.

(** [spawn] after its guards: the result, the daemon's descriptors and the
    child.  The read ends are closed when a failure returns (their owners are
    local); the report's read end always is. *)
Definition fork_exec (an : SpawnAnswers) (plan : LaunchPlan) (pa : Parent)
  : Result SpawnError (ProcessIdentity * N * N) * FdTable * ChildState :=
  match spawn_pipes an (pa_fds pa) with
  | Err (errno, t) => (Err (spawn_error SP_kPipeFailed errno), t, CS_none)
  | Ok ((out_r, out_w), (err_r, err_w), (rep_r, rep_w), t) =>
      match an_fork an with
      | Err errno => (Err (spawn_error SP_kForkFailed errno), t, CS_none)
      | Ok child =>
          let fate := run_child (an_child an) plan out_w err_w rep_w
                        (mkChild t false false (pa_creds pa) (pa_cwd pa) (pa_blocked pa)) in
          let t := delete rep_w (delete err_w (delete out_w t)) in
          let closed := delete out_r (delete err_r (delete rep_r t)) in
          let killed := CS_killed child (reap_child (an_waits an)) in
          match setpgid_error an with
          | Some errno => (Err (spawn_error SP_kProcessGroupFailed (an_errno an errno)), closed, killed)
          | None =>
              match wait_for_exec_confirmation (an_polls an) (an_reads an) (report_of (an_child an) fate) with
              | Some e => (Err e, closed, killed)
              | None =>
                  match an_getpgid an, an_start_ticks an with
                  | Some pgid, Some ticks =>
                      (Ok (mkIdentity child pgid ticks, out_r, err_r), delete rep_r t, CS_running fate)
                  | _, _ => (Err (spawn_error SP_kIdentityReadFailed (an_identity_errno an)), closed, killed)
                  end
              end
          end
      end
  end.

(** What [fork_exec] means to the supervisor *)
Definition spawn_answer (r : Result SpawnError (ProcessIdentity * N * N))
  : Result (SpawnErrorCode * string) ProcessIdentity :=
  match r with
  | Ok (identity, _, _) => Ok identity
  | Err e => Err (se_code e, se_message e)
  end.

(** [ProcessSupervisor::spawn], whole: the guards of [spawn] in [Supervisor.v],
    and the processes and descriptors behind it. *)
Definition spawn_process (an : SpawnAnswers) (plan : LaunchPlan) (pa : Parent) (s : Supervisor)
  : Result (SpawnErrorCode * string) ProcessIdentity * Supervisor * FdTable * ChildState :=
  match spawn (plan_message plan) (Ok no_identity) s with
  | (Err e, s) => (Err e, s, pa_fds pa, CS_none)
  | (Ok _, _) =>
      let '(r, t, child) := fork_exec an plan pa in
      let '(answer, s) := spawn (plan_message plan) (spawn_answer r) s in
      (answer, s, t, child)
  end.

(** ** Specification *)

(** The standard descriptors are open, so new descriptors start at 3. *)
Definition std_open (t : FdTable) : Prop := forall n, n < 3 -> is_Some (t !! n).

(** What a job's process has open *)
Definition std_fds : FdTable :=
  {[ 0 := (DevNull, false); 1 := (WriteEnd P_stdout, false); 2 := (WriteEnd P_stderr, false) ]}.

(** Nothing else survives [execve]: [close_range] works, or the daemon opens
    everything close-on-exec. *)
Definition sealed (a : ChildAnswers) (t : FdTable) : Prop :=
  ca_close_range a = true \/ forall n e, 3 <= n -> t !! n = Some e -> e.2 = true.

(** The child can report: it gets its report descriptor, and the first write of
    a report moves something; the parent's reads do not fail. *)
Definition can_report (an : SpawnAnswers) : Prop :=
  ca_dup (an_child an) kExecReportFd = None /\
  match ca_report (an_child an) with [] => True | n :: _ => (0 < n)%Z end /\
  Forall (fun r => r <> RR_failed) (an_reads an).

(** The supplementary groups a job runs with *)
Definition wanted_groups (plan : LaunchPlan) : list N :=
  match pl_supplementary_groups plan with [] => [pl_gid plan] | groups => groups end.

(** The program of [plan], started from the daemon [pa] *)
Record Confined (plan : LaunchPlan) (pa : Parent) (im : Image) : Prop := {
  cf_argv : im_argv im = pl_argv plan;
  cf_envp : im_envp im = env_strings plan;
  cf_uid : cr_uid (ch_creds (im_child im)) = pl_uid plan;
  cf_gid : cr_gid (ch_creds (im_child im)) = pl_gid plan;
  cf_not_root : pl_uid plan <> 0;
  cf_groups : cr_uid (pa_creds pa) = 0 -> cr_groups (ch_creds (im_child im)) = wanted_groups plan;
  cf_self : cr_uid (pa_creds pa) <> 0 -> ch_creds (im_child im) = pa_creds pa;
  cf_fds : ch_fds (im_child im) = std_fds;
  cf_leader : ch_leader (im_child im) = true;
  cf_sigpipe : ch_sigpipe_ignored (im_child im) = true;
  cf_cwd : ch_cwd (im_child im) = if sempty (pl_cwd plan) then pa_cwd pa else pl_cwd plan;
  cf_blocked : ch_blocked (im_child im) = pa_blocked pa;
}.

(** ** Descriptors *)

Lemma first_free_spec fuel n t :
  (forall m, m < n -> is_Some (t !! m)) ->
  (forall m, m < first_free fuel n t -> is_Some (t !! m)) /\
  (is_Some (t !! first_free fuel n t) -> first_free fuel n t = n + N.of_nat fuel).
Proof.
  revert n. induction fuel as [|fuel IH]; intros n Hn; simpl; [split; [done|lia]|].
  destruct (t !! n) as [e|] eqn:E.
  - destruct (IH (n + 1)) as [H1 H2].
    { intros m Hm. destruct (decide (m = n)) as [->|]; [by rewrite E|apply Hn; lia]. }
    split; [done|]. intros ?. rewrite H2; [lia|done].
  - split; [done|]. rewrite E. intros [? ?]. done.
Qed.

Lemma below_size (t : FdTable) (k : nat) : (forall m, m < N.of_nat k -> is_Some (t !! m)) -> (k <= size t)%nat.
Proof.
  intros H. rewrite <- (size_dom (D := gset N) t).
  transitivity (size (list_to_set (N.of_nat <$> seq 0 k) : gset N)).
  - rewrite size_list_to_set; [by rewrite length_fmap, length_seq|].
    apply NoDup_fmap_2; [intros ?? ?; lia|apply NoDup_seq].
  - apply subseteq_size. intros m Hm. apply elem_of_list_to_set, list_elem_of_fmap in Hm as (j & -> & Hj).
    apply elem_of_seq in Hj. apply elem_of_dom, H. lia.
Qed.

Lemma lowest_free_spec t :
  t !! lowest_free t = None /\ (forall m, m < lowest_free t -> is_Some (t !! m)).
Proof.
  destruct (first_free_spec (size t) 0 t) as [H1 H2]; [lia|]. fold (lowest_free t) in *.
  split; [|done]. destruct (t !! lowest_free t) as [e|] eqn:E; [|done]. exfalso.
  assert (lowest_free t = N.of_nat (size t)) as Heq by (rewrite H2; [lia|by eexists]).
  assert (Datatypes.S (size t) <= size t)%nat; [|lia].
  apply below_size. intros m Hm. destruct (decide (m = lowest_free t)) as [->|]; [by rewrite E|].
  apply H1. lia.
Qed.

Lemma lowest_free_above t k : (forall n, n < k -> is_Some (t !! n)) -> k <= lowest_free t.
Proof.
  intros H. destruct (lowest_free_spec t) as [Hf _]. apply N.le_ngt. intros Hlt.
  apply H in Hlt. rewrite Hf in Hlt. by destruct Hlt.
Qed.

Lemma fd_pipe_spec p t r w t' :
  fd_pipe p t = (r, w, t') ->
  t !! r = None /\ t !! w = None /\ r <> w /\
  t' = <[w := (WriteEnd p, true)]> (<[r := (ReadEnd p, true)]> t) /\
  (std_open t -> 3 <= r /\ 4 <= w).
Proof.
  unfold fd_pipe, fd_open. intros [= <- <- <-].
  destruct (lowest_free_spec t) as [Hf Hlow].
  set (r := lowest_free t) in *. set (t1 := <[r := (ReadEnd p, true)]> t).
  destruct (lowest_free_spec t1) as [Hf1 _]. set (w := lowest_free t1) in *.
  unfold t1 in Hf1. apply lookup_insert_None in Hf1 as [Hw Hne].
  split_and!; [done..|]. intros Hstd. assert (3 <= r) by (by apply lowest_free_above).
  split; [done|]. assert (3 <= w).
  { apply lowest_free_above. intros n Hn. unfold t1. rewrite lookup_insert_is_Some. destruct (Hstd n Hn); eauto.
    destruct (decide (r = n)); eauto. }
  destruct (decide (w = 3)) as [->|]; [|lia].
  destruct (Hlow 3) as [? ?]; [lia|]. congruence.
Qed.

Lemma std_open_insert t n e : std_open t -> std_open (<[n := e]> t).
Proof.
  intros H m Hm. rewrite lookup_insert_is_Some. destruct (decide (n = m)); eauto.
Qed.

Lemma exec_table_std (t : FdTable) :
  t !! 0 = Some (DevNull, false) -> t !! 1 = Some (WriteEnd P_stdout, false) ->
  t !! 2 = Some (WriteEnd P_stderr, false) -> (forall n e, 3 <= n -> t !! n = Some e -> e.2 = true) ->
  fd_exec t = std_fds.
Proof.
  intros H0' H1' H2' H3. apply map_eq. intros n. unfold fd_exec, std_fds. rewrite map_lookup_filter.
  destruct (decide (n = 0)) as [->|]; [by rewrite H0'|].
  destruct (decide (n = 1)) as [->|]; [by rewrite H1'|].
  destruct (decide (n = 2)) as [->|]; [by rewrite H2'|].
  rewrite !lookup_insert_ne by done. rewrite lookup_singleton_ne by done.
  destruct (t !! n) as [e|] eqn:E; [|done]. simpl.
  rewrite option_guard_False; [done|]. simpl. rewrite (H3 n e); [done|lia|done].
Qed.

(** ** The child's preparation *)

Lemma at_stage_ok {A} stage (r : Result Z A) x : at_stage stage r = Ok x -> r = Ok x.
Proof. destruct r; naive_solver. Qed.

Lemma answered_ok answer x : answered answer = Ok x -> answer = None.
Proof. destruct answer; naive_solver. Qed.

Lemma sys_set_ok (b : bool) answer (x y : Creds) :
  (if b then let? '_ := answered answer in Ok x else Err EPERM) = Ok y -> b = true /\ y = x.
Proof. destruct b, answer; naive_solver. Qed.

Lemma demote_ok a plan cr cr' :
  demote a plan cr = Ok cr' ->
  cr_uid cr' = pl_uid plan /\ cr_gid cr' = pl_gid plan /\
  (cr' = cr \/ cr_uid cr = 0 /\ cr_groups cr' = wanted_groups plan).
Proof.
  unfold demote. fold (wanted_groups plan). intros H. case_in H; reflect_bools; [auto|].
  apply result_bind_ok in H as (c1 & [Hr ->]%sys_set_ok & H).
  apply result_bind_ok in H as (c2 & [_ ->]%sys_set_ok & [_ ->]%sys_set_ok).
  reflect_bools. auto.
Qed.

Lemma demote_root a plan cr :
  cr_uid cr = 0 -> ca_setgroups a = None -> ca_setgid a = None -> ca_setuid a = None ->
  exists cr', demote a plan cr = Ok cr'.
Proof.
  intros Hr Hg Hi Hu. unfold demote. destruct (_ && _); [by eexists|].
  unfold sys_setgroups, sys_setgid, sys_setuid. rewrite Hr, Hg, Hi, Hu. simpl. rewrite ?Hr. by eexists.
Qed.

Lemma child_dup2_ok a old new c c' :
  child_dup2 a old new c = Ok c' ->
  exists e, ch_fds c !! old = Some e /\
    c' = {| c with ch_fds := if old =? new then ch_fds c else <[new := (e.1, false)]> (ch_fds c) |}.
Proof.
  unfold child_dup2, fd_dup2. intros H. destruct (ca_dup a new); [done|].
  destruct (ch_fds c !! old) as [[f b]|]; [|done]. simplify_eq. by exists (f, b).
Qed.

(** What the child's descriptors must be for [run_child] *)
Record ChildFds (a : ChildAnswers) (out_w err_w report_w : N) (t : FdTable) : Prop := {
  cd_std : std_open t;
  cd_out : t !! out_w = Some (WriteEnd P_stdout, true);
  cd_err : t !! err_w = Some (WriteEnd P_stderr, true);
  cd_report : t !! report_w = Some (WriteEnd P_report, true);
  cd_high : 4 <= out_w /\ 4 <= err_w /\ 4 <= report_w;
  cd_sealed : sealed a t;
}.

(** The descriptors of the child just before its program *)
Definition child_table (devnull : N) (t : FdTable) : FdTable :=
  <[2 := (WriteEnd P_stderr, false)]> (<[1 := (WriteEnd P_stdout, false)]>
    (<[0 := (DevNull, false)]> (<[devnull := (DevNull, true)]> (<[3 := (WriteEnd P_report, true)]> t)))).

Lemma child_table_exec a out_w err_w report_w devnull t :
  ChildFds a out_w err_w report_w t -> 4 <= devnull ->
  fd_exec (if ca_close_range a then fd_close_from 4 (child_table devnull t) else child_table devnull t) = std_fds.
Proof.
  intros [_ _ _ _ _ Hs] Hd. apply exec_table_std.
  1-3: destruct (ca_close_range a); [unfold fd_close_from; rewrite map_lookup_filter|];
       unfold child_table; by simplify_map_eq.
  intros n e Hn He.
  assert (child_table devnull t !! n = Some e /\ (ca_close_range a = true -> n < 4)) as [Ht Hlt].
  { destruct (ca_close_range a); [|done]. unfold fd_close_from in He.
    apply map_lookup_filter_Some in He as [? ?]. done. }
  unfold child_table in Ht. rewrite !lookup_insert_ne in Ht by lia.
  destruct (decide (n = devnull)) as [->|]; [by simplify_map_eq|]. rewrite lookup_insert_ne in Ht by done.
  destruct (decide (n = 3)) as [->|]; [by simplify_map_eq|]. rewrite lookup_insert_ne in Ht by done.
  destruct Hs as [Hs|Hs]; [specialize (Hlt Hs); lia|eauto].
Qed.

(** The steps of [run_child] that succeed are these. *)
Lemma run_child_ok a plan out_w err_w report_w c im :
  ChildFds a out_w err_w report_w (ch_fds c) ->
  run_child a plan out_w err_w report_w c = Ok im ->
  exists cr, demote a plan (ch_creds c) = Ok cr /\
    child_exec a plan (env_strings plan) = Ok (im_path im) /\
    im = mkImage (im_path im) (pl_argv plan) (env_strings plan)
           (mkChild std_fds true true cr (if sempty (pl_cwd plan) then ch_cwd c else pl_cwd plan) (ch_blocked c)).
Proof.
  intros Hc H. pose proof Hc as [Hstd Ho He Hr (H4o & H4e & H4r) _]. unfold run_child in H.
  destruct (child_dup2 a report_w kExecReportFd c) as [c0|] eqn:Hd; [|done].
  apply child_dup2_ok in Hd as (e & He0 & ->). rewrite Hr in He0. simplify_eq/=.
  change kExecReportFd with 3 in *. rewrite (proj2 (N.eqb_neq report_w 3)) in H by lia.
  rewrite alter_insert_eq in H. cbn [fst] in H.
  apply result_bind_ok in H as (? & _ & H). apply result_bind_ok in H as (? & _ & H).
  set (t1 := <[3:=(WriteEnd P_report, true)]> (ch_fds c)) in *. unfold fd_open in H.
  set (devnull := lowest_free t1) in *.
  assert (4 <= devnull) as Hdev.
  { apply lowest_free_above. intros n Hn. unfold t1. destruct (decide (n = 3)) as [->|]; [by simplify_map_eq|].
    rewrite lookup_insert_ne by done. apply Hstd. lia. }
  assert (forall n e, 4 <= n -> ch_fds c !! n = Some e -> t1 !! n = Some e /\ n <> devnull) as Hkeep.
  { intros n e Hn Hl. assert (t1 !! n = Some e) by (unfold t1; by rewrite lookup_insert_ne by lia).
    split; [done|]. intros ->. destruct (lowest_free_spec t1) as [Hf _]. unfold devnull in *. congruence. }
  destruct (Hkeep _ _ H4o Ho) as [Ho' ?], (Hkeep _ _ H4e He) as [He' ?].
  apply result_bind_ok in H as (c1 & (e1 & Hl1 & ->)%at_stage_ok%child_dup2_ok & H).
  cbn [ch_fds ch_leader ch_sigpipe_ignored ch_creds ch_cwd ch_blocked] in *. rewrite lookup_insert_eq in Hl1. simplify_eq.
  rewrite (proj2 (N.eqb_neq devnull 0)) in H by lia.
  apply result_bind_ok in H as (c1 & (e1 & Hl1 & ->)%at_stage_ok%child_dup2_ok & H).
  cbn [ch_fds ch_leader ch_sigpipe_ignored ch_creds ch_cwd ch_blocked] in *.
  rewrite !lookup_insert_ne in Hl1 by lia. rewrite Ho' in Hl1. simplify_eq.
  rewrite (proj2 (N.eqb_neq out_w 1)) in H by lia.
  apply result_bind_ok in H as (c1 & (e1 & Hl1 & ->)%at_stage_ok%child_dup2_ok & H).
  cbn [ch_fds ch_leader ch_sigpipe_ignored ch_creds ch_cwd ch_blocked] in *.
  rewrite !lookup_insert_ne in Hl1 by lia. rewrite He' in Hl1. simplify_eq.
  rewrite (proj2 (N.eqb_neq err_w 2)) in H by lia. cbn [fst] in H.
  apply result_bind_ok in H as (cr & Hcr%at_stage_ok & H). exists cr.
  apply result_bind_ok in H as (? & _ & H).
  apply result_bind_ok in H as (path & Hp%at_stage_ok & H). simplify_eq. cbn [im_path].
  pose proof (child_table_exec _ _ _ _ _ _ Hc Hdev) as Ht. change (3 + 1) with 4 in *.
  unfold child_table in Ht. fold t1 in Ht.
  destruct (ca_close_range a), (sempty (pl_cwd plan)); cbn in Hcr |- *; rewrite ?Ht; done.
Qed.

Lemma bind_stage {A B} stage (r : Result Z A) (k : A -> Result ChildFailure B) :
  (forall x, k x <> Err CF_exit126) -> result_bind (at_stage stage r) k <> Err CF_exit126.
Proof. destruct r; simpl; [auto|done]. Qed.

(** Only the report descriptor can make the child end unheard. *)
Lemma run_child_126 a plan out_w err_w report_w c :
  run_child a plan out_w err_w report_w c = Err CF_exit126 ->
  exists errno, child_dup2 a report_w kExecReportFd c = Err errno.
Proof.
  unfold run_child. destruct (child_dup2 a report_w kExecReportFd c) as [c'|errno]; [|by eauto].
  intros H. exfalso. revert H. cbv zeta. unfold fd_open.
  repeat (apply bind_stage; intros ?); done.
Qed.

(** ** The program *)

(** The candidates along a search path, in order *)
Definition path_programs (name path : string) : list string :=
  omap (fun directory => child_join_path directory name 4096) (split_on ":"%char path).

Definition runs (a : ChildAnswers) (program : string) : Prop :=
  ca_access a program = true /\ ca_execve a program = None.

(** A candidate the search passes over *)
Definition passed_over (a : ChildAnswers) (program : string) : Prop :=
  ca_access a program = false \/ exists errno, ca_execve a program = Some errno /\ skips errno = true.

(** The first candidate that runs *)
Fixpoint first_program (a : ChildAnswers) (l : list string) : Result Z string :=
  match l with
  | [] => Err ENOENT
  | program :: l =>
      if ca_access a program then
        match ca_execve a program with
        | None => Ok program
        | Some errno => if skips errno then first_program a l else Err ENOENT
        end
      else first_program a l
  end.

Lemma cut_colon_split s :
  split_on ":"%char s =
  match cut_colon s with (entry, None) => [entry] | (entry, Some rest) => entry :: split_on ":"%char rest end.
Proof.
  induction s as [|c s IH]; simpl; [done|]. destruct (Ascii.eqb c ":"); [done|].
  rewrite IH. destruct (cut_colon s) as [entry [rest|]]; done.
Qed.

Lemma cut_colon_shorter s entry rest : cut_colon s = (entry, Some rest) -> (String.length rest < String.length s)%nat.
Proof.
  revert entry. induction s as [|c s IH]; intros entry; simpl; [done|].
  destruct (Ascii.eqb c ":"); [intros [= <- <-]; lia|].
  destruct (cut_colon s) as [entry' next] eqn:E. intros [= <- ->]. specialize (IH entry' eq_refl). lia.
Qed.

(** The loop over [PATH] is the search through the list of candidates, and the
    fuel [child_exec] gives it is enough. *)
Lemma path_loop_search fuel a name cursor :
  (String.length cursor < fuel)%nat -> path_loop fuel a name cursor = first_program a (path_programs name cursor).
Proof.
  revert cursor. induction fuel as [|fuel IH]; intros cursor Hf; [lia|]. cbn [path_loop].
  unfold path_programs. rewrite cut_colon_split.
  destruct (sempty cursor) eqn:Hs; [destruct cursor; done|].
  destruct (cut_colon cursor) as [entry [rest|]] eqn:E.
  - apply cut_colon_shorter in E. rewrite IH by lia. cbn [omap list_omap].
    fold (path_programs name rest). destruct (child_join_path entry name 4096); done.
  - cbn [omap list_omap]. destruct (child_join_path entry name 4096) as [p|]; [|done]. simpl.
    destruct (ca_access a p); [|done]. destruct (ca_execve a p) as [e|]; [|done]. by destruct (skips e).
Qed.

Lemma first_program_ok a l program :
  first_program a l = Ok program <->
  exists l1 l2, l = l1 ++ program :: l2 /\ runs a program /\ Forall (passed_over a) l1.
Proof.
  unfold runs, passed_over. split.
  - induction l as [|p l IH]; simpl; [done|]. intros H.
    destruct (ca_access a p) eqn:Ha; [destruct (ca_execve a p) as [e|] eqn:He; [destruct (skips e) eqn:Hs|]|];
      simplify_eq.
    2: by exists [], l.
    all: destruct (IH H) as (l1 & l2 & -> & Hr & Hl); exists (p :: l1), l2.
    all: split; [done|]; split; [done|]; constructor; eauto.
  - intros (l1 & l2 & -> & [Ha He] & Hl). induction Hl as [|p l1 Hp _ IH]; simpl; [by rewrite Ha, He|].
    destruct Hp as [->|(e & -> & ->)]; [done|]. by destruct (ca_access a p).
Qed.

(** The program a plan names: its resolved executable, a command with a slash
    as it is, or the first candidate along [PATH] that runs. *)
Definition names_program (a : ChildAnswers) (plan : LaunchPlan) (path : string) : Prop :=
  let name := hd "" (pl_argv plan) in
  if negb (sempty (pl_executable plan)) then path = pl_executable plan /\ ca_execve a path = None
  else if contains_char "/"%char name then path = name /\ ca_execve a path = None
  else
    exists l1 l2,
      path_programs name (default "/bin:/usr/bin" (env_path (env_strings plan))) = l1 ++ path :: l2 /\
      runs a path /\ Forall (passed_over a) l1.

Lemma direct_exec_ok a program path : direct_exec a program = Ok path <-> path = program /\ ca_execve a path = None.
Proof. unfold direct_exec. destruct (ca_execve a program) eqn:E; naive_solver congruence. Qed.

Lemma child_exec_ok a plan path :
  child_exec a plan (env_strings plan) = Ok path <-> names_program a plan path.
Proof.
  unfold child_exec, names_program. destruct (negb _); [apply direct_exec_ok|].
  destruct (contains_char _ _); [apply direct_exec_ok|].
  rewrite path_loop_search by lia. apply first_program_ok.
Qed.

(** ** The report *)

Lemma read_report_all reads content report :
  Forall (fun r => r <> RR_failed) reads -> (length report <= 2)%nat ->
  read_report reads content report = report ++ take (2 - length report) content.
Proof.
  intros Hr. revert content report. induction Hr as [|r reads Hr _ IH]; intros content report Hl;
    destruct (N.leb_spec 2 (len report)) as [H2|H2]; unfold len in H2; cbn [read_report]; unfold len;
    rewrite ?(proj2 (N.leb_le _ _)), ?(proj2 (N.leb_gt _ _)) by done.
  1,3: replace (2 - length report)%nat with 0%nat by lia; by rewrite take_0, app_nil_r.
  1: done.
  destruct r as [| |cut]; [by apply IH|done|].
  destruct content as [|b content]; [by rewrite take_nil, app_nil_r|].
  set (n := Nat.min (Datatypes.S cut) (2 - length report)).
  rewrite IH by (rewrite length_app, length_take; lia).
  rewrite <- app_assoc. f_equal. rewrite length_app, length_take.
  replace (take (2 - length report) (b :: content))
    with (take (n + (2 - length report - n)) (b :: content)) by (f_equal; lia).
  rewrite <- take_take_drop. f_equal.
  destruct (le_gt_dec n (length (b :: content))); [f_equal; simpl in *; lia|].
  rewrite drop_ge by lia. by rewrite !take_nil.
Qed.

Lemma report_empty a fate :
  match ca_report a with [] => True | n :: _ => (0 < n)%Z end ->
  report_of a fate = [] -> (exists im, fate = Ok im) \/ fate = Err CF_exit126.
Proof.
  intros Ha. destruct fate as [im|[|stage errno]]; [eauto..|]. simpl.
  destruct (ca_report a) as [|n l]; simpl; [done|].
  destruct (Z.leb_spec n 0); [lia|]. destruct (Z.to_nat n) eqn:E; [lia|]. done.
Qed.

Lemma confirmed polls reads content :
  Forall (fun r => r <> RR_failed) reads -> wait_for_exec_confirmation polls reads content = None -> content = [].
Proof.
  intros Hr. unfold wait_for_exec_confirmation. rewrite read_report_all by (done || simpl; lia). cbn [app].
  destruct content as [|b [|b' content]]; [done|..]; simpl; destruct (poll_report polls); done.
Qed.

(** ** The pipes *)

(** The daemon's descriptors between [pipe2] and [fork] *)
Record PipesOpen (t0 : FdTable) (out_r out_w err_r err_w rep_r rep_w : N) (t : FdTable) : Prop := {
  po_distinct : NoDup [out_r; out_w; err_r; err_w; rep_r; rep_w];
  po_fresh : Forall (fun n => t0 !! n = None) [out_r; out_w; err_r; err_w; rep_r; rep_w];
  po_table : t = <[rep_w := (WriteEnd P_report, true)]> (<[rep_r := (ReadEnd P_report, true)]>
    (<[err_w := (WriteEnd P_stderr, true)]> (<[err_r := (ReadEnd P_stderr, true)]>
      (<[out_w := (WriteEnd P_stdout, true)]> (<[out_r := (ReadEnd P_stdout, true)]> t0)))));
  po_high : std_open t0 -> 4 <= out_w /\ 4 <= err_w /\ 4 <= rep_w;
}.

Lemma spawn_pipes_ok an t0 out_r out_w err_r err_w rep_r rep_w t :
  spawn_pipes an t0 = Ok ((out_r, out_w), (err_r, err_w), (rep_r, rep_w), t) ->
  PipesOpen t0 out_r out_w err_r err_w rep_r rep_w t.
Proof.
  unfold spawn_pipes. intros H. destruct (an_pipe an P_stdout); [done|].
  destruct (fd_pipe P_stdout t0) as [[r1 w1] t1] eqn:E1. destruct (an_pipe an P_stderr); [done|].
  destruct (fd_pipe P_stderr t1) as [[r2 w2] t2] eqn:E2. destruct (an_pipe an P_report); [done|].
  destruct (fd_pipe P_report t2) as [[r3 w3] t3] eqn:E3. simplify_eq.
  apply fd_pipe_spec in E1 as (? & ? & ? & -> & Hp1), E2 as (? & ? & ? & -> & Hp2), E3 as (? & ? & ? & -> & Hp3).
  repeat match goal with h : <[_ := _]> _ !! _ = None |- _ => apply lookup_insert_None in h as [? ?] end.
  split.
  - rewrite !NoDup_cons, !not_elem_of_cons. 
    split_and!; done || apply not_elem_of_nil || apply NoDup_nil_2.
  - by repeat constructor.
  - done.
  - intros Hs. assert (forall p t r, std_open t -> std_open (<[r := p]> t)) as Hi by (intros; by apply std_open_insert).
    split_and!; [by apply Hp1|apply Hp2|apply Hp3]; auto 10.
Qed.

Lemma pipes_child a t0 out_r out_w err_r err_w rep_r rep_w t :
  PipesOpen t0 out_r out_w err_r err_w rep_r rep_w t -> std_open t0 -> sealed a t0 ->
  ChildFds a out_w err_w rep_w t.
Proof.
  intros [Hn _ -> Hh] Hstd Hsealed.
  rewrite !NoDup_cons, !not_elem_of_cons in Hn. destruct_and! Hn.
  split; [by repeat apply std_open_insert|by simplify_map_eq..|by apply Hh|].
  destruct Hsealed as [?|Hs]; [by left|right]. intros n e Hn He.
  repeat (apply lookup_insert_Some in He as [[_ <-]|[_ He]]; [done|]). eauto.
Qed.

Lemma pipes_closed t0 out_r out_w err_r err_w rep_r rep_w t :
  PipesOpen t0 out_r out_w err_r err_w rep_r rep_w t ->
  delete rep_r (delete rep_w (delete err_w (delete out_w t))) =
  <[out_r := (ReadEnd P_stdout, true)]> (<[err_r := (ReadEnd P_stderr, true)]> t0) /\
  delete out_r (delete err_r (delete rep_r (delete rep_w (delete err_w (delete out_w t))))) = t0.
Proof.
  intros [Hn Hf -> _]. rewrite !NoDup_cons, !not_elem_of_cons in Hn. destruct_and! Hn.
  rewrite !Forall_cons in Hf. destruct_and! Hf.
  split; apply map_eq; intros n;
    destruct (decide (n = rep_r)) as [->|]; [by simplify_map_eq| |by simplify_map_eq|];
    (destruct (decide (n = rep_w)) as [->|]; [by simplify_map_eq|]);
    (destruct (decide (n = err_r)) as [->|]; [by simplify_map_eq|]);
    (destruct (decide (n = err_w)) as [->|]; [by simplify_map_eq|]);
    (destruct (decide (n = out_r)) as [->|]; [by simplify_map_eq|]);
    (destruct (decide (n = out_w)) as [->|]; by simplify_map_eq).
Qed.

(** ** What [spawn] does *)

(** A child that is left running, with what the daemon keeps of it *)
Definition Started (an : SpawnAnswers) (plan : LaunchPlan) (pa : Parent) (child : ChildState) (t : FdTable) : Prop :=
  exists im out err,
    child = CS_running (Ok im) /\ Confined plan pa im /\ names_program (an_child an) plan (im_path im) /\
    pa_fds pa !! out = None /\ pa_fds pa !! err = None /\ out <> err /\
    t = <[out := (ReadEnd P_stdout, true)]> (<[err := (ReadEnd P_stderr, true)]> (pa_fds pa)).

Definition no_child (child : ChildState) : Prop := child = CS_none \/ exists pid reaped, child = CS_killed pid reaped.

(** A child that ended before its program and could not tell *)
Definition Unheard (an : SpawnAnswers) (child : ChildState) : Prop :=
  ~ can_report an /\ exists failure, child = CS_running (Err failure).

(** A child that can report and did not reach its program is not taken for started. *)
Lemma fork_exec_heard an plan pa i out err t failure :
  std_open (pa_fds pa) -> sealed (an_child an) (pa_fds pa) -> can_report an ->
  fork_exec an plan pa <> (Ok (i, out, err), t, CS_running (Err failure)).
Proof.
  intros Hstd Hsealed (Hdup & Hwrite & Hread) Hrun. unfold fork_exec in Hrun.
  destruct (spawn_pipes an (pa_fds pa)) as [[[[[out_r out_w] [err_r err_w]] [rep_r rep_w]] t']|[errno t']] eqn:Hp; [|done].
  apply spawn_pipes_ok in Hp. pose proof (pipes_child _ _ _ _ _ _ _ _ _ Hp Hstd Hsealed) as Hc.
  destruct (an_fork an) as [pid|errno]; [|done]. destruct (setpgid_error an); [done|].
  destruct (wait_for_exec_confirmation _ _ _) eqn:Hw; [done|].
  destruct (an_getpgid an), (an_start_ticks an); try done. injection Hrun as _ _ _ _ Hfate.
  apply confirmed in Hw; [|done]. rewrite Hfate in Hw. apply report_empty in Hw as [[im ?]|Hbad]; [done| |done].
  injection Hbad as ->. apply run_child_126 in Hfate as [errno E]. unfold child_dup2, fd_dup2 in E.
  cbn [ch_fds] in E. by rewrite Hdup, (cd_report _ _ _ _ _ Hc) in E.
Qed.

Lemma fork_exec_failed an plan pa e t child :
  fork_exec an plan pa = (Err e, t, child) ->
  no_child child /\ (t = pa_fds pa \/ (se_code e = SP_kPipeFailed \/ se_code e = SP_kForkFailed) /\ child = CS_none).
Proof.
  unfold fork_exec, no_child.
  destruct (spawn_pipes an (pa_fds pa)) as [[[[[out_r out_w] [err_r err_w]] [rep_r rep_w]] t']|[errno t']] eqn:Hp.
  2: { intros [= <- <- <-]. auto. }
  apply spawn_pipes_ok in Hp. destruct (pipes_closed _ _ _ _ _ _ _ _ Hp) as [_ Hclosed].
  destruct (an_fork an) as [pid|errno]; [|intros [= <- <- <-]; by split; [left|right; split; [right|]]]. rewrite Hclosed.
  destruct (setpgid_error an); [intros [= <- <- <-]; by split; [right; do 2 eexists|left]|].
  destruct (wait_for_exec_confirmation _ _ _); [intros [= <- <- <-]; by split; [right; do 2 eexists|left]|].
  destruct (an_getpgid an), (an_start_ticks an); intros [= <- <- <-]; by split; [right; do 2 eexists|left].
Qed.

Lemma fork_exec_started an plan pa i out err t child :
  std_open (pa_fds pa) -> sealed (an_child an) (pa_fds pa) -> pl_uid plan <> 0 ->
  fork_exec an plan pa = (Ok (i, out, err), t, child) -> Started an plan pa child t \/ Unheard an child.
Proof.
  intros Hstd Hsealed Hroot Hrun.
  assert (exists fate, child = CS_running fate) as [[im|failure] ->].
  { unfold fork_exec in Hrun. repeat case_match; simplify_eq; eauto. }
  - left. unfold fork_exec in Hrun.
    destruct (spawn_pipes an (pa_fds pa)) as [[[[[out_r out_w] [err_r err_w]] [rep_r rep_w]] t']|[errno t']] eqn:Hp; [|done].
    apply spawn_pipes_ok in Hp. destruct (pipes_closed _ _ _ _ _ _ _ _ Hp) as [Hopen _].
    destruct (an_fork an) as [pid|errno]; [|done]. destruct (setpgid_error an); [done|].
    destruct (wait_for_exec_confirmation _ _ _); [done|].
    destruct (an_getpgid an), (an_start_ticks an); try done. injection Hrun as _ <- <- <- Him.
    pose proof (pipes_child _ _ _ _ _ _ _ _ _ Hp Hstd Hsealed) as Hc.
    set (c := mkChild t' false false (pa_creds pa) (pa_cwd pa) (pa_blocked pa)) in *.
    destruct (run_child_ok _ _ _ _ _ c _ Hc Him) as (cr & Hd & He & Hi). rewrite Hopen.
    change (ch_creds c) with (pa_creds pa) in Hd. apply demote_ok in Hd as (Hu & Hg & Hgr). apply child_exec_ok in He.
    destruct Hp as [Hn Hf _ _]. rewrite !NoDup_cons, !not_elem_of_cons in Hn. rewrite !Forall_cons in Hf.
    exists im, out_r, err_r. destruct_and! Hn. destruct_and! Hf. split_and!; try done.
    split; try done; rewrite Hi; cbn; try done; destruct Hgr as [->|[? ?]]; try done; congruence.
  - right. split; [|by eexists]. intros Hrep. destruct (fork_exec_heard an plan pa i out err t failure Hstd Hsealed Hrep Hrun).
Qed.


(** What [fork_exec] does, for a child that can report *)
Lemma fork_exec_spec an plan pa :
  std_open (pa_fds pa) -> sealed (an_child an) (pa_fds pa) -> can_report an -> pl_uid plan <> 0 ->
  let '(r, t, child) := fork_exec an plan pa in
  match r with
  | Ok _ => Started an plan pa child t
  | Err e =>
      no_child child /\ (t = pa_fds pa \/ (se_code e = SP_kPipeFailed \/ se_code e = SP_kForkFailed) /\ child = CS_none)
  end.
Proof.
  intros Hstd Hsealed Hrep Hroot. destruct (fork_exec an plan pa) as [[[[[i out] err]|e] t] child] eqn:E.
  - destruct (fork_exec_started _ _ _ _ _ _ _ _ Hstd Hsealed Hroot E) as [?|[? _]]; done.
  - exact (fork_exec_failed _ _ _ _ _ _ E).
Qed.

Lemma plan_message_ok plan : plan_message plan = None <-> PlanOk plan.
Proof.
  rewrite <- validate_plan_iff. unfold plan_message. destruct (pv_code (validate_plan plan)); naive_solver.
Qed.

(** The guards of [spawn] *)
Definition admits_spawn (plan : LaunchPlan) (s : Supervisor) : Prop :=
  guards (sp_phase s) = false /\ PlanOk plan /\ policy_valid (sp_grace_period s) = true.

Lemma spawn_guards plan answer s :
  match spawn (plan_message plan) answer s with
  | (Ok identity, s') =>
      admits_spawn plan s /\ answer = Ok identity /\
      s' = {| s with sp_identity := identity; sp_exit_status := no_exit; sp_phase := PH_kRunning |}
  | (Err e, s') => s' = s /\ (admits_spawn plan s -> answer = Err e)
  end.
Proof.
  unfold spawn, admits_spawn. destruct (guards (sp_phase s)); [naive_solver|].
  pose proof (plan_message_ok plan) as Hm. destruct (plan_message plan); [naive_solver|].
  destruct (policy_valid _); [|naive_solver]. destruct answer; naive_solver.
Qed.


(** C27. The program a child starts is the one its plan names: the executable
    resolved at submission; else a command with a slash as it is; else the first
    candidate along the job's [PATH] (or [/bin:/usr/bin]) that may be executed
    and is accepted by the kernel, those before it being inaccessible or
    refused with an error that lets the search go on. *)
Theorem child_exec_exact a plan path :
  child_exec a plan (env_strings plan) = Ok path <-> names_program a plan path.
Proof. apply child_exec_ok. Qed.

(** ** What the parent learns *)

(** The error code of a stage *)
Definition stage_code (stage : ChildStage) : SpawnErrorCode :=
  match stage with
  | CG_kProcessGroup => SP_kProcessGroupFailed
  | CG_kDemotion => SP_kIdentitySwitchFailed
  | CG_kChdir => SP_kChdirFailed
  | CG_kExec => SP_kExecFailed
  end.

(** What the child does, once the pipes exist *)
Definition child_fate (an : SpawnAnswers) (plan : LaunchPlan) (pa : Parent) : option (Result ChildFailure Image) :=
  match spawn_pipes an (pa_fds pa) with
  | Ok (_, out_w, (_, err_w), (_, rep_w), t) =>
      Some (run_child (an_child an) plan out_w err_w rep_w (mkChild t false false (pa_creds pa) (pa_cwd pa) (pa_blocked pa)))
  | Err _ => None
  end.

Lemma write_report_all answers report : Forall (fun n => (0 < n)%Z) answers -> write_report answers report = report.
Proof.
  intros H. revert report. induction H as [|n answers Hn _ IH]; intros report; simpl; [done|].
  destruct report; [done|]. destruct (Z.leb_spec n 0); [lia|]. rewrite IH. apply take_drop.
Qed.

Lemma map_child_stage_code stage : map_child_stage (stage_byte stage) = stage_code stage.
Proof. by destruct stage. Qed.

(** The parent learns what happened to the child.  When its own calls succeed,
    a child that fails at a stage is reported as a failure of that stage with
    the low byte of the child's [errno], and a child whose program runs as
    started; only a child that could not even get its report descriptor is
    taken for started too. *)
Theorem spawn_verdict an plan pa fate pid pgid ticks :
  child_fate an plan pa = Some fate ->
  an_fork an = Ok pid -> setpgid_error an = None -> poll_report (an_polls an) = RL_ready ->
  an_getpgid an = Some pgid -> an_start_ticks an = Some ticks ->
  Forall (fun r => r <> RR_failed) (an_reads an) -> Forall (fun n => (0 < n)%Z) (ca_report (an_child an)) ->
  let '(r, _, child) := fork_exec an plan pa in
  match fate with
  | Ok _ | Err CF_exit126 =>
      child = CS_running fate /\ exists out err, r = Ok (mkIdentity pid pgid ticks, out, err)
  | Err (CF_report stage errno) =>
      child = CS_killed pid (reap_child (an_waits an)) /\
      r = Err (mkSpawnError (stage_code stage) (Z.land errno 255) "child failed before or during exec")
  end.
Proof.
  unfold child_fate, fork_exec. intros Hfate Hfork Hset Hpoll Hpg Ht Hr Hw.
  destruct (spawn_pipes an (pa_fds pa)) as [[[[[out_r out_w] [err_r err_w]] [rep_r rep_w]] t]|]; [|done].
  simplify_eq. rewrite Hfork, Hset, Hpg, Ht. unfold wait_for_exec_confirmation.
  rewrite Hpoll, read_report_all by (done || simpl; lia).
  destruct (run_child _ _ _ _ _ _) as [im|[|stage errno]]; simpl; [by eauto..|].
  rewrite write_report_all by done. simpl. rewrite map_child_stage_code, Z2N.id by (apply Z.land_nonneg; lia). done.
Qed.

(** ** A launched job *)

Lemma prepare_launch_plan a log_root job_id uuid spec plan directory :
  prepare_launch a log_root job_id uuid spec = Ok (plan, directory) ->
  exists i, la_identity a (owner_uid spec) = Ok i /\
    prepare (la_adapter a) job_id spec (mkAssignment uuid (physical_index (la_gpus a) uuid) 0)
      (profile_from_spec spec) i = Ok plan.
Proof.
  unfold prepare_launch. intros H. apply result_bind_ok in H as (i & Hi & H).
  destruct (la_identity a (owner_uid spec)) as [i'|[? ?]]; simplify_eq. exists i. split; [done|].
  apply result_bind_ok in H as (_ & _ & H). apply result_bind_ok in H as (plan' & Hp & H).
  destruct (prepare _ _ _ _ _ _) as [p|]; simplify_eq.
  apply result_bind_ok in H as (? & _ & H). apply result_bind_ok in H as (? & _ & H).
  apply result_bind_ok in H as (? & _ & H). by simplify_eq.
Qed.

(** C14. A job runs as the user who submitted it.  When a daemon running as root
    prepares the launch of a job with its password database and starts the
    plan, the process has the owner's user id, which is not root's, the owner's
    primary group and exactly the owner's groups, the job's arguments first on
    its command line, and the environment of the four layers. *)
Theorem job_runs_as_owner a getpwuid_r getgrouplist log_root job_id uuid spec plan directory an pa s im s' t identity :
  la_identity a = resolve getpwuid_r getgrouplist ->
  prepare_launch a log_root job_id uuid spec = Ok (plan, directory) ->
  std_open (pa_fds pa) -> sealed (an_child an) (pa_fds pa) -> can_report an -> cr_uid (pa_creds pa) = 0 ->
  spawn_process an plan pa s = (Ok identity, s', t, CS_running (Ok im)) ->
  exists i, resolve getpwuid_r getgrouplist (owner_uid spec) = Ok i /\
    cr_uid (ch_creds (im_child im)) = owner_uid spec /\ owner_uid spec <> 0 /\
    cr_gid (ch_creds (im_child im)) = ii_gid i /\ ii_gid i <> 0 /\
    cr_groups (ch_creds (im_child im)) =
      (match ii_supplementary_groups i with [] => [ii_gid i] | groups => groups end) /\
    (exists more, im_argv im = argv spec ++ more) /\
    im_envp im = (fun e => e.1 +:+ "=" +:+ e.2) <$>
      map_entries (managed_env job_id (mkAssignment uuid (physical_index (la_gpus a) uuid) 0)
                     (lp_mode (profile_from_spec spec))
                   ∪ (Job.env spec ∪ (inherited_env (la_adapter a) ∪ identity_env i))).
Proof.
  intros Hid Hprep Hstd Hsealed Hrep Hroot Hspawn.
  apply prepare_launch_plan in Hprep as (i & Hi & Hp). rewrite Hid in Hi. exists i. split; [done|].
  apply resolve_ok in Hi as [Hu Hok]. apply prepare_spec in Hp as (_ & _ & _ & _ & _ & _ & -> & _).
  assert (Started an (assemble (la_adapter a) job_id spec
            (mkAssignment uuid (physical_index (la_gpus a) uuid) 0) (profile_from_spec spec) i)
            pa (CS_running (Ok im)) t) as (im' & ? & ? & [= <-] & Hc & _).
  { unfold spawn_process in Hspawn. set (plan := assemble _ _ _ _ _ _) in *.
    pose proof (spawn_guards plan (Ok no_identity) s) as Hg.
    destruct (spawn (plan_message plan) (Ok no_identity) s) as [[?|?] ?]; [|by simplify_eq].
    destruct Hg as ((_ & Hok' & _) & _ & _).
    pose proof (fork_exec_spec an plan pa Hstd Hsealed Hrep (pk_uid _ Hok')) as Hf.
    destruct (fork_exec an plan pa) as [[[?|e] ?] ?]; cbn [spawn_answer] in Hspawn;
      destruct (spawn _ _ s) as [? ?]; simplify_eq; [done|].
    destruct Hf as [[?|(? & ? & ?)] _]; done. }
  destruct Hc. unfold assemble, env_strings in *. cbn in *. rewrite merged_environment_layers in *.
  unfold wanted_groups in *. cbn in *. pose proof (io_uid _ Hok) as Hu0. pose proof (io_gid _ Hok) as Hg0. rewrite Hu in *.
  split_and!; try congruence; [by auto|].
  unfold launch_argv in *. rewrite cf_argv0. destruct (lp_mode _); [exists []; by rewrite app_nil_r|by eexists].
Qed.

(** ** Sessions of a supervisor *)

(** One call on a supervisor, with the answers it gets; the last is its
    destructor. *)
Inductive sup_call :=
| CallSpawn (an : SpawnAnswers) (plan : LaunchPlan) (pa : Parent)
| CallAdopt (verified : bool) (identity : ProcessIdentity)
| CallAbandon
| CallCancel (now : Z) (kill : Z -> option Z)
| CallEscalate (now : Z) (kill : Z -> option Z)
| CallPoll (wait : WaitAnswer)
| CallDestroy.

(** The signals [spawn] itself sends: SIGKILL to a child that it gives up *)
Definition child_kills (child : ChildState) : list KillCall :=
  match child with CS_killed pid _ => [mkKill pid SIGKILL] | CS_none | CS_running _ => [] end.

(** What the call sends, and the supervisor after it *)
Definition sup_step (c : sup_call) (s : Supervisor) : list KillCall * Supervisor :=
  match c with
  | CallSpawn an plan pa => let '(_, s', _, child) := spawn_process an plan pa s in (child_kills child, s')
  | CallAdopt verified identity => ([], (adopt (fun _ => verified) identity s).2)
  | CallAbandon => ([], (abandon s).2)
  | CallCancel now kill => let '(_, calls, s') := request_cancel now kill s in (calls, s')
  | CallEscalate now kill => ((escalate now kill s).2, s)
  | CallPoll wait => ([], (poll_exit wait s).2)
  | CallDestroy => (destroy s, if guards (sp_phase s) then {| s with sp_phase := PH_kExited |} else s)
  end.

Fixpoint sup_run (calls : list sup_call) (s : Supervisor) : Supervisor :=
  match calls with [] => s | c :: calls => sup_run calls (sup_step c s).2 end.

(** The call sent a SIGTERM that was delivered to the process of [s]. *)
Definition sent_term (c : sup_call) (s : Supervisor) (t : Z) : Prop :=
  exists kill, c = CallCancel t kill /\ sp_phase s = PH_kRunning /\
    (kill (- pi_pgid (sp_identity s))%Z = None \/ kill (pi_pgid (sp_identity s)) = None).

Lemma sup_run_app l1 l2 s : sup_run (l1 ++ l2) s = sup_run l2 (sup_run l1 s).
Proof. revert s. induction l1 as [|c l1 IH]; intros s; [done|]. apply IH. Qed.

(** [spawn] and the child it may have killed *)
Lemma spawn_process_cases an plan pa s r s' t child :
  spawn_process an plan pa s = (r, s', t, child) ->
  sp_grace_period s' = sp_grace_period s /\
  (is_ok r = true /\ sp_phase s' = PH_kRunning /\ child_kills child = [] \/
   is_ok r = false /\ s' = s /\
   (child_kills child = [] \/ exists pid, an_fork an = Ok pid /\ child_kills child = [mkKill pid SIGKILL])).
Proof.
  unfold spawn_process. pose proof (spawn_guards plan (Ok no_identity) s) as Hg.
  destruct (spawn _ (Ok no_identity) s) as [[id|e] s0].
  2: { destruct Hg as [-> _]. intros [= <- <- <- <-]. split; [done|]. right. auto. }
  destruct (fork_exec an plan pa) as [[r0 t0] child0] eqn:Hf. pose proof (spawn_guards plan (spawn_answer r0) s) as Hs.
  destruct Hg as (Hadm & _).
  destruct (spawn _ (spawn_answer r0) s) as [[identity|e] s1]; intros [= <- <- <- <-].
  - destruct Hs as (_ & Ha & ->). split; [done|]. left. split; [done|]. split; [done|].
    destruct r0 as [[[? ?] ?]|]; [|done]. unfold fork_exec in Hf. repeat case_match; simplify_eq; done.
  - destruct Hs as [-> Ha]. split; [done|]. right. split; [done|]. split; [done|].
    specialize (Ha Hadm). destruct r0 as [[[? ?] ?]|e0]; [done|].
    unfold fork_exec in Hf. repeat case_match; simplify_eq; cbn; eauto.
Qed.

(** The period never changes. *)
Lemma sup_step_period c s : sp_grace_period (sup_step c s).2 = sp_grace_period s.
Proof.
  destruct c; simpl; try (unfold adopt, abandon, request_cancel, poll_exit, signal_group;
    repeat case_match; simplify_eq; done).
  destruct (spawn_process an plan pa s) as [[[r s'] t] child] eqn:E. by apply spawn_process_cases in E as [? _].
Qed.

(** A terminating supervisor was so before, or its SIGTERM was just delivered. *)
Lemma sup_step_terminating c s :
  sp_phase (sup_step c s).2 = PH_kTerminating ->
  sp_identity (sup_step c s).2 = sp_identity s /\
  (sp_phase s = PH_kTerminating /\ sp_grace_deadline (sup_step c s).2 = sp_grace_deadline s \/
   exists t, sent_term c s t /\ sp_grace_deadline (sup_step c s).2 = (t + sp_grace_period s)%Z).
Proof.
  assert (sp_phase s = PH_kTerminating -> sp_identity s = sp_identity s /\
    (sp_phase s = PH_kTerminating /\ sp_grace_deadline s = sp_grace_deadline s \/
     exists t, sent_term c s t /\ sp_grace_deadline s = (t + sp_grace_period s)%Z)) as Hsame by auto.
  destruct c; simpl; try exact Hsame;
    try (unfold adopt, abandon, poll_exit; repeat case_match; simplify_eq/=; done || exact Hsame).
  - destruct (spawn_process an plan pa s) as [[[r s'] t] child] eqn:E. cbn [snd].
    apply spawn_process_cases in E as (_ & [(_ & Hp & _)|(_ & -> & _)]); [by rewrite Hp|exact Hsame].
  - unfold request_cancel. destruct (sp_phase s) eqn:Hp; simpl; try (rewrite Hp in *; done || exact Hsame).
    destruct (signal_group _ _ _) as [calls error] eqn:Hg. apply signal_group_spec in Hg as [_ Herr].
    destruct error; simpl; [by rewrite Hp|]. intros _. split; [done|]. right. exists now.
    split; [|done]. exists kill. split_and!; [done..|]. by apply Herr.
  - unfold poll_exit. destruct (sp_phase s) eqn:Hp; destruct wait; simpl; rewrite ?Hp in *; done || exact Hsame.
Qed.

Lemma sup_run_period calls s : sp_grace_period (sup_run calls s) = sp_grace_period s.
Proof.
  revert s. induction calls as [|c calls IH]; intros s; simpl; [done|]. by rewrite IH, sup_step_period.
Qed.

(** How a session came to be terminating. *)
Lemma terminating_origin grace calls :
  let s := sup_run calls (new_supervisor grace) in
  sp_phase s = PH_kTerminating ->
  exists pre c post t, calls = pre ++ c :: post /\
    sent_term c (sup_run pre (new_supervisor grace)) t /\
    sp_identity (sup_run pre (new_supervisor grace)) = sp_identity s /\
    sp_grace_deadline s = (t + grace)%Z.
Proof.
  induction calls as [|c calls IH] using rev_ind; [done|]. cbn zeta. rewrite sup_run_app. cbn [sup_run].
  intros Hp. pose proof (sup_step_terminating _ _ Hp) as [Hid [(Hp0 & Hd)|(t & Ht & Hd)]].
  - destruct (IH Hp0) as (pre & c0 & post & t & Hc & Ht & Hi & Hd0).
    exists pre, c0, (post ++ [c]), t. split_and!; [by rewrite Hc, <- app_assoc|done|congruence..].
  - exists calls, c, [], t. split_and!; [done..|]. rewrite Hd. by rewrite sup_run_period.
Qed.

(** The group a supervisor guards, or its leader *)
Definition to_group (s : Supervisor) (k : KillCall) : Prop :=
  (kc_target k = - pi_pgid (sp_identity s) \/ kc_target k = pi_pgid (sp_identity s))%Z.

(** Why a call on the supervisor [s], with the calls [calls] behind it, sends
    SIGKILL: an escalation, after an earlier call delivered a SIGTERM to the same
    process at least the grace period ago; [spawn] giving up the child it has
    just forked, with nothing left to guard; or the destructor of a supervisor
    that still guards its process. *)
Inductive kill_reason (grace : Z) (calls : list sup_call) (s : Supervisor) (k : KillCall) : sup_call -> Prop :=
| kill_escalation now kill pre c0 post t :
    calls = pre ++ c0 :: post -> sent_term c0 (sup_run pre (new_supervisor grace)) t ->
    sp_identity (sup_run pre (new_supervisor grace)) = sp_identity s -> (t + grace <= now)%Z ->
    sp_phase s = PH_kTerminating -> to_group s k ->
    kill_reason grace calls s k (CallEscalate now kill)
| kill_child an plan pa pid :
    an_fork an = Ok pid -> kc_target k = pid -> guards (sp_phase s) = false ->
    is_ok (spawn_process an plan pa s).1.1.1 = false -> (spawn_process an plan pa s).1.1.2 = s ->
    kill_reason grace calls s k (CallSpawn an plan pa)
| kill_destroyed :
    guards (sp_phase s) = true ->
    (kc_target k = - pi_pgid (sp_identity s) \/ kc_target k = pi_pid (sp_identity s))%Z ->
    kill_reason grace calls s k CallDestroy.

Lemma child_kills_guards an plan pa s r s' t child :
  spawn_process an plan pa s = (r, s', t, child) -> child_kills child <> [] -> guards (sp_phase s) = false.
Proof.
  unfold spawn_process. pose proof (spawn_guards plan (Ok no_identity) s) as Hg.
  destruct (spawn _ (Ok no_identity) s) as [[id|e] s0]; [by destruct Hg as ((? & _) & _)|]. by intros [= <- <- <- <-].
Qed.

(** C32. Signals follow the cancellation protocol.  Whatever calls were made on a
    supervisor before and whatever the system answers, a call sends SIGTERM only
    when it is a request to cancel a process that is RUNNING, to the process
    group it guards (or to its leader, when the group cannot be signalled); and
    it sends SIGKILL in three cases only: it escalates, and an earlier call of
    the session delivered a SIGTERM to that same process at least the grace
    period ago; it is a [spawn] that fails and gives up the child it has just
    forked (the supervisor guards nothing, and stays as it was); or it is the
    destructor of a supervisor that still guards its process. *)
Theorem supervisor_signals grace calls c :
  let s := sup_run calls (new_supervisor grace) in
  Forall (fun k =>
    match kc_signal k with
    | SIGTERM => (exists now kill, c = CallCancel now kill) /\ sp_phase s = PH_kRunning /\ to_group s k
    | SIGKILL => kill_reason grace calls s k c
    end) (sup_step c s).1.
Proof.
  intros s. destruct c as [an plan pa|verified identity| |now kill|now kill|wait|]; simpl; try constructor.
  - destruct (spawn_process an plan pa s) as [[[r s'] t] child] eqn:E. cbn [fst].
    destruct (spawn_process_cases _ _ _ _ _ _ _ _ E) as (_ & [(_ & _ & ->)|(Hr & Hs & [->|(pid & Hf & Hk)])]); try constructor.
    assert (guards (sp_phase s) = false) as Hg by (eapply child_kills_guards; [exact E|by rewrite Hk]).
    rewrite Hk. constructor; [|constructor]. cbn. by apply (kill_child _ _ _ _ _ _ _ pid); rewrite ?E.
  - unfold request_cancel. destruct (sp_phase s) eqn:Hp; simpl; try constructor.
    destruct (signal_group _ _ _) as [sent error] eqn:Hg. apply signal_group_spec in Hg as [Hs _].
    destruct error; simpl; (eapply Forall_impl; [exact Hs|]); intros k [Hk Ht]; rewrite Hk; eauto.
  - unfold escalate. destruct (sp_phase s) eqn:Hp; simpl; try constructor.
    destruct (grace_expired now s) eqn:He; simpl; [|constructor].
    apply andb_true_iff in He as [_ He%Z.leb_le].
    destruct (terminating_origin grace calls Hp) as (pre & c0 & post & t & Hc & Ht & Hi & Hd).
    destruct (signal_group _ _ _) as [sent error] eqn:Hg. apply signal_group_spec in Hg as [Hs _]. fold s in Hd.
    destruct error; simpl; (eapply Forall_impl; [exact Hs|]); intros k [Hk Hto]; rewrite Hk;
      (eapply kill_escalation; [exact Hc|exact Ht|exact Hi|lia|exact Hp|exact Hto]).
  - unfold destroy. destruct (guards (sp_phase s)) eqn:Hg; [|constructor].
    constructor; [|constructor; [|constructor]]; apply kill_destroyed; cbn; auto.
Qed.

(** ** What a failed start leaves open *)

(** A failed [fork] leaves all six pipe ends open in the daemon; a failed
    second or third pipe the ends of those before it. *)
Lemma fork_failure_leaks an plan pa errno :
  (forall p, an_pipe an p = None) -> an_fork an = Err errno ->
  let '(r, t, _) := fork_exec an plan pa in
  r = Err (spawn_error SP_kForkFailed errno) /\ size t = (6 + size (pa_fds pa))%nat.
Proof.
  intros Hp Hf. unfold fork_exec.
  destruct (spawn_pipes an (pa_fds pa)) as [[[[[out_r out_w] [err_r err_w]] [rep_r rep_w]] t]|[e t]] eqn:E.
  - rewrite Hf. split; [done|]. apply spawn_pipes_ok in E as [Hn Hfr -> _].
    rewrite !NoDup_cons, !not_elem_of_cons in Hn. rewrite !Forall_cons in Hfr.
    destruct_and! Hn. destruct_and! Hfr.
    rewrite !map_size_insert_None by (rewrite ?lookup_insert_ne by done; done). lia.
  - unfold spawn_pipes in E. rewrite !Hp in E. repeat case_match; done.
Qed.

Definition example_parent : Parent :=
  mkParent {[ 0 := (Inherited 0, false); 1 := (Inherited 1, false); 2 := (Inherited 2, false);
              3 := (Inherited 3, true); 7 := (Inherited 7, true) ]} (mkCreds 0 0 [0]) "/" [SIGINT_number; SIGTERM_number].

Definition example_child_answers : ChildAnswers :=
  mkChildAnswers (fun _ => None) None None true None None None (fun _ => None)
    (fun program => bool_decide (program = "/usr/bin/python")) (fun _ => None) [].

Definition example_spawn_answers (a : ChildAnswers) : SpawnAnswers :=
  mkSpawnAnswers (fun _ => None) (Ok 4242%Z) a None [RL_intr] [RR_some 0] (Some 4242%Z) (Some 99) [] (fun e => e) 0.

(** A daemon whose [pipe2] fails for the second pipe keeps the first one. *)
Example pipe_failure_leaks :
  let an := example_spawn_answers example_child_answers in
  let an := {| an with an_pipe := fun p => match p with P_stderr => Some 24%Z | _ => None end |} in
  let '(r, t, child) := fork_exec an example_plan example_parent in
  r = Err (spawn_error SP_kPipeFailed 24) /\ t !! 4 = Some (ReadEnd P_stdout, true) /\
  t !! 5 = Some (WriteEnd P_stdout, true) /\ child = CS_none.
Proof. vm_compute. done. Qed.

(** An unheard child: without its report descriptor it exits with 126 and is
    taken for a started job. *)
Example unheard_child :
  let a := example_child_answers in
  let a := {| a with ca_dup := fun n => if n =? 3 then Some EBADF else None |} in
  let '(r, t, child) := fork_exec (example_spawn_answers a) example_plan example_parent in
  is_ok r = true /\ child = CS_running (Err CF_exit126).
Proof. vm_compute. done. Qed.

(** A program the kernel refuses for its arguments is reported as missing. *)
Example search_hides_error :
  let a := example_child_answers in
  let a := {| a with ca_execve := fun _ => Some 7%Z |} in
  let plan := example_plan in
  let plan := {| plan with pl_executable := ""; pl_argv := ["python"] |} in
  ca_access a "/usr/bin/python" = true /\ child_exec a plan (env_strings plan) = Err ENOENT.
Proof. vm_compute. done. Qed.

Lemma example_std_open : std_open (pa_fds example_parent).
Proof.
  intros n Hn. assert (n = 0 \/ n = 1 \/ n = 2) as [->|[->| ->]] by lia; by eexists.
Defined.

(** The identity of the started example process *)
Definition example_spawned : ProcessIdentity := mkIdentity 4242 4242 99.


Lemma spawn_verdict_witness :
  let a := example_child_answers in
  let a := {| a with ca_setuid := Some EPERM |} in
  let '(r, _, child) := fork_exec (example_spawn_answers a) example_plan example_parent in
  child = CS_killed 4242 true /\
  r = Err (mkSpawnError SP_kIdentitySwitchFailed 1 "child failed before or during exec").
Proof.
  intros a0 a.
  apply (spawn_verdict (example_spawn_answers a) example_plan example_parent (Err (CF_report CG_kDemotion EPERM))
           4242 4242 99); try reflexivity.
  - repeat constructor; done.
  - constructor.
Defined.

(** The launch of job 3 for its owner, and the process it becomes *)
Definition example_launch_plan : LaunchPlan :=
  default example_plan
    (match prepare_launch example_launch "/var/log" 3 "GPU-a" example_spec with Ok (plan, _) => Some plan | Err _ => None end).

Definition example_image : Image :=
  mkImage (pl_executable example_launch_plan) (pl_argv example_launch_plan) (env_strings example_launch_plan)
    (mkChild std_fds true true (mkCreds 1000 1000 [1000]) (pl_cwd example_launch_plan) [SIGINT_number; SIGTERM_number]).

Lemma job_runs_as_owner_witness :
  (ch_creds (im_child example_image)).(cr_uid) = owner_uid example_spec /\
  exists i, cr_groups (ch_creds (im_child example_image)) = [ii_gid i].
Proof.
  destruct (spawn_process (example_spawn_answers example_child_answers) example_launch_plan example_parent
              (new_supervisor 10000)) as [[[r s'] t] child] eqn:E.
  assert (r = Ok example_spawned /\ child = CS_running (Ok example_image)) as [-> ->].
  { vm_compute in E. injection E. intros. subst. split; vm_compute; reflexivity. }
  destruct (job_runs_as_owner example_launch
              (fun _ => (0%Z, Some (mkPasswd 1000 (Some "ada") (Some "/home/ada") (Some "/bin/sh"))))
              (fun _ gid _ => Some [gid]) "/var/log" 3 "GPU-a" example_spec example_launch_plan "/var/log/3"
              (example_spawn_answers example_child_answers) example_parent (new_supervisor 10000)
              example_image s' t example_spawned) as (i & Hi & Hu & _).
  - reflexivity.
  - vm_compute. reflexivity.
  - exact example_std_open.
  - left. reflexivity.
  - split; [done|]. split; [done|]. by repeat constructor.
  - reflexivity.
  - exact E.
  - split; [exact Hu|]. exists i. injection Hi as <-. reflexivity.
Defined.
