(* ===== verification/ManagerLoop.v ===== *)
(** * The job manager's worker loop: [ManagerWorker::run] of
    [src/runtime/job_manager.cpp]

    The bounded command channel between the daemon's threads and the single
    writer, the loop that drains it ([process_commands]) and the event sources
    ([drain_exit_events], [drain_pump_done], [drain_gpu_events]), the answers to
    the callers, and the rejection of what is left when the worker stops.  Each
    event is handled by [worker_step] of [JobManager.v]; the wakes it posts go
    through the same channel, where a full channel refuses them.  Commands of
    other threads arrive before a command is taken and while it is processed
    ([Arrivals]). *)

From S2P Require Import Prelude.
From S2P Require Import Job.
From S2P Require Import Gpu.
From S2P Require Import Store.
From S2P Require Import Queue.
From S2P Require Import Scheduler.
From S2P Require Import Service.
From S2P Require Import Supervisor.
From S2P Require Import Launch.
From S2P Require Import GpuManager.
From S2P Require Import ExitMonitor.
From S2P Require Import JobManager.
From S2P Require Import ManagerProofs.

(** ** Data *)

(** [Command] of the manager's channel *)
Inductive Command :=
| CM_kSubmit (spec : JobSpec)
| CM_kCancel (job_id : N)
| CM_kWake (trigger : SchedulerTrigger).

(** What a promise of a command is set to *)
Inductive Ack := AckSubmit (outcome : JobSubmitOutcome) | AckCancel (outcome : JobCancelOutcome).

(** What the outside answers while a command is processed *)
Record CommandAnswers := mkCommandAnswers {
  ck_create : bool;
  ck_rollback : bool;
  ck_admits : nat -> bool;
  ck_cancel : CancelAnswers;
  ck_schedule : ScheduleAnswers;
  ck_launch : LaunchAnswers;
}.

(** The command as an event of the worker *)
Definition command_event (a : CommandAnswers) (c : Command) : Event :=
  match c with
  | CM_kSubmit spec => EvSubmit (ck_create a) (ck_rollback a) spec
  | CM_kCancel job_id => EvCancel (ck_admits a) (ck_cancel a) job_id
  | CM_kWake trigger => EvWake (ck_schedule a) (ck_launch a) trigger
  end.

(** The commands somebody waits for *)
Definition asks (c : Command) : bool := match c with CM_kWake _ => false | _ => true end.

(** [MpscChannel::try_send] with the policy [RejectNewest] *)
Definition try_send (capacity : N) (c : Command) (channel : list Command) : bool * list Command :=
  if len channel <? capacity then (true, channel ++ [c]) else (false, channel).

(** The answer [reject_pending_commands] gives *)
Definition stopping_ack (c : Command) : option Ack :=
  match c with
  | CM_kSubmit _ => Some (AckSubmit (mkSubmitOutcome SO_kUnavailable 0 "job manager is stopping"))
  | CM_kCancel _ => Some (AckCancel (mkCancelOutcome CO_kUnavailable 0 "job manager is stopping"))
  | CM_kWake _ => None
  end.

Section loop.
Context {S : Type} `{StateStore S}.

(** The worker between two calls: its state and channel; the commands other
    threads got into the channel so far, the answers given, and the events
    handled, in order. *)
Record Loop := mkLoop {
  lo_manager : Manager S;
  lo_channel : list Command;
  lo_accepted : list Command;
  lo_acks : list (Command * Ack);
  lo_handled : list Event;
}.

Definition new_loop (m : Manager S) : Loop := mkLoop m [] [] [] [].

(** One command of another thread *)
Definition receive (capacity : N) (l : Loop) (c : Command) : Loop :=
  match try_send capacity c (lo_channel l) with
  | (true, channel) => {| l with lo_channel := channel; lo_accepted := lo_accepted l ++ [c] |}
  | (false, _) => l
  end.

Definition receive_all (capacity : N) (arrivals : list Command) (l : Loop) : Loop :=
  fold_left (receive capacity) arrivals l.

(** [post_wake]: the wakes an event posts, lost when the channel is full *)
Definition post_wakes (capacity : N) (triggers : list SchedulerTrigger) (channel : list Command) : list Command :=
  fold_left (fun channel trigger => (try_send capacity (CM_kWake trigger) channel).2) triggers channel.

(** The wakes [m'] has posted since [m] *)
Definition new_wakes (m m' : Manager S) : list SchedulerTrigger := drop (length (mg_wakes m)) (mg_wakes m').

(** One event, with what it posts *)
Definition handle_event (config : JobManagerConfig) (e : Event) (l : Loop) : Loop :=
  let m' := worker_step config e (lo_manager l) in
  {| l with lo_manager := m';
            lo_channel := post_wakes (jc_command_capacity config) (new_wakes (lo_manager l) m') (lo_channel l);
            lo_handled := lo_handled l ++ [e] |}.

(** The promise of a command, from the state it is processed in *)
Definition command_ack (a : CommandAnswers) (c : Command) (m : Manager S) : option Ack :=
  match c with
  | CM_kSubmit spec => Some (AckSubmit (process_submit (ck_create a) (ck_rollback a) spec (bump inc_commands m)).1)
  | CM_kCancel job_id => Some (AckCancel (process_cancel (ck_admits a) (ck_cancel a) job_id (bump inc_commands m)).1)
  | CM_kWake _ => None
  end.

Definition add_ack (c : Command) (ack : option Ack) (l : Loop) : Loop :=
  match ack with Some ack => {| l with lo_acks := lo_acks l ++ [(c, ack)] |} | None => l end.

(** The switch of [process_commands]; [during] are the commands other threads
    send while it works, before it posts its wake. *)
Definition handle_command (config : JobManagerConfig) (a : CommandAnswers) (c : Command) (during : list Command) (l : Loop)
  : Loop :=
  handle_event config (command_event a c)
    (receive_all (jc_command_capacity config) during (add_ack c (command_ack a c (lo_manager l)) l)).

(** What other threads send around one [try_receive]: before it, and while the
    command it took is processed *)
Record Arrivals := mkArrivals { ar_before : list Command; ar_during : list Command }.

Definition no_arrivals : Arrivals := mkArrivals [] [].

(** [process_commands]: [arrivals] gives the commands that arrive around each
    [try_receive], [answers] what the outside answers for the [i]-th one. *)
Fixpoint process_commands (fuel : nat) (config : JobManagerConfig) (answers : nat -> CommandAnswers) (i : nat)
    (arrivals : list Arrivals) (l : Loop) : option Loop :=
  match fuel with
  | O => None
  | Datatypes.S fuel =>
      let arrived := hd no_arrivals arrivals in
      let l := receive_all (jc_command_capacity config) (ar_before arrived) l in
      match lo_channel l with
      | [] => Some l
      | c :: channel =>
          process_commands fuel config answers (Datatypes.S i) (tl arrivals)
            (handle_command config (answers i) c (ar_during arrived) {| l with lo_channel := channel |})
      end
  end.

(** An exit event with its answers and what other threads send before it posts
    its wake; [xi_stopping] is whether the worker sees the stop flag after it. *)
Record ExitInput := mkExitInput {
  xi_arrivals : list Command;
  xi_event : ExitEvent;
  xi_admits : nat -> bool;
  xi_now : Z;
  xi_stopping : bool;
}.

(** [drain_exit_events] *)
Fixpoint drain_exit_events (config : JobManagerConfig) (exits : list ExitInput) (l : Loop) : Loop :=
  match exits with
  | [] => l
  | x :: exits =>
      let l := receive_all (jc_command_capacity config) (xi_arrivals x) l in
      let l := handle_event config (EvExit (xi_admits x) (xi_now x) (xi_event x)) l in
      if xi_stopping x then l else drain_exit_events config exits l
  end.

(** [drain_pump_done] *)
Definition drain_pump_done (config : JobManagerConfig) (done : list N) (l : Loop) : Loop :=
  fold_left (fun l job => handle_event config (EvPumpDone job) l) done l.

(** [drain_gpu_events] *)
Definition drain_gpu_events (events : list GpuManagerEvent) : bool :=
  existsb (fun e => match ge_kind e with GM_kGpuStateChanged => true | _ => false end) events.

(** What happens in one round of [run]: the stop flag after the wait and after
    the commands, and what the sources deliver; the grace timers that fire in
    the executor's threads during the wait. *)
Record LoopRound := mkLoopRound {
  lr_grace : list (Z * (Z -> option Z) * N);
  lr_stop_waiting : bool;
  lr_arrivals : list Arrivals;
  lr_answers : nat -> CommandAnswers;
  lr_stop_commands : bool;
  lr_exits : list ExitInput;
  lr_done : list N;
  lr_gpu : list GpuManagerEvent;
  lr_gpu_schedule : ScheduleAnswers;
  lr_gpu_launch : LaunchAnswers;
}.

Definition fire_timers (config : JobManagerConfig) (timers : list (Z * (Z -> option Z) * N)) (l : Loop) : Loop :=
  fold_left (fun l timer => handle_event config (EvGrace timer.1.1 timer.1.2 timer.2) l) timers l.

(** One round; the flag is whether the loop was left. *)
Definition run_round (fuel : nat) (config : JobManagerConfig) (r : LoopRound) (l : Loop) : option (bool * Loop) :=
  let l := fire_timers config (lr_grace r) l in
  if lr_stop_waiting r then Some (true, l)
  else
    match process_commands fuel config (lr_answers r) 0 (lr_arrivals r) l with
    | None => None
    | Some l =>
        if lr_stop_commands r then Some (true, l)
        else
          let l := drain_exit_events config (lr_exits r) l in
          let l := drain_pump_done config (lr_done r) l in
          Some (false, if drain_gpu_events (lr_gpu r)
                       then handle_event config (EvGpuChanged (lr_gpu_schedule r) (lr_gpu_launch r)) l else l)
    end.

(** [reject_pending_commands]; [late] arrives before it looks. *)
Definition reject_pending_commands (config : JobManagerConfig) (late : list Command) (l : Loop) : Loop :=
  let l := receive_all (jc_command_capacity config) late l in
  {| l with lo_acks := lo_acks l ++ omap (fun c => (fun ack => (c, ack)) <$> stopping_ack c) (lo_channel l);
            lo_channel := [] |}.

(** [run]: rounds until the stop flag is seen; the end of the list is a stop
    seen at the head of the loop. *)
Fixpoint run_loop (fuel : nat) (config : JobManagerConfig) (rounds : list LoopRound) (late : list Command) (l : Loop)
  : option Loop :=
  match rounds with
  | [] => Some (reject_pending_commands config late l)
  | r :: rounds =>
      match run_round fuel config r l with
      | None => None
      | Some (true, l) => Some (reject_pending_commands config late l)
      | Some (false, l) => run_loop fuel config rounds late l
      end
  end.
End loop.
Arguments Loop S : clear implicits.

(** ** What events post *)

Section wakes.
Context {S : Type} `{StateStore S}.
Implicit Types (m : Manager S).

Lemma emit_signals_wakes calls m : mg_wakes (emit_signals calls m) = mg_wakes m.
Proof. done. Qed.

Lemma rewrite_job_wakes admits id compose m : mg_wakes (rewrite_job admits id compose m).2 = mg_wakes m.
Proof.
  unfold rewrite_job. generalize 3%nat. intros n. revert m.
  induction n as [|n IH]; intros m; simpl; [done|]. destruct (negb (load_ok _)); [done|].
  destruct (find_stored _ _); [|done]. destruct (compose s) as [updated release].
  unfold run_write. destruct (negb (admits n)); simpl.
  - done.
  - destruct (store_apply _ _) as [written s']. simpl. destruct (_ || _); [done|]. by rewrite IH.
Qed.

Lemma begin_cancellation_wakes c id b m : mg_wakes (begin_cancellation c id b m) = mg_wakes m.
Proof.
  unfold begin_cancellation. destruct (mg_supervised m !! id) as [job|]; [|done].
  destruct (sv_supervisor job); [|done]. destruct (request_cancel _ _ _) as [[outcome calls] supervisor].
  destruct (_ || _); [done|]. destruct (if _ : bool then _ else _) as [code armed]. by destruct code.
Qed.

Lemma process_submit_wakes create rollback spec m : mg_wakes (process_submit create rollback spec m).2 = mg_wakes m.
Proof.
  unfold process_submit, run_write. destruct (negb (load_ok _)); [done|].
  destruct (negb create); simpl; [done|]. destruct (store_apply _ _) as [write s1]. simpl.
  destruct (negb (write_ok write)); [done|]. destruct (queue_admit _ _) as [admission q]. simpl.
  destruct (negb (queue_ok admission)); [|done]. destruct (negb rollback); [done|].
  by destruct (store_apply _ _).
Qed.

Lemma process_cancel_wakes admits c id m : mg_wakes (process_cancel admits c id m).2 = mg_wakes m.
Proof.
  unfold process_cancel. destruct (negb (load_ok _)); [done|]. destruct (find_stored _ _) as [record|]; [|done].
  destruct (sj_state record); try done.
  1-3: match goal with |- context [rewrite_job ?a ?i ?f ?m0] =>
         pose proof (rewrite_job_wakes a i f m0) as Hw; destruct (rewrite_job a i f m0) as [write m1] end;
       simpl in Hw; destruct (negb (write_ok write)); [done|].
  - by destruct (queue_remove _ _).
  - cbn [snd]. by rewrite begin_cancellation_wakes.
  - cbn [snd]. by rewrite begin_cancellation_wakes.
  - apply begin_cancellation_wakes.
Qed.

Lemma fail_launch_wakes admits now id uuid reason m : mg_wakes (fail_launch admits now id uuid reason m) = mg_wakes m.
Proof.
  unfold fail_launch. match goal with |- context [rewrite_job ?a ?i ?f ?m0] =>
    pose proof (rewrite_job_wakes a i f m0) as Hw; destruct (rewrite_job a i f m0) as [write m1] end.
  simpl in *. by repeat case_match.
Qed.

Lemma launch_scheduled_wakes config a id uuid m : mg_wakes (launch_scheduled config a id uuid m) = mg_wakes m.
Proof.
  unfold launch_scheduled. destruct (negb (load_ok _)); [done|]. destruct (find_stored _ _) as [record|]; [|done].
  destruct (negb (bool_decide _)); [done|]. destruct (prepare_launch _ _ _ _ _) as [[plan directory]|reason];
    [|apply fail_launch_wakes].
  destruct (spawn _ _ _) as [[identity|e] supervisor]; [|by rewrite fail_launch_wakes].
  unfold launch_spawned. match goal with |- context [rewrite_job ?a ?i ?f ?m0] =>
    pose proof (rewrite_job_wakes a i f m0) as Hw; destruct (rewrite_job a i f m0) as [write m1] end.
  simpl in Hw. repeat case_match; rewrite ?fail_launch_wakes; done.
Qed.

Lemma schedule_now_wakes config sa a trigger m : mg_wakes (schedule_now config sa a trigger m) = mg_wakes m.
Proof.
  unfold schedule_now. destruct (negb (sa_open sa)); [done|]. destruct (sa_gpus sa); [|done].
  destruct (negb (sa_admitted sa)); [done|]. destruct (negb (sa_completed sa)); [done|].
  destruct (run_once _ _ _ _ _) as [[[result|] q] s]; [|done].
  destruct (schedule_scheduled result), (se_job_id (sr_event result)), (se_gpu_uuid (sr_event result));
    rewrite ?launch_scheduled_wakes; repeat case_match; done.
Qed.
End wakes.

(** ** Specification *)

Ltac loop_cbn := cbn [lo_manager lo_channel lo_accepted lo_acks lo_handled fst snd].

Section spec.
Context {S : Type} `{StateStore S}.
Implicit Types (m : Manager S) (l : Loop S).

(** A sequence of events of the single writer *)
Definition worker_steps (config : JobManagerConfig) (events : list Event) m : Manager S :=
  fold_left (fun m e => worker_step config e m) events m.

(** An answer is the worker's own, computed in the state the command was
    processed in, or the one given to what is left at a stop. *)
Definition ack_true (config : JobManagerConfig) m (handled : list Event) (reply : Command * Ack) : Prop :=
  stopping_ack reply.1 = Some reply.2 \/
  exists before a after,
    handled = before ++ command_event a reply.1 :: after /\
    command_ack a reply.1 (worker_steps config before m) = Some reply.2.

(** The loop's account from the manager [m] on *)
Record LoopOk (config : JobManagerConfig) m l : Prop := {
  lk_manager : lo_manager l = worker_steps config (lo_handled l) m;
  lk_requests : (lo_acks l).*1 ++ filter (fun c => asks c = true) (lo_channel l)
                = filter (fun c => asks c = true) (lo_accepted l);
  lk_acks : Forall (ack_true config m (lo_handled l)) (lo_acks l);
}.

Lemma worker_steps_snoc config events e m :
  worker_steps config (events ++ [e]) m = worker_step config e (worker_steps config events m).
Proof. unfold worker_steps. by rewrite fold_left_app. Qed.

Lemma ack_true_snoc config m handled e reply :
  ack_true config m handled reply -> ack_true config m (handled ++ [e]) reply.
Proof.
  intros [Ha|(before & a & after & -> & Ha)]; [by left|right].
  exists before, a, (after ++ [e]). by rewrite <- app_assoc.
Qed.

Lemma try_send_cases capacity c channel :
  try_send capacity c channel = (true, channel ++ [c]) /\ len channel < capacity \/
  try_send capacity c channel = (false, channel) /\ capacity <= len channel.
Proof. unfold try_send. destruct (N.ltb_spec (len channel) capacity); auto. Qed.

Lemma receive_ok config capacity m l c : LoopOk config m l -> LoopOk config m (receive capacity l c).
Proof.
  intros [Hm Hr Ha]. unfold receive.
  destruct (try_send_cases capacity c (lo_channel l)) as [[-> _]|[-> _]]; [|done].
  split; [done| |done]. loop_cbn. by rewrite !filter_app, app_assoc, Hr.
Qed.

Lemma receive_all_ok config capacity m arrivals l :
  LoopOk config m l -> LoopOk config m (receive_all capacity arrivals l).
Proof. revert l. induction arrivals as [|c arrivals IH]; intros l Hl; [done|]. by apply IH, receive_ok. Qed.

Lemma post_wakes_app capacity triggers channel :
  exists ws, post_wakes capacity triggers channel = channel ++ ws /\ Forall (fun c => asks c = false) ws.
Proof.
  revert channel. induction triggers as [|t triggers IH]; intros channel.
  { exists []. by rewrite app_nil_r. }
  change (post_wakes capacity (t :: triggers) channel)
    with (post_wakes capacity triggers (try_send capacity (CM_kWake t) channel).2).
  destruct (try_send_cases capacity (CM_kWake t) channel) as [[-> _]|[-> _]]; cbn [snd]; [|apply IH].
  destruct (IH (channel ++ [CM_kWake t])) as (ws & -> & Hw). exists (CM_kWake t :: ws).
  rewrite <- app_assoc. split; [done|]. by constructor.
Qed.

Lemma handle_event_ok config m e l : LoopOk config m l -> LoopOk config m (handle_event config e l).
Proof.
  intros [Hm Hr Ha]. unfold handle_event. split; loop_cbn.
  - by rewrite worker_steps_snoc, <- Hm.
  - destruct (post_wakes_app (jc_command_capacity config)
      (new_wakes (lo_manager l) (worker_step config e (lo_manager l))) (lo_channel l)) as (ws & -> & Hw).
    rewrite filter_app, (filter_none _ ws), app_nil_r; [done|].
    eapply Forall_impl; [exact Hw|]. intros c ->. done.
  - eapply Forall_impl; [exact Ha|]. intros reply. apply ack_true_snoc.
Qed.

Lemma command_ack_asks a c m : is_Some (command_ack a c m) <-> asks c = true.
Proof. rewrite is_Some_alt. by destruct c. Qed.

Lemma stopping_ack_asks c : is_Some (stopping_ack c) <-> asks c = true.
Proof. rewrite is_Some_alt. by destruct c. Qed.

Lemma receive_all_frame capacity arrivals l :
  lo_manager (receive_all capacity arrivals l) = lo_manager l /\
  lo_handled (receive_all capacity arrivals l) = lo_handled l /\
  lo_acks (receive_all capacity arrivals l) = lo_acks l /\
  exists more, lo_channel (receive_all capacity arrivals l) = lo_channel l ++ more /\
    lo_accepted (receive_all capacity arrivals l) = lo_accepted l ++ more.
Proof.
  revert l. induction arrivals as [|c arrivals IH]; intros l; [split_and!; [done..|]; exists []; by rewrite !app_nil_r|].
  change (receive_all capacity (c :: arrivals) l) with (receive_all capacity arrivals (receive capacity l c)).
  destruct (IH (receive capacity l c)) as (Em & Eh & Ea & more & Ec & Ex). rewrite Em, Eh, Ea, Ec, Ex. unfold receive.
  destruct (try_send_cases capacity c (lo_channel l)) as [[-> _]|[-> _]]; loop_cbn; (split_and!; [done..|]); [|by eauto].
  exists (c :: more). by rewrite <- !app_assoc.
Qed.

Lemma handle_command_ok config m a c during channel l :
  LoopOk config m l -> lo_channel l = c :: channel ->
  LoopOk config m (handle_command config a c during {| l with lo_channel := channel |}).
Proof.
  intros [Hm Hr Ha] Hc. rewrite Hc in Hr. unfold handle_command.
  set (l1 := {| l with lo_channel := channel |}).
  change (lo_manager l1) with (lo_manager l).
  destruct (command_ack a c (lo_manager l)) as [ack|] eqn:Hack; cbn [add_ack].
  - assert (asks c = true) as Hasks by (apply (command_ack_asks a c (lo_manager l)); by eexists).
    set (l2 := {| l1 with lo_acks := lo_acks l1 ++ [(c, ack)] |}).
    destruct (receive_all_frame (jc_command_capacity config) during l2) as (Em & Eh & Ea & more & Ec & Ex).
    unfold handle_event. split; loop_cbn; rewrite ?Em, ?Eh, ?Ea, ?Ec, ?Ex; unfold l2, l1; loop_cbn.
    + by rewrite worker_steps_snoc, <- Hm.
    + destruct (post_wakes_app (jc_command_capacity config)
        (new_wakes (lo_manager l) (worker_step config (command_event a c) (lo_manager l))) (channel ++ more)) as (ws & -> & Hw).
      rewrite filter_app, (filter_none _ ws), app_nil_r by (eapply Forall_impl; [exact Hw|]; by intros ? ->).
      rewrite !filter_app, fmap_app, <- Hr, filter_cons_True by done. by rewrite <- !app_assoc.
    + apply Forall_app. split.
      * eapply Forall_impl; [exact Ha|]. intros reply. apply ack_true_snoc.
      * constructor; [|done]. right. exists (lo_handled l), a, []. loop_cbn. by rewrite <- Hm.
  - apply handle_event_ok, receive_all_ok. split; [done| |done]. unfold l1. loop_cbn. rewrite <- Hr, filter_cons_False; [done|].
    intros Hasks. apply (command_ack_asks a c (lo_manager l)) in Hasks as [? ?]. congruence.
Qed.

Lemma process_commands_ok fuel config answers i arrivals m l l' :
  LoopOk config m l -> process_commands fuel config answers i arrivals l = Some l' -> LoopOk config m l'.
Proof.
  revert i arrivals l. induction fuel as [|fuel IH]; intros i arrivals l Hl Hrun; cbn [process_commands] in Hrun; [done|].
  apply (receive_all_ok _ (jc_command_capacity config) _ (ar_before (hd no_arrivals arrivals))) in Hl.
  set (l1 := receive_all _ _ l) in *. destruct (lo_channel l1) as [|c channel] eqn:Hc; simplify_eq; [done|].
  eapply IH; [|exact Hrun]. by apply handle_command_ok.
Qed.

Lemma fold_events_ok {A} (f : A -> Event) config m (xs : list A) l :
  LoopOk config m l -> LoopOk config m (fold_left (fun l x => handle_event config (f x) l) xs l).
Proof. revert l. induction xs as [|x xs IH]; intros l Hl; [done|]. by apply IH, handle_event_ok. Qed.

Lemma drain_exit_events_ok config m exits l : LoopOk config m l -> LoopOk config m (drain_exit_events config exits l).
Proof.
  revert l. induction exits as [|x exits IH]; intros l Hl; [done|]. cbn [drain_exit_events].
  destruct (xi_stopping x); [by apply handle_event_ok, receive_all_ok|]. by apply IH, handle_event_ok, receive_all_ok.
Qed.

Lemma run_round_ok fuel config r m l b l' :
  LoopOk config m l -> run_round fuel config r l = Some (b, l') -> LoopOk config m l'.
Proof.
  intros Hl Hrun. unfold run_round in Hrun.
  assert (LoopOk config m (fire_timers config (lr_grace r) l)) as Hg
    by exact (fold_events_ok (fun t => EvGrace t.1.1 t.1.2 t.2) _ _ _ _ Hl).
  destruct (lr_stop_waiting r); [by simplify_eq|].
  destruct (process_commands _ _ _ _ _ _) as [l1|] eqn:Hp; [|done].
  apply (process_commands_ok _ _ _ _ _ m) in Hp; [|done].
  destruct (lr_stop_commands r); simplify_eq; [done|].
  assert (LoopOk config m (drain_pump_done config (lr_done r) (drain_exit_events config (lr_exits r) l1))) as Hd
    by exact (fold_events_ok EvPumpDone _ _ _ _ (drain_exit_events_ok _ _ _ _ Hp)).
  destruct (drain_gpu_events _); [by apply handle_event_ok|done].
Qed.

Lemma reject_pending_ok config late m l :
  LoopOk config m l -> LoopOk config m (reject_pending_commands config late l).
Proof.
  intros Hl. unfold reject_pending_commands.
  apply (receive_all_ok _ (jc_command_capacity config) _ late) in Hl. set (l1 := receive_all _ _ l) in *.
  destruct Hl as [Hm Hr Ha]. split; loop_cbn; [done| |].
  - rewrite app_nil_r, fmap_app, <- Hr. f_equal. clear. induction (lo_channel l1) as [|c q IH]; [done|].
    destruct c; cbn; rewrite IH; done.
  - apply Forall_app. split; [done|]. apply Forall_forall. intros reply Hin.
    apply list_elem_of_omap in Hin as (c & _ & Hc). destruct (stopping_ack c) eqn:E; simplify_eq/=. by left.
Qed.

Lemma run_loop_ok fuel config rounds late m l l' :
  LoopOk config m l -> run_loop fuel config rounds late l = Some l' -> LoopOk config m l' /\ lo_channel l' = [].
Proof.
  revert l. induction rounds as [|r rounds IH]; intros l Hl Hrun; cbn [run_loop] in Hrun.
  { simplify_eq. split; [by apply reject_pending_ok|done]. }
  destruct (run_round fuel config r l) as [[[|] l1]|] eqn:Hr; [|..|done].
  - simplify_eq. split; [|done]. eapply reject_pending_ok, run_round_ok; done.
  - eapply IH; [|done]. by eapply run_round_ok.
Qed.
End spec.

(** ** The loop ends *)

Section termination.
Context {S : Type} `{StateStore S}.
Implicit Types (m : Manager S) (l : Loop S).

(** A request posts one wake, a wake nothing. *)
Definition weight (c : Command) : nat := if asks c then 2 else 1.
Definition channel_weight (channel : list Command) : nat := sum_list_with weight channel.

Lemma channel_weight_app q1 q2 : channel_weight (q1 ++ q2) = (channel_weight q1 + channel_weight q2)%nat.
Proof. apply sum_list_with_app. Qed.

Lemma channel_weight_bound channel : (channel_weight channel <= 2 * length channel)%nat.
Proof.
  induction channel as [|c channel IH]; [done|]. unfold channel_weight in *. cbn [sum_list_with length].
  assert (weight c <= 2)%nat by (unfold weight; destruct (asks c); lia). lia.
Qed.

Lemma receive_weight capacity l c :
  (channel_weight (lo_channel (receive capacity l c)) <= channel_weight (lo_channel l) + 2)%nat.
Proof.
  unfold receive. destruct (try_send_cases capacity c (lo_channel l)) as [[-> _]|[-> _]]; loop_cbn; [|lia].
  rewrite channel_weight_app. pose proof (channel_weight_bound [c]). simpl in *. lia.
Qed.

Lemma receive_all_weight capacity arrivals l :
  (channel_weight (lo_channel (receive_all capacity arrivals l)) <= channel_weight (lo_channel l) + 2 * length arrivals)%nat.
Proof.
  revert l. induction arrivals as [|c arrivals IH]; intros l; [simpl; lia|].
  change (receive_all capacity (c :: arrivals) l) with (receive_all capacity arrivals (receive capacity l c)).
  pose proof (IH (receive capacity l c)). pose proof (receive_weight capacity l c). cbn [length]. lia.
Qed.

(** What a command posts *)
Definition posted (c : Command) : list SchedulerTrigger :=
  match c with CM_kSubmit _ => [ST_kJobSubmitted] | CM_kCancel _ => [ST_kJobCancelled] | CM_kWake _ => [] end.

Lemma command_wakes config a c m : new_wakes m (worker_step config (command_event a c) m) = posted c.
Proof.
  unfold new_wakes. destruct c as [spec|id|trigger]; simpl.
  - by rewrite process_submit_wakes, drop_app_length.
  - by rewrite process_cancel_wakes, drop_app_length.
  - rewrite schedule_now_wakes. by apply drop_ge.
Qed.

Lemma add_ack_frame c ack l :
  lo_manager (add_ack c ack l) = lo_manager l /\ lo_channel (add_ack c ack l) = lo_channel l /\
  lo_handled (add_ack c ack l) = lo_handled l.
Proof. by destruct ack. Qed.

Lemma receive_all_channel capacity arrivals l1 l2 :
  lo_channel l1 = lo_channel l2 ->
  lo_channel (receive_all capacity arrivals l1) = lo_channel (receive_all capacity arrivals l2).
Proof.
  revert l1 l2. induction arrivals as [|c arrivals IH]; intros l1 l2 E; [done|]. apply (IH (receive capacity l1 c) (receive capacity l2 c)).
  unfold receive. rewrite E. by destruct (try_send capacity c (lo_channel l2)) as [[|] q].
Qed.

Lemma handle_command_channel config a c during l :
  lo_channel (handle_command config a c during l) =
    post_wakes (jc_command_capacity config) (posted c) (lo_channel (receive_all (jc_command_capacity config) during l)) /\
  lo_handled (handle_command config a c during l) = lo_handled l ++ [command_event a c].
Proof.
  unfold handle_command, handle_event. loop_cbn.
  destruct (add_ack_frame c (command_ack a c (lo_manager l)) l) as (Em & Ec & Eh).
  destruct (receive_all_frame (jc_command_capacity config) during (add_ack c (command_ack a c (lo_manager l)) l)) as (-> & -> & _).
  by rewrite Em, Eh, command_wakes, (receive_all_channel _ _ _ l Ec).
Qed.

Lemma handle_command_weight config a c during l :
  (channel_weight (lo_channel (handle_command config a c during l)) <
   weight c + channel_weight (lo_channel l) + 2 * length during)%nat.
Proof.
  destruct (handle_command_channel config a c during l) as [-> _].
  pose proof (receive_all_weight (jc_command_capacity config) during l) as Hd.
  set (q := lo_channel (receive_all _ during l)) in *.
  destruct c as [spec|id|trigger]; cbn [posted post_wakes fold_left weight asks]; [..|lia];
    match goal with |- context [try_send ?n ?c ?q] => destruct (try_send_cases n c q) as [[-> _]|[-> _]] end;
    cbn [snd]; rewrite ?channel_weight_app; cbn; lia.
Qed.

(** All that arrives *)
Definition arriving (arrivals : list Arrivals) : nat :=
  sum_list_with (fun a => length (ar_before a) + length (ar_during a))%nat arrivals.

(** Each [try_receive] lowers the weight of what is to be done. *)
Lemma process_commands_total fuel config answers i arrivals l :
  (channel_weight (lo_channel l) + 2 * arriving arrivals < fuel)%nat ->
  exists l', process_commands fuel config answers i arrivals l = Some l'.
Proof.
  revert i arrivals l. induction fuel as [|fuel IH]; intros i arrivals l Hf; [lia|]. cbn [process_commands].
  pose proof (receive_all_weight (jc_command_capacity config) (ar_before (hd no_arrivals arrivals)) l) as Hw.
  set (l1 := receive_all _ _ l) in *. destruct (lo_channel l1) as [|c channel] eqn:Hc; [by eauto|]. apply IH.
  pose proof (handle_command_weight config (answers i) c (ar_during (hd no_arrivals arrivals))
                {| l1 with lo_channel := channel |}) as Hh.
  cbn [lo_channel] in Hh. unfold channel_weight in Hw at 1. cbn [sum_list_with] in Hw.
  fold (channel_weight channel) in Hw.
  assert (arriving arrivals = length (ar_before (hd no_arrivals arrivals)) + length (ar_during (hd no_arrivals arrivals))
            + arriving (tl arrivals))%nat by (by destruct arrivals).
  lia.
Qed.

(** *** The channel never holds more than its capacity. *)

Lemma try_send_bound capacity c channel : len channel <= capacity -> len (try_send capacity c channel).2 <= capacity.
Proof.
  intros Hl. destruct (try_send_cases capacity c channel) as [[-> ?]|[-> ?]]; cbn [snd]; [|done].
  rewrite len_app, len_cons, len_nil. lia.
Qed.

Lemma post_wakes_bound capacity triggers channel :
  len channel <= capacity -> len (post_wakes capacity triggers channel) <= capacity.
Proof.
  revert channel. induction triggers as [|t triggers IH]; intros channel Hl; [done|]. by apply IH, try_send_bound.
Qed.

Definition bounded_channel (config : JobManagerConfig) l : Prop := len (lo_channel l) <= jc_command_capacity config.

Lemma receive_all_bound config arrivals l :
  bounded_channel config l -> bounded_channel config (receive_all (jc_command_capacity config) arrivals l).
Proof.
  revert l. induction arrivals as [|c arrivals IH]; intros l Hl; [done|]. apply IH. unfold bounded_channel, receive in *.
  pose proof (try_send_bound (jc_command_capacity config) c _ Hl) as Hb.
  destruct (try_send _ _ _) as [[|] channel]; done.
Qed.

Lemma handle_event_bound config e l : bounded_channel config l -> bounded_channel config (handle_event config e l).
Proof. intros Hl. by apply post_wakes_bound. Qed.

Lemma process_commands_bound fuel config answers i arrivals l l' :
  bounded_channel config l -> process_commands fuel config answers i arrivals l = Some l' -> bounded_channel config l'.
Proof.
  revert i arrivals l. induction fuel as [|fuel IH]; intros i arrivals l Hl Hrun; cbn [process_commands] in Hrun; [done|].
  apply (receive_all_bound _ (ar_before (hd no_arrivals arrivals))) in Hl. set (l1 := receive_all _ _ l) in *.
  destruct (lo_channel l1) as [|c channel] eqn:Hc; simplify_eq; [done|]. eapply IH; [|exact Hrun].
  unfold bounded_channel in *.
  destruct (handle_command_channel config (answers i) c (ar_during (hd no_arrivals arrivals)) {| l1 with lo_channel := channel |})
    as [-> _].
  apply post_wakes_bound, receive_all_bound. unfold bounded_channel. loop_cbn. rewrite Hc, len_cons in Hl. lia.
Qed.

Lemma fold_events_bound {A} (f : A -> Event) config (xs : list A) l :
  bounded_channel config l -> bounded_channel config (fold_left (fun l x => handle_event config (f x) l) xs l).
Proof. revert l. induction xs as [|x xs IH]; intros l Hl; [done|]. by apply IH, handle_event_bound. Qed.

Lemma drain_exit_events_bound config exits l :
  bounded_channel config l -> bounded_channel config (drain_exit_events config exits l).
Proof.
  revert l. induction exits as [|x exits IH]; intros l Hl; [done|]. cbn [drain_exit_events].
  destruct (xi_stopping x); [by apply handle_event_bound, receive_all_bound|].
  by apply IH, handle_event_bound, receive_all_bound.
Qed.

(** Steps enough for one round's commands *)
Definition round_fuel (config : JobManagerConfig) (r : LoopRound) : nat :=
  2 * N.to_nat (jc_command_capacity config) + 2 * arriving (lr_arrivals r) + 1.

Lemma run_round_total fuel config r l :
  bounded_channel config l -> (round_fuel config r <= fuel)%nat ->
  exists b l', run_round fuel config r l = Some (b, l') /\ bounded_channel config l'.
Proof.
  intros Hl Hf. unfold run_round.
  assert (bounded_channel config (fire_timers config (lr_grace r) l)) as Hg
    by exact (fold_events_bound (fun t => EvGrace t.1.1 t.1.2 t.2) _ _ _ Hl).
  set (l1 := fire_timers config (lr_grace r) l) in *. destruct (lr_stop_waiting r); [by eauto|].
  destruct (process_commands_total fuel config (lr_answers r) 0 (lr_arrivals r) l1) as [l2 Hp].
  { pose proof (channel_weight_bound (lo_channel l1)). unfold round_fuel in Hf. unfold bounded_channel, len in Hg. lia. }
  rewrite Hp. apply process_commands_bound in Hp; [|done]. destruct (lr_stop_commands r); [by eauto|].
  eexists _, _. split; [done|].
  assert (bounded_channel config (drain_pump_done config (lr_done r) (drain_exit_events config (lr_exits r) l2))) as Hd
    by exact (fold_events_bound EvPumpDone _ _ _ (drain_exit_events_bound _ _ _ Hp)).
  destruct (drain_gpu_events _); [by apply handle_event_bound|done].
Qed.

Lemma run_loop_total fuel config rounds late l :
  bounded_channel config l -> Forall (fun r => round_fuel config r <= fuel)%nat rounds ->
  exists l', run_loop fuel config rounds late l = Some l'.
Proof.
  intros Hl Hf. revert l Hl. induction Hf as [|r rounds Hr _ IH]; intros l Hl; cbn [run_loop]; [by eauto|].
  destruct (run_round_total fuel config r l Hl Hr) as ([|] & l1 & -> & Hl1); eauto.
Qed.
End termination.

(** ** Scheduling follows requests *)

Definition is_wake (e : Event) : bool := match e with EvWake _ _ _ => true | _ => false end.
Definition is_request (e : Event) : bool := match e with EvSubmit _ _ _ | EvCancel _ _ _ => true | _ => false end.

Section follows.
Context {S : Type} `{StateStore S}.
Implicit Types (m : Manager S) (l : Loop S).

(** A request leaves something in the channel: its wake, or what made it full. *)
Lemma request_leaves_work config a c during l :
  0 < jc_command_capacity config -> asks c = true -> lo_channel (handle_command config a c during l) <> [].
Proof.
  intros Hcap Hc Hnil. destruct (handle_command_channel config a c during l) as [E _]. rewrite E in Hnil.
  destruct c as [spec|id|]; [..|done]; cbn [posted post_wakes fold_left] in Hnil;
    match type of Hnil with context [try_send ?n ?c ?q] => destruct (try_send_cases n c q) as [[He _]|[He Hf]] end;
    rewrite He in Hnil; cbn [snd] in Hnil.
  1,3: by apply app_nil in Hnil as [_ ?].
  all: rewrite Hnil, len_nil in Hf; lia.
Qed.

Lemma process_commands_events fuel config answers i arrivals l l' :
  0 < jc_command_capacity config ->
  process_commands fuel config answers i arrivals l = Some l' ->
  exists events, lo_handled l' = lo_handled l ++ events /\
    (lo_channel l <> [] -> Exists (fun e => is_wake e = true) events) /\
    (forall before e after, events = before ++ e :: after -> is_request e = true ->
       Exists (fun e => is_wake e = true) after).
Proof.
  intros Hcap. revert i arrivals l. induction fuel as [|fuel IH]; intros i arrivals l Hrun; cbn [process_commands] in Hrun; [done|].
  destruct (receive_all_frame (jc_command_capacity config) (ar_before (hd no_arrivals arrivals)) l)
    as (_ & Hh & _ & more & Hmore & _).
  set (l1 := receive_all _ _ l) in *. destruct (lo_channel l1) as [|c channel] eqn:Hc.
  { simplify_eq. exists []. rewrite Hh, app_nil_r. split; [done|]. split.
    - intros Hne. by destruct (lo_channel l).
    - intros [|] ? ? ?; done. }
  set (l2 := handle_command config (answers i) c _ _) in *.
  destruct (IH _ _ _ Hrun) as (events & He & Hwake & Hfollow).
  destruct (handle_command_channel config (answers i) c (ar_during (hd no_arrivals arrivals))
              {| l1 with lo_channel := channel |}) as [_ Eh].
  fold l2 in Eh. cbn [lo_handled] in Eh. exists (command_event (answers i) c :: events).
  assert (asks c = true -> Exists (fun e => is_wake e = true) events) as Hreq
    by (intros Hasks; by apply Hwake, request_leaves_work).
  split; [by rewrite He, Eh, Hh, <- app_assoc|]. split.
  - intros _. destruct c as [spec|id|trigger]; [apply Exists_cons_tl, Hreq; done..|by apply Exists_cons_hd].
  - intros [|e0 before] e after; intros [= <- ->] Hr; [|by eapply Hfollow].
    apply Hreq. by destruct c.
Qed.
End follows.

(** ** Properties of the loop *)

Section properties.
Context {S : Type} `{StateStoreLaws S}.
Implicit Types (m : Manager S) (l : Loop S).

Lemma worker_steps_run config events m :
  (forall before e after, events = before ++ e :: after -> event_ok e (worker_steps config before m)) ->
  worker_run config m events (worker_steps config events m).
Proof.
  revert m. induction events as [|e events IH]; intros m He; [constructor|].
  constructor; [by apply (He [] e events)|]. apply IH. intros before e' after ->.
  by apply (He (e :: before) e' after).
Qed.

(** C8. The worker thread is the single writer its model describes, and nobody
    waits in vain.  From a correct manager, whatever arrives from other threads
    and the event sources and whenever the stop flag is seen, the loop ends
    (with the steps its channel's capacity and the arrivals bound), its state is
    the result of handling the events one after another with [worker_step] and
    is correct, and every submission and cancellation that entered the channel
    has exactly one answer, in the order of arrival: the result of processing
    it, or that the manager is stopping.  (Correctness of the state is under the
    condition that no new process gets a pid whose exit is still to be handled.) *)
Theorem loop_exact fuel config rounds late m :
  MgrOk m -> Forall (fun r => round_fuel config r <= fuel)%nat rounds ->
  exists l, run_loop fuel config rounds late (new_loop m) = Some l /\
    lo_channel l = [] /\
    (lo_acks l).*1 = filter (fun c => asks c = true) (lo_accepted l) /\
    Forall (ack_true config m (lo_handled l)) (lo_acks l) /\
    lo_manager l = worker_steps config (lo_handled l) m /\
    ((forall before e after, lo_handled l = before ++ e :: after -> event_ok e (worker_steps config before m)) ->
     MgrOk (lo_manager l)).
Proof.
  intros Hm Hf. destruct (run_loop_total fuel config rounds late (new_loop m)) as [l Hl];
    [apply N.le_0_l|done|].
  exists l. split; [done|].
  apply (run_loop_ok _ _ _ _ m) in Hl as [[Hman Hreq Hacks] Hch]; [|by split].
  rewrite Hch, app_nil_r in Hreq. split_and!; [done..|].
  intros Hev. rewrite Hman. eapply worker_run_inv; [|exact Hm]. by apply worker_steps_run.
Qed.
End properties.

(** C26. No request goes unscheduled.  One drain of the command channel (which has
    room for something) ends, within two steps for each command in the channel
    and each one that arrives while it runs; and among the events it handles
    every submission and cancellation is followed by a scheduling round, even
    when other threads fill the channel while the request is processed, so that
    the wake it posts is refused. *)
Theorem scheduling_follows {S} `{StateStore S} fuel config answers i arrivals (l : Loop S) :
  0 < jc_command_capacity config ->
  (2 * length (lo_channel l) + 2 * arriving arrivals < fuel)%nat ->
  exists l' events,
    process_commands fuel config answers i arrivals l = Some l' /\ lo_handled l' = lo_handled l ++ events /\
    forall before e after, events = before ++ e :: after -> is_request e = true ->
      Exists (fun e => is_wake e = true) after.
Proof.
  intros Hcap Hf. destruct (process_commands_total fuel config answers i arrivals l) as [l' Hrun].
  { pose proof (channel_weight_bound (lo_channel l)). lia. }
  destruct (process_commands_events _ _ _ _ _ _ _ Hcap Hrun) as (events & ? & _ & ?). eauto.
Qed.

(** ** Examples *)

Definition example_command_answers (a : LaunchAnswers) : CommandAnswers :=
  mkCommandAnswers true true (fun _ => true) (mkCancelAnswers 0 (fun _ => None) true) example_schedule_answers a.

(** A submission arrives, and a cancellation while it is processed. *)
Definition example_loop_round : LoopRound :=
  mkLoopRound [] false [mkArrivals [CM_kSubmit example_spec] [CM_kCancel 77]] (fun _ => example_command_answers example_launch)
    false [] [] [] example_schedule_answers example_launch.

Lemma loop_exact_witness :
  exists l, run_loop 600 example_manager_config [example_loop_round] [CM_kCancel 78] (new_loop example_manager) = Some l /\
    (lo_acks l).*1 = [CM_kSubmit example_spec; CM_kCancel 77; CM_kCancel 78] /\
    length (lo_handled l) = 4%nat.
Proof.
  destruct (loop_exact 600 example_manager_config [example_loop_round] [CM_kCancel 78] example_manager)
    as (l & Hl & _ & Ha & _).
  - exact example_manager_ok.
  - constructor; [|constructor]. vm_compute. lia.
  - exists l. split; [exact Hl|]. rewrite Ha.
    enough (lo_accepted l = [CM_kSubmit example_spec; CM_kCancel 77; CM_kCancel 78] /\ length (lo_handled l) = 4%nat)
      as [-> Hh] by (split; [reflexivity|exact Hh]).
    vm_compute in Hl. injection Hl as <-. split; reflexivity.
Defined.

(** A channel for one command.  Another thread's cancellation takes the place
    while a submission is processed: the submission's own wake is refused. *)
Definition example_narrow_config : JobManagerConfig := let c := example_manager_config in {| c with jc_command_capacity := 1 |}.

Definition example_crowd : list Arrivals := [mkArrivals [CM_kSubmit example_spec] [CM_kCancel 77]].

Lemma scheduling_follows_witness :
  lo_channel (handle_command example_narrow_config (example_command_answers example_launch) (CM_kSubmit example_spec)
    [CM_kCancel 77] (new_loop example_manager)) = [CM_kCancel 77] /\
  exists l' events,
    process_commands 600 example_narrow_config (fun _ => example_command_answers example_launch) 0
      example_crowd (new_loop example_manager) = Some l' /\
    lo_handled l' = events /\ length events = 3%nat /\ Exists (fun e => is_wake e = true) (tl events).
Proof.
  split; [vm_compute; reflexivity|].
  destruct (scheduling_follows 600 example_narrow_config (fun _ => example_command_answers example_launch) 0
              example_crowd (new_loop example_manager)) as (l' & events & Hl & He & Hf).
  - reflexivity.
  - vm_compute. lia.
  - exists l', events. split; [exact Hl|]. split; [exact He|].
    assert (length (lo_handled l') = 3%nat /\ lo_handled l' = EvSubmit true true example_spec :: tl (lo_handled l')) as [Hn Ht]
      by (vm_compute in Hl; injection Hl as <-; split; reflexivity).
    rewrite He in Hn, Ht. split; [exact Hn|]. cbn [app new_loop lo_handled] in Ht.
    apply (Hf [] (EvSubmit true true example_spec) (tl events)); [exact Ht|reflexivity].
Defined.

(** A failed launch frees its GPU but wakes nobody: the job behind it stays
    queued although the next scheduling round would start it. *)
Definition example_no_owner : LaunchAnswers :=
  let a := example_launch in {| a with la_identity := fun _ => Err (IR_kNotFound, "no such user") |}.

Example failed_launch_waits :
  match process_commands 600 example_manager_config (fun _ => example_command_answers example_no_owner) 0
          [mkArrivals [CM_kSubmit example_spec] []] (new_loop example_manager) with
  | Some l =>
      lo_channel l = [] /\ len (q_entries (mg_queue (lo_manager l))) = 1 /\ mg_supervised (lo_manager l) = ∅ /\
      stat_launch_failures (mg_stats (lo_manager l)) = 1 /\
      stat_jobs_launched (mg_stats
        (schedule_now example_manager_config example_schedule_answers example_launch ST_kJobSubmitted (lo_manager l))) = 1
  | None => False
  end.
Proof. vm_compute. done. Qed.
