(* ===== verification/SqliteRows.v ===== *)
(** * Rows of the SQLite store: [src/store/sqlite_state_store.cpp]

    How a stored job becomes a row of [yori_jobs] and comes back: the
    length-prefixed blobs for [argv] and [env], the flags of the optional
    columns, the text columns of the placement, and the checks of
    [decode_jobs].  A row is what the column accessors of one result row
    return: 64-bit integers, blobs (empty for NULL) and nullable texts.

    [string_list_codec] says that the blob code is exact: the decoder accepts
    the encoder's images and nothing else.  [job_row_roundtrip] is the round
    trip of a representable record, [decode_job_row_valid] what a row that is
    accepted guarantees whatever is in the database. *)

From S2P Require Import Prelude.
From S2P Require Import Job.
From S2P Require Import Gpu.
From S2P Require Import Store.
From S2P Require Import Wire.

(** ** Integers as SQLite holds them *)

Definition int64_max : N := 9223372036854775807.

(** [static_cast<sqlite3_int64>] of a [std::uint64_t], and back *)
Definition i64_of_u64 (n : N) : Z :=
  if n <=? int64_max then Z.of_N n else (Z.of_N n - Z.of_N (u64_max + 1))%Z.

Definition u64_of_i64 (z : Z) : N := Z.to_N (z mod Z.of_N (u64_max + 1)).

Definition int64 (z : Z) : Prop := (- Z.of_N (int64_max + 1) <= z <= Z.of_N int64_max)%Z.

#[export] Instance int64_dec z : Decision (int64 z).
Proof. unfold int64. apply _. Defined.

(** ** Diagnostics *)

Definition kDetailLimit : N := 200.

(** [truncate_detail]; [None] is the null pointer. *)
Definition truncate_detail (raw : option string) : string :=
  match raw with
  | None => EmptyString
  | Some detail =>
      if kDetailLimit <? slen detail then String.substring 0 (N.to_nat kDetailLimit) detail
      else detail
  end.

(** ** Lists of strings as blobs *)

Definition put_u32_le (value : N) : bytes := put_le 4 0 value.

(** [take_u32_le]: the value and the moved cursor *)
Definition take_u32_le (cursor : bytes) : option (N * bytes) :=
  if len cursor <? 4 then None else Some (get_le 4 0 0 cursor, drop 4 cursor).

Definition kMaxEncodedItems : N := 2 * 256.

Definition encode_item (item : string) : bytes :=
  put_u32_le (slen item) ++ String.list_ascii_of_string item.

Definition encode_string_list (items : list string) : bytes :=
  put_u32_le (len items) ++ concat (encode_item <$> items).

(** The loop over [count] items *)
Fixpoint decode_items (count : nat) (cursor : bytes) : option (list string * bytes) :=
  match count with
  | O => Some ([], cursor)
  | S count' =>
      match take_u32_le cursor with
      | None => None
      | Some (length, rest) =>
          if len rest <? length then None
          else match decode_items count' (drop (N.to_nat length) rest) with
               | None => None
               | Some (items, last) =>
                   Some (String.string_of_list_ascii (take (N.to_nat length) rest) :: items, last)
               end
      end
  end.

Definition decode_string_list (data : bytes) : option (list string) :=
  if len data <? 4 then None
  else match take_u32_le data with
       | None => None
       | Some (count, cursor) =>
           if kMaxEncodedItems <? count then None
           else match decode_items (N.to_nat count) cursor with
                | Some (items, []) => Some items
                | _ => None
                end
       end.

#[global] Arguments encode_string_list : simpl never.
#[global] Arguments decode_string_list : simpl never.

(** ** Rows *)

Record JobRow := mkJobRow {
  jr_state : Z;
  jr_revision : Z;
  jr_owner_uid : Z;
  jr_owner_gid : Z;
  jr_argv : bytes;
  jr_cwd : option string;
  jr_env : bytes;
  jr_gpu_request : Z;
  jr_launch_profile : option string;
  jr_tensorboard_logdir : option string;
  jr_submit_time_nanos : Z;
  jr_pid : Z;
  jr_pgid : Z;
  jr_start_ticks : Z;
  jr_has_start_time : Z;
  jr_start_time_nanos : Z;
  jr_has_end_time : Z;
  jr_end_time_nanos : Z;
  jr_has_exit : Z;
  jr_exit_reason : Z;
  jr_exit_code : Z;
  jr_exit_signal : Z;
  jr_failure_reason : option string;
  jr_log_path : option string;
  jr_executable : option string;
  jr_environment_type : option string;
  jr_python_version : option string;
  jr_gpu_placement_mode : option string;
  jr_gpu_placement_device : option string;
  jr_gpu_placement_devices : option string;
}.

(** The enumerators by value *)
Definition JobState_value (s : JobState) : Z :=
  match s with
  | kQueued => 0 | kStarting => 1 | kRunning => 2 | kStopping => 3
  | kFinished => 4 | kFailed => 5 | kCancelled => 6 | kLost => 7
  end.

Definition JobState_of_value (z : Z) : option JobState :=
  find_first (fun s => (JobState_value s =? z)%Z)
    [kQueued; kStarting; kRunning; kStopping; kFinished; kFailed; kCancelled; kLost].

Definition ExitReason_value (r : ExitReason) : Z :=
  match r with ER_kExited => 0 | ER_kSignaled => 1 | ER_kUnknown => 2 end.

Definition ExitReason_of_value (z : Z) : option ExitReason :=
  find_first (fun r => (ExitReason_value r =? z)%Z) [ER_kExited; ER_kSignaled; ER_kUnknown].

#[global] Arguments JobState_of_value : simpl never.
#[global] Arguments ExitReason_of_value : simpl never.

(** [encode_time] and [decode_time]: the clock ticks are nanoseconds. *)
Definition encode_time (time : Z) : Z := time.
Definition decode_time (nanos : Z) : Z := nanos.

(** *** Writing: [write_job_row] *)

(** [name], [value] for each entry *)
Definition env_items (env : gmap string string) : list string :=
  concat ((fun e => [e.1; e.2]) <$> map_entries env).

(** The three placement columns; [None] where the code calls [front()] on an
    empty vector *)
Definition encode_placement (p : GpuPlacement)
  : option (option string * option string * option string) :=
  match gp_mode p, gp_devices p with
  | GPM_kAny, _ => Some (None, None, None)
  | GPM_kRequired, d :: _ => Some (Some "required", Some d, Some (String.concat "," (gp_devices p)))
  | GPM_kPreferred, d :: _ => Some (Some "preferred", Some d, None)
  | _, [] => None
  end.

Definition flag_of {A} (o : option A) : Z := match o with Some _ => 1 | None => 0 end.
Definition value_of {A} (f : A -> Z) (o : option A) : Z := match o with Some a => f a | None => 0 end.

(** The bound values of columns 2 to 31; column 1, the primary key, is
    [i64_of_u64 (sj_id r)]. *)
Definition encode_job_row (r : StoredJob) : option JobRow :=
  match encode_placement (gpu_placement (sj_spec r)) with
  | None => None
  | Some (mode, device, devices) =>
      let spec := sj_spec r in
      let x := sj_execution r in
      Some {|
        jr_state := JobState_value (sj_state r);
        jr_revision := i64_of_u64 (sj_revision r);
        jr_owner_uid := Z.of_N (owner_uid spec);
        jr_owner_gid := Z.of_N (owner_gid spec);
        jr_argv := encode_string_list (argv spec);
        jr_cwd := Some (cwd spec);
        jr_env := encode_string_list (env_items (env spec));
        jr_gpu_request := Z.of_N (gpu_request spec);
        jr_launch_profile := launch_profile spec;
        jr_tensorboard_logdir := tensorboard_logdir spec;
        jr_submit_time_nanos := encode_time (submit_time spec);
        jr_pid := pi_pid (xr_identity x);
        jr_pgid := pi_pgid (xr_identity x);
        jr_start_ticks := i64_of_u64 (pi_start_ticks (xr_identity x));
        jr_has_start_time := flag_of (xr_start_time x);
        jr_start_time_nanos := value_of encode_time (xr_start_time x);
        jr_has_end_time := flag_of (xr_end_time x);
        jr_end_time_nanos := value_of encode_time (xr_end_time x);
        jr_has_exit := flag_of (xr_exit x);
        jr_exit_reason := value_of (fun e => ExitReason_value (ex_reason e)) (xr_exit x);
        jr_exit_code := value_of ex_exit_code (xr_exit x);
        jr_exit_signal := value_of ex_signal_number (xr_exit x);
        jr_failure_reason := xr_failure_reason x;
        jr_log_path := xr_log_path x;
        jr_executable := executable spec;
        jr_environment_type := (fun m => EnvSource_to_string (em_source m)) <$> env_metadata spec;
        jr_python_version := env_metadata spec ≫= em_python_version;
        jr_gpu_placement_mode := mode;
        jr_gpu_placement_device := device;
        jr_gpu_placement_devices := devices;
      |}
  end.

(** *** Reading: one turn of the loop of [decode_jobs] *)

(** [emplace(items[index], items[index + 1])] for the even indices *)
Fixpoint env_of_items (items : list string) (env : gmap string string) : gmap string string :=
  match items with
  | name :: value :: rest => env_of_items rest (emplace name value env)
  | _ => env
  end.

(** [z < 0 || z > 0xFFFFFFFF] *)
Definition not_u32 (z : Z) : bool := (z <? 0)%Z || (Z.of_N u32_max <? z)%Z.

Definition not_flag (z : Z) : bool := negb (z =? 0)%Z && negb (z =? 1)%Z.

Definition decode_exit (row : JobRow) : Result StateStoreErrorCode (option ExitStatus) :=
  if (jr_has_exit row =? 1)%Z then
    reject_if (jr_exit_code row <? 0)%Z || (255 <? jr_exit_code row)%Z
              || (jr_exit_signal row <? 0)%Z || (64 <? jr_exit_signal row)%Z
      with SE_kInvalidExecutionRecord;
    match ExitReason_of_value (jr_exit_reason row) with
    | None => Err SE_kInvalidExecutionRecord
    | Some reason => Ok (Some (mkExitStatus reason (jr_exit_code row) (jr_exit_signal row)))
    end
  else Ok None.

Definition decode_execution (row : JobRow) : Result StateStoreErrorCode JobExecutionRecord :=
  reject_if (jr_pid row <? 0)%Z || (jr_pgid row <? 0)%Z || (jr_start_ticks row <? 0)%Z
    with SE_kInvalidExecutionRecord;
  reject_if not_flag (jr_has_start_time row) || not_flag (jr_has_end_time row)
            || not_flag (jr_has_exit row)
    with SE_kInvalidExecutionRecord;
  let? exit := decode_exit row in
  Ok {|
    xr_identity := mkIdentity (jr_pid row) (jr_pgid row) (Z.to_N (jr_start_ticks row));
    xr_start_time := if (jr_has_start_time row =? 1)%Z then Some (decode_time (jr_start_time_nanos row)) else None;
    xr_end_time := if (jr_has_end_time row =? 1)%Z then Some (decode_time (jr_end_time_nanos row)) else None;
    xr_exit := exit;
    xr_failure_reason := jr_failure_reason row;
    xr_log_path := jr_log_path row;
  |}.

Definition decode_env_metadata (row : JobRow) : Result StateStoreErrorCode (option EnvMetadata) :=
  match jr_environment_type row with
  | Some environment_type =>
      let metadata source := Ok (Some (mkEnvMetadata source (jr_python_version row))) in
      if bool_decide (environment_type = "conda") then metadata ES_kConda
      else if bool_decide (environment_type = "venv") then metadata ES_kVenv
      else if bool_decide (environment_type = "none") then metadata ES_kNone
      else Err SE_kInvalidJob
  | None =>
      reject_if bool_decide (is_Some (jr_python_version row)) with SE_kInvalidJob;
      Ok None
  end.

Definition kMaxPlacementDevicesTextLength : N :=
  kMaxPlacementDevices * GpuUuid_kMaxBytes + kMaxPlacementDevices - 1.

Definition decode_device (devices : list GpuUuid) (entry : string)
  : Result StateStoreErrorCode (list GpuUuid) :=
  reject_if sempty entry with SE_kInvalidJob;
  reject_if negb (uuid_valid entry) with SE_kInvalidJob;
  Ok (devices ++ [entry]).

(** The columns when the mode is [required] *)
Definition decode_required (device_text devices_text : string)
  : Result StateStoreErrorCode GpuPlacement :=
  reject_if sempty devices_text || (kMaxPlacementDevicesTextLength <? slen devices_text)
    with SE_kInvalidJob;
  let? devices := fold_result decode_device [] (split_on "," devices_text) in
  reject_if sempty device_text || negb (bool_decide (head devices = Some device_text))
    with SE_kInvalidJob;
  Ok (mkGpuPlacement GPM_kRequired devices).

Definition decode_placement (row : JobRow) : Result StateStoreErrorCode GpuPlacement :=
  let device := jr_gpu_placement_device row in
  let devices := jr_gpu_placement_devices row in
  match jr_gpu_placement_mode row with
  | Some mode =>
      if bool_decide (mode = "any") then
        reject_if bool_decide (is_Some device) || bool_decide (is_Some devices) with SE_kInvalidJob;
        Ok (mkGpuPlacement GPM_kAny [])
      else if bool_decide (mode = "required") then
        match devices, device with
        | Some devices_text, Some device_text => decode_required device_text devices_text
        | _, _ => Err SE_kInvalidJob
        end
      else if bool_decide (mode = "preferred") then
        match device, devices with
        | Some d, None =>
            reject_if negb (uuid_valid d) with SE_kInvalidJob;
            Ok (mkGpuPlacement GPM_kPreferred [d])
        | _, _ => Err SE_kInvalidJob
        end
      else Err SE_kInvalidJob
  | None =>
      reject_if bool_decide (is_Some device) || bool_decide (is_Some devices) with SE_kInvalidJob;
      Ok (mkGpuPlacement GPM_kAny [])
  end.

Definition of_option {A} (e : StateStoreErrorCode) (o : option A) : Result StateStoreErrorCode A :=
  match o with Some a => Ok a | None => Err e end.

Definition decode_job_row (job_id : Z) (row : JobRow) : Result StateStoreErrorCode StoredJob :=
  let? state := of_option SE_kInvalidJob (JobState_of_value (jr_state row)) in
  reject_if (jr_revision row <? 0)%Z with SE_kInvalidJob;
  reject_if not_u32 (jr_owner_uid row) || not_u32 (jr_owner_gid row) with SE_kInvalidJob;
  let? argv := of_option SE_kInvalidJob (decode_string_list (jr_argv row)) in
  let? items := of_option SE_kInvalidJob (decode_string_list (jr_env row)) in
  reject_if negb (len items mod 2 =? 0) with SE_kInvalidJob;
  reject_if not_u32 (jr_gpu_request row) with SE_kInvalidJob;
  let? execution := decode_execution row in
  let? metadata := decode_env_metadata row in
  let? placement := decode_placement row in
  let spec := {|
    owner_uid := Z.to_N (jr_owner_uid row);
    owner_gid := Z.to_N (jr_owner_gid row);
    argv := argv;
    cwd := default EmptyString (jr_cwd row);
    env := env_of_items items ∅;
    executable := jr_executable row;
    env_metadata := metadata;
    gpu_request := Z.to_N (jr_gpu_request row);
    gpu_placement := placement;
    launch_profile := jr_launch_profile row;
    tensorboard_logdir := jr_tensorboard_logdir row;
    submit_time := decode_time (jr_submit_time_nanos row);
  |} in
  let revision := Z.to_N (jr_revision row) in
  reject_if negb (job_id_valid (u64_of_i64 job_id)) || negb (spec_valid spec) with SE_kInvalidJob;
  reject_if negb (Bool.eqb (bool_decide (state = kQueued)) (revision =? 0)) with SE_kInvalidJob;
  reject_if negb (execution_ok execution state spec) with SE_kInvalidExecutionRecord;
  Ok (mkStored (u64_of_i64 job_id) spec state revision execution).

(** ** Integers *)

Lemma u64_of_i64_of_u64 n : n <= u64_max -> u64_of_i64 (i64_of_u64 n) = n.
Proof.
  unfold u64_of_i64, i64_of_u64, u64_max, int64_max. intros Hn. destruct (N.leb_spec n 9223372036854775807).
  - rewrite Z.mod_small by lia. lia.
  - rewrite <- (Z.mod_add _ 1) by lia. rewrite Z.mod_small by lia. lia.
Qed.

Lemma i64_of_u64_of_i64 z : int64 z -> i64_of_u64 (u64_of_i64 z) = z.
Proof.
  unfold u64_of_i64, i64_of_u64, int64, u64_max, int64_max. intros Hz.
  destruct (Z.ltb_spec z 0).
  - rewrite <- (Z.mod_add _ 1) by lia. rewrite Z.mod_small by lia.
    destruct (N.leb_spec (Z.to_N (z + 1 * Z.of_N (18446744073709551615 + 1))) 9223372036854775807); lia.
  - rewrite Z.mod_small by lia. destruct (N.leb_spec (Z.to_N z) 9223372036854775807); lia.
Qed.

Lemma i64_of_u64_range n : n <= u64_max -> int64 (i64_of_u64 n).
Proof. unfold i64_of_u64, int64, u64_max, int64_max. intros Hn. case_match; reflect_bools; lia. Qed.

Lemma i64_of_u64_small n : n <= int64_max -> i64_of_u64 n = Z.of_N n.
Proof. unfold i64_of_u64. intros Hn. by rewrite (proj2 (N.leb_le _ _) Hn). Qed.

Lemma u64_of_i64_le z : u64_of_i64 z <= u64_max.
Proof.
  unfold u64_of_i64. pose proof (Z.mod_pos_bound z (Z.of_N (u64_max + 1)) eq_refl).
  unfold u64_max in *. lia.
Qed.

(** ** The blob code *)

Lemma get_le_low width shift acc data i :
  i < shift -> N.testbit (get_le width shift acc data) i = N.testbit acc i.
Proof.
  revert shift acc data. induction width as [|width IH]; intros shift acc [|c data] Hi; simpl; try done.
  rewrite IH by lia. rewrite N.lor_spec, N.shiftl_spec_low by done. apply orb_false_r.
Qed.

Lemma N_of_ascii_high c i : 8 <= i -> N.testbit (N_of_ascii c) i = false.
Proof.
  intros Hi. destruct (N.eq_dec (N_of_ascii c) 0) as [->|Hne]; [apply N.bits_0|].
  apply N.bits_above_log2. pose proof (N_ascii_bounded c).
  assert (N.log2 (N_of_ascii c) < 8) by (apply N.log2_lt_pow2; [lia|done]). lia.
Qed.

(** Reading bytes and writing them back is the identity. *)
Lemma put_get_le width shift acc data :
  length data = width -> (forall i, shift <= i -> N.testbit acc i = false) ->
  put_le width shift (get_le width shift acc data) = data.
Proof.
  revert shift acc data. induction width as [|width IH]; intros shift acc [|c data] Hlen Hacc; try done.
  cbn [get_le put_le]. f_equal.
  - rewrite <- (ascii_N_embedding c) at 2. f_equal. apply N.bits_inj. intros i.
    change 255 with (N.ones 8). rewrite N.land_spec, N.shiftr_spec'.
    destruct (N.ltb_spec i 8) as [Hi|Hi].
    + rewrite N.ones_spec_low, andb_true_r by done. rewrite get_le_low by lia.
      rewrite N.lor_spec, Hacc, N.shiftl_spec_high' by lia. cbn [orb]. f_equal. lia.
    + rewrite N.ones_spec_high, andb_false_r by done. by rewrite N_of_ascii_high.
  - apply IH; [by injection Hlen|]. intros i Hi.
    rewrite N.lor_spec, Hacc, N.shiftl_spec_high' by lia. apply N_of_ascii_high. lia.
Qed.

Lemma get_le_lt width data : get_le width 0 0 data < 2 ^ (8 * N.of_nat width).
Proof.
  assert (forall shift acc, acc < 2 ^ shift -> get_le width shift acc data < 2 ^ (shift + 8 * N.of_nat width))
    as Hgen; [|by apply Hgen].
  revert data. induction width as [|width IH]; intros [|c data] shift acc Hacc; cbn [get_le].
  1,2: by rewrite N.add_0_r.
  { eapply N.lt_le_trans; [done|]. apply N.pow_le_mono_r; lia. }
  replace (shift + 8 * N.of_nat (S width)) with (shift + 8 + 8 * N.of_nat width) by lia. apply IH.
  destruct (N.eq_dec (N.lor acc (N.shiftl (N_of_ascii c) shift)) 0) as [->|Hne]; [lia|].
  apply N.log2_lt_pow2; [lia|]. rewrite N.log2_lor. apply N.max_lub_lt.
  - destruct (N.eq_dec acc 0) as [->|]; [simpl; lia|].
    assert (N.log2 acc < shift) by (apply N.log2_lt_pow2; [lia|done]). lia.
  - destruct (N.eq_dec (N_of_ascii c) 0) as [->|]; [rewrite N.shiftl_0_l; simpl; lia|].
    rewrite N.log2_shiftl by done.
    assert (N.log2 (N_of_ascii c) < 8) by (apply N.log2_lt_pow2; [lia|apply N_ascii_bounded]). lia.
Qed.

Lemma take_u32_le_put v rest : v <= u32_max -> take_u32_le (put_u32_le v ++ rest) = Some (v, rest).
Proof.
  intros Hv. unfold take_u32_le, put_u32_le. rewrite len_app, len_put_le.
  destruct (N.ltb_spec (N.of_nat 4 + len rest) 4); [lia|].
  rewrite get_put_le by (unfold u32_max in Hv; simpl; lia).
  by rewrite drop_app_length' by (by rewrite put_le_length).
Qed.

Lemma take_u32_le_some b v rest :
  take_u32_le b = Some (v, rest) <-> b = put_u32_le v ++ rest /\ v <= u32_max.
Proof.
  split; [|intros [-> Hv]; by apply take_u32_le_put].
  unfold take_u32_le. destruct (N.ltb_spec (len b) 4) as [|Hlen]; [done|]. intros Heq.
  assert (v = get_le 4 0 0 b /\ rest = drop 4 b) as [-> ->] by (split; congruence). clear Heq.
  assert (get_le 4 0 0 b = get_le 4 0 0 (take 4 b)) as Hget.
  { rewrite <- (take_drop 4 b) at 1. apply get_le_app. rewrite length_take. unfold len in Hlen. lia. }
  split.
  - unfold put_u32_le. rewrite Hget, put_get_le; [by rewrite take_drop| |by intros; apply N.bits_0].
    rewrite length_take. unfold len in Hlen. lia.
  - pose proof (get_le_lt 4 b) as Hlt. change (2 ^ (8 * N.of_nat 4)) with (u32_max + 1) in Hlt. lia.
Qed.

Lemma decode_items_encoded items rest :
  Forall (fun item => slen item <= u32_max) items ->
  decode_items (length items) (concat (encode_item <$> items) ++ rest) = Some (items, rest).
Proof.
  induction 1 as [|item items Hitem _ IH]; [done|].
  cbn [length decode_items fmap list_fmap concat]. unfold encode_item at 1.
  rewrite <- !app_assoc, take_u32_le_put by done. rewrite len_app, slen_list.
  destruct (N.ltb_spec (len (String.list_ascii_of_string item) +
    len (concat (encode_item <$> items) ++ rest)) (len (String.list_ascii_of_string item))); [lia|].
  unfold len. rewrite Nat2N.id, drop_app_length, IH, take_app_length.
  by rewrite String.string_of_list_ascii_of_string.
Qed.

Lemma decode_items_some count b items rest :
  decode_items count b = Some (items, rest) ->
  b = concat (encode_item <$> items) ++ rest /\ length items = count /\
  Forall (fun item => slen item <= u32_max) items.
Proof.
  revert b items. induction count as [|count IH]; intros b items; simpl.
  { intros [= <- <-]. split_and!; done. }
  destruct (take_u32_le b) as [[n cursor]|] eqn:Htake; [|done].
  apply take_u32_le_some in Htake as [-> Hn].
  destruct (N.ltb_spec (len cursor) n) as [|Hlen]; [done|].
  destruct (decode_items count _) as [[items' last]|] eqn:Hrec; [|done]. intros [= <- <-].
  apply IH in Hrec as (Hdrop & <- & Hall).
  assert (slen (String.string_of_list_ascii (take (N.to_nat n) cursor)) = n) as Hsize.
  { rewrite slen_list, String.list_ascii_of_string_of_list_ascii. unfold len in *.
    rewrite length_take. lia. }
  split_and!; [|done|constructor; [by rewrite Hsize|done]].
  cbn [fmap list_fmap concat]. unfold encode_item at 1.
  rewrite Hsize, String.list_ascii_of_string_of_list_ascii, <- !app_assoc, <- Hdrop.
  by rewrite take_drop.
Qed.

(** The decoder of a list column accepts the encodings of the lists within its
    limits and nothing else: no blob is read in part, and none is read as
    something other than what was written. *)
Lemma string_list_codec data items :
  decode_string_list data = Some items <->
  data = encode_string_list items /\ len items <= kMaxEncodedItems /\
  Forall (fun item => slen item <= u32_max) items.
Proof.
  unfold decode_string_list, encode_string_list. split.
  - destruct (N.ltb_spec (len data) 4); [done|].
    destruct (take_u32_le data) as [[count cursor]|] eqn:Htake; [|done].
    apply take_u32_le_some in Htake as [-> _].
    destruct (N.ltb_spec kMaxEncodedItems count); [done|].
    destruct (decode_items _ _) as [[items' [|]]|] eqn:Hitems; try done. intros [= <-].
    apply decode_items_some in Hitems as (-> & Hlen & Hall). rewrite app_nil_r.
    assert (len items' = count) as -> by (unfold len; lia). done.
  - intros (-> & Hlen & Hall). unfold put_u32_le at 1. rewrite len_app, len_put_le.
    destruct (N.ltb_spec (N.of_nat 4 + len (concat (encode_item <$> items))) 4); [lia|].
    rewrite take_u32_le_put by (unfold kMaxEncodedItems, u32_max in *; lia).
    destruct (N.ltb_spec kMaxEncodedItems (len items)); [lia|].
    unfold len. rewrite Nat2N.id. rewrite <- (app_nil_r (concat _)), decode_items_encoded by done. done.
Qed.

(** ** Rows *)

(** What the columns and their text forms can hold of a record: the widths of
    its fields, and the three things that validation does not ask for. *)
Record Representable (r : StoredJob) : Prop := {
  rp_id : sj_id r <= u64_max;
  rp_revision : sj_revision r <= int64_max;
  rp_owner : owner_uid (sj_spec r) <= u32_max /\ owner_gid (sj_spec r) <= u32_max;
  rp_start_ticks : pi_start_ticks (xr_identity (sj_execution r)) <= int64_max;
  rp_exit : option_all (fun e => (0 <= ex_exit_code e <= 255)%Z /\ (0 <= ex_signal_number e <= 64)%Z)
              (xr_exit (sj_execution r));
  rp_devices : gp_mode (gpu_placement (sj_spec r)) = GPM_kRequired ->
    Forall (fun d => contains_char "," d = false) (gp_devices (gpu_placement (sj_spec r)));
}.

(** A valid record whose row can be read back *)
Record RowOk (r : StoredJob) : Prop := {
  rw_id : sj_id r <> 0;
  rw_spec : SpecOk (sj_spec r);
  rw_execution : ExecutionOk (sj_execution r) (sj_state r) (sj_spec r);
  rw_initial : sj_revision r = 0 <-> sj_state r = kQueued;
  rw_fits : Representable r;
}.

Lemma JobState_of_value_spec z s : JobState_of_value z = Some s <-> z = JobState_value s.
Proof.
  split; [|intros ->; by destruct s]. unfold JobState_of_value. intros H.
  apply find_first_some in H as [_ H]. by apply Z.eqb_eq in H.
Qed.

Lemma ExitReason_of_value_spec z r : ExitReason_of_value z = Some r <-> z = ExitReason_value r.
Proof.
  split; [|intros ->; by destruct r]. unfold ExitReason_of_value. intros H.
  apply find_first_some in H as [_ H]. by apply Z.eqb_eq in H.
Qed.

Lemma env_of_items_entries l (m : gmap string string) :
  NoDup l.*1 -> (forall k, k ∈ l.*1 -> m !! k = None) ->
  env_of_items (concat ((fun e => [e.1; e.2]) <$> l)) m = list_to_map l ∪ m.
Proof.
  revert m. induction l as [|[k v] l IH]; intros m Hnd Hfresh; cbn [fmap list_fmap concat app env_of_items fst snd].
  { by rewrite list_to_map_nil, (left_id_L ∅ (∪)). }
  cbn in Hnd. apply NoDup_cons in Hnd as [Hk Hnd].
  unfold emplace. rewrite (Hfresh k) by (cbn; left). rewrite IH; [|done|].
  - rewrite list_to_map_cons. rewrite <- insert_union_r; [by rewrite insert_union_l|].
    by apply not_elem_of_list_to_map_1.
  - intros k' Hk'. rewrite lookup_insert_ne by (intros ->; done). apply Hfresh. cbn. by right.
Qed.

Lemma env_of_items_of_env (m : gmap string string) : env_of_items (env_items m) ∅ = m.
Proof.
  unfold env_items. rewrite env_of_items_entries; [|apply NoDup_map_entries_keys|by intros; apply lookup_empty].
  rewrite (right_id_L ∅ (∪)). rewrite <- (list_to_map_to_list m) at 2.
  apply list_to_map_proper; [apply NoDup_map_entries_keys|apply map_entries_perm].
Qed.

Lemma len_env_items (m : gmap string string) : len (env_items m) = 2 * msize m.
Proof.
  unfold env_items. rewrite <- len_map_entries. induction (map_entries m) as [|e l IH]; [done|].
  cbn [fmap list_fmap concat app]. rewrite !len_cons, IH. lia.
Qed.

Lemma split_on_piece c p s :
  contains_char c p = false -> split_on c (String.append p (String c s)) = p :: split_on c s.
Proof.
  induction p as [|a p IH]; intros Hp.
  { simpl. by rewrite Ascii.eqb_refl. }
  apply orb_false_iff in Hp as [Ha Hp]. rewrite append_cons. simpl. by rewrite Ha, IH.
Qed.

Lemma split_on_single c p : contains_char c p = false -> split_on c p = [p].
Proof.
  induction p as [|a p IH]; intros Hp; [done|].
  apply orb_false_iff in Hp as [Ha Hp]. simpl. by rewrite Ha, IH.
Qed.

(** Joining pieces free of the separator and cutting the text again. *)
Lemma split_on_concat c ds :
  ds <> [] -> Forall (fun d => contains_char c d = false) ds ->
  split_on c (String.concat (String c EmptyString) ds) = ds.
Proof.
  intros Hne. induction 1 as [|d ds Hd Hds IH]; [done|]. destruct ds as [|d' ds].
  { by apply split_on_single. }
  change (split_on c (String.append d (String c (String.concat (String c EmptyString) (d' :: ds)))) =
    d :: d' :: ds).
  rewrite split_on_piece by done.
  f_equal. by apply IH.
Qed.

Lemma slen_concat c ds :
  slen (String.concat (String c EmptyString) ds) = sum_sizes slen ds + (len ds - 1).
Proof.
  induction ds as [|d ds IH]; [done|]. destruct ds as [|d' ds].
  { change (slen d = slen d + 0 + (len [d] - 1)). unfold len. simpl length. lia. }
  change (String.concat (String c EmptyString) (d :: d' :: ds)) with
    (String.append d (String.append (String c EmptyString) (String.concat (String c EmptyString) (d' :: ds)))).
  rewrite !slen_append, IH. change (slen (String c EmptyString)) with 1.
  change (sum_sizes slen (d :: d' :: ds)) with (slen d + sum_sizes slen (d' :: ds)).
  rewrite !len_cons. lia.
Qed.

Lemma sum_sizes_bound {A} (f : A -> N) bound l :
  Forall (fun x => f x <= bound) l -> sum_sizes f l <= bound * len l.
Proof. induction 1; simpl; [lia|]. rewrite len_cons. lia. Qed.

Lemma uuid_valid_spec u :
  uuid_valid u = true <-> sempty u = false /\ slen u <= GpuUuid_kMaxBytes /\ contains_nul u = false.
Proof.
  unfold uuid_valid. rewrite !andb_true_iff, !negb_true_iff, N.leb_le. tauto.
Qed.

Lemma decode_devices acc l :
  Forall (fun d => uuid_valid d = true) l ->
  fold_result decode_device acc l = Ok (acc ++ l).
Proof.
  intros Hl. revert acc. induction Hl as [|d l Hd _ IH]; intros acc; simpl; [by rewrite app_nil_r|].
  unfold decode_device at 1. rewrite Hd. apply uuid_valid_spec in Hd as (-> & _ & _). simpl.
  by rewrite IH, <- app_assoc.
Qed.

Lemma decode_devices_ok acc l devices :
  fold_result decode_device acc l = Ok devices ->
  devices = acc ++ l /\ Forall (fun d => uuid_valid d = true) l.
Proof.
  revert acc. induction l as [|d l IH]; intros acc; simpl.
  { intros [= <-]. by rewrite app_nil_r. }
  unfold decode_device at 1. destruct (sempty d); [done|].
  destruct (uuid_valid d) eqn:Hd; simpl; [|done]. intros [-> Hl]%IH. rewrite <- app_assoc. by split; [|constructor].
Qed.

Lemma required_text_fits ds :
  len ds <= kMaxPlacementDevices -> Forall (fun d => uuid_valid d = true) ds ->
  slen (String.concat "," ds) <= kMaxPlacementDevicesTextLength.
Proof.
  intros Hlen Hds. rewrite slen_concat.
  assert (sum_sizes slen ds <= GpuUuid_kMaxBytes * len ds) as Hsum.
  { apply sum_sizes_bound. eapply Forall_impl; [done|]. intros d Hd. by apply uuid_valid_spec in Hd as (_ & ? & _). }
  unfold kMaxPlacementDevicesTextLength, kMaxPlacementDevices, GpuUuid_kMaxBytes in *. lia.
Qed.

#[local] Arguments String.concat : simpl never.

Lemma placement_roundtrip p row mode device devices :
  placement_ok p ->
  (gp_mode p = GPM_kRequired -> Forall (fun d => contains_char "," d = false) (gp_devices p)) ->
  encode_placement p = Some (mode, device, devices) ->
  jr_gpu_placement_mode row = mode -> jr_gpu_placement_device row = device ->
  jr_gpu_placement_devices row = devices ->
  decode_placement row = Ok p.
Proof.
  destruct p as [[] ds]; unfold placement_ok, encode_placement, decode_placement; simpl.
  - intros -> _ [= <- <- <-] -> -> ->. done.
  - destruct ds as [|d ds]; [done|]. intros (Hlen & _ & Hds) Hcomma [= <- <- <-] -> -> ->.
    rewrite bool_decide_eq_false_2, bool_decide_eq_true_2 by done. unfold decode_required.
    pose proof (required_text_fits _ (proj2 Hlen) Hds) as Hfits.
    destruct (N.ltb_spec kMaxPlacementDevicesTextLength (slen (String.concat "," (d :: ds)))); [lia|].
    rewrite split_on_concat, decode_devices by auto. simpl. rewrite bool_decide_eq_true_2 by done.
    apply Forall_cons in Hds as [Hd _]. apply uuid_valid_spec in Hd as (Hd & _).
    rewrite Hd, orb_false_r. simpl. by destruct d, ds.
  - intros (d & -> & Hd) _ [= <- <- <-] -> -> ->.
    rewrite !bool_decide_eq_false_2, bool_decide_eq_true_2 by done. by rewrite Hd.
Qed.

Lemma encode_placement_defined p : placement_ok p -> is_Some (encode_placement p).
Proof.
  destruct p as [[] ds]; unfold placement_ok, encode_placement; simpl; [eauto| |].
  - intros [Hlen _]. destruct ds; [by destruct Hlen|eauto].
  - intros (d & -> & _). eauto.
Qed.

Lemma execution_roundtrip r row :
  RowOk r -> encode_job_row r = Some row -> decode_execution row = Ok (sj_execution r).
Proof.
  intros Hr. unfold encode_job_row. destruct (encode_placement _) as [[[mode device] devices]|]; [|done].
  intros [= <-]. unfold decode_execution, decode_exit. cbn.
  pose proof (xo_identity _ _ _ (rw_execution _ Hr)) as Hid. pose proof (rp_start_ticks _ (rw_fits _ Hr)) as Hticks.
  pose proof (rp_exit _ (rw_fits _ Hr)) as Hexit. rewrite i64_of_u64_small by done.
  destruct (sj_execution r) as [[pid pgid ticks] start finish exit reason log]; cbn in *.
  assert (0 <= pid /\ 0 <= pgid)%Z as [Hpid Hpgid].
  { destruct Hid as [[=]|Hid]; [lia|]. unfold has_identity, identity_valid in Hid. cbn in Hid. reflect_bools. lia. }
  destruct (Z.ltb_spec pid 0), (Z.ltb_spec pgid 0), (Z.ltb_spec (Z.of_N ticks) 0); try lia.
  rewrite N2Z.id. unfold encode_time, decode_time.
  destruct exit as [[er ec es]|]; cbn in *; [|by destruct start, finish].
  rewrite (proj2 (ExitReason_of_value_spec _ er) eq_refl).
  destruct (Z.ltb_spec ec 0), (Z.ltb_spec 255 ec), (Z.ltb_spec es 0), (Z.ltb_spec 64 es); try lia.
  by destruct start, finish.
Qed.

Lemma env_metadata_roundtrip r row :
  encode_job_row r = Some row -> decode_env_metadata row = Ok (env_metadata (sj_spec r)).
Proof.
  unfold encode_job_row. destruct (encode_placement _) as [[[mode device] devices]|]; [|done].
  intros [= <-]. unfold decode_env_metadata. cbn.
  by destruct (env_metadata (sj_spec r)) as [[[] version]|].
Qed.

Lemma argv_roundtrip spec : SpecOk spec -> decode_string_list (encode_string_list (argv spec)) = Some (argv spec).
Proof.
  intros Hs. apply string_list_codec. split; [done|].
  pose proof (so_argc _ Hs). unfold kMaxArgumentCount, kMaxEncodedItems in *. split; [lia|].
  eapply Forall_impl; [apply Hs|]. intros a [_ Ha]. unfold kMaxSingleArgumentBytes, u32_max in *. lia.
Qed.

Lemma env_roundtrip spec :
  SpecOk spec -> decode_string_list (encode_string_list (env_items (env spec))) = Some (env_items (env spec)).
Proof.
  intros Hs. apply string_list_codec. split; [done|]. rewrite len_env_items.
  pose proof (so_envc _ Hs). unfold kMaxEnvironmentVariables, kMaxEncodedItems in *. split; [lia|].
  apply Forall_concat, Forall_fmap. eapply Forall_impl; [apply Hs|]. intros [k v] (_ & Hk & Hv & _).
  unfold kMaxEnvironmentNameBytes, kMaxEnvironmentValueBytes, u32_max in *. cbn in *.
  repeat constructor; lia.
Qed.

Lemma not_u32_of_N n : n <= u32_max -> not_u32 (Z.of_N n) = false.
Proof. intros Hn. unfold not_u32, u32_max in *. apply orb_false_iff. rewrite !Z.ltb_ge. lia. Qed.

Lemma decode_encoded r row :
  RowOk r -> encode_job_row r = Some row -> decode_job_row (i64_of_u64 (sj_id r)) row = Ok r.
Proof.
  intros Hr Hrow. pose proof (rw_spec _ Hr) as Hs. unfold decode_job_row.
  rewrite (execution_roundtrip _ _ Hr Hrow), (env_metadata_roundtrip _ _ Hrow).
  assert (decode_placement row = Ok (gpu_placement (sj_spec r))) as ->.
  { unfold encode_job_row in Hrow. destruct (encode_placement _) as [[[mode device] devices]|] eqn:Hp; [|done].
    injection Hrow as <-. by eapply placement_roundtrip; [apply Hs|apply (rw_fits _ Hr)|done..]. }
  unfold encode_job_row in Hrow. destruct (encode_placement _) as [[[mode device] devices]|]; [|done].
  injection Hrow as <-. cbn.
  rewrite (proj2 (JobState_of_value_spec _ (sj_state r)) eq_refl), argv_roundtrip, env_roundtrip by done.
  pose proof (rw_id _ Hr) as Hid0. pose proof (rp_id _ (rw_fits _ Hr)) as Hid.
  destruct (rp_owner _ (rw_fits _ Hr)) as [Huid Hgid].
  rewrite i64_of_u64_small by apply (rw_fits _ Hr). cbn. destruct (Z.ltb_spec (Z.of_N (sj_revision r)) 0); [lia|].
  rewrite !not_u32_of_N by (done || (rewrite (so_gpu_request _ Hs); done)). cbn.
  rewrite len_env_items, N.mul_comm, N.Div0.mod_mul. cbn.
  rewrite env_of_items_of_env, !N2Z.id, u64_of_i64_of_u64 by done. unfold decode_time, encode_time.
  pose proof (rw_initial _ Hr) as Hinit. apply spec_valid_iff in Hs.
  pose proof (proj2 (execution_ok_iff _ _ _) (rw_execution _ Hr)) as Hx. clear Hr.
  destruct r as [id [] state revision x]. cbn in *.
  rewrite Hs, Hx. unfold job_id_valid. rewrite (proj2 (N.eqb_neq _ _) Hid0). cbn.
  assert (bool_decide (state = kQueued) = (revision =? 0)) as ->.
  { destruct (N.eqb_spec revision 0); [apply bool_decide_eq_true|apply bool_decide_eq_false]; tauto. }
  by rewrite Bool.eqb_reflx.
Qed.

(** C37. A representable record is written as a row, and the row is read back as
    that record. *)
Theorem job_row_roundtrip r :
  RowOk r -> exists row, encode_job_row r = Some row /\ decode_job_row (i64_of_u64 (sj_id r)) row = Ok r.
Proof.
  intros Hr. destruct (encode_placement_defined _ (so_placement _ (rw_spec _ Hr))) as [[[mode device] devices] Hp].
  eexists. split; [unfold encode_job_row; by rewrite Hp|]. apply decode_encoded; [done|].
  unfold encode_job_row. by rewrite Hp.
Qed.

Lemma of_option_ok {A} e (o : option A) a : of_option e o = Ok a <-> o = Some a.
Proof. destruct o; simpl; naive_solver. Qed.

Lemma reject_ok {E A} (b : bool) (e : E) (k : Result E A) a :
  (if b then Err e else k) = Ok a <-> b = false /\ k = Ok a.
Proof. destruct b; naive_solver. Qed.

(** Whatever the row holds, a record that is accepted from it is one the
    mutation core would accept: valid, with an execution record that fits its
    state, and at revision 0 exactly when it is queued. *)
Lemma decode_job_row_valid job_id row r :
  decode_job_row job_id row = Ok r ->
  sj_id r = u64_of_i64 job_id /\ sj_id r <> 0 /\ sj_id r <= u64_max /\ SpecOk (sj_spec r) /\
  ExecutionOk (sj_execution r) (sj_state r) (sj_spec r) /\
  (sj_revision r = 0 <-> sj_state r = kQueued).
Proof.
  unfold decode_job_row.
  intros (state & _ & [_ [_ (args & _ & (items & _ & [_ [_ (x & _ & (metadata & _ & (placement & _ &
    [Hid [Hrev [Hx Hr]%reject_ok]%reject_ok]%reject_ok)%result_bind_ok)%result_bind_ok)%result_bind_ok]
    %reject_ok]%reject_ok)%result_bind_ok)%result_bind_ok]%reject_ok]%reject_ok)%result_bind_ok.
  injection Hr as <-. cbn. reflect_bools.
  split_and!; [done| |apply u64_of_i64_le|by apply spec_valid_iff|by apply execution_ok_iff|].
  - unfold job_id_valid in *. reflect_bools. done.
  - apply Bool.eqb_prop in Hrev. destruct (N.eqb_spec (Z.to_N (jr_revision row)) 0); reflect_bools; tauto.
Qed.

(** A set of required devices whose first UUID has a comma in it is written as a
    row that no reading accepts. *)
Lemma comma_uuid_unreadable r d ds row k :
  gp_mode (gpu_placement (sj_spec r)) = GPM_kRequired -> gp_devices (gpu_placement (sj_spec r)) = d :: ds ->
  contains_char "," d = true -> encode_job_row r = Some row -> is_ok (decode_job_row k row) = false.
Proof.
  intros Hmode Hds Hcomma. unfold encode_job_row, encode_placement. rewrite Hmode, Hds. intros [= <-].
  destruct (decode_job_row k _) as [r'|] eqn:Hdec; [exfalso|done]. unfold decode_job_row in Hdec. cbn in Hdec.
  apply result_bind_ok in Hdec as (? & _ & [_ [_ (? & _ & (? & _ & [_ [_ (? & _ & (? & _ & (placement & Hp & _)
    %result_bind_ok)%result_bind_ok)%result_bind_ok]%reject_ok]%reject_ok)%result_bind_ok)%result_bind_ok]
    %reject_ok]%reject_ok).
  unfold decode_placement in Hp. cbn in Hp. rewrite bool_decide_eq_false_2, bool_decide_eq_true_2 in Hp by done.
  unfold decode_required in Hp.
  apply reject_ok in Hp as [_ (devices & Hdevs & [Hhead _]%reject_ok)%result_bind_ok].
  apply decode_devices_ok in Hdevs as [-> _]. apply orb_false_iff in Hhead as [_ Hhead%negb_false_iff].
  apply bool_decide_eq_true in Hhead. cbn in Hhead.
  pose proof (split_on_pieces "," (String.concat "," (d :: ds))) as Hpieces.
  destruct (split_on "," _) as [|p ps]; [done|]. cbn in Hhead. injection Hhead as ->.
  apply Forall_cons in Hpieces as [Hd _]. congruence.
Qed.

(** ** Examples *)

Definition example_row : StoredJob :=
  mkStored 18446744073709551615
    {| example_spec with gpu_placement := mkGpuPlacement GPM_kRequired ["GPU-a"; "GPU-b"] |} kRunning 2
    {| empty_execution with xr_identity := mkIdentity 100 100 5; xr_start_time := Some 2000%Z; xr_log_path := Some "/l" |}.

Lemma example_row_ok : RowOk example_row.
Proof.
  constructor; [done|by apply spec_valid_iff|by apply execution_ok_iff|done|].
  constructor; try done; try (by vm_compute). intros _. by repeat constructor.
Qed.

Lemma job_row_roundtrip_witness :
  exists row, encode_job_row example_row = Some row /\ decode_job_row (-1) row = Ok example_row.
Proof. exact (job_row_roundtrip example_row example_row_ok). Defined.
