(* ===== verification/Sqlite.v ===== *)
(** * The SQLite store: [src/store/sqlite_state_store.{hpp,cpp}]

    The durable back end of [StateStore].  The database engine is a parameter:
    [Sqlite] has the calls the code makes, [SqliteLaws] what SQLite documents of
    them (a transaction is atomic, a statement does what its SQL says or fails,
    a result set is the table).  A failure may occur at any call.  The scripts
    that create and migrate the schema are functions on the tables.

    The theorems are in [SqliteProofs]. *)

From S2P Require Import Prelude.
From S2P Require Import Job.
From S2P Require Import Gpu.
From S2P Require Import Store.
From S2P Require Import Wire.
From S2P Require Import SqliteRows.
From stdpp Require Import pretty.
#[local] Open Scope N_scope.

(** [ORDER BY job_id]: signed order *)
#[export] Instance Z_key_order : KeyOrder Z.
Proof. refine {| key_le := Z.le |}. Defined.

(** ** The database *)

(** The contents of the file.  A table that does not exist yet is the one
    [kSchemaSql] creates: empty, with the columns of version 4. *)
Record Tables := mkTables {
  tb_meta : gmap string Z;
  tb_columns : list string;
  tb_jobs : gmap Z JobRow;
  tb_leases : gmap string Z;
}.

Definition v1_columns : list string :=
  ["job_id"; "state"; "revision"; "owner_uid"; "owner_gid"; "argv"; "cwd"; "env"; "gpu_request";
   "launch_profile"; "tensorboard_logdir"; "submit_time_nanos"; "pid"; "pgid"; "start_ticks";
   "has_start_time"; "start_time_nanos"; "has_end_time"; "end_time_nanos"; "has_exit";
   "exit_reason"; "exit_code"; "exit_signal"; "failure_reason"; "log_path"].

(** The columns [decode_jobs] selects and [write_job_row] writes *)
Definition job_columns : list string :=
  v1_columns ++ ["executable"; "environment_type"; "python_version"]
             ++ ["gpu_placement_mode"; "gpu_placement_device"] ++ ["gpu_placement_devices"].

Definition fresh_tables : Tables := mkTables ∅ job_columns ∅ ∅.

(** [UPDATE yori_meta SET value = v WHERE key = k] *)
Definition update_meta (k : string) (v : Z) (t : Tables) : Tables :=
  {| t with tb_meta := alter (fun _ => v) k (tb_meta t) |}.

(** [ALTER TABLE yori_jobs ADD COLUMN name TEXT]: an error when the column
    exists, and NULL in every row otherwise *)
Definition add_column (name : string) (blank : JobRow -> JobRow) (t : Tables) : option Tables :=
  if bool_decide (name ∈ tb_columns t) then None
  else Some {| t with tb_columns := tb_columns t ++ [name]; tb_jobs := blank <$> tb_jobs t |}.

(** [kSchemaSql] *)
Definition schema_sql (t : Tables) : Tables :=
  {| t with tb_meta := emplace "revision" 0%Z (emplace "schema_version" 4%Z (tb_meta t)) |}.

(** [kMigrationV1ToV2Sql] *)
Definition migration_v1_to_v2 (t : Tables) : option Tables :=
  t1 ← add_column "executable" (fun row => {| row with jr_executable := None |}) t;
  t2 ← add_column "environment_type" (fun row => {| row with jr_environment_type := None |}) t1;
  t3 ← add_column "python_version" (fun row => {| row with jr_python_version := None |}) t2;
  Some (update_meta "schema_version" 2 t3).

(** [kMigrationV2ToV3Sql] *)
Definition migration_v2_to_v3 (t : Tables) : option Tables :=
  t1 ← add_column "gpu_placement_mode" (fun row => {| row with jr_gpu_placement_mode := None |}) t;
  t2 ← add_column "gpu_placement_device" (fun row => {| row with jr_gpu_placement_device := None |}) t1;
  Some (update_meta "schema_version" 3 t2).

Definition backfill_devices (row : JobRow) : JobRow :=
  if bool_decide (jr_gpu_placement_mode row = Some "required")
  then {| row with jr_gpu_placement_devices := jr_gpu_placement_device row |} else row.

(** [kMigrationV3ToV4Sql] *)
Definition migration_v3_to_v4 (t : Tables) : option Tables :=
  t1 ← add_column "gpu_placement_devices" (fun row => {| row with jr_gpu_placement_devices := None |}) t;
  Some (update_meta "schema_version" 4 {| t1 with tb_jobs := backfill_devices <$> tb_jobs t1 |}).

(** The texts passed to [sqlite3_exec] *)
Inductive SqlScript :=
| Sql_begin_immediate
| Sql_commit
| Sql_rollback
| Sql_schema
| Sql_migration_v1_to_v2
| Sql_migration_v2_to_v3
| Sql_migration_v3_to_v4.

(** What the scripts that are whole transactions do; [None] is an error. *)
Definition script_effect (script : SqlScript) (t : Tables) : option Tables :=
  match script with
  | Sql_schema => Some (schema_sql t)
  | Sql_migration_v1_to_v2 => migration_v1_to_v2 t
  | Sql_migration_v2_to_v3 => migration_v2_to_v3 t
  | Sql_migration_v3_to_v4 => migration_v3_to_v4 t
  | _ => None
  end.

(** A query: not prepared, or stepped through the rows until a code other than
    [SQLITE_ROW], [complete] when that is [SQLITE_DONE] *)
Inductive Query (A : Type) :=
| NotPrepared
| Stepped (rows : list A) (complete : bool).
Arguments NotPrepared {A}.
Arguments Stepped {A} rows complete.

(** The engine, with the file and the connection to it.  A write is the whole
    [StmtGuard] of the code: prepare, bind, step; [true] is [SQLITE_DONE]. *)
Class Sqlite (C : Type) := {
  sql_open_v2 : C -> bool * C;
  sql_close_v2 : C -> C;
  sql_errmsg : C -> option string;
  sql_exec : SqlScript -> C -> bool * C;
  sql_select_meta : string -> C -> Query Z * C;
  sql_select_jobs : C -> Query (Z * JobRow) * C;
  sql_select_leases : C -> Query (option string * Z) * C;
  sql_replace_job : Z -> JobRow -> C -> bool * C;
  sql_delete_lease : string -> C -> bool * C;
  sql_insert_lease : string -> Z -> C -> bool * C;
  sql_update_meta : string -> Z -> C -> bool * C;
}.

(** ** Reading *)

(** [StateStoreErrorCode& error] with a [false] result is [Err error]. *)

Definition decode_jobs_step (jobs : gmap JobId StoredJob) (row : Z * JobRow)
  : Result StateStoreErrorCode (gmap JobId StoredJob) :=
  let? record := decode_job_row row.1 row.2 in
  reject_if bool_decide (is_Some (jobs !! sj_id record)) with SE_kInvalidJob;
  Ok (<[sj_id record := record]> jobs).

Definition decode_jobs (query : Query (Z * JobRow)) : Result StateStoreErrorCode (gmap JobId StoredJob) :=
  match query with
  | NotPrepared => Err SE_kBackendUnavailable
  | Stepped rows complete =>
      let? jobs := fold_result decode_jobs_step ∅ rows in
      reject_if negb complete with SE_kBackendUnavailable;
      Ok jobs
  end.

Definition decode_leases_step (jobs : gmap JobId StoredJob) (leases : gmap GpuUuid GpuLease)
    (row : option string * Z) : Result StateStoreErrorCode (gmap GpuUuid GpuLease) :=
  let lease := mkLease (default EmptyString row.1) (u64_of_i64 row.2) in
  reject_if negb (uuid_valid (lease_gpu_uuid lease)) || negb (job_id_valid (lease_job_id lease))
    with SE_kInvalidLease;
  reject_if negb (bool_decide (is_Some (jobs !! lease_job_id lease))) with SE_kInvalidLease;
  reject_if bool_decide (is_Some (leases !! lease_gpu_uuid lease)) with SE_kInvalidLease;
  Ok (<[lease_gpu_uuid lease := lease]> leases).

(** [++counts[lease.job_id]] over the leases *)
Definition lease_counts (leases : gmap GpuUuid GpuLease) : gmap JobId N :=
  fold_left (fun counts lease =>
    <[lease_job_id lease := default 0 (counts !! lease_job_id lease) + 1]> counts) (map_values leases) ∅.

Definition leaseable_state (state : JobState) : bool :=
  match state with kStarting | kRunning | kStopping => true | _ => false end.

Definition lease_matrix_ok (counts : gmap JobId N) (entry : JobId * StoredJob) : bool :=
  let held := default 0 (counts !! entry.1) in
  negb ((leaseable_state (sj_state entry.2) && negb (held =? 1))
        || (negb (leaseable_state (sj_state entry.2)) && negb (held =? 0))).

Definition decode_leases (jobs : gmap JobId StoredJob) (query : Query (option string * Z))
  : Result StateStoreErrorCode (gmap GpuUuid GpuLease) :=
  match query with
  | NotPrepared => Err SE_kBackendUnavailable
  | Stepped rows complete =>
      let? leases := fold_result (decode_leases_step jobs) ∅ rows in
      reject_if negb complete with SE_kBackendUnavailable;
      reject_if negb (forallb (lease_matrix_ok (lease_counts leases)) (map_entries jobs))
        with SE_kInvalidLease;
      Ok leases
  end.

(** [read_revision] *)
Definition read_revision (query : Query Z) : option N :=
  match query with
  | Stepped (value :: _) _ => if (value <? 0)%Z then None else Some (Z.to_N value)
  | _ => None
  end.

(** ** The store *)

Record SqliteStateStoreConfig := mkSqliteConfig {
  sc_library_path : string;
  sc_database_path : string;
  sc_max_jobs : N;
  sc_max_leases : N;
  sc_busy_timeout_ms : Z;
}.

(** [SqliteStateStore::Impl]; [sq_open] is [db != nullptr]. *)
Record SqliteStateStore (C : Type) := mkSqlite {
  sq_config : SqliteStateStoreConfig;
  sq_open : bool;
  sq_engine : C;
}.
Arguments mkSqlite {C}.
Arguments sq_config {C}.
Arguments sq_open {C}.
Arguments sq_engine {C}.

Definition validation_config (c : SqliteStateStoreConfig) : ValidationConfig :=
  mkConfig (sc_max_jobs c) (sc_max_leases c).

Inductive SqliteStoreOpenCode :=
| SO_kOpened
| SO_kAlreadyOpen
| SO_kInvalidConfig
| SO_kSymlinkedDatabasePath
| SO_kLibraryOpenFailed
| SO_kSymbolMissing
| SO_kDatabaseOpenFailed
| SO_kSchemaInitFailed.

#[export] Instance SqliteStoreOpenCode_eq_dec : EqDecision SqliteStoreOpenCode.
Proof. solve_decision. Defined.

Definition SqliteStoreOpenCode_to_string (code : SqliteStoreOpenCode) : string :=
  match code with
  | SO_kOpened => "OPENED"
  | SO_kAlreadyOpen => "ALREADY_OPEN"
  | SO_kInvalidConfig => "INVALID_CONFIG"
  | SO_kSymlinkedDatabasePath => "SYMLINKED_DATABASE_PATH"
  | SO_kLibraryOpenFailed => "LIBRARY_OPEN_FAILED"
  | SO_kSymbolMissing => "SYMBOL_MISSING"
  | SO_kDatabaseOpenFailed => "DATABASE_OPEN_FAILED"
  | SO_kSchemaInitFailed => "SCHEMA_INIT_FAILED"
  end.

Record SqliteStoreOpenResult := mkOpenResult {
  or_code : SqliteStoreOpenCode;
  or_detail : string;
}.

(** [SqliteStoreOpenResult::ok] *)
Definition open_ok (r : SqliteStoreOpenResult) : bool :=
  bool_decide (or_code r = SO_kOpened) || bool_decide (or_code r = SO_kAlreadyOpen).

(** What the host answers to [open]: is the database path a symbolic link, does
    [dlopen] find the library ([dlerror] when not), which symbols has it, and
    does a failed [sqlite3_open_v2] return a handle *)
Record OpenHost := mkOpenHost {
  oh_symlink : bool;
  oh_library : bool;
  oh_dlerror : option string;
  oh_symbol : string -> bool;
  oh_handle : bool;
}.

Definition sqlite_symbols : list string :=
  ["sqlite3_libversion_number"; "sqlite3_open_v2"; "sqlite3_close_v2"; "sqlite3_busy_timeout";
   "sqlite3_errmsg"; "sqlite3_exec"; "sqlite3_prepare_v2"; "sqlite3_step"; "sqlite3_finalize";
   "sqlite3_reset"; "sqlite3_bind_int64"; "sqlite3_bind_null"; "sqlite3_bind_text";
   "sqlite3_bind_blob"; "sqlite3_column_int64"; "sqlite3_column_text"; "sqlite3_column_blob";
   "sqlite3_column_bytes"].

Section operations.
Context {C : Type} `{Sqlite C}.

(** [describe_error] on an open database *)
Definition describe_error (c : C) : string := truncate_detail (sql_errmsg c).

(** [decode_state]: the outcome, the revision that was read, and the engine *)
Definition decode_state (c : C) : Result StateStoreErrorCode StoreState * N * C :=
  let '(meta, c1) := sql_select_meta "revision" c in
  match read_revision meta with
  | None => (Err SE_kBackendUnavailable, 0, c1)
  | Some revision =>
      let '(job_rows, c2) := sql_select_jobs c1 in
      match decode_jobs job_rows with
      | Err error => (Err error, revision, c2)
      | Ok jobs =>
          let '(lease_rows, c3) := sql_select_leases c2 in
          match decode_leases jobs lease_rows with
          | Err error => (Err error, revision, c3)
          | Ok leases => (Ok (mkState revision jobs leases), revision, c3)
          end
      end
  end.

(** [load] *)
Definition sqlite_load (s : SqliteStateStore C) : StateStoreLoadResult * SqliteStateStore C :=
  if negb (sq_open s) then (mkLoad SE_kBackendUnavailable empty_snapshot, s)
  else
    let '(decoded, _, c) := decode_state (sq_engine s) in
    (match decoded with
     | Err error => mkLoad error empty_snapshot
     | Ok state => mkLoad SE_kNone (snapshot_of state)
     end, {| s with sq_engine := c |}).

(** [for (const auto& x : l) if (!write(x)) return backend_failure();] *)
Fixpoint write_all {A} (write : A -> C -> bool * C) (l : list A) (c : C) : bool * C :=
  match l with
  | [] => (true, c)
  | x :: l' => let '(ok, c1) := write x c in if ok then write_all write l' c1 else (false, c1)
  end.

(** [write_job_row].  The record has passed validation, so it has a row
    ([encode_job_row_defined]). *)
Definition write_job_row (record : StoredJob) (c : C) : bool * C :=
  match encode_job_row record with
  | Some row => sql_replace_job (i64_of_u64 (sj_id record)) row c
  | None => (false, c)
  end.

(** [delete_lease_row] *)
Definition delete_lease_row (uuid : GpuUuid) (c : C) : bool * C := sql_delete_lease uuid c.

(** [insert_lease_row] *)
Definition insert_lease_row (lease : GpuLease) (c : C) : bool * C :=
  sql_insert_lease (lease_gpu_uuid lease) (i64_of_u64 (lease_job_id lease)) c.

(** [write_revision] *)
Definition write_revision (revision : N) (c : C) : bool * C :=
  sql_update_meta "revision" (i64_of_u64 revision) c.

Definition and_then (step : C -> bool * C) (r : bool * C) : bool * C :=
  let '(ok, c) := r in if ok then step c else (false, c).

(** The writes of [apply], up to the first that fails *)
Definition write_mutation (m : StateMutation) (next_revision : N) (c : C) : bool * C :=
  and_then (sql_exec Sql_commit)
    (and_then (write_revision next_revision)
      (and_then (write_all insert_lease_row (mu_acquire_leases m))
        (and_then (write_all delete_lease_row (mu_release_leases m))
          (and_then (write_all write_job_row (mu_update_jobs m))
            (write_all write_job_row (mu_create_jobs m) c))))).

(** [ROLLBACK] and a result *)
Definition roll_back (code : StateStoreErrorCode) (revision : N) (c : C) : StateStoreWriteResult * C :=
  (mkWrite code revision, (sql_exec Sql_rollback c).2).

(** [apply] on an open database *)
Definition apply_open (config : ValidationConfig) (m : StateMutation) (c : C) : StateStoreWriteResult * C :=
  let '(begun, c1) := sql_exec Sql_begin_immediate c in
  if negb begun then (mkWrite SE_kBackendUnavailable 0, c1)
  else
    let '(decoded, revision, c2) := decode_state c1 in
    match decoded with
    | Err error => roll_back error revision c2
    | Ok state =>
        match apply_mutation config state m with
        | Err code => roll_back code revision c2
        | Ok next =>
            if int64_max <? st_revision next then roll_back SE_kInvalidMutation revision c2
            else
              let '(written, c3) := write_mutation m (st_revision next) c2 in
              if written then (mkWrite SE_kNone (st_revision next), c3)
              else roll_back SE_kBackendUnavailable revision c3
        end
    end.

(** [apply] *)
Definition sqlite_apply (m : StateMutation) (s : SqliteStateStore C)
  : StateStoreWriteResult * SqliteStateStore C :=
  if negb (sq_open s) then (mkWrite SE_kBackendUnavailable 0, s)
  else
    let '(result, c) := apply_open (validation_config (sq_config s)) m (sq_engine s) in
    (result, {| s with sq_engine := c |}).

(** *** [open] *)

Definition schema_failed (detail : string) (s : SqliteStateStore C) (c : C)
  : SqliteStoreOpenResult * SqliteStateStore C :=
  (mkOpenResult SO_kSchemaInitFailed detail, {| s with sq_open := false; sq_engine := sql_close_v2 c |}).

(** [if (schema_version == from) { ... schema_version = from + 1; }]; [Err] is
    the detail of the failure. *)
Definition migrate_step (from : Z) (script : SqlScript) (label : string) (version : Z) (c : C)
  : Result string Z * C :=
  if (version =? from)%Z then
    let '(ok, c1) := sql_exec script c in
    if ok then (Ok (from + 1)%Z, c1)
    else (Err (String.append label (describe_error c1)), c1)
  else (Ok version, c).

Definition migrate_schema (version : Z) (c : C) : Result string Z * C :=
  let '(r1, c1) := migrate_step 1 Sql_migration_v1_to_v2 "v1->v2 migration failed: " version c in
  match r1 with
  | Err e => (Err e, c1)
  | Ok v1 =>
      let '(r2, c2) := migrate_step 2 Sql_migration_v2_to_v3 "v2->v3 migration failed: " v1 c1 in
      match r2 with
      | Err e => (Err e, c2)
      | Ok v2 => migrate_step 3 Sql_migration_v3_to_v4 "v3->v4 migration failed: " v2 c2
      end
  end.

(** [open] from the schema transaction on, with the connection made *)
Definition open_schema (s : SqliteStateStore C) (c : C) : SqliteStoreOpenResult * SqliteStateStore C :=
  let '(created, c1) := sql_exec Sql_schema c in
  if negb created then schema_failed (describe_error c1) s c1
  else
    let '(query, c2) := sql_select_meta "schema_version" c1 in
    match query with
    | Stepped (schema_version :: _) _ =>
        let '(migrated, c3) := migrate_schema schema_version c2 in
        match migrated with
        | Err detail => schema_failed detail s c3
        | Ok version =>
            if negb (version =? 4)%Z
            then schema_failed (String.append "unsupported schema version " (pretty version)) s c3
            else (mkOpenResult SO_kOpened EmptyString, {| s with sq_open := true; sq_engine := c3 |})
        end
    | _ => schema_failed (describe_error c2) s c2
    end.

(** [open] *)
Definition sqlite_open (host : OpenHost) (s : SqliteStateStore C)
  : SqliteStoreOpenResult * SqliteStateStore C :=
  let config := sq_config s in
  if sq_open s then (mkOpenResult SO_kAlreadyOpen EmptyString, s)
  else if sempty (sc_database_path config) || (sc_max_jobs config =? 0)
          || (sc_max_leases config =? 0) || (sc_busy_timeout_ms config <? 0)%Z
  then (mkOpenResult SO_kInvalidConfig "database_path must be non-empty and limits must be positive", s)
  else if oh_symlink host then (mkOpenResult SO_kSymlinkedDatabasePath (sc_database_path config), s)
  else if negb (oh_library host)
  then (mkOpenResult SO_kLibraryOpenFailed (truncate_detail (oh_dlerror host)), s)
  else
    match find_first (fun name => negb (oh_symbol host name)) sqlite_symbols with
    | Some name => (mkOpenResult SO_kSymbolMissing (String.append "missing symbol " name), s)
    | None =>
        let '(opened, c) := sql_open_v2 (sq_engine s) in
        if negb opened then
          (mkOpenResult SO_kDatabaseOpenFailed
             (if oh_handle host then describe_error c else "sqlite3_open_v2 failed"),
           {| s with sq_engine := if oh_handle host then sql_close_v2 c else c |})
        else open_schema s c
    end.

End operations.

(** ** What SQLite promises *)

Definition with_row (k : Z) (row : JobRow) (t : Tables) : Tables :=
  {| t with tb_jobs := <[k := row]> (tb_jobs t) |}.
Definition without_lease (u : string) (t : Tables) : Tables :=
  {| t with tb_leases := delete u (tb_leases t) |}.
Definition with_lease (u : string) (j : Z) (t : Tables) : Tables :=
  {| t with tb_leases := <[u := j]> (tb_leases t) |}.

(** Every column the code names is there; integers have 64 bits. *)
Definition jobs_typed (t : Tables) : Prop :=
  Forall (fun name => name ∈ tb_columns t) job_columns /\ map_Forall (fun k _ => int64 k) (tb_jobs t).
Definition leases_typed (t : Tables) : Prop := map_Forall (fun _ j => int64 j) (tb_leases t).

#[export] Instance jobs_typed_dec t : Decision (jobs_typed t).
Proof. unfold jobs_typed. apply _. Defined.
#[export] Instance leases_typed_dec t : Decision (leases_typed t).
Proof. unfold leases_typed. apply _. Defined.

(** [PRIMARY KEY] and [UNIQUE] of [yori_leases] *)
Definition lease_insertable (u : string) (j : Z) (t : Tables) : Prop :=
  tb_leases t !! u = None /\ forall u', tb_leases t !! u' <> Some j.

Class SqliteLaws (C : Type) `{Sqlite C} := {
  (** the committed contents, what the connection sees, is a transaction open *)
  sql_durable : C -> Tables;
  sql_view : C -> Tables;
  sql_in_txn : C -> bool;
  law_idle c : sql_in_txn c = false -> sql_view c = sql_durable c;
  law_open c :
    let '(ok, c') := sql_open_v2 c in
    sql_durable c' = sql_durable c /\ (ok = true -> sql_in_txn c' = false);
  law_close c : sql_durable (sql_close_v2 c) = sql_durable c /\ sql_in_txn (sql_close_v2 c) = false;
  law_begin c :
    let '(ok, c') := sql_exec Sql_begin_immediate c in
    sql_durable c' = sql_durable c /\
    if ok then sql_in_txn c = false /\ sql_in_txn c' = true /\ sql_view c' = sql_durable c
    else sql_in_txn c' = sql_in_txn c /\ sql_view c' = sql_view c;
  law_commit c :
    sql_in_txn c = true ->
    let '(ok, c') := sql_exec Sql_commit c in
    if ok then sql_durable c' = sql_view c /\ sql_in_txn c' = false else sql_durable c' = sql_durable c;
  law_rollback c :
    let c' := (sql_exec Sql_rollback c).2 in
    sql_durable c' = sql_durable c /\ sql_in_txn c' = false;
  law_script script c :
    sql_in_txn c = false -> script ∉ [Sql_begin_immediate; Sql_commit; Sql_rollback] ->
    let '(ok, c') := sql_exec script c in
    if ok then script_effect script (sql_durable c) = Some (sql_durable c') /\ sql_in_txn c' = false
    else sql_durable c' = sql_durable c;
  law_meta k c :
    let '(query, c') := sql_select_meta k c in
    sql_durable c' = sql_durable c /\ sql_view c' = sql_view c /\ sql_in_txn c' = sql_in_txn c /\
    forall v rows complete, query = Stepped (v :: rows) complete -> tb_meta (sql_view c) !! k = Some v;
  law_jobs c :
    let '(query, c') := sql_select_jobs c in
    sql_durable c' = sql_durable c /\ sql_view c' = sql_view c /\ sql_in_txn c' = sql_in_txn c /\
    forall rows, query = Stepped rows true ->
      jobs_typed (sql_view c) /\ rows = map_entries (tb_jobs (sql_view c));
  law_leases c :
    let '(query, c') := sql_select_leases c in
    sql_durable c' = sql_durable c /\ sql_view c' = sql_view c /\ sql_in_txn c' = sql_in_txn c /\
    forall rows, query = Stepped rows true ->
      leases_typed (sql_view c) /\
      rows ≡ₚ (fun x => (Some x.1, x.2)) <$> map_to_list (tb_leases (sql_view c));
  (** writes inside a transaction *)
  law_replace k row c :
    sql_in_txn c = true ->
    let '(ok, c') := sql_replace_job k row c in
    sql_durable c' = sql_durable c /\
    (ok = true -> sql_in_txn c' = true /\ sql_view c' = with_row k row (sql_view c));
  law_delete u c :
    sql_in_txn c = true ->
    let '(ok, c') := sql_delete_lease u c in
    sql_durable c' = sql_durable c /\
    (ok = true -> sql_in_txn c' = true /\ sql_view c' = without_lease u (sql_view c));
  law_insert u j c :
    sql_in_txn c = true ->
    let '(ok, c') := sql_insert_lease u j c in
    sql_durable c' = sql_durable c /\
    (ok = true -> lease_insertable u j (sql_view c) /\
                  sql_in_txn c' = true /\ sql_view c' = with_lease u j (sql_view c));
  law_update k v c :
    sql_in_txn c = true ->
    let '(ok, c') := sql_update_meta k v c in
    sql_durable c' = sql_durable c /\
    (ok = true -> sql_in_txn c' = true /\ sql_view c' = update_meta k v (sql_view c));
}.

(** An engine whose calls fail only where SQL says so: for such an engine
    [apply] is the mutation core. *)
Class SqliteReliable (C : Type) `{SqliteLaws C} := {
  rel_begin c : sql_in_txn c = false -> (sql_exec Sql_begin_immediate c).1 = true;
  rel_commit c : sql_in_txn c = true -> (sql_exec Sql_commit c).1 = true;
  rel_meta k c v :
    tb_meta (sql_view c) !! k = Some v -> exists complete, (sql_select_meta k c).1 = Stepped [v] complete;
  rel_jobs c : jobs_typed (sql_view c) -> exists rows, (sql_select_jobs c).1 = Stepped rows true;
  rel_leases c : leases_typed (sql_view c) -> exists rows, (sql_select_leases c).1 = Stepped rows true;
  rel_replace k row c : jobs_typed (sql_view c) -> (sql_replace_job k row c).1 = true;
  rel_delete u c : (sql_delete_lease u c).1 = true;
  rel_insert u j c : lease_insertable u j (sql_view c) -> (sql_insert_lease u j c).1 = true;
  rel_update k v c : (sql_update_meta k v c).1 = true;
}.
