(* ===== verification/SqliteProofs.v ===== *)
(** * The SQLite store: proofs

    [Holds t st]: the tables [t] encode the state [st].  [sqlite_session]: calls
    and answers are a run of the abstract store from the state the file encoded
    ([core_run]: an [apply] that succeeds does what the shared mutation core
    does, one that fails nothing), and the file encodes the state the run ends
    in, over any calls and any failures of the engine.  [sqlite_matches_memory]: on an engine that does not fail the
    store answers as the in-memory one.  [sqlite_load_sound]: whatever is in
    the file, a load that succeeds shows a well-formed state.
    [sqlite_open_migrates]: a file of an older schema keeps its rows, with the
    new columns filled in.  [comma_uuid_unreadable] and [poisoned] are about
    records that the core accepts and that cannot be read back. *)

From S2P Require Import Prelude.
From S2P Require Import Job.
From S2P Require Import Gpu.
From S2P Require Import Store.
From S2P Require Import Wire.
From S2P Require Import SqliteRows.
From S2P Require Import Sqlite.

(** ** What the file holds *)

Definition JobsHold (rows : gmap Z JobRow) (jobs : gmap JobId StoredJob) : Prop :=
  (forall k row, rows !! k = Some row ->
     int64 k /\ exists r, decode_job_row k row = Ok r /\ jobs !! u64_of_i64 k = Some r) /\
  (forall id r, jobs !! id = Some r -> id <= u64_max /\ is_Some (rows !! i64_of_u64 id)).

Definition LeasesHold (rows : gmap string Z) (leases : gmap GpuUuid GpuLease) : Prop :=
  (forall u j, rows !! u = Some j ->
     int64 j /\ uuid_valid u = true /\ u64_of_i64 j <> 0 /\ leases !! u = Some (mkLease u (u64_of_i64 j))) /\
  (forall u l, leases !! u = Some l -> is_Some (rows !! u)).

(** The tables are an encoding of the state. *)
Record Holds (t : Tables) (st : StoreState) : Prop := {
  ho_columns : Forall (fun name => name ∈ tb_columns t) job_columns;
  ho_revision : tb_meta t !! "revision" = Some (Z.of_N (st_revision st));
  ho_jobs : JobsHold (tb_jobs t) (st_jobs st);
  ho_leases : LeasesHold (tb_leases t) (st_leases st);
  ho_lease_job u l : st_leases st !! u = Some l -> is_Some (st_jobs st !! lease_job_id l);
  ho_matrix id r : st_jobs st !! id = Some r ->
    lease_count (st_leases st) id = if leaseable (sj_state r) then 1 else 0;
}.

Lemma JobsHold_typed rows jobs : JobsHold rows jobs -> map_Forall (fun k _ => int64 k) rows.
Proof. intros [Hrows _] k row Hk. by apply Hrows in Hk as [? _]. Qed.

Lemma LeasesHold_typed rows leases : LeasesHold rows leases -> map_Forall (fun _ j => int64 j) rows.
Proof. intros [Hrows _] u j Hu. by apply Hrows in Hu as [? _]. Qed.

Lemma JobsHold_insert rows jobs r row :
  JobsHold rows jobs -> RowOk r -> encode_job_row r = Some row ->
  JobsHold (<[i64_of_u64 (sj_id r) := row]> rows) (<[sj_id r := r]> jobs).
Proof.
  intros [Hrows Hjobs] Hr Hrow. pose proof (rp_id _ (rw_fits _ Hr)) as Hid. split.
  - intros k row' [[<- <-]|[Hne Hk]]%lookup_insert_Some.
    + split; [by apply i64_of_u64_range|]. exists r. rewrite u64_of_i64_of_u64, lookup_insert_eq by done.
      split; [by apply decode_encoded|done].
    + apply Hrows in Hk as (Hk & r' & Hdec & Hr'). split; [done|]. exists r'. split; [done|].
      rewrite lookup_insert_ne; [done|]. intros Heq. apply Hne. rewrite Heq. by apply i64_of_u64_of_i64.
  - intros id r' [[<- <-]|[Hne Hk]]%lookup_insert_Some.
    + by rewrite lookup_insert_eq.
    + apply Hjobs in Hk as [Hle Hk]. split; [done|]. rewrite lookup_insert_ne; [done|].
      intros Heq. apply Hne. by rewrite <- (u64_of_i64_of_u64 (sj_id r)), Heq, u64_of_i64_of_u64.
Qed.

Lemma LeasesHold_delete rows leases u :
  LeasesHold rows leases -> LeasesHold (delete u rows) (delete u leases).
Proof.
  intros [Hrows Hleases]. split.
  - intros u' j [Hne Hu]%lookup_delete_Some. rewrite lookup_delete_ne by done. by apply Hrows.
  - intros u' l [Hne Hu]%lookup_delete_Some. rewrite lookup_delete_ne by done. by eapply Hleases.
Qed.

Lemma LeasesHold_insert rows leases l :
  LeasesHold rows leases -> uuid_valid (lease_gpu_uuid l) = true ->
  lease_job_id l <> 0 -> lease_job_id l <= u64_max ->
  LeasesHold (<[lease_gpu_uuid l := i64_of_u64 (lease_job_id l)]> rows) (<[lease_gpu_uuid l := l]> leases).
Proof.
  intros [Hrows Hleases] Hu Hne0 Hle. split.
  - intros u j [[<- <-]|[Hne Hj]]%lookup_insert_Some.
    + rewrite lookup_insert_eq, u64_of_i64_of_u64 by done. destruct l.
      split_and!; try done. by apply i64_of_u64_range.
    + rewrite lookup_insert_ne by done. by apply Hrows.
  - intros u l' [[<- <-]|[Hne Hj]]%lookup_insert_Some.
    + by rewrite lookup_insert_eq.
    + rewrite lookup_insert_ne by done. by eapply Hleases.
Qed.

(** *** Reading the job table *)

Lemma decode_jobs_step_ok jobs k row jobs' :
  decode_jobs_step jobs (k, row) = Ok jobs' <->
  exists r, decode_job_row k row = Ok r /\ jobs !! sj_id r = None /\ jobs' = <[sj_id r := r]> jobs.
Proof.
  unfold decode_jobs_step. cbn. destruct (decode_job_row k row) as [r|e]; cbn; [|naive_solver].
  destruct (jobs !! sj_id r) eqn:Hr.
  - rewrite bool_decide_eq_true_2 by eauto. naive_solver.
  - rewrite bool_decide_eq_false_2 by (intros [? [=]]). naive_solver.
Qed.

Lemma decode_jobs_loop rows acc jobs :
  fold_result decode_jobs_step acc rows = Ok jobs ->
  acc ⊆ jobs /\
  (forall k row, (k, row) ∈ rows -> exists r, decode_job_row k row = Ok r /\ jobs !! sj_id r = Some r) /\
  (forall id r, jobs !! id = Some r -> acc !! id = Some r \/
     exists k row, (k, row) ∈ rows /\ decode_job_row k row = Ok r /\ sj_id r = id).
Proof.
  revert acc. induction rows as [|[k row] rows IH]; intros acc; cbn [fold_result].
  { intros [= <-]. split_and!; [done| |by left]. by intros ?? ?%not_elem_of_nil. }
  intros (acc' & (r & Hdec & Hfresh & ->)%decode_jobs_step_ok & Hrec)%result_bind_ok.
  apply IH in Hrec as (Hsub & Hrows & Hback). split_and!.
  - etrans; [|done]. by apply insert_subseteq.
  - intros k' row' [[= -> ->]|Hin]%elem_of_cons; [|by apply Hrows]. exists r. split; [done|].
    eapply lookup_weaken; [|done]. apply lookup_insert_eq.
  - intros id r' Hr'. apply Hback in Hr' as [Hr'|(k' & row' & Hin & ?)].
    + apply lookup_insert_Some in Hr' as [[<- <-]|[_ ?]]; [|by left].
      right. exists k, row. split_and!; [left|done..].
    + right. exists k', row'. split_and!; [by right|naive_solver..].
Qed.

Lemma decode_jobs_total rows acc :
  NoDup rows.*1 -> Forall (fun x => int64 x.1) rows ->
  (forall k row, (k, row) ∈ rows -> is_ok (decode_job_row k row) = true /\ acc !! u64_of_i64 k = None) ->
  is_ok (fold_result decode_jobs_step acc rows) = true.
Proof.
  revert acc. induction rows as [|[k row] rows IH]; intros acc Hnd Htyped Hrows; cbn [fold_result]; [done|].
  cbn in Hnd. apply NoDup_cons in Hnd as [Hk Hnd]. apply Forall_cons in Htyped as [Hk64 Htyped].
  destruct (Hrows k row) as [Hok Hfresh]; [left|].
  destruct (decode_job_row k row) as [r|] eqn:Hdec; [|done].
  destruct (decode_job_row_valid _ _ _ Hdec) as (Hid & _).
  assert (decode_jobs_step acc (k, row) = Ok (<[sj_id r := r]> acc)) as ->.
  { apply decode_jobs_step_ok. exists r. by rewrite Hid. }
  cbn. apply IH; [done|done|]. intros k' row' Hin. split; [apply (Hrows k' row'); by right|].
  rewrite lookup_insert_ne; [apply (Hrows k' row'); by right|]. rewrite Hid. intros Heq. apply Hk.
  assert (int64 k') as Hk' by (rewrite Forall_forall in Htyped; apply (Htyped _ Hin)).
  cbn in Hk64. rewrite <- (i64_of_u64_of_i64 k), Heq, i64_of_u64_of_i64 by done.
  apply list_elem_of_fmap. by exists (k', row').
Qed.

(** A table holds at most one state. *)
Lemma JobsHold_functional rows jobs1 jobs2 id r :
  JobsHold rows jobs1 -> JobsHold rows jobs2 -> jobs1 !! id = Some r -> jobs2 !! id = Some r.
Proof.
  intros [H1 Hb1] [H2 _] Hr. destruct (Hb1 _ _ Hr) as [Hle [row Hrow]].
  destruct (H1 _ _ Hrow) as (_ & r1 & Hd1 & Hr1), (H2 _ _ Hrow) as (_ & r2 & Hd2 & Hr2).
  rewrite u64_of_i64_of_u64 in * by done. congruence.
Qed.

Lemma decode_jobs_holds t jobs :
  map_Forall (fun k _ => int64 k) (tb_jobs t) ->
  fold_result decode_jobs_step ∅ (map_entries (tb_jobs t)) = Ok jobs <-> JobsHold (tb_jobs t) jobs.
Proof.
  intros Htyped.
  assert (forall jobs, fold_result decode_jobs_step ∅ (map_entries (tb_jobs t)) = Ok jobs ->
    JobsHold (tb_jobs t) jobs) as Hforward.
  { intros jobs' (_ & Hrows & Hback)%decode_jobs_loop. split.
    - intros k row Hk. split; [by eapply Htyped|]. apply elem_of_map_entries in Hk as Hin.
      destruct (Hrows _ _ Hin) as (r & Hdec & Hr). exists r. split; [done|].
      by destruct (decode_job_row_valid _ _ _ Hdec) as [<- _].
    - intros id r [Hemp|(k & row & Hk%elem_of_map_entries & Hdec & <-)]%Hback; [by rewrite lookup_empty in Hemp|].
      destruct (decode_job_row_valid _ _ _ Hdec) as (Hid & _ & Hle & _). split; [done|].
      rewrite Hid, i64_of_u64_of_i64 by (by eapply Htyped). eauto. }
  split; [apply Hforward|]. intros Hhold.
  assert (is_ok (fold_result decode_jobs_step ∅ (map_entries (tb_jobs t))) = true) as Hok.
  { apply decode_jobs_total; [apply NoDup_map_entries_keys| |].
    - apply Forall_forall. intros [k row] Hin%elem_of_map_entries. by eapply Htyped.
    - intros k row Hin%elem_of_map_entries. apply Hhold in Hin as (_ & r & -> & _). by rewrite lookup_empty. }
  destruct (fold_result _ _ _) as [jobs'|]; [|done]. f_equal.
  specialize (Hforward _ eq_refl). apply map_eq. intros id. apply option_eq. intros r.
  split; by apply JobsHold_functional with (tb_jobs t).
Qed.

(** *** Reading the lease table *)

Definition lease_of_row (row : option string * Z) : GpuLease :=
  mkLease (default EmptyString row.1) (u64_of_i64 row.2).

(** What [decode_leases_step] asks of a row *)
Definition lease_row_ok (jobs : gmap JobId StoredJob) (row : option string * Z) : Prop :=
  uuid_valid (lease_gpu_uuid (lease_of_row row)) = true /\ lease_job_id (lease_of_row row) <> 0 /\
  is_Some (jobs !! lease_job_id (lease_of_row row)).

Lemma decode_leases_step_ok jobs leases row leases' :
  decode_leases_step jobs leases row = Ok leases' <->
  lease_row_ok jobs row /\ leases !! lease_gpu_uuid (lease_of_row row) = None /\
  leases' = <[lease_gpu_uuid (lease_of_row row) := lease_of_row row]> leases.
Proof.
  unfold decode_leases_step, lease_row_ok. fold (lease_of_row row). set (l := lease_of_row row).
  rewrite !reject_ok, orb_false_iff, !negb_false_iff, bool_decide_eq_true, bool_decide_eq_false,
    <- eq_None_not_Some.
  unfold job_id_valid. rewrite negb_true_iff, N.eqb_neq. naive_solver.
Qed.

Lemma decode_leases_loop jobs rows acc leases :
  NoDup (lease_gpu_uuid ∘ lease_of_row <$> rows) ->
  (forall row, row ∈ rows -> acc !! lease_gpu_uuid (lease_of_row row) = None) ->
  fold_result (decode_leases_step jobs) acc rows = Ok leases <->
  Forall (lease_row_ok jobs) rows /\
  leases = list_to_map ((fun row => (lease_gpu_uuid (lease_of_row row), lease_of_row row)) <$> rows) ∪ acc.
Proof.
  revert acc. induction rows as [|row rows IH]; intros acc Hnd Hfresh; cbn [fold_result].
  { cbn. rewrite (left_id_L ∅ (∪)). split; [intros [= <-]; by split; [constructor|]|by intros [_ ->]]. }
  cbn in Hnd. apply NoDup_cons in Hnd as [Hrow Hnd].
  pose proof (Hfresh row (list_elem_of_here _ _)) as Hnone.
  rewrite Forall_cons.
  assert (forall row', row' ∈ rows ->
    <[lease_gpu_uuid (lease_of_row row) := lease_of_row row]> acc !! lease_gpu_uuid (lease_of_row row') = None)
    as Hfresh'.
  { intros row' Hin. rewrite lookup_insert_ne; [apply Hfresh; by right|]. intros Heq. apply Hrow.
    apply list_elem_of_fmap. by exists row'. }
  specialize (IH _ Hnd Hfresh').
  assert (list_to_map ((fun row => (lease_gpu_uuid (lease_of_row row), lease_of_row row)) <$> row :: rows) ∪ acc =
    list_to_map ((fun row => (lease_gpu_uuid (lease_of_row row), lease_of_row row)) <$> rows) ∪
    <[lease_gpu_uuid (lease_of_row row) := lease_of_row row]> acc) as ->.
  { cbn. rewrite <- insert_union_l, insert_union_r; [done|].
    apply not_elem_of_list_to_map_1. by rewrite <- list_fmap_compose. }
  split.
  - intros (acc' & (Hok & _ & ->)%decode_leases_step_ok & Hrec)%result_bind_ok.
    apply IH in Hrec as [Hall ->]. done.
  - intros [[Hok Hall] ->]. rewrite (proj2 (decode_leases_step_ok _ _ _ _)) by done. by apply IH.
Qed.

Lemma lease_rows_nodup t (rows : list (option string * Z)) :
  rows ≡ₚ (fun x => (Some x.1, x.2)) <$> map_to_list (tb_leases t) ->
  NoDup (lease_gpu_uuid ∘ lease_of_row <$> rows).
Proof.
  intros ->. rewrite <- list_fmap_compose. apply NoDup_fst_map_to_list.
Qed.

Lemma decode_leases_holds t jobs leases (rows : list (option string * Z)) :
  leases_typed t -> rows ≡ₚ (fun x => (Some x.1, x.2)) <$> map_to_list (tb_leases t) ->
  fold_result (decode_leases_step jobs) ∅ rows = Ok leases <->
  LeasesHold (tb_leases t) leases /\ forall u l, leases !! u = Some l -> is_Some (jobs !! lease_job_id l).
Proof.
  intros Htyped Hperm. pose proof (lease_rows_nodup _ _ Hperm) as Hnd.
  rewrite decode_leases_loop by (done || (intros; apply lookup_empty)). rewrite (right_id_L ∅ (∪)).
  set (built := list_to_map _).
  assert (forall u l, built !! u = Some l <-> exists j, tb_leases t !! u = Some j /\ l = mkLease u (u64_of_i64 j))
    as Hbuilt.
  { intros u l. unfold built. rewrite <- elem_of_list_to_map; [|by rewrite <- list_fmap_compose].
    rewrite list_elem_of_fmap. setoid_rewrite Hperm. setoid_rewrite list_elem_of_fmap. split.
    - intros (? & [= -> ->] & [u' j] & -> & Hin%elem_of_map_to_list). cbn. eauto.
    - intros (j & Hj%elem_of_map_to_list & ->). exists (Some u, j). split; [done|]. by exists (u, j). }
  assert (Forall (lease_row_ok jobs) rows <-> forall u j, tb_leases t !! u = Some j -> lease_row_ok jobs (Some u, j))
    as Hforall.
  { rewrite Hperm, Forall_fmap, Forall_forall. split.
    - intros Hall u j Hj%elem_of_map_to_list. by apply (Hall (u, j)).
    - intros Hall [u j] Hj%elem_of_map_to_list. by apply Hall. }
  rewrite Hforall. split.
  - intros [Hall ->]. split; [split|].
    + intros u j Hj. destruct (Hall _ _ Hj) as (Hu & Hne & _). split_and!; [by eapply Htyped|done..|].
      apply Hbuilt. eauto.
    + intros u l (j & Hj & _)%Hbuilt. eauto.
    + intros u l (j & Hj & ->)%Hbuilt. by apply (Hall u j).
  - intros [[Hrows Hback] Hjobs]. split.
    + intros u j Hj. destruct (Hrows _ _ Hj) as (_ & Hu & Hne & Hl). split_and!; [done|done|]. by apply Hjobs in Hl.
    + apply map_eq. intros u. apply option_eq. intros l. rewrite Hbuilt. split.
      * intros Hl. destruct (Hback _ _ Hl) as [j Hj]. exists j. split; [done|].
        destruct (Hrows _ _ Hj) as (_ & _ & _ & Hl'). congruence.
      * intros (j & Hj & ->). by apply Hrows in Hj as (_ & _ & _ & ?).
Qed.

Lemma lease_counts_loop l (counts : gmap JobId N) id :
  default 0 (fold_left (fun (counts : gmap JobId N) lease =>
    <[lease_job_id lease := default 0 (counts !! lease_job_id lease) + 1]> counts) l counts !! id) =
  default 0 (counts !! id) + len (filter (fun lease => lease_job_id lease = id) l).
Proof.
  revert counts. induction l as [|lease l IH]; intros counts; cbn [fold_left]; [unfold len; simpl; lia|].
  rewrite IH, filter_cons. destruct (decide (lease_job_id lease = id)) as [<-|Hne].
  - rewrite lookup_insert_eq, len_cons. cbn. lia.
  - by rewrite lookup_insert_ne.
Qed.

Lemma lease_counts_spec leases id : default 0 (lease_counts leases !! id) = lease_count leases id.
Proof.
  unfold lease_counts, lease_count. rewrite lease_counts_loop, lookup_empty. cbn [default].
  unfold map_values. induction (map_entries leases) as [|[u l] es IH]; [done|].
  cbn [fmap list_fmap]. rewrite !filter_cons. cbn [snd].
  destruct (decide (lease_job_id l = id)); [rewrite !len_cons|]; lia.
Qed.

Lemma lease_matrix_spec jobs leases :
  forallb (lease_matrix_ok (lease_counts leases)) (map_entries jobs) = true <->
  forall id r, jobs !! id = Some r -> lease_count leases id = if leaseable (sj_state r) then 1 else 0.
Proof.
  rewrite forallb_forall. setoid_rewrite <- list_elem_of_In. split.
  - intros Hall id r Hr%elem_of_map_entries. apply Hall in Hr. unfold lease_matrix_ok in Hr.
    cbn in Hr. rewrite lease_counts_spec in Hr. by destruct (sj_state r); cbn in *; reflect_bools.
  - intros Hall [id r] Hr%elem_of_map_entries. apply Hall in Hr. unfold lease_matrix_ok.
    cbn. rewrite lease_counts_spec, Hr. by destruct (sj_state r).
Qed.

(** *** Writing *)

(** The tables after each kind of write of [apply] *)
Definition write_row (t : Tables) (r : StoredJob) : Tables :=
  match encode_job_row r with Some row => with_row (i64_of_u64 (sj_id r)) row t | None => t end.
Definition erase_lease (t : Tables) (u : GpuUuid) : Tables := without_lease u t.
Definition write_lease (t : Tables) (l : GpuLease) : Tables :=
  with_lease (lease_gpu_uuid l) (i64_of_u64 (lease_job_id l)) t.

Definition tables_after (m : StateMutation) (revision : N) (t : Tables) : Tables :=
  let t1 := fold_left write_row (mu_update_jobs m) (fold_left write_row (mu_create_jobs m) t) in
  let t2 := fold_left write_lease (mu_acquire_leases m) (fold_left erase_lease (mu_release_leases m) t1) in
  update_meta "revision" (i64_of_u64 revision) t2.

Lemma encode_job_row_defined r : SpecOk (sj_spec r) -> is_Some (encode_job_row r).
Proof.
  intros Hs. destruct (encode_placement_defined _ (so_placement _ Hs)) as [[[mode device] devices] Hp].
  unfold encode_job_row. rewrite Hp. eauto.
Qed.

(** The loops of the core and the loops of writes, side by side: [f] is the
    core's step, [g] the write. *)
Lemma lockstep {A B} (P : Tables -> B -> Prop) (Q : A -> Prop) (f : B -> A -> Result StateStoreErrorCode B)
    (g : Tables -> A -> Tables) l t b b' :
  (forall t b x b', P t b -> Q x -> f b x = Ok b' -> P (g t x) b') ->
  Forall Q l -> P t b -> fold_result f b l = Ok b' -> P (fold_left g l t) b'.
Proof.
  intros Hstep Hl. revert t b. induction Hl as [|x l Hx _ IH]; intros t b HP; cbn.
  - by intros [= <-].
  - intros (b1 & Hf & Hrec)%result_bind_ok. by eapply IH; [eapply Hstep|].
Qed.

(** A write to one table leaves the rest. *)
Definition same_rest (t0 t : Tables) : Prop :=
  tb_meta t = tb_meta t0 /\ tb_columns t = tb_columns t0.

Definition rows_track (t0 : Tables) (t : Tables) (jobs : gmap JobId StoredJob) : Prop :=
  same_rest t0 t /\ tb_leases t = tb_leases t0 /\ JobsHold (tb_jobs t) jobs.

Lemma write_row_tracks t0 t jobs r :
  rows_track t0 t jobs -> RowOk r -> rows_track t0 (write_row t r) (<[sj_id r := r]> jobs).
Proof.
  intros (Hrest & Hl & Hj) Hr. destruct (encode_job_row_defined _ (rw_spec _ Hr)) as [row Hrow].
  unfold write_row. rewrite Hrow. split; [exact Hrest|split; [done|]]. by apply JobsHold_insert.
Qed.

Lemma create_tracks config t0 t jobs r jobs' :
  rows_track t0 t jobs -> Representable r -> create_job config jobs r = Ok jobs' ->
  rows_track t0 (write_row t r) jobs'.
Proof.
  intros Ht Hr (-> & _ & _ & Hid & Hs & Hq & Hrev & Hx)%create_job_ok. apply write_row_tracks; [done|].
  by constructor.
Qed.

Lemma update_tracks t0 t jobs r jobs' :
  rows_track t0 t jobs -> Representable r -> update_job jobs r = Ok jobs' ->
  rows_track t0 (write_row t r) jobs'.
Proof.
  intros Ht Hr (-> & Hid & Hs & Hx & ex & _ & _ & _ & Hrev & Hc)%update_job_ok. apply write_row_tracks; [done|].
  constructor; try done. split; [lia|]. intros Hq. by apply can_transition_not_queued in Hc.
Qed.

Definition leases_track (t0 : Tables) (t : Tables) (leases : gmap GpuUuid GpuLease) : Prop :=
  same_rest t0 t /\ tb_jobs t = tb_jobs t0 /\ LeasesHold (tb_leases t) leases.

Lemma release_tracks t0 t leases u leases' :
  leases_track t0 t leases -> True -> release_lease leases u = Ok leases' ->
  leases_track t0 (erase_lease t u) leases'.
Proof.
  intros (Hrest & Hj & Hl) _ (-> & _ & _)%release_lease_ok.
  split; [exact Hrest|split; [done|]]. by apply LeasesHold_delete.
Qed.

Lemma acquire_tracks config t0 t jobs leases l leases' :
  JobsHold (tb_jobs t0) jobs -> leases_track t0 t leases -> True ->
  acquire_lease config jobs leases l = Ok leases' -> leases_track t0 (write_lease t l) leases'.
Proof.
  intros [_ Hjobs] (Hrest & Hj & Hl) _ (-> & Hu & Hne & _ & Hjob & _ & _)%acquire_lease_ok.
  apply leaseable_job_spec in Hjob as (r & Hr & _).
  split; [exact Hrest|split; [done|]]. apply LeasesHold_insert; try done. by apply Hjobs in Hr as [? _].
Qed.

(** The writes carry an encoding of the state before to an encoding of the
    state after. *)
Lemma tables_after_holds config t st m st' :
  Holds t st -> Forall Representable (mu_create_jobs m ++ mu_update_jobs m) ->
  apply_mutation config st m = Ok st' -> st_revision st' <= int64_max ->
  Holds (tables_after m (st_revision st') t) st'.
Proof.
  intros Ht [Hcreate Hupdate]%Forall_app
    (_ & _ & _ & Hrev & jobs1 & leases1 & Hc & Hu & Hr & Ha & Hlj & Hcount)%apply_mutation_inv Hmax.
  assert (rows_track t t (st_jobs st)) as H0 by (split; [done|split; [done|apply Ht]]).
  pose proof (lockstep _ _ _ _ _ _ _ _ (create_tracks config t) Hcreate H0 Hc) as H1.
  pose proof (lockstep _ _ _ _ _ _ _ _ (update_tracks t) Hupdate H1 Hu) as H2.
  set (t1 := fold_left write_row (mu_update_jobs m) _) in H2. destruct H2 as ([Hmeta Hcols] & Hleases & Hjobs).
  assert (leases_track t1 t1 (st_leases st)) as H3.
  { split; [done|split; [done|]]. rewrite Hleases. apply Ht. }
  pose proof (lockstep _ (fun _ => True) _ _ _ _ _ _ (release_tracks t1) (Forall_true _ _ (fun _ => I)) H3 Hr) as H4.
  pose proof (lockstep _ (fun _ => True) _ _ _ _ _ _
    (fun t b x b' HP => acquire_tracks config t1 t (st_jobs st') b x b' Hjobs HP)
    (Forall_true _ _ (fun _ => I)) H4 Ha) as ([Hmeta' Hcols'] & Hjobs' & Hleases').
  unfold tables_after. fold t1. constructor; cbn.
  - rewrite Hcols', Hcols. apply Ht.
  - rewrite Hmeta', Hmeta, lookup_alter_eq, (ho_revision _ _ Ht). cbn. by rewrite i64_of_u64_small.
  - by rewrite Hjobs'.
  - done.
  - intros u l Hl. apply Hlj, leaseable_job_spec in Hl as (r & Hl & _). eauto.
  - done.
Qed.

(** Failures of the decoder carry a code. *)
Lemma of_option_coded {A} e (o : option A) : e <> SE_kNone -> errs_sat (fun e => e <> SE_kNone) (of_option e o).
Proof. by destruct o. Qed.

Lemma decode_job_row_coded k row : errs_sat (fun e => e <> SE_kNone) (decode_job_row k row).
Proof.
  unfold decode_job_row.
  repeat first [ walk_errs | apply of_option_coded | apply fold_result_errs; intros ?? | case_match
               | progress unfold decode_execution, decode_exit, decode_env_metadata, decode_placement,
                   decode_required, decode_device | done ].
Qed.

Lemma decode_jobs_coded query : errs_sat (fun e => e <> SE_kNone) (decode_jobs query).
Proof.
  unfold decode_jobs. case_match; [done|].
  apply errs_sat_bind; [|intros; by apply errs_sat_reject].
  apply fold_result_errs. intros jobs row. unfold decode_jobs_step.
  apply errs_sat_bind; [apply decode_job_row_coded|intros; by apply errs_sat_reject].
Qed.

Lemma decode_leases_coded jobs query : errs_sat (fun e => e <> SE_kNone) (decode_leases jobs query).
Proof.
  unfold decode_leases. case_match; [done|].
  repeat first [ walk_errs | apply fold_result_errs; intros ?? | progress unfold decode_leases_step | done ].
Qed.

(** ** The store against the engine's promises *)

Section laws.
Context {C : Type} `{SqliteLaws C}.
Implicit Types c : C.

Definition undisturbed (c c' : C) : Prop :=
  sql_durable c' = sql_durable c /\ sql_view c' = sql_view c /\ sql_in_txn c' = sql_in_txn c.

Lemma undisturbed_trans c c' c'' : undisturbed c c' -> undisturbed c' c'' -> undisturbed c c''.
Proof. intros (? & ? & ?) (? & ? & ?). split_and!; congruence. Qed.

Lemma read_revision_spec c query c' revision :
  sql_select_meta "revision" c = (query, c') -> read_revision query = Some revision ->
  tb_meta (sql_view c) !! "revision" = Some (Z.of_N revision).
Proof.
  intros Hq. pose proof (law_meta "revision" c) as Hlaw. rewrite Hq in Hlaw.
  destruct Hlaw as (_ & _ & _ & Hlaw). destruct query as [|[|v rows] complete]; cbn; try done.
  destruct (Z.ltb_spec v 0); [done|]. intros [= <-]. rewrite Z2N.id by done. by eapply Hlaw.
Qed.

Lemma decode_jobs_spec c query c' jobs :
  sql_select_jobs c = (query, c') -> decode_jobs query = Ok jobs ->
  Forall (fun name => name ∈ tb_columns (sql_view c)) job_columns /\ JobsHold (tb_jobs (sql_view c)) jobs.
Proof.
  intros Hq. pose proof (law_jobs c) as Hlaw. rewrite Hq in Hlaw. destruct Hlaw as (_ & _ & _ & Hlaw).
  destruct query as [|rows complete]; cbn; [done|]. intros (jobs' & Hfold & [Hc Hok]%reject_ok)%result_bind_ok.
  apply negb_false_iff in Hc as ->. injection Hok as <-. destruct (Hlaw _ eq_refl) as [[Hcols Htyped] ->].
  split; [done|]. by apply decode_jobs_holds.
Qed.

Lemma decode_leases_spec c query c' jobs leases :
  sql_select_leases c = (query, c') -> decode_leases jobs query = Ok leases ->
  LeasesHold (tb_leases (sql_view c)) leases /\
  (forall u l, leases !! u = Some l -> is_Some (jobs !! lease_job_id l)) /\
  (forall id r, jobs !! id = Some r -> lease_count leases id = if leaseable (sj_state r) then 1 else 0).
Proof.
  intros Hq. pose proof (law_leases c) as Hlaw. rewrite Hq in Hlaw. destruct Hlaw as (_ & _ & _ & Hlaw).
  destruct query as [|rows complete]; cbn; [done|].
  intros (leases' & Hfold & [Hc [Hm Hok]%reject_ok]%reject_ok)%result_bind_ok.
  apply negb_false_iff in Hc as ->. injection Hok as <-. destruct (Hlaw _ eq_refl) as [Htyped Hperm].
  apply negb_false_iff in Hm. pose proof (proj1 (lease_matrix_spec _ _) Hm). apply (decode_leases_holds _ _ _ _ Htyped Hperm) in Hfold as [??].
  done.
Qed.

Lemma select_undisturbed c :
  (forall k, undisturbed c (sql_select_meta k c).2) /\ undisturbed c (sql_select_jobs c).2 /\
  undisturbed c (sql_select_leases c).2.
Proof.
  split_and!; [intros k|..].
  - pose proof (law_meta k c) as Hlaw. destruct (sql_select_meta k c). cbn. unfold undisturbed. tauto.
  - pose proof (law_jobs c) as Hlaw. destruct (sql_select_jobs c). cbn. unfold undisturbed. tauto.
  - pose proof (law_leases c) as Hlaw. destruct (sql_select_leases c). cbn. unfold undisturbed. tauto.
Qed.

(** Decoding reads, and what it accepts is what the tables hold. *)
Lemma decode_state_spec c res revision c' :
  decode_state c = (res, revision, c') ->
  undisturbed c c' /\ forall st, res = Ok st -> Holds (sql_view c) st /\ revision = st_revision st.
Proof.
  unfold decode_state. destruct (select_undisturbed c) as (Hu1 & _ & _). specialize (Hu1 "revision").
  destruct (sql_select_meta "revision" c) as [meta c1] eqn:Hmeta. cbn in Hu1.
  destruct (read_revision meta) as [rev|] eqn:Hrev; [|intros [= <- <- <-]; by split].
  destruct (select_undisturbed c1) as (_ & Hu2 & _).
  destruct (sql_select_jobs c1) as [job_rows c2] eqn:Hj. cbn in Hu2. pose proof (undisturbed_trans _ _ _ Hu1 Hu2) as Hu12.
  destruct (decode_jobs job_rows) as [jobs|] eqn:Hjobs; [|intros [= <- <- <-]; by split].
  destruct (select_undisturbed c2) as (_ & _ & Hu3).
  destruct (sql_select_leases c2) as [lease_rows c3] eqn:Hl. cbn in Hu3. pose proof (undisturbed_trans _ _ _ Hu12 Hu3) as Hu.
  destruct (decode_leases jobs lease_rows) as [leases|] eqn:Hleases; intros [= <- <- <-]; (split; [done|]); [|done].
  intros st [= <-]. split; [|done].
  eapply read_revision_spec in Hmeta; [|done]. eapply decode_jobs_spec in Hj as [Hcols Hj]; [|done].
  eapply decode_leases_spec in Hl as (Hl & Hlj & Hcount); [|done].
  destruct Hu1 as (_ & Hv1 & _), Hu12 as (_ & Hv2 & _). rewrite Hv1 in *. rewrite Hv2 in *. by constructor.
Qed.

(** A write inside the transaction: nothing durable, and on success [g] *)
Definition txn_write (w : C -> bool * C) (g : Tables -> Tables) : Prop :=
  forall c, sql_in_txn c = true ->
  let '(ok, c') := w c in
  sql_durable c' = sql_durable c /\
  (ok = true -> sql_in_txn c' = true /\ sql_view c' = g (sql_view c)).

Lemma txn_write_all {A} (w : A -> C -> bool * C) (g : Tables -> A -> Tables) l :
  (forall x, txn_write (w x) (fun t => g t x)) -> txn_write (write_all w l) (fold_left g l).
Proof.
  intros Hw. induction l as [|x l IH]; intros c Htxn; cbn; [done|].
  pose proof (Hw x c Htxn) as Hx. destruct (w x c) as [[] c1]; [|by destruct Hx].
  destruct Hx as [Hd1 Hx]. destruct Hx as [Htxn1 Hv1]; [done|].
  specialize (IH c1 Htxn1). destruct (write_all w l c1) as [ok c2]. destruct IH as [Hd2 Hok].
  split; [congruence|]. intros [Htxn2 Hv2]%Hok. by rewrite Hv2, Hv1.
Qed.

Lemma txn_write_then w1 g1 w2 g2 :
  txn_write w1 g1 -> txn_write w2 g2 -> txn_write (fun c => and_then w2 (w1 c)) (fun t => g2 (g1 t)).
Proof.
  intros H1 H2 c Htxn. specialize (H1 c Htxn). destruct (w1 c) as [[] c1]; cbn; [|by destruct H1].
  destruct H1 as [Hd1 H1]. destruct H1 as [Htxn1 Hv1]; [done|].
  specialize (H2 c1 Htxn1). destruct (w2 c1) as [ok c2]. destruct H2 as [Hd2 Hok].
  split; [congruence|]. intros [Htxn2 Hv2]%Hok. by rewrite Hv2, Hv1.
Qed.

Lemma write_job_row_txn r : txn_write (write_job_row r) (fun t => write_row t r).
Proof.
  intros c Htxn. unfold write_job_row, write_row. destruct (encode_job_row r) as [row|]; [|done].
  by apply law_replace.
Qed.

Lemma insert_lease_row_txn l : txn_write (insert_lease_row l) (fun t => write_lease t l).
Proof.
  intros c Htxn. unfold insert_lease_row.
  pose proof (law_insert (lease_gpu_uuid l) (i64_of_u64 (lease_job_id l)) c Htxn) as Hlaw.
  destruct (sql_insert_lease _ _ c). naive_solver.
Qed.

(** The writes of [apply] before the commit *)
Lemma write_body_txn m revision :
  txn_write (fun c =>
    and_then (write_revision revision)
      (and_then (write_all insert_lease_row (mu_acquire_leases m))
        (and_then (write_all delete_lease_row (mu_release_leases m))
          (and_then (write_all write_job_row (mu_update_jobs m))
            (write_all write_job_row (mu_create_jobs m) c)))))
    (tables_after m revision).
Proof.
  refine (txn_write_then _ _ _ (update_meta "revision" (i64_of_u64 revision)) _ _);
    [|intros c Htxn; by apply law_update].
  refine (txn_write_then _ (fun t => fold_left erase_lease (mu_release_leases m)
    (fold_left write_row (mu_update_jobs m) (fold_left write_row (mu_create_jobs m) t))) _ _ _
    (txn_write_all _ write_lease _ insert_lease_row_txn)).
  refine (txn_write_then _ (fun t => fold_left write_row (mu_update_jobs m)
    (fold_left write_row (mu_create_jobs m) t)) _ _ _ (txn_write_all _ erase_lease _ _));
    [|intros u c Htxn; by apply law_delete].
  refine (txn_write_then _ _ _ _ (txn_write_all _ write_row _ write_job_row_txn)
    (txn_write_all _ write_row _ write_job_row_txn)).
Qed.

Lemma write_mutation_spec m revision c :
  sql_in_txn c = true ->
  let '(ok, c') := write_mutation m revision c in
  if ok then sql_durable c' = tables_after m revision (sql_view c) /\ sql_in_txn c' = false
  else sql_durable c' = sql_durable c.
Proof.
  intros Htxn. unfold write_mutation. pose proof (write_body_txn m revision c Htxn) as Hbody. cbn beta in Hbody.
  destruct (and_then (write_revision revision) _) as [[] c1]; cbn [and_then]; [|by destruct Hbody].
  destruct Hbody as [Hd1 Hb]. destruct Hb as [Htxn1 Hv1]; [done|].
  pose proof (law_commit c1 Htxn1) as Hlaw. destruct (sql_exec Sql_commit c1) as [[] c2].
  - by rewrite <- Hv1.
  - congruence.
Qed.

Lemma decode_state_coded c error revision c' : decode_state c = (Err error, revision, c') -> error <> SE_kNone.
Proof.
  unfold decode_state. destruct (sql_select_meta "revision" c) as [meta c1].
  destruct (read_revision meta) as [rev|]; [|by intros [= <- _ _]].
  destruct (sql_select_jobs c1) as [job_rows c2]. pose proof (decode_jobs_coded job_rows) as Hj.
  destruct (decode_jobs job_rows) as [jobs|]; [|by intros [= <- _ _]].
  destruct (sql_select_leases c2) as [lease_rows c3]. pose proof (decode_leases_coded jobs lease_rows) as Hl.
  destruct (decode_leases jobs lease_rows) as [leases|]; [done|]. by intros [= <- _ _].
Qed.

Lemma roll_back_spec code revision c w c' :
  roll_back code revision c = (w, c') ->
  w = mkWrite code revision /\ sql_durable c' = sql_durable c /\ sql_in_txn c' = false.
Proof. intros [= <- <-]. split; [done|]. apply law_rollback. Qed.

(** What [apply] leaves in the file, for every behaviour of the engine *)
Definition apply_outcome (config : ValidationConfig) (m : StateMutation) (c : C)
    (w : StateStoreWriteResult) (c' : C) : Prop :=
  (write_ok w = false -> sql_durable c' = sql_durable c) /\
  (write_ok w = true -> exists st st',
     Holds (sql_durable c) st /\ apply_mutation config st m = Ok st' /\ st_revision st' <= int64_max /\
     sql_durable c' = tables_after m (st_revision st') (sql_durable c) /\ wr_revision w = st_revision st') /\
  (sql_in_txn c = false -> sql_in_txn c' = false).

Lemma roll_back_outcome config m code revision c c1 :
  code <> SE_kNone -> sql_durable c1 = sql_durable c ->
  let '(w, c') := roll_back code revision c1 in apply_outcome config m c w c'.
Proof.
  intros Hcode Hd. destruct (roll_back code revision c1) as [w c'] eqn:Hr.
  apply roll_back_spec in Hr as (-> & Hd' & Htxn'). unfold apply_outcome, write_ok. cbn.
  rewrite bool_decide_eq_false_2 by done. split_and!; [congruence|done|done].
Qed.

Lemma apply_open_spec config m c w c' : apply_open config m c = (w, c') -> apply_outcome config m c w c'.
Proof.
  intros Happly. cut (let '(w, c') := apply_open config m c in apply_outcome config m c w c'); [by rewrite Happly|].
  clear w c' Happly. unfold apply_open. pose proof (law_begin c) as Hbegin.
  destruct (sql_exec Sql_begin_immediate c) as [[] c1]; cbn [negb].
  2: { destruct Hbegin as (? & ? & ?). split_and!; [done|done|congruence]. }
  destruct Hbegin as (Hd1 & _ & Htxn1 & Hv1).
  destruct (decode_state c1) as [[decoded revision] c2] eqn:Hdecode.
  destruct (decode_state_spec _ _ _ _ Hdecode) as [(Hd2 & Hv2 & Htxn2) Hholds].
  destruct decoded as [st|error].
  2: { apply roll_back_outcome; [by eapply decode_state_coded|congruence]. }
  destruct (Hholds st eq_refl) as [Hst ->]. rewrite Hv1 in Hst.
  pose proof (apply_mutation_coded config st m) as Hcoded.
  destruct (apply_mutation config st m) as [next|code] eqn:Happ.
  2: { apply roll_back_outcome; [done|congruence]. }
  destruct (N.ltb_spec int64_max (st_revision next)).
  { apply roll_back_outcome; [done|congruence]. }
  pose proof (write_mutation_spec m (st_revision next) c2) as Hwrite.
  destruct (write_mutation m (st_revision next) c2) as [[] c3]; specialize (Hwrite ltac:(congruence)).
  - destruct Hwrite as [Hd3 Htxn3]. split_and!; [done| |done]. intros _.
    exists st, next. split_and!; try done. by rewrite Hd3, Hv2, Hv1.
  - apply roll_back_outcome; [done|congruence].
Qed.

End laws.

Lemma LeasesHold_functional rows leases1 leases2 u l :
  LeasesHold rows leases1 -> LeasesHold rows leases2 -> leases1 !! u = Some l -> leases2 !! u = Some l.
Proof.
  intros [H1 Hb1] [H2 _] Hl. destruct (Hb1 _ _ Hl) as [j Hj].
  destruct (H1 _ _ Hj) as (_ & _ & _ & Hl1), (H2 _ _ Hj) as (_ & _ & _ & Hl2). congruence.
Qed.

Lemma Holds_functional t st1 st2 : Holds t st1 -> Holds t st2 -> st1 = st2.
Proof.
  intros H1 H2. destruct st1 as [rev1 jobs1 leases1] eqn:E1, st2 as [rev2 jobs2 leases2] eqn:E2. f_equal.
  - pose proof (ho_revision _ _ H1) as Hr1. rewrite (ho_revision _ _ H2) in Hr1. cbn in Hr1.
    injection Hr1 as Hr1. lia.
  - apply map_eq. intros id. apply option_eq. intros r.
    split; eapply JobsHold_functional; [apply H1|apply H2|apply H2|apply H1].
  - apply map_eq. intros u. apply option_eq. intros l.
    split; eapply LeasesHold_functional; [apply H1|apply H2|apply H2|apply H1].
Qed.

(** Whatever wrote the file, a state it holds is well-formed: the clauses of
    [StoreOk] but the two capacities and the bound on job revisions. *)
Record LoadedOk (st : StoreState) : Prop := {
  lo_job id r : st_jobs st !! id = Some r ->
    sj_id r = id /\ id <> 0 /\ id <= u64_max /\ SpecOk (sj_spec r) /\
    ExecutionOk (sj_execution r) (sj_state r) (sj_spec r) /\ (sj_revision r = 0 <-> sj_state r = kQueued);
  lo_lease_key u l : st_leases st !! u = Some l -> lease_gpu_uuid l = u /\ uuid_valid u = true;
  lo_lease_job u l : st_leases st !! u = Some l ->
    exists r, st_jobs st !! lease_job_id l = Some r /\ leaseable (sj_state r) = true;
  lo_lease_one id r : st_jobs st !! id = Some r -> leaseable (sj_state r) = true ->
    exists u l, st_leases st !! u = Some l /\ lease_job_id l = id /\
      forall u' l', st_leases st !! u' = Some l' -> lease_job_id l' = id -> u' = u;
}.

Lemma Holds_ok t st : Holds t st -> LoadedOk st.
Proof.
  intros Ht. destruct (ho_jobs _ _ Ht) as [Hrows Hback], (ho_leases _ _ Ht) as [Hlrows Hlback]. constructor.
  - intros id r Hr. destruct (Hback _ _ Hr) as [Hle [row Hrow]].
    destruct (Hrows _ _ Hrow) as (_ & r' & Hdec & Hr'). rewrite u64_of_i64_of_u64 in Hr' by done.
    simplify_eq. destruct (decode_job_row_valid _ _ _ Hdec) as (Hid & ?). rewrite u64_of_i64_of_u64 in Hid by done.
    subst id. naive_solver.
  - intros u l Hl. destruct (Hlback _ _ Hl) as [j Hj]. destruct (Hlrows _ _ Hj) as (_ & Hu & _ & Hl').
    by simplify_eq.
  - intros u l Hl. destruct (ho_lease_job _ _ Ht _ _ Hl) as [r Hr]. exists r. split; [done|].
    pose proof (ho_matrix _ _ Ht _ _ Hr) as Hcount. destruct (leaseable (sj_state r)); [done|].
    by destruct (proj1 (lease_count_zero _ _) Hcount _ _ Hl).
  - intros id r Hr Hlease. pose proof (ho_matrix _ _ Ht _ _ Hr) as Hcount. rewrite Hlease in Hcount.
    apply lease_count_one in Hcount as (u & l & Hl & Hj & Huniq). exists u, l. split_and!; [done..|].
    intros u' l' Hu' Hl'. by apply (Huniq u' l').
Qed.

(** ** An engine that does not fail *)

Section reliable.
Context {C : Type} `{SqliteReliable C}.
Implicit Types c : C.

(** [lockstep] for an engine: a loop of writes goes through when the core's
    loop does. *)
Lemma write_all_succeeds {A B} (P : Tables -> B -> Prop) (Q : A -> Prop)
    (f : B -> A -> Result StateStoreErrorCode B) (g : Tables -> A -> Tables) (w : A -> C -> bool * C) l c b b' :
  (forall x, txn_write (w x) (fun t => g t x)) ->
  (forall t b x b', P t b -> Q x -> f b x = Ok b' -> P (g t x) b') ->
  (forall c b x b', P (sql_view c) b -> Q x -> f b x = Ok b' -> (w x c).1 = true) ->
  Forall Q l -> sql_in_txn c = true -> P (sql_view c) b -> fold_result f b l = Ok b' ->
  exists c', write_all w l c = (true, c') /\ sql_in_txn c' = true /\ sql_view c' = fold_left g l (sql_view c).
Proof.
  intros Htxn Hstep Hgo Hl. revert c b. induction Hl as [|x l Hx _ IH]; intros c b Hin HP; cbn.
  - intros [= <-]. eauto.
  - intros (b1 & Hf & Hrec)%result_bind_ok. pose proof (Hgo c b x b1 HP Hx Hf) as Hok.
    pose proof (Htxn x c Hin) as Hw. destruct (w x c) as [ok c1]. cbn in Hok. subst ok.
    destruct Hw as [_ Hw]. destruct Hw as [Hin1 Hv1]; [done|]. rewrite <- Hv1.
    eapply IH; [done| |done]. rewrite Hv1. by eapply Hstep.
Qed.

Lemma write_job_row_succeeds t0 c jobs r :
  Forall (fun name => name ∈ tb_columns t0) job_columns ->
  rows_track t0 (sql_view c) jobs -> SpecOk (sj_spec r) -> (write_job_row r c).1 = true.
Proof.
  intros Hcols ([_ Hcols0] & _ & Hj) Hs. unfold write_job_row. destruct (encode_job_row_defined _ Hs) as [row ->].
  apply rel_replace. split; [by rewrite Hcols0|by eapply JobsHold_typed].
Qed.

Lemma insert_lease_row_succeeds config t0 c jobs leases l leases' :
  JobsHold (tb_jobs t0) jobs -> leases_track t0 (sql_view c) leases ->
  acquire_lease config jobs leases l = Ok leases' -> (insert_lease_row l c).1 = true.
Proof.
  intros [_ Hjobs] (_ & _ & Hrows & _) (-> & _ & _ & Hnone & Hjob & Huniq & _)%acquire_lease_ok.
  apply leaseable_job_spec in Hjob as (r & [Hle _]%Hjobs & _). apply rel_insert. split.
  - destruct (tb_leases _ !! _) as [j|] eqn:Hj; [|done]. apply Hrows in Hj as (_ & _ & _ & Hj). congruence.
  - intros u' (_ & _ & _ & Hl)%Hrows. rewrite u64_of_i64_of_u64 in Hl by done. by apply Huniq in Hl.
Qed.

(** The writes of a mutation that the core accepts go through. *)
Lemma write_mutation_succeeds config t st m st' c :
  sql_in_txn c = true -> sql_view c = t -> Holds t st ->
  Forall Representable (mu_create_jobs m ++ mu_update_jobs m) -> apply_mutation config st m = Ok st' ->
  (write_mutation m (st_revision st') c).1 = true.
Proof.
  intros Htxn0 Hv0 Ht [Hcreate Hupdate]%Forall_app
    (_ & _ & _ & _ & jobs1 & leases1 & Hc & Hu & Hr & Ha & _ & _)%apply_mutation_inv.
  assert (rows_track t (sql_view c) (st_jobs st)) as H0' by (rewrite Hv0; split; [done|split; [done|apply Ht]]).
  pose proof (ho_columns _ _ Ht) as Hcols. unfold write_mutation.
  destruct (write_all_succeeds _ _ _ _ _ _ _ _ _ write_job_row_txn (create_tracks config t)
    (fun c b x b' HP _ Hok => write_job_row_succeeds t c b x Hcols HP
       (proj1 (proj2 (proj2 (proj2 (proj2 (proj1 (create_job_ok _ _ _ _) Hok))))))) Hcreate Htxn0 H0' Hc)
    as (c1 & -> & Htxn1 & Hv1).
  assert (rows_track t (sql_view c1) jobs1) as H1' by (rewrite Hv1; by eapply lockstep; [apply create_tracks|..]).
  cbn [and_then].
  destruct (write_all_succeeds _ _ _ _ _ _ _ _ _ write_job_row_txn (update_tracks t)
    (fun c b x b' HP _ Hok => write_job_row_succeeds t c b x Hcols HP
       (proj1 (proj2 (proj2 (proj1 (update_job_ok _ _ _) Hok))))) Hupdate Htxn1 H1' Hu)
    as (c2 & -> & Htxn2 & Hv2).
  assert (rows_track t (sql_view c2) (st_jobs st')) as (Hrest2 & Hleases2 & Hjobs2)
    by (rewrite Hv2; by eapply lockstep; [apply update_tracks|..]).
  assert (leases_track (sql_view c2) (sql_view c2) (st_leases st)) as H2'.
  { split; [done|split; [done|]]. rewrite Hleases2. apply Ht. }
  cbn [and_then].
  destruct (write_all_succeeds _ (fun _ => True) _ erase_lease delete_lease_row _ _ _ _ (law_delete)
    (release_tracks (sql_view c2)) (fun c _ x _ _ _ _ => rel_delete x c) (Forall_true _ _ (fun _ => I)) Htxn2 H2' Hr)
    as (c3 & -> & Htxn3 & Hv3).
  assert (leases_track (sql_view c2) (sql_view c3) leases1) as H3'
    by (rewrite Hv3; eapply lockstep; [apply (release_tracks (sql_view c2))|by apply Forall_true|done..]).
  cbn [and_then].
  destruct (write_all_succeeds _ (fun _ => True) _ _ _ _ _ _ _ insert_lease_row_txn
    (fun t b x b' HP => acquire_tracks config (sql_view c2) t (st_jobs st') b x b' Hjobs2 HP)
    (fun c b x b' HP _ Hok => insert_lease_row_succeeds config (sql_view c2) c (st_jobs st') b x b' Hjobs2 HP Hok)
    (Forall_true _ _ (fun _ => I)) Htxn3 H3' Ha) as (c4 & -> & Htxn4 & Hv4).
  cbn [and_then]. unfold write_revision.
  pose proof (rel_update "revision" (i64_of_u64 (st_revision st')) c4) as Hok.
  pose proof (law_update "revision" (i64_of_u64 (st_revision st')) c4 Htxn4) as Hlaw.
  destruct (sql_update_meta _ _ c4) as [ok c5]. cbn in Hok. subst ok. cbn [and_then].
  apply rel_commit. by apply Hlaw.
Qed.

(** Such an engine is read in full. *)
Lemma decode_state_succeeds c st :
  Holds (sql_view c) st -> exists c', decode_state c = (Ok st, st_revision st, c').
Proof.
  intros Ht. unfold decode_state. destruct (rel_meta _ _ _ (ho_revision _ _ Ht)) as [complete Hmeta].
  destruct (select_undisturbed c) as (Hu1 & _ & _). specialize (Hu1 "revision").
  destruct (sql_select_meta "revision" c) as [meta c1]. cbn in Hmeta, Hu1. subst meta.
  destruct Hu1 as (_ & Hv1 & _). cbn. destruct (Z.ltb_spec (Z.of_N (st_revision st)) 0); [lia|].
  rewrite N2Z.id. rewrite <- Hv1 in Ht. clear Hv1 c complete. rename c1 into c.
  assert (jobs_typed (sql_view c)) as Htyped by (split; [apply Ht|eapply JobsHold_typed; apply Ht]).
  destruct (rel_jobs _ Htyped) as [rows Hjobs]. pose proof (law_jobs c) as Hlaw.
  destruct (sql_select_jobs c) as [query c2]. cbn in Hjobs. subst query.
  destruct Hlaw as (_ & Hv2 & _ & Hlaw). destruct (Hlaw _ eq_refl) as [_ ->]. cbn.
  rewrite (proj2 (decode_jobs_holds _ _ (proj2 Htyped)) (ho_jobs _ _ Ht)). cbn.
  rewrite <- Hv2 in Ht. clear Hv2 Htyped Hlaw c. rename c2 into c.
  assert (leases_typed (sql_view c)) as Htyped by (eapply LeasesHold_typed; apply Ht).
  destruct (rel_leases _ Htyped) as [rows Hleases]. pose proof (law_leases c) as Hlaw.
  destruct (sql_select_leases c) as [query c3]. cbn in Hleases. subst query.
  destruct Hlaw as (_ & Hv3 & _ & Hlaw). destruct (Hlaw _ eq_refl) as [_ Hperm]. cbn.
  rewrite (proj2 (decode_leases_holds _ _ (st_leases st) _ Htyped Hperm)) by (split; apply Ht). cbn.
  rewrite (proj2 (lease_matrix_spec _ _)) by apply Ht. cbn. exists c3. by destruct st.
Qed.

Lemma apply_open_reliable config m c st :
  sql_in_txn c = false -> Holds (sql_durable c) st ->
  Forall Representable (mu_create_jobs m ++ mu_update_jobs m) ->
  (apply_open config m c).1 =
  match apply_mutation config st m with
  | Ok next => if int64_max <? st_revision next then mkWrite SE_kInvalidMutation (st_revision st)
               else mkWrite SE_kNone (st_revision next)
  | Err code => mkWrite code (st_revision st)
  end.
Proof.
  intros Hidle Ht Hrep. unfold apply_open. pose proof (rel_begin c Hidle) as Hok. pose proof (law_begin c) as Hlaw.
  destruct (sql_exec Sql_begin_immediate c) as [ok c1]. cbn in Hok. subst ok. cbn [negb].
  destruct Hlaw as (_ & _ & Htxn1 & Hv1). rewrite <- Hv1 in Ht.
  destruct (decode_state_succeeds _ _ Ht) as [c2 Hdecode]. rewrite Hdecode.
  destruct (decode_state_spec _ _ _ _ Hdecode) as [(_ & Hv2 & Htxn2) _].
  destruct (apply_mutation config st m) as [next|code] eqn:Happ; [|done].
  destruct (int64_max <? st_revision next); [done|].
  pose proof (write_mutation_succeeds config _ st m next c2 ltac:(congruence) Hv2 Ht Hrep Happ) as Hwrite.
  destruct (write_mutation m (st_revision next) c2) as [ok c3]. cbn in Hwrite. by subst ok.
Qed.

End reliable.

(** ** The store's contract *)

Section store.
Context {C : Type} `{SqliteLaws C}.
Implicit Types s : SqliteStateStore C.

Definition sq_durable (s : SqliteStateStore C) : Tables := sql_durable (sq_engine s).

(** Between calls no transaction is open. *)
Definition sq_idle (s : SqliteStateStore C) : Prop := sql_in_txn (sq_engine s) = false.

Definition mutation_fits (m : StateMutation) : Prop :=
  Forall Representable (mu_create_jobs m ++ mu_update_jobs m).

Lemma sqlite_apply_spec m s w s' :
  sq_idle s -> sqlite_apply m s = (w, s') ->
  sq_config s' = sq_config s /\ sq_open s' = sq_open s /\ sq_idle s' /\
  if write_ok w then
    exists st st', Holds (sq_durable s) st /\
      apply_mutation (validation_config (sq_config s)) st m = Ok st' /\ wr_revision w = st_revision st' /\
      sq_durable s' = tables_after m (st_revision st') (sq_durable s) /\
      (mutation_fits m -> Holds (sq_durable s') st')
  else sq_durable s' = sq_durable s.
Proof.
  unfold sqlite_apply. intros Hidle. destruct (sq_open s) eqn:Hopen; cbn [negb].
  2: { intros [= <- <-]. done. }
  destruct (apply_open _ m (sq_engine s)) as [w' c'] eqn:Happ. intros [= <- <-].
  apply apply_open_spec in Happ as (Hfail & Hok & Htxn). split_and!; [done|done|by apply Htxn|].
  unfold sq_durable. cbn [sq_engine]. destruct (write_ok w').
  - destruct (Hok eq_refl) as (st & st' & Hst & Hm & Hmax & Hd & Hrev). exists st, st'.
    split_and!; [done..|]. intros Hfits. rewrite Hd. by eapply tables_after_holds.
  - by apply Hfail.
Qed.

Lemma sqlite_load_spec s res s' :
  sq_idle s -> sqlite_load s = (res, s') ->
  sq_config s' = sq_config s /\ sq_open s' = sq_open s /\ sq_idle s' /\ sq_durable s' = sq_durable s /\
  if load_ok res then exists st, Holds (sq_durable s) st /\ lr_snapshot res = snapshot_of st
  else lr_snapshot res = empty_snapshot.
Proof.
  unfold sqlite_load. intros Hidle. destruct (sq_open s) eqn:Hopen; cbn [negb].
  2: { intros [= <- <-]. done. }
  destruct (decode_state (sq_engine s)) as [[decoded revision] c] eqn:Hdecode. intros [= <- <-].
  destruct (decode_state_spec _ _ _ _ Hdecode) as [(Hd & _ & Htxn) Hholds].
  unfold sq_idle, sq_durable in *. cbn [sq_engine sq_config sq_open]. rewrite Htxn, Hd. split_and!; try done.
  destruct decoded as [st|error].
  - unfold load_ok. rewrite bool_decide_eq_true_2 by done. exists st. split; [|done].
    rewrite <- (law_idle _ Hidle). by apply Hholds.
  - unfold load_ok. rewrite bool_decide_eq_false_2; [done|]. by eapply decode_state_coded.
Qed.

(** *** Sessions *)

Inductive sq_op :=
| SQ_apply (m : StateMutation)
| SQ_load.

(** What a call answers *)
Inductive sq_answer :=
| SA_written (w : StateStoreWriteResult)
| SA_loaded (res : StateStoreLoadResult).

Definition sq_call (op : sq_op) (s : SqliteStateStore C) : sq_answer * SqliteStateStore C :=
  match op with
  | SQ_apply m => let '(w, s') := sqlite_apply m s in (SA_written w, s')
  | SQ_load => let '(res, s') := sqlite_load s in (SA_loaded res, s')
  end.

(** Any calls, and their answers *)
Fixpoint sq_session (ops : list sq_op) (s : SqliteStateStore C) : list sq_answer * SqliteStateStore C :=
  match ops with
  | [] => ([], s)
  | op :: ops' =>
      let '(answer, s1) := sq_call op s in
      let '(answers, s2) := sq_session ops' s1 in (answer :: answers, s2)
  end.

(** The abstract store: one state.  An [apply] that is acknowledged does to it
    what the mutation core does with the call's own mutation, and answers with
    the new revision; one that is refused does nothing; a [load] that succeeds
    shows the state, one that fails shows nothing. *)
Definition core_step (config : ValidationConfig) (op : sq_op) (answer : sq_answer) (st st' : StoreState) : Prop :=
  match op, answer with
  | SQ_apply m, SA_written w =>
      if write_ok w then apply_mutation config st m = Ok st' /\ wr_revision w = st_revision st' else st' = st
  | SQ_load, SA_loaded res =>
      st' = st /\ lr_snapshot res = if load_ok res then snapshot_of st else empty_snapshot
  | _, _ => False
  end.

Inductive core_run (config : ValidationConfig) : list sq_op -> list sq_answer -> StoreState -> StoreState -> Prop :=
| core_nil st : core_run config [] [] st st
| core_cons op ops answer answers st st1 st' :
    core_step config op answer st st1 -> core_run config ops answers st1 st' ->
    core_run config (op :: ops) (answer :: answers) st st'.

Definition op_fits (op : sq_op) : Prop := match op with SQ_apply m => mutation_fits m | SQ_load => True end.

Lemma sq_call_spec op s st answer s' :
  sq_idle s -> op_fits op -> Holds (sq_durable s) st -> sq_call op s = (answer, s') ->
  sq_config s' = sq_config s /\ sq_idle s' /\
  exists st', Holds (sq_durable s') st' /\ core_step (validation_config (sq_config s)) op answer st st'.
Proof.
  intros Hidle Hfits Hst. destruct op as [m|]; cbn.
  - destruct (sqlite_apply m s) as [w s1] eqn:Happ. intros [= <- <-].
    apply sqlite_apply_spec in Happ as (Hc & _ & Hi & Hw); [|done]. split_and!; [done..|].
    destruct (write_ok w).
    + destruct Hw as (st0 & st1 & Hst0 & Hm & Hrev & _ & Hst1). rewrite (Holds_functional _ _ _ Hst0 Hst) in Hm.
      exists st1. eauto.
    + exists st. by rewrite Hw.
  - destruct (sqlite_load s) as [res s1] eqn:Hload. intros [= <- <-].
    apply sqlite_load_spec in Hload as (Hc & _ & Hi & Hd & Hres); [|done]. split_and!; [done..|].
    exists st. rewrite Hd. split_and!; [done..|]. destruct (load_ok res); [|done].
    destruct Hres as (st0 & Hst0 & ->). by rewrite (Holds_functional _ _ _ Hst0 Hst).
Qed.

Lemma sq_session_spec ops s st answers s' :
  sq_idle s -> Forall op_fits ops -> Holds (sq_durable s) st -> sq_session ops s = (answers, s') ->
  sq_idle s' /\ exists st', Holds (sq_durable s') st' /\ core_run (validation_config (sq_config s)) ops answers st st'.
Proof.
  intros Hidle Hfits. revert s st answers Hidle. induction Hfits as [|op ops Hop _ IH]; intros s st answers Hidle Hst; cbn.
  { intros [= <- <-]. split; [done|]. exists st. split; [done|constructor]. }
  destruct (sq_call op s) as [answer s1] eqn:Hcall. destruct (sq_session ops s1) as [answers' s2] eqn:Hrec.
  intros [= <- <-]. destruct (sq_call_spec _ _ _ _ _ Hidle Hop Hst Hcall) as (Hc & Hi & st1 & Hst1 & Hstep).
  destruct (IH s1 st1 answers' Hi Hst1 Hrec) as (Hi2 & st2 & Hst2 & Hrun). rewrite Hc in Hrun.
  split; [done|]. exists st2. split; [done|]. by econstructor.
Qed.

End store.

(** ** Opening and migrating *)

(** The scripts that a file of schema version [v] goes through *)
Definition migrate_tables (v : Z) (t : Tables) : option Tables :=
  t1 ← (if (v =? 1)%Z then migration_v1_to_v2 t else Some t);
  t2 ← (if (v <=? 2)%Z then migration_v2_to_v3 t1 else Some t1);
  if (v <=? 3)%Z then migration_v3_to_v4 t2 else Some t2.

(** What becomes of a row of a file of version [v] *)
Definition migrated_row (v : Z) (row : JobRow) : JobRow :=
  let row1 := if (v =? 1)%Z
    then {| row with jr_executable := None; jr_environment_type := None; jr_python_version := None |} else row in
  let row2 := if (v <=? 2)%Z
    then {| row1 with jr_gpu_placement_mode := None; jr_gpu_placement_device := None |} else row1 in
  if (v <=? 3)%Z then backfill_devices {| row2 with jr_gpu_placement_devices := None |} else row2.

(** The columns of [yori_jobs] in version [v] *)
Definition columns_of (v : Z) : list string :=
  v1_columns ++ (if (v =? 1)%Z then [] else ["executable"; "environment_type"; "python_version"])
             ++ (if (v <=? 2)%Z then [] else ["gpu_placement_mode"; "gpu_placement_device"])
             ++ (if (v <=? 3)%Z then [] else ["gpu_placement_devices"]).

Lemma add_column_some name blank t t' :
  add_column name blank t = Some t' <->
  name ∉ tb_columns t /\ t' = {| t with tb_columns := tb_columns t ++ [name]; tb_jobs := blank <$> tb_jobs t |}.
Proof. unfold add_column. case_bool_decide; naive_solver. Qed.

Lemma migration_v1_to_v2_some t t' :
  migration_v1_to_v2 t = Some t' ->
  tb_columns t' = tb_columns t ++ ["executable"; "environment_type"; "python_version"] /\
  tb_jobs t' = (fun row => {| row with jr_executable := None; jr_environment_type := None;
                                       jr_python_version := None |}) <$> tb_jobs t /\
  tb_leases t' = tb_leases t /\ tb_meta t' = alter (fun _ => 2%Z) "schema_version" (tb_meta t).
Proof.
  unfold migration_v1_to_v2. intros (t1 & (_ & ->)%add_column_some & (t2 & (_ & ->)%add_column_some &
    (t3 & (_ & ->)%add_column_some & [= <-])%bind_Some)%bind_Some)%bind_Some.
  cbn. rewrite <- !app_assoc, <- !map_fmap_compose. done.
Qed.

Lemma migration_v2_to_v3_some t t' :
  migration_v2_to_v3 t = Some t' ->
  tb_columns t' = tb_columns t ++ ["gpu_placement_mode"; "gpu_placement_device"] /\
  tb_jobs t' = (fun row => {| row with jr_gpu_placement_mode := None; jr_gpu_placement_device := None |}) <$> tb_jobs t /\
  tb_leases t' = tb_leases t /\ tb_meta t' = alter (fun _ => 3%Z) "schema_version" (tb_meta t).
Proof.
  unfold migration_v2_to_v3. intros (t1 & (_ & ->)%add_column_some & (t2 & (_ & ->)%add_column_some &
    [= <-])%bind_Some)%bind_Some.
  cbn. rewrite <- !app_assoc, <- !map_fmap_compose. done.
Qed.

Lemma migration_v3_to_v4_some t t' :
  migration_v3_to_v4 t = Some t' ->
  tb_columns t' = tb_columns t ++ ["gpu_placement_devices"] /\
  tb_jobs t' = (fun row => backfill_devices {| row with jr_gpu_placement_devices := None |}) <$> tb_jobs t /\
  tb_leases t' = tb_leases t /\ tb_meta t' = alter (fun _ => 4%Z) "schema_version" (tb_meta t).
Proof.
  unfold migration_v3_to_v4. intros (t1 & (_ & ->)%add_column_some & [= <-])%bind_Some.
  cbn. rewrite <- !map_fmap_compose. done.
Qed.

Lemma alter_const_id {K A} `{Countable K} (m : gmap K A) k v w :
  alter (fun _ => v) k (alter (fun _ => w) k m) = alter (fun _ => v) k m.
Proof.
  apply map_eq. intros j. destruct (decide (j = k)) as [->|Hne].
  - rewrite !lookup_alter_eq. by destruct (m !! k).
  - by rewrite !lookup_alter_ne.
Qed.

Lemma columns_extend (columns l1 l2 : list string) :
  Forall (fun name => name ∈ columns) l1 -> Forall (fun name => name ∈ columns ++ l2) (l1 ++ l2).
Proof. rewrite !Forall_forall. set_solver. Qed.

(** The migrated file: every row kept with its new columns filled in, the
    leases and the revision untouched *)
Lemma migrate_tables_spec v t t' :
  (1 <= v <= 4)%Z -> tb_meta t !! "schema_version" = Some v -> migrate_tables v t = Some t' ->
  tb_jobs t' = migrated_row v <$> tb_jobs t /\ tb_leases t' = tb_leases t /\
  tb_meta t' = <["schema_version" := 4%Z]> (tb_meta t) /\
  (Forall (fun name => name ∈ tb_columns t) (columns_of v) ->
   Forall (fun name => name ∈ tb_columns t') job_columns).
Proof.
  intros Hv Hmeta. assert (forall w, alter (fun _ => w) "schema_version" (tb_meta t) = <["schema_version" := w]> (tb_meta t)) as Halter.
  { intros w. apply map_eq. intros k. destruct (decide (k = "schema_version")) as [->|Hne].
    - by rewrite lookup_alter_eq, Hmeta, lookup_insert_eq.
    - by rewrite lookup_alter_ne, lookup_insert_ne. }
  assert (v = 1 \/ v = 2 \/ v = 3 \/ v = 4)%Z as Hcases by lia. unfold migrate_tables, migrated_row, columns_of, job_columns.
  destruct Hcases as [-> | [-> | [-> | ->]]]; cbn [Z.eqb Z.leb Z.compare Pos.eqb Pos.compare Pos.compare_cont mbind option_bind].
  - intros (t1 & (Hc1 & Hj1 & Hl1 & Hm1)%migration_v1_to_v2_some & (t2 & (Hc2 & Hj2 & Hl2 & Hm2)%migration_v2_to_v3_some &
      (Hc3 & Hj3 & Hl3 & Hm3)%migration_v3_to_v4_some)%bind_Some)%bind_Some.
    rewrite Hj3, Hj2, Hj1, <- !map_fmap_compose, Hl3, Hl2, Hl1, Hm3, Hm2, Hm1, !alter_const_id, Halter.
    split_and!; [done..|]. rewrite Hc3, Hc2, Hc1, <- !app_assoc. apply columns_extend.
  - intros (t2 & (Hc2 & Hj2 & Hl2 & Hm2)%migration_v2_to_v3_some & (Hc3 & Hj3 & Hl3 & Hm3)%migration_v3_to_v4_some)%bind_Some.
    rewrite Hj3, Hj2, <- !map_fmap_compose, Hl3, Hl2, Hm3, Hm2, !alter_const_id, Halter.
    split_and!; [done..|]. rewrite Hc3, Hc2, <- !app_assoc. apply (columns_extend _ (columns_of 2)).
  - intros (Hc3 & Hj3 & Hl3 & Hm3)%migration_v3_to_v4_some. rewrite Hj3, Hl3, Hm3, Halter.
    split_and!; [done..|]. rewrite Hc3. apply (columns_extend _ (columns_of 3)).
  - intros [= <-]. rewrite map_fmap_id, insert_id by done. done.
Qed.

(** How the rows of older files are read: no context and any device before
    version 3, and the one required device of version 3 as a set of one *)
Lemma migrated_placement v row :
  (1 <= v <= 3)%Z ->
  decode_placement (migrated_row v row) =
  if (v <=? 2)%Z then Ok (mkGpuPlacement GPM_kAny [])
  else
    let mode := default "any" (jr_gpu_placement_mode row) in
    match jr_gpu_placement_device row with
    | None => if bool_decide (mode = "any") then Ok (mkGpuPlacement GPM_kAny []) else Err SE_kInvalidJob
    | Some d =>
        if bool_decide (mode = "required") then decode_required d d
        else if bool_decide (mode = "preferred") && uuid_valid d then Ok (mkGpuPlacement GPM_kPreferred [d])
        else Err SE_kInvalidJob
    end.
Proof.
  intros Hv. assert (v = 1 \/ v = 2 \/ v = 3)%Z as [-> | [-> | ->]] by lia; [done..|].
  unfold migrated_row, backfill_devices, decode_placement. cbn [Z.eqb Z.leb Z.compare Pos.eqb Pos.compare
    Pos.compare_cont jr_gpu_placement_mode jr_gpu_placement_device jr_gpu_placement_devices].
  destruct (jr_gpu_placement_mode row) as [mode|]; [|by destruct (jr_gpu_placement_device row)]. cbn [default].
  destruct (decide (mode = "any")) as [->|Hany]; [by destruct (jr_gpu_placement_device row)|].
  destruct (decide (mode = "required")) as [->|Hreq]; [by destruct (jr_gpu_placement_device row)|].
  destruct (decide (mode = "preferred")) as [->|Hpref].
  { destruct (jr_gpu_placement_device row) as [d|]; [|done].
    transitivity (if negb (uuid_valid d) then Err SE_kInvalidJob else Ok (mkGpuPlacement GPM_kPreferred [d]));
      [done|by destruct (uuid_valid d)]. }
  rewrite (bool_decide_eq_false_2 (Some mode = _)) by congruence. cbn.
  rewrite !bool_decide_eq_false_2 by done. by destruct (jr_gpu_placement_device row).
Qed.

Definition script_step (t t' : Tables) : Prop := exists script, script_effect script t = Some t'.

Section opening.
Context {C : Type} `{SqliteLaws C}.
Implicit Types (c : C) (s : SqliteStateStore C).

Lemma migrate_step_spec from script label v c :
  sql_in_txn c = false -> script ∉ [Sql_begin_immediate; Sql_commit; Sql_rollback] ->
  let '(r, c') := migrate_step from script label v c in
  rtc script_step (sql_durable c) (sql_durable c') /\
  match r with
  | Ok v' => sql_in_txn c' = false /\
      if (v =? from)%Z then v' = (from + 1)%Z /\ script_effect script (sql_durable c) = Some (sql_durable c')
      else v' = v /\ sql_durable c' = sql_durable c
  | Err _ => True
  end.
Proof.
  intros Hidle Hscript. unfold migrate_step. destruct (v =? from)%Z; [|done].
  pose proof (law_script script c Hidle Hscript) as Hlaw. destruct (sql_exec script c) as [[] c1].
  - destruct Hlaw as [Heff Htxn]. split; [apply rtc_once; by exists script|done].
  - by rewrite Hlaw.
Qed.

Lemma migrate_schema_spec v c :
  sql_in_txn c = false ->
  let '(r, c') := migrate_schema v c in
  rtc script_step (sql_durable c) (sql_durable c') /\
  (r = Ok 4%Z -> (1 <= v <= 4)%Z /\ sql_in_txn c' = false /\ migrate_tables v (sql_durable c) = Some (sql_durable c')).
Proof.
  intros Hidle. unfold migrate_schema.
  pose proof (migrate_step_spec 1 Sql_migration_v1_to_v2 "v1->v2 migration failed: " v c Hidle ltac:(set_solver)) as H1'.
  destruct (migrate_step 1 _ _ v c) as [[v1|] c1]; destruct H1' as [Hr1 H1']; [|done]. destruct H1' as [Hi1 H1'].
  pose proof (migrate_step_spec 2 Sql_migration_v2_to_v3 "v2->v3 migration failed: " v1 c1 Hi1 ltac:(set_solver)) as H2'.
  destruct (migrate_step 2 _ _ v1 c1) as [[v2|] c2]; destruct H2' as [Hr2 H2']; [|split; [by etrans|done]].
  destruct H2' as [Hi2 H2'].
  pose proof (migrate_step_spec 3 Sql_migration_v3_to_v4 "v3->v4 migration failed: " v2 c2 Hi2 ltac:(set_solver)) as H3'.
  destruct (migrate_step 3 _ _ v2 c2) as [r c3]. destruct H3' as [Hr3 H3'].
  split; [etrans; [done|by etrans]|]. intros ->. destruct H3' as [Hi3 H3']. unfold migrate_tables.
  destruct (Z.eqb_spec v 1); destruct H1' as [-> H1'].
  { subst v. cbn in *. destruct H2' as [-> H2']. cbn in *. destruct H3' as [_ H3'].
    by rewrite H1'; cbn; rewrite H2'. }
  destruct (Z.eqb_spec v 2); destruct H2' as [-> H2'].
  { subst v. cbn in *. destruct H3' as [_ H3']. rewrite H1' in H2'. by rewrite H2'. }
  destruct (Z.eqb_spec v 3); destruct H3' as [? H3'].
  { subst v. cbn in *. rewrite H2', H1' in H3'. done. }
  subst v. cbn. split_and!; [lia|lia|done|]. congruence.
Qed.

(** What [open] promises: on success the file has been migrated from its version,
    on failure it has been through whole scripts only and the store is closed. *)
Definition open_outcome (t : Tables) (s : SqliteStateStore C) (res : SqliteStoreOpenResult)
    (s' : SqliteStateStore C) : Prop :=
  sq_config s' = sq_config s /\ sq_open s' = open_ok res /\ rtc script_step t (sq_durable s') /\
  (open_ok res = true -> sq_idle s' /\ exists v, (1 <= v <= 4)%Z /\
     tb_meta (schema_sql t) !! "schema_version" = Some v /\ migrate_tables v (schema_sql t) = Some (sq_durable s')).

Lemma schema_failed_outcome t detail s c :
  rtc script_step t (sql_durable c) -> let '(res, s') := schema_failed detail s c in open_outcome t s res s'.
Proof.
  intros Hr. destruct (schema_failed detail s c) as [res s'] eqn:Hfail. unfold schema_failed in Hfail.
  injection Hfail as <- <-. unfold open_outcome, sq_durable, open_ok. cbn. rewrite (proj1 (law_close c)). done.
Qed.

Lemma open_schema_spec s c :
  sql_in_txn c = false -> let '(res, s') := open_schema s c in open_outcome (sql_durable c) s res s'.
Proof.
  intros Hidle. unfold open_schema. pose proof (law_script Sql_schema c Hidle ltac:(set_solver)) as Hlaw.
  destruct (sql_exec Sql_schema c) as [[] c1]; cbn [negb].
  2: { apply schema_failed_outcome. by rewrite Hlaw. }
  destruct Hlaw as [Heff Hi1]. assert (rtc script_step (sql_durable c) (sql_durable c1)) as Hr1
    by (apply rtc_once; by exists Sql_schema). injection Heff as Heff.
  pose proof (law_meta "schema_version" c1) as Hmeta.
  destruct (sql_select_meta "schema_version" c1) as [query c2]. destruct Hmeta as (Hd2 & Hv2 & Hi2 & Hmeta).
  rewrite <- Hd2 in Hr1. destruct query as [|[|v rows] complete]; [by apply schema_failed_outcome..|].
  specialize (Hmeta _ _ _ eq_refl). rewrite law_idle in Hmeta by done.
  pose proof (migrate_schema_spec v c2 ltac:(congruence)) as Hmig.
  destruct (migrate_schema v c2) as [[version|] c3]; destruct Hmig as [Hr3 Hmig];
    [|apply schema_failed_outcome; by etrans].
  destruct (Z.eqb_spec version 4) as [->|]; cbn [negb]; [|apply schema_failed_outcome; by etrans].
  destruct (Hmig eq_refl) as (Hv & Hi3 & Htables). split_and!; [done|done|unfold sq_durable; cbn; by etrans|].
  intros _. split; [done|]. exists v. rewrite Heff, <- Hd2. split_and!; [lia|lia|by rewrite Hd2|done].
Qed.

Lemma sqlite_open_spec host s res s' :
  sq_open s = false -> sqlite_open host s = (res, s') -> open_outcome (sq_durable s) s res s'.
Proof.
  intros Hclosed Hopen. cut (let '(res, s') := sqlite_open host s in open_outcome (sq_durable s) s res s'); [by rewrite Hopen|].
  clear res s' Hopen. unfold sqlite_open. rewrite Hclosed.
  assert (forall res, open_ok res = false -> open_outcome (sq_durable s) s res s) as Hkeep.
  { intros res Hres. unfold open_outcome. rewrite Hres, Hclosed. split_and!; done. }
  destruct (_ || _); [by apply Hkeep|]. destruct (oh_symlink host); [by apply Hkeep|].
  destruct (oh_library host); cbn [negb]; [|by apply Hkeep]. destruct (find_first _ _); [by apply Hkeep|].
  pose proof (law_open (sq_engine s)) as Hlaw. destruct (sql_open_v2 (sq_engine s)) as [[] c]; cbn [negb].
  - destruct Hlaw as [Hd Hi]. specialize (Hi eq_refl). pose proof (open_schema_spec s c Hi) as Hschema.
    unfold sq_durable at 1. by rewrite <- Hd.
  - destruct Hlaw as [Hd _]. unfold open_outcome, sq_durable. cbn. split_and!; [done|done| |done].
    case_match; rewrite ?(proj1 (law_close c)), Hd; done.
Qed.

End opening.

(** ** Engines *)

(** A file and at most one transaction on it: every call does what its SQL says. *)
Record FileDb := mkFileDb {
  fd_durable : Tables;
  fd_txn : option Tables;
}.

Definition fd_view (f : FileDb) : Tables := default (fd_durable f) (fd_txn f).

Definition fd_write (g : Tables -> Tables) (f : FileDb) : FileDb :=
  match fd_txn f with
  | Some t => mkFileDb (fd_durable f) (Some (g t))
  | None => mkFileDb (g (fd_durable f)) None
  end.

Definition fd_exec (script : SqlScript) (f : FileDb) : bool * FileDb :=
  match script, fd_txn f with
  | Sql_begin_immediate, None => (true, mkFileDb (fd_durable f) (Some (fd_durable f)))
  | Sql_commit, Some t => (true, mkFileDb t None)
  | Sql_rollback, txn => (bool_decide (is_Some txn), mkFileDb (fd_durable f) None)
  | _, Some _ => (false, f)
  | _, None => match script_effect script (fd_durable f) with
               | Some t => (true, mkFileDb t None)
               | None => (false, f)
               end
  end.

#[export] Instance lease_insertable_dec u j t : Decision (lease_insertable u j t).
Proof.
  refine (cast_if_and (decide (tb_leases t !! u = None)) (decide (map_Forall (fun _ j' => j' <> j) (tb_leases t))));
    abstract (unfold lease_insertable, map_Forall in *; naive_solver).
Defined.

#[export] Instance FileDb_sqlite : Sqlite FileDb := {|
  sql_open_v2 f := (true, mkFileDb (fd_durable f) None);
  sql_close_v2 f := mkFileDb (fd_durable f) None;
  sql_errmsg _ := Some "not an error";
  sql_exec := fd_exec;
  sql_select_meta k f := (Stepped (option_list (tb_meta (fd_view f) !! k)) true, f);
  sql_select_jobs f :=
    (if decide (jobs_typed (fd_view f)) then Stepped (map_entries (tb_jobs (fd_view f))) true else NotPrepared, f);
  sql_select_leases f :=
    (if decide (leases_typed (fd_view f))
     then Stepped ((fun x => (Some x.1, x.2)) <$> map_to_list (tb_leases (fd_view f))) true else NotPrepared, f);
  sql_replace_job k row f := if decide (jobs_typed (fd_view f)) then (true, fd_write (with_row k row) f) else (false, f);
  sql_delete_lease u f := (true, fd_write (without_lease u) f);
  sql_insert_lease u j f :=
    if decide (lease_insertable u j (fd_view f)) then (true, fd_write (with_lease u j) f) else (false, f);
  sql_update_meta k v f := (true, fd_write (update_meta k v) f);
|}.

#[export] Instance FileDb_laws : SqliteLaws FileDb.
Proof.
  refine {| sql_durable := fd_durable; sql_view := fd_view; sql_in_txn f := bool_decide (is_Some (fd_txn f)) |}.
  - by intros [d [t|]].
  - by intros [d txn].
  - by intros [d txn].
  - by intros [d [t|]].
  - by intros [d [t|]].
  - by intros [d [t|]].
  - intros script [d txn] Hidle Hscript. cbn in *. apply bool_decide_eq_false, eq_None_not_Some in Hidle as ->.
    unfold fd_exec. cbn [fd_txn]. destruct script; try (by destruct Hscript; set_solver);
      destruct (script_effect _ d) eqn:Heff; try done; cbn in *; rewrite ?Heff; naive_solver.
  - intros k [d txn]. cbn. split_and!; try done. intros v rows complete.
    destruct (tb_meta _ !! k); cbn; naive_solver.
  - intros [d txn]. cbn. split_and!; try done. intros rows. destruct (decide _); naive_solver.
  - intros [d txn]. cbn. split_and!; try done. intros rows. destruct (decide _); naive_solver.
  - intros k row [d [t|]]; cbn; [|done]. intros _. by destruct (decide _).
  - by intros u [d [t|]].
  - intros u j [d [t|]]; cbn; [|done]. intros _. by destruct (decide _).
  - by intros k v [d [t|]].
Defined.

#[export] Instance FileDb_reliable : SqliteReliable FileDb.
Proof.
  constructor; try done.
  - by intros [d [t|]].
  - by intros [d [t|]].
  - intros k f v Hv. exists true. cbn in *. by rewrite Hv.
  - intros f Htyped. cbn in *. rewrite decide_True by done. eauto.
  - intros f Htyped. cbn in *. rewrite decide_True by done. eauto.
  - intros k row f Htyped. cbn in *. by rewrite decide_True.
  - intros u j f Hins. cbn in *. by rewrite decide_True.
Qed.

(** An engine that fails when a script of faults says so *)
Record Faulty (C : Type) := mkFaulty {
  fy_engine : C;
  fy_faults : list bool;
}.
Arguments mkFaulty {C}.
Arguments fy_engine {C}.
Arguments fy_faults {C}.

Definition faulty {C A} (bad : A) (op : C -> A * C) (f : Faulty C) : A * Faulty C :=
  match fy_faults f with
  | true :: faults => (bad, mkFaulty (fy_engine f) faults)
  | faults => let '(a, c) := op (fy_engine f) in (a, mkFaulty c (tail faults))
  end.

#[export] Instance Faulty_sqlite {C} `{Sqlite C} : Sqlite (Faulty C) := {|
  sql_open_v2 := faulty false sql_open_v2;
  sql_close_v2 f := mkFaulty (sql_close_v2 (fy_engine f)) (fy_faults f);
  sql_errmsg f := sql_errmsg (fy_engine f);
  sql_exec script f :=
    match script with
    | Sql_rollback => let '(ok, c) := sql_exec script (fy_engine f) in (ok, mkFaulty c (fy_faults f))
    | _ => faulty false (sql_exec script) f
    end;
  sql_select_meta k := faulty NotPrepared (sql_select_meta k);
  sql_select_jobs := faulty NotPrepared sql_select_jobs;
  sql_select_leases := faulty NotPrepared sql_select_leases;
  sql_replace_job k row := faulty false (sql_replace_job k row);
  sql_delete_lease u := faulty false (sql_delete_lease u);
  sql_insert_lease u j := faulty false (sql_insert_lease u j);
  sql_update_meta k v := faulty false (sql_update_meta k v);
|}.

(** A call of the faulty engine is a call of the engine or a failure that does
    nothing. *)
Lemma faulty_cases {C A} (bad : A) (op : C -> A * C) (f : Faulty C) (P : A -> C -> Prop) :
  P bad (fy_engine f) -> (let '(a, c) := op (fy_engine f) in P a c) ->
  let '(a, f') := faulty bad op f in P a (fy_engine f').
Proof.
  intros Hbad Hop. unfold faulty. destruct (fy_faults f) as [|[] faults]; try done; by destruct (op (fy_engine f)).
Qed.

(** The shapes of the laws: [R] relates the engine before and after. *)
Lemma faulty_law {C A} (bad : A) (op : C -> A * C) (R : C -> A -> C -> Prop) :
  (forall c, R c bad c) -> (forall c, let '(a, c') := op c in R c a c') ->
  forall f, let '(a, f') := faulty bad op f in R (fy_engine f) a (fy_engine f').
Proof. intros Hbad Hop f. apply faulty_cases; [done|apply Hop]. Qed.

#[export] Instance Faulty_laws {C} `{SqliteLaws C} : SqliteLaws (Faulty C).
Proof.
  refine {| sql_durable f := sql_durable (fy_engine f); sql_view f := sql_view (fy_engine f);
            sql_in_txn f := sql_in_txn (fy_engine f) |}.
  - intros f. apply law_idle.
  - exact (faulty_law false sql_open_v2 (fun c ok c' => sql_durable c' = sql_durable c /\ (ok = true -> sql_in_txn c' = false))
      (fun c => conj eq_refl (fun e => match Bool.diff_false_true e with end)) law_open).
  - intros f. apply law_close.
  - apply (faulty_law false (sql_exec Sql_begin_immediate) (fun c ok c' => sql_durable c' = sql_durable c /\
      if ok then sql_in_txn c = false /\ sql_in_txn c' = true /\ sql_view c' = sql_durable c
      else sql_in_txn c' = sql_in_txn c /\ sql_view c' = sql_view c)); [done|apply law_begin].
  - intros f Htxn. apply (faulty_cases false (sql_exec Sql_commit) f (fun ok c' =>
      if ok then sql_durable c' = sql_view (fy_engine f) /\ sql_in_txn c' = false
      else sql_durable c' = sql_durable (fy_engine f))); [done|by apply law_commit].
  - intros f. cbn. pose proof (law_rollback (fy_engine f)) as Hlaw.
    by destruct (sql_exec Sql_rollback (fy_engine f)).
  - intros script f Hidle Hscript. assert (sql_exec script f = faulty false (sql_exec script) f) as ->.
    { destruct script; try done. by destruct Hscript; set_solver. }
    apply (faulty_cases false (sql_exec script) f (fun ok c' =>
      if ok then script_effect script (sql_durable (fy_engine f)) = Some (sql_durable c') /\ sql_in_txn c' = false
      else sql_durable c' = sql_durable (fy_engine f))); [done|by apply law_script].
  - intros k. apply (faulty_law NotPrepared (sql_select_meta k) (fun c query c' =>
      sql_durable c' = sql_durable c /\ sql_view c' = sql_view c /\ sql_in_txn c' = sql_in_txn c /\
      forall v rows complete, query = Stepped (v :: rows) complete -> tb_meta (sql_view c) !! k = Some v));
      [done|apply law_meta].
  - apply (faulty_law NotPrepared sql_select_jobs (fun c query c' =>
      sql_durable c' = sql_durable c /\ sql_view c' = sql_view c /\ sql_in_txn c' = sql_in_txn c /\
      forall rows, query = Stepped rows true ->
        jobs_typed (sql_view c) /\ rows = map_entries (tb_jobs (sql_view c)))); [done|apply law_jobs].
  - apply (faulty_law NotPrepared sql_select_leases (fun c query c' =>
      sql_durable c' = sql_durable c /\ sql_view c' = sql_view c /\ sql_in_txn c' = sql_in_txn c /\
      forall rows, query = Stepped rows true -> leases_typed (sql_view c) /\
        rows ≡ₚ (fun x => (Some x.1, x.2)) <$> map_to_list (tb_leases (sql_view c)))); [done|apply law_leases].
  - intros k row f Htxn. apply (faulty_cases false (sql_replace_job k row) f (fun ok c' =>
      sql_durable c' = sql_durable (fy_engine f) /\
      (ok = true -> sql_in_txn c' = true /\ sql_view c' = with_row k row (sql_view (fy_engine f)))));
      [done|by apply law_replace].
  - intros u f Htxn. apply (faulty_cases false (sql_delete_lease u) f (fun ok c' =>
      sql_durable c' = sql_durable (fy_engine f) /\
      (ok = true -> sql_in_txn c' = true /\ sql_view c' = without_lease u (sql_view (fy_engine f)))));
      [done|by apply law_delete].
  - intros u j f Htxn. apply (faulty_cases false (sql_insert_lease u j) f (fun ok c' =>
      sql_durable c' = sql_durable (fy_engine f) /\
      (ok = true -> lease_insertable u j (sql_view (fy_engine f)) /\ sql_in_txn c' = true /\
         sql_view c' = with_lease u j (sql_view (fy_engine f))))); [done|by apply law_insert].
  - intros k v f Htxn. apply (faulty_cases false (sql_update_meta k v) f (fun ok c' =>
      sql_durable c' = sql_durable (fy_engine f) /\
      (ok = true -> sql_in_txn c' = true /\ sql_view c' = update_meta k v (sql_view (fy_engine f)))));
      [done|by apply law_update].
Defined.

(** ** Theorems *)

(** A file with a row that cannot be read *)
Definition poisoned (t : Tables) : Prop :=
  exists k row, tb_jobs t !! k = Some row /\ is_ok (decode_job_row k row) = false.

Lemma poisoned_holds t st : poisoned t -> ~ Holds t st.
Proof.
  intros (k & row & Hrow & Hbad) Ht. apply (ho_jobs _ _ Ht) in Hrow as (_ & r & Hok & _). by rewrite Hok in Hbad.
Qed.

Lemma tables_after_jobs m revision t :
  tb_jobs (tables_after m revision t) =
  tb_jobs (fold_left write_row (mu_update_jobs m) (fold_left write_row (mu_create_jobs m) t)).
Proof.
  unfold tables_after. cbn. set (t1 := fold_left write_row _ _).
  assert (forall l t, tb_jobs (fold_left write_lease l t) = tb_jobs t) as Hw.
  { induction l as [|x l IH]; intros t'; cbn; [done|]. by rewrite IH. }
  assert (forall l t, tb_jobs (fold_left erase_lease l t) = tb_jobs t) as He.
  { induction l as [|x l IH]; intros t'; cbn; [done|]. by rewrite IH. }
  by rewrite Hw, He.
Qed.

Section poison.
Context {C : Type} `{SqliteLaws C}.
Implicit Types s : SqliteStateStore C.

(** The call failed. *)
Definition answer_failed (answer : sq_answer) : Prop :=
  match answer with SA_written w => write_ok w = false | SA_loaded res => load_ok res = false end.

(** No call repairs such a file, and none succeeds. *)
Lemma poisoned_call op s answer s' :
  sq_idle s -> poisoned (sq_durable s) -> sq_call op s = (answer, s') ->
  answer_failed answer /\ sq_idle s' /\ sq_durable s' = sq_durable s.
Proof.
  intros Hidle Hp. destruct op as [m|]; cbn.
  - destruct (sqlite_apply m s) as [w s1] eqn:Happ. intros [= <- <-].
    apply sqlite_apply_spec in Happ as (_ & _ & Hi & Hw); [|done]. cbn.
    destruct (write_ok w); [|done]. destruct Hw as (st & _ & Hst & _). by apply poisoned_holds in Hst.
  - destruct (sqlite_load s) as [res s1] eqn:Hload. intros [= <- <-]. cbn.
    apply sqlite_load_spec in Hload as (_ & _ & Hi & Hd & Hres); [|done].
    destruct (load_ok res); [|done]. destruct Hres as (st & Hst & _). by apply poisoned_holds in Hst.
Qed.

Lemma poisoned_session ops s answers s' :
  sq_idle s -> poisoned (sq_durable s) -> sq_session ops s = (answers, s') ->
  Forall answer_failed answers /\ sq_durable s' = sq_durable s.
Proof.
  revert s answers. induction ops as [|op ops IH]; intros s answers Hidle Hp; cbn.
  - intros [= <- <-]. by split.
  - destruct (sq_call op s) as [answer s1] eqn:Hcall. destruct (sq_session ops s1) as [answers' s2] eqn:Hrec.
    intros [= <- <-]. apply poisoned_call in Hcall as (Ha & Hi & Hd); [|done..].
    destruct (IH s1 answers' Hi ltac:(by rewrite Hd) Hrec) as [Hf ->]. split; [by constructor|done].
Qed.

End poison.

Section theorems.
Context {C : Type} `{SqliteLaws C}.
Implicit Types s : SqliteStateStore C.

(** C6. The store is durable and atomic.  Whatever calls of [apply] and [load] are
    made between two transactions on a store whose file encodes a state, and
    wherever the engine fails, as long as the records fit their columns: the
    calls and their answers are a run of the abstract store from that state, and
    the file encodes the state this run ends in.  In such a run an acknowledged
    [apply] does exactly what the mutation core does with the mutation it was
    given and answers with the new revision, a refused one leaves the state as
    it was, and a [load] shows the state or fails with an empty snapshot. *)
Theorem sqlite_session ops s st answers s' :
  sq_idle s -> Forall op_fits ops -> Holds (sq_durable s) st -> sq_session ops s = (answers, s') ->
  exists st', Holds (sq_durable s') st' /\ core_run (validation_config (sq_config s)) ops answers st st'.
Proof. intros Hi Hf Hst Hs. exact (proj2 (sq_session_spec _ _ _ _ _ Hi Hf Hst Hs)). Qed.

(** C36. A load never shows a corrupt state.  Whatever the file holds (tampered rows,
    leases of jobs that do not exist, two leases for a job, a job with a lease
    it must not have), either the load fails with an empty snapshot, or the
    snapshot is of a state that the file encodes and that is well formed; the
    file is not touched. *)
Theorem sqlite_load_sound s res s' :
  sq_idle s -> sqlite_load s = (res, s') ->
  sq_durable s' = sq_durable s /\
  if load_ok res
  then exists st, Holds (sq_durable s) st /\ LoadedOk st /\ lr_snapshot res = snapshot_of st
  else lr_snapshot res = empty_snapshot.
Proof.
  intros Hidle Hload. apply sqlite_load_spec in Hload as (_ & _ & _ & Hd & Hres); [|done]. split; [done|].
  destruct (load_ok res); [|done]. destruct Hres as (st & Hst & Hsnap). exists st. eauto using Holds_ok.
Qed.

(** Opening migrates.  On success the file had a schema version between 1 and 4
    and is now at version 4; every job row is kept, with the columns its version
    lacked left NULL (the device set filled from the one required device of a
    version 3 row), and leases and revision are untouched; a file that had the
    columns of its version has all columns.  On failure the store stays closed
    and the file has been through whole scripts only. *)
Theorem sqlite_open_migrates host s res s' :
  sq_open s = false -> sqlite_open host s = (res, s') ->
  sq_open s' = open_ok res /\ rtc script_step (sq_durable s) (sq_durable s') /\
  (open_ok res = true -> exists v,
     (1 <= v <= 4)%Z /\ default 4%Z (tb_meta (sq_durable s) !! "schema_version") = v /\
     tb_meta (sq_durable s') =
       <["schema_version" := 4%Z]> (emplace "revision" 0%Z (tb_meta (sq_durable s))) /\
     tb_jobs (sq_durable s') = migrated_row v <$> tb_jobs (sq_durable s) /\
     tb_leases (sq_durable s') = tb_leases (sq_durable s) /\
     (Forall (fun name => name ∈ tb_columns (sq_durable s)) (columns_of v) ->
      Forall (fun name => name ∈ tb_columns (sq_durable s')) job_columns)).
Proof.
  intros Hclosed Hopen. apply sqlite_open_spec in Hopen as (_ & Ho & Hr & Hok); [|done]. split_and!; [done..|].
  intros (_ & v & Hv & Hmeta & Hmig)%Hok. exists v.
  destruct (migrate_tables_spec _ _ _ Hv Hmeta Hmig) as (Hj & Hl & Hm & Hcols).
  assert (forall k, k <> "revision" -> emplace "revision" 0%Z (emplace "schema_version" 4%Z (tb_meta (sq_durable s))) !! k =
    emplace "schema_version" 4%Z (tb_meta (sq_durable s)) !! k) as Hrevision.
  { intros k Hk. unfold emplace at 1. case_match; [done|]. by rewrite lookup_insert_ne. }
  cbn in Hmeta. rewrite Hrevision in Hmeta by done. unfold emplace in Hmeta.
  split_and!; [lia|lia| | |done..].
  - destruct (tb_meta (sq_durable s) !! "schema_version") as [v0|] eqn:Hv0; cbn in *.
    + congruence.
    + rewrite lookup_insert_eq in Hmeta. congruence.
  - rewrite Hm. cbn. apply map_eq. intros k. destruct (decide (k = "schema_version")) as [->|Hk];
      [by rewrite !lookup_insert_eq|]. rewrite !lookup_insert_ne by done.
    unfold emplace. destruct (tb_meta (sq_durable s) !! "schema_version"); [done|].
    rewrite lookup_insert_ne by done. destruct (tb_meta (sq_durable s) !! "revision"); [by rewrite lookup_insert_ne|].
    destruct (decide (k = "revision")) as [->|Hk']; [by rewrite !lookup_insert_eq|by rewrite !lookup_insert_ne].
Qed.

(** A UUID with a comma ends the store.  The mutation core accepts a job that
    requires a device whose UUID contains a comma (such a UUID is valid); when
    the mutation that creates it has been committed, no call of [load] and no
    call of [apply] succeeds any more, whatever is called. *)
Theorem comma_uuid_poisons m s w s' r d ds ops answers s'' :
  sq_idle s -> sqlite_apply m s = (w, s') -> write_ok w = true ->
  mu_create_jobs m = [r] -> mu_update_jobs m = [] ->
  gp_mode (gpu_placement (sj_spec r)) = GPM_kRequired -> gp_devices (gpu_placement (sj_spec r)) = d :: ds ->
  contains_char "," d = true -> sq_session ops s' = (answers, s'') ->
  Forall answer_failed answers /\ sq_durable s'' = sq_durable s'.
Proof.
  intros Hidle Happ Hok Hcreate Hupdate Hmode Hds Hcomma.
  apply sqlite_apply_spec in Happ as (_ & _ & Hi & Hw); [|done]. rewrite Hok in Hw.
  destruct Hw as (st & st' & _ & Hm & _ & Hd & _). apply poisoned_session; [done|].
  apply apply_mutation_inv in Hm as (_ & _ & _ & _ & jobs1 & _ & Hc & _).
  rewrite Hcreate in Hc. cbn in Hc. apply result_bind_ok in Hc as (jobs2 & (-> & _ & _ & _ & Hs & _)%create_job_ok & _).
  destruct (encode_job_row_defined _ Hs) as [row Hrow]. exists (i64_of_u64 (sj_id r)), row.
  split; [|by eapply comma_uuid_unreadable]. rewrite Hd, tables_after_jobs, Hcreate, Hupdate. cbn.
  unfold write_row. rewrite Hrow. apply lookup_insert_eq.
Qed.

End theorems.

Section equivalence.
Context {C : Type} `{SqliteReliable C}.
Implicit Types s : SqliteStateStore C.

Lemma sqlite_load_reliable s st :
  sq_open s = true -> sq_idle s -> Holds (sq_durable s) st -> (sqlite_load s).1 = mkLoad SE_kNone (snapshot_of st).
Proof.
  intros Hopen Hidle Hst. unfold sqlite_load. rewrite Hopen. cbn [negb].
  unfold sq_durable in Hst. rewrite <- (law_idle _ Hidle) in Hst.
  destruct (decode_state_succeeds _ _ Hst) as [c' ->]. done.
Qed.

(** C7. The two back ends are interchangeable.  On an engine whose calls fail only
    where SQL says so, a store whose file encodes the state of an in-memory
    store gives the same answers: [load] shows the same snapshot; [apply] gives
    the same code and revision, for accepted and for refused mutations, and the
    file then encodes the in-memory store's new state (for records that fit
    their columns and revisions below 2^63). *)
Theorem sqlite_matches_memory m s (mem : InMemoryStateStore) :
  sq_open s = true -> sq_idle s -> Holds (sq_durable s) (im_state mem) ->
  im_config mem = validation_config (sq_config s) -> im_failure mem = None -> im_next_apply_failure mem = None ->
  mutation_fits m -> st_revision (im_state mem) < int64_max ->
  (sqlite_load s).1 = im_load mem /\
  let '(w, s') := sqlite_apply m s in
  let '(w', mem') := im_apply m mem in
  w = w' /\ Holds (sq_durable s') (im_state mem') /\ (sqlite_load s').1 = im_load mem'.
Proof.
  intros Hopen Hidle Hst Hconfig Hfail Hnext Hfits Hrev. unfold im_load. rewrite Hfail.
  split; [by apply sqlite_load_reliable|].
  pose proof (apply_open_reliable (validation_config (sq_config s)) m _ _ Hidle Hst Hfits) as Hw.
  destruct (sqlite_apply m s) as [w s'] eqn:Happ. unfold im_apply. rewrite Hfail, Hnext, Hconfig.
  assert (w = (apply_open (validation_config (sq_config s)) m (sq_engine s)).1) as Hw1.
  { unfold sqlite_apply in Happ. rewrite Hopen in Happ. cbn in Happ. destruct (apply_open _ m (sq_engine s)).
    by injection Happ as <- <-. }
  rewrite Hw in Hw1. apply sqlite_apply_spec in Happ as (_ & Hopen' & Hi & Hspec); [|done].
  rewrite Hopen in Hopen'.
  destruct (apply_mutation (validation_config (sq_config s)) (im_state mem) m) as [next|code] eqn:Hm; cbn.
  - assert (st_revision next = st_revision (im_state mem) + 1) as Hnextrev
      by (by apply apply_mutation_inv in Hm as (_ & _ & _ & ? & _)).
    destruct (N.ltb_spec int64_max (st_revision next)); [lia|]. subst w. cbn in Hspec.
    destruct Hspec as (st & st' & Hst' & Hm' & _ & _ & Hnew). rewrite (Holds_functional _ _ _ Hst' Hst), Hm in Hm'.
    injection Hm' as <-. specialize (Hnew Hfits). rewrite ?Hfail. split_and!; [done|done|]. by apply sqlite_load_reliable.
  - pose proof (apply_mutation_coded (validation_config (sq_config s)) (im_state mem) m) as Hcode. rewrite Hm in Hcode.
    subst w. unfold write_ok in Hspec. cbn in Hspec. rewrite bool_decide_eq_false_2 in Hspec by done.
    rewrite ?Hfail, Hspec. split_and!; [done|done|]. apply sqlite_load_reliable; [done|done|by rewrite Hspec].
Qed.

End equivalence.

(** ** Examples *)

Definition example_sqlite_config : SqliteStateStoreConfig := mkSqliteConfig "libsqlite3.so.0" "/var/lib/yori/state.db" 4 2 5000.

Definition good_host : OpenHost := mkOpenHost false true None (fun _ => true) true.

(** A new file, opened *)
Definition example_sqlite : SqliteStateStore FileDb :=
  (sqlite_open good_host (mkSqlite example_sqlite_config false (mkFileDb fresh_tables None))).2.

(** The same on an engine that fails when the lease of the second [apply] is inserted *)
Definition example_faulty : SqliteStateStore (Faulty FileDb) :=
  mkSqlite example_sqlite_config true
    (mkFaulty (sq_engine example_sqlite) (replicate 15 false ++ [true])).

Lemma example_sqlite_holds : Holds (sq_durable example_sqlite) initial_state.
Proof.
  constructor; cbn; try (intros *; by rewrite lookup_empty).
  - apply Forall_forall. intros name Hin. exact Hin.
  - reflexivity.
  - split; intros *; by rewrite lookup_empty.
  - split; intros *; by rewrite lookup_empty.
Qed.

Lemma example_fits : mutation_fits example_submit /\ mutation_fits example_schedule.
Proof.
  split; (constructor; [|constructor]); constructor; try done; by vm_compute.
Qed.

Lemma sqlite_session_witness :
  let ops := [SQ_apply example_submit; SQ_load; SQ_apply example_schedule; SQ_load] in
  exists st',
    Holds (sq_durable (sq_session ops example_faulty).2) st' /\
    core_run example_config ops (sq_session ops example_faulty).1 initial_state st' /\
    map (fun a => match a with SA_written w => write_ok w | SA_loaded res => load_ok res end)
      (sq_session ops example_faulty).1 = [true; true; false; true].
Proof.
  intros ops.
  destruct (sqlite_session ops example_faulty initial_state (sq_session ops example_faulty).1
              (sq_session ops example_faulty).2) as (st' & Hst & Hrun).
  - reflexivity.
  - destruct example_fits as [H1 H2].
    repeat (apply Forall_cons_2; [first [exact H1|exact H2|exact I]|]). apply Forall_nil_2.
  - exact example_sqlite_holds.
  - apply surjective_pairing.
  - exists st'. split; [exact Hst|]. split; [exact Hrun|]. vm_compute. reflexivity.
Defined.

Lemma sqlite_matches_memory_witness :
  (sqlite_load example_sqlite).1 = im_load (in_memory example_config) /\
  let '(w, s') := sqlite_apply example_submit example_sqlite in
  let '(w', mem') := im_apply example_submit (in_memory example_config) in
  w = w' /\ Holds (sq_durable s') (im_state mem') /\ (sqlite_load s').1 = im_load mem'.
Proof.
  apply sqlite_matches_memory.
  - vm_compute. reflexivity.
  - vm_compute. reflexivity.
  - exact example_sqlite_holds.
  - reflexivity.
  - reflexivity.
  - reflexivity.
  - exact (proj1 example_fits).
  - reflexivity.
Defined.

(** A row of the job table tampered with: the state is out of range. *)
Definition example_tampered : SqliteStateStore FileDb :=
  let t := tables_after example_submit 1 (sq_durable example_sqlite) in
  mkSqlite example_sqlite_config true
    (mkFileDb {| t with tb_jobs := (fun row => {| row with jr_state := 8%Z |}) <$> tb_jobs t |} None).

Lemma sqlite_load_sound_witness :
  lr_code (sqlite_load example_tampered).1 = SE_kInvalidJob /\
  lr_snapshot (sqlite_load example_tampered).1 = empty_snapshot.
Proof.
  assert (lr_code (sqlite_load example_tampered).1 = SE_kInvalidJob) as Hcode by (vm_compute; reflexivity).
  split; [exact Hcode|].
  pose proof (sqlite_load_sound example_tampered (sqlite_load example_tampered).1 (sqlite_load example_tampered).2
    eq_refl (surjective_pairing _)) as [_ Hres].
  unfold load_ok in Hres. rewrite Hcode in Hres. exact Hres.
Defined.

(** A file of schema version 3 with one job that requires a device *)
Definition example_v3_job : StoredJob :=
  mkStored 3 {| example_spec with gpu_placement := mkGpuPlacement GPM_kRequired ["GPU-a"] |} kQueued 0 empty_execution.

Definition example_v3 : Tables :=
  let t := write_row (mkTables {[ "schema_version" := 3%Z; "revision" := 1%Z ]} (columns_of 3) ∅ ∅) example_v3_job in
  {| t with tb_jobs := (fun row => {| row with jr_gpu_placement_devices := None |}) <$> tb_jobs t |}.

Definition example_v3_store : SqliteStateStore FileDb := mkSqlite example_sqlite_config false (mkFileDb example_v3 None).

Lemma sqlite_open_migrates_witness :
  tb_jobs (sq_durable (sqlite_open good_host example_v3_store).2) = migrated_row 3 <$> tb_jobs example_v3 /\
  (sqlite_load (sqlite_open good_host example_v3_store).2).1 =
    mkLoad SE_kNone (mkSnapshot 1 [example_v3_job] []).
Proof.
  split; [|vm_compute; reflexivity].
  destruct (sqlite_open_migrates good_host example_v3_store (sqlite_open good_host example_v3_store).1
    (sqlite_open good_host example_v3_store).2 eq_refl (surjective_pairing _)) as (_ & _ & Hok).
  destruct Hok as (v & _ & Hv & _ & Hj & _); [vm_compute; reflexivity|].
  assert (v = 3%Z) as -> by (rewrite <- Hv; vm_compute; reflexivity). exact Hj.
Defined.

(** A job that requires a device whose UUID has a comma in it *)
Definition example_comma : StateMutation :=
  {| empty_mutation with mu_create_jobs :=
    [mkStored 3 {| example_spec with gpu_placement := mkGpuPlacement GPM_kRequired ["GPU-a,b"] |} kQueued 0 empty_execution] |}.

Lemma comma_uuid_poisons_witness :
  (sqlite_apply example_comma example_sqlite).1 = mkWrite SE_kNone 1 /\
  Forall answer_failed (sq_session [SQ_load; SQ_apply empty_mutation] (sqlite_apply example_comma example_sqlite).2).1.
Proof.
  split; [vm_compute; reflexivity|].
  refine (proj1 (comma_uuid_poisons example_comma example_sqlite (sqlite_apply example_comma example_sqlite).1
    (sqlite_apply example_comma example_sqlite).2 _ "GPU-a,b" [] [SQ_load; SQ_apply empty_mutation] _ _
    eq_refl (surjective_pairing _) _ eq_refl eq_refl eq_refl eq_refl eq_refl (surjective_pairing _))).
  vm_compute. reflexivity.
Defined.
