(* ===== verification/Wakeup.v ===== *)
(** * Wake pipes: [process_exit_monitor.cpp], [job_manager.cpp], [log_pump.cpp], [log_follow_service.cpp]

    The workers of the daemon sleep in [poll] on a non-blocking pipe.  Another
    thread first puts its item into a channel and then writes a byte
    ([kick_worker], [kick], [wakeup], and the SIGCHLD handler, for which the
    item is the zombie the kernel has made before it runs).  The worker wakes,
    empties the pipe, and then empties its channels one after the other until
    each is found empty: [apply_commands] and the scan in the exit monitor;
    [process_commands], [drain_exit_events], [drain_pump_done] and
    [drain_gpu_events] in the job manager; one channel in the log pump and the
    follow service.

    Every action of every thread is one step, in any interleaving.
    [wakeups_not_lost]: whatever was put into a channel is handled, in order,
    within a bounded number of steps once nothing new is put. *)

From S2P Require Import Prelude.
#[local] Open Scope nat_scope.

(** ** The pipe *)

(** The write loop of [wakeup]: an answer [true] is [EINTR]; a full pipe refuses
    the byte ([EAGAIN]), which is ignored. *)
Fixpoint write_wake (capacity : nat) (answers : list bool) (bytes : nat) : nat :=
  match answers with
  | true :: answers => write_wake capacity answers bytes
  | _ => if bytes <? capacity then S bytes else bytes
  end.

(** [drain_wake_pipe]: reads of 64 bytes until one fails, because the pipe is
    empty or because it is interrupted ([true]); the end of the list is a drain
    that is not interrupted again. *)
Fixpoint drain_wake_pipe (answers : list bool) (bytes : nat) : nat :=
  match answers with
  | true :: _ => bytes
  | false :: answers => match bytes with O => O | _ => drain_wake_pipe answers (bytes - 64) end
  | [] => O
  end.

Lemma write_wake_spec capacity answers bytes :
  0 < capacity -> 0 < write_wake capacity answers bytes <= S bytes.
Proof. intros Hc. induction answers as [|[] answers IH]; cbn [write_wake]; [|done|]; destruct (Nat.ltb_spec bytes capacity); lia. Qed.

Lemma drain_le answers bytes : drain_wake_pipe answers bytes <= bytes.
Proof.
  revert bytes. induction answers as [|[] answers IH]; intros bytes; cbn; [lia..|]. destruct bytes; [lia|].
  pose proof (IH (S bytes - 64)). lia.
Qed.

(** ** A worker and its channels *)

Inductive WakePhase := WK_waiting | WK_woken | WK_serving (i : nat).

Section worker.
Context {W : Type} (sources capacity : nat).

(** The channels, the bytes in the pipe, how many threads have put an item and
    not yet written their byte, and what the worker does; what was put into and
    handled from each channel is kept for the record. *)
Record Wake := mkWake {
  wk_queues : nat -> list W;
  wk_bytes : nat;
  wk_kicks : nat;
  wk_phase : WakePhase;
  wk_posted : nat -> list W;
  wk_handled : nat -> list W;
}.

Definition update (f : nat -> list W) (i : nat) (l : list W) : nat -> list W := fun j => if decide (j = i) then l else f j.

Definition new_wake : Wake := mkWake (fun _ => []) 0 0 WK_waiting (fun _ => []) (fun _ => []).

(** [try_send]; the byte follows. *)
Definition post (i : nat) (w : W) (s : Wake) : Wake :=
  {| s with wk_queues := update (wk_queues s) i (wk_queues s i ++ [w]); wk_kicks := S (wk_kicks s);
            wk_posted := update (wk_posted s) i (wk_posted s i ++ [w]) |}.

(** [kick_worker] *)
Definition kick (answers : list bool) (s : Wake) : Wake :=
  {| s with wk_kicks := wk_kicks s - 1; wk_bytes := write_wake capacity answers (wk_bytes s) |}.

Definition enter (phase : WakePhase) (s : Wake) : Wake := {| s with wk_phase := phase |}.

Definition drain (answers : list bool) (s : Wake) : Wake :=
  {| s with wk_bytes := drain_wake_pipe answers (wk_bytes s); wk_phase := WK_serving 0 |}.

(** A successful [try_receive] from channel [i], handled *)
Definition take (i : nat) (w : W) (rest : list W) (s : Wake) : Wake :=
  {| s with wk_queues := update (wk_queues s) i rest; wk_handled := update (wk_handled s) i (wk_handled s i ++ [w]) |}.

(** The steps that do not wait for anything new *)
Inductive quiet_step (s : Wake) : Wake -> Prop :=
| qs_kick answers : 0 < wk_kicks s -> quiet_step s (kick answers s)
| qs_poll : wk_phase s = WK_waiting -> 0 < wk_bytes s -> quiet_step s (enter WK_woken s)
| qs_drain : wk_phase s = WK_woken -> quiet_step s (drain [] s)
| qs_take i w rest : wk_phase s = WK_serving i -> i < sources -> wk_queues s i = w :: rest -> quiet_step s (take i w rest s)
| qs_next i : wk_phase s = WK_serving i -> i < sources -> wk_queues s i = [] -> quiet_step s (enter (WK_serving (S i)) s)
| qs_wait : wk_phase s = WK_serving sources -> quiet_step s (enter WK_waiting s).

(** All steps: a new item, a [poll] that returns without a byte ([EINTR]), a
    drain that is interrupted *)
Inductive wake_step (s : Wake) : Wake -> Prop :=
| ws_quiet s' : quiet_step s s' -> wake_step s s'
| ws_post i w : i < sources -> wake_step s (post i w s)
| ws_spurious : wk_phase s = WK_waiting -> wake_step s (enter WK_woken s)
| ws_drain answers : wk_phase s = WK_woken -> wake_step s (drain answers s).

(** ** Proofs *)

(** The channels the worker has left behind in this round *)
Definition visited (phase : WakePhase) (i : nat) : Prop :=
  match phase with WK_waiting => True | WK_woken => False | WK_serving k => i < k end.

Record WakeOk (s : Wake) : Prop := {
  wo_armed : forall i, i < sources -> visited (wk_phase s) i -> wk_queues s i <> [] -> 0 < wk_bytes s \/ 0 < wk_kicks s;
  wo_phase : forall k, wk_phase s = WK_serving k -> k <= sources;
  wo_record : forall i, wk_posted s i = wk_handled s i ++ wk_queues s i;
}.

Lemma update_same f i l : update f i l i = l.
Proof. unfold update. by rewrite decide_True. Qed.

Lemma update_other f i j l : j <> i -> update f i l j = f j.
Proof. intros Hn. unfold update. by rewrite decide_False. Qed.

Lemma new_wake_ok : WakeOk new_wake.
Proof. by constructor. Qed.

Lemma quiet_step_ok s s' : 0 < capacity -> quiet_step s s' -> WakeOk s -> WakeOk s'.
Proof.
  intros Hcap Hs [Ha Hp Hr].
  destruct Hs as [answers Hk|Hw Hb|Hw|i w rest Hw Hi Hq|i Hw Hi Hq|Hw].
  - constructor; [|exact Hp|exact Hr]. intros i Hi Hv Hq. left. by apply write_wake_spec.
  - constructor; cbn; [done|done|exact Hr].
  - constructor; cbn; [intros i Hi Hv; lia|intros k [= <-]; lia|exact Hr].
  - constructor; [|exact Hp|].
    + cbn. rewrite Hw. cbn. intros j Hj Hv. rewrite update_other by lia. apply Ha; [done|]. by rewrite Hw.
    + intros j. cbn. destruct (decide (j = i)) as [->|Hn]; [|by rewrite !update_other].
      rewrite !update_same, Hr, Hq. by rewrite <- app_assoc.
  - constructor; cbn; [|intros k [= <-]; lia|exact Hr]. intros j Hj Hv Hne. apply (Ha j Hj); [|done]. rewrite Hw. cbn.
    destruct (decide (j = i)) as [->|]; [by rewrite Hq in Hne|lia].
  - constructor; cbn; [|done|exact Hr]. intros j Hj _. apply Ha; [done|]. by rewrite Hw.
Qed.

Lemma wake_step_ok s s' : 0 < capacity -> wake_step s s' -> WakeOk s -> WakeOk s'.
Proof.
  intros Hcap [? Hq|i w Hi|Hw|answers Hw] Hok; [by eapply quiet_step_ok| | |].
  - destruct Hok as [Ha Hp Hr]. constructor; [right; cbn; lia|exact Hp|].
    intros j. cbn. destruct (decide (j = i)) as [->|Hn]; [|by rewrite !update_other].
    rewrite !update_same, Hr. by rewrite app_assoc.
  - destruct Hok as [Ha Hp Hr]. constructor; cbn; [done|done|exact Hr].
  - destruct Hok as [Ha Hp Hr]. constructor; cbn; [intros j Hj Hv; lia|intros k [= <-]; lia|exact Hr].
Qed.

Lemma wake_run_ok s s' : 0 < capacity -> rtc wake_step s s' -> WakeOk s -> WakeOk s'.
Proof. intros Hcap. induction 1; eauto using wake_step_ok. Qed.

Definition queued (f : nat -> list W) : nat := sum_list_with (fun i => length (f i)) (seq 0 sources).

Lemma queued_take f i w rest : i < sources -> f i = w :: rest -> queued f = S (queued (update f i rest)).
Proof.
  intros Hi Hf. unfold queued. replace sources with (i + S (sources - S i)) by lia.
  rewrite seq_app, Nat.add_0_l. cbn [seq]. rewrite !sum_list_with_app. cbn [sum_list_with]. rewrite update_same, Hf.
  assert (forall a n, ~ (a <= i < a + n) ->
    sum_list_with (fun j => length (update f i rest j)) (seq a n) = sum_list_with (fun j => length (f j)) (seq a n)) as Hsame.
  { intros a n. revert a. induction n as [|n IH]; intros a Ha; [done|]. cbn. rewrite update_other, IH by lia. done. }
  rewrite !Hsame by lia. cbn. lia.
Qed.

(** What is left to do *)
Definition phase_weight (s : Wake) : nat :=
  match wk_phase s with
  | WK_waiting => 1
  | WK_woken => if decide (wk_bytes s = 0) then sources + 3 else 0
  | WK_serving i => 2 + (sources - i)
  end.
Definition weight (s : Wake) : nat :=
  (sources + 4) * wk_kicks s + (sources + 3) * wk_bytes s + queued (wk_queues s) + phase_weight s.

Lemma quiet_step_weight s s' : 0 < capacity -> quiet_step s s' -> S (weight s') <= weight s.
Proof.
  intros Hcap Hs. unfold weight, phase_weight.
  destruct Hs as [answers Hk|Hw Hb|Hw|i w rest Hw Hi Hq|i Hw Hi Hq|Hw]; cbn [kick enter drain take wk_kicks wk_bytes wk_phase wk_queues].
  - pose proof (write_wake_spec capacity answers (wk_bytes s) Hcap) as Hb.
    set (b := write_wake _ _ _) in *. clearbody b. destruct (wk_phase s); try (destruct (decide (b = 0)); [lia|]);
      try destruct (decide (wk_bytes s = 0)); nia.
  - rewrite Hw. rewrite decide_False by lia. lia.
  - rewrite Hw. cbn. destruct (decide (wk_bytes s = 0)); nia.
  - rewrite Hw, (queued_take _ _ _ _ Hi Hq). lia.
  - rewrite Hw. lia.
  - rewrite Hw. lia.
Qed.

Lemma quiet_run_weight n s s' : 0 < capacity -> nsteps quiet_step n s s' -> n + weight s' <= weight s.
Proof. intros Hcap. induction 1 as [|n s s1 s' Hs _ IH]; [lia|]. pose proof (quiet_step_weight _ _ Hcap Hs). lia. Qed.

(** A worker with nothing left to do has done everything. *)
Lemma stuck_done s :
  WakeOk s -> (forall s', ~ quiet_step s s') ->
  wk_phase s = WK_waiting /\ wk_bytes s = 0 /\ wk_kicks s = 0 /\ forall i, i < sources -> wk_queues s i = [].
Proof.
  intros [Ha Hp _] Hstuck.
  assert (wk_kicks s = 0) as Hk.
  { destruct (wk_kicks s) eqn:E; [done|]. destruct (Hstuck (kick [] s)). apply qs_kick. lia. }
  destruct (wk_phase s) as [| |i] eqn:Hw.
  - assert (wk_bytes s = 0) as Hb.
    { destruct (wk_bytes s) eqn:E; [done|]. destruct (Hstuck (enter WK_woken s)). apply qs_poll; [done|lia]. }
    split_and!; [done..|]. intros i Hi. destruct (wk_queues s i) eqn:E; [done|].
    destruct (Ha i Hi I); [by rewrite E|lia..].
  - by destruct (Hstuck (drain [] s)); apply qs_drain.
  - exfalso. pose proof (Hp i eq_refl). destruct (decide (i = sources)) as [->|Hn].
    + eapply Hstuck, qs_wait. done.
    + destruct (wk_queues s i) as [|w rest] eqn:E; [eapply Hstuck, qs_next|eapply Hstuck, qs_take]; try done; lia.
Qed.

Lemma quiet_run_posted s s' : rtc quiet_step s s' -> forall i, wk_posted s' i = wk_posted s i.
Proof. induction 1 as [|s s1 s' Hs _ IH]; [done|]. intros i. rewrite IH. by destruct Hs. Qed.

(** C17. No wake-up is lost.  From any state that the threads and the worker reach, in
    any interleaving and with any interruptions, the work that is left takes a
    bounded number of steps; and when none is left, the worker sleeps and has
    handled, channel by channel and in order, everything that had been put
    there. *)
Theorem wakeups_not_lost s :
  0 < capacity -> rtc wake_step new_wake s ->
  (forall n s', nsteps quiet_step n s s' -> n <= weight s) /\
  forall s', rtc quiet_step s s' -> (forall s'', ~ quiet_step s' s'') ->
    wk_phase s' = WK_waiting /\ forall i, i < sources -> wk_handled s' i = wk_posted s i.
Proof.
  intros Hcap Hreach. split; [intros n s' Hn; pose proof (quiet_run_weight _ _ _ Hcap Hn); lia|].
  intros s' Hrun Hstuck.
  pose proof (wake_run_ok _ _ Hcap Hreach new_wake_ok) as Hok.
  assert (WakeOk s') as Hok' by (eapply wake_run_ok; [done|eapply rtc_subrel; [|exact Hrun]; apply ws_quiet|done]).
  destruct (stuck_done s' Hok' Hstuck) as (Hw & _ & _ & Hq). split; [done|]. intros i Hi.
  rewrite <- (quiet_run_posted _ _ Hrun), (wo_record _ Hok'), (Hq i Hi). by rewrite app_nil_r.
Qed.
End worker.
Arguments Wake W : clear implicits.

(** ** Examples *)

(** An item put while the worker sleeps, its byte, and the worker's round *)
Definition example_posted : Wake N := post 0 7%N new_wake.
Definition example_handled : Wake N :=
  enter WK_waiting (enter (WK_serving 1) (take 0 7%N [] (drain [] (enter WK_woken (kick 4 [true] example_posted))))).

Lemma example_round : rtc (quiet_step 1 4) example_posted example_handled.
Proof.
  eapply rtc_l; [apply (qs_kick _ _ _ [true]); cbn; lia|]. eapply rtc_l; [apply qs_poll; [done|cbn; lia]|].
  eapply rtc_l; [by apply qs_drain|]. eapply rtc_l; [by apply (qs_take _ _ _ 0 7%N []); [|lia|]|].
  eapply rtc_l; [apply (qs_next _ _ _ 0); [done|lia|done]|]. eapply rtc_l; [by apply qs_wait|]. apply rtc_refl.
Qed.

Lemma wakeups_not_lost_witness :
  (forall n s', nsteps (quiet_step 1 4) n example_posted s' -> n <= 7) /\ wk_handled example_handled 0 = [7%N].
Proof.
  destruct (wakeups_not_lost 1 4 example_posted) as [Hbound Hdone]; [lia| |].
  - eapply rtc_l; [apply (ws_post _ _ _ 0 7%N); lia|apply rtc_refl].
  - split; [exact Hbound|]. destruct (Hdone example_handled example_round) as [_ Hh]; [|exact (Hh 0 ltac:(lia))].
    intros s'' Hs. destruct Hs as [answers Hk|Hw Hb|Hw|i w rest Hw|i Hw|Hw]; cbn in *; lia || discriminate.
Defined.
