(* ===== verification/Tasks.v ===== *)
(** * Executor tasks: [src/runtime/store_task_runner.{hpp,cpp}],
    [src/runtime/scheduler_task_runner.{hpp,cpp}],
    [src/runtime/serial_state_store.{hpp,cpp}],
    [src/runtime/grace_escalation.{hpp,cpp}]

    The daemon's worker has its store writes and scheduling rounds run by an
    executor, one at a time, and consumes the result of each.  The two runners
    are the same machine over different bodies ([Section runner]).  The executor
    is outside: it rejects a submission, runs the body once, or completes the
    future with an exception without running it; its steps are interleaved with
    the owner's calls ([TaskEvent]).

    [store_tasks_exact]: every accepted mutation is answered once, in order, and the
    stored state is what the answers say.  [SerialStateStore] keeps the
    contract of the store it wraps.  [grace_quiet]: after [disarm] no escalation
    is outstanding. *)

From S2P Require Import Prelude.
From S2P Require Import Job.
From S2P Require Import Gpu.
From S2P Require Import Store.
From S2P Require Import Queue.
From S2P Require Import Scheduler.
From S2P Require Import Supervisor.

(** ** Futures *)

(** What a future's [get()] throws *)
Inductive Exn :=
| Exn_TaskCancelled (what : string)
| Exn_CapacityExhausted (what : string)
| Exn_ExecutorStopping (what : string)
| Exn_Std (what : string)
| Exn_Other.

Inductive TaskOutcome (R : Type) :=
| Returned (r : R)
| Threw (e : Exn).
Arguments Returned {R} r.
Arguments Threw {R} e.

(** [executor::TaskCancellationResult] *)
Inductive TaskCancellationResult :=
| TC_RequestedBeforeStart
| TC_RequestedRunning
| TC_AlreadyRequested
| TC_AlreadyCompleted
| TC_NotFound
| TC_ShuttingDown.

(** ** The runners *)

(** [StoreTaskSubmitCode], [SchedulerTaskSubmitCode] *)
Inductive TaskSubmitCode := TS_kAccepted | TS_kBusy | TS_kNotAccepting | TS_kExecutorRejected.

(** [StoreTaskCancelCode], [SchedulerTaskCancelCode] *)
Inductive TaskCancelCode :=
| TK_kNoTask
| TK_kRequestedBeforeStart
| TK_kRequestedRunning
| TK_kAlreadyRequested
| TK_kAlreadyCompleted
| TK_kNotFound
| TK_kShuttingDown.

(** [StoreTaskCompletionCode], [SchedulerTaskCompletionCode] *)
Inductive TaskCompletionCode :=
| TD_kNoTask
| TD_kNotReady
| TD_kCompleted
| TD_kCancelled
| TD_kExecutorRejected
| TD_kFailed.

#[export] Instance TaskCompletionCode_eq_dec : EqDecision TaskCompletionCode.
Proof. solve_decision. Defined.

(** [StoreTaskSubmitResult] *)
Record TaskSubmitResult := mkTaskSubmit {
  ts_code : TaskSubmitCode;
  ts_message : string;
}.

(** [StoreTaskCompletion] *)
Record TaskCompletion (R : Type) := mkCompletion {
  tc_code : TaskCompletionCode;
  tc_result : option R;
  tc_message : string;
}.
Arguments mkCompletion {R}.
Arguments tc_code {R}.
Arguments tc_result {R}.
Arguments tc_message {R}.

(** [StoreTaskCompletion::consumed] *)
Definition consumed {R} (c : TaskCompletion R) : bool :=
  match tc_code c with
  | TD_kCompleted | TD_kCancelled | TD_kExecutorRejected | TD_kFailed => true
  | _ => false
  end.

(** [map_cancel] *)
Definition map_cancel (result : TaskCancellationResult) : TaskCancelCode :=
  match result with
  | TC_RequestedBeforeStart => TK_kRequestedBeforeStart
  | TC_RequestedRunning => TK_kRequestedRunning
  | TC_AlreadyRequested => TK_kAlreadyRequested
  | TC_AlreadyCompleted => TK_kAlreadyCompleted
  | TC_NotFound => TK_kNotFound
  | TC_ShuttingDown => TK_kShuttingDown
  end.

(** A submitted job: its stop token and its future's state *)
Record Task (J R : Type) := mkTask {
  tk_job : J;
  tk_stop : bool;
  tk_outcome : option (TaskOutcome R);
}.
Arguments mkTask {J R}.
Arguments tk_job {J R}.
Arguments tk_stop {J R}.
Arguments tk_outcome {J R}.

(** [Impl]; [rn_task] is [Some] while [future.valid()]. *)
Record Runner (J R : Type) := mkRunner {
  rn_accepting : bool;
  rn_task : option (Task J R);
}.
Arguments mkRunner {J R}.
Arguments rn_accepting {J R}.
Arguments rn_task {J R}.

Definition new_runner {J R} : Runner J R := mkRunner true None.

Inductive TaskEvent (J : Type) :=
| EvSubmit (job : J) (rejected : option Exn)
| EvRequestCancel (answer : TaskCancellationResult)
| EvTryConsume
| EvWaitAndConsume
| EvStopAccepting
| EvRun
| EvDrop (e : Exn).
Arguments EvSubmit {J} job rejected.
Arguments EvRequestCancel {J} answer.
Arguments EvTryConsume {J}.
Arguments EvWaitAndConsume {J}.
Arguments EvStopAccepting {J}.
Arguments EvRun {J}.
Arguments EvDrop {J} e.

Section runner.
Context {J R W : Type}.
(** "store" or "scheduler", and the lambda that is submitted: the job, the stop
    token, the world it works on *)
Context (label : string) (body : J -> bool -> W -> TaskOutcome R * W).
Implicit Types r : Runner J R.

(** [consume_ready] *)
Definition consume_ready (outcome : TaskOutcome R) : TaskCompletion R :=
  match outcome with
  | Returned result => mkCompletion TD_kCompleted (Some result) EmptyString
  | Threw (Exn_TaskCancelled what) => mkCompletion TD_kCancelled None what
  | Threw (Exn_CapacityExhausted what) => mkCompletion TD_kExecutorRejected None what
  | Threw (Exn_ExecutorStopping what) => mkCompletion TD_kExecutorRejected None what
  | Threw (Exn_Std what) => mkCompletion TD_kFailed None what
  | Threw Exn_Other => mkCompletion TD_kFailed None (label +:+ " task failed with a non-standard exception")
  end.

(** [submit], [trigger]; [rejected] is the exception of [submit_cancellable]. *)
Definition task_submit (job : J) (rejected : option Exn) r : TaskSubmitResult * Runner J R :=
  if negb (rn_accepting r) then (mkTaskSubmit TS_kNotAccepting (label +:+ " task producer is stopped"), r)
  else if bool_decide (is_Some (rn_task r))
  then (mkTaskSubmit TS_kBusy ("previous " +:+ label +:+ " task is not consumed"), r)
  else
    match rejected with
    | Some (Exn_TaskCancelled what | Exn_CapacityExhausted what | Exn_ExecutorStopping what | Exn_Std what) =>
        (mkTaskSubmit TS_kExecutorRejected what, r)
    | Some Exn_Other =>
        (mkTaskSubmit TS_kExecutorRejected
           ("executor rejected " +:+ label +:+ " task with a non-standard exception"), r)
    | None => (mkTaskSubmit TS_kAccepted EmptyString, {| r with rn_task := Some (mkTask job false None) |})
    end.

(** [request_cancel]; the executor sets the stop token when it says so. *)
Definition request_task_cancel (answer : TaskCancellationResult) r : TaskCancelCode * Runner J R :=
  match rn_task r with
  | None => (TK_kNoTask, r)
  | Some task =>
      (map_cancel answer,
       match answer with
       | TC_RequestedBeforeStart | TC_RequestedRunning => {| r with rn_task := Some {| task with tk_stop := true |} |}
       | _ => r
       end)
  end.

Definition no_completion : TaskCompletion R := mkCompletion TD_kNoTask None EmptyString.

(** [try_consume] *)
Definition try_consume r : TaskCompletion R * Runner J R :=
  match rn_task r with
  | None => (no_completion, r)
  | Some task =>
      match tk_outcome task with
      | None => (mkCompletion TD_kNotReady None EmptyString, r)
      | Some outcome => (consume_ready outcome, {| r with rn_task := None |})
      end
  end.

(** [wait_and_consume]; [None] while it waits *)
Definition wait_and_consume r : option (TaskCompletion R * Runner J R) :=
  match rn_task r with
  | None => Some (no_completion, r)
  | Some task =>
      match tk_outcome task with
      | None => None
      | Some outcome => Some (consume_ready outcome, {| r with rn_task := None |})
      end
  end.

(** [stop_accepting] *)
Definition stop_accepting r : Runner J R := {| r with rn_accepting := false |}.

(** The destructor, when the executor has finished the task *)
Definition destroy_runner (answer : TaskCancellationResult) r : option (Runner J R) :=
  let r1 := stop_accepting r in
  if bool_decide (is_Some (rn_task r1)) then
    let '(_, r2) := request_task_cancel answer r1 in
    match wait_and_consume r2 with
    | Some (_, r3) => Some r3
    | None => None
    end
  else Some r1.

(** The executor: the body is run, or the future completed without it *)
Definition run_task r (w : W) : option (Runner J R * W) :=
  match rn_task r with
  | Some (mkTask job stop None) =>
      let '(outcome, w') := body job stop w in
      Some ({| r with rn_task := Some (mkTask job stop (Some outcome)) |}, w')
  | _ => None
  end.

Definition drop_task (e : Exn) r : option (Runner J R) :=
  match rn_task r with
  | Some (mkTask job stop None) => Some {| r with rn_task := Some (mkTask job stop (Some (Threw e))) |}
  | _ => None
  end.

(** One event: the runner, the world, the job if one was accepted, and the
    completion if a task was consumed.  [None]: the event cannot happen. *)
Definition task_event (ev : TaskEvent J) r (w : W)
  : option (Runner J R * W * option J * option (TaskCompletion R)) :=
  let taken c := if consumed c then Some c else None in
  match ev with
  | EvSubmit job rejected =>
      let '(res, r') := task_submit job rejected r in
      Some (r', w, match ts_code res with TS_kAccepted => Some job | _ => None end, None)
  | EvRequestCancel answer => Some ((request_task_cancel answer r).2, w, None, None)
  | EvTryConsume => let '(c, r') := try_consume r in Some (r', w, None, taken c)
  | EvWaitAndConsume => '(c, r') ← wait_and_consume r; Some (r', w, None, taken c)
  | EvStopAccepting => Some (stop_accepting r, w, None, None)
  | EvRun => '(r', w') ← run_task r w; Some (r', w', None, None)
  | EvDrop e => r' ← drop_task e r; Some (r', w, None, None)
  end.

(** A session: the accepted jobs and the completions, in order *)
Fixpoint task_session (evs : list (TaskEvent J)) r (w : W)
  : option (Runner J R * W * list J * list (TaskCompletion R)) :=
  match evs with
  | [] => Some (r, w, [], [])
  | ev :: evs' =>
      '(r1, w1, job, completion) ← task_event ev r w;
      '(r2, w2, jobs, completions) ← task_session evs' r1 w1;
      Some (r2, w2, option_list job ++ jobs, option_list completion ++ completions)
  end.

(** ** Accounting *)

(** What became of an accepted job: its body was run (with the stop token seen,
    and the outcome), or it was not *)
Inductive Fate := Ran (stop : bool) (outcome : TaskOutcome R) | NotRun.

(** The world after the bodies that ran, in order *)
Fixpoint worked (entries : list (J * Fate)) (w w' : W) : Prop :=
  match entries with
  | [] => w' = w
  | (job, Ran stop outcome) :: rest => exists w1, body job stop w = (outcome, w1) /\ worked rest w1 w'
  | (_, NotRun) :: rest => worked rest w w'
  end.

(** The completion that tells of a fate *)
Definition tells (entry : J * Fate) (c : TaskCompletion R) : Prop :=
  match entry.2 with
  | Ran _ outcome => c = consume_ready outcome
  | NotRun => exists e, c = consume_ready (Threw e)
  end.

(** The task that is not consumed yet *)
Definition open_entry r (entries : list (J * Fate)) : Prop :=
  match rn_task r with
  | None => entries = []
  | Some (mkTask job stop None) => entries = [(job, NotRun)]
  | Some (mkTask job stop (Some outcome)) =>
      (exists stop', entries = [(job, Ran stop' outcome)]) \/ (exists e, outcome = Threw e /\ entries = [(job, NotRun)])
  end.

Lemma worked_app e1 e2 w w1 w2 : worked e1 w w1 -> worked e2 w1 w2 -> worked (e1 ++ e2) w w2.
Proof.
  revert w. induction e1 as [|[job [stop outcome|]] e1 IH]; intros w; simpl.
  - by intros ->.
  - intros (w' & Hb & H1) H2. eauto.
  - eauto.
Qed.

Lemma consumed_ready outcome : consumed (consume_ready outcome) = true.
Proof. by destruct outcome as [|[]]. Qed.

(** What one event does to the ledger: entries are closed in order, the open one
    may be replaced. *)
Lemma task_event_spec ev r w r' w' job completion w0 e0 :
  task_event ev r w = Some (r', w', job, completion) -> open_entry r e0 -> worked e0 w0 w ->
  exists closed e1 w1,
    open_entry r' e1 /\ worked closed w0 w1 /\ worked e1 w1 w' /\
    Forall2 tells closed (option_list completion) /\ e0.*1 ++ option_list job = (closed ++ e1).*1.
Proof.
  assert (forall (r' : Runner J R), open_entry r' e0 -> worked e0 w0 w ->
    exists closed e1 w1, open_entry r' e1 /\ worked closed w0 w1 /\ worked e1 w1 w /\
    Forall2 tells closed (option_list (@None (TaskCompletion R))) /\ e0.*1 ++ option_list (@None J) = (closed ++ e1).*1)
    as Hsame.
  { intros r1 Ho Hw. exists [], e0, w0. rewrite app_nil_r. split_and!; by try constructor. }
  assert (forall outcome (r' : Runner J R), rn_task r' = None -> worked e0 w0 w ->
    (exists entry, e0 = [entry] /\ tells entry (consume_ready outcome)) ->
    exists closed e1 w1, open_entry r' e1 /\ worked closed w0 w1 /\ worked e1 w1 w /\
    Forall2 tells closed (option_list (Some (consume_ready outcome))) /\
    e0.*1 ++ option_list (@None J) = (closed ++ e1).*1) as Hclose.
  { intros outcome r1 Hnone Hw (entry & -> & Htells). exists [entry], [], w.
    unfold open_entry. rewrite Hnone. split_and!; try done. by repeat constructor. }
  destruct r as [accepting task]. destruct ev; unfold task_event; simpl; intros Hev Ho Hw.
  - unfold task_submit in Hev. simpl in Hev. destruct accepting; simpl in Hev; [|simplify_eq; by apply Hsame].
    destruct task as [task|]; simpl in Hev; [simplify_eq; by apply Hsame|].
    destruct rejected as [[]|]; simpl in Hev; simplify_eq/=; try (by apply Hsame).
    cbn in Ho. subst e0. exists [], [(job0, NotRun)], w0. split_and!; by try constructor.
  - unfold request_task_cancel in Hev. simpl in Hev. destruct task as [[job' stop outcome]|].
    + destruct answer; simplify_eq/=; by apply Hsame.
    + simplify_eq/=. by apply Hsame.
  - destruct task as [[job' stop [outcome|]]|]; simplify_eq/=; try (by apply Hsame).
    rewrite consumed_ready. apply Hclose; [done|done|]. cbn in Ho.
    destruct Ho as [[stop' ->]|(e & -> & ->)]; eexists; split; try done. by exists e.
  - destruct task as [[job' stop [outcome|]]|]; simplify_eq/=; try (by apply Hsame).
    rewrite consumed_ready. apply Hclose; [done|done|]. cbn in Ho.
    destruct Ho as [[stop' ->]|(e & -> & ->)]; eexists; split; try done. by exists e.
  - simplify_eq/=. apply Hsame; [|done]. by destruct task.
  - unfold run_task in Hev. simpl in Hev. destruct task as [[job' stop [outcome|]]|]; simplify_eq/=.
    destruct (body job' stop w) as [outcome w1] eqn:Hbody. cbn in Ho. subst e0. cbn in Hw. simplify_eq/=.
    exists [], [(job', Ran stop outcome)], w0. split_and!; [left; by exists stop|done|by exists w'|constructor|done].
  - unfold drop_task in Hev. simpl in Hev. destruct task as [[job' stop [outcome|]]|]; simplify_eq/=.
    cbn in Ho. subst e0. exists [], [(job', NotRun)], w0. split_and!; [right; by exists e|done|done|constructor|done].
Qed.

Lemma task_session_spec evs r w r' w' jobs completions w0 e0 :
  task_session evs r w = Some (r', w', jobs, completions) -> open_entry r e0 -> worked e0 w0 w ->
  exists closed e1,
    open_entry r' e1 /\ worked (closed ++ e1) w0 w' /\ Forall2 tells closed completions /\
    e0.*1 ++ jobs = (closed ++ e1).*1.
Proof.
  revert r w jobs completions w0 e0. induction evs as [|ev evs IH]; intros r w jobs completions w0 e0; simpl.
  { intros [= <- <- <- <-] Ho Hw. exists [], e0. rewrite app_nil_r. split_and!; by try constructor. }
  destruct (task_event ev r w) as [[[[r1 w1] job] completion]|] eqn:Hev; [|done]. simpl.
  destruct (task_session evs r1 w1) as [[[[r2 w2] jobs'] completions']|] eqn:Hrec; [|done]. simpl.
  intros [= <- <- <- <-] Ho Hw.
  destruct (task_event_spec _ _ _ _ _ _ _ _ _ Hev Ho Hw) as (c1 & e1 & v1 & Ho1 & Hc1 & He1 & Ht1 & Hj1).
  destruct (IH _ _ _ _ _ _ Hrec Ho1 He1) as (c2 & e2 & Ho2 & Hw2 & Ht2 & Hj2).
  exists (c1 ++ c2), e2. split_and!; [done| | |].
  - rewrite <- app_assoc. by eapply worked_app.
  - by apply Forall2_app.
  - rewrite (app_assoc e0.*1), Hj1, !fmap_app, <- !app_assoc, Hj2, fmap_app. done.
Qed.

End runner.

Arguments Ran {R} stop outcome.
Arguments NotRun {R}.

(** ** The store runner *)

Section store_tasks.
Context {S : Type} `{StateStore S}.

(** The lambda of [StoreTaskRunner::submit] *)
Definition store_body (mutation : StateMutation) (stop_requested : bool) (store : S)
  : TaskOutcome StateStoreWriteResult * S :=
  if stop_requested then (Threw (Exn_TaskCancelled "store mutation cancelled before apply"), store)
  else let '(written, store') := store_apply mutation store in (Returned written, store').

(** [StoreTaskRunner::submit] *)
Definition store_task_submit : StateMutation -> option Exn -> Runner StateMutation StateStoreWriteResult ->
    TaskSubmitResult * Runner StateMutation StateStoreWriteResult := task_submit "store".

(** [StoreTaskRunner::Impl::consume_ready] *)
Definition store_consume_ready : TaskOutcome StateStoreWriteResult -> TaskCompletion StateStoreWriteResult :=
  consume_ready "store".

Definition store_task_session := task_session "store" store_body.

End store_tasks.

(** ** The scheduler runner *)

Section scheduler_tasks.
Context {S : Type} `{StateStore S}.
(** [SchedulerConfig::scan_window]; the text of the exception that ends a
    [run_once] without a result *)
Context (scan_window_size : N) (what : string).

(** The lambda of [SchedulerTaskRunner::trigger] *)
Definition scheduler_body (job : SchedulerTrigger * GpuObservationSnapshot) (stop_requested : bool)
    (world : GlobalJobQueue * S) : TaskOutcome ScheduleResult * (GlobalJobQueue * S) :=
  if stop_requested then (Returned (schedule_cancelled job.1), world)
  else
    let '(result, q, s) := run_once scan_window_size job.1 job.2 world.1 world.2 in
    (match result with Some r => Returned r | None => Threw (Exn_Std what) end, (q, s)).

(** [SchedulerTaskRunner::trigger] *)
Definition scheduler_task_trigger : SchedulerTrigger * GpuObservationSnapshot -> option Exn ->
    Runner (SchedulerTrigger * GpuObservationSnapshot) ScheduleResult ->
    TaskSubmitResult * Runner (SchedulerTrigger * GpuObservationSnapshot) ScheduleResult := task_submit "scheduler".

(** [SchedulerTaskRunner::Impl::consume_ready] *)
Definition scheduler_consume_ready : TaskOutcome ScheduleResult -> TaskCompletion ScheduleResult :=
  consume_ready "scheduler".

End scheduler_tasks.

(** ** [SerialStateStore] *)

Record SerialStateStore (S : Type) := mkSerial {
  se_inner : S;
  se_calls : N;
}.
Arguments mkSerial {S}.
Arguments se_inner {S}.
Arguments se_calls {S}.

Section serial.
Context {S : Type} `{StateStore S}.

(** [load] *)
Definition serial_load (s : SerialStateStore S) : StateStoreLoadResult * SerialStateStore S :=
  (store_load (se_inner s), {| s with se_calls := uadd64 (se_calls s) 1 |}).

(** [apply] *)
Definition serial_apply (mutation : StateMutation) (s : SerialStateStore S)
  : StateStoreWriteResult * SerialStateStore S :=
  let '(written, inner) := store_apply mutation (se_inner s) in
  (written, mkSerial inner (uadd64 (se_calls s) 1)).

(** A load of the wrapper changes only its statistics, which no store operation
    shows. *)
#[export] Instance SerialStateStore_store : StateStore (SerialStateStore S) := {|
  store_load s := (serial_load s).1;
  store_apply := serial_apply;
|}.
End serial.

(** The wrapper keeps the contract, so every theorem about a client of a store
    holds for the wrapped one. *)
#[export] Instance SerialStateStore_laws {S} `{StateStoreLaws S} : StateStoreLaws (SerialStateStore S).
Proof.
  refine {| store_inv s := store_inv (se_inner s); store_view s := store_view (se_inner s);
            store_config s := store_config (se_inner s) |}; cbn.
  - intros s. apply store_load_view.
  - intros m s w s'. unfold serial_apply. destruct (store_apply m (se_inner s)) as [w1 i1] eqn:Happ.
    intros Hinv [= <- <-]. by apply store_apply_ok.
  - intros m s w s'. unfold serial_apply. destruct (store_apply m (se_inner s)) as [w1 i1] eqn:Happ.
    intros Hinv [= <- <-]. by eapply store_apply_err.
  - intros m s w s'. unfold serial_apply. destruct (store_apply m (se_inner s)) as [w1 i1] eqn:Happ.
    intros Hinv [= <- <-]. by eapply store_apply_keeps.
Defined.

(** ** [GraceEscalation] *)

(** [GraceDisarmCode] *)
Inductive GraceDisarmCode := GD_kDisarmed | GD_kNotArmed | GD_kCancelledBeforeDispatch | GD_kConsumedCompletion.

(** [GraceConsumeCode] *)
Inductive GraceConsumeCode := GC_kNotArmed | GC_kNotReady | GC_kConsumed.

(** [GraceConsumeResult] *)
Record GraceConsumeResult := mkGraceConsume {
  gr_code : GraceConsumeCode;
  gr_escalation : option EscalationOutcome;
}.

(** The timer's future: not valid, pending, or done *)
Inductive GraceFuture := NoFuture | Pending | Done (outcome : TaskOutcome EscalationOutcome).

(** [GraceEscalation::Impl] *)
Record Grace := mkGrace {
  ge_armed : bool;
  ge_future : GraceFuture;
}.

Definition new_grace : Grace := mkGrace false NoFuture.

(** [arm]: as [grace_arm], with the future of the accepted timer *)
Definition grace_submit (accepted : bool) (s : Supervisor) (g : Grace) : GraceArmCode * Grace :=
  let '(code, armed) := grace_arm accepted s (ge_armed g) in
  (code, mkGrace armed (match code with GA_kArmed => Pending | _ => ge_future g end)).

(** [consume_completion]; [None] while [get()] waits *)
Definition consume_completion (g : Grace) : option (option EscalationOutcome * Grace) :=
  match ge_future g with
  | NoFuture => Some (None, g)
  | Pending => None
  | Done (Returned result) => Some (Some result, {| g with ge_future := NoFuture |})
  | Done (Threw _) => Some (None, {| g with ge_future := NoFuture |})
  end.

(** [disarm]; [cancelled]: the timer's [cancel()] said CancelledBeforeDispatch,
    which completes the future with an exception. *)
Definition disarm (cancelled : bool) (g : Grace) : option (GraceDisarmCode * Grace) :=
  if negb (ge_armed g) then Some (GD_kNotArmed, g)
  else
    let g := if cancelled then {| g with ge_future := match ge_future g with
                                                      | Pending => Done (Threw (Exn_TaskCancelled EmptyString))
                                                      | f => f
                                                      end |} else g in
    '(_, g') ← consume_completion g;
    Some (if cancelled then GD_kCancelledBeforeDispatch else GD_kConsumedCompletion, {| g' with ge_armed := false |}).

(** [try_consume] *)
Definition grace_try_consume (g : Grace) : GraceConsumeResult * Grace :=
  if negb (ge_armed g) then (mkGraceConsume GC_kNotArmed None, g)
  else
    match ge_future g with
    | Done _ =>
        match consume_completion g with
        | Some (escalation, g') => (mkGraceConsume GC_kConsumed escalation, {| g' with ge_armed := false |})
        | None => (mkGraceConsume GC_kNotReady None, g)
        end
    | _ => (mkGraceConsume GC_kNotReady None, g)
    end.

Inductive grace_event :=
| GE_arm (accepted : bool) (s : Supervisor)
| GE_disarm (cancelled : bool)
| GE_try_consume
| GE_fire (now : Z) (kill : Z -> option Z) (s : Supervisor)
| GE_drop (e : Exn).

(** One event and the signals it sends; [None]: it cannot happen. *)
Definition grace_step (ev : grace_event) (g : Grace) : option (Grace * list KillCall) :=
  match ev with
  | GE_arm accepted s => Some ((grace_submit accepted s g).2, [])
  | GE_disarm cancelled => '(_, g') ← disarm cancelled g; Some (g', [])
  | GE_try_consume => Some ((grace_try_consume g).2, [])
  | GE_fire now kill s =>
      match ge_future g with
      | Pending => let '(outcome, calls) := escalate now kill s in Some (mkGrace (ge_armed g) (Done (Returned outcome)), calls)
      | _ => None
      end
  | GE_drop e =>
      match ge_future g with Pending => Some (mkGrace (ge_armed g) (Done (Threw e)), []) | _ => None end
  end.

Fixpoint grace_session (evs : list grace_event) (g : Grace) : option (Grace * list KillCall) :=
  match evs with
  | [] => Some (g, [])
  | ev :: evs' =>
      '(g1, calls) ← grace_step ev g;
      '(g2, calls') ← grace_session evs' g1;
      Some (g2, calls ++ calls')
  end.

(** ** Theorems *)

Section store_theorem.
Context {S : Type} `{StateStoreLaws S}.

(** What an entry of the ledger did to the stored state: only a body that ran
    without a stop request and was answered OK changed it *)
Definition entry_effect (config : ValidationConfig) (entry : StateMutation * Fate (R := StateStoreWriteResult))
    (st st' : StoreState) : Prop :=
  match entry.2 with
  | Ran false (Returned w) =>
      if write_ok w then apply_mutation config st entry.1 = Ok st' /\ wr_revision w = st_revision st' else st' = st
  | _ => st' = st
  end.

Fixpoint ledger_effect (config : ValidationConfig) (entries : list (StateMutation * Fate (R := StateStoreWriteResult)))
    (st st' : StoreState) : Prop :=
  match entries with
  | [] => st' = st
  | entry :: rest => exists st1, entry_effect config entry st st1 /\ ledger_effect config rest st1 st'
  end.

Lemma worked_effect entries s s' :
  store_inv s -> worked store_body entries s s' ->
  ledger_effect (store_config s) entries (store_view s) (store_view s') /\ store_inv s'.
Proof.
  revert s. induction entries as [|[m [stop outcome|]] rest IH]; intros s Hinv; simpl.
  - by intros ->.
  - intros (s1 & Hbody & Hrest). unfold store_body in Hbody. destruct stop.
    + simplify_eq. destruct (IH _ Hinv Hrest) as [He Hi]. split; [|done]. by exists (store_view s1).
    + destruct (store_apply m s) as [w s2] eqn:Happ. simplify_eq.
      destruct (store_apply_keeps _ _ _ _ Hinv Happ) as [Hinv1 Hcfg].
      destruct (IH _ Hinv1 Hrest) as [He Hi]. split; [|done]. exists (store_view s1). rewrite <- Hcfg. split; [|done].
      unfold entry_effect. simpl. destruct (write_ok w) eqn:Hok.
      * rewrite Hcfg. by apply store_apply_ok.
      * by eapply store_apply_err.
  - intros Hrest. destruct (IH _ Hinv Hrest) as [He Hi]. split; [|done]. by exists (store_view s).
Qed.

(** The answers tell what was written.  Over any interleaving of the owner's
    calls with the executor: the accepted mutations are answered one by one in
    the order of their acceptance, at most one is outstanding, and the stored
    state is the one that the mutations reported OK produce in that order; a
    mutation whose task was cancelled, rejected or failed has changed nothing. *)
Theorem store_tasks_exact evs s r s' mutations completions :
  store_inv s -> store_task_session evs new_runner s = Some (r, s', mutations, completions) ->
  exists closed outstanding,
    mutations = (closed ++ outstanding).*1 /\ Forall2 (tells "store") closed completions /\
    (length outstanding <= 1)%nat /\
    ledger_effect (store_config s) (closed ++ outstanding) (store_view s) (store_view s').
Proof.
  intros Hinv Hs. destruct (task_session_spec "store" store_body _ _ _ _ _ _ _ s [] Hs) as (closed & e1 & Ho & Hw & Ht & Hj);
    [done|done|]. exists closed, e1. split_and!; [done|done| |by apply worked_effect].
  unfold open_entry in Ho. repeat case_match; naive_solver.
Qed.

End store_theorem.

(** The timer and its future go together. *)
Definition grace_wf (g : Grace) : Prop := ge_armed g = true <-> ge_future g <> NoFuture.

Lemma grace_step_wf ev g g' calls : grace_wf g -> grace_step ev g = Some (g', calls) -> grace_wf g'.
Proof.
  destruct g as [armed fut]. unfold grace_wf. cbn. intros Hwf. destruct ev as [accepted s|cancelled| |now kill s|e]; cbn.
  - unfold grace_submit, grace_arm. cbn. intros [= <- _].
    destruct armed; cbn; [done|]. repeat case_match; naive_solver.
  - unfold disarm. cbn. destruct armed; cbn; [|by intros [= <- _]].
    destruct cancelled, fut as [| |[]]; cbn; intros [= <- _]; naive_solver.
  - unfold grace_try_consume. cbn. destruct armed; cbn; [|by intros [= <- _]].
    destruct fut as [| |[]]; cbn; intros [= <- _]; naive_solver.
  - destruct fut; try done. destruct (escalate now kill s). intros [= <- _]. naive_solver.
  - destruct fut; try done. intros [= <- _]. naive_solver.
Qed.

Lemma grace_session_wf evs g g' calls : grace_wf g -> grace_session evs g = Some (g', calls) -> grace_wf g'.
Proof.
  revert g calls. induction evs as [|ev evs IH]; intros g calls Hwf; simpl; [by intros [= <- _]|].
  destruct (grace_step ev g) as [[g1 c1]|] eqn:Hstep; simpl; [|done].
  destruct (grace_session evs g1) as [[g2 c2]|] eqn:Hrec; simpl; [|done]. intros [= <- _].
  eapply IH; [|done]. by eapply grace_step_wf.
Qed.

(** After [disarm] (or the consumption of a fired timer) no escalation is
    outstanding: whatever happened before, no callback can touch the supervisor
    until the timer is armed again. *)
Theorem grace_quiet evs g calls :
  grace_session evs new_grace = Some (g, calls) -> ge_armed g = false ->
  ge_future g = NoFuture /\ forall now kill s, grace_step (GE_fire now kill s) g = None.
Proof.
  intros Hs Harmed. assert (grace_wf new_grace) as Hnew by (by split).
  pose proof (grace_session_wf _ _ _ _ Hnew Hs) as Hwf.
  assert (ge_future g = NoFuture) as Hfut.
  { destruct (ge_future g) eqn:Hf; [done|..]; exfalso; unfold grace_wf in Hwf; rewrite Hf, Harmed in Hwf; naive_solver. }
  split; [done|]. intros now kill s. simpl. by rewrite Hfut.
Qed.

(** ** Witnesses *)

Lemma store_tasks_exact_witness :
  exists closed outstanding,
    [example_submit; example_schedule] = (closed ++ outstanding).*1 /\
    Forall2 (tells "store") closed
      [mkCompletion TD_kCompleted (Some (mkWrite SE_kNone 1)) ""; mkCompletion TD_kCancelled None "store mutation cancelled before apply"] /\
    (length outstanding <= 1)%nat /\
    ledger_effect (store_config (in_memory example_config)) (closed ++ outstanding)
      (store_view (in_memory example_config)) (store_view (mkInMemory example_config example_state1 None None)).
Proof.
  apply (store_tasks_exact [EvSubmit example_submit None; EvSubmit example_schedule None; EvRun; EvTryConsume;
    EvSubmit example_schedule None; EvRequestCancel TC_RequestedBeforeStart; EvTryConsume; EvRun; EvWaitAndConsume]
    (in_memory example_config) new_runner (mkInMemory example_config example_state1 None None)
    [example_submit; example_schedule]
    [mkCompletion TD_kCompleted (Some (mkWrite SE_kNone 1)) ""; mkCompletion TD_kCancelled None "store mutation cancelled before apply"]).
  - split; discriminate.
  - vm_compute. reflexivity.
Defined.

Lemma grace_quiet_witness :
  ge_future (mkGrace false NoFuture) = NoFuture /\
  forall now kill s, grace_step (GE_fire now kill s) (mkGrace false NoFuture) = None.
Proof.
  apply (grace_quiet [GE_disarm true; GE_try_consume] (mkGrace false NoFuture) []); reflexivity.
Defined.
