(* ===== verification/Client.v ===== *)
(** * The client: [include/yori/ipc/uds_client.hpp], [src/ipc/uds_client.cpp],
    [src/ipc/ipc_transport.cpp]

    [call] sends one request and awaits one response; [follow] reads stream
    frames after the response until a final one.  The kernel's answers are
    scripts, as in [Server.v].  [rpc] puts [call] and the daemon's [serve] at the
    two ends of a connection.

    [rpc_exact]: what the client is told is what the service answered, and the
    service acted at most once; [rpc_delivers]: over a connection that does not
    fail the client gets that answer.  [follow_stream_exact]: the handler sees
    the frames the daemon sent, in order, up to a point the result names. *)

From S2P Require Import Prelude.
From S2P Require Import Job.
From S2P Require Import Gpu.
From S2P Require Import Store.
From S2P Require Import Queue.
From S2P Require Import Scheduler.
From S2P Require Import Wire.
From S2P Require Import Request.
From S2P Require Import Response.
From S2P Require Import Service.
From S2P Require Import Server.

(** ** Errors *)

Inductive IpcTransportStartCode :=
| TX_kStarted | TX_kAlreadyStarted | TX_kInvalidConfig | TX_kEndpointRejected | TX_kExecutorRejected.

#[export] Instance IpcTransportStartCode_eq_dec : EqDecision IpcTransportStartCode.
Proof. solve_decision. Defined.

Inductive IpcClientError :=
| CL_kNone | CL_kConnectFailed | CL_kPermissionDenied | CL_kTimeout | CL_kClosed | CL_kProtocol.

#[export] Instance IpcClientError_eq_dec : EqDecision IpcClientError.
Proof. solve_decision. Defined.

(** [to_string(IpcTransportStartCode)] *)
Definition IpcTransportStartCode_to_string (code : IpcTransportStartCode) : string :=
  match code with
  | TX_kStarted => "started"
  | TX_kAlreadyStarted => "already started"
  | TX_kInvalidConfig => "invalid config"
  | TX_kEndpointRejected => "endpoint rejected"
  | TX_kExecutorRejected => "executor rejected"
  end.

(** [to_string(IpcClientError)] *)
Definition IpcClientError_to_string (error : IpcClientError) : string :=
  match error with
  | CL_kNone => "none"
  | CL_kConnectFailed => "connect failed"
  | CL_kPermissionDenied =>
      "permission denied (this session lacks the socket group; re-login or newgrp yori, see DEC-010)"
  | CL_kTimeout => "timeout"
  | CL_kClosed => "closed by server"
  | CL_kProtocol => "protocol error"
  end.

(** [IpcClientResult] *)
Record IpcClientResult := mkClientResult {
  cr_error : IpcClientError;
  cr_response : IpcResponse;
}.

(** [IpcFollowResult] *)
Record IpcFollowResult := mkFollowResult {
  fw_error : IpcClientError;
  fw_ack : IpcResponse;
}.

(** [IpcResponse{}] *)
Definition default_response : IpcResponse := blank_response RK_kSubmit kProtocolVersion IE_kNone "".

(** [client_error] *)
Definition client_error (error : IpcClientError) : IpcClientResult := mkClientResult error default_response.

(** ** Connecting *)

(** [sizeof(sockaddr_un::sun_path) - 1] *)
Definition kMaxEndpointBytes : N := 107.

Definition endpoint_rejected (endpoint : string) : bool :=
  match endpoint with
  | EmptyString => true
  | String c _ => negb (Ascii.eqb c "/") || (kMaxEndpointBytes <? slen endpoint)
  end.

(** The values of [errno] that the code tells apart *)
Inductive Errno := EINPROGRESS | ETIMEDOUT | EACCES | EPERM | EINTR | ErrnoOther (value : Z).

(** Answers of [connect(2)] and of [poll(2)] on the connecting socket: a ready
    one with the answer of [getsockopt(SO_ERROR)] (its own failure, or the
    pending error of the socket, if any) *)
Inductive ConnectAnswer := Connected | ConnectErr (e : Errno).
Inductive ConnectPoll := ConnReady (pending : Result Errno (option Errno)) | ConnTimeout | ConnErr (e : Errno).

(** The argument of that [poll(2)]; times are nanoseconds. *)
Definition connect_wait_ms (deadline now : Z) : Z :=
  let remaining := Z.quot (deadline - now) 1000000 in
  if (remaining <=? 0)%Z then 0%Z
  else if (2147483647 <? remaining)%Z then 2147483647%Z else remaining.

(** The loop of [connect_with_deadline] *)
Fixpoint await_connect (polls : list ConnectPoll) : Pending (Result Errno unit) :=
  match polls with
  | [] => None
  | ConnReady (Err e) :: _ => Some (Err e)
  | ConnReady (Ok None) :: _ => Some (Ok tt)
  | ConnReady (Ok (Some e)) :: _ => Some (Err e)
  | ConnTimeout :: _ => Some (Err ETIMEDOUT)
  | ConnErr EINTR :: polls => await_connect polls
  | ConnErr e :: _ => Some (Err e)
  end.

(** [connect_with_deadline]; on failure with the [errno] it leaves *)
Definition connect_with_deadline (answer : ConnectAnswer) (polls : list ConnectPoll) : Pending (Result Errno unit) :=
  match answer with
  | Connected => Some (Ok tt)
  | ConnectErr EINPROGRESS => await_connect polls
  | ConnectErr e => Some (Err e)
  end.

(** What [call] and [follow] make of that [errno] *)
Definition connect_failure (e : Errno) : IpcClientError :=
  match e with
  | ETIMEDOUT => CL_kTimeout
  | EACCES | EPERM => CL_kPermissionDenied
  | _ => CL_kConnectFailed
  end.

(** What they make of a frame that was not transferred *)
Definition frame_failure (e : FrameIoError) : IpcClientError :=
  match e with FE_kTimeout => CL_kTimeout | FE_kClosed => CL_kClosed | _ => CL_kProtocol end.

(** ** Requests *)

(** A client's connection: whether [socket(2)] succeeds, and the answers to come *)
Record ClientIo := mkClientIo {
  ci_socket : bool;
  ci_connect : ConnectAnswer;
  ci_waits : list ConnectPoll;
  ci_send : SendSide;
  ci_recv : RecvSide;
}.

(** The part that [call] and [follow] share, up to the decoded response *)
Definition request_response (endpoint : string) (request : IpcRequest) (io : ClientIo)
  : Pending (Result IpcClientError IpcResponse) * ClientIo :=
  if endpoint_rejected endpoint then (Some (Err CL_kConnectFailed), io)
  else
    match encode_request_payload request [] with
    | (false, _) => (Some (Err CL_kProtocol), io)
    | (true, payload) =>
        if negb (ci_socket io) then (Some (Err CL_kConnectFailed), io)
        else
          match connect_with_deadline (ci_connect io) (ci_waits io) with
          | None => (None, io)
          | Some (Err e) => (Some (Err (connect_failure e)), io)
          | Some (Ok _) =>
              match write_frame payload (ci_send io) with
              | (None, s) => (None, {| io with ci_send := s |})
              | (Some (Err e), s) => (Some (Err (frame_failure e)), {| io with ci_send := s |})
              | (Some (Ok _), s) =>
                  match read_frame (ci_recv io) with
                  | None => (None, {| io with ci_send := s |})
                  | Some (Err e, r) => (Some (Err (frame_failure e)), {| io with ci_send := s; ci_recv := r |})
                  | Some (Ok response, r) =>
                      (Some (match decode_response_payload response with
                             | Err _ => Err CL_kProtocol
                             | Ok value => Ok value
                             end), {| io with ci_send := s; ci_recv := r |})
                  end
              end
          end
    end.

(** [UdsIpcClient::call] *)
Definition call (endpoint : string) (request : IpcRequest) (io : ClientIo) : Pending IpcClientResult * ClientIo :=
  match request_response endpoint request io with
  | (None, io) => (None, io)
  | (Some (Err e), io) => (Some (client_error e), io)
  | (Some (Ok response), io) => (Some (mkClientResult CL_kNone response), io)
  end.

(** ** Streams *)

(** A frame that ends a stream *)
Definition final_frame (f : IpcStreamFrame) : bool :=
  match sf_kind f with SK_kLogEof | SK_kLogBackpressure => true | _ => false end.

Section follow.

(** The client's handler: [on_frame] with the state it keeps *)
Context {H : Type} (on_frame : IpcStreamFrame -> H -> bool * H).

(** The stream phase of [follow]; [rounds] bounds the frames read. *)
Fixpoint follow_stream (rounds : nat) (r : RecvSide) (h : H) : Pending IpcClientError * H :=
  match rounds with
  | O => (None, h)
  | S rounds =>
      match read_frame r with
      | None => (None, h)
      | Some (Err e, _) => (Some (frame_failure e), h)
      | Some (Ok payload, r) =>
          match decode_stream_frame_payload payload with
          | Err _ => (Some CL_kProtocol, h)
          | Ok frame =>
              let '(continue, h) := on_frame frame h in
              if negb continue then (Some CL_kNone, h)
              else if final_frame frame then (Some CL_kNone, h)
              else follow_stream rounds r h
          end
      end
  end.

(** [UdsIpcClient::follow] *)
Definition follow (endpoint : string) (request : IpcRequest) (io : ClientIo) (h : H)
  : Pending IpcFollowResult * H :=
  match request_response endpoint request io with
  | (None, _) => (None, h)
  | (Some (Err e), _) => (Some (mkFollowResult e default_response), h)
  | (Some (Ok ack), io) =>
      if negb (bool_decide (rs_error ack = IE_kNone)) then (Some (mkFollowResult CL_kNone ack), h)
      else
        match follow_stream (S (length (rv_recvs (ci_recv io)))) (ci_recv io) h with
        | (None, h) => (None, h)
        | (Some e, h) => (Some (mkFollowResult e ack), h)
        end
  end.

End follow.

(** ** A request and its answer *)

Definition with_inbound (inbound : bytes) (io : ClientIo) : ClientIo :=
  let r := ci_recv io in {| io with ci_recv := {| r with rv_inbound := inbound |} |}.

(** The kernel's answers at the daemon's end of the connection *)
Record ServerIo := mkServerIo {
  si_recv_polls : list PollAnswer;
  si_recvs : list RecvAnswer;
  si_send_polls : list PollAnswer;
  si_sends : list SendAnswer;
}.

Section rpc.
Context {W : Type} `{StateStore W, JobControl W}.
Variables (c : IpcServiceConfig) (src : Sources) (delegate : option (PeerCredentials -> IpcRequest -> W -> StreamOutcome * W))
  (peer : PeerCredentials).

(** The daemon's end: the bytes it sends for those that arrived *)
Definition serve_connection (sio : ServerIo) (arrived : bytes) (w : W) : bytes * W :=
  match read_frame (mkRecvSide arrived (si_recv_polls sio) (si_recvs sio)) with
  | None => ([], w)
  | Some (frame, _) =>
      let '(served, w') := serve c src delegate peer frame w in
      (match served with
       | Replied p => sd_sent (write_frame p (mkSendSide [] (si_send_polls sio) (si_sends sio))).2
       | _ => []
       end, w')
  end.

(** Both ends: the daemon gets what the client sent, and the client what the
    daemon sent. *)
Definition rpc (endpoint : string) (request : IpcRequest) (io : ClientIo) (sio : ServerIo) (w : W)
  : Pending IpcClientResult * W :=
  let sent := sd_sent (ci_send (call endpoint request (with_inbound [] io)).2) in
  let '(reply, w') := serve_connection sio sent w in
  ((call endpoint request (with_inbound reply io)).1, w').

(** What the service answers to a request, as the client decodes it *)
Definition service_answer (request : IpcRequest) (w : W) : IpcResponse :=
  let response := (handle c src peer request w).1 in
  let reply := {| response with rs_version := rq_version request |} in
  if is_present (response_payload reply) then response_canonical reply
  else error_response (rq_kind request) IE_kInternal "internal error".

(** What a request that arrived comes to: the service handles it and its answer
    is sent, or it is rejected and the service does not see it. *)
Definition request_outcome (request : IpcRequest) (w : W) : IpcResponse * W :=
  match request_received request with
  | Ok request => (service_answer request w, (handle c src peer request w).2)
  | Err e => (error_response RK_kSubmit IE_kProtocol (IpcDecodeError_to_string e), w)
  end.

End rpc.

Lemma read_frame_nil polls recvs p s : read_frame (mkRecvSide [] polls recvs) <> Some (Ok p, s).
Proof.
  intros (header & Hs & Hl & _)%read_frame_sound. simpl in Hs. symmetry in Hs. apply app_nil in Hs as [-> _]. done.
Qed.

Lemma decode_response_len p r : decode_response_payload p = Ok r -> kMinPayloadBytes <= len p <= kMaxPayloadBytes.
Proof.
  unfold decode_response_payload. destruct (N.ltb_spec kMaxPayloadBytes (len p)) as [|Hmax]; [done|]. intros Hd.
  split; [|done]. destruct p as [|a [|b p]]; [done|done|]. rewrite !len_cons. unfold kMinPayloadBytes. lia.
Qed.

Lemma request_payload_ok r p :
  RequestInRange r -> request_payload r = Some p ->
  kMinPayloadBytes <= len p <= kMaxPayloadBytes /\ decode_request_payload p = request_received r.
Proof.
  intros Hr Hp. split; [|by apply request_payload_received]. apply encode_payload_some in Hp as (Hv & Hp & Hmax).
  pose proof (payload_length_valid _ _ _ _ Hp Hmax) as Hl. unfold ipc_payload_length_valid in Hl.
  apply andb_true_iff in Hl. rewrite !N.leb_le in Hl. exact Hl.
Qed.

(** What a client has sent does not depend on what it is sent. *)
Lemma request_response_send endpoint request io b :
  ci_send (request_response endpoint request (with_inbound b io)).2 = ci_send (request_response endpoint request io).2.
Proof.
  unfold request_response, with_inbound. cbn. repeat case_match; simplify_eq/=; done.
Qed.

Lemma call_io endpoint request io : (call endpoint request io).2 = (request_response endpoint request io).2.
Proof. unfold call. by destruct (request_response endpoint request io) as [[[]|] io']. Qed.

Lemma request_response_errors endpoint request io : (request_response endpoint request io).1 <> Some (Err CL_kNone).
Proof.
  unfold request_response. repeat case_match; cbn [fst]; try done;
    match goal with |- Some (Err (_ ?e)) <> _ => by destruct e end.
Qed.

Lemma call_success endpoint request io r :
  (call endpoint request io).1 = Some r -> cr_error r = CL_kNone ->
  (request_response endpoint request io).1 = Some (Ok (cr_response r)).
Proof.
  unfold call. intros Hc He. destruct (request_response endpoint request io) as [[[response|e]|] io'] eqn:Hrr;
    simplify_eq/=; [done|]. pose proof (request_response_errors endpoint request io) as Hne. by rewrite Hrr in Hne.
Qed.

(** A client that was answered has sent its whole request; otherwise it may have
    sent a part. *)
Lemma request_response_cases endpoint request io :
  sd_sent (ci_send io) = [] ->
  let '(res, io') := request_response endpoint request io in
  sd_sent (ci_send io') = [] /\ (forall r, res <> Some (Ok r)) \/
  exists payload, request_payload request = Some payload /\
    (sd_sent (ci_send io') = frame_of payload /\
     (forall r, res = Some (Ok r) -> exists q rest, read_frame (ci_recv io) = Some (Ok q, rest) /\
        decode_response_payload q = Ok r) \/
     (exists left, frame_of payload = sd_sent (ci_send io') ++ left /\ left <> []) /\ (forall r, res <> Some (Ok r))).
Proof.
  intros Hnew. unfold request_response. destruct (endpoint_rejected endpoint); [by left|].
  unfold encode_request_payload, append_payload. destruct (request_payload request) as [payload|] eqn:Hp; [|by left].
  rewrite app_nil_l. destruct (ci_socket io); cbn [negb]; [|by left].
  destruct (connect_with_deadline _ _) as [[|]|]; [|by left..].
  assert (len payload <= kMaxPayloadBytes) as Hmax by (by apply encode_payload_some in Hp as (_ & _ & ?)).
  destruct io as [sock conn waits [sent polls sends] recv]. simpl in Hnew. subst sent. cbn [ci_send ci_recv].
  pose proof (write_frame_prefix payload polls sends Hmax) as Hw.
  destruct (write_frame payload (mkSendSide [] polls sends)) as [[[[]|e]|] s].
  2-3: destruct Hw as (left & Hf & Hres); right; exists payload; split; [done|]; right; split; [|done];
       exists left; split; [done|]; intros Hl%Hres; done.
  destruct Hw as (left & Hf & Hres). rewrite (proj1 Hres eq_refl), app_nil_r in Hf. symmetry in Hf.
  destruct (read_frame recv) as [[[q|e] rest]|]; right; exists payload; (split; [done|]); left; (split; [done|]); try done.
  intros r Hr. exists q, rest. split; [done|]. by destruct (decode_response_payload q); simplify_eq.
Qed.

(** *** Connections that work *)

Definition full_frame : nat := N.to_nat (4 + kMaxPayloadBytes).

Definition steady_send (polls : list PollAnswer) (sends : list SendAnswer) : Prop :=
  Forall (fun a => a = PollReady true) polls /\
  Forall (fun a => match a with SendUpTo k => 1 <= k | _ => False end) sends.

Record healthy_client (io : ClientIo) : Prop := {
  hc_socket : ci_socket io = true;
  hc_connect : connect_with_deadline (ci_connect io) (ci_waits io) = Some (Ok tt);
  hc_new : sd_sent (ci_send io) = [];
  hc_send : steady_send (sd_polls (ci_send io)) (sd_sends (ci_send io));
  hc_recv : steady (rv_polls (ci_recv io)) (rv_recvs (ci_recv io));
  hc_send_calls : (full_frame <= length (sd_polls (ci_send io)) `min` length (sd_sends (ci_send io)))%nat;
  hc_recv_calls : (full_frame <= length (rv_polls (ci_recv io)) `min` length (rv_recvs (ci_recv io)))%nat;
}.

Definition healthy_server (sio : ServerIo) : Prop :=
  (steady (si_recv_polls sio) (si_recvs sio) /\
   (full_frame <= length (si_recv_polls sio) `min` length (si_recvs sio))%nat) /\
  (steady_send (si_send_polls sio) (si_sends sio) /\
   (full_frame <= length (si_send_polls sio) `min` length (si_sends sio))%nat).

Lemma write_full_steady data sent polls sends :
  steady_send polls sends -> (length data <= length polls)%nat -> (length data <= length sends)%nat ->
  exists s, write_full data sent polls sends = (Some (Ok tt), s) /\ sd_sent s = sent ++ data /\
    steady_send (sd_polls s) (sd_sends s) /\
    (length polls <= length (sd_polls s) + length data)%nat /\ (length sends <= length (sd_sends s) + length data)%nat.
Proof.
  revert data sent sends. induction polls as [|p polls IH]; intros data sent sends [Hp Hs] Hlp Hls;
    (destruct data as [|x data]; [eexists; split; [done|]; cbn; rewrite app_nil_r; split_and!; [done|done|lia|lia]|]);
    [simpl in Hlp; lia|].
  destruct sends as [|a sends]; [simpl in Hls; lia|].
  inversion Hp as [|? ? -> Hp']. inversion Hs as [|? ? Ha Hs']. subst. destruct a as [k| | |]; try done.
  cbn [write_full]. set (d := x :: data) in *.
  destruct (IH (drop (N.to_nat k) d) (sent ++ take (N.to_nat k) d) sends) as (s & -> & Hsent & Hst & H1 & H2);
    [done|rewrite length_drop; simpl in *; lia..|].
  exists s. rewrite length_drop in H1, H2. split_and!; [done| |done|simpl in *; lia..].
  by rewrite Hsent, <- app_assoc, take_drop.
Qed.

Lemma write_frame_steady payload polls sends :
  len payload <= kMaxPayloadBytes -> steady_send polls sends ->
  (4 + length payload <= length polls)%nat -> (4 + length payload <= length sends)%nat ->
  exists s, write_frame payload (mkSendSide [] polls sends) = (Some (Ok tt), s) /\ sd_sent s = frame_of payload.
Proof.
  intros Hl Hst Hp Hs. unfold write_frame. rewrite (proj2 (N.ltb_ge _ _) Hl). cbn [sd_sent sd_polls sd_sends].
  destruct (write_full_steady (put_le 4 0 (len payload)) [] polls sends) as (s1 & -> & Hs1 & Hst1 & H1 & H2);
    [done|rewrite put_le_length; lia..|]. rewrite put_le_length in H1, H2.
  destruct (write_full_steady payload (sd_sent s1) (sd_polls s1) (sd_sends s1)) as (s2 & -> & Hs2 & _); [done|lia..|].
  exists s2. split; [done|]. by rewrite Hs2, Hs1.
Qed.

(** A working client sends its request, and decodes the frame it gets. *)
Lemma healthy_sent endpoint request io payload :
  endpoint_rejected endpoint = false -> request_payload request = Some payload ->
  kMinPayloadBytes <= len payload <= kMaxPayloadBytes -> healthy_client io ->
  sd_sent (ci_send (request_response endpoint request (with_inbound [] io)).2) = frame_of payload.
Proof.
  intros He Hp Hl [Hsock Hconn Hnew Hsend Hrecv Hsc Hrc]. rewrite request_response_send. unfold request_response.
  rewrite He. unfold encode_request_payload, append_payload. rewrite Hp, Hsock, Hconn, app_nil_l. cbn [negb].
  destruct (ci_send io) as [sent polls sends] eqn:Hs. cbn in *. subst sent.
  destruct (write_frame_steady payload polls sends) as (s & -> & Hsent); [lia|done|unfold full_frame, len in *; lia..|].
  by repeat case_match.
Qed.

Lemma healthy_call endpoint request io payload p response :
  endpoint_rejected endpoint = false -> request_payload request = Some payload ->
  kMinPayloadBytes <= len payload <= kMaxPayloadBytes -> healthy_client io ->
  kMinPayloadBytes <= len p <= kMaxPayloadBytes -> decode_response_payload p = Ok response ->
  (call endpoint request (with_inbound (frame_of p) io)).1 = Some (mkClientResult CL_kNone response).
Proof.
  intros He Hp Hl [Hsock Hconn Hnew Hsend Hrecv Hsc Hrc] Hpl Hdec. unfold call, request_response, with_inbound.
  cbn [ci_socket ci_connect ci_waits ci_send ci_recv].
  rewrite He. unfold encode_request_payload, append_payload. rewrite Hp, Hsock, Hconn, app_nil_l. cbn [negb].
  destruct (ci_send io) as [sent polls sends] eqn:Hs. cbn [sd_sent sd_polls sd_sends] in *. subst sent.
  destruct (write_frame_steady payload polls sends) as (s & -> & Hsent); [lia|done|unfold full_frame, len in *; lia..|].
  destruct (read_frame_steady p [] (mkRecvSide (frame_of p) (rv_polls (ci_recv io)) (rv_recvs (ci_recv io))))
    as (r & -> & _); [done|by rewrite app_nil_r|done|unfold full_frame, len in *; cbn; lia..|]. by rewrite Hdec.
Qed.

Section rpc_theorem.
Context {W : Type} `{StateStoreLaws W} `{JobControlFits W}.
Variables (c : IpcServiceConfig) (src : Sources) (delegate : option (PeerCredentials -> IpcRequest -> W -> StreamOutcome * W))
  (peer : PeerCredentials).

(** A frame error never reaches the service. *)
Lemma serve_error e (w : W) : (serve c src delegate peer (Err e) w).2 = w.
Proof. by destruct e. Qed.

Lemma reject_replies e :
  exists p, reject_connection RK_kSubmit (IpcDecodeError_to_string e) = Replied p /\
    decode_response_payload p = Ok (error_response RK_kSubmit IE_kProtocol (IpcDecodeError_to_string e)).
Proof. destruct e; eexists; (split; [vm_compute; reflexivity|by apply error_reply_decodes]). Qed.

Lemma serve_request request payload (w : W) :
  DaemonFits src w -> delegate = None \/ rq_kind request <> RK_kLogsFollow ->
  decode_request_payload payload = request_received request ->
  exists p, serve c src delegate peer (Ok payload) w = (Replied p, (request_outcome c src peer request w).2) /\
    decode_response_payload p = Ok (request_outcome c src peer request w).1.
Proof.
  intros Hd Hdel Hdec. unfold serve, request_outcome. rewrite Hdec.
  assert (forall r, request_received request = Ok r -> rq_kind r = rq_kind request) as Hcan.
  { unfold request_received, request_canonical. intros r. destruct (_ && _); [done|]. intros [= <-]. by destruct (rq_kind request). }
  destruct (request_received request) as [r|e] eqn:Hrec.
  2: { destruct (reject_replies e) as (p & -> & Hp). by exists p. }
  replace (if bool_decide (rq_kind r = RK_kLogsFollow) then delegate else None)
    with (@None (PeerCredentials -> IpcRequest -> W -> StreamOutcome * W)).
  2: { rewrite (Hcan r eq_refl). case_bool_decide; [by destruct Hdel|done]. }
  pose proof (handle_response_ok c src peer r w Hd) as Hok. pose proof (handle_kind c src peer r w) as Hkind.
  apply decode_request_version in Hdec as [_ Hkv]. unfold service_answer.
  destruct (handle c src peer r w) as [response w']. cbn [fst snd] in *. cbv zeta. rewrite <- Hkind in *.
  destruct (write_response_reply {| response with rs_version := rq_version r |}) as (p & -> & Hp);
    [by apply ResponseOk_version|done|]. exists p. by split.
Qed.

(** What the daemon does with bytes that are not a whole frame *)
Lemma serve_connection_cut sio arrived (w : W) :
  (forall polls recvs p s, read_frame (mkRecvSide arrived polls recvs) <> Some (Ok p, s)) ->
  (serve_connection c src delegate peer sio arrived w).2 = w.
Proof.
  intros Hcut. unfold serve_connection. destruct (read_frame _) as [[[p|e] s]|] eqn:Hr; [by apply Hcut in Hr| |done].
  pose proof (serve_error e w) as He. destruct (serve _ _ _ _ _ _) as [served w']. done.
Qed.

(** What it does with a whole one: nothing, with no answer, or the request's
    outcome *)
Lemma serve_connection_frame sio request payload (w : W) :
  DaemonFits src w -> delegate = None \/ rq_kind request <> RK_kLogsFollow ->
  kMinPayloadBytes <= len payload <= kMaxPayloadBytes ->
  decode_request_payload payload = request_received request ->
  let '(reply, w') := serve_connection c src delegate peer sio (frame_of payload) w in
  (reply = [] /\ w' = w) \/
  (w' = (request_outcome c src peer request w).2 /\
   exists p left, decode_response_payload p = Ok (request_outcome c src peer request w).1 /\
     frame_of p = reply ++ left).
Proof.
  intros Hd Hdel Hlen Hdec. unfold serve_connection.
  assert (rv_inbound (mkRecvSide (frame_of payload) (si_recv_polls sio) (si_recvs sio)) = frame_of payload ++ []) as Hin
    by (by rewrite app_nil_r).
  destruct (read_frame _) as [[[q|e] s]|] eqn:Hr; [| |by left].
  - apply (read_frame_complete _ _ _ _ _ (proj2 Hlen) Hin) in Hr as [-> _].
    destruct (serve_request _ _ w Hd Hdel Hdec) as (p & -> & Hp). right. split; [done|].
    pose proof (write_frame_prefix p (si_send_polls sio) (si_sends sio) (proj2 (decode_response_len _ _ Hp))) as Hw.
    destruct (write_frame p _) as [res sent]. destruct Hw as (left & Hf & _). by exists p, left.
  - apply (read_frame_failure _ _ _ _ _ Hlen Hin) in Hr as [->|[->| ->]]; by left.
Qed.

(** C28. A client is told what happened.  Whatever the kernel does to the two ends of
    a fresh connection, the service handles the request at most once; and when
    [call] returns a response, the service has handled exactly this request (as
    the wire format carries it), and the response is its answer (or the INTERNAL
    error that stands for an answer too large for a frame).  An INSPECT request of
    version 1 is the exception: the service never sees it and a response is
    the PROTOCOL error.  This is about [call]: a LOGS_FOLLOW request is
    included only where the server has no stream delegate, and streams are
    the subject of [follow].  The request's integers are those of their C++
    types, and the daemon's state is one its invariants allow, with record fields
    and the GPU snapshot within the ranges of the wire format. *)
Theorem rpc_exact endpoint request io sio (w : W) :
  RequestInRange request -> delegate = None \/ rq_kind request <> RK_kLogsFollow ->
  DaemonFits src w -> sd_sent (ci_send io) = [] ->
  let '(result, w') := rpc c src delegate peer endpoint request io sio w in
  let outcome :=
    if bool_decide (rq_kind request = RK_kInspect) && (rq_version request <? 2)
    then (error_response RK_kSubmit IE_kProtocol (IpcDecodeError_to_string DE_kBadKind), w)
    else (service_answer c src peer (request_canonical request) w, (handle c src peer (request_canonical request) w).2) in
  (w' = w \/ w' = outcome.2) /\
  forall r, result = Some r -> cr_error r = CL_kNone -> w' = outcome.2 /\ cr_response r = outcome.1.
Proof.
  intros Hr Hdel Hd Hnew.
  replace (if bool_decide (rq_kind request = RK_kInspect) && (rq_version request <? 2) then _ else _)
    with (request_outcome c src peer request w).
  2: { unfold request_outcome, request_received. by destruct (_ && _). }
  unfold rpc. rewrite call_io, request_response_send.
  pose proof (request_response_cases endpoint request io Hnew) as Hcases.
  destruct (request_response endpoint request io) as [res0 io0] eqn:Hrr. cbn [fst snd].
  destruct (serve_connection c src delegate peer sio (sd_sent (ci_send io0)) w) as [reply w'] eqn:Hserve.
  pose proof (request_response_cases endpoint request (with_inbound reply io) Hnew) as Hagain.
  pose proof (request_response_send endpoint request io reply) as Hsend. rewrite Hrr in Hsend.
  pose proof (call_success endpoint request (with_inbound reply io)) as Hcall.
  destruct (request_response endpoint request (with_inbound reply io)) as [res io1]. cbn [fst snd] in *.
  rewrite Hsend in Hagain. set (outcome := request_outcome c src peer request w) in *.
  assert ((forall r, res <> Some (Ok r)) -> w' = w -> (w' = w \/ w' = outcome.2) /\
    forall r, (call endpoint request (with_inbound reply io)).1 = Some r -> cr_error r = CL_kNone ->
      w' = outcome.2 /\ cr_response r = outcome.1) as Hfail.
  { intros Hno Hw. split; [by left|]. intros r Hc He. by destruct (Hno _ (Hcall r Hc He)). }
  assert (forall arrived, sd_sent (ci_send io0) = arrived -> (forall polls recvs p s, read_frame (mkRecvSide arrived polls recvs) <> Some (Ok p, s)) ->
    w' = w) as Hcut.
  { intros arrived <- Hc. pose proof (serve_connection_cut sio _ w Hc) as Hw. by rewrite Hserve in Hw. }
  destruct Hagain as [[Hnone Hres]|(payload & Hp & Hagain)].
  { apply Hfail; [done|]. apply (Hcut _ Hnone). intros. apply read_frame_nil. }
  destruct (request_payload_ok _ _ Hr Hp) as [Hlen Hdec].
  destruct Hagain as [[Hsent Hres]|[(left & Hleft & Hne) Hres]].
  2: { apply Hfail; [done|]. apply (Hcut _ eq_refl). intros polls recvs p s.
       by apply (read_frame_cut payload left (mkRecvSide (sd_sent (ci_send io0)) polls recvs) p s (proj2 Hlen)). }
  pose proof (serve_connection_frame sio _ _ w Hd Hdel Hlen Hdec) as Hsc. rewrite <- Hsent, Hserve in Hsc.
  destruct Hsc as [[-> ->]|(-> & p & left & Hpdec & Hf)].
  - apply Hfail; [|done]. intros r Hok. destruct (Hres r Hok) as (q & rest & Hq & _). by apply read_frame_nil in Hq.
  - split; [by right|]. intros r Hc He. split; [done|].
    destruct (Hres _ (Hcall r Hc He)) as (q & rest & Hq & Hqdec).
    pose proof (decode_response_len _ _ Hpdec) as [_ Hmax]. destruct left as [|b left].
    + apply (read_frame_complete p []) in Hq as [-> _]; [subst outcome; congruence|done|].
      rewrite Hf, app_nil_r. by rewrite app_nil_r.
    + exfalso. by apply (read_frame_cut p (b :: left) (ci_recv (with_inbound reply io)) q rest) in Hq.
Qed.

(** A client whose connection works is answered: when no call on either end
    fails and each end has enough answers for a full frame, [call] returns the
    request's outcome: the service's answer, the request having been handled, or
    the rejection. *)
Theorem rpc_delivers endpoint request io sio (w : W) :
  RequestInRange request -> delegate = None \/ rq_kind request <> RK_kLogsFollow ->
  DaemonFits src w -> endpoint_rejected endpoint = false -> is_Some (request_payload request) ->
  healthy_client io -> healthy_server sio ->
  rpc c src delegate peer endpoint request io sio w =
    (Some (mkClientResult CL_kNone (request_outcome c src peer request w).1), (request_outcome c src peer request w).2).
Proof.
  intros Hr Hdel Hd He [payload Hp] Hio [[Hs1 Hs2] [Hs3 Hs4]].
  destruct (request_payload_ok _ _ Hr Hp) as [Hlen Hdec].
  unfold rpc. rewrite call_io, (healthy_sent _ _ _ payload) by done.
  destruct (serve_request _ _ w Hd Hdel Hdec) as (p & Hserve & Hpdec).
  pose proof (decode_response_len _ _ Hpdec) as Hplen. unfold serve_connection.
  destruct (read_frame_steady payload [] (mkRecvSide (frame_of payload) (si_recv_polls sio) (si_recvs sio)))
    as (s & -> & _); [done|by rewrite app_nil_r|done|cbn; unfold full_frame, len in *; lia..|].
  cbv beta iota. unfold bytes in *. rewrite Hserve. destruct (write_frame_steady p (si_send_polls sio) (si_sends sio)) as (s' & -> & Hs');
    [by apply Hplen|done|unfold full_frame, len in *; lia..|]. cbn [snd]. rewrite Hs'.
  rewrite (healthy_call _ _ _ payload p (request_outcome c src peer request w).1) by done. done.
Qed.

End rpc_theorem.

(** ** Streams: what the handler sees *)

Section follow_theorem.
Context {H : Type} (on_frame : IpcStreamFrame -> H -> bool * H).

(** Each frame takes a [read(2)], so the bound on rounds in [follow] is never
    what ends the loop. *)
Lemma read_full_calls n received inbound polls recvs out s :
  read_full n received inbound polls recvs = Some (Ok out, s) ->
  (length (rv_recvs s) + (if (len received <? n)%N then 1 else 0) <= length recvs)%nat.
Proof.
  revert received inbound polls. induction recvs as [|a recvs IH]; intros received inbound polls Hr; simpl in Hr;
    destruct (len received <? n); try (by injection Hr as _ <-; simpl; lia);
    destruct (wait_readable polls) as [[[[]|] polls']|]; try done.
  destruct a as [k| | | |]; try done; try (apply IH in Hr; simpl; repeat case_match; lia).
  destruct (take _ inbound); [done|]. apply IH in Hr. simpl. repeat case_match; lia.
Qed.

Lemma read_frame_calls s p s' : read_frame s = Some (Ok p, s') -> (length (rv_recvs s') < length (rv_recvs s))%nat.
Proof.
  unfold read_frame. destruct (read_full 4 _ _ _ _) as [[[header|] s1]|] eqn:H1; [|done|done].
  apply read_full_calls in H1. simpl in H1. repeat case_match; try done. intros Hbody%read_full_calls. lia.
Qed.

Lemma follow_stream_enough rounds r h :
  (length (rv_recvs r) < rounds)%nat ->
  follow_stream on_frame rounds r h = follow_stream on_frame (S (length (rv_recvs r))) r h.
Proof.
  enough (forall n m r h, (length (rv_recvs r) < n)%nat -> (length (rv_recvs r) < m)%nat ->
    follow_stream on_frame n r h = follow_stream on_frame m r h) as Hall by (intros; apply Hall; lia).
  clear. induction n as [|n IH]; intros [|m] r h Hn Hm; try lia. simpl.
  destruct (read_frame r) as [[[p|e] r']|] eqn:Hr; [|done|done]. apply read_frame_calls in Hr.
  destruct (decode_stream_frame_payload p) as [f|e]; [|done]. destruct (on_frame f h) as [[] h'], (final_frame f); cbn [negb]; try done.
  apply IH; lia.
Qed.

(** The reference: the handler called on each frame until it stops or the frame
    is a final one; and whether it came to that. *)
Fixpoint feed (fs : list IpcStreamFrame) (h : H) : bool * H :=
  match fs with
  | [] => (false, h)
  | f :: fs => let '(continue, h) := on_frame f h in if negb continue || final_frame f then (true, h) else feed fs h
  end.

(** The bytes of a sequence of frames *)
Fixpoint stream_of (fs : list IpcStreamFrame) : Enc :=
  match fs with
  | [] => Some []
  | f :: fs => match stream_payload f with Some p => Some (frame_of p) +++ stream_of fs | None => None end
  end.

(** The beginning of a frame that never came to its end (or nothing) *)
Definition cut (left : bytes) : Prop :=
  exists p rest, len p <= kMaxPayloadBytes /\ frame_of p = left ++ rest /\ rest <> [].

Lemma stream_payload_ok f p :
  FrameInRange f -> stream_payload f = Some p ->
  kMinPayloadBytes <= len p <= kMaxPayloadBytes /\ decode_stream_frame_payload p = Ok (frame_canonical f).
Proof.
  intros Hf Hp. apply stream_payload_some in Hp as (Hp & Hmax). split.
  - pose proof (payload_length_valid _ _ _ _ Hp Hmax) as Hl. unfold ipc_payload_length_valid in Hl.
    apply andb_true_iff in Hl. rewrite !N.leb_le in Hl. exact Hl.
  - unfold decode_stream_frame_payload. rewrite decode_within by done. eapply rt_all; [|exact Hp]. by apply rt_frame.
Qed.

Lemma stream_of_cons f fs sent :
  stream_of (f :: fs) = Some sent ->
  exists p sent', stream_payload f = Some p /\ stream_of fs = Some sent' /\ sent = frame_of p ++ sent'.
Proof.
  cbn [stream_of]. destruct (stream_payload f) as [p|]; [|done]. destruct (stream_of fs) as [sent'|]; [|done].
  intros Hs%(inj Some). exists p, sent'. split; [reflexivity|]. split; [reflexivity|]. symmetry. exact Hs.
Qed.

Lemma frame_failure_none e : frame_failure e <> CL_kNone.
Proof. by destruct e. Qed.

Lemma stream_shown fs sent left rounds r h res h' :
  Forall FrameInRange fs -> stream_of fs = Some sent -> cut left -> rv_inbound r = sent ++ left ->
  follow_stream on_frame rounds r h = (res, h') ->
  exists n, feed (take n (frame_canonical <$> fs)) h = (bool_decide (res = Some CL_kNone), h').
Proof.
  intros Hfs Hsent Hcut Hin Hrun. revert fs sent r h Hfs Hsent Hin Hrun.
  induction rounds as [|rounds IH]; intros fs sent r h Hfs Hsent Hin Hrun; [simplify_eq/=; by exists 0%nat|].
  cbn [follow_stream] in Hrun. destruct (read_frame r) as [[[p|e] r']|] eqn:Hr.
  2: { simplify_eq. exists 0%nat. rewrite bool_decide_eq_false_2; [done|]. intros [= He]. by apply frame_failure_none in He. }
  2: { simplify_eq. by exists 0%nat. }
  destruct fs as [|f fs].
  { exfalso. cbn [stream_of] in Hsent. injection Hsent as <-. destruct Hcut as (q & rest & Hq & Hf & Hne). rewrite app_nil_l in Hin.
    rewrite <- Hin in Hf. by apply (read_frame_cut _ _ _ _ _ Hq Hf Hne) in Hr. }
  apply stream_of_cons in Hsent as (q & sent' & Hq & Hsent & ->). rewrite <- app_assoc in Hin.
  inversion Hfs as [|? ? Hf Hfs']; subst. destruct (stream_payload_ok _ _ Hf Hq) as [Hlen Hdec].
  apply (read_frame_complete _ _ _ _ _ (proj2 Hlen) Hin) in Hr as [-> Hin']. rewrite Hdec in Hrun.
  destruct (on_frame (frame_canonical f) h) as [continue h1] eqn:Hon.
  destruct continue, (final_frame (frame_canonical f)) eqn:Hfin; cbn [negb] in Hrun.
  2: { destruct (IH _ _ _ _ Hfs' Hsent Hin' Hrun) as [n Hn]. exists (S n). cbn [feed take fmap list_fmap]. by rewrite Hon, Hfin. }
  all: simplify_eq; exists 1%nat; cbn [feed take fmap list_fmap]; rewrite Hon, ?Hfin; cbn [negb orb]; by rewrite bool_decide_eq_true_2.
Qed.

(** A follower sees the stream.  When the daemon sent the frames [fs] and then
    perhaps a part of another, the handler is called on them in order, as the
    wire format carries them, up to some point; [follow] ends without error
    exactly when that point is a frame that the handler stopped at or that ends
    the stream, and then no later frame was shown. *)
Theorem follow_stream_exact fs sent left rounds r h res h' :
  Forall FrameInRange fs -> stream_of fs = Some sent -> cut left -> rv_inbound r = sent ++ left ->
  follow_stream on_frame rounds r h = (res, h') ->
  exists n, feed (take n (frame_canonical <$> fs)) h = (bool_decide (res = Some CL_kNone), h').
Proof. apply stream_shown. Qed.

(** Over a connection that works, a follower sees the whole stream. *)
Lemma follow_stream_delivers fs sent rest rounds r h h' :
  Forall FrameInRange fs -> stream_of fs = Some sent -> rv_inbound r = sent ++ rest ->
  steady (rv_polls r) (rv_recvs r) -> (length sent <= length (rv_polls r) `min` length (rv_recvs r))%nat ->
  (length fs <= rounds)%nat -> feed (frame_canonical <$> fs) h = (true, h') ->
  follow_stream on_frame rounds r h = (Some CL_kNone, h').
Proof.
  revert sent rounds r h. induction fs as [|f fs IH]; intros sent rounds r h Hfs Hsent Hin Hst Hlen Hrounds Hfeed; [done|].
  destruct rounds as [|rounds]; [simpl in Hrounds; lia|]. apply stream_of_cons in Hsent as (q & sent' & Hq & Hsent & ->).
  rewrite <- app_assoc in Hin. inversion Hfs as [|? ? Hf Hfs']; subst. destruct (stream_payload_ok _ _ Hf Hq) as [Hl Hdec].
  unfold frame_of in Hlen. rewrite !length_app, put_le_length in Hlen.
  destruct (read_frame_steady q (sent' ++ rest) r Hl Hin Hst) as (r' & Hr & Hin' & Hst' & H1 & H2); [lia..|].
  cbn [follow_stream]. rewrite Hr, Hdec. cbn [feed fmap list_fmap] in Hfeed. destruct (on_frame (frame_canonical f) h) as [continue h1].
  destruct continue, (final_frame (frame_canonical f)); cbn [negb orb] in *; try by simplify_eq.
  eapply IH; [done..|lia|simpl in Hrounds; lia|done].
Qed.

End follow_theorem.

(** ** Witnesses *)

Definition example_io (answers : nat) : ClientIo :=
  mkClientIo true (ConnectErr EINPROGRESS) [ConnErr EINTR; ConnReady (Ok None)]
    (mkSendSide [] (replicate answers (PollReady true)) (replicate answers (SendUpTo 3)))
    (mkRecvSide [] (replicate answers (PollReady true)) (replicate answers (RecvUpTo 7))).

Definition example_sio (answers : nat) : ServerIo :=
  mkServerIo (replicate answers (PollReady true)) (replicate answers (RecvUpTo 1))
    (replicate answers (PollReady true)) (replicate answers (SendUpTo 64)).

Definition example_ps : IpcRequest := blank_request RK_kPs 4.

Lemma example_ps_in_range : RequestInRange example_ps.
Proof. constructor; try discriminate. by intros v [|]. Qed.

(** A server that takes over every stream *)
Definition example_delegate : option (PeerCredentials -> IpcRequest -> InMemoryStateStore -> StreamOutcome * InMemoryStateStore) :=
  Some (fun _ request w => (mkStreamOutcome true (error_response (rq_kind request) IE_kInternal ""), w)).

Definition example_rpc := rpc default_service_config example_sources example_delegate other_peer "/run/yori.sock" example_ps
  (example_io 200) (example_sio 200) example_store.

Lemma rpc_exact_witness :
  exists r, example_rpc.1 = Some r /\
    cr_response r = service_answer default_service_config example_sources other_peer example_ps example_store.
Proof.
  pose proof (rpc_exact default_service_config example_sources example_delegate other_peer "/run/yori.sock" example_ps
    (example_io 200) (example_sio 200) example_store example_ps_in_range ltac:(by right) example_daemon_fits eq_refl) as Hx.
  change (rpc _ _ _ _ _ _ _ _ _) with example_rpc in Hx.
  assert (exists r, example_rpc.1 = Some r /\ cr_error r = CL_kNone) as (r & Hr & He).
  { eexists. split; [vm_compute; reflexivity|reflexivity]. }
  destruct example_rpc as [result w']. cbn in Hr. exists r. split; [exact Hr|].
  destruct Hx as [_ Hx]. destruct (Hx r Hr He) as [_ Hresp]. exact Hresp.
Defined.

Lemma example_io_healthy : healthy_client (example_io full_frame).
Proof.
  constructor; cbn [example_io ci_socket ci_connect ci_waits ci_send ci_recv sd_sent sd_polls sd_sends rv_polls rv_recvs];
    rewrite ?length_replicate, ?Nat.min_id; try done; split; apply Forall_replicate; done.
Qed.

Lemma example_sio_healthy : healthy_server (example_sio full_frame).
Proof.
  unfold healthy_server. cbn [example_sio si_recv_polls si_recvs si_send_polls si_sends].
  rewrite !length_replicate, !Nat.min_id. split; (split; [split; apply Forall_replicate|]); done.
Qed.

Lemma rpc_delivers_witness :
  rpc default_service_config example_sources example_delegate other_peer "/run/yori.sock" example_ps
    (example_io full_frame) (example_sio full_frame) example_store =
  (Some (mkClientResult CL_kNone (service_answer default_service_config example_sources other_peer example_ps example_store)),
   (handle default_service_config example_sources other_peer example_ps example_store).2).
Proof.
  apply (rpc_delivers default_service_config example_sources example_delegate other_peer "/run/yori.sock" example_ps
    (example_io full_frame) (example_sio full_frame) example_store).
  - exact example_ps_in_range.
  - by right.
  - exact example_daemon_fits.
  - reflexivity.
  - eexists. vm_compute. reflexivity.
  - exact example_io_healthy.
  - exact example_sio_healthy.
Defined.

(** A handler that keeps the frames it saw *)
Definition collect (f : IpcStreamFrame) (seen : list IpcStreamFrame) : bool * list IpcStreamFrame := (true, seen ++ [f]).

Definition example_stream : list IpcStreamFrame :=
  let d := blank_frame SK_kLogData in
  [{| d with sf_end_offset := 2; sf_data := ["a"; "b"]%char |}; blank_frame SK_kLogEof; blank_frame SK_kLogGap].

Definition example_stream_side : RecvSide :=
  mkRecvSide (default [] (stream_of example_stream) ++ ["009"]%char) (replicate 60 (PollReady true)) (replicate 60 (RecvUpTo 2)).

Lemma follow_stream_exact_witness :
  exists n, feed collect (take n (frame_canonical <$> example_stream)) [] = (true, take 2 example_stream).
Proof.
  destruct (follow_stream_exact collect example_stream (default [] (stream_of example_stream)) ["009"]%char 9
    example_stream_side [] (Some CL_kNone) (take 2 example_stream)) as [n Hn].
  - repeat constructor; discriminate.
  - vm_compute. reflexivity.
  - exists (replicate 9 "a"%char). eexists. split; [vm_compute; discriminate|]. split; [vm_compute; reflexivity|discriminate].
  - reflexivity.
  - vm_compute. reflexivity.
  - exists n. exact Hn.
Defined.
