(* ===== verification/Endpoint.v ===== *)
(** * The request server's endpoint and worker: [src/runtime/ipc_server.{hpp,cpp}]

    [UdsIpcServer]: its configuration, [start] (replacing a stale socket,
    binding, permissions, listening, the wake pipe and the worker), [stop], and
    the worker's rounds ([accept_once], [run]) around [serve] of [Server.v].

    The endpoint is the file at the configured path, the process's descriptors
    are a list; the kernel's and the executor's answers are arguments.

    [start_exact]: nothing but a socket is ever replaced, the socket is at no
    time more open than configured, and a failed start leaves no descriptor.
    [endpoint_session]: any sequence of starts and stops.  [run_serves]: the
    worker serves connections one at a time, in order, and closes each unless
    the stream delegate took it. *)

From S2P Require Import Prelude.
From S2P Require Import Job.
From S2P Require Import Gpu.
From S2P Require Import Store.
From S2P Require Import Queue.
From S2P Require Import Scheduler.
From S2P Require Import Wire.
From S2P Require Import Request.
From S2P Require Import Response.
From S2P Require Import Service.
From S2P Require Import Server.
From S2P Require Import Client.

(** ** Configuration *)

Definition kMaxSocketPathBytes : N := 107.

(** [UdsIpcServerConfig] *)
Record UdsIpcServerConfig := mkServerConfig {
  uc_socket_path : string;
  uc_socket_owner_uid : N;
  uc_socket_owner_gid : N;
  uc_apply_ownership : bool;
  uc_socket_mode : N;
  uc_request_deadline : Z;
}.

(** [0777] *)
Definition mode_all : N := 511.

(** [UdsIpcServerConfig::valid], with the message it leaves *)
Definition server_config_valid (c : UdsIpcServerConfig) : Result string unit :=
  let path := uc_socket_path c in
  reject_if match path with
            | EmptyString => true
            | String a _ => negb (Ascii.eqb a "/") || (kMaxSocketPathBytes <? slen path)
            end
    with "socket path must be absolute and at most 107 bytes";
  reject_if mode_all <? uc_socket_mode c with "socket mode must be at most 0777";
  reject_if (uc_request_deadline c <=? 0)%Z with "request deadline must be positive";
  Ok tt.

(** ** Starting *)

(** The file at the endpoint's path *)
Inductive Node := NoNode | SocketNode (mode uid gid : N) | OtherNode.

#[export] Instance Node_eq_dec : EqDecision Node.
Proof. solve_decision. Defined.

(** The host: that file, and the descriptors the process has open *)
Record Host := mkHost {
  ho_node : Node;
  ho_open : list N;
}.

(** [close(2)] *)
Definition close_fd (fd : N) (h : Host) : Host := {| h with ho_open := filter (fun x => x <> fd) (ho_open h) |}.

(** [unlink(2)] of the endpoint; failure is ignored by those who clean up. *)
Definition unlink_node (ok : bool) (h : Host) : Host := if ok then {| h with ho_node := NoNode |} else h.

(** [UdsIpcServer::Impl] *)
Record UdsIpcServer := mkServer {
  us_config : UdsIpcServerConfig;
  us_listen_fd : option N;
  us_wake_read : option N;
  us_wake_write : option N;
  us_worker_stopping : bool;
  us_started : bool;
  us_stop_requested : bool;
}.

Definition new_server (c : UdsIpcServerConfig) : UdsIpcServer := mkServer c None None None false false false.

(** [IpcTransportStartResult] *)
Record IpcTransportStartResult := mkStartResult {
  sr_code : IpcTransportStartCode;
  sr_message : string;
}.

(** The answers of the calls [start] makes: [lstat(2)] when there is a reason
    to fail other than [ENOENT], [unlink(2)] of a stale socket, [socket(2)],
    [bind(2)], [chmod(2)], [chown(2)], [listen(2)], [pipe2(2)], the executor's
    [start_worker], [unlink(2)] when cleaning up; and the identity of the
    process. *)
Record StartAnswers := mkStartAnswers {
  sa_inspect : bool;
  sa_unlink : bool;
  sa_socket : option N;
  sa_bind : bool;
  sa_chmod : bool;
  sa_chown : bool;
  sa_listen : bool;
  sa_pipe : option (N * N);
  sa_worker : bool;
  sa_cleanup : bool;
  sa_uid : N;
  sa_gid : N;
}.

(** A failure after [bind(2)]: the socket is closed and the endpoint removed. *)
Definition abandon_bound (a : StartAnswers) (fd : N) (h : Host) : Host := unlink_node (sa_cleanup a) (close_fd fd h).

(** The mode of the inode that [bind(2)] creates under the umask
    [0777 & ~socket_mode] *)
Definition bound_mode (mode : N) : N := N.ldiff mode_all (N.ldiff mode_all mode).

(** The part of [start] before the socket is created: what becomes of a file at
    the endpoint *)
Definition clear_endpoint (c : UdsIpcServerConfig) (a : StartAnswers) (h : Host)
  : Result IpcTransportStartResult Host :=
  if negb (sa_inspect a)
  then Err (mkStartResult TX_kEndpointRejected ("endpoint cannot be inspected: " +:+ uc_socket_path c))
  else
    match ho_node h with
    | NoNode => Ok h
    | OtherNode =>
        Err (mkStartResult TX_kEndpointRejected ("endpoint exists and is not a socket: " +:+ uc_socket_path c))
    | SocketNode _ _ _ =>
        if sa_unlink a then Ok {| h with ho_node := NoNode |}
        else Err (mkStartResult TX_kEndpointRejected ("stale endpoint cannot be removed: " +:+ uc_socket_path c))
    end.

(** The part of [start] from the bound socket on; the trace is the files that
    were at the endpoint. *)
Definition start_bound (a : StartAnswers) (fd : N) (s : UdsIpcServer) (h : Host)
  : IpcTransportStartResult * UdsIpcServer * Host * list Node :=
  let c := us_config s in
  let abandon code message (h : Host) (trace : list Node) := (mkStartResult code message, s, abandon_bound a fd h, trace) in
  let bound := SocketNode (bound_mode (uc_socket_mode c)) (sa_uid a) (sa_gid a) in
  let h := {| h with ho_node := bound |} in
  if negb (sa_chmod a) then abandon TX_kEndpointRejected "socket chmod failed" h [bound]
  else
    let moded := SocketNode (uc_socket_mode c) (sa_uid a) (sa_gid a) in
    let h := {| h with ho_node := moded |} in
    if uc_apply_ownership c && negb (sa_chown a)
    then abandon TX_kEndpointRejected "socket chown failed (requires root or matching owner)" h [bound; moded]
    else
      let owned := if uc_apply_ownership c
                   then SocketNode (uc_socket_mode c) (uc_socket_owner_uid c) (uc_socket_owner_gid c) else moded in
      let h := {| h with ho_node := owned |} in
      let trace := [bound; moded; owned] in
      if negb (sa_listen a) then abandon TX_kEndpointRejected "listen failed" h trace
      else
        match sa_pipe a with
        | None => abandon TX_kExecutorRejected "wake pipe creation failed" h trace
        | Some (rd, wr) =>
            let h := {| h with ho_open := rd :: wr :: ho_open h |} in
            if negb (sa_worker a)
            then abandon TX_kExecutorRejected "executor rejected the blocking worker" (close_fd wr (close_fd rd h)) trace
            else (mkStartResult TX_kStarted "",
                  {| s with us_listen_fd := Some fd; us_wake_read := Some rd; us_wake_write := Some wr; us_started := true |},
                  h, trace)
        end.

(** [UdsIpcServer::start] *)
Definition server_start (a : StartAnswers) (s : UdsIpcServer) (h : Host)
  : IpcTransportStartResult * UdsIpcServer * Host * list Node :=
  let c := us_config s in
  if us_started s then (mkStartResult TX_kAlreadyStarted "ipc server already started", s, h, [])
  else if us_stop_requested s
  then (mkStartResult TX_kInvalidConfig "ipc server was stopped and cannot restart", s, h, [])
  else
    match server_config_valid c with
    | Err message => (mkStartResult TX_kInvalidConfig message, s, h, [])
    | Ok _ =>
        match clear_endpoint c a h with
        | Err failure => (failure, s, h, [])
        | Ok h =>
            match sa_socket a with
            | None => (mkStartResult TX_kExecutorRejected "socket creation failed", s, h, [])
            | Some fd =>
                let h := {| h with ho_open := fd :: ho_open h |} in
                if negb (sa_bind a)
                then (mkStartResult TX_kEndpointRejected ("bind failed: " +:+ uc_socket_path c), s, close_fd fd h, [])
                else start_bound a fd s h
            end
        end
    end.

(** ** Stopping *)

Definition close_opt (fd : option N) (h : Host) : Host :=
  match fd with Some fd => close_fd fd h | None => h end.

(** [UdsIpcServer::stop]; the worker's thread has been joined when it returns. *)
Definition server_stop (unlink_ok : bool) (s : UdsIpcServer) (h : Host) : UdsIpcServer * Host :=
  if us_stop_requested s then (s, h)
  else
    let s := {| s with us_stop_requested := true; us_worker_stopping := true |} in
    if negb (us_started s) then (s, h)
    else
      let h := close_opt (us_wake_write s) (close_opt (us_wake_read s) (close_opt (us_listen_fd s) h)) in
      ({| s with us_started := false; us_listen_fd := None; us_wake_read := None; us_wake_write := None |},
       unlink_node unlink_ok h).

(** The owner's calls *)
Inductive endpoint_call := EC_start (a : StartAnswers) | EC_stop (unlink_ok : bool).

Definition endpoint_step (call : endpoint_call) (sh : UdsIpcServer * Host) : UdsIpcServer * Host :=
  match call with
  | EC_start a => let '(_, s, h, _) := server_start a sh.1 sh.2 in (s, h)
  | EC_stop ok => server_stop ok sh.1 sh.2
  end.

(** ** The worker *)

(** The answers of a round's [poll(2)] (with the events of the wake pipe and the
    listening socket) and [accept4(2)] *)
Inductive RoundPoll := RP_timeout | RP_intr | RP_failed | RP_ready (wake listen : bool).
Inductive AcceptAnswer := AcceptFd (fd : N) | AcceptRetry | AcceptFailed.

(** One round: whether the loop was told to stop before it, what the calls
    answer, the value of [stopping_] after the wake pipe was drained, the peer's
    credentials and the frame read from it *)
Record Round := mkRound {
  rd_stop : bool;
  rd_poll : RoundPoll;
  rd_stopping : bool;
  rd_accept : AcceptAnswer;
  rd_peer : option PeerCredentials;
  rd_frame : Result FrameIoError bytes;
}.

Section worker.
Context {W : Type} `{StateStore W, JobControl W}.
Variables (c : IpcServiceConfig) (src : Sources).
Variable delegate : option (PeerCredentials -> IpcRequest -> W -> StreamOutcome * W).

(** [serve] with the peer's credentials: a connection whose peer is unknown is
    closed unread. *)
Definition serve_peer (peer : option PeerCredentials) (frame : Result FrameIoError bytes) (w : W) : Served * W :=
  match peer with
  | None => (Closed, w)
  | Some peer => serve c src delegate peer frame w
  end.

(** The descriptor: closed on every path of [serve] but a take-over *)
Definition serve_client (fd : N) (peer : option PeerCredentials) (frame : Result FrameIoError bytes) (w : W) (h : Host)
  : Served * W * Host :=
  let '(served, w) := serve_peer peer frame w in
  (served, w, match served with TakenOver => h | _ => close_fd fd h end).

(** [accept_once] *)
Definition accept_once (r : Round) (w : W) (h : Host) : option Served * W * Host :=
  match rd_poll r with
  | RP_timeout | RP_intr | RP_failed => (None, w, h)
  | RP_ready wake listen =>
      if wake && rd_stopping r then (None, w, h)
      else if negb listen then (None, w, h)
      else
        match rd_accept r with
        | AcceptRetry | AcceptFailed => (None, w, h)
        | AcceptFd fd =>
            let '(served, w, h) := serve_client fd (rd_peer r) (rd_frame r) w {| h with ho_open := fd :: ho_open h |} in
            (Some served, w, h)
        end
  end.

(** [run] over the rounds of its life, with how each connection ended *)
Fixpoint run (rounds : list Round) (w : W) (h : Host) : list Served * W * Host :=
  match rounds with
  | [] => ([], w, h)
  | r :: rounds =>
      if rd_stop r then ([], w, h)
      else
        let '(served, w, h) := accept_once r w h in
        let '(rest, w, h) := run rounds w h in
        (option_list served ++ rest, w, h)
  end.

End worker.

(** ** Proofs: starting and stopping *)

Lemma remove_fresh (fd : N) (l : list N) : fd ∉ l -> filter (fun x => x <> fd) l = l.
Proof. intros Hf. apply filter_all, Forall_forall. by intros x Hx ->. Qed.

Lemma close_head fd node open : fd ∉ open -> close_fd fd (mkHost node (fd :: open)) = mkHost node open.
Proof. intros Hf. unfold close_fd. cbn [ho_node ho_open]. rewrite filter_cons_False by naive_solver. by rewrite remove_fresh. Qed.

(** The kernel gives out descriptors that are not open. *)
Definition fresh_answers (a : StartAnswers) (h : Host) : Prop :=
  NoDup (option_list (sa_socket a) ++ match sa_pipe a with Some (rd, wr) => [rd; wr] | None => [] end) /\
  Forall (fun fd => fd ∉ ho_open h)
    (option_list (sa_socket a) ++ match sa_pipe a with Some (rd, wr) => [rd; wr] | None => [] end).

(** No bit beyond those configured *)
Definition within_mode (mode : N) (n : Node) : Prop :=
  match n with SocketNode m _ _ => N.ldiff m mode = 0 | _ => False end.

Lemma bound_mode_within mode : N.ldiff (bound_mode mode) mode = 0.
Proof.
  apply N.bits_inj. intros i. unfold bound_mode. rewrite !N.ldiff_spec, N.bits_0.
  by destruct (N.testbit mode_all i), (N.testbit mode i).
Qed.

(** What a start that was not refused makes of the host *)
Record Started (a : StartAnswers) (s s' : UdsIpcServer) (h h' : Host) : Prop := {
  st_node : exists fd rd wr, sa_socket a = Some fd /\ sa_pipe a = Some (rd, wr) /\
    ho_open h' = rd :: wr :: fd :: ho_open h /\
    s' = {| s with us_listen_fd := Some fd; us_wake_read := Some rd; us_wake_write := Some wr; us_started := true |};
  st_mode : ho_node h' =
    (let c := us_config s in
     if uc_apply_ownership c then SocketNode (uc_socket_mode c) (uc_socket_owner_uid c) (uc_socket_owner_gid c)
     else SocketNode (uc_socket_mode c) (sa_uid a) (sa_gid a));
  st_refused : us_started s = false /\ us_stop_requested s = false /\ server_config_valid (us_config s) = Ok tt;
  st_replaced : ho_node h <> OtherNode;
}.

(** What one that failed leaves behind *)
Record NotStarted (a : StartAnswers) (s s' : UdsIpcServer) (h h' : Host) : Prop := {
  ns_server : s' = s;
  ns_open : ho_open h' = ho_open h;
  ns_other : ho_node h = OtherNode -> ho_node h' = OtherNode;
  ns_clean : sa_cleanup a = true -> ho_node h' = ho_node h \/ ho_node h' = NoNode;
}.

Definition BoundOutcome a fd (s : UdsIpcServer) h (out : IpcTransportStartResult * UdsIpcServer * Host * list Node) : Prop :=
  let '(res, s', h', trace) := out in
  Forall (within_mode (uc_socket_mode (us_config s))) trace /\
  if bool_decide (sr_code res = TX_kStarted)
  then (exists rd wr, sa_pipe a = Some (rd, wr) /\ ho_open h' = rd :: wr :: fd :: ho_open h /\
          s' = {| s with us_listen_fd := Some fd; us_wake_read := Some rd; us_wake_write := Some wr; us_started := true |}) /\
       ho_node h' = (let c := us_config s in
         if uc_apply_ownership c then SocketNode (uc_socket_mode c) (uc_socket_owner_uid c) (uc_socket_owner_gid c)
         else SocketNode (uc_socket_mode c) (sa_uid a) (sa_gid a))
  else NotStarted a s s' h h'.

Lemma abandon_outcome a fd s h node code message trace :
  fd ∉ ho_open h -> ho_node h = NoNode -> code <> TX_kStarted ->
  Forall (within_mode (uc_socket_mode (us_config s))) trace ->
  BoundOutcome a fd s h (mkStartResult code message, s, abandon_bound a fd (mkHost node (fd :: ho_open h)), trace).
Proof.
  intros Hfd Hnode Hcode Htrace. split; [done|]. cbn [sr_code]. rewrite bool_decide_eq_false_2 by done.
  unfold abandon_bound, unlink_node. rewrite close_head by done.
  split; [done|by destruct (sa_cleanup a)|by rewrite Hnode|]. intros ->. by right.
Qed.

Lemma start_bound_exact a fd s h :
  sa_socket a = Some fd -> fresh_answers a h -> ho_node h = NoNode ->
  BoundOutcome a fd s h (start_bound a fd s {| h with ho_open := fd :: ho_open h |}).
Proof.
  intros Hs [Hnd Hfresh] Hnode. rewrite Hs in Hnd, Hfresh.
  assert (fd ∉ ho_open h) as Hfd by (by inversion Hfresh).
  pose proof (bound_mode_within (uc_socket_mode (us_config s))) as Hb.
  pose proof (N.ldiff_diag (uc_socket_mode (us_config s))) as Hm.
  unfold start_bound. cbn [ho_node ho_open].
  destruct (sa_chmod a); cbn [negb]; [|apply abandon_outcome; by repeat constructor].
  destruct (uc_apply_ownership (us_config s) && negb (sa_chown a)); [apply abandon_outcome; by repeat constructor|].
  match goal with |- context [[?x; ?y; ?z]] => assert (Forall (within_mode (uc_socket_mode (us_config s))) [x; y; z]) as Htrace end.
  { repeat constructor; try done. by destruct (uc_apply_ownership _). }
  destruct (sa_listen a); cbn [negb]; [|by apply abandon_outcome].
  destruct (sa_pipe a) as [[rd wr]|] eqn:Hpipe; [|by apply abandon_outcome].
  destruct (sa_worker a); cbn [negb].
  - split; [done|]. rewrite bool_decide_eq_true_2 by done. split; [by exists rd, wr|]. cbn. by destruct (uc_apply_ownership _).
  - simpl in Hnd, Hfresh. rewrite !NoDup_cons in Hnd. rewrite !Forall_cons in Hfresh.
    rewrite close_head, close_head by set_solver. by apply abandon_outcome.
Qed.

Lemma refused_not_started a s h : NotStarted a s s h h.
Proof. constructor; auto. Qed.

(** What becomes of a file at the endpoint: a socket goes, anything else stays *)
Lemma clear_endpoint_exact c a h :
  match clear_endpoint c a h with
  | Ok h' => ho_node h' = NoNode /\ ho_open h' = ho_open h /\ ho_node h <> OtherNode
  | Err failure => sr_code failure <> TX_kStarted
  end.
Proof. unfold clear_endpoint. destruct (sa_inspect a); [|done]. destruct (ho_node h) eqn:Hn, (sa_unlink a); simpl; by rewrite ?Hn. Qed.

Definition StartOutcome a (s : UdsIpcServer) h (out : IpcTransportStartResult * UdsIpcServer * Host * list Node) : Prop :=
  let '(res, s', h', trace) := out in
  Forall (within_mode (uc_socket_mode (us_config s))) trace /\
  if bool_decide (sr_code res = TX_kStarted) then Started a s s' h h' else NotStarted a s s' h h'.

Lemma refused_outcome a s h res : sr_code res <> TX_kStarted -> StartOutcome a s h (res, s, h, []).
Proof. intros Hc. split; [done|]. rewrite bool_decide_eq_false_2 by done. apply refused_not_started. Qed.

(** The same when a stale socket has been removed *)
Lemma cleared_outcome a s h h' res :
  ho_node h' = NoNode -> ho_open h' = ho_open h -> ho_node h <> OtherNode -> sr_code res <> TX_kStarted ->
  StartOutcome a s h (res, s, h', []).
Proof.
  intros Hn Ho Hother Hc. split; [done|]. rewrite bool_decide_eq_false_2 by done. constructor; auto. done.
Qed.

Lemma server_start_exact a s h : fresh_answers a h -> StartOutcome a s h (server_start a s h).
Proof.
  intros Hfresh. unfold server_start.
  destruct (us_started s) eqn:Hst; [by apply refused_outcome|].
  destruct (us_stop_requested s) eqn:Hstop; [by apply refused_outcome|].
  destruct (server_config_valid (us_config s)) as [[]|] eqn:Hv; [|by apply refused_outcome].
  pose proof (clear_endpoint_exact (us_config s) a h) as Hclear.
  destruct (clear_endpoint (us_config s) a h) as [h1|failure]; [|by apply refused_outcome].
  destruct Hclear as (Hn1 & Ho1 & Hother).
  destruct (sa_socket a) as [fd|] eqn:Hs; [|by apply cleared_outcome].
  assert (fresh_answers a h1) as Hfresh1 by (unfold fresh_answers; by rewrite Ho1).
  assert (fd ∉ ho_open h1) as Hfd by (destruct Hfresh1 as [_ Hf]; rewrite Hs in Hf; by inversion Hf).
  destruct (sa_bind a); cbn [negb].
  2: { destruct h1 as [node1 open1]. cbn [ho_node ho_open] in *. rewrite close_head by done. by apply cleared_outcome. }
  pose proof (start_bound_exact a fd s h1 Hs Hfresh1 Hn1) as Hb.
  destruct (start_bound a fd s _) as [[[res s'] h'] trace]. destruct Hb as [Htrace Hb]. split; [done|].
  case_bool_decide.
  - destruct Hb as [(rd & wr & Hp & Ho & ->) Hnode]. constructor; [|done|done|done].
    exists fd, rd, wr. by rewrite Ho, Ho1.
  - destruct Hb as [-> Ho Hx Hclean]. constructor; [done|congruence|done|].
    intros Hc. destruct (Hclean Hc) as [->| ->]; by right.
Qed.

(** Starting the endpoint is safe.  Only a socket is ever replaced: any other
    file at the path stays.  At no time is the server's socket open to more
    than the configured mode, and it accepts connections only with that mode
    and, when configured, that owner.  A start that does not succeed leaves the
    server as it was, no descriptor, and no endpoint of its own (if the kernel
    lets it be removed); one that succeeds holds the three descriptors. *)
Theorem start_exact a s h :
  fresh_answers a h ->
  let '(res, s', h', trace) := server_start a s h in
  Forall (within_mode (uc_socket_mode (us_config s))) trace /\
  if bool_decide (sr_code res = TX_kStarted) then Started a s s' h h' else NotStarted a s s' h h'.
Proof. intros Hfresh. exact (server_start_exact a s h Hfresh). Qed.

(** *** Sequences of calls *)

(** The kernel's answers to each start are fresh when it is made. *)
Fixpoint fresh_session (calls : list endpoint_call) (sh : UdsIpcServer * Host) : Prop :=
  match calls with
  | [] => True
  | call :: calls =>
      match call with EC_start a => fresh_answers a sh.2 | EC_stop _ => True end /\
      fresh_session calls (endpoint_step call sh)
  end.

(** The server's descriptors, on top of those open before *)
Definition holds (base : list N) (sh : UdsIpcServer * Host) : Prop :=
  let '(s, h) := sh in
  if us_started s
  then us_stop_requested s = false /\
       exists fd rd wr, us_listen_fd s = Some fd /\ us_wake_read s = Some rd /\ us_wake_write s = Some wr /\
         ho_open h = rd :: wr :: fd :: base /\ NoDup [rd; wr; fd] /\ Forall (fun x => x ∉ base) [rd; wr; fd]
  else ho_open h = base.

Lemma close_all_three node rd wr fd base :
  NoDup [rd; wr; fd] -> Forall (fun x => x ∉ base) [rd; wr; fd] ->
  close_fd wr (close_fd rd (close_fd fd (mkHost node (rd :: wr :: fd :: base)))) = mkHost node base.
Proof.
  rewrite !NoDup_cons, !not_elem_of_cons, !Forall_cons. intros ((Hrw & Hrf & _) & (Hwf & _) & _) (Hr & Hw & Hf & _).
  unfold close_fd at 3. cbn [ho_node ho_open].
  rewrite filter_cons_True by exact Hrf. rewrite filter_cons_True by exact Hwf.
  rewrite filter_cons_False by (intros Hx; by apply Hx). rewrite remove_fresh by done.
  rewrite close_head by (rewrite not_elem_of_cons; done). by rewrite close_head.
Qed.

Lemma endpoint_step_holds base call sh :
  match call with EC_start a => fresh_answers a sh.2 | EC_stop _ => True end ->
  holds base sh -> holds base (endpoint_step call sh).
Proof.
  destruct sh as [s h]. destruct call as [a|ok]; cbn [endpoint_step fst snd]; intros Hfresh Hh.
  - pose proof (server_start_exact a s h Hfresh) as Hx. destruct (server_start a s h) as [[[res s'] h'] trace].
    destruct Hx as [_ Hx]. case_bool_decide.
    + destruct Hx as [(fd & rd & wr & Hs & Hp & Ho & ->) _ [Hst [Hstop _]] _]. cbn. unfold holds in Hh. rewrite Hst in Hh.
      split; [done|]. exists fd, rd, wr. rewrite Ho, Hh. destruct Hfresh as [Hnd Hf]. rewrite Hs, Hp in Hnd, Hf.
      simpl in Hnd, Hf. rewrite !NoDup_cons in Hnd. rewrite !Forall_cons, Hh in Hf.
      split_and!; [done..| |]; rewrite ?NoDup_cons, ?Forall_cons; set_solver.
    + destruct Hx as [-> Ho _ _]. unfold holds in *. by rewrite Ho.
  - unfold server_stop. unfold holds in *. destruct (us_stop_requested s) eqn:Hstop.
    { destruct (us_started s); [by destruct Hh|done]. }
    cbn [us_started]. destruct (us_started s) eqn:Hst; cbn [negb]; [|exact Hh].
    destruct Hh as (_ & fd & rd & wr & Hl & Hr & Hw & Ho & Hnd & Hb). cbn. rewrite Hl, Hr, Hw. cbn [close_opt].
    destruct h as [node open]. cbn [ho_open] in Ho. subst open. rewrite close_all_three by done.
    unfold unlink_node. by destruct ok.
Qed.

Lemma start_keeps_other a s h : fresh_answers a h -> ho_node h = OtherNode ->
  let '(_, s', h', _) := server_start a s h in s' = s /\ ho_node h' = OtherNode.
Proof.
  intros Hfresh Hn. pose proof (server_start_exact a s h Hfresh) as Hx.
  destruct (server_start a s h) as [[[res s'] h'] trace]. destruct Hx as [_ Hx]. case_bool_decide.
  - by destruct Hx.
  - destruct Hx as [-> _ Hother _]. auto.
Qed.

Definition run_calls (calls : list endpoint_call) (sh : UdsIpcServer * Host) : UdsIpcServer * Host :=
  fold_left (fun sh call => endpoint_step call sh) calls sh.

Lemma session_invariant (P : UdsIpcServer * Host -> Prop) calls sh :
  (forall call sh, match call with EC_start a => fresh_answers a sh.2 | EC_stop _ => True end ->
     P sh -> P (endpoint_step call sh)) ->
  fresh_session calls sh -> P sh -> P (run_calls calls sh).
Proof.
  intros Hstep. revert sh. induction calls as [|call calls IH]; intros sh Hf Hp; [done|]. destruct Hf as [Hf1 Hf2].
  simpl. apply IH; [done|]. by apply Hstep.
Qed.

Definition stopped (sh : UdsIpcServer * Host) : Prop := us_stop_requested sh.1 = true /\ us_started sh.1 = false.

Lemma endpoint_step_stopped call sh : stopped sh -> endpoint_step call sh = sh.
Proof.
  destruct sh as [s h]. intros [Hs Hn]. destruct call as [a|ok]; simpl in *; unfold server_start, server_stop; by rewrite ?Hn, ?Hs.
Qed.

Lemma stop_stops ok base sh : holds base sh -> stopped (endpoint_step (EC_stop ok) sh).
Proof.
  destruct sh as [s h]. unfold holds, stopped. simpl. unfold server_stop. intros Hh.
  destruct (us_stop_requested s) eqn:Hs; [destruct (us_started s) eqn:Hst; naive_solver|]. cbn [us_started].
  by destruct (us_started s) eqn:Hst.
Qed.

Lemma session_stops calls base sh :
  fresh_session calls sh -> holds base sh -> Exists (fun call => match call with EC_stop _ => True | EC_start _ => False end) calls ->
  stopped (run_calls calls sh).
Proof.
  revert sh. induction calls as [|call calls IH]; intros sh Hf Hh Hex; [by apply Exists_nil in Hex|].
  destruct Hf as [Hf1 Hf2]. simpl. destruct call as [a|ok].
  - apply Exists_cons in Hex as [[]|Hex]. apply IH; [done| |done]. by apply endpoint_step_holds.
  - apply session_invariant; [|done|by eapply stop_stops]. intros call sh' _ Hs. by rewrite endpoint_step_stopped.
Qed.

Lemma endpoint_step_other call sh :
  match call with EC_start a => fresh_answers a sh.2 | EC_stop _ => True end ->
  us_started sh.1 = false /\ ho_node sh.2 = OtherNode ->
  us_started (endpoint_step call sh).1 = false /\ ho_node (endpoint_step call sh).2 = OtherNode.
Proof.
  destruct sh as [s h]. intros Hf [Hs Hn]. destruct call as [a|ok]; simpl in *.
  - pose proof (start_keeps_other a s h Hf Hn) as Hx. destruct (server_start a s h) as [[[res s'] h'] trace]. by destruct Hx as [-> Hx].
  - unfold server_stop. destruct (us_stop_requested s); [done|]. cbn [us_started]. by rewrite Hs.
Qed.

(** The endpoint's owner leaks nothing.  After any sequence of starts and
    stops, the server has exactly its three descriptors open beyond those
    open before it if it is running, and none otherwise; once stopped it never
    runs again; and a file at the path that is not a socket is never touched. *)
Theorem endpoint_session calls c h :
  fresh_session calls (new_server c, h) ->
  let '(s', h') := run_calls calls (new_server c, h) in
  holds (ho_open h) (s', h') /\
  (Exists (fun call => match call with EC_stop _ => True | EC_start _ => False end) calls -> us_started s' = false) /\
  (ho_node h = OtherNode -> ho_node h' = OtherNode).
Proof.
  intros Hfresh. assert (holds (ho_open h) (new_server c, h)) as Hnew by reflexivity.
  pose proof (session_invariant _ calls _ (endpoint_step_holds (ho_open h)) Hfresh Hnew) as Hholds.
  pose proof (session_stops calls (ho_open h) _ Hfresh Hnew) as Hstops.
  pose proof (session_invariant _ calls _ endpoint_step_other Hfresh) as Hother.
  destruct (run_calls calls (new_server c, h)) as [s' h']. split_and!; [done| |].
  - intros Hex. by destruct (Hstops Hex).
  - intros Hn. by destruct (Hother (conj eq_refl Hn)).
Qed.

(** ** Proofs: the worker *)

Section worker_theorem.
Context {W : Type} `{StateStore W, JobControl W}.
Variables (c : IpcServiceConfig) (src : Sources).
Variable delegate : option (PeerCredentials -> IpcRequest -> W -> StreamOutcome * W).

(** The connections the worker accepts before it is stopped, in order *)
Definition accepted (r : Round) : option (N * option PeerCredentials * Result FrameIoError bytes) :=
  match rd_poll r, rd_accept r with
  | RP_ready wake true, AcceptFd fd => if wake && rd_stopping r then None else Some (fd, rd_peer r, rd_frame r)
  | _, _ => None
  end.

Fixpoint connections (rounds : list Round) : list (N * option PeerCredentials * Result FrameIoError bytes) :=
  match rounds with
  | [] => []
  | r :: rounds => if rd_stop r then [] else option_list (accepted r) ++ connections rounds
  end.

(** The reference: one connection after another *)
Fixpoint serve_all (conns : list (N * option PeerCredentials * Result FrameIoError bytes)) (w : W) : list (N * Served) * W :=
  match conns with
  | [] => ([], w)
  | (fd, peer, frame) :: conns =>
      let '(served, w) := serve_peer c src delegate peer frame w in
      let '(rest, w) := serve_all conns w in ((fd, served) :: rest, w)
  end.

(** [accept4(2)] returns a descriptor that is not open at the time. *)
Fixpoint fresh_conns (conns : list (N * option PeerCredentials * Result FrameIoError bytes)) (w : W) (open : list N) : Prop :=
  match conns with
  | [] => True
  | (fd, peer, frame) :: conns =>
      fd ∉ open /\
      let '(served, w) := serve_peer c src delegate peer frame w in
      fresh_conns conns w (match served with TakenOver => fd :: open | _ => open end)
  end.

(** The descriptors of connections that were taken over, latest first *)
Definition handed_over (log : list (N * Served)) : list N :=
  reverse (omap (fun x => match x.2 with TakenOver => Some x.1 | _ => None end) log).

Lemma accept_once_accepted r w h :
  accept_once c src delegate r w h =
    match accepted r with
    | None => (None, w, h)
    | Some (fd, peer, frame) =>
        let '(served, w, h) := serve_client c src delegate fd peer frame w {| h with ho_open := fd :: ho_open h |} in
        (Some served, w, h)
    end.
Proof.
  unfold accept_once, accepted. destruct (rd_poll r) as [| | |wake []]; [done..| |].
  - destruct (rd_accept r), (wake && rd_stopping r); done.
  - by destruct (wake && rd_stopping r).
Qed.

Lemma handed_over_cons x log : handed_over (x :: log) = handed_over log ++ handed_over [x].
Proof. unfold handed_over. simpl. destruct x as [fd []]; simpl; by rewrite ?app_nil_r, ?reverse_cons. Qed.

(** The worker serves connections one after another, in the order in which it
    accepts them, until it is told to stop; each one's effect and answer are
    those of [serve] on the state its predecessor left.  When it returns, every
    descriptor it accepted is closed, except those the stream delegate took
    over. *)
Theorem run_serves rounds w h :
  fresh_conns (connections rounds) w (ho_open h) ->
  let '(log, w') := serve_all (connections rounds) w in
  run c src delegate rounds w h = (log.*2, w', {| h with ho_open := handed_over log ++ ho_open h |}).
Proof.
  revert w h. induction rounds as [|r rounds IH]; intros w h Hf; [by destruct h|]. cbn [connections run] in *.
  destruct (rd_stop r); [by destruct h|]. rewrite accept_once_accepted.
  destruct (accepted r) as [[[fd peer] frame]|]; cbn [option_list] in *.
  2: { specialize (IH w h Hf). simpl. destruct (serve_all (connections rounds) w) as [log w']. by rewrite IH. }
  simpl in Hf. destruct Hf as [Hfd Hf]. unfold serve_client. simpl.
  destruct (serve_peer c src delegate peer frame w) as [served w1]. 
  assert (ho_open (match served with TakenOver => {| h with ho_open := fd :: ho_open h |}
    | _ => close_fd fd {| h with ho_open := fd :: ho_open h |} end) = match served with TakenOver => fd :: ho_open h | _ => ho_open h end
    /\ ho_node (match served with TakenOver => {| h with ho_open := fd :: ho_open h |}
    | _ => close_fd fd {| h with ho_open := fd :: ho_open h |} end) = ho_node h) as [Ho Hn].
  { destruct served; rewrite ?close_head; done. }
  rewrite <- Ho in Hf. apply IH in Hf. destruct (serve_all (connections rounds) w1) as [log w']. rewrite Hf. simpl.
  rewrite handed_over_cons, Ho, Hn, <- app_assoc. by destruct served.
Qed.

End worker_theorem.

(** ** Witnesses *)

Definition example_server_config : UdsIpcServerConfig := mkServerConfig "/run/yori/yori.sock" 0 1000 true 432 5000.

(** A start over a stale socket; and one whose [listen(2)] fails *)
Definition example_answers (listens : bool) : StartAnswers :=
  mkStartAnswers true true (Some 7) true true true listens (Some (8, 9)) true true 0 0.

Definition example_host : Host := mkHost (SocketNode 511 0 0) [0; 1; 2].

Lemma example_fresh : fresh_answers (example_answers false) example_host.
Proof. apply (bool_decide_unpack _). vm_compute. exact I. Qed.

Lemma start_exact_witness :
  NotStarted (example_answers false) (new_server example_server_config) (new_server example_server_config)
    example_host (mkHost NoNode [0; 1; 2]).
Proof.
  pose proof (start_exact (example_answers false) (new_server example_server_config) example_host example_fresh) as Hx.
  destruct (server_start _ _ _) as [[[res s'] h'] trace] eqn:Hs. vm_compute in Hs.
  injection Hs as <- <- <- <-. destruct Hx as [_ Hx]. exact Hx.
Defined.

Lemma endpoint_session_witness :
  ho_open (run_calls [EC_start (example_answers false); EC_start (example_answers true); EC_stop true]
             (new_server example_server_config, example_host)).2 = [0; 1; 2].
Proof.
  pose proof (endpoint_session [EC_start (example_answers false); EC_start (example_answers true); EC_stop true]
    example_server_config example_host) as Hx.
  destruct (run_calls _ _) as [s' h'] eqn:Hr. vm_compute in Hr. injection Hr as <- <-.
  destruct Hx as [Hh _].
  - split; [exact example_fresh|]. split; [|split; exact I]. apply (bool_decide_unpack _). vm_compute. exact I.
  - exact Hh.
Defined.

Definition example_round (fd : N) (peer : option PeerCredentials) : Round :=
  mkRound false (RP_ready false true) false (AcceptFd fd) peer (Ok example_payload).

Lemma run_serves_witness :
  (run default_service_config example_sources None [example_round 5 (Some other_peer); example_round 5 None]
     example_store example_host).2 = example_host.
Proof.
  pose proof (run_serves default_service_config example_sources None [example_round 5 (Some other_peer); example_round 5 None]
    example_store example_host) as Hx.
  destruct (serve_all _ _ _ _ _) as [log w'] eqn:Hs.
  rewrite Hx.
  - cbn [snd]. vm_compute in Hs. injection Hs as <- <-. reflexivity.
  - vm_compute. split; [|split]; [| |exact I]; intros Hin; repeat (inversion Hin as [|? ? ? Hin']; clear Hin; rename Hin' into Hin).
Defined.
