(* ===== verification/Owners.v ===== *)
(** * The owners of the daemon's workers: [start], [stop] and the calls of other
    threads in [src/runtime/log_pump.cpp], [src/runtime/log_follow_service.cpp]
    and [src/runtime/job_manager.cpp]

    Each of these parts runs a worker thread, woken through a pipe, which its
    owner starts once and stops once.  The models keep the life-cycle flags, the
    descriptors of the process ([Host] of [Endpoint.v]) and, for the job
    manager, the parts it owns in turn: exit monitor, log pump, worker.  The
    answers of [pipe2], the executor and the channels are arguments. *)

From S2P Require Import Prelude.
From S2P Require Import Job.
From S2P Require Import Store.
From S2P Require Import Queue.
From S2P Require Import Scheduler.
From S2P Require Import Recovery.
From S2P Require Import Service.
From S2P Require Import Supervisor.
From S2P Require Import Directories.
From S2P Require Import ExitMonitor.
From S2P Require Import LogPump.
From S2P Require Import LogFollow.
From S2P Require Import JobManager.
From S2P Require Import ManagerProofs.
From S2P Require Import ManagerLoop.
From S2P Require Import Endpoint.

(** ** Worker owners *)

(** The life-cycle fields of [LogPump::Impl] and [LogFollowService::Impl] *)
Record WorkerOwner := mkWorkerOwner {
  wo_started : bool;
  wo_stop_requested : bool;
  wo_stopping : bool;
  wo_wake : option (N * N);
}.

Definition new_worker_owner : WorkerOwner := mkWorkerOwner false false false None.

Definition open_wake (wake : N * N) (h : Host) : Host := {| h with ho_open := wake.1 :: wake.2 :: ho_open h |}.
Definition close_wake (wake : N * N) (h : Host) : Host := close_fd wake.2 (close_fd wake.1 h).
Definition close_wake_opt (wake : option (N * N)) (h : Host) : Host :=
  match wake with Some wake => close_wake wake h | None => h end.

Inductive LogPumpStartCode := PS_kStarted | PS_kAlreadyStarted | PS_kWorkerRejected.

(** [LogPump::start] *)
Definition pump_start (pipe : option (N * N)) (accepted : bool) (o : WorkerOwner) (h : Host)
  : LogPumpStartCode * string * WorkerOwner * Host :=
  if wo_started o then (PS_kAlreadyStarted, "log pump already started", o, h)
  else if wo_stop_requested o then (PS_kWorkerRejected, "log pump was stopped and cannot restart", o, h)
  else
    match pipe with
    | None => (PS_kWorkerRejected, "wake pipe creation failed", o, h)
    | Some wake =>
        let h := open_wake wake h in
        if negb accepted
        then (PS_kWorkerRejected, "executor rejected the blocking worker", o, close_wake wake h)
        else (PS_kStarted, "", {| o with wo_wake := Some wake; wo_started := true |}, h)
    end.

(** [LogPump::stop]; the worker has ended its entries ([shutdown_entries]) when
    its thread is joined. *)
Definition pump_stop (o : WorkerOwner) (h : Host) : WorkerOwner * Host :=
  if negb (wo_started o) then ({| o with wo_stopping := true; wo_stop_requested := true |}, h)
  else (mkWorkerOwner false true true None, close_wake_opt (wo_wake o) h).

(** [LogPump::attach] *)
Definition pump_attach (sent acked : bool) (answer : LogPumpAttachCode * string) (o : WorkerOwner)
  : LogPumpAttachCode * string :=
  if wo_stop_requested o || negb (wo_started o) then (PA_kNotStarted, "log pump is not running")
  else if negb sent then (PA_kChannelFull, "command channel is full")
  else if negb acked then (PA_kAckTimeout, "worker did not acknowledge attach")
  else answer.

(** [LogPump::detach] *)
Definition pump_detach (sent acked : bool) (answer : LogPumpDetachCode * string) (o : WorkerOwner)
  : LogPumpDetachCode * string :=
  if wo_stop_requested o || negb (wo_started o) then (PT_kNotStarted, "log pump is not running")
  else if negb sent then (PT_kChannelFull, "command channel is full")
  else if negb acked then (PT_kAckTimeout, "worker did not acknowledge detach")
  else answer.

Inductive LogFollowStartCode := FS_kStarted | FS_kAlreadyStarted | FS_kWorkerRejected.

(** [to_string(LogFollowStartCode)] *)
Definition LogFollowStartCode_to_string (code : LogFollowStartCode) : string :=
  match code with
  | FS_kStarted => "started"
  | FS_kAlreadyStarted => "already started"
  | FS_kWorkerRejected => "worker rejected"
  end.

(** [LogFollowService::start] *)
Definition follow_start (config : LogFollowServiceConfig) (pipe : option (N * N)) (accepted : bool)
    (o : WorkerOwner) (h : Host) : LogFollowStartCode * string * WorkerOwner * Host :=
  if wo_started o then (FS_kAlreadyStarted, "log follow service already started", o, h)
  else if wo_stop_requested o
  then (FS_kWorkerRejected, "log follow service was stopped and cannot restart", o, h)
  else
    match follow_config_valid config with
    | Err message => (FS_kWorkerRejected, message, o, h)
    | Ok _ =>
        match pipe with
        | None => (FS_kWorkerRejected, "wake pipe creation failed", o, h)
        | Some wake =>
            let h := open_wake wake h in
            if negb accepted
            then (FS_kWorkerRejected, "executor rejected the blocking worker", o, close_wake wake h)
            else (FS_kStarted, "", {| o with wo_wake := Some wake; wo_started := true |}, h)
        end
    end.

(** [LogFollowService::stop]; the worker has closed its sessions
    ([shutdown_sessions]) when its thread is joined. *)
Definition follow_stop (o : WorkerOwner) (h : Host) : WorkerOwner * Host :=
  if wo_stop_requested o then (o, h)
  else if negb (wo_started o) then ({| o with wo_stop_requested := true; wo_stopping := true |}, h)
  else (mkWorkerOwner false true true None, close_wake_opt (wo_wake o) h).

(** [LogFollowService::statistics]: the sessions that have not ended *)
Definition active_sessions (s : FollowStatistics) : N :=
  usub64 (usub64 (usub64 (ft_sessions_started s) (ft_sessions_completed s)) (ft_sessions_disconnected s)) (ft_sessions_backpressure s).

(** ** The job manager's owner *)

Inductive JobManagerStartCode :=
| MS_kStarted | MS_kAlreadyStarted | MS_kInvalidConfig | MS_kLogRootInvalid | MS_kWorkersRejected.

Inductive JobManagerStopCode := MQ_kStopped | MQ_kNotRunning | MQ_kAlreadyStopped.

#[export] Instance JobManagerStartCode_eq_dec : EqDecision JobManagerStartCode.
Proof. solve_decision. Defined.

(** [to_string(JobManagerStartCode)] *)
Definition JobManagerStartCode_to_string (code : JobManagerStartCode) : string :=
  match code with
  | MS_kStarted => "started"
  | MS_kAlreadyStarted => "already started"
  | MS_kInvalidConfig => "invalid config"
  | MS_kLogRootInvalid => "log root rejected"
  | MS_kWorkersRejected => "executor rejected a worker"
  end.

(** [to_string(JobManagerStopCode)] *)
Definition JobManagerStopCode_to_string (code : JobManagerStopCode) : string :=
  match code with
  | MQ_kStopped => "stopped"
  | MQ_kNotRunning => "not running"
  | MQ_kAlreadyStopped => "already stopped"
  end.

(** What [JobManager::start] meets: the file system around the log root, and
    the answers for the exit monitor, the log pump, the wake pipe, the adopted
    processes and the worker *)
Record ManagerStartAnswers := mkManagerStart {
  ma_strerror : Z -> string;
  ma_euid : N;
  ma_before : string -> Result Z FileStatus;
  ma_mkdir : string -> option Z;
  ma_after : string -> Result Z FileStatus;
  ma_monitor_pipe : option (N * N);
  ma_sigaction : bool;
  ma_monitor_worker : bool;
  ma_pump_pipe : option (N * N);
  ma_pump_worker : bool;
  ma_pipe : option (N * N);
  ma_adopt : JobId -> AdoptAnswers;
  ma_worker : bool;
}.

Section manager_owner.
Context {S : Type} `{StateStore S}.

(** [JobManager::Impl]: flags, wake pipe, the worker (its loop state when it was
    started), whether the bridge exists and the three wake listeners are set,
    and the owned parts *)
Record ManagerOwner := mkManagerOwner {
  mo_config : JobManagerConfig;
  mo_started : bool;
  mo_stop_requested : bool;
  mo_stopping : bool;
  mo_wake : option (N * N);
  mo_worker : option (Loop S);
  mo_bridge : bool;
  mo_hooks : bool;
  mo_monitor : MonitorOwner;
  mo_monitor_wake : option (N * N);
  mo_pump : WorkerOwner;
  mo_abandoned : N;
}.

Definition new_manager_owner (config : JobManagerConfig) : ManagerOwner :=
  mkManagerOwner config false false false None None false false (mkOwner false false false) None new_worker_owner 0.

(** [exit_monitor.start()] with its descriptors *)
Definition start_monitor (a : ManagerStartAnswers) (o : ManagerOwner) (h : Host)
  : ExitMonitorStartCode * string * ManagerOwner * Host :=
  let '(code, message, monitor) :=
    monitor_start (bool_decide (is_Some (ma_monitor_pipe a))) (ma_sigaction a) (ma_monitor_worker a) (mo_monitor o) in
  let o := {| o with mo_monitor := monitor |} in
  match code, ma_monitor_pipe a with
  | XS_kStarted, Some wake => (code, message, {| o with mo_monitor_wake := Some wake |}, open_wake wake h)
  | _, _ => (code, message, o, h)
  end.

(** [exit_monitor.stop()] *)
Definition stop_monitor (o : ManagerOwner) (h : Host) : ManagerOwner * Host :=
  ({| o with mo_monitor := owner_stop (mo_monitor o);
             mo_monitor_wake := if ow_started (mo_monitor o) then None else mo_monitor_wake o |},
   if ow_started (mo_monitor o) then close_wake_opt (mo_monitor_wake o) h else h).

(** [log_pump.stop()] *)
Definition stop_pump (o : ManagerOwner) (h : Host) : ManagerOwner * Host :=
  let '(pump, h) := pump_stop (mo_pump o) h in ({| o with mo_pump := pump |}, h).

(** [JobManager::start] for a fresh worker state [m]; the signals sent when a
    worker that already holds adopted processes is thrown away *)
Definition manager_start (a : ManagerStartAnswers) (recovery : option RecoveryResult) (m : Manager S)
    (o : ManagerOwner) (h : Host) : JobManagerStartCode * string * ManagerOwner * Host * list KillCall :=
  if mo_started o then (MS_kAlreadyStarted, "job manager already started", o, h, [])
  else if mo_stop_requested o then (MS_kInvalidConfig, "job manager was stopped and cannot restart", o, h, [])
  else
    match manager_config_valid (mo_config o) with
    | Err message => (MS_kInvalidConfig, message, o, h, [])
    | Ok _ =>
        match prepare_log_root (ma_strerror a) (ma_euid a) (ma_before a) (ma_mkdir a) (ma_after a)
                (jc_log_root (mo_config o)) with
        | Err message => (MS_kLogRootInvalid, message, o, h, [])
        | Ok _ =>
            let '(code, message, o, h) := start_monitor a o h in
            if negb (ExitMonitor.start_ok code)
            then (MS_kWorkersRejected, "exit monitor start failed: " +:+ message, o, h, [])
            else
              let '(code, message, pump, h) := pump_start (ma_pump_pipe a) (ma_pump_worker a) (mo_pump o) h in
              let o := {| o with mo_pump := pump |} in
              match code with
              | PS_kStarted =>
                  match ma_pipe a with
                  | None =>
                      let '(o, h) := stop_pump o h in
                      let '(o, h) := stop_monitor o h in
                      (MS_kWorkersRejected, "wake pipe creation failed", o, h, [])
                  | Some wake =>
                      let h := open_wake wake h in
                      let m := arm_recovery (mo_config o) (ma_adopt a) recovery m in
                      let o := {| o with mo_wake := Some wake |} in
                      if negb (ma_worker a) then
                        let h := close_wake wake h in
                        let '(o, h) := stop_pump o h in
                        let '(o, h) := stop_monitor o h in
                        (MS_kWorkersRejected, "executor rejected the blocking worker", o, h, destroy_worker m)
                      else
                        let channel :=
                          (try_send (jc_command_capacity (mo_config o)) (CM_kWake ST_kRecoveryCompleted) []).2 in
                        (MS_kStarted, "",
                         {| o with mo_bridge := true; mo_worker := Some (mkLoop m channel [] [] []);
                                   mo_started := true; mo_hooks := true |}, h, [])
                  end
              | _ =>
                  let '(o, h) := stop_monitor o h in
                  (MS_kWorkersRejected, "log pump start failed: " +:+ message, o, h, [])
              end
        end
    end.

(** Fuel for a whole life of the worker *)
Definition loop_fuel (config : JobManagerConfig) (rounds : list LoopRound) : nat :=
  foldr Nat.max 1%nat (round_fuel config <$> rounds).

(** The worker's life until its thread is joined; the fuel is enough. *)
Definition worker_life (config : JobManagerConfig) (rounds : list LoopRound) (late : list Command) (l : Loop S) : Loop S :=
  default l (run_loop (loop_fuel config rounds) config rounds late l).

(** [JobManager::stop]; the worker lived through [rounds] since it was started.
    The last two results are the worker's end and the signals its destruction
    sends. *)
Definition manager_stop (rounds : list LoopRound) (late : list Command) (o : ManagerOwner) (h : Host)
  : JobManagerStopCode * ManagerOwner * Host * option (Loop S) * list KillCall :=
  if mo_stop_requested o then (MQ_kAlreadyStopped, o, h, None, [])
  else
    let o := {| o with mo_stopping := true; mo_stop_requested := true |} in
    if negb (mo_started o) then (MQ_kNotRunning, o, h, None, [])
    else
      let o := {| o with mo_hooks := false |} in
      let '(o, h, ended, kills) :=
        match mo_worker o with
        | None => (o, h, None, [])
        | Some l =>
            let l := worker_life (mo_config o) rounds late l in
            let '(abandoned, m) := abandon_supervised (lo_manager l) in
            let o := {| o with mo_abandoned := mo_abandoned o + abandoned |} in
            let '(o, h) := stop_monitor o h in
            let '(o, h) := stop_pump o h in
            ({| o with mo_worker := None |}, h, Some {| l with lo_manager := m |}, destroy_worker m)
        end in
      (MQ_kStopped, {| o with mo_bridge := false; mo_wake := None; mo_started := false |},
       close_wake_opt (mo_wake o) h, ended, kills).

(** [JobManager::submit_job] as its caller sees it: refused at the door, or the
    worker's answer when it comes in time *)
Definition submit_job_call (sent : bool) (ack : option JobSubmitOutcome) (o : ManagerOwner) : JobSubmitOutcome :=
  if mo_stop_requested o || negb (mo_started o)
  then mkSubmitOutcome SO_kUnavailable 0 "job manager is not running"
  else if negb sent then mkSubmitOutcome SO_kUnavailable 0 "job manager command channel is full"
  else default (mkSubmitOutcome SO_kUnavailable 0 "job manager did not acknowledge submission") ack.

(** [JobManager::cancel_job] *)
Definition cancel_job_call (sent : bool) (ack : option JobCancelOutcome) (o : ManagerOwner) : JobCancelOutcome :=
  if mo_stop_requested o || negb (mo_started o)
  then mkCancelOutcome CO_kUnavailable 0 "job manager is not running"
  else if negb sent then mkCancelOutcome CO_kUnavailable 0 "job manager command channel is full"
  else default (mkCancelOutcome CO_kUnavailable 0 "job manager did not acknowledge cancellation") ack.
End manager_owner.
Arguments ManagerOwner S : clear implicits.

(** ** Descriptors *)

Definition wake_fds (ws : list (option (N * N))) : list N :=
  ws ≫= (fun w => match w with Some w => [w.1; w.2] | None => [] end).

(** The kernel gives out descriptors that are not open. *)
Definition fresh_wakes (ws : list (option (N * N))) (h : Host) : Prop :=
  NoDup (wake_fds ws) /\ Forall (fun fd => fd ∉ ho_open h) (wake_fds ws).

Lemma close_open_wake w h : w.1 ∉ ho_open h -> w.2 ∉ ho_open h -> close_wake w (open_wake w h) = h.
Proof.
  intros H1' H2'. destruct h as [node open]. cbn in *. unfold close_wake, close_fd, open_wake. cbn [ho_node ho_open].
  f_equal. assert (forall x : N, x ∉ open -> filter (fun y : N => y <> x) open = open) as Hf.
  { intros x Hx. apply filter_all, Forall_forall. intros y Hy ->. done. }
  rewrite filter_cons_False by naive_solver. destruct (decide (w.2 = w.1)) as [E|E].
  - rewrite filter_cons_False by naive_solver. by rewrite !Hf.
  - rewrite filter_cons_True, (Hf w.1) by done. rewrite filter_cons_False by naive_solver. by rewrite Hf.
Qed.

Lemma close_wake_under w v h :
  w.1 <> v.1 -> w.1 <> v.2 -> w.2 <> v.1 -> w.2 <> v.2 -> close_wake w (open_wake v h) = open_wake v (close_wake w h).
Proof.
  intros. unfold close_wake, close_fd, open_wake. cbn [ho_node ho_open]. f_equal.
  rewrite !filter_cons_True by congruence. done.
Qed.

(** A pump or follow owner that is started and stopped leaves the descriptors
    as they were, and cannot be started again. *)
Lemma worker_owner_cycle pipe accepted h code message o h' :
  fresh_wakes [pipe] h -> pump_start pipe accepted new_worker_owner h = (code, message, o, h') ->
  (code <> PS_kStarted -> h' = h /\ o = new_worker_owner) /\
  (code = PS_kStarted -> exists w, pipe = Some w /\ o = mkWorkerOwner true false false (Some w) /\ h' = open_wake w h).
Proof.
  intros [_ Hf]. unfold pump_start. cbn [new_worker_owner wo_started wo_stop_requested].
  destruct pipe as [w|]; [|naive_solver]. cbn in Hf. rewrite !Forall_cons in Hf. destruct Hf as (Hf1 & Hf2 & _).
  destruct accepted; cbn [negb]; intros [= <- <- <- <-]; [naive_solver|].
  split; [|done]. intros _. by rewrite close_open_wake.
Qed.

(** The sessions [statistics] counts as active are the ones the worker has. *)
Lemma active_sessions_exact fds w :
  LogFollow.WorkerOk fds w -> u64 (ft_sessions_started (fk_statistics w)) ->
  active_sessions (fk_statistics w) = len (fk_sessions w).
Proof.
  intros [Hc _] Hu. unfold active_sessions, active_and_ended in *. rewrite Hc. unfold usub64.
  repeat match goal with |- context [if ?a <=? ?b then _ else _] => destruct (N.leb_spec a b); [|lia] end. lia.
Qed.

(** ** The manager's life *)

Section life.
Context {S : Type} `{StateStoreLaws S}.
Implicit Types (o : ManagerOwner S).

(** Nothing of the manager runs. *)
Definition idle o : Prop :=
  mo_started o = false /\ mo_worker o = None /\ mo_bridge o = false /\ mo_hooks o = false /\
  ow_started (mo_monitor o) = false /\ wo_started (mo_pump o) = false.

(** The owner of a started manager *)
Definition running_owner (config : JobManagerConfig) (w1 w2 w3 : N * N) (l : Loop S) : ManagerOwner S :=
  mkManagerOwner config true false false (Some w3) (Some l) true true (mkOwner true false true) (Some w1)
    (mkWorkerOwner true false false (Some w2)) 0.

(** The worker as it is started *)
Definition first_loop (m : Manager S) : Loop S :=
  mkLoop m [CM_kWake ST_kRecoveryCompleted] [] [] [].

Lemma config_capacity config : manager_config_valid config = Ok tt -> 0 < jc_command_capacity config.
Proof. unfold manager_config_valid. repeat case_match; try done. intros _. reflect_bools. lia. Qed.

Lemma try_send_first capacity c : 0 < capacity -> (try_send capacity c []).2 = [c].
Proof. intros Hc. unfold try_send. change (len (@nil Command)) with 0. by rewrite (proj2 (N.ltb_lt _ _) Hc). Qed.

(** Closing the wake pipes, in the orders the code closes them *)
Lemma wakes_close2 (w1 w2 : N * N) ws h :
  fresh_wakes (Some w1 :: Some w2 :: ws) h ->
  close_wake w1 (open_wake w1 h) = h /\ close_wake w2 (open_wake w2 (open_wake w1 h)) = open_wake w1 h.
Proof.
  intros [Hn Hf]. cbn in Hn, Hf. rewrite !NoDup_cons, !not_elem_of_cons in Hn.
  rewrite !Forall_cons in Hf. destruct_and! Hn. destruct_and! Hf.
  split; apply close_open_wake; cbn; rewrite ?not_elem_of_cons; auto.
Qed.

Lemma wakes_close3 (w1 w2 w3 : N * N) h :
  fresh_wakes [Some w1; Some w2; Some w3] h ->
  close_wake w3 (open_wake w3 (open_wake w2 (open_wake w1 h))) = open_wake w2 (open_wake w1 h) /\
  close_wake w3 (close_wake w2 (close_wake w1 (open_wake w3 (open_wake w2 (open_wake w1 h))))) = h.
Proof.
  intros [Hn Hf]. cbn in Hn, Hf. rewrite !NoDup_cons, !not_elem_of_cons in Hn.
  rewrite !Forall_cons in Hf. destruct_and! Hn. destruct_and! Hf. split.
  - apply close_open_wake; cbn; rewrite !not_elem_of_cons; auto 10.
  - rewrite (close_wake_under w1 w3), (close_wake_under w1 w2), (close_open_wake w1) by done.
    rewrite (close_wake_under w2 w3), (close_open_wake w2) by done. by apply close_open_wake.
Qed.

(** A refused start leaves nothing. *)
Ltac refused :=
  intros [= <- <- <- <- <-]; left; by split_and!.

Lemma manager_start_spec a config recovery m h code message o h' kills :
  fresh_wakes [ma_monitor_pipe a; ma_pump_pipe a; ma_pipe a] h ->
  manager_start a recovery m (new_manager_owner config) h = (code, message, o, h', kills) ->
  code <> MS_kStarted /\ h' = h /\ idle o /\
    (kills <> [] -> ma_worker a = false /\ kills = destroy_worker (arm_recovery config (ma_adopt a) recovery m)) \/
  code = MS_kStarted /\ kills = [] /\ manager_config_valid config = Ok tt /\
    exists w1 w2 w3, [ma_monitor_pipe a; ma_pump_pipe a; ma_pipe a] = [Some w1; Some w2; Some w3] /\
      o = running_owner config w1 w2 w3 (first_loop (arm_recovery config (ma_adopt a) recovery m)) /\
      h' = open_wake w3 (open_wake w2 (open_wake w1 h)).
Proof.
  intros Hf. unfold manager_start, new_manager_owner. cbn [mo_started mo_stop_requested mo_config].
  destruct (manager_config_valid config) as [[]|?] eqn:Hv; [|refused].
  destruct (prepare_log_root _ _ _ _ _ _); [|refused].
  unfold start_monitor, monitor_start. cbn [mo_monitor ow_started ow_stop_requested].
  destruct (ma_monitor_pipe a) as [w1|]; [|refused]. rewrite bool_decide_true by done. cbn [negb].
  destruct (ma_sigaction a); cbn [negb]; [|refused].
  destruct (ma_monitor_worker a); cbn [negb ExitMonitor.start_ok]; [|refused].
  assert (close_wake w1 (open_wake w1 h) = h) as Hc1.
  { destruct Hf as [_ Hf]. cbn in Hf. rewrite !Forall_cons in Hf. apply close_open_wake; apply Hf. }
  unfold pump_start, stop_pump, stop_monitor, pump_stop. cbn [mo_pump new_worker_owner wo_started wo_stop_requested].
  destruct (ma_pump_pipe a) as [w2|]; cbn; [|rewrite Hc1; refused].
  destruct (wakes_close2 _ _ _ _ Hf) as [_ Hc2].
  destruct (ma_pump_worker a); cbn; [|rewrite Hc2, Hc1; refused].
  destruct (ma_pipe a) as [w3|]; cbn; [|rewrite Hc2, Hc1; refused].
  destruct (wakes_close3 _ _ _ _ Hf) as [Hc3 _].
  destruct (ma_worker a); cbn; [|rewrite Hc3, Hc2, Hc1; refused].
  intros [= <- <- <- <- <-]. right. split_and!; [done..|]. exists w1, w2, w3.
  by rewrite (try_send_first _ _ (config_capacity _ Hv)).
Qed.

(** How the worker of a started manager ends *)
Record WorkerEnd (config : JobManagerConfig) (m : Manager S) (l : Loop S) : Prop := {
  we_channel : lo_channel l = [];
  we_answers : (lo_acks l).*1 = filter (fun c => asks c = true) (lo_accepted l);
  we_truth : Forall (ack_true config m (lo_handled l)) (lo_acks l);
  we_store : mg_store (lo_manager l) = mg_store (worker_steps config (lo_handled l) m);
  we_queue : mg_queue (lo_manager l) = mg_queue (worker_steps config (lo_handled l) m);
  we_signals : forall k, OutSignal k ∈ mg_out (lo_manager l) ->
    OutSignal k ∈ mg_out (worker_steps config (lo_handled l) m);
  we_free : destroy_worker (lo_manager l) = [];
}.

(** The events of a life happen to a correct manager; see [fresh_pid]. *)
Definition life_ok (config : JobManagerConfig) (m : Manager S) (events : list Event) : Prop :=
  forall before e after, events = before ++ e :: after -> event_ok e (worker_steps config before m).

Lemma worker_life_run config rounds late m :
  exists l, worker_life config rounds late (first_loop m) = l /\
    run_loop (loop_fuel config rounds) config rounds late (first_loop m) = Some l \/
  jc_command_capacity config = 0.
Proof.
  destruct (N.eq_dec (jc_command_capacity config) 0) as [?|Hcap]; [by exists (first_loop m); right|].
  destruct (run_loop_total (loop_fuel config rounds) config rounds late (first_loop m)) as [l Hl].
  - unfold bounded_channel, first_loop. cbn [lo_channel]. rewrite len_cons, len_nil. lia.
  - unfold loop_fuel. clear. induction rounds as [|r rounds IH]; constructor; cbn; [lia|].
    eapply Forall_impl; [exact IH|]. cbn. intros; lia.
  - exists l. left. split; [|done]. unfold worker_life. by rewrite Hl.
Qed.

Lemma manager_stop_spec config w1 w2 w3 m rounds late h :
  0 < jc_command_capacity config -> fresh_wakes [Some w1; Some w2; Some w3] h ->
  let '(code, o, h', ended, kills) :=
    manager_stop rounds late (running_owner config w1 w2 w3 (first_loop m)) (open_wake w3 (open_wake w2 (open_wake w1 h))) in
  code = MQ_kStopped /\ h' = h /\ idle o /\ mo_stop_requested o = true /\
  exists l, ended = Some l /\ (MgrOk m -> life_ok config m (lo_handled l) -> WorkerEnd config m l /\ kills = []).
Proof.
  intros Hcap Hf. unfold manager_stop, running_owner. cbn [mo_stop_requested mo_started mo_worker negb mo_config mo_abandoned].
  destruct (worker_life_run config rounds late m) as [l [[-> Hl]|?]]; [|lia].
  destruct (abandon_supervised (lo_manager l)) as [abandoned m'] eqn:Ha. cbn.
  destruct (wakes_close3 _ _ _ _ Hf) as [_ Hc]. rewrite Hc. split_and!; try done.
  eexists. split; [done|]. cbn [lo_handled]. intros Hm Hev.
  apply (run_loop_ok _ _ _ _ m) in Hl as [[Hman Hreq Hacks] Hch]; [|by split].
  pose proof (stop_abandons (lo_manager l)) as Hs. rewrite Ha in Hs.
  destruct Hs as (_ & _ & Hst & Hq & Hsig & Hd).
  { rewrite Hman. eapply worker_run_inv; [|exact Hm]. by apply worker_steps_run. }
  rewrite Hch, app_nil_r in Hreq.
  rewrite Hman in Hst, Hq, Hsig. by split.
Qed.
End life.

(** A job manager that is started and stopped leaves nothing behind and harms
    nobody.  Starting it from a correct recovered state either fails, with the
    daemon's descriptors as before and no worker, monitor, pump or listener
    left; or succeeds, and then, after any life of its worker, stopping it
    closes everything it opened, has answered every submission and cancellation
    that entered the channel, keeps the store and queue of the last event, and
    neither stopping nor destroying the worker sends a signal: the jobs go on. *)
Theorem manager_life {S} `{StateStoreLaws S} a config recovery (m : Manager S) h code message o h' kills rounds late :
  MgrOk (arm_recovery config (ma_adopt a) recovery m) ->
  fresh_wakes [ma_monitor_pipe a; ma_pump_pipe a; ma_pipe a] h ->
  manager_start a recovery m (new_manager_owner config) h = (code, message, o, h', kills) ->
  if decide (code = MS_kStarted) then
    kills = [] /\
    let '(stopped, o', h'', ended, kills') := manager_stop rounds late o h' in
    stopped = MQ_kStopped /\ h'' = h /\ idle o' /\ mo_stop_requested o' = true /\
    exists l, ended = Some l /\
      (life_ok config (arm_recovery config (ma_adopt a) recovery m) (lo_handled l) ->
       WorkerEnd config (arm_recovery config (ma_adopt a) recovery m) l /\ kills' = [])
  else h' = h /\ idle o.
Proof.
  intros Hm Hf Hstart. destruct (manager_start_spec _ _ _ _ _ _ _ _ _ _ Hf Hstart)
    as [(Hc & -> & Hi & _)|(-> & -> & Hv & w1 & w2 & w3 & Hw & -> & ->)]; [by rewrite decide_False|].
  rewrite decide_True by done. split; [done|]. rewrite Hw in Hf.
  pose proof (manager_stop_spec config w1 w2 w3 (arm_recovery config (ma_adopt a) recovery m) rounds late h
                (config_capacity _ Hv) Hf) as Hs.
  destruct (manager_stop _ _ _ _) as [[[[? ?] ?] ?] ?].
  destruct Hs as (? & ? & ? & ? & ended & ? & Hl). split_and!; try done. exists ended. auto.
Qed.

(** ** Examples *)

(** A host that gives everything the manager asks for; [accepted] is the
    executor's answer for the worker. *)
Definition example_start_answers (accepted : bool) : ManagerStartAnswers :=
  mkManagerStart (fun _ => "error") 0 (fun _ => Ok (mkStatus 16877 0)) (fun _ => None) (fun _ => Ok (mkStatus 16877 0))
    (Some (10, 11)) true true (Some (12, 13)) true (Some (14, 15)) (fun _ => example_adopt) accepted.

Lemma manager_life_witness :
  let '(code, _, o, h, kills) :=
    manager_start (example_start_answers true) None example_manager (new_manager_owner example_manager_config)
      (mkHost NoNode [0; 1; 2]) in
  code = MS_kStarted /\ ho_open h = [14; 15; 12; 13; 10; 11; 0; 1; 2] /\
  let '(stopped, o', h', ended, kills') := manager_stop [example_loop_round] [CM_kCancel 78] o h in
  stopped = MQ_kStopped /\ h' = mkHost NoNode [0; 1; 2] /\ idle o'.
Proof.
  destruct (manager_start (example_start_answers true) None example_manager (new_manager_owner example_manager_config)
              (mkHost NoNode [0; 1; 2])) as [[[[code message] o] h] kills] eqn:Hs.
  pose proof (manager_life (example_start_answers true) example_manager_config None example_manager
                (mkHost NoNode [0; 1; 2]) code message o h kills [example_loop_round] [CM_kCancel 78]) as Hlife.
  assert (code = MS_kStarted /\ ho_open h = [14; 15; 12; 13; 10; 11; 0; 1; 2]) as [-> Hh]
    by (vm_compute in Hs; injection Hs; intros; subst; split; reflexivity).
  split; [reflexivity|]. split; [exact Hh|]. cbn [decide] in Hlife.
  destruct Hlife as [_ Hlife].
  - exact example_manager_ok.
  - split; [apply (bool_decide_unpack _); vm_compute; exact I|apply (bool_decide_unpack _); vm_compute; exact I].
  - exact Hs.
  - destruct (manager_stop [example_loop_round] [CM_kCancel 78] o h) as [[[[stopped o'] h''] ended] kills'].
    destruct Hlife as (? & ? & ? & _). split_and!; assumption.
Defined.

(** When the executor refuses the manager's worker, the jobs it had adopted are
    killed: a restart that fails here ends the training processes it found. *)
Example rejected_start_kills :
  let s := mg_store example_running in
  let '(res, q, s') := recover 8 (fun _ => IV_kVerified) example_empty_queue s in
  let '(code, _, _, _, kills) :=
    manager_start (example_start_answers false) (Some res) (new_manager q s')
      (new_manager_owner example_manager_config) (mkHost NoNode [0; 1; 2]) in
  recovery_ok res = true /\ code = MS_kWorkersRejected /\
  kills = [mkKill (-100) SIGKILL; mkKill 100 SIGKILL].
Proof. vm_compute. done. Qed.
