(* ===== verification/Daemon.v ===== *)
(** * The daemon: [src/runtime/daemon.cpp], [src/runtime/executor_runtime.cpp]

    The composition of the parts: [Daemon::start] (recovery, GPU observation,
    log streamer, job manager, follow service, IPC server, with the clean-up of
    each failure) and [Daemon::stop].  Every release of a part is one step, so
    that the order of releases can be stated: no part may outlive one it refers
    to. *)

From S2P Require Import Prelude.
From S2P Require Import Job.
From S2P Require Import Gpu.
From S2P Require Import Store.
From S2P Require Import Queue.
From S2P Require Import Scheduler.
From S2P Require Import Recovery.
From S2P Require Import Service.
From S2P Require Import Supervisor.
From S2P Require Import Launch.
From S2P Require Import GpuManager.
From S2P Require Import LogStreamer.
From S2P Require Import LogFollow.
From S2P Require Import JobManager.
From S2P Require Import ManagerProofs.
From S2P Require Import ManagerLoop.
From S2P Require Import Client.
From S2P Require Import Endpoint.
From S2P Require Import Owners.

(** ** Data *)

(** [DaemonConfig] *)
Record DaemonConfig := mkDaemonConfig {
  dc_service : IpcServiceConfig;
  dc_ipc : UdsIpcServerConfig;
  dc_queue_capacity : N;
  dc_gpu : GpuManagerConfig;
  dc_log_streamer : LogStreamerConfig;
  dc_log_follow : LogFollowServiceConfig;
  dc_job_manager : JobManagerConfig;
}.

Inductive DaemonStartCode :=
| DN_kStarted | DN_kAlreadyStarted | DN_kInvalidConfig | DN_kRecoveryFailed | DN_kGpuFailed | DN_kJobManagerFailed
| DN_kIpcFailed.

Inductive DaemonStopCode := DQ_kStopped | DQ_kNotRunning | DQ_kAlreadyStopped.

#[export] Instance DaemonStartCode_eq_dec : EqDecision DaemonStartCode.
Proof. solve_decision. Defined.

(** [to_string(DaemonStartCode)] *)
Definition DaemonStartCode_to_string (code : DaemonStartCode) : string :=
  match code with
  | DN_kStarted => "started"
  | DN_kAlreadyStarted => "already started"
  | DN_kInvalidConfig => "invalid config"
  | DN_kRecoveryFailed => "recovery failed"
  | DN_kGpuFailed => "gpu observation failed"
  | DN_kJobManagerFailed => "job manager failed"
  | DN_kIpcFailed => "ipc server failed"
  end.

(** [to_string(DaemonStopCode)] *)
Definition DaemonStopCode_to_string (code : DaemonStopCode) : string :=
  match code with
  | DQ_kStopped => "stopped"
  | DQ_kNotRunning => "not running"
  | DQ_kAlreadyStopped => "already stopped"
  end.

(** [DaemonStartResult] *)
Record DaemonStartResult := mkDaemonStart {
  ds_code : DaemonStartCode;
  ds_message : string;
  ds_recovery : option RecoveryResult;
}.

(** The parts with a life time of their own; [PT_listener] is the callback set
    in the log streamer, which calls the follow service, and [PT_gpu_hook] the
    one the job manager sets in the GPU manager, which wakes its worker. *)
Inductive Part :=
| PT_queue | PT_gpu | PT_gpu_hook | PT_gpu_status | PT_reader | PT_streamer | PT_listener | PT_follow | PT_manager | PT_service | PT_ipc.

#[export] Instance Part_eq_dec : EqDecision Part.
Proof. solve_decision. Defined.

(** [kPhaseRecovery], [kPhaseGpuObserved], [kPhaseSchedulingOpen] *)
Definition kPhaseRecovery : N := 1.
Definition kPhaseGpuObserved : N := 2.
Definition kPhaseSchedulingOpen : N := 3.

(** The message of [GpuManager::start] *)
Definition gpu_start_message (code : GpuManagerStartCode) : string :=
  match code with
  | GS_kStopped => "gpu manager was stopped and cannot restart"
  | GS_kInvalidConfig => "invalid gpu manager config"
  | GS_kInitialObservationFailed => "initial observation failed"
  | GS_kExecutorRejected => "executor rejected the periodic task"
  | GS_kStarted | GS_kAlreadyStarted => ""
  end.

(** [text + (message.empty() ? "" : ": " + message)] *)
Definition with_message (text message : string) : string :=
  text +:+ (if sempty message then "" else ": " +:+ message).

Section daemon.
Context {S : Type} `{StateStore S}.

(** [Daemon]: the owned parts that exist, the last recovery, the startup gate's
    phase, the flags.  [d_kills] collects the signals that destroyed workers'
    supervisors send (those of the manager's own operations, and of the adoption
    of recovered processes, are in its [mg_out]); [d_ended] is how the manager's
    worker ended. *)
Record Daemon := mkDaemon {
  d_config : DaemonConfig;
  d_store : option S;
  d_queue : option GlobalJobQueue;
  d_gpu : option GpuManager;
  d_gpu_hook : bool;
  d_gpu_status : bool;
  d_reader : bool;
  d_streamer : option Streamer;
  d_listener : bool;
  d_follow : option WorkerOwner;
  d_manager : option (ManagerOwner S);
  d_service : bool;
  d_ipc : option UdsIpcServer;
  d_last_recovery : option RecoveryResult;
  d_gate : N;
  d_started : bool;
  d_stop_requested : bool;
  d_kills : list KillCall;
  d_ended : option (Loop S);
}.

Definition new_daemon (config : DaemonConfig) (store : option S) : Daemon :=
  mkDaemon config store None None false false false None false None None false None None 0 false false [] None.

(** What the daemon meets when it releases its parts: whether the endpoint can
    be unlinked, and the life of the manager's worker *)
Record TeardownAnswers := mkTeardown {
  td_unlink : bool;
  td_rounds : list LoopRound;
  td_late : list Command;
}.

(** ** Releases *)

Inductive Release :=
| RE_stop_ipc | RE_reset_ipc | RE_clear_listener | RE_reset_follow | RE_reset_service | RE_reset_reader
| RE_stop_gpu | RE_stop_manager | RE_reset_manager | RE_reset_streamer | RE_reset_gpu_status | RE_reset_gpu
| RE_reset_queue.

(** [job_manager_->stop()]: the worker's store and queue are the daemon's; a
    manager that really stops takes its callback out of the GPU manager. *)
Definition stop_manager_part (t : TeardownAnswers) (o : ManagerOwner S) (d : Daemon) (h : Host) : Daemon * Host :=
  let '(code, o, h, ended, kills) := manager_stop (td_rounds t) (td_late t) o h in
  let hook := match code with MQ_kStopped => false | _ => d_gpu_hook d end in
  let d := {| d with d_manager := Some o; d_gpu_hook := hook; d_kills := d_kills d ++ kills |} in
  match ended with
  | Some l => ({| d with d_ended := Some l; d_store := (fun _ => mg_store (lo_manager l)) <$> d_store d;
                         d_queue := (fun _ => mg_queue (lo_manager l)) <$> d_queue d |}, h)
  | None => (d, h)
  end.

(** One release; resetting a part runs its destructor, which stops it. *)
Definition release_part (t : TeardownAnswers) (r : Release) (dh : Daemon * Host) : Daemon * Host :=
  let '(d, h) := dh in
  match r with
  | RE_stop_ipc =>
      match d_ipc d with
      | Some s => let '(s, h) := server_stop (td_unlink t) s h in ({| d with d_ipc := Some s |}, h)
      | None => (d, h)
      end
  | RE_reset_ipc =>
      match d_ipc d with
      | Some s => let '(_, h) := server_stop (td_unlink t) s h in ({| d with d_ipc := None |}, h)
      | None => (d, h)
      end
  | RE_clear_listener => ({| d with d_listener := false |}, h)
  | RE_reset_follow =>
      match d_follow d with
      | Some o => let '(_, h) := follow_stop o h in ({| d with d_follow := None |}, h)
      | None => (d, h)
      end
  | RE_reset_service => ({| d with d_service := false |}, h)
  | RE_reset_reader => ({| d with d_reader := false |}, h)
  | RE_stop_gpu => ({| d with d_gpu := (fun g => (stop_begin g).2) <$> d_gpu d |}, h)
  | RE_stop_manager =>
      match d_manager d with Some o => stop_manager_part t o d h | None => (d, h) end
  | RE_reset_manager =>
      match d_manager d with
      | Some o => let '(d, h) := stop_manager_part t o d h in ({| d with d_manager := None |}, h)
      | None => (d, h)
      end
  | RE_reset_streamer => ({| d with d_streamer := None; d_listener := false |}, h)
  | RE_reset_gpu_status => ({| d with d_gpu_status := false |}, h)
  | RE_reset_gpu => ({| d with d_gpu := None; d_gpu_hook := false |}, h)
  | RE_reset_queue => ({| d with d_queue := None |}, h)
  end.

Definition release_all (t : TeardownAnswers) (rs : list Release) (d : Daemon) (h : Host) : Daemon * Host :=
  fold_left (fun dh r => release_part t r dh) rs (d, h).

(** The states a sequence of releases goes through *)
Fixpoint released (t : TeardownAnswers) (rs : list Release) (dh : Daemon * Host) : list Daemon :=
  dh.1 :: match rs with [] => [] | r :: rs => released t rs (release_part t r dh) end.

(** ** Starting *)

(** What the parts of [start] meet *)
Record DaemonAnswers := mkDaemonAnswers {
  da_now : Z;
  da_verifier : ProcessIdentity -> IdentityVerification;
  da_sample : SampleAnswers;
  da_timer : bool;
  da_manager : ManagerStartAnswers;
  da_follow_pipe : option (N * N);
  da_follow_worker : bool;
  da_ipc : StartAnswers;
  da_teardown : TeardownAnswers;
}.

(** The releases of [start]'s failures, by how far it got, and of [stop] *)
Definition after_recovery : list Release := [RE_reset_queue].
Definition after_gpu : list Release := [RE_reset_queue; RE_reset_gpu].
Definition after_streamer : list Release := [RE_reset_gpu_status; RE_stop_gpu; RE_reset_gpu; RE_reset_queue].
Definition after_manager : list Release := RE_reset_manager :: RE_reset_streamer :: after_streamer.
Definition after_follow : list Release :=
  [RE_reset_follow; RE_reset_service; RE_reset_reader; RE_stop_manager] ++ after_manager.
Definition after_ipc : list Release := RE_reset_ipc :: after_follow.
Definition stop_releases : list Release :=
  [RE_stop_ipc; RE_reset_ipc; RE_clear_listener; RE_reset_follow; RE_reset_service; RE_reset_reader; RE_stop_gpu;
   RE_stop_manager; RE_reset_manager; RE_reset_gpu_status; RE_reset_gpu; RE_reset_queue].

Definition start_failure (code : DaemonStartCode) (message : string) : DaemonStartResult := mkDaemonStart code message None.

(** The configuration checks at the head of [start] *)
Definition check_start (d : Daemon) : Result DaemonStartResult S :=
  reject_if d_started d with start_failure DN_kAlreadyStarted "daemon already started";
  reject_if d_stop_requested d with start_failure DN_kInvalidConfig "daemon was stopped and cannot restart";
  reject_if negb (service_config_valid (dc_service (d_config d)))
    with start_failure DN_kInvalidConfig "invalid ipc service config";
  let? _ := match server_config_valid (dc_ipc (d_config d)) with
            | Err message => Err (start_failure DN_kInvalidConfig message)
            | Ok _ => Ok tt
            end in
  let? _ := match manager_config_valid (dc_job_manager (d_config d)) with
            | Err message => Err (start_failure DN_kInvalidConfig ("invalid job manager config: " +:+ message))
            | Ok _ => Ok tt
            end in
  match d_store d with
  | Some s => Ok s
  | None => Err (start_failure DN_kInvalidConfig "state store is required")
  end.

(** The assignments of [start] to its members *)
Definition set_recovered (queue : GlobalJobQueue) (store : S) (recovery : RecoveryResult) (d : Daemon) : Daemon :=
  {| d with d_queue := Some queue; d_store := Some store; d_last_recovery := Some recovery |}.
Definition set_gate (phase : N) (d : Daemon) : Daemon := {| d with d_gate := phase |}.
Definition set_gpu (gpu : GpuManager) (d : Daemon) : Daemon := {| d with d_gpu := Some gpu |}.
Definition set_gpu_status (d : Daemon) : Daemon := {| d with d_gpu_status := true |}.
Definition set_streamer (streamer : Streamer) (d : Daemon) : Daemon := {| d with d_streamer := Some streamer |}.
Definition set_manager (manager : ManagerOwner S) (kills : list KillCall) (d : Daemon) : Daemon :=
  {| d with d_manager := Some manager; d_gpu_hook := mo_hooks manager; d_kills := d_kills d ++ kills |}.
Definition set_service (d : Daemon) : Daemon := {| d with d_reader := true; d_service := true |}.
Definition set_follow (follow : WorkerOwner) (d : Daemon) : Daemon :=
  {| d with d_follow := Some follow; d_listener := true |}.
Definition set_ipc (server : UdsIpcServer) (d : Daemon) : Daemon := {| d with d_ipc := Some server |}.
Definition set_started (d : Daemon) : Daemon := {| d with d_started := true |}.

(** A failure of [start] after the releases [rs] *)
Definition start_failed (t : TeardownAnswers) (result : DaemonStartResult) (rs : list Release) (d : Daemon) (h : Host)
  : DaemonStartResult * Daemon * Host :=
  let '(d, h) := release_all t rs d h in (result, d, h).

(** [start] from the log reader on, with the job manager running; the listener
    is set before the follow service is started. *)
Definition start_serving (a : DaemonAnswers) (recovery : RecoveryResult) (d : Daemon) (h : Host)
  : DaemonStartResult * Daemon * Host :=
  let d := set_service d in
  let '(code, message, follow, h) :=
    follow_start (dc_log_follow (d_config d)) (da_follow_pipe a) (da_follow_worker a) new_worker_owner h in
  let d := set_follow follow d in
  match code with
  | FS_kStarted =>
      let '(result, server, h, _) := server_start (da_ipc a) (new_server (dc_ipc (d_config d))) h in
      let d := set_ipc server d in
      if bool_decide (sr_code result = TX_kStarted)
      then (mkDaemonStart DN_kStarted "" (Some recovery), set_started d, h)
      else
        start_failed (da_teardown a)
          (start_failure DN_kIpcFailed
             (with_message ("ipc server start failed: " +:+ IpcTransportStartCode_to_string (sr_code result))
                (sr_message result))) after_ipc d h
  | _ =>
      start_failed (da_teardown a)
        (start_failure DN_kIpcFailed
           (with_message ("log follow service start failed: " +:+ LogFollowStartCode_to_string code) message))
        after_follow d h
  end.

(** [start] from the log streamer on, with the GPUs observed *)
Definition start_managing (a : DaemonAnswers) (recovery : RecoveryResult) (queue : GlobalJobQueue) (store : S)
    (d : Daemon) (h : Host) : DaemonStartResult * Daemon * Host :=
  match streamer_config_valid (dc_log_streamer (d_config d)) with
  | Err message =>
      start_failed (da_teardown a) (start_failure DN_kInvalidConfig ("log streamer config invalid: " +:+ message))
        after_streamer d h
  | Ok _ =>
      let d := set_gate kPhaseSchedulingOpen (set_streamer (new_streamer (dc_log_streamer (d_config d))) d) in
      let '(code, message, manager, h, kills) :=
        manager_start (da_manager a) (Some recovery) (new_manager queue store)
          (new_manager_owner (dc_job_manager (d_config d))) h in
      let d := set_manager manager kills d in
      match code with
      | MS_kStarted => start_serving a recovery d h
      | _ =>
          start_failed (da_teardown a)
            (start_failure DN_kJobManagerFailed
               (with_message ("job manager start failed: " +:+ JobManagerStartCode_to_string code) message))
            after_manager d h
      end
  end.

(** [Daemon::start] *)
Definition daemon_start (a : DaemonAnswers) (d : Daemon) (h : Host) : DaemonStartResult * Daemon * Host :=
  match check_start d with
  | Err result => (result, d, h)
  | Ok store =>
      match queue_create (dc_queue_capacity (d_config d)) with
      | (code, None) =>
          (start_failure DN_kInvalidConfig ("queue creation failed: " +:+ QueueErrorCode_to_string code), d, h)
      | (_, Some queue) =>
          let '(recovery, queue, store) := recover (da_now a) (da_verifier a) queue store in
          let d := set_recovered queue store recovery d in
          if negb (recovery_ok recovery)
          then start_failed (da_teardown a)
                 (mkDaemonStart DN_kRecoveryFailed
                    ("recovery failed: " +:+ RecoveryErrorCode_to_string (rr_code recovery)) (Some recovery))
                 after_recovery d h
          else
            let d := set_gate kPhaseRecovery d in
            let '(code, _, gpu) := gpu_start (da_sample a) (da_timer a) (new_gpu_manager (dc_gpu (d_config d))) in
            let d := set_gpu gpu d in
            match code with
            | GS_kStarted =>
                start_managing a recovery queue store (set_gpu_status (set_gate kPhaseGpuObserved d)) h
            | _ =>
                start_failed (da_teardown a)
                  (start_failure DN_kGpuFailed
                     (with_message ("gpu manager start failed: " +:+ GpuManagerStartCode_to_string code)
                        (gpu_start_message code))) after_gpu d h
            end
      end
  end.

(** [Daemon::stop] *)
Definition daemon_stop (t : TeardownAnswers) (d : Daemon) (h : Host) : DaemonStopCode * Daemon * Host :=
  if d_stop_requested d then (DQ_kAlreadyStopped, d, h)
  else
    let d := {| d with d_stop_requested := true |} in
    if negb (d_started d) then (DQ_kNotRunning, d, h)
    else
      let '(d, h) := release_all t stop_releases d h in
      (DQ_kStopped, {| d with d_started := false |}, h).
End daemon.
Arguments Daemon S : clear implicits.

(** ** Life times *)

Definition all_parts : list Part :=
  [PT_queue; PT_gpu; PT_gpu_hook; PT_gpu_status; PT_reader; PT_streamer; PT_listener; PT_follow; PT_manager; PT_service; PT_ipc].

(** Which part refers to which: the constructor arguments and the captures of
    the two callbacks *)
Definition refers (p : Part) : list Part :=
  match p with
  | PT_queue | PT_gpu | PT_reader | PT_streamer => []
  | PT_gpu_hook => [PT_manager]
  | PT_gpu_status => [PT_gpu]
  | PT_manager => [PT_queue; PT_gpu; PT_streamer]
  | PT_service => [PT_gpu_status; PT_reader; PT_manager]
  | PT_follow => [PT_service; PT_streamer]
  | PT_listener => [PT_follow]
  | PT_ipc => [PT_service; PT_follow]
  end.

(** The parts a release ends *)
Definition ends (r : Release) (p : Part) : bool :=
  match r, p with
  | RE_reset_ipc, PT_ipc | RE_clear_listener, PT_listener | RE_reset_follow, PT_follow | RE_reset_service, PT_service
  | RE_reset_reader, PT_reader | RE_reset_manager, PT_manager | RE_reset_streamer, PT_streamer
  | RE_reset_streamer, PT_listener | RE_reset_gpu_status, PT_gpu_status | RE_reset_gpu, PT_gpu
  | RE_stop_manager, PT_gpu_hook | RE_reset_manager, PT_gpu_hook | RE_reset_gpu, PT_gpu_hook
  | RE_reset_queue, PT_queue => true
  | _, _ => false
  end.

(** A set of live parts in which every part's references are live *)
Definition closed_set (live : Part -> bool) : bool :=
  forallb (fun p => negb (live p) || forallb live (refers p)) all_parts.

(** The live parts along a sequence of releases *)
Fixpoint live_along (live : Part -> bool) (rs : list Release) : list (Part -> bool) :=
  live :: match rs with [] => [] | r :: rs => live_along (fun p => live p && negb (ends r p)) rs end.

Section lifetimes.
Context {S : Type} `{StateStore S}.
Implicit Types (d : Daemon S).

Definition alive d (p : Part) : bool :=
  match p with
  | PT_queue => bool_decide (is_Some (d_queue d))
  | PT_gpu => bool_decide (is_Some (d_gpu d))
  | PT_gpu_hook => d_gpu_hook d
  | PT_gpu_status => d_gpu_status d
  | PT_reader => d_reader d
  | PT_streamer => bool_decide (is_Some (d_streamer d))
  | PT_listener => d_listener d
  | PT_follow => bool_decide (is_Some (d_follow d))
  | PT_manager => bool_decide (is_Some (d_manager d))
  | PT_service => d_service d
  | PT_ipc => bool_decide (is_Some (d_ipc d))
  end.

(** No part outlives one it refers to. *)
Definition closed d : Prop := forall p q, q ∈ refers p -> alive d p = true -> alive d q = true.

Lemma closed_set_spec d (live : Part -> bool) :
  (forall p, alive d p = live p) -> closed_set live = true -> closed d.
Proof.
  intros Hl Hc p q Hq. unfold closed_set in Hc. rewrite forallb_forall in Hc. rewrite !Hl. intros Hp.
  assert (In p all_parts) as Hin by (destruct p; cbn; tauto). specialize (Hc p Hin). rewrite Hp in Hc. cbn in Hc.
  rewrite forallb_forall in Hc. by apply Hc, list_elem_of_In.
Qed.

(** The callback in the GPU manager is that of a running job manager. *)
Definition hooked d : Prop :=
  d_gpu_hook d = true -> exists o, d_manager d = Some o /\ mo_started o = true /\ mo_stop_requested o = false.

Lemma manager_stop_code rounds late (o : ManagerOwner S) h :
  mo_started o = true -> mo_stop_requested o = false -> (manager_stop rounds late o h).1.1.1.1 = MQ_kStopped.
Proof.
  intros Hs Hr. unfold manager_stop. rewrite Hr. cbn. rewrite Hs. cbn. destruct (mo_worker o); [|done].
  repeat (case_match; simplify_eq; try done).
Qed.

(** Stopping the manager ends the callback and nothing else. *)
Lemma stop_manager_alive t o d h p :
  d_manager d = Some o -> hooked d ->
  alive (stop_manager_part t o d h).1 p = alive d p && negb (bool_decide (p = PT_gpu_hook)).
Proof.
  intros Hm Hh. unfold stop_manager_part.
  assert (d_gpu_hook d = true -> (manager_stop (td_rounds t) (td_late t) o h).1.1.1.1 = MQ_kStopped) as Hcode.
  { intros (o' & Ho & Hs & Hr)%Hh. rewrite Hm in Ho. injection Ho as <-. by apply manager_stop_code. }
  destruct (manager_stop _ _ _ _) as [[[[code o'] h'] [l|]] kills]; cbn [fst] in Hcode; destruct p; cbn;
    rewrite ?andb_true_r, ?andb_false_r; try done;
    first [apply bool_decide_ext; by rewrite fmap_is_Some | by rewrite Hm, !bool_decide_true
          | destruct (d_gpu_hook d); [by rewrite Hcode|by destruct code]].
Qed.

Lemma stop_manager_hook t o d h : d_manager d = Some o -> hooked d -> d_gpu_hook (stop_manager_part t o d h).1 = false.
Proof. intros Hm Hh. pose proof (stop_manager_alive t o d h PT_gpu_hook Hm Hh) as E. cbn in E. by rewrite E, andb_false_r. Qed.

Lemma release_hooked t r d h : hooked d -> hooked (release_part t r (d, h)).1.
Proof.
  intros Hh. destruct r; cbn -[server_stop follow_stop stop_manager_part]; try exact Hh.
  - destruct (d_ipc d); [|exact Hh]. destruct (server_stop _ _ _). exact Hh.
  - destruct (d_ipc d); [|exact Hh]. destruct (server_stop _ _ _). exact Hh.
  - destruct (d_follow d); [|exact Hh]. destruct (follow_stop _ _). exact Hh.
  - destruct (d_manager d) as [o|] eqn:E; [|exact Hh]. intros Hx. by rewrite (stop_manager_hook t o d h E Hh) in Hx.
  - destruct (d_manager d) as [o|] eqn:E; [|exact Hh]. pose proof (stop_manager_hook t o d h E Hh) as Hx.
    destruct (stop_manager_part t o d h) as [d' h']. intros Hy. cbn in Hx, Hy. congruence.
  - by intros ?.
Qed.

Lemma hooked_running d config w1 w2 w3 (l : Loop S) : d_manager d = Some (running_owner config w1 w2 w3 l) -> hooked d.
Proof. intros Hm _. by eexists. Qed.

Lemma hooked_none d : alive d PT_gpu_hook = false -> hooked d.
Proof. cbn. intros E. unfold hooked. by rewrite E. Qed.

Lemma no_manager_hook d : hooked d -> d_manager d = None -> d_gpu_hook d = false.
Proof. intros Hh Hm. destruct (d_gpu_hook d) eqn:E; [|done]. destruct (Hh E) as (o & Ho & _). congruence. Qed.

Lemma release_alive t r d h p : hooked d -> alive (release_part t r (d, h)).1 p = alive d p && negb (ends r p).
Proof.
  intros Hh. destruct r; cbn -[stop_manager_part].
  all: try (destruct p; cbn; rewrite ?andb_true_r, ?andb_false_r; done || (apply bool_decide_ext; by rewrite fmap_is_Some)).
  - destruct (d_ipc d) as [s|] eqn:E; [|destruct p; cbn; by rewrite ?andb_true_r].
    destruct (server_stop _ _ _). destruct p; cbn; rewrite ?E, ?andb_true_r; try done; by rewrite !bool_decide_true.
  - destruct (d_ipc d) as [s|] eqn:E; [|destruct p; cbn; rewrite ?E, ?andb_true_r; done].
    destruct (server_stop _ _ _). destruct p; cbn; rewrite ?E, ?andb_true_r, ?andb_false_r; done.
  - destruct (d_follow d) as [o|] eqn:E; [|destruct p; cbn; rewrite ?E, ?andb_true_r; done].
    destruct (follow_stop _ _). destruct p; cbn; rewrite ?E, ?andb_true_r, ?andb_false_r; done.
  - destruct (d_manager d) as [o|] eqn:E.
    + rewrite (stop_manager_alive _ _ _ _ _ E Hh). f_equal. by destruct p.
    + destruct p; cbn; rewrite ?E, ?andb_true_r, ?andb_false_r; try done. by apply no_manager_hook.
  - destruct (d_manager d) as [o|] eqn:E.
    + pose proof (stop_manager_alive t o d h p E Hh) as Ha.
      destruct (stop_manager_part t o d h) as [d' h']. destruct p; cbn in *; rewrite ?andb_true_r, ?andb_false_r in *; done.
    + destruct p; cbn; rewrite ?E, ?andb_true_r, ?andb_false_r; try done. by apply no_manager_hook.
Qed.

Lemma released_alive t rs d h live :
  hooked d -> (forall p, alive d p = live p) ->
  Forall2 (fun d live => forall p, alive d p = live p) (released t rs (d, h)) (live_along live rs).
Proof.
  revert d h live. induction rs as [|r rs IH]; intros d h live Hh Hl; cbn [released live_along fst];
    (constructor; [done|]); [constructor|]. pose proof (release_hooked t r d h Hh) as Hh'.
  destruct (release_part t r (d, h)) as [d' h'] eqn:E. apply IH; [exact Hh'|]. intros p.
  pose proof (release_alive t r d h p Hh) as Ha. rewrite E in Ha. cbn [fst] in Ha. by rewrite Ha, Hl.
Qed.

Lemma released_closed t rs d h live :
  hooked d -> (forall p, alive d p = live p) -> forallb closed_set (live_along live rs) = true ->
  Forall closed (released t rs (d, h)).
Proof.
  intros Hh Hl Hc. pose proof (released_alive t rs d h live Hh Hl) as Hr.
  clear Hl. revert Hc. induction Hr as [|d0 live0 ds lives Hd _ IH]; intros Hc; [constructor|].
  cbn in Hc. apply andb_true_iff in Hc as [Hc1 Hc2]. constructor; [by eapply closed_set_spec|auto].
Qed.
End lifetimes.

(** ** What a started daemon is *)

(** The kernel gives out descriptors that are not open: the wake pipes of the
    four workers, then the endpoint's. *)
Definition daemon_wakes (a : DaemonAnswers) : list (option (N * N)) :=
  [ma_monitor_pipe (da_manager a); ma_pump_pipe (da_manager a); ma_pipe (da_manager a); da_follow_pipe a].

Definition daemon_fresh (a : DaemonAnswers) (h : Host) : Prop :=
  fresh_wakes (daemon_wakes a) h /\
  forall node, fresh_answers (da_ipc a) (mkHost node (wake_fds (daemon_wakes a) ++ ho_open h)).

(** The listening server of a started daemon *)
Definition serving (config : UdsIpcServerConfig) (fd rd wr : N) : UdsIpcServer :=
  mkServer config (Some fd) (Some rd) (Some wr) false true false.

Definition follow_owner (w : N * N) : WorkerOwner := mkWorkerOwner true false false (Some w).

(** The live parts after assignments, from those before ([Hl]) *)
Ltac alive_parts Hl :=
  let p := fresh "p" in let Hp := fresh "Hp" in
  intros p; pose proof (Hl p) as Hp; destruct p; cbn in *; try exact Hp; try reflexivity; by rewrite bool_decide_true.

Section start.
Context {S : Type} `{StateStoreLaws S}.
Implicit Types (d : Daemon S).

Lemma manager_stop_idle rounds late (o : ManagerOwner S) h :
  mo_started o = false -> exists code o', manager_stop rounds late o h = (code, o', h, None, []).
Proof. intros Hs. unfold manager_stop. destruct (mo_stop_requested o); [by eauto|]. cbn. rewrite Hs. by eauto. Qed.

Lemma manager_stop_again rounds late (o : ManagerOwner S) h :
  mo_stop_requested o = true -> manager_stop rounds late o h = (MQ_kAlreadyStopped, o, h, None, []).
Proof. intros Hs. unfold manager_stop. by rewrite Hs. Qed.


(** The follow service's wake pipe on top of the manager's *)
Lemma follow_wake_close w1 w2 w3 w4 h :
  fresh_wakes [Some w1; Some w2; Some w3; Some w4] h ->
  close_wake w4 (open_wake w4 (open_wake w3 (open_wake w2 (open_wake w1 h)))) = open_wake w3 (open_wake w2 (open_wake w1 h)).
Proof.
  intros [Hn Hf]. cbn in Hn, Hf. rewrite !NoDup_cons, !not_elem_of_cons in Hn.
  rewrite !Forall_cons in Hf. destruct_and! Hn. destruct_and! Hf.
  apply close_open_wake; cbn; rewrite !not_elem_of_cons; auto 20.
Qed.

Lemma fresh_wakes_take ws w h : fresh_wakes (ws ++ [w]) h -> fresh_wakes ws h.
Proof.
  unfold fresh_wakes, wake_fds. rewrite bind_app. intros [Hn Hf]. apply NoDup_app in Hn as (? & _ & _).
  by apply Forall_app in Hf as [? _].
Qed.

Lemma fresh_wakes_node ws node h : fresh_wakes ws h -> fresh_wakes ws (mkHost node (ho_open h)).
Proof. done. Qed.

Lemma open_wakes_list w1 w2 w3 w4 h :
  ho_open (open_wake w4 (open_wake w3 (open_wake w2 (open_wake w1 h)))) ≡ₚ
  wake_fds [Some w1; Some w2; Some w3; Some w4] ++ ho_open h.
Proof. cbn. solve_Permutation. Qed.

Lemma fresh_answers_perm a node1 node2 l1 l2 :
  l1 ≡ₚ l2 -> fresh_answers a (mkHost node1 l1) -> fresh_answers a (mkHost node2 l2).
Proof. intros Hp [Hn Hf]. split; [done|]. eapply Forall_impl; [exact Hf|]. cbn. intros x Hx. by rewrite <- Hp. Qed.

(** The parts that exist before the follow service is started *)
Definition before_serving (p : Part) : bool :=
  match p with PT_queue | PT_gpu | PT_gpu_hook | PT_gpu_status | PT_streamer | PT_manager => true | _ => false end.

(** What [start] leaves when it succeeds, on the host [h0] it found *)
Record Serving (a : DaemonAnswers) (recovery : RecoveryResult) (m : Manager S) d (h0 h : Host) : Prop := {
  sv_alive : forall p, alive d p = true;
  sv_started : d_started d = true /\ d_stop_requested d = false;
  sv_parts : exists w1 w2 w3 w4 fd rd wr,
    daemon_wakes a = [Some w1; Some w2; Some w3; Some w4] /\
    d_manager d = Some (running_owner (dc_job_manager (d_config d)) w1 w2 w3 (first_loop m)) /\
    d_follow d = Some (follow_owner w4) /\ d_ipc d = Some (serving (dc_ipc (d_config d)) fd rd wr) /\
    ho_open h = rd :: wr :: fd :: ho_open (open_wake w4 (open_wake w3 (open_wake w2 (open_wake w1 h0)))) /\
    NoDup [rd; wr; fd] /\
    Forall (fun x => x ∉ ho_open (open_wake w4 (open_wake w3 (open_wake w2 (open_wake w1 h0))))) [rd; wr; fd];
}.

Lemma release_cons t r rs d h :
  release_all t (r :: rs) d h = release_all t rs (release_part t r (d, h)).1 (release_part t r (d, h)).2.
Proof. unfold release_all. cbn [fold_left]. by destruct (release_part t r (d, h)). Qed.

(** Releases that touch no worker leave the host. *)
Definition quiet (r : Release) : bool :=
  match r with
  | RE_stop_ipc | RE_reset_ipc | RE_reset_follow | RE_stop_manager | RE_reset_manager => false
  | _ => true
  end.

Lemma release_quiet t r d h :
  quiet r = true ->
  (release_part t r (d, h)).2 = h /\ d_manager (release_part t r (d, h)).1 = d_manager d /\
  d_follow (release_part t r (d, h)).1 = d_follow d /\ d_ipc (release_part t r (d, h)).1 = d_ipc d /\
  d_ended (release_part t r (d, h)).1 = d_ended d /\ d_kills (release_part t r (d, h)).1 = d_kills d /\
  d_store (release_part t r (d, h)).1 = d_store d /\ d_started (release_part t r (d, h)).1 = d_started d /\
  d_config (release_part t r (d, h)).1 = d_config d.
Proof. by destruct r. Qed.

Lemma release_quiets t rs d h :
  forallb quiet rs = true ->
  (release_all t rs d h).2 = h /\ d_ended (release_all t rs d h).1 = d_ended d /\ d_kills (release_all t rs d h).1 = d_kills d /\
  d_store (release_all t rs d h).1 = d_store d /\ d_started (release_all t rs d h).1 = d_started d.
Proof.
  revert d h. induction rs as [|r rs IH]; intros d h Hq; [done|]. cbn in Hq. apply andb_true_iff in Hq as [Hq1 Hq2].
  rewrite release_cons. destruct (release_quiet t r d h Hq1) as (E1 & _ & _ & _ & E2 & E3 & E4 & E5 & _).
  destruct (IH (release_part t r (d, h)).1 (release_part t r (d, h)).2 Hq2) as (F1 & F2 & F3 & F4 & F5).
  by rewrite F1, F2, F3, F4, F5, E1, E2, E3, E4, E5.
Qed.

(** The live parts after a sequence of releases *)
Definition live_after (live : Part -> bool) (rs : list Release) : Part -> bool :=
  fold_left (fun live r p => live p && negb (ends r p)) rs live.

Lemma release_live t rs d h live :
  hooked d -> (forall p, alive d p = live p) -> forall p, alive (release_all t rs d h).1 p = live_after live rs p.
Proof.
  revert d h live. induction rs as [|r rs IH]; intros d h live Hh Hl p; [apply Hl|]. rewrite release_cons. apply IH.
  { by apply release_hooked. }
  intros q. pose proof (release_alive t r d h q Hh) as Ha. destruct (release_part t r (d, h)). cbn in *. by rewrite Ha, Hl.
Qed.
(** Stopping the workers of a serving daemon, from any record of the rest *)
Lemma stop_manager_running t config w1 w2 w3 m d h0 :
  0 < jc_command_capacity config -> fresh_wakes [Some w1; Some w2; Some w3] h0 ->
  exists o l kills,
    stop_manager_part t (running_owner config w1 w2 w3 (first_loop m)) d (open_wake w3 (open_wake w2 (open_wake w1 h0))) =
      ({| d with d_manager := Some o; d_gpu_hook := false; d_kills := d_kills d ++ kills; d_ended := Some l;
                 d_store := (fun _ => mg_store (lo_manager l)) <$> d_store d;
                 d_queue := (fun _ => mg_queue (lo_manager l)) <$> d_queue d |}, h0) /\
    mo_stop_requested o = true /\
    (MgrOk m -> life_ok config m (lo_handled l) -> WorkerEnd config m l /\ kills = []).
Proof.
  intros Hcap Hf. pose proof (manager_stop_spec config w1 w2 w3 m (td_rounds t) (td_late t) h0 Hcap Hf) as Hs.
  unfold stop_manager_part. destruct (manager_stop _ _ _ _) as [[[[code o] h'] ended] kills].
  destruct Hs as (-> & -> & _ & Hstop & l & -> & Hl). exists o, l, kills. by split.
Qed.

(** The workers' side of a release *)
Definition worker_view (dh : Daemon S * Host) :=
  (d_ipc dh.1, d_follow dh.1, d_manager dh.1, d_kills dh.1, d_ended dh.1, d_store dh.1, dh.2).

Definition after_worker (t : TeardownAnswers) (r : Release)
    (v : option UdsIpcServer * option WorkerOwner * option (ManagerOwner S) * list KillCall * option (Loop S) * option S * Host) :=
  let '(i, f, m, k, e, s, h) := v in
  let manager reset o :=
    let '(_, o, h, ended, kills) := manager_stop (td_rounds t) (td_late t) o h in
    (i, f, if reset : bool then None else Some o, k ++ kills,
     match ended with Some l => Some l | None => e end,
     match ended with Some l => (fun _ => mg_store (lo_manager l)) <$> s | None => s end, h) in
  match r with
  | RE_stop_ipc =>
      match i with
      | Some server => let '(server, h) := server_stop (td_unlink t) server h in (Some server, f, m, k, e, s, h)
      | None => v
      end
  | RE_reset_ipc =>
      match i with
      | Some server => let '(_, h) := server_stop (td_unlink t) server h in (None, f, m, k, e, s, h)
      | None => v
      end
  | RE_reset_follow =>
      match f with Some o => let '(_, h) := follow_stop o h in (i, None, m, k, e, s, h) | None => v end
  | RE_stop_manager => match m with Some o => manager false o | None => v end
  | RE_reset_manager => match m with Some o => manager true o | None => v end
  | _ => v
  end.

Lemma release_part_view t r dh : worker_view (release_part t r dh) = after_worker t r (worker_view dh).
Proof.
  destruct dh as [d h]. unfold worker_view, after_worker.
  destruct r; cbn -[server_stop manager_stop follow_stop]; try done.
  - destruct (d_ipc d) eqn:E; [by destruct (server_stop _ _ _)|by cbn; rewrite E].
  - destruct (d_ipc d) eqn:E; [by destruct (server_stop _ _ _)|by cbn; rewrite E].
  - destruct (d_follow d) eqn:E; [by destruct (follow_stop _ _)|by cbn; rewrite E].
  - destruct (d_manager d) eqn:E; [|by cbn; rewrite E]. unfold stop_manager_part.
    by destruct (manager_stop _ _ _ _) as [[[[? ?] ?] [?|]] ?].
  - destruct (d_manager d) eqn:E; [|by cbn; rewrite E]. unfold stop_manager_part.
    by destruct (manager_stop _ _ _ _) as [[[[? ?] ?] [?|]] ?].
Qed.

Lemma release_view t rs d h :
  worker_view (release_all t rs d h) = fold_left (fun v r => after_worker t r v) rs (worker_view (d, h)).
Proof.
  revert d h. induction rs as [|r rs IH]; intros d h; [done|]. rewrite release_cons, IH. cbn [fold_left]. f_equal.
  rewrite <- release_part_view. by destruct (release_part t r (d, h)).
Qed.

(** The manager's two releases, on a running manager *)
Lemma after_manager_stopped t config w1 w2 w3 m i f k e s h0 :
  0 < jc_command_capacity config -> fresh_wakes [Some w1; Some w2; Some w3] h0 ->
  exists l kills,
    after_worker t RE_reset_manager (after_worker t RE_stop_manager
      (i, f, Some (running_owner config w1 w2 w3 (first_loop m)), k, e, s, open_wake w3 (open_wake w2 (open_wake w1 h0)))) =
    (i, f, None, (k ++ kills) ++ [], Some l, (fun _ => mg_store (lo_manager l)) <$> s, h0) /\
    (MgrOk m -> life_ok config m (lo_handled l) -> WorkerEnd config m l /\ kills = []).
Proof.
  intros Hcap Hf. pose proof (manager_stop_spec config w1 w2 w3 m (td_rounds t) (td_late t) h0 Hcap Hf) as Hs.
  unfold after_worker at 2. destruct (manager_stop _ _ (running_owner _ _ _ _ _) _) as [[[[code o] h'] ended] kills].
  destruct Hs as (-> & -> & _ & Hstop & l & -> & Hl). exists l, kills. split; [|done].
  unfold after_worker. by rewrite manager_stop_again.
Qed.

Lemma follow_stop_owner w h : follow_stop (follow_owner w) h = (mkWorkerOwner false true true None, close_wake w h).
Proof. done. Qed.


(** What a failed start leaves *)
Definition Released d (h0 h : Host) : Prop :=
  (forall p, alive d p = false) /\ d_started d = false /\ ho_open h = ho_open h0.

Lemma release_frame t rs d h : d_started (release_all t rs d h).1 = d_started d.
Proof.
  revert d h. induction rs as [|r rs IH]; intros d h; [done|]. rewrite release_cons, IH.
  destruct r; cbn -[server_stop manager_stop follow_stop]; try done.
  - destruct (d_ipc d); [|done]. by destruct (server_stop _ _ _).
  - destruct (d_ipc d); [|done]. by destruct (server_stop _ _ _).
  - destruct (d_follow d); [|done]. by destruct (follow_stop _ _).
  - destruct (d_manager d); [|done]. unfold stop_manager_part. by destruct (manager_stop _ _ _ _) as [[[[? ?] ?] [?|]] ?].
  - destruct (d_manager d); [|done]. unfold stop_manager_part. by destruct (manager_stop _ _ _ _) as [[[[? ?] ?] [?|]] ?].
Qed.

(** The releases after the follow service's, with the manager running *)
Lemma after_follow_view t config w1 w2 w3 m i f k e s h0 h1 :
  0 < jc_command_capacity config -> fresh_wakes [Some w1; Some w2; Some w3] h0 ->
  (follow_stop f h1).2 = open_wake w3 (open_wake w2 (open_wake w1 h0)) ->
  (fold_left (fun v r => after_worker t r v) after_follow
     (i, Some f, Some (running_owner config w1 w2 w3 (first_loop m)), k, e, s, h1)).2 = h0.
Proof.
  intros Hcap Hf Hh. unfold after_follow, after_manager, after_streamer. cbn [app fold_left].
  unfold after_worker at 10. destruct (follow_stop f h1) as [f' h1']. cbn [snd] in Hh. subst h1'.
  unfold after_worker at 9 8.
  destruct (after_manager_stopped t config w1 w2 w3 m i None k e s h0 Hcap Hf) as (l & kills & -> & _). done.
Qed.

Lemma release_host t rs d h : (release_all t rs d h).2 = (fold_left (fun v r => after_worker t r v) rs (worker_view (d, h))).2.
Proof. rewrite <- release_view. by destruct (release_all t rs d h). Qed.

(** The state [start_serving] begins with *)
Record Ready (a : DaemonAnswers) (m : Manager S) d (h0 h : Host) : Prop := {
  rd_alive : forall p, alive d p = before_serving p;
  rd_flags : d_started d = false /\ d_stop_requested d = false;
  rd_manager : exists w1 w2 w3,
    [ma_monitor_pipe (da_manager a); ma_pump_pipe (da_manager a); ma_pipe (da_manager a)] = [Some w1; Some w2; Some w3] /\
    d_manager d = Some (running_owner (dc_job_manager (d_config d)) w1 w2 w3 (first_loop m)) /\
    h = open_wake w3 (open_wake w2 (open_wake w1 h0));
  rd_capacity : 0 < jc_command_capacity (dc_job_manager (d_config d));
}.

Lemma follow_start_cases config pipe accepted h code message o h' :
  fresh_wakes [pipe] h -> follow_start config pipe accepted new_worker_owner h = (code, message, o, h') ->
  code <> FS_kStarted /\ o = new_worker_owner /\ h' = h \/
  code = FS_kStarted /\ exists w, pipe = Some w /\ o = follow_owner w /\ h' = open_wake w h.
Proof.
  intros [_ Hf]. unfold follow_start. cbn [new_worker_owner wo_started wo_stop_requested].
  destruct (follow_config_valid config); [|intros [= <- <- <- <-]; by left].
  destruct pipe as [w|]; [|intros [= <- <- <- <-]; by left]. cbn in Hf. rewrite !Forall_cons in Hf.
  destruct accepted; cbn [negb]; intros [= <- <- <- <-]; [right; eauto|left].
  split; [done|]. split; [done|]. apply close_open_wake; apply Hf.
Qed.

Lemma fresh_wakes_last (w1 w2 w3 : N * N) w h :
  fresh_wakes [Some w1; Some w2; Some w3; w] h -> fresh_wakes [w] (open_wake w3 (open_wake w2 (open_wake w1 h))).
Proof.
  unfold fresh_wakes. intros [Hn Hf]. destruct w as [w|]; [|by split; constructor].
  cbn in *. rewrite !NoDup_cons, !not_elem_of_cons in Hn. rewrite !Forall_cons in Hf. destruct_and! Hn. destruct_and! Hf.
  split; [rewrite !NoDup_cons, !not_elem_of_cons; auto|]. rewrite !Forall_cons, !not_elem_of_cons. auto 20.
Qed.

Lemma alive_serving d follow p : (forall p, alive d p = before_serving p) ->
  alive (set_follow follow (set_service d)) p = negb (bool_decide (p = PT_ipc)).
Proof.
  intros Hl. pose proof (Hl p) as Hp. destruct p; cbn in *; try exact Hp; try reflexivity; by rewrite bool_decide_true.
Qed.

(** The failure of the follow service *)
Lemma follow_failed t m d h0 h w1 w2 w3 i :
  (forall p, alive d p = before_serving p) -> d_started d = false ->
  d_manager d = Some (running_owner (dc_job_manager (d_config d)) w1 w2 w3 (first_loop m)) ->
  0 < jc_command_capacity (dc_job_manager (d_config d)) -> fresh_wakes [Some w1; Some w2; Some w3] h0 ->
  (follow_stop i h).2 = open_wake w3 (open_wake w2 (open_wake w1 h0)) ->
  Released (release_all t after_follow (set_follow i (set_service d)) h).1 h0
    (release_all t after_follow (set_follow i (set_service d)) h).2.
Proof.
  intros Hl Hs Hm Hcap Hf Hh. split; [|split].
  - intros p. rewrite (release_live t after_follow _ h (fun p => negb (bool_decide (p = PT_ipc)))).
    + by destruct p.
    + exact (hooked_running _ _ _ _ _ _ Hm).
    + intros q. by apply alive_serving.
  - rewrite release_frame. exact Hs.
  - rewrite release_host. unfold worker_view. cbn [fst snd].
    change (d_manager (set_follow i (set_service d))) with (d_manager d).
    rewrite Hm. change (d_follow (set_follow i (set_service d))) with (Some i).
    by rewrite (after_follow_view _ _ _ _ _ _ _ _ _ _ _ h0).
Qed.

(** A server that did not start leaves nothing to release. *)
Lemma release_unstarted t config d h :
  d_ipc d = None -> release_part t RE_reset_ipc (set_ipc (new_server config) d, h) = (d, h).
Proof. destruct d. cbn. intros ->. reflexivity. Qed.

Lemma not_alive_ipc d : alive d PT_ipc = false -> d_ipc d = None.
Proof. cbn. by destruct (d_ipc d). Qed.

(** The parts of a daemon that [start_serving] does not touch *)
Definition same_rest d d' : Prop :=
  d_config d' = d_config d /\ d_kills d' = d_kills d /\ d_store d' = d_store d /\ d_gate d' = d_gate d /\
  d_ended d' = d_ended d.

Lemma serving_done a recovery m d h0 w1 w2 w3 w4 server h :
  (forall p, alive d p = before_serving p) -> d_stop_requested d = false ->
  daemon_wakes a = [Some w1; Some w2; Some w3; Some w4] ->
  d_manager d = Some (running_owner (dc_job_manager (d_config d)) w1 w2 w3 (first_loop m)) ->
  fresh_answers (da_ipc a) (open_wake w4 (open_wake w3 (open_wake w2 (open_wake w1 h0)))) ->
  Started (da_ipc a) (new_server (dc_ipc (d_config d))) server (open_wake w4 (open_wake w3 (open_wake w2 (open_wake w1 h0)))) h ->
  Serving a recovery m (set_started (set_ipc server (set_follow (follow_owner w4) (set_service d)))) h0 h.
Proof.
  intros Hl Hreq Hw Hm [Hnd Hf] [(fd & rd & wr & Hs & Hp & Ho & ->) _ _ _]. constructor.
  - alive_parts Hl.
  - split; [reflexivity|exact Hreq].
  - exists w1, w2, w3, w4, fd, rd, wr. split; [exact Hw|]. split; [exact Hm|]. split; [reflexivity|].
    split; [reflexivity|]. split; [exact Ho|]. rewrite Hs, Hp in Hnd, Hf. cbn [option_list app] in Hnd, Hf.
    assert ([fd; rd; wr] ≡ₚ [rd; wr; fd]) as Hperm by solve_Permutation.
    split; [by rewrite <- Hperm|by rewrite <- Hperm].
Qed.

Lemma failed_released t result rs d h h0 res d' h' :
  start_failed t result rs d h = (res, d', h') -> ds_code result <> DN_kStarted ->
  Released (release_all t rs d h).1 h0 (release_all t rs d h).2 ->
  ds_code res <> DN_kStarted /\ Released d' h0 h'.
Proof. unfold start_failed. destruct (release_all t rs d h) as [d1 h1]. intros [= <- <- <-]. auto. Qed.

(** The failure of the endpoint: the host's open files are those [start] found. *)
Lemma ipc_failed t m d h0 h w1 w2 w3 w4 :
  (forall p, alive d p = before_serving p) -> d_started d = false ->
  d_manager d = Some (running_owner (dc_job_manager (d_config d)) w1 w2 w3 (first_loop m)) ->
  0 < jc_command_capacity (dc_job_manager (d_config d)) -> fresh_wakes [Some w1; Some w2; Some w3; Some w4] h0 ->
  ho_open h = ho_open (open_wake w4 (open_wake w3 (open_wake w2 (open_wake w1 h0)))) ->
  let dh := release_all t after_ipc (set_ipc (new_server (dc_ipc (d_config d))) (set_follow (follow_owner w4) (set_service d))) h in
  Released dh.1 h0 dh.2.
Proof.
  intros Hl Hst Hm Hcap Hf Ho. unfold after_ipc. rewrite release_cons.
  rewrite release_unstarted by exact (not_alive_ipc d (Hl PT_ipc)). cbn zeta. cbn [fst snd].
  destruct h as [node open]. cbn [ho_open] in Ho. subst open.
  apply (follow_failed t m d (mkHost node (ho_open h0)) _ w1 w2 w3 (follow_owner w4) Hl Hst Hm Hcap).
  - exact (fresh_wakes_node _ node _ (fresh_wakes_take [Some w1; Some w2; Some w3] _ h0 Hf)).
  - rewrite follow_stop_owner. exact (follow_wake_close w1 w2 w3 w4 (mkHost node (ho_open h0)) (fresh_wakes_node _ node _ Hf)).
Qed.

Lemma start_serving_spec a recovery m d h0 h res d' h' :
  Ready a m d h0 h -> daemon_fresh a h0 -> start_serving a recovery d h = (res, d', h') ->
  ds_code res = DN_kStarted /\ ds_recovery res = Some recovery /\ Serving a recovery m d' h0 h' /\ same_rest d d' \/
  ds_code res <> DN_kStarted /\ Released d' h0 h'.
Proof.
  intros [Hl [Hst Hreq] (w1 & w2 & w3 & Hw & Hm & ->) Hcap] [Hf Hi] Hs. unfold start_serving in Hs.
  unfold daemon_wakes in Hf. injection Hw as E1 E2 E3. rewrite E1, E2, E3 in Hf.
  pose proof (fresh_wakes_take [Some w1; Some w2; Some w3] _ h0 Hf) as Hf3.
  change (d_config (set_service d)) with (d_config d) in Hs.
  destruct (follow_start _ _ _ _ _) as [[[code message] o] h1] eqn:Ef.
  destruct (follow_start_cases _ _ _ _ _ _ _ _ (fresh_wakes_last _ _ _ _ _ Hf) Ef)
    as [(Hc & -> & ->)|(-> & w4 & E4 & -> & ->)].
  - pose proof (follow_failed (da_teardown a) m d h0 (open_wake w3 (open_wake w2 (open_wake w1 h0))) w1 w2 w3
                  new_worker_owner Hl Hst Hm Hcap Hf3 eq_refl) as Hr. right.
    destruct code; try done; exact (failed_released _ _ _ _ _ _ _ _ _ Hs ltac:(discriminate) Hr).
  - assert (fresh_answers (da_ipc a) (open_wake w4 (open_wake w3 (open_wake w2 (open_wake w1 h0))))) as Hfa.
    { specialize (Hi (ho_node h0)). unfold daemon_wakes in Hi. rewrite E1, E2, E3, E4 in Hi.
      eapply fresh_answers_perm; [symmetry; apply open_wakes_list|exact Hi]. }
    pose proof (server_start_exact _ (new_server (dc_ipc (d_config d))) _ Hfa) as Hx.
    change (d_config (set_follow (follow_owner w4) (set_service d))) with (d_config d) in Hs.
    destruct (server_start _ _ _) as [[[result server] h2] trace]. destruct Hx as [_ Hx].
    destruct (bool_decide (sr_code result = TX_kStarted)).
    + left. injection Hs as <- <- <-. split; [reflexivity|]. split; [reflexivity|]. split; [|unfold same_rest; repeat split].
      apply (serving_done a recovery m d h0 w1 w2 w3 w4); [exact Hl|exact Hreq| |exact Hm|exact Hfa|exact Hx].
      unfold daemon_wakes. by rewrite E1, E2, E3, E4.
    + right. destruct Hx as [-> Ho _ _]. rewrite E4 in Hf.
      pose proof (ipc_failed (da_teardown a) m d h0 h2 w1 w2 w3 w4 Hl Hst Hm Hcap Hf Ho) as Hr.
      exact (failed_released _ _ _ _ _ _ _ _ _ Hs ltac:(discriminate) Hr).
Qed.

(** The parts that exist when the GPUs have been observed *)
Definition before_managing (p : Part) : bool :=
  match p with PT_queue | PT_gpu | PT_gpu_status => true | _ => false end.

(** The failure of the job manager, with its owner idle *)
Lemma manager_failed t d h0 o :
  (forall p, alive d p = negb (bool_decide (p ∈ [PT_gpu_hook; PT_reader; PT_listener; PT_follow; PT_service; PT_ipc]))) ->
  d_started d = false -> d_manager d = Some o -> idle o ->
  Released (release_all t after_manager d h0).1 h0 (release_all t after_manager d h0).2.
Proof.
  intros Hl Hst Hm [Hi _]. split; [|split].
  - intros p. rewrite (release_live t after_manager d h0 _ (hooked_none _ (Hl PT_gpu_hook)) Hl). by destruct p.
  - by rewrite release_frame.
  - rewrite release_host. unfold worker_view, after_manager, after_streamer. cbn [fst snd fold_left]. rewrite Hm.
    unfold after_worker at 6. destruct (manager_stop_idle (td_rounds t) (td_late t) o h0 Hi) as (code & o' & ->).
    reflexivity.
Qed.

(** The daemon that [start] leaves when it succeeds, from [d] *)
Record StartedFrom (a : DaemonAnswers) (recovery : RecoveryResult) (m : Manager S) d (h0 : Host) d' (h : Host) : Prop := {
  sf_serving : Serving a recovery m d' h0 h;
  sf_capacity : 0 < jc_command_capacity (dc_job_manager (d_config d));
  sf_config : d_config d' = d_config d;
  sf_kills : d_kills d' = d_kills d;
  sf_store : d_store d' = d_store d;
  sf_gate : d_gate d' = kPhaseSchedulingOpen;
}.

Lemma managed_ready a d h0 streamer m w1 w2 w3 :
  (forall p, alive d p = before_managing p) -> d_started d = false -> d_stop_requested d = false ->
  manager_config_valid (dc_job_manager (d_config d)) = Ok tt ->
  [ma_monitor_pipe (da_manager a); ma_pump_pipe (da_manager a); ma_pipe (da_manager a)] = [Some w1; Some w2; Some w3] ->
  Ready a m
    (set_manager (running_owner (dc_job_manager (d_config d)) w1 w2 w3 (first_loop m)) []
       (set_gate kPhaseSchedulingOpen (set_streamer streamer d)))
    h0 (open_wake w3 (open_wake w2 (open_wake w1 h0))).
Proof.
  intros Hl Hst Hreq Hv Hw. constructor.
  - alive_parts Hl.
  - split; [exact Hst|exact Hreq].
  - exists w1, w2, w3. split; [exact Hw|]. split; reflexivity.
  - exact (config_capacity _ Hv).
Qed.

Lemma start_managing_spec a recovery queue store d h0 res d' h' :
  (forall p, alive d p = before_managing p) -> d_started d = false -> d_stop_requested d = false -> daemon_fresh a h0 ->
  start_managing a recovery queue store d h0 = (res, d', h') ->
  ds_code res = DN_kStarted /\ ds_recovery res = Some recovery /\
    StartedFrom a recovery
      (arm_recovery (dc_job_manager (d_config d)) (ma_adopt (da_manager a)) (Some recovery) (new_manager queue store))
      d h0 d' h' \/
  ds_code res <> DN_kStarted /\ Released d' h0 h'.
Proof.
  intros Hl Hst Hreq Hfresh Hs. unfold start_managing in Hs.
  destruct (streamer_config_valid _) as [u|message].
  2: { right. apply (failed_released _ _ _ _ _ h0 _ _ _ Hs); [discriminate|]. split; [|split].
       - intros p. rewrite (release_live _ after_streamer d h0 _ (hooked_none _ (Hl PT_gpu_hook)) Hl). by destruct p.
       - by rewrite release_frame.
       - rewrite release_host. reflexivity. }
  change (d_config (set_gate _ _)) with (d_config d) in Hs.
  set (streamer := new_streamer _) in Hs. clearbody streamer.
  assert (fresh_wakes [ma_monitor_pipe (da_manager a); ma_pump_pipe (da_manager a); ma_pipe (da_manager a)] h0) as Hf3
    by (destruct Hfresh as [Hf _]; exact (fresh_wakes_take [_; _; _] (da_follow_pipe a) h0 Hf)).
  destruct (manager_start _ _ _ _ _) as [[[[code message] o] h1] kills] eqn:Em.
  destruct (manager_start_spec _ _ _ _ _ _ _ _ _ _ Hf3 Em)
    as [(Hc & -> & Hi & _)|(-> & -> & Hv & w1 & w2 & w3 & Hw & -> & ->)].
  - right. assert (Released (release_all (da_teardown a) after_manager
                   (set_manager o kills (set_gate kPhaseSchedulingOpen (set_streamer streamer d))) h0).1 h0
                   (release_all (da_teardown a) after_manager
                   (set_manager o kills (set_gate kPhaseSchedulingOpen (set_streamer streamer d))) h0).2) as Hr.
    { apply (manager_failed _ _ _ o); [|exact Hst|reflexivity|exact Hi]. destruct Hi as (_ & _ & _ & Hhook & _).
      intros p. pose proof (Hl p) as Hp.
      destruct p; cbn in *; first [exact Hp|reflexivity|exact Hhook|by rewrite bool_decide_true]. }
    destruct code; try done; exact (failed_released _ _ _ _ _ _ _ _ _ Hs ltac:(discriminate) Hr).
  - destruct (start_serving_spec _ _ _ _ _ _ _ _ _ (managed_ready a d h0 streamer _ w1 w2 w3 Hl Hst Hreq Hv Hw) Hfresh Hs)
      as [(Hc & Hr & Hsv & E1 & E2 & E3 & E4 & _)|Hr]; [left|by right].
    split; [exact Hc|]. split; [exact Hr|]. constructor; [exact Hsv|exact (config_capacity _ Hv)|exact E1| |exact E3|exact E4].
    rewrite E2. apply app_nil_r.
Qed.

(** A daemon whose [start] can be called: nothing of an earlier call is left. *)
Record Stopped d : Prop := {
  sd_alive : forall p, alive d p = false;
  sd_flags : d_started d = false /\ d_stop_requested d = false;
}.

(** What a successful [start] has done: the configured queue, the recovery of
    the store into it, and the manager armed with the recovery's outcomes. *)
Definition Launched (a : DaemonAnswers) d (h0 : Host) (res : DaemonStartResult) d' (h : Host) : Prop :=
  exists s q recovery q' s',
    d_store d = Some s /\ queue_create (dc_queue_capacity (d_config d)) = (QE_kNone, Some q) /\
    recover (da_now a) (da_verifier a) q s = (recovery, q', s') /\ recovery_ok recovery = true /\
    ds_recovery res = Some recovery /\ d_store d' = Some s' /\
    StartedFrom a recovery
      (arm_recovery (dc_job_manager (d_config d)) (ma_adopt (da_manager a)) (Some recovery) (new_manager q' s'))
      (set_recovered q' s' recovery d) h0 d' h.

Lemma queue_create_code capacity code q : queue_create capacity = (code, Some q) -> code = QE_kNone.
Proof. unfold queue_create. by destruct (_ || _); intros [= <- <-]. Qed.

(** Releasing parts of a daemon without workers *)
Lemma quiet_released t rs d h0 live :
  live PT_gpu_hook = false -> (forall p, alive d p = live p) -> d_started d = false -> forallb quiet rs = true ->
  forallb (fun p => negb (live_after live rs p)) all_parts = true ->
  Released (release_all t rs d h0).1 h0 (release_all t rs d h0).2.
Proof.
  intros Hk Hl Hst Hq Ha. assert (hooked d) as Hh by (apply hooked_none; by rewrite Hl). destruct (release_quiets t rs d h0 Hq) as (E & _ & _ & _ & E'). split; [|split; congruence].
  intros p. rewrite (release_live t rs d h0 live Hh Hl). rewrite forallb_forall in Ha.
  assert (In p all_parts) as Hin by (destruct p; cbn; tauto). specialize (Ha p Hin). by destruct (live_after live rs p).
Qed.

Lemma check_start_ok d s : check_start d = Ok s -> d_store d = Some s.
Proof.
  unfold check_start. destruct (d_started d); [done|]. destruct (d_stop_requested d); [done|].
  destruct (negb _); [done|]. destruct (server_config_valid _); [|done]. cbn.
  destruct (manager_config_valid _); [|done]. cbn. destruct (d_store d); [|done]. by intros [= ->].
Qed.

Lemma check_start_err d result : check_start d = Err result -> ds_code result <> DN_kStarted.
Proof.
  unfold check_start. destruct (d_started d); [by intros [= <-]|]. destruct (d_stop_requested d); [by intros [= <-]|].
  destruct (negb _); [by intros [= <-]|]. destruct (server_config_valid _); cbn; [|by intros [= <-]].
  destruct (manager_config_valid _); cbn; [|by intros [= <-]]. destruct (d_store d); [done|by intros [= <-]].
Qed.

Lemma daemon_start_spec a d h0 res d' h' :
  Stopped d -> daemon_fresh a h0 -> daemon_start a d h0 = (res, d', h') ->
  ds_code res = DN_kStarted /\ Launched a d h0 res d' h' \/ ds_code res <> DN_kStarted /\ Released d' h0 h'.
Proof.
  intros [Hl [Hst Hreq]] Hfresh Hs. unfold daemon_start in Hs.
  assert (Released d h0 h0) as Hsame by (split; [exact Hl|by split]).
  destruct (check_start d) as [store|result] eqn:Ec.
  2: { right. injection Hs as <- <- <-. split; [exact (check_start_err _ _ Ec)|exact Hsame]. }
  pose proof (check_start_ok _ _ Ec) as Hstore.
  destruct (queue_create _) as [code [q|]] eqn:Eq; [|right; injection Hs as <- <- <-; split; [discriminate|exact Hsame]].
  pose proof (queue_create_code _ _ _ Eq) as ->.
  destruct (recover _ _ _ _) as [[recovery q'] s'] eqn:Er.
  destruct (recovery_ok recovery) eqn:Eok; cbn [negb] in Hs.
  2: { right. apply (failed_released _ _ _ _ _ h0 _ _ _ Hs); [discriminate|].
       apply (quiet_released _ _ _ _ (fun p => bool_decide (p = PT_queue))); [done| |exact Hst|done|done].
       alive_parts Hl. }
  change (d_config (set_gate _ _)) with (d_config d) in Hs.
  destruct (gpu_start _ _ _) as [[gcode sampled] gpu] eqn:Eg.
  assert (gcode = GS_kStarted \/ gcode <> GS_kStarted) as [->|Hg] by (destruct gcode; auto).
  - set (d1 := set_gpu_status _) in Hs.
    assert (forall p, alive d1 p = before_managing p) as Hl1.
    { alive_parts Hl. }
    destruct (start_managing_spec _ _ _ _ _ _ _ _ _ Hl1 Hst Hreq Hfresh Hs) as [(Hc & Hr & Hsf)|Hr]; [left|by right].
    split; [exact Hc|]. exists store, q, recovery, q', s'. destruct Hsf as [F1 F2 F3 F4 F5 F6].
    split; [exact Hstore|]. split; [exact Eq|]. split; [exact Er|]. split; [exact Eok|]. split; [exact Hr|].
    split; [exact F5|]. constructor; assumption.
  - right. assert (Released (release_all (da_teardown a) after_gpu
                   (set_gpu gpu (set_gate kPhaseRecovery (set_recovered q' s' recovery d))) h0).1 h0
                   (release_all (da_teardown a) after_gpu
                   (set_gpu gpu (set_gate kPhaseRecovery (set_recovered q' s' recovery d))) h0).2) as Hr.
    { apply (quiet_released _ _ _ _ (fun p => bool_decide (p ∈ [PT_queue; PT_gpu]))); [done| |exact Hst|done|done].
      alive_parts Hl. }
    destruct gcode; try done; exact (failed_released _ _ _ _ _ _ _ _ _ Hs ltac:(discriminate) Hr).
Qed.

(** ** Properties of the daemon *)




(** C18. The daemon is taken down in an order in which nothing dangles: in every
    state that stopping a started daemon goes through, each part that exists
    still has every part it refers to, the callbacks included: the follow
    service's in the log streamer, and the job manager's in the GPU manager; at
    the end only the log streamer is left. *)
Theorem stop_order a t d h res d1 h1 :
  Stopped d -> daemon_fresh a h -> daemon_start a d h = (res, d1, h1) -> ds_code res = DN_kStarted ->
  Forall closed (released t stop_releases ({| d1 with d_stop_requested := true |}, h1)) /\
  forall p, alive (daemon_stop t d1 h1).1.2 p = bool_decide (p = PT_streamer).
Proof.
  intros Hd Hfresh Hstart Hc.
  destruct (daemon_start_spec _ _ _ _ _ _ Hd Hfresh Hstart) as [[_ Hl]|[Hc' _]]; [|done].
  destruct Hl as (s0 & q & recovery & q' & s' & _ & _ & _ & _ & _ & _ & [Hsv _ _ _ _ _]).
  destruct Hsv as [Ha [Hst Hreq] (w1 & w2 & w3 & ? & ? & ? & ? & _ & Hm & _)].
  assert (hooked {| d1 with d_stop_requested := true |}) as Hh by exact (hooked_running _ _ _ _ _ _ Hm).
  split; [apply (released_closed t _ _ _ (fun _ => true)); [exact Hh|intros p; rewrite <- (Ha p); by destruct p|reflexivity]|].
  intros p. unfold daemon_stop. rewrite Hreq. set (d0 := {| d1 with d_stop_requested := true |}).
  change (d_started d0) with (d_started d1). rewrite Hst. cbn [negb].
  pose proof (release_live t stop_releases d0 h1 (fun _ => true)) as Hr.
  destruct (release_all t stop_releases d0 h1) as [d2 h2]. cbn [fst snd] in *.
  transitivity (alive d2 p); [destruct p; reflexivity|]. rewrite Hr; [by destruct p|exact Hh|]. intros r. rewrite <- (Ha r). by destruct r.
Qed.

(** The clean-up of a start that fails before the follow service exists has no
    dangling part either. *)
Lemma early_failures_order t d h rs live :
  (rs, live) ∈ [(after_recovery, fun p => bool_decide (p = PT_queue));
                (after_gpu, fun p => bool_decide (p ∈ [PT_queue; PT_gpu]));
                (after_streamer, before_managing); (after_manager, before_serving)] ->
  hooked d -> (forall p, alive d p = live p) -> Forall closed (released t rs (d, h)).
Proof.
  intros Hin Hh Hl. apply (released_closed _ _ _ _ live Hh Hl).
  repeat (apply elem_of_cons in Hin as [[= -> ->]|Hin]; [reflexivity|]). by apply elem_of_nil in Hin.
Qed.

(** That of the follow service's failure, and of the endpoint's, does: the
    callback in the log streamer is left in place while the follow service it
    calls is destroyed and the job manager still runs. *)
Lemma failed_start_dangles t d h :
  hooked d -> (forall p, alive d p = negb (bool_decide (p = PT_ipc))) ->
  exists d', d' ∈ released t after_follow (d, h) /\ ~ closed d' /\
    alive d' PT_listener = true /\ alive d' PT_follow = false /\ alive d' PT_manager = true.
Proof.
  intros Hh Hl. exists (release_part t RE_reset_follow (d, h)).1.
  assert (forall p, alive (release_part t RE_reset_follow (d, h)).1 p = alive d p && negb (ends RE_reset_follow p)) as Ha
    by (intros p; by apply release_alive).
  split; [|split; [|by rewrite !Ha, !Hl]].
  - unfold after_follow. cbn [app released]. apply elem_of_cons. right. apply elem_of_cons. by left.
  - intros Hc. specialize (Hc PT_listener PT_follow). rewrite !Ha, !Hl in Hc. cbn in Hc.
    assert (false = true) by (apply Hc; [set_solver|done]). done.
Qed.
End start.

(** ** Examples *)

Definition example_daemon_config : DaemonConfig :=
  mkDaemonConfig default_service_config example_server_config 4 (mkGpuConfig 5000 64 10000) example_streamer_config
    example_follow_config example_manager_config.

Definition example_teardown : TeardownAnswers := mkTeardown true [example_loop_round] [CM_kCancel 78].

(** [serves] is whether the endpoint's [listen(2)] succeeds. *)
Definition example_daemon_answers (serves : bool) : DaemonAnswers :=
  mkDaemonAnswers 8 gone (GpuManager.example_answers 1 GO_kFree true) true (example_start_answers true) (Some (16, 17)) true
    (Endpoint.example_answers serves) example_teardown.

Definition example_daemon : Daemon InMemoryStateStore := new_daemon example_daemon_config (Some example_store).

Lemma example_daemon_stopped : Stopped example_daemon.
Proof. constructor; [by intros []|done]. Qed.

Lemma example_daemon_fresh serves : daemon_fresh (example_daemon_answers serves) (mkHost NoNode [0; 1; 2]).
Proof.
  split; [split; apply (bool_decide_unpack _); vm_compute; exact I|]. intros node.
  split; apply (bool_decide_unpack _); vm_compute; exact I.
Qed.


Lemma stop_order_witness :
  let '(res, d1, h1) := daemon_start (example_daemon_answers true) example_daemon (mkHost NoNode [0; 1; 2]) in
  length (released example_teardown stop_releases ({| d1 with d_stop_requested := true |}, h1)) = 13%nat /\
  Forall closed (released example_teardown stop_releases ({| d1 with d_stop_requested := true |}, h1)).
Proof.
  destruct (daemon_start (example_daemon_answers true) example_daemon (mkHost NoNode [0; 1; 2])) as [[res d1] h1] eqn:Hs.
  split; [reflexivity|].
  apply (stop_order (example_daemon_answers true) example_teardown example_daemon (mkHost NoNode [0; 1; 2]) res d1 h1).
  - exact example_daemon_stopped.
  - exact (example_daemon_fresh true).
  - exact Hs.
  - vm_compute in Hs. injection Hs. intros. subst. reflexivity.
Defined.

(** A start whose endpoint cannot listen: everything is released. *)
Example listen_fails :
  let '(res, d1, h1) := daemon_start (example_daemon_answers false) example_daemon (mkHost NoNode [0; 1; 2]) in
  ds_code res = DN_kIpcFailed /\ h1 = mkHost NoNode [0; 1; 2] /\ forallb (fun p => negb (alive d1 p)) all_parts = true.
Proof. vm_compute. done. Qed.
