(* ===== verification/Cli.v ===== *)
(** * The command line client: [apps/yori/main.cpp]

    [yori]: the parsing of its arguments, the requests it builds, what it
    prints and the status it exits with.  The connection is the [ClientIo] of
    [Client.v]; the process's environment and working directory, the file system
    and the time zone are arguments.  A command whose connection still waits is
    [None].

    The output of [printf] is the string it prints: a [%s] argument up to its
    first NUL ([c_string]), [%-10s] padded on the right ([pad]). *)

From stdpp Require Import pretty.
From S2P Require Import Prelude.
From S2P Require Import Job.
From S2P Require Import Gpu.
From S2P Require Import Store.
From S2P Require Import Queue.
From S2P Require Import Scheduler.
From S2P Require Import Supervisor.
From S2P Require Import Wire.
From S2P Require Import Request.
From S2P Require Import Response.
From S2P Require Import Service.
From S2P Require Import Server.
From S2P Require Import Launch.
From S2P Require Import Client.
#[local] Open Scope N_scope.

Definition kDefaultSocketPath : string := "/run/yori/yori.sock".
Definition kDefaultLogBytes : N := 65536.

Definition kExitOk : N := 0.
Definition kExitRequestFailed : N := 1.
Definition kExitUsage : N := 2.
Definition kExitTransport : N := 3.
Definition kExitBackpressure : N := 4.

(** ** Text *)

Definition nl : string := String "010" "".

Fixpoint spaces (n : nat) : string :=
  match n with O => EmptyString | S n => String " " (spaces n) end.

(** [%-<width>s] *)
Definition pad (width : N) (s : string) : string := s +:+ spaces (N.to_nat (width - slen s)).

Fixpoint join (separator : string) (l : list string) : string :=
  match l with
  | [] => EmptyString
  | [s] => s
  | s :: l => s +:+ separator +:+ join separator l
  end.

(** [job_state_name] *)
Definition job_state_name (state : N) : string :=
  if state =? job_state_wire kQueued then "QUEUED"
  else if state =? job_state_wire kStarting then "STARTING"
  else if state =? job_state_wire kRunning then "RUNNING"
  else if state =? job_state_wire kStopping then "STOPPING"
  else if state =? job_state_wire kFinished then "FINISHED"
  else if state =? job_state_wire kFailed then "FAILED"
  else if state =? job_state_wire kCancelled then "CANCELLED"
  else if state =? job_state_wire kLost then "LOST"
  else "UNKNOWN".

(** [gpu_logical_name] *)
Definition gpu_logical_name (state : N) : string :=
  if state =? gpu_logical_wire GL_kFree then "FREE"
  else if state =? gpu_logical_wire GL_kAllocated then "ALLOCATED"
  else if state =? gpu_logical_wire GL_kExternalBusy then "EXTERNAL_BUSY"
  else if state =? gpu_logical_wire GL_kUnavailable then "UNAVAILABLE"
  else "UNKNOWN".

(** [gpu_observed_name] *)
Definition gpu_observed_name (state : N) : string :=
  if state =? gpu_observed_wire GO_kFree then "FREE"
  else if state =? gpu_observed_wire GO_kExternalBusy then "EXTERNAL_BUSY"
  else if state =? gpu_observed_wire GO_kUnavailable then "UNAVAILABLE"
  else "UNKNOWN".

(** [wait_reason_name] *)
Definition wait_reason_name (reason : N) : string :=
  if reason =? 0 then IpcWaitReason_to_string IW_kNone
  else if reason =? 1 then IpcWaitReason_to_string IW_kNoFreeGpu
  else if reason =? 2 then IpcWaitReason_to_string IW_kAffinityGpuAllocated
  else if reason =? 3 then IpcWaitReason_to_string IW_kAffinityGpuExternal
  else if reason =? 4 then IpcWaitReason_to_string IW_kAffinityGpuState
  else "UNKNOWN".

(** [environment_source_name] *)
Definition environment_source_name (source : N) : string :=
  if source =? env_source_wire ES_kNone then "none"
  else if source =? env_source_wire ES_kConda then "conda"
  else if source =? env_source_wire ES_kVenv then "venv"
  else "unknown".

(** [print_usage] *)
Definition usage_text : string :=
  "usage: yori [--socket PATH] <command> [args]" +:+ nl +:+
  "commands:" +:+ nl +:+
  "  submit [--gpus N] [--gpu INDEX-or-UUID] [--tensorboard-logdir DIR]" +:+ nl +:+
  "         [--gpu-any-of LIST] [--gpu-preferred DEV] [--cwd DIR]" +:+ nl +:+
  "         [--env K=V]... [--inherit-env] [--capture-env KEY]... -- CMD [ARG]..." +:+ nl +:+
  "         (captures the current execution context per DEC-011:" +:+ nl +:+
  "          whitelist env, resolves CMD via the captured PATH)" +:+ nl +:+
  "         (--gpu N pins the job to one GPU per DEC-012: hard" +:+ nl +:+
  "          affinity; --gpu-any-of takes a comma-separated list of" +:+ nl +:+
  "          up to 8 indexes/UUIDs per DEC-014 (GPU Set); " +:+ nl +:+
  "          --gpu-preferred prefers one device with fallback;" +:+ nl +:+
  "          placement flags are mutually exclusive with --gpus)" +:+ nl +:+
  "  ps                          list jobs (own jobs in full, others masked)" +:+ nl +:+
  "  queue                       list queued jobs in FIFO order" +:+ nl +:+
  "  gpu                         list GPUs with logical state" +:+ nl +:+
  "  cancel <job-id>             cancel a queued job" +:+ nl +:+
  "  logs [--bytes N] <job-id>   print current log tail" +:+ nl +:+
  "  logs -f [--since-stdout N] [--since-stderr N] <job-id>" +:+ nl +:+
  "                              follow logs (GAP/EOF/BACKPRESSURE aware)" +:+ nl +:+
  "  inspect <job-id>            show execution context and provenance" +:+ nl +:+
  "                              (owner/admin; sensitive env masked)" +:+ nl +:+
  "  tensorboard [--logdir DIR] [--port N] [--host H] <job-id>" +:+ nl +:+
  "                              run TensorBoard for a job in this session" +:+ nl +:+
  "options:" +:+ nl +:+
  "  --socket PATH               daemon endpoint (default " +:+ kDefaultSocketPath +:+ " or $YORI_SOCKET)" +:+ nl.

(** ** Numbers *)

Fixpoint skip_digits (s : string) : string :=
  match s with
  | String c rest => if is_decimal c then skip_digits rest else s
  | EmptyString => EmptyString
  end.

Definition skip_sign (s : string) : string :=
  match s with
  | String c rest => if Ascii.eqb c "-" || Ascii.eqb c "+" then rest else s
  | EmptyString => EmptyString
  end.

(** [parse_u64], and the checks on [strtoul] where [unsigned long] has 64 bits:
    no conversion, [ERANGE] and anything behind the digits are refused; a
    minus sign negates modulo [2^64]. *)
Definition parse_u64 (text : string) : option N :=
  let s := c_string text in
  match scan_ull s with
  | Some (v, false) => if sempty (skip_digits (skip_sign (skip_space s))) then Some v else None
  | _ => None
  end.

(** ** [CommandLine] *)

(** [take_flag]: the first occurrence of [name] that has a successor *)
Fixpoint take_flag (name : string) (arguments : list string) : option (string * list string) :=
  match arguments with
  | a :: ((b :: rest) as tail) =>
      if String.eqb a name then Some (b, rest)
      else match take_flag name tail with
           | Some (value, others) => Some (value, a :: others)
           | None => None
           end
  | _ => None
  end.

(** [while (parser.take_flag(name, value))]: the values in order *)
Fixpoint take_flags_fuel (fuel : nat) (name : string) (arguments : list string) : list string * list string :=
  match fuel with
  | O => ([], arguments)
  | S fuel =>
      match take_flag name arguments with
      | None => ([], arguments)
      | Some (value, others) => let '(values, others) := take_flags_fuel fuel name others in (value :: values, others)
      end
  end.

Definition take_flags (name : string) (arguments : list string) : list string * list string :=
  take_flags_fuel (length arguments) name arguments.

(** [take_bool_flag] *)
Fixpoint take_bool_flag (name : string) (arguments : list string) : bool * list string :=
  match arguments with
  | [] => (false, [])
  | a :: rest =>
      if String.eqb a name then (true, rest)
      else let '(found, others) := take_bool_flag name rest in (found, a :: others)
  end.

(** The text before and after the first [=], the first not empty *)
Fixpoint split_at (c : ascii) (s : string) : option (string * string) :=
  match s with
  | EmptyString => None
  | String a s =>
      if Ascii.eqb a c then Some (EmptyString, s)
      else match split_at c s with Some (before, after) => Some (String a before, after) | None => None end
  end.

Definition split_assignment (s : string) : option (string * string) :=
  match split_at "=" s with
  | Some (name, value) => if sempty name then None else Some (name, value)
  | None => None
  end.

(** ** Outcomes *)

(** What a run of [yori] has done when it exits: its status, what it printed,
    the requests it sent, and the arguments of the programs it started *)
Record Outcome := mkOutcome {
  oc_code : N;
  oc_out : string;
  oc_err : string;
  oc_requests : list IpcRequest;
  oc_started : list (list string);
}.

Definition usage_error (message : string) : Outcome := mkOutcome kExitUsage "" ("yori: " +:+ message +:+ nl) [] [].

(** [": "] before a detail that is not empty *)
Definition with_detail (detail : string) : string := (if sempty detail then "" else ": ") +:+ c_string detail.

(** [fail_request], and what it prints *)
Definition failed_message (command : string) (response : IpcResponse) : string :=
  "yori: " +:+ command +:+ " failed: " +:+ IpcError_to_string (rs_error response) +:+ with_detail (rs_detail response) +:+ nl.

(** [IpcRequest] with its kind set *)
Definition new_request (kind : IpcRequestKind) : IpcRequest := blank_request kind kProtocolVersion.

(** *** Arguments of [submit] *)

Record SubmitOptions := mkSubmitOptions {
  op_gpu_spec : option string;
  op_gpu_preferred_spec : option string;
  op_tensorboard_logdir : option string;
  op_cwd : string;
  op_capture : list string;
  op_inherit : bool;
  op_env : gmap string string;
  op_argv : list string;
}.

(** [strtoul] and the cast to [std::uint32_t] *)
Definition parse_gpus (text : string) : option N := (fun v => v mod 4294967296) <$> parse_u64 text.

(** All of the values, or [None] at the first that does not parse *)
Definition parse_all (parse : string -> option N) (values : list string) : option (list N) := mapM parse values.

(** An entry of [--gpu]: an index or something like a UUID *)
Definition spec_entry_ok (entry : string) : bool :=
  (negb (sempty entry) && all_decimal entry)
  || (negb (sempty entry) && (slen entry <=? GpuUuid_kMaxBytes) && negb (contains_nul entry)).

(** The checks on [--gpu] and [--gpu-any-of] *)
Definition check_gpu_spec (spec : string) : Result Outcome unit :=
  let entries := split_on "," spec in
  reject_if kMaxPlacementDevices <? len entries
    with usage_error ("--gpu/--gpu-any-of accepts at most " +:+ pretty kMaxPlacementDevices +:+ " devices");
  reject_if negb (forallb spec_entry_ok entries)
    with usage_error "--gpu/--gpu-any-of expects GPU indexes or UUIDs";
  Ok tt.

(** [--env]: later assignments replace earlier ones *)
Fixpoint assign_all (env : gmap string string) (values : list string) : Result Outcome (gmap string string) :=
  match values with
  | [] => Ok env
  | value :: values =>
      match split_assignment value with
      | None => Err (usage_error "--env expects K=V")
      | Some (name, text) => assign_all (<[name := text]> env) values
      end
  end.

(** The placement options of [command_submit], from the values given *)
Definition check_placement_options (gpus pinned any_of preferred : list string)
  : Result Outcome (option string * option string) :=
  match parse_all parse_gpus gpus with
  | None => Err (usage_error "--gpus expects a number")
  | Some counts =>
      reject_if negb (default 1 (last counts) =? 1) with usage_error "only 1 GPU per job is supported in MVP";
      let gpu_spec :=
        fold_left (fun spec value => Some (match spec with Some spec => spec +:+ "," +:+ value | None => value end))
          any_of (last pinned) in
      let gpu_preferred_spec := last preferred in
      reject_if is_present gpu_spec && is_present gpu_preferred_spec
        with usage_error "--gpu/--gpu-any-of and --gpu-preferred are mutually exclusive";
      let? _ := match gpu_spec with
                | None => Ok tt
                | Some spec =>
                    reject_if negb (bool_decide (gpus = [])) with usage_error "--gpu and --gpus are mutually exclusive";
                    check_gpu_spec spec
                end in
      let? _ := match gpu_preferred_spec with
                | None => Ok tt
                | Some spec =>
                    reject_if negb (bool_decide (gpus = []))
                      with usage_error "--gpu-preferred and --gpus are mutually exclusive";
                    reject_if negb (spec_entry_ok spec) with usage_error "--gpu-preferred expects a GPU index or UUID";
                    Ok tt
                end in
      Ok (gpu_spec, gpu_preferred_spec)
  end.

(** [command_submit] up to the command after [--] *)
Definition parse_submit (arguments : list string) : Result Outcome SubmitOptions :=
  let '(gpus, arguments) := take_flags "--gpus" arguments in
  let '(pinned, arguments) := take_flags "--gpu" arguments in
  let '(any_of, arguments) := take_flags "--gpu-any-of" arguments in
  let '(preferred, arguments) := take_flags "--gpu-preferred" arguments in
  let? placement := check_placement_options gpus pinned any_of preferred in
  let '(logdirs, arguments) := take_flags "--tensorboard-logdir" arguments in
  let '(cwds, arguments) := take_flags "--cwd" arguments in
  let '(capture, arguments) := take_flags "--capture-env" arguments in
  let '(inherit, arguments) := take_bool_flag "--inherit-env" arguments in
  let '(assignments, arguments) := take_flags "--env" arguments in
  let? env := assign_all ∅ assignments in
  match arguments with
  | [] => Err (usage_error "submit requires '--' before the command")
  | first :: command =>
      reject_if negb (String.eqb first "--") with usage_error "submit requires '--' before the command";
      reject_if bool_decide (command = []) with usage_error "submit requires a command after '--'";
      Ok (mkSubmitOptions placement.1 placement.2 (last logdirs) (default "" (last cwds)) capture inherit env command)
  end.

Section session.

(** The process: its connection, environment, working directory, the access
    checks of the file system, the answers to the interpreter probe, the local
    time of a second, the build's version *)
Variable io : ClientIo.
Variable environ : list string.
Variable getcwd : option string.
Variable access : string -> option Z.
Variables (probe_started : bool) (probe_reads : list PipeAnswer) (probe_waits : list WaitAnswer).
Variable local_time : N -> option string.
Variable version : string.

(** [call_daemon]: the status, the response, and what it prints *)
Definition call_daemon (socket_path : string) (request : IpcRequest) : Pending (N * IpcResponse * string) :=
  match (call socket_path request io).1 with
  | None => None
  | Some result =>
      if negb (bool_decide (cr_error result = CL_kNone))
      then Some (kExitTransport, default_response,
                 "yori: cannot reach daemon at " +:+ c_string socket_path +:+ ": " +:+
                 IpcClientError_to_string (cr_error result) +:+ nl)
      else if negb (bool_decide (rs_error (cr_response result) = IE_kNone))
      then Some (kExitRequestFailed, cr_response result, "")
      else Some (kExitOk, cr_response result, "")
  end.

(** The frame of a command: its request, and what it prints of the response *)
Definition request_command (name : string) (socket_path : string) (request : IpcRequest)
    (render : IpcResponse -> string * string) : Pending Outcome :=
  match call_daemon socket_path request with
  | None => None
  | Some (status, response, message) =>
      if negb (status =? kExitOk) then
        if status =? kExitRequestFailed
        then Some (mkOutcome kExitRequestFailed "" (failed_message name response) [request] [])
        else Some (mkOutcome status "" message [request] [])
      else let '(out, err) := render response in Some (mkOutcome kExitOk out err [request] [])
  end.

(** *** [submit] *)

(** The execution context: the environment of the process without malformed
    entries *)
Definition environment_entries : list EnvironmentEntry := omap split_assignment environ.

(** [command_submit] from the command on: the request *)
Definition build_submit (o : SubmitOptions) : Result Outcome IpcSubmitRequest :=
  let? cwd := (if sempty (op_cwd o)
               then match getcwd with
                    | None => Err (usage_error "cannot determine working directory")
                    | Some cwd => Ok cwd
                    end
               else Ok (op_cwd o)) in
  let? _ := match find_first (fun e => is_reserved_environment_key e.1) (map_entries (op_env o)) with
            | Some (name, _) => Err (usage_error ("--env may not set reserved key " +:+ c_string name))
            | None => Ok tt
            end in
  let captured := capture_environment environment_entries (mkCapturePolicy (op_capture o) (op_inherit o)) in
  reject_if match cr_code captured with CE_kNone => false | _ => true end
    with usage_error ("captured environment rejected: " +:+ EnvironmentCaptureErrorCode_to_string (cr_code captured)
      +:+ " (" +:+ c_string (cr_offending_name captured) +:+ ")" +:+
      (if op_inherit o then "; --inherit-env collects the full environment, unset what is not needed" else ""));
  let env := op_env o ∪ cr_env captured in
  let resolved := resolve_executable access (default "" (head (op_argv o))) cwd env in
  reject_if match er_code resolved with XE_kNone => false | _ => true end
    with usage_error ("cannot resolve command '" +:+ c_string (default "" (head (op_argv o))) +:+ "': " +:+
      ExecutableResolveErrorCode_to_string (er_code resolved) +:+ with_detail (er_message resolved));
  let metadata := mkIpcEnvMetadata (env_source_wire (detect_environment_source env))
                    (probe_python_version probe_started probe_reads probe_waits (er_executable resolved)).1 in
  Ok (mkIpcSubmit (op_argv o) cwd env 1 None (op_tensorboard_logdir o) (Some (er_executable resolved)) (Some metadata)
        (op_gpu_spec o) (op_gpu_preferred_spec o)).

(** [command_submit] *)
Definition command_submit (socket_path : string) (arguments : list string) : Pending Outcome :=
  match (let? o := parse_submit arguments in build_submit o) with
  | Err outcome => Some outcome
  | Ok submit =>
      let request := new_request RK_kSubmit in
      request_command "submit" socket_path {| request with rq_submit := submit |}
        (fun response => ("Submitted job " +:+ pretty (rs_job_id response) +:+ nl, ""))
  end.

(** *** [ps], [queue], [gpu] *)

(** [wait_column] *)
Definition wait_column (state wait_reason : N) (detail : option string) : string :=
  if negb (state =? job_state_wire kQueued) || (wait_reason =? 0) then "-"
  else wait_reason_name wait_reason +:+ match detail with Some detail => " (" +:+ detail +:+ ")" | None => "" end.

(** [print_job_row] *)
Definition print_job_row (job_id : N) (state : string) (owner : N) (wait command : string) : string :=
  pad 10 (pretty job_id) +:+ " " +:+ pad 10 state +:+ " " +:+ pad 8 (pretty owner) +:+ " " +:+
  pad 24 (c_string wait) +:+ " " +:+ c_string command +:+ nl.

(** [if (response.error == kLimit)] *)
Definition limit_note (response : IpcResponse) : string :=
  if bool_decide (rs_error response = IE_kLimit) then "yori: " +:+ c_string (rs_detail response) +:+ nl else "".

Definition ps_row (summary : IpcJobSummary) : string :=
  print_job_row (js_job_id summary) (job_state_name (js_state summary)) (js_owner_uid summary)
    (wait_column (js_state summary) (js_wait_reason summary) (js_wait_detail summary))
    (if js_masked summary then "(masked)" else join " " (js_argv summary)).

(** [command_ps] *)
Definition command_ps (socket_path : string) : Pending Outcome :=
  request_command "ps" socket_path (new_request RK_kPs)
    (fun response =>
       (pad 10 "JOB" +:+ " " +:+ pad 10 "STATE" +:+ " " +:+ pad 8 "OWNER" +:+ " " +:+ pad 24 "WAIT" +:+ " COMMAND" +:+ nl +:+
        join "" (ps_row <$> rs_jobs response), limit_note response)).

Definition queue_row (position : N) (entry : IpcQueueEntry) : string :=
  pad 8 (pretty position) +:+ " " +:+ pad 10 (pretty (iq_job_id entry)) +:+ " " +:+ pad 8 (pretty (iq_owner_uid entry)) +:+ " " +:+
  pad 20 (default "" (local_time (iq_submit_time_unix_ns entry / 1000000000))) +:+ " " +:+
  pad 10 (job_state_name (iq_state entry)) +:+ " " +:+
  c_string (wait_column (iq_state entry) (iq_wait_reason entry) (iq_wait_detail entry)) +:+ nl.

(** [command_queue] *)
Definition command_queue (socket_path : string) : Pending Outcome :=
  request_command "queue" socket_path (new_request RK_kQueue)
    (fun response =>
       (pad 8 "POSITION" +:+ " " +:+ pad 10 "JOB" +:+ " " +:+ pad 8 "OWNER" +:+ " " +:+ pad 20 "SUBMITTED" +:+ " " +:+
        pad 10 "STATE" +:+ " WAIT" +:+ nl +:+
        join "" (imap (fun i => queue_row (N.of_nat i + 1)) (rs_queue response)), limit_note response)).

(** [snprintf(util, ...)], [snprintf(memory, ...)] and [snprintf(lease, ...)] into
    16, 64 and 24 bytes with the terminating NUL; only the last can be too
    small. *)
Definition gpu_util (device : IpcGpuDevice) : string :=
  match ig_utilization_percent device with Some percent => pretty percent | None => "-" end.
Definition gpu_memory (device : IpcGpuDevice) : string :=
  match ig_memory_used_bytes device, ig_memory_total_bytes device with
  | Some used, Some total => pretty (N.shiftr used 20) +:+ "/" +:+ pretty (N.shiftr total 20) +:+ " MiB"
  | _, _ => "-"
  end.
Definition gpu_lease (device : IpcGpuDevice) : string :=
  match ig_leased_by_job device with Some job => String.substring 0 23 ("job " +:+ pretty job) | None => "-" end.

Definition gpu_row (device : IpcGpuDevice) : string :=
  pad 6 (pretty (ig_index device)) +:+ " " +:+ pad 10 (c_string (ig_uuid device)) +:+ " " +:+
  pad 14 (gpu_logical_name (ig_logical_state device)) +:+ " " +:+ pad 14 (gpu_observed_name (ig_observed_state device)) +:+ " " +:+
  pad 7 (gpu_util device) +:+ " " +:+ pad 16 (gpu_memory device) +:+ " " +:+ gpu_lease device +:+ nl.

(** [command_gpu] *)
Definition command_gpu (socket_path : string) : Pending Outcome :=
  request_command "gpu" socket_path (new_request RK_kGpu)
    (fun response =>
       (pad 6 "INDEX" +:+ " " +:+ pad 10 "UUID" +:+ " " +:+ pad 14 "LOGICAL" +:+ " " +:+ pad 14 "OBSERVED" +:+ " " +:+
        pad 7 "UTIL%" +:+ " " +:+ pad 16 "MEMORY" +:+ " LEASE" +:+ nl +:+
        join "" (gpu_row <$> rs_devices response), "")).

(** *** [cancel] *)

(** A job id: [parse_u64], not zero *)
Definition parse_job_id (text : string) : option N :=
  match parse_u64 text with Some id => if id =? 0 then None else Some id | None => None end.

(** [command_cancel] *)
Definition command_cancel (socket_path job_text : string) : Pending Outcome :=
  match parse_job_id job_text with
  | None => Some (usage_error "cancel expects a numeric job id")
  | Some job_id =>
      let request := new_request RK_kCancel in
      let request := {| request with rq_cancel := job_id |} in
      match call_daemon socket_path request with
      | None => None
      | Some (status, response, message) =>
          if status =? kExitOk
          then Some (mkOutcome kExitOk ("Cancelled job " +:+ pretty job_id +:+ nl) "" [request] [])
          else if status =? kExitRequestFailed
          then if bool_decide (rs_error response = IE_kInvalidState) && (rs_state response =? job_state_wire kCancelled)
               then Some (mkOutcome kExitOk ("Job " +:+ pretty job_id +:+ " already cancelled" +:+ nl) "" [request] [])
               else Some (mkOutcome kExitRequestFailed "" (failed_message "cancel" response) [request] [])
          else Some (mkOutcome status "" message [request] [])
      end
  end.

(** *** [logs] *)

(** [FollowPrinter]; [eof_state_] is [-1] until the end *)
Record FollowPrinter := mkPrinter {
  fp_out : string;
  fp_err : string;
  fp_backpressure : bool;
  fp_eof_state : Z;
}.

Definition new_printer : FollowPrinter := mkPrinter "" "" false (-1).

Definition stream_name (stream : N) : string := if stream =? 0 then "stdout" else "stderr".

(** [FollowPrinter::on_frame] *)
Definition print_frame (frame : IpcStreamFrame) (p : FollowPrinter) : bool * FollowPrinter :=
  match sf_kind frame with
  | SK_kLogData =>
      (true, if sf_stream frame =? 0
             then {| p with fp_out := fp_out p +:+ String.string_of_list_ascii (sf_data frame) |}
             else {| p with fp_err := fp_err p +:+ String.string_of_list_ascii (sf_data frame) |})
  | SK_kLogGap =>
      (true, {| p with fp_err := fp_err p +:+ "yori: log gap: bytes [" +:+ pretty (sf_begin_offset frame) +:+ ", " +:+
                pretty (sf_end_offset frame) +:+ ") on " +:+ stream_name (sf_stream frame) +:+ " not retained; resumed" +:+ nl |})
  | SK_kLogBackpressure =>
      (true, {| p with fp_err := fp_err p +:+ "yori: following too far behind on " +:+ stream_name (sf_stream frame) +:+
                  " at offset " +:+ pretty (sf_begin_offset frame) +:+ "; disconnected" +:+ nl +:+
                  "yori: reconnect with: yori logs -f --since-" +:+ stream_name (sf_stream frame) +:+ " " +:+
                  pretty (sf_begin_offset frame) +:+ nl;
                fp_backpressure := true |})
  | SK_kLogEof => (true, {| p with fp_eof_state := Z.of_N (sf_job_state frame) |})
  end.

(** [command_logs_follow], from the end of [follow] on *)
Definition follow_outcome (request : IpcRequest) (result : IpcFollowResult) (p : FollowPrinter) : Outcome :=
  let finish code message := mkOutcome code (fp_out p) (fp_err p +:+ message) [request] [] in
  if negb (bool_decide (fw_error result = CL_kNone))
  then finish kExitTransport ("yori: logs -f transport failed: " +:+ IpcClientError_to_string (fw_error result) +:+ nl)
  else if negb (bool_decide (rs_error (fw_ack result) = IE_kNone))
  then finish kExitRequestFailed (failed_message "logs -f" (fw_ack result))
  else if fp_backpressure p then finish kExitBackpressure ""
  else if (0 <=? fp_eof_state p)%Z then
    if (fp_eof_state p =? Z.of_N (job_state_wire kFinished))%Z then finish kExitOk ""
    else finish kExitRequestFailed ("yori: job ended in state " +:+ job_state_name (Z.to_N (fp_eof_state p)) +:+ nl)
  else finish kExitOk "".

(** [command_logs_follow] *)
Definition command_logs_follow (socket_path : string) (job_id : N) (since_stdout since_stderr : option N) : Pending Outcome :=
  let request := new_request RK_kLogsFollow in
  let request := {| request with rq_logs_follow := mkIpcFollow job_id since_stdout since_stderr |} in
  match follow print_frame socket_path request io new_printer with
  | (None, _) => None
  | (Some result, p) => Some (follow_outcome request result p)
  end.

(** [--bytes] *)
Definition parse_bytes (text : string) : option N :=
  match parse_u64 text with
  | Some v => if v =? 0 then None else Some (N.min v 4294967295)
  | None => None
  end.

(** The arguments of [logs]: the limit, the offsets, whether to follow, the job *)
Definition parse_logs (arguments : list string) : Result Outcome (N * option N * option N * bool * N) :=
  let '(bytes, arguments) := take_flags "--bytes" arguments in
  match parse_all parse_bytes bytes with
  | None => Err (usage_error "--bytes expects a positive number")
  | Some limits =>
      let '(both, arguments) := take_flags "--since-offset" arguments in
      match parse_all parse_u64 both with
      | None => Err (usage_error "--since-offset expects a non-negative number")
      | Some both =>
          let '(out, arguments) := take_flags "--since-stdout" arguments in
          match parse_all parse_u64 out with
          | None => Err (usage_error "--since-stdout expects a non-negative number")
          | Some out =>
              let '(err, arguments) := take_flags "--since-stderr" arguments in
              match parse_all parse_u64 err with
              | None => Err (usage_error "--since-stderr expects a non-negative number")
              | Some err =>
                  let since values := match last values with Some v => Some v | None => last both end in
                  let '(follow, rest) :=
                    match arguments with
                    | first :: rest =>
                        if String.eqb first "-f" || String.eqb first "--follow" then (true, rest) else (false, arguments)
                    | [] => (false, [])
                    end in
                  match rest with
                  | [] => Err (usage_error "logs requires a job id")
                  | job_text :: _ =>
                      match parse_job_id job_text with
                      | None => Err (usage_error "logs expects a numeric job id")
                      | Some job_id => Ok (default kDefaultLogBytes (last limits), since out, since err, follow, job_id)
                      end
                  end
              end
          end
      end
  end.

(** [command_logs] *)
Definition command_logs (socket_path : string) (arguments : list string) : Pending Outcome :=
  match parse_logs arguments with
  | Err outcome => Some outcome
  | Ok (max_bytes, since_stdout, since_stderr, follow, job_id) =>
      if follow : bool then command_logs_follow socket_path job_id since_stdout since_stderr
      else
        let request := new_request RK_kLogs in
        request_command "logs" socket_path {| request with rq_logs := mkIpcLogs job_id max_bytes |}
          (fun response =>
             let logs := rs_logs response in
             (String.string_of_list_ascii (lp_stdout_tail logs),
              (if lp_stdout_truncated logs then "yori: stdout tail truncated" +:+ nl else "") +:+
              (if lp_stderr_truncated logs then "yori: stderr tail truncated" +:+ nl else "") +:+
              String.string_of_list_ascii (lp_stderr_tail logs)))
  end.

(** *** [inspect] *)

Definition placement_text (i : IpcInspectPayload) : string :=
  if ip_gpu_placement_mode i =? placement_mode_wire GPM_kRequired then
    let devices := join "|" (ip_gpu_placement_devices i) in
    let devices := if sempty devices then default devices (ip_gpu_placement_device i) else devices in
    "placement:   required " +:+ c_string devices +:+ nl
  else if ip_gpu_placement_mode i =? placement_mode_wire GPM_kPreferred then
    "placement:   preferred " +:+ match ip_gpu_placement_device i with Some d => c_string d | None => "(missing)" end +:+ nl
  else "placement:   any" +:+ nl.

Definition environment_text (i : IpcInspectPayload) : string :=
  match ip_env_metadata i with
  | None => ""
  | Some metadata =>
      "environment: " +:+ environment_source_name (iem_source metadata) +:+
      match iem_python_version metadata with Some v => " (python " +:+ c_string v +:+ ")" | None => "" end +:+ nl
  end.

Definition assigned_text (i : IpcInspectPayload) : string :=
  match ip_gpu_uuid i with
  | None => "assigned:    (not scheduled yet)" +:+ nl
  | Some uuid =>
      "assigned:    " +:+ c_string uuid +:+
      match ip_gpu_index i with Some index => " (index " +:+ pretty index +:+ ")" | None => "" end +:+ nl
  end.

Definition exit_text (i : IpcInspectPayload) : string :=
  match ip_exit i with
  | None => ""
  | Some status =>
      "exit:        " +:+ (if ie_exited_normally status then "exited" else "signaled") +:+ " (" +:+ pretty (ie_code status) +:+ ")" +:+ nl
  end.

(** What [command_inspect] prints of a payload *)
Definition inspect_text (i : IpcInspectPayload) : string :=
  "job:         " +:+ pretty (ip_job_id i) +:+ nl +:+
  "state:       " +:+ job_state_name (ip_state i) +:+ " (revision " +:+ pretty (ip_revision i) +:+ ")" +:+ nl +:+
  "owner uid:   " +:+ pretty (ip_owner_uid i) +:+ nl +:+
  "submitted:   " +:+ default "" (local_time (ip_submit_time_unix_ns i / 1000000000)) +:+ nl +:+
  "cwd:         " +:+ c_string (ip_cwd i) +:+ nl +:+
  "executable:  " +:+ match ip_executable i with Some e => c_string e | None => "(not captured)" end +:+ nl +:+
  "command:     " +:+ c_string (join " " (ip_argv i)) +:+ nl +:+
  placement_text i +:+ environment_text i +:+ assigned_text i +:+ exit_text i +:+
  match ip_log_path i with Some path => "logs:        " +:+ c_string path +:+ nl | None => "" end +:+
  "environment (" +:+ pretty (len (ip_env i)) +:+ " variables; sensitive values masked by daemon):" +:+ nl +:+
  join "" ((fun e => "  " +:+ c_string (ee_name e) +:+ "=" +:+ c_string (ee_value e) +:+ nl) <$> ip_env i).

(** [command_inspect] *)
Definition command_inspect (socket_path job_text : string) : Pending Outcome :=
  match parse_job_id job_text with
  | None => Some (usage_error "inspect expects a numeric job id")
  | Some job_id =>
      let request := new_request RK_kInspect in
      request_command "inspect" socket_path {| request with rq_inspect := job_id |}
        (fun response => (inspect_text (rs_inspect_payload response), ""))
  end.

(** *** [tensorboard] *)

(** [resolve_logdir] *)
Definition resolve_logdir (candidate job_cwd : string) : string :=
  if negb (sempty candidate) && front_is "/" candidate then candidate
  else if sempty job_cwd then candidate
  else if back_is "/" job_cwd then job_cwd +:+ candidate
  else job_cwd +:+ "/" +:+ candidate.

(** The program started: whether [fork(2)] failed, the answers of
    [waitpid(2)], and the messages of [strerror] *)
Variables (fork_errno : option Z) (waits : list WaitAnswer) (strerror : Z -> string).

(** The wait loop, and the status it ends with *)
Fixpoint wait_child (waits : list WaitAnswer) : Pending (N * string) :=
  match waits with
  | [] => None
  | WaitNone :: waits => wait_child waits
  | WaitFailed errno :: waits =>
      if negb (errno =? Launch.EINTR)%Z
      then Some (kExitRequestFailed, "yori: tensorboard: wait failed: " +:+ strerror errno +:+ nl)
      else wait_child waits
  | WaitReaped raw :: _ =>
      if WIFEXITED raw then Some (if (WEXITSTATUS raw =? 0)%Z then kExitOk else kExitRequestFailed, "")
      else if WIFSIGNALED raw
      then Some (kExitRequestFailed, "yori: tensorboard terminated by signal " +:+ pretty (WTERMSIG raw) +:+ nl)
      else Some (kExitRequestFailed, "")
  end.

(** The arguments of [tensorboard]: the directory, the port, the host, the job *)
Definition parse_tensorboard (arguments : list string) : Result Outcome (option string * N * string * N) :=
  let '(logdirs, arguments) := take_flags "--logdir" arguments in
  let '(ports, arguments) := take_flags "--port" arguments in
  match parse_all (fun text => match parse_u64 text with
                               | Some v => if 65535 <? v then None else Some v
                               | None => None
                               end) ports with
  | None => Err (usage_error "--port expects a port number")
  | Some ports =>
      let '(hosts, arguments) := take_flags "--host" arguments in
      let host := default "127.0.0.1" (last hosts) in
      reject_if sempty host with usage_error "--host must not be empty";
      match arguments with
      | [job_text] =>
          match parse_job_id job_text with
          | None => Err (usage_error "tensorboard expects a numeric job id")
          | Some job_id => Ok (last logdirs, default 0 (last ports), host, job_id)
          end
      | _ => Err (usage_error "tensorboard requires exactly one job id")
      end
  end.

(** The directory: the argument, the job's own, or its working directory *)
Definition tensorboard_dir (argument : option string) (payload : IpcTensorboardPayload) : string :=
  match argument with
  | Some dir => resolve_logdir dir (tp_cwd payload)
  | None =>
      match tp_logdir payload with
      | Some dir => resolve_logdir dir (tp_cwd payload)
      | None => tp_cwd payload
      end
  end.

(** [command_tensorboard] *)
Definition command_tensorboard (socket_path : string) (arguments : list string) : Pending Outcome :=
  match parse_tensorboard arguments with
  | Err outcome => Some outcome
  | Ok (logdir_argument, port, host, job_id) =>
      let request := new_request RK_kTensorboard in
      let request := {| request with rq_tensorboard := job_id |} in
      match call_daemon socket_path request with
      | None => None
      | Some (status, response, message) =>
          if negb (status =? kExitOk) then
            if status =? kExitRequestFailed
            then Some (mkOutcome kExitRequestFailed "" (failed_message "tensorboard" response) [request] [])
            else Some (mkOutcome status "" message [request] [])
          else
            let logdir := tensorboard_dir logdir_argument (rs_tensorboard response) in
            if sempty logdir
            then Some (mkOutcome kExitRequestFailed "" ("yori: tensorboard: no logdir could be resolved" +:+ nl) [request] [])
            else
              match fork_errno with
              | Some errno =>
                  Some (mkOutcome kExitRequestFailed "" ("yori: tensorboard: fork failed: " +:+ strerror errno +:+ nl) [request] [])
              | None =>
                  let child := ["tensorboard"; "--logdir"; logdir; "--port"; pretty port; "--host"; host] in
                  let out := if negb (port =? 0)
                             then "TensorBoard running at http://" +:+ c_string host +:+ ":" +:+ pretty port +:+
                                  "/ (job " +:+ pretty job_id +:+ ")" +:+ nl
                             else "TensorBoard starting for job " +:+ pretty job_id +:+
                                  " (port auto-assigned; URL is printed by TensorBoard itself)" +:+ nl in
                  match wait_child waits with
                  | None => None
                  | Some (code, message) => Some (mkOutcome code out message [request] [child])
                  end
              end
      end
  end.

(** ** [main] *)

(** [getenv] *)
Definition getenv (name : string) : option string :=
  snd <$> find_first (fun e => String.eqb e.1 name) (omap (split_at "=") environ).

(** The options before the command: the endpoint, and the command with its
    arguments *)
Fixpoint take_socket (socket_path : string) (arguments : list string) : Result Outcome (string * list string) :=
  match arguments with
  | [] => Ok (socket_path, [])
  | first :: rest =>
      if String.eqb first "--socket" then
        match rest with
        | [] => Err (usage_error "--socket requires a path")
        | path :: rest => take_socket path rest
        end
      else Ok (socket_path, arguments)
  end.

Definition run_command (socket_path command : string) (arguments : list string) : Pending Outcome :=
  if String.eqb command "--help" || String.eqb command "-h" || String.eqb command "help"
  then Some (mkOutcome kExitOk "" usage_text [] [])
  else if String.eqb command "submit" then command_submit socket_path arguments
  else if String.eqb command "ps" then
    if negb (bool_decide (arguments = [])) then Some (usage_error "ps takes no arguments") else command_ps socket_path
  else if String.eqb command "queue" then
    if negb (bool_decide (arguments = [])) then Some (usage_error "queue takes no arguments") else command_queue socket_path
  else if String.eqb command "gpu" then
    if negb (bool_decide (arguments = [])) then Some (usage_error "gpu takes no arguments") else command_gpu socket_path
  else if String.eqb command "cancel" then
    match arguments with
    | [job_text] => command_cancel socket_path job_text
    | _ => Some (usage_error "cancel requires exactly one job id")
    end
  else if String.eqb command "logs" then command_logs socket_path arguments
  else if String.eqb command "inspect" then
    match arguments with
    | [job_text] => command_inspect socket_path job_text
    | _ => Some (usage_error "inspect requires exactly one job id")
    end
  else if String.eqb command "tensorboard" then command_tensorboard socket_path arguments
  else Some (mkOutcome kExitUsage "" ("yori: unknown command " +:+ c_string command +:+ nl +:+ usage_text) [] []).

(** [main], on the arguments after the program's name *)
Definition main (arguments : list string) : Pending Outcome :=
  if bool_decide (arguments = ["--version"]) then Some (mkOutcome kExitOk ("yori " +:+ version +:+ nl) "" [] [])
  else if bool_decide (arguments = []) then Some (mkOutcome kExitUsage "" usage_text [] [])
  else
    let socket_path := match getenv "YORI_SOCKET" with
                       | Some path => if sempty path then kDefaultSocketPath else path
                       | None => kDefaultSocketPath
                       end in
    match take_socket socket_path arguments with
    | Err outcome => Some outcome
    | Ok (socket_path, []) => Some (mkOutcome kExitUsage "" usage_text [] [])
    | Ok (socket_path, command :: arguments) => run_command socket_path command arguments
    end.

End session.
