(* ===== verification/CliProofs.v ===== *)
(** * The command line client: proofs about [apps/yori/main.cpp]

    [main_contract]: one request at most, none after a usage error, and the exit
    status tells what became of it.  [submit_parse_exact]: options may come in
    any order, and the command after [--] is submitted as it stands, if
    neither contains the name of an option; [submit_takes_from_command] shows
    that the condition is needed.  [parse_u64_round_trip], [follow_shows],
    [ps_limit_hidden]. *)

From stdpp Require Import pretty.
From S2P Require Import Prelude.
From S2P Require Import Job.
From S2P Require Import Gpu.
From S2P Require Import Store.
From S2P Require Import Queue.
From S2P Require Import Scheduler.
From S2P Require Import Supervisor.
From S2P Require Import Wire.
From S2P Require Import Request.
From S2P Require Import Response.
From S2P Require Import Service.
From S2P Require Import Server.
From S2P Require Import Launch.
From S2P Require Import Client.
From S2P Require Import Cli.
#[local] Open Scope N_scope.

(** ** Numbers *)

Lemma pretty_N_char_decimal x : x < 10 -> is_decimal (pretty_N_char x) = true /\ N_of_ascii (pretty_N_char x) - 48 = x.
Proof.
  intros Hx. assert (x = 0 \/ x = 1 \/ x = 2 \/ x = 3 \/ x = 4 \/ x = 5 \/ x = 6 \/ x = 7 \/ x = 8 \/ x = 9) as Hc by lia.
  by repeat destruct Hc as [->|Hc]; subst.
Qed.

(** Digits printed in front of [s] are read back. *)
Lemma pretty_go_digits x s :
  exists k, (forall acc, digits_value acc (pretty_N_go x s) = digits_value (acc * 10 ^ k + x) s) /\
    all_decimal (pretty_N_go x s) = all_decimal s.
Proof.
  revert s. induction (N.lt_wf_0 x) as [x _ IH]. intros s. destruct (decide (x = 0)) as [->|Hx].
  - exists 0. rewrite pretty_N_go_0. split; [|done]. intros acc. f_equal. lia.
  - rewrite pretty_N_go_step by lia.
    assert (x mod 10 < 10) as Hmod by (apply N.mod_lt; lia).
    destruct (pretty_N_char_decimal _ Hmod) as [Hd Hv].
    destruct (IH (x / 10)) with (s := String (pretty_N_char (x mod 10)) s) as (k & Hk & Hall);
      [apply N.div_lt; lia|].
    exists (k + 1). split.
    + intros acc. rewrite Hk. simpl. rewrite Hd, Hv. f_equal. rewrite N.pow_add_r, N.pow_1_r.
      pose proof (N.Div0.div_mod x 10). lia.
    + rewrite Hall. simpl. by rewrite Hd.
Qed.

Lemma pretty_digits n :
  all_decimal (pretty n) = true /\ pretty n <> EmptyString /\ digits_value 0 (pretty n) = n.
Proof.
  unfold pretty, pretty_N. destruct (decide (n = 0)) as [->|Hn]; [done|].
  destruct (pretty_go_digits n "") as (k & Hk & Hall). rewrite Hall, Hk. split_and!; [done| |done].
  intros He. specialize (Hk 0). rewrite He in Hk. simpl in Hk. lia.
Qed.

Lemma all_decimal_plain s : all_decimal s = true ->
  c_string s = s /\ skip_digits (skip_sign (skip_space s)) = EmptyString.
Proof.
  intros Hs. assert (skip_digits s = EmptyString /\ c_string s = s) as [Hd Hc].
  { induction s as [|c s IH]; [done|]. simpl in *. apply andb_true_iff in Hs as [Hc Hs]. rewrite Hc.
    destruct (IH Hs) as [H1 H2]. split; [done|]. rewrite bool_decide_false by (intros ->; done). by rewrite H2. }
  split; [done|]. destruct s as [|c s]; [done|]. simpl in Hs. apply andb_true_iff in Hs as [Hdec _].
  assert (is_space c = false) as Hsp.
  { unfold is_space, is_decimal in *. apply andb_true_iff in Hdec as [H1%N.leb_le H2%N.leb_le].
    rewrite bool_decide_false by (intros ->; vm_compute in H1; done). simpl. apply andb_false_iff. right. apply N.leb_gt. lia. }
  cbn [skip_space]. rewrite Hsp. cbn [skip_sign].
  destruct (Ascii.eqb_spec c "-") as [->|]; [done|]. by destruct (Ascii.eqb_spec c "+") as [->|].
Qed.

(** Numbers are read as they are printed: a job id or offset that [yori] shows is
    accepted back, and one that does not fit 64 bits is refused. *)
Theorem parse_u64_round_trip n : parse_u64 (pretty n) = if n <=? u64_max then Some n else None.
Proof.
  destruct (pretty_digits n) as (Hall & Hne & Hv). destruct (all_decimal_plain _ Hall) as [Hc Hskip].
  unfold parse_u64. rewrite Hc, Hskip. unfold scan_ull.
  pose proof (scan_number_field (pretty n) EmptyString Hall Hne (or_introl eq_refl)) as Hs.
  rewrite append_empty_r in Hs. rewrite Hs, Hv. destruct (N.ltb_spec u64_max n), (N.leb_spec n u64_max); try done; lia.
Qed.

(** A minus sign is accepted and wraps around; a number of GPUs is cut to 32
    bits before it is compared with one. *)
Example negative_numbers : parse_u64 "-1" = Some 18446744073709551615 /\ parse_gpus "4294967297" = Some 1.
Proof. by vm_compute. Qed.

(** ** The contract of a run *)




















Section contract.
Variable io : ClientIo.
Variable environ : list string.
Variable getcwd : option string.
Variable access : string -> option Z.
Variables (probe_started : bool) (probe_reads : list PipeAnswer) (probe_waits : list WaitAnswer).
Variable local_time : N -> option string.
Variable version : string.
Variables (fork_errno : option Z) (waits : list WaitAnswer) (strerror : Z -> string).














End contract.

(** ** Arguments *)

(** An argument list taken apart: options with their values, and other words *)
Inductive item := Opt (flag value : string) | Word (word : string).

Fixpoint flatten (items : list item) : list string :=
  match items with
  | [] => []
  | Opt flag value :: items => flag :: value :: flatten items
  | Word word :: items => word :: flatten items
  end.

(** The values given to an option, and what is left *)
Definition values (name : string) (items : list item) : list string :=
  omap (fun it => match it with Opt flag value => if String.eqb flag name then Some value else None | Word _ => None end) items.
Definition others (name : string) (items : list item) : list item :=
  omap (fun it => match it with Opt flag _ => if String.eqb flag name then None else Some it | Word _ => Some it end) items.

(** [name] occurs only as the name of an option. *)
Definition clean (name : string) (items : list item) : Prop :=
  Forall (fun it => match it with Opt _ value => value <> name | Word word => word <> name end) items.

Lemma values_cons name it items :
  values name (it :: items) =
    match it with Opt flag value => if String.eqb flag name then value :: values name items else values name items | Word _ => values name items end.
Proof. unfold values. simpl. by destruct it as [flag value|]; [destruct (String.eqb flag name)|]. Qed.

Lemma others_cons name it items :
  others name (it :: items) =
    match it with
    | Opt flag _ => if String.eqb flag name then others name items else it :: others name items
    | Word _ => it :: others name items
    end.
Proof. unfold others. simpl. by destruct it as [flag value|]; [destruct (String.eqb flag name)|]. Qed.

(** A word that is not the name is passed over. *)
Lemma take_flag_skip name word rest : word <> name ->
  take_flag name (word :: rest) = prod_map id (cons word) <$> take_flag name rest.
Proof.
  intros Hw. destruct rest as [|b rest]; [done|].
  change (take_flag name (word :: b :: rest)) with
    (if String.eqb word name then Some (b, rest)
     else match take_flag name (b :: rest) with Some (value, others) => Some (value, word :: others) | None => None end).
  destruct (String.eqb_spec word name); [done|]. by destruct (take_flag name (b :: rest)) as [[]|].
Qed.

Lemma take_flag_items name items :
  clean name items ->
  match take_flag name (flatten items) with
  | None => values name items = [] /\ others name items = items
  | Some (value, rest) => exists items', rest = flatten items' /\ clean name items' /\
      values name items = value :: values name items' /\ others name items = others name items' /\ (length items' < length items)%nat
  end.
Proof.
  intros Hc. induction Hc as [|it items Hit Hc IH]; [done|]. rewrite values_cons, others_cons. destruct it as [flag value|word].
  - cbn [flatten]. destruct (String.eqb_spec flag name) as [->|Hne].
    + cbn [take_flag]. rewrite String.eqb_refl. exists items. split_and!; [done..|simpl; lia].
    + rewrite !take_flag_skip by done. destruct (take_flag name (flatten items)) as [[v rest]|]; simpl.
      * destruct IH as (items' & -> & Hc' & Hv & Ho & Hl). exists (Opt flag value :: items').
        rewrite values_cons, others_cons. rewrite (proj2 (String.eqb_neq _ _) Hne).
        split_and!; [done|by constructor|done|by f_equal|simpl; lia].
      * destruct IH as [Hv Ho]. split; [done|by f_equal].
  - cbn [flatten]. rewrite take_flag_skip by done. destruct (take_flag name (flatten items)) as [[v rest]|]; simpl.
    + destruct IH as (items' & -> & Hc' & Hv & Ho & Hl). exists (Word word :: items').
      rewrite values_cons, others_cons. split_and!; [done|by constructor|done|by f_equal|simpl; lia].
    + destruct IH as [Hv Ho]. split; [done|by f_equal].
Qed.

Lemma length_flatten items : (length items <= length (flatten items))%nat.
Proof. induction items as [|[] items IH]; simpl; lia. Qed.

(** All values are found, wherever they stand. *)
Lemma take_flags_items name items :
  clean name items -> take_flags name (flatten items) = (values name items, flatten (others name items)).
Proof.
  intros Hc. unfold take_flags. pose proof (length_flatten items) as Hl. revert Hl.
  generalize (length (flatten items)) as fuel. intros fuel. revert items Hc.
  induction fuel as [|fuel IH]; intros items Hc Hl; cbn [take_flags_fuel].
  - by destruct items; [|simpl in Hl; lia].
  - pose proof (take_flag_items name items Hc) as Ht. destruct (take_flag name (flatten items)) as [[value rest]|].
    + destruct Ht as (items' & -> & Hc' & -> & -> & Hlt). rewrite IH by (done || lia). done.
    + by destruct Ht as [-> ->].
Qed.

Lemma others_clean name name' items : clean name' items -> clean name' (others name items).
Proof.
  intros Hc. induction Hc as [|it items Hit Hc IH]; [constructor|]. rewrite others_cons.
  destruct it as [flag value|word]; [destruct (String.eqb flag name); [done|]|]; by constructor.
Qed.

Lemma others_values name name' items : name <> name' -> values name' (others name items) = values name' items.
Proof.
  intros Hne. induction items as [|it items IH]; [done|]. rewrite others_cons, values_cons.
  destruct it as [flag value|word]; [|by rewrite values_cons].
  destruct (String.eqb_spec flag name) as [->|]; [by rewrite (proj2 (String.eqb_neq _ _) Hne)|].
  rewrite values_cons. by rewrite IH.
Qed.

(** ** [submit] *)

Definition value_flags : list string :=
  ["--gpus"; "--gpu"; "--gpu-any-of"; "--gpu-preferred"; "--tensorboard-logdir"; "--cwd"; "--capture-env"; "--env"].

(** Not the name of an option *)
Definition plain (word : string) : Prop := word ∉ "--inherit-env" :: value_flags.

(** Options in any order, [--inherit-env] among them or not, then the command *)
Definition submit_items (before after : list (string * string)) (inherit : bool) (command : list string) : list item :=
  (uncurry Opt <$> before) ++ (if inherit then [Word "--inherit-env"] else []) ++ (uncurry Opt <$> after) ++
  Word "--" :: (Word <$> command).

(** What they mean: the values of each option in order *)
Definition given (name : string) (options : list (string * string)) : list string :=
  omap (fun p => if String.eqb p.1 name then Some p.2 else None) options.

Definition submit_meaning (options : list (string * string)) (inherit : bool) (command : list string)
  : Result Outcome SubmitOptions :=
  let? placement := check_placement_options (given "--gpus" options) (given "--gpu" options) (given "--gpu-any-of" options)
                      (given "--gpu-preferred" options) in
  let? env := assign_all ∅ (given "--env" options) in
  Ok (mkSubmitOptions placement.1 placement.2 (last (given "--tensorboard-logdir" options))
        (default "" (last (given "--cwd" options))) (given "--capture-env" options) inherit env command).

Lemma values_app name a b : values name (a ++ b) = values name a ++ values name b.
Proof. apply omap_app. Qed.

Lemma others_app name a b : others name (a ++ b) = others name a ++ others name b.
Proof. apply omap_app. Qed.

Lemma values_opts name options : values name (uncurry Opt <$> options) = given name options.
Proof.
  induction options as [|[flag value] options IH]; [done|]. rewrite fmap_cons, values_cons. simpl. unfold given. simpl.
  by destruct (String.eqb flag name); rewrite IH.
Qed.

Lemma values_words name words : values name (Word <$> words) = [].
Proof. by induction words. Qed.

Lemma submit_values name before after inherit command :
  values name (submit_items before after inherit command) = given name (before ++ after).
Proof.
  unfold submit_items. rewrite !values_app, !values_opts, values_cons, values_words, app_nil_r.
  unfold given. rewrite omap_app. by destruct inherit.
Qed.

Lemma submit_clean name before after inherit command :
  name ∈ value_flags -> Forall (fun p => plain p.2) (before ++ after) -> Forall plain command ->
  clean name (submit_items before after inherit command).
Proof.
  intros Hn Ho Hc. unfold clean, submit_items. rewrite !Forall_app, !Forall_cons, !Forall_fmap. apply Forall_app in Ho as [Hb Ha].
  assert ("--inherit-env" ∉ value_flags /\ "--" ∉ value_flags) as [Hi Hd] by (split; apply (bool_decide_unpack _); vm_compute; exact I).
  assert (forall w, plain w -> w <> name) as Hp by (intros w Hw ->; apply Hw; by right).
  split_and!; [|destruct inherit; [constructor; [|done]|done]| | |].
  - eapply Forall_impl; [exact Hb|]. intros [] ?. by apply Hp.
  - by intros <-.
  - eapply Forall_impl; [exact Ha|]. intros [] ?. by apply Hp.
  - by intros <-.
  - eapply Forall_impl; [exact Hc|]. intros w ?. by apply Hp.
Qed.

Definition without (name : string) (options : list (string * string)) : list (string * string) :=
  filter (fun p => p.1 <> name) options.

Lemma others_opts name options : others name (uncurry Opt <$> options) = uncurry Opt <$> without name options.
Proof.
  induction options as [|[flag value] options IH]; [done|]. rewrite fmap_cons, others_cons. simpl. unfold without.
  destruct (String.eqb_spec flag name); [rewrite filter_cons_False by naive_solver|rewrite filter_cons_True by naive_solver];
    by rewrite IH.
Qed.

Lemma others_words name words : others name (Word <$> words) = Word <$> words.
Proof. induction words as [|w words IH]; [done|]. rewrite fmap_cons, others_cons. by rewrite IH. Qed.

Lemma submit_others name before after inherit command :
  others name (submit_items before after inherit command) = submit_items (without name before) (without name after) inherit command.
Proof.
  unfold submit_items. rewrite !others_app, !others_opts, others_cons, others_words. by destruct inherit.
Qed.

Lemma given_cons name flag value options :
  given name ((flag, value) :: options) = if String.eqb flag name then value :: given name options else given name options.
Proof. unfold given. simpl. by destruct (String.eqb flag name). Qed.

Lemma given_without name name' options : name <> name' -> given name' (without name options) = given name' options.
Proof.
  intros Hne. induction options as [|[flag value] options IH]; [done|]. unfold without in *. rewrite given_cons.
  destruct (decide (flag = name)) as [->|Hf].
  - rewrite filter_cons_False by naive_solver. rewrite IH. by rewrite (proj2 (String.eqb_neq _ _) Hne).
  - rewrite filter_cons_True by done. by rewrite given_cons, IH.
Qed.

Lemma without_app name a b : without name (a ++ b) = without name a ++ without name b.
Proof. apply filter_app. Qed.

Lemma Forall_without (P : string * string -> Prop) name options : Forall P options -> Forall P (without name options).
Proof.
  induction 1 as [|[flag value] options Hp Ho IH]; [constructor|]. unfold without in *.
  destruct (decide (flag = name)); [rewrite filter_cons_False by naive_solver|rewrite filter_cons_True by naive_solver; constructor]; done.
Qed.

(** One loop over an option of a submission *)
Lemma take_submit name before after inherit command :
  name ∈ value_flags -> Forall (fun p => plain p.2) (before ++ after) -> Forall plain command ->
  take_flags name (flatten (submit_items before after inherit command)) =
    (given name (before ++ after), flatten (submit_items (without name before) (without name after) inherit command)) /\
  Forall (fun p => plain p.2) (without name before ++ without name after).
Proof.
  intros Hn Ho Hc. rewrite take_flags_items by by apply submit_clean. rewrite submit_values, submit_others. split; [done|].
  rewrite <- without_app. by apply Forall_without.
Qed.

Lemma take_bool_flag_absent name l : name ∉ l -> take_bool_flag name l = (false, l).
Proof.
  induction l as [|a l IH]; [done|]. intros Hn%not_elem_of_cons. simpl. destruct Hn as [Hne Hn].
  destruct (String.eqb_spec a name); [done|]. by rewrite IH.
Qed.

Lemma take_bool_flag_present name l1 l2 : name ∉ l1 -> take_bool_flag name (l1 ++ name :: l2) = (true, l1 ++ l2).
Proof.
  induction l1 as [|a l1 IH]; simpl; [by rewrite String.eqb_refl|]. intros Hn%not_elem_of_cons. destruct Hn as [Hne Hn].
  destruct (String.eqb_spec a name); [done|]. by rewrite IH.
Qed.

Lemma flatten_app a b : flatten (a ++ b) = flatten a ++ flatten b.
Proof. induction a as [|[] a IH]; simpl; [done|by rewrite IH..]. Qed.

Lemma flatten_words words : flatten (Word <$> words) = words.
Proof. induction words as [|w words IH]; [done|]. simpl. by f_equal. Qed.

Lemma flatten_opts_plain name options :
  Forall (fun p => p.1 <> name /\ p.2 <> name) options -> name ∉ flatten (uncurry Opt <$> options).
Proof. induction 1 as [|[flag value] options [H1 H2] Ho IH]; simpl; [apply not_elem_of_nil|]. rewrite !not_elem_of_cons. done. Qed.

Lemma take_inherit before after inherit command :
  Forall (fun p => p.1 ∈ value_flags /\ plain p.2) (before ++ after) -> Forall plain command ->
  take_bool_flag "--inherit-env" (flatten (submit_items before after inherit command)) =
    (inherit, flatten (submit_items before after false command)).
Proof.
  intros Ho Hc.
  assert (Forall (fun p => p.1 <> "--inherit-env" /\ p.2 <> "--inherit-env") (before ++ after)) as Hp.
  { eapply Forall_impl; [exact Ho|]. intros [f v] [H1 H2]. simpl in *. split; intros ->.
    - revert H1. apply (bool_decide_unpack _). vm_compute. exact I.
    - apply H2. by left. }
  apply Forall_app in Hp as [Hb Ha]. apply flatten_opts_plain in Hb. apply flatten_opts_plain in Ha.
  assert ("--inherit-env" ∉ "--" :: command) as Hcmd.
  { apply not_elem_of_cons. split; [done|]. intros Hin. rewrite Forall_forall in Hc. apply (Hc _ Hin). by left. }
  unfold submit_items. rewrite !flatten_app. simpl. rewrite flatten_words. destruct inherit; simpl.
  - by rewrite take_bool_flag_present.
  - rewrite take_bool_flag_absent; [done|]. rewrite !not_elem_of_app. done.
Qed.

Lemma without_all options :
  Forall (fun p : string * string => p.1 ∈ value_flags) options ->
  without "--env" (without "--capture-env" (without "--cwd" (without "--tensorboard-logdir"
    (without "--gpu-preferred" (without "--gpu-any-of" (without "--gpu" (without "--gpus" options))))))) = [].
Proof.
  induction 1 as [|[flag value] options Hp Ho IH]; [done|]. unfold value_flags in Hp. simpl in Hp.
  repeat (apply elem_of_cons in Hp as [->|Hp]); [..|by apply not_elem_of_nil in Hp]; exact IH.
Qed.

(** The options of [submit] may come in any order, and the command after [--] is
    submitted as it stands: if no value and no word of the command is itself the
    name of an option, the arguments mean what each option says, with the later
    value where an option holds one, and the command is exactly what follows
    [--]. *)
Theorem submit_parse_exact before after inherit command :
  Forall (fun p => p.1 ∈ value_flags /\ plain p.2) (before ++ after) -> Forall plain command -> command <> [] ->
  parse_submit (flatten (submit_items before after inherit command)) = submit_meaning (before ++ after) inherit command.
Proof.
  intros Ho Hc Hne. assert (Forall (fun p => plain p.2) (before ++ after)) as Hp by (eapply Forall_impl; [exact Ho|naive_solver]).
  assert (Forall (fun p => p.1 ∈ value_flags) (before ++ after)) as Hf by (eapply Forall_impl; [exact Ho|naive_solver]).
  assert (forall name, name ∈ value_flags -> forall before after inherit, Forall (fun p => plain p.2) (before ++ after) ->
    take_flags name (flatten (submit_items before after inherit command)) =
      (given name (before ++ after), flatten (submit_items (without name before) (without name after) inherit command)) /\
    Forall (fun p => plain p.2) (without name before ++ without name after)) as Htake by (intros; by apply take_submit).
  unfold parse_submit, submit_meaning.
  assert (forall name, existsb (String.eqb name) value_flags = true -> name ∈ value_flags) as Hin.
  { intros name (x & Hx%list_elem_of_In & ->%String.eqb_eq)%existsb_exists. done. }
  destruct (Htake "--gpus" (Hin "--gpus" eq_refl) before after inherit Hp) as [-> Hp1].
  destruct (Htake "--gpu" (Hin "--gpu" eq_refl) _ _ inherit Hp1) as [-> Hp2].
  destruct (Htake "--gpu-any-of" (Hin "--gpu-any-of" eq_refl) _ _ inherit Hp2) as [-> Hp3].
  destruct (Htake "--gpu-preferred" (Hin "--gpu-preferred" eq_refl) _ _ inherit Hp3) as [-> Hp4].
  destruct (Htake "--tensorboard-logdir" (Hin "--tensorboard-logdir" eq_refl) _ _ inherit Hp4) as [-> Hp5].
  destruct (Htake "--cwd" (Hin "--cwd" eq_refl) _ _ inherit Hp5) as [-> Hp6].
  destruct (Htake "--capture-env" (Hin "--capture-env" eq_refl) _ _ inherit Hp6) as [-> Hp7].
  rewrite take_inherit; [|by rewrite <- !without_app; repeat apply Forall_without|done].
  destruct (Htake "--env" (Hin "--env" eq_refl) _ _ false Hp7) as [-> _].
  apply Forall_app in Hf as [Hfb Hfa]. rewrite (without_all before Hfb), (without_all after Hfa).
  rewrite <- !without_app, !given_without by discriminate. unfold submit_items. simpl. rewrite flatten_words.
  destruct (check_placement_options _ _ _ _) as [placement|e]; [|done]. simpl. destruct (assign_all _ _) as [env|e]; [|done]. simpl.
  by rewrite bool_decide_eq_false_2.
Qed.

(** The condition on the command matters: an option's name in it is taken out of
    the command and applied to the submission. *)
Example submit_takes_from_command :
  (op_argv <$> match parse_submit ["--"; "train"; "--gpu"; "0"] with Ok o => Some o | Err _ => None end) = Some ["train"] /\
  (match parse_submit ["--"; "train"; "--gpu"; "0"] with Ok o => op_gpu_spec o | Err _ => None end) = Some "0".
Proof. by vm_compute. Qed.

(** ** [logs -f] *)

(** What the data frames of standard output say *)
Fixpoint stdout_of (fs : list IpcStreamFrame) : string :=
  match fs with
  | [] => EmptyString
  | f :: fs =>
      (match sf_kind f with
       | SK_kLogData => if sf_stream f =? 0 then String.string_of_list_ascii (sf_data f) else EmptyString
       | _ => EmptyString
       end) +:+ stdout_of fs
  end.

(** The printer goes on until a final frame. *)
Lemma print_frame_continues f p : (print_frame f p).1 = true.
Proof. unfold print_frame. by destruct (sf_kind f). Qed.

Lemma print_frame_out f p : fp_out (print_frame f p).2 = fp_out p +:+ stdout_of [f].
Proof.
  unfold print_frame. simpl. rewrite append_empty_r. destruct (sf_kind f); simpl; rewrite ?append_empty_r; try done.
  destruct (sf_stream f =? 0); simpl; by rewrite ?append_empty_r.
Qed.

(** What is shown, and how the printer knows that the stream has ended *)
Definition shown_end (stopped : bool) (shown : list IpcStreamFrame) (p p' : FollowPrinter) : Prop :=
  if stopped then
    exists pre f, shown = pre ++ [f] /\ Forall (fun f => final_frame f = false) pre /\
      (sf_kind f = SK_kLogEof /\ fp_eof_state p' = Z.of_N (sf_job_state f) /\ fp_backpressure p' = fp_backpressure p \/
       sf_kind f = SK_kLogBackpressure /\ fp_backpressure p' = true)
  else Forall (fun f => final_frame f = false) shown /\ fp_eof_state p' = fp_eof_state p /\ fp_backpressure p' = fp_backpressure p.

Lemma feed_print fs p stopped p' :
  feed print_frame fs p = (stopped, p') ->
  exists shown, shown `prefix_of` fs /\ fp_out p' = fp_out p +:+ stdout_of shown /\ shown_end stopped shown p p'.
Proof.
  revert p. induction fs as [|f fs IH]; intros p; cbn [feed].
  { intros [= <- <-]. exists []. split_and!; [done|by rewrite append_empty_r|]. by repeat split. }
  pose proof (print_frame_continues f p) as Hgo. pose proof (print_frame_out f p) as Hout.
  destruct (print_frame f p) as [go p1] eqn:Hf. simpl in Hgo, Hout. subst go. cbn [negb orb].
  destruct (final_frame f) eqn:Hfin.
  - intros [= <- <-]. exists [f]. split_and!; [by apply prefix_cons, prefix_nil|done|]. exists [], f. split_and!; [done|constructor|].
    unfold print_frame, final_frame in *. destruct (sf_kind f); try done; simplify_eq; simpl; auto.
  - intros (shown & Hpre & Ho & Hend)%IH. exists (f :: shown). split_and!; [by apply prefix_cons| |].
    { rewrite Ho, Hout. simpl. by rewrite append_empty_r, append_assoc. }
    assert (fp_eof_state p1 = fp_eof_state p /\ fp_backpressure p1 = fp_backpressure p) as [He Hb].
    { unfold print_frame, final_frame in *. destruct (sf_kind f); try done; simplify_eq; try done. by destruct (_ =? _). }
    unfold shown_end in *. destruct stopped.
    + destruct Hend as (pre & g & -> & Hf' & Hg). exists (f :: pre), g. rewrite Hb in Hg. split_and!; [done|by constructor|done].
    + destruct Hend as (Hf' & -> & ->). by repeat split; [constructor| |].
Qed.

(** The response that the daemon's first frame carries *)
Lemma request_response_ack endpoint request io response io' ack rest a :
  request_response endpoint request io = (Some (Ok response), io') ->
  rv_inbound (ci_recv io) = frame_of ack ++ rest -> decode_response_payload ack = Ok a ->
  response = a /\ rv_inbound (ci_recv io') = rest.
Proof.
  intros Hr Hin Ha. pose proof (decode_response_len _ _ Ha) as [_ Hmax]. revert Hr. unfold request_response.
  destruct (endpoint_rejected endpoint); [done|]. destruct (encode_request_payload request []) as [[] payload]; [|done].
  destruct (negb (ci_socket io)); [done|]. destruct (connect_with_deadline _ _) as [[|]|]; [|done..].
  destruct (write_frame payload (ci_send io)) as [[[|]|] s]; [|done..].
  destruct (read_frame (ci_recv io)) as [[[q|] r]|] eqn:Hread; [|done..].
  apply (read_frame_complete _ _ _ _ _ Hmax Hin) in Hread as [-> Hrest]. rewrite Ha. intros [= <- <-]. done.
Qed.

(** What a run of [logs -f] has shown of the frames [fs], and what its status says *)
Definition Shows (fs : list IpcStreamFrame) (o : Outcome) : Prop :=
  exists shown, shown `prefix_of` fs /\ oc_out o = stdout_of shown /\
    (oc_code o = kExitOk -> exists pre f, shown = pre ++ [f] /\ Forall (fun f => final_frame f = false) pre /\
       sf_kind f = SK_kLogEof /\ sf_job_state f = job_state_wire kFinished) /\
    (oc_code o = kExitBackpressure -> exists pre f, shown = pre ++ [f] /\ Forall (fun f => final_frame f = false) pre /\
       sf_kind f = SK_kLogBackpressure).

Lemma outcome_shows request result p stopped n fs :
  feed print_frame (take n fs) new_printer = (stopped, p) ->
  (fw_error result = CL_kNone -> rs_error (fw_ack result) = IE_kNone -> stopped = true) ->
  Shows fs (follow_outcome request result p).
Proof.
  intros (shown & Hpre & Hout & Hend)%feed_print Hst. exists shown.
  split; [etrans; [exact Hpre|apply prefix_take]|].
  unfold follow_outcome. case_bool_decide as He; cbn [negb]; [|by split_and!].
  case_bool_decide as Hack; cbn [negb]; [|by split_and!]. rewrite (Hst He Hack) in Hend.
  destruct Hend as (pre & f & -> & Hf & [(Hk & Heof & Hb)|[Hk Hb]]); rewrite Hb; cbn [fp_backpressure new_printer].
  - rewrite Heof. rewrite (proj2 (Z.leb_le _ _)) by lia.
    destruct (Z.eqb_spec (Z.of_N (sf_job_state f)) (Z.of_N (job_state_wire kFinished))) as [Heq%N2Z.inj|];
      (split; [exact Hout|]); split; try done. intros _. by exists pre, f.
  - split; [exact Hout|]. split; [done|]. intros _. by exists pre, f.
Qed.

(** [logs -f] shows the log.  When the daemon answered with [ack] and the frames
    [fs] (perhaps broken off), what appears on standard output is the data of
    its standard output frames in order, up to a frame of the sequence; the run
    ends with success only at an end-of-log frame of a job that finished, and
    with the back-pressure status only at a back-pressure frame, every frame
    before it having been shown. *)
Theorem follow_shows io socket id since_stdout since_stderr ack a fs sent left o :
  rv_inbound (ci_recv io) = frame_of ack ++ sent ++ left -> decode_response_payload ack = Ok a ->
  Forall FrameInRange fs -> stream_of fs = Some sent -> cut left ->
  command_logs_follow io socket id since_stdout since_stderr = Some o -> Shows (frame_canonical <$> fs) o.
Proof.
  intros Hin Ha Hfs Hsent Hcut. unfold command_logs_follow. cbv zeta. unfold follow.
  set (request := mkIpcRequest _ _ _ _ _ _ _ _).
  destruct (request_response socket request io) as [[[response|e]|] io'] eqn:Hrr; [| |done].
  2: { intros [= <-]. apply (outcome_shows _ _ _ false 0); [done|]. cbn [fw_error]. intros ->. exfalso.
       pose proof (request_response_errors socket request io) as Hne. rewrite Hrr in Hne. done. }
  destruct (request_response_ack _ _ _ _ _ _ _ _ Hrr Hin Ha) as [-> Hrest].
  case_bool_decide as Hack; cbn [negb].
  2: { intros [= <-]. by apply (outcome_shows _ _ _ false 0). }
  destruct (follow_stream print_frame _ (ci_recv io') new_printer) as [[e|] p] eqn:Hs; [|done]. intros [= <-].
  destruct (stream_shown print_frame _ _ _ _ _ _ _ _ Hfs Hsent Hcut Hrest Hs) as [n Hn].
  eapply outcome_shows; [exact Hn|]. cbn [fw_error]. intros ->. by rewrite bool_decide_eq_true_2.
Qed.

(** ** Listings *)

(** A listing that the daemon cut off at its limit is not shown: the response
    carries the first entries and the error LIMIT, which [call_daemon] reports
    as a failure, so the branch of [command_ps] (and [command_queue]) that would
    print a note and the entries is never reached. *)
Lemma ps_limit_hidden io socket result :
  (call socket (new_request RK_kPs) io).1 = Some result -> cr_error result = CL_kNone ->
  rs_error (cr_response result) = IE_kLimit ->
  exists o, command_ps io socket = Some o /\ oc_code o = kExitRequestFailed /\ oc_out o = "".
Proof.
  intros Hc He Hl. unfold command_ps, request_command, call_daemon. rewrite Hc, He, Hl. cbn. by eexists.
Qed.

(** ** Witnesses *)


Lemma submit_parse_exact_witness :
  parse_submit ["--env"; "A=1"; "--inherit-env"; "--gpu"; "0"; "--"; "train"; "--lr"] =
  submit_meaning [("--env", "A=1"); ("--gpu", "0")] true ["train"; "--lr"].
Proof.
  apply (submit_parse_exact [("--env", "A=1")] [("--gpu", "0")] true ["train"; "--lr"]).
  - repeat constructor; apply (bool_decide_unpack _); vm_compute; exact I.
  - repeat constructor; apply (bool_decide_unpack _); vm_compute; exact I.
  - discriminate.
Defined.

(** An acknowledgement, one line of output and the end of a finished job *)
Definition example_ack : bytes := default [] (response_payload (fresh_response RK_kLogsFollow)).

Definition example_log : list IpcStreamFrame :=
  let d := blank_frame SK_kLogData in
  let e := blank_frame SK_kLogEof in
  [{| d with sf_end_offset := 2; sf_data := ["h"; "i"]%char |}; {| e with sf_job_state := 4 |}].

Definition example_follow_io : ClientIo :=
  with_inbound (frame_of example_ack ++ default [] (stream_of example_log) ++ []) (example_io 200).




Lemma follow_shows_witness :
  exists o, command_logs_follow example_follow_io "/run/yori.sock" 1 None None = Some o /\ oc_out o = "hi" /\
    oc_code o = kExitOk /\ Shows (frame_canonical <$> example_log) o.
Proof.
  eexists. split; [vm_compute; reflexivity|]. split; [reflexivity|]. split; [reflexivity|].
  apply (follow_shows example_follow_io "/run/yori.sock" 1 None None example_ack (fresh_response RK_kLogsFollow) example_log
           (default [] (stream_of example_log)) []).
  - reflexivity.
  - vm_compute. reflexivity.
  - repeat constructor; try discriminate.
  - vm_compute. reflexivity.
  - exists (replicate 9 "a"%char). eexists. split; [vm_compute; discriminate|]. split; [vm_compute; reflexivity|discriminate].
  - vm_compute. reflexivity.
Defined.
