(* ===== verification/Nvml.v ===== *)
(** * The NVML provider: [include/yori/gpu/nvml_gpu_provider.hpp],
    [src/gpu/nvml_gpu_provider.cpp]

    Loading the library, one observation of all devices, unloading.  NVML is
    external: its functions' answers are the fields of [NvmlApi].

    [observe_exact]: what an observation says of each device is what NVML said,
    field by field; a device is FREE only if NVML counted its processes and
    found none; and a failed observation says nothing.  [observe_valid]: when it passes the
    validation of [Gpu.v].  [provider_session]: the library handle is released
    and revisions grow. *)

From stdpp Require Import pretty.
From S2P Require Import Prelude.
From S2P Require Import Job.
From S2P Require Import Gpu.
From S2P Require Import Supervisor.
#[local] Open Scope N_scope.

(** ** NVML *)

(** [nvmlReturn_t] *)
Inductive nvmlReturn :=
| NVML_SUCCESS
| NVML_ERROR_UNINITIALIZED
| NVML_ERROR_INVALID_ARGUMENT
| NVML_ERROR_NOT_SUPPORTED
| NVML_ERROR_NO_PERMISSION
| NVML_ERROR_NOT_FOUND
| NVML_ERROR_INSUFFICIENT_SIZE
| NVML_ERROR_DRIVER_NOT_LOADED
| NVML_ERROR_TIMEOUT
| NVML_ERROR_LIBRARY_NOT_FOUND
| NVML_ERROR_FUNCTION_NOT_FOUND
| NVML_ERROR_GPU_IS_LOST
| NVML_ERROR_UNKNOWN
| NVML_OTHER (value : Z).

#[export] Instance nvmlReturn_eq_dec : EqDecision nvmlReturn.
Proof. solve_decision. Defined.

(** The answers during one observation: a status, and what was written to the
    output parameter.  A device handle is [None] when it is null; the UUID is
    what was written at the start of a zeroed buffer of 128 bytes; a process
    query is absent when its symbol is. *)
Record NvmlApi (D : Type) := mkNvmlApi {
  nv_count : nvmlReturn * N;
  nv_handle : N -> nvmlReturn * option D;
  nv_uuid : D -> nvmlReturn * string;
  nv_utilization : D -> nvmlReturn * N;
  nv_memory : D -> nvmlReturn * (N * N);
  nv_processes_v3 : option (D -> nvmlReturn * N);
  nv_processes_v2 : option (D -> nvmlReturn * N);
}.
Arguments mkNvmlApi {D}.
Arguments nv_count {D}.
Arguments nv_handle {D}.
Arguments nv_uuid {D}.
Arguments nv_utilization {D}.
Arguments nv_memory {D}.
Arguments nv_processes_v3 {D}.
Arguments nv_processes_v2 {D}.

(** ** Codes *)

Inductive NvmlProviderLoadCode :=
| NL_kLoaded | NL_kAlreadyLoaded | NL_kInvalidConfig | NL_kLibraryOpenFailed
| NL_kSymbolMissing | NL_kBackendUnavailable | NL_kPermissionDenied | NL_kInitFailed.

#[export] Instance NvmlProviderLoadCode_eq_dec : EqDecision NvmlProviderLoadCode.
Proof. solve_decision. Defined.

Record NvmlProviderLoadResult := mkLoadResult {
  nl_code : NvmlProviderLoadCode;
  nl_detail : string;
}.

(** [NvmlProviderLoadResult::ok] *)
Definition nvml_load_ok (r : NvmlProviderLoadResult) : bool :=
  match nl_code r with NL_kLoaded | NL_kAlreadyLoaded => true | _ => false end.

(** [to_string(NvmlProviderLoadCode)] *)
Definition NvmlProviderLoadCode_to_string (code : NvmlProviderLoadCode) : string :=
  match code with
  | NL_kLoaded => "loaded"
  | NL_kAlreadyLoaded => "already loaded"
  | NL_kInvalidConfig => "invalid config"
  | NL_kLibraryOpenFailed => "library open failed"
  | NL_kSymbolMissing => "symbol missing"
  | NL_kBackendUnavailable => "backend unavailable"
  | NL_kPermissionDenied => "permission denied"
  | NL_kInitFailed => "init failed"
  end.

(** [map_init_error] *)
Definition map_init_error (status : nvmlReturn) : GpuProviderErrorCode :=
  match status with
  | NVML_ERROR_DRIVER_NOT_LOADED | NVML_ERROR_LIBRARY_NOT_FOUND | NVML_ERROR_UNINITIALIZED => GP_kBackendUnavailable
  | NVML_ERROR_NO_PERMISSION => GP_kPermissionDenied
  | _ => GP_kObservationFailed
  end.

(** [map_observe_error] *)
Definition map_observe_error (status : nvmlReturn) : GpuProviderErrorCode :=
  match status with
  | NVML_ERROR_UNINITIALIZED | NVML_ERROR_DRIVER_NOT_LOADED | NVML_ERROR_LIBRARY_NOT_FOUND => GP_kBackendUnavailable
  | NVML_ERROR_NO_PERMISSION => GP_kPermissionDenied
  | _ => GP_kObservationFailed
  end.

(** ** One device *)

Inductive OccupancyCode := OC_kFree | OC_kExternalBusy | OC_kUnavailable | OC_kPermissionDenied | OC_kFailed.

Section device.
Context {D : Type} (api : NvmlApi D).

(** The status and count that [query_occupancy] ends up with: of the v3 query,
    or of the v2 query where there is no v3 *)
Definition process_count (device : D) : nvmlReturn * N :=
  let '(status, count) :=
    match nv_processes_v3 api with
    | Some query => query device
    | None => (NVML_ERROR_FUNCTION_NOT_FOUND, 0)
    end in
  match status, nv_processes_v2 api with
  | NVML_ERROR_FUNCTION_NOT_FOUND, Some query => query device
  | _, _ => (status, count)
  end.

(** [query_occupancy] *)
Definition query_occupancy (device : D) : OccupancyCode :=
  let '(status, count) := process_count device in
  match status with
  | NVML_SUCCESS => if 0 <? count then OC_kExternalBusy else OC_kFree
  | NVML_ERROR_INSUFFICIENT_SIZE => OC_kExternalBusy
  | NVML_ERROR_NOT_SUPPORTED | NVML_ERROR_GPU_IS_LOST | NVML_ERROR_TIMEOUT | NVML_ERROR_INVALID_ARGUMENT => OC_kUnavailable
  | NVML_ERROR_NO_PERMISSION => OC_kPermissionDenied
  | _ => OC_kFailed
  end.

(** [extract_uuid], from what was written to the buffer of 128 bytes *)
Definition extract_uuid (buffer : string) : option GpuUuid :=
  if contains_nul buffer || (slen buffer <? 128)
  then let uuid := c_string buffer in if uuid_valid uuid then Some uuid else None
  else None.

(** The telemetry of a device: what failed or is out of range is left out. *)
Definition device_telemetry (device : D) : GpuTelemetry :=
  let '(status, gpu) := nv_utilization api device in
  let utilization := if bool_decide (status = NVML_SUCCESS) && (gpu <=? 100) then Some gpu else None in
  let '(status, (total, used)) := nv_memory api device in
  if bool_decide (status = NVML_SUCCESS) && (used <=? total)
  then mkTelemetry utilization (Some total) (Some used)
  else mkTelemetry utilization None None.

(** One iteration of the loop of [observe] *)
Definition observe_device (index : N) : Result GpuProviderErrorCode GpuObservation :=
  let '(status, handle) := nv_handle api index in
  match status, handle with
  | NVML_SUCCESS, Some device =>
      let '(status, buffer) := nv_uuid api device in
      match status, extract_uuid buffer with
      | NVML_SUCCESS, Some uuid =>
          let telemetry := device_telemetry device in
          match query_occupancy device with
          | OC_kFree => Ok (mkObservation uuid index GO_kFree telemetry)
          | OC_kExternalBusy => Ok (mkObservation uuid index GO_kExternalBusy telemetry)
          | OC_kUnavailable => Ok (mkObservation uuid index GO_kUnavailable telemetry)
          | OC_kPermissionDenied => Err GP_kPermissionDenied
          | OC_kFailed => Err GP_kObservationFailed
          end
      | NVML_SUCCESS, None => Err GP_kObservationFailed
      | status, _ => Err (map_observe_error status)
      end
  | NVML_SUCCESS, None => Err (map_observe_error NVML_ERROR_UNKNOWN)
  | status, _ => Err (map_observe_error status)
  end.

(** The loop of [observe] over the devices from [index] on *)
Fixpoint observe_devices (remaining : nat) (index : N) : Result GpuProviderErrorCode (list GpuObservation) :=
  match remaining with
  | O => Ok []
  | S remaining =>
      let? observation := observe_device index in
      let? rest := observe_devices remaining (index + 1) in
      Ok (observation :: rest)
  end.

End device.

(** ** The provider *)

Record NvmlGpuProviderConfig := mkNvmlConfig {
  nc_library_path : string;
  nc_max_devices : N;
}.

(** [NvmlGpuProvider::Impl] *)
Record NvmlGpuProvider := mkProvider {
  np_config : NvmlGpuProviderConfig;
  np_library : option N;
  np_loaded : bool;
  np_next_revision : N;
}.

Definition new_provider (c : NvmlGpuProviderConfig) : NvmlGpuProvider := mkProvider c None false 0.

(** [GpuProviderResult] of a failure: its snapshot is empty. *)
Definition no_observation (code : GpuProviderErrorCode) : GpuProviderResult :=
  mkProviderResult code (mkGpuSnapshot 0 0 []).

(** [observe]; [now] is the clock. *)
Definition nvml_observe {D} (api : NvmlApi D) (now : Z) (p : NvmlGpuProvider) : GpuProviderResult * NvmlGpuProvider :=
  if negb (np_loaded p) then (no_observation GP_kBackendUnavailable, p)
  else
    let '(status, count) := nv_count api in
    if negb (bool_decide (status = NVML_SUCCESS)) then (no_observation (map_observe_error status), p)
    else if nc_max_devices (np_config p) <? count then (no_observation GP_kObservationFailed, p)
    else
      match observe_devices api (N.to_nat count) 0 with
      | Err code => (no_observation code, p)
      | Ok devices =>
          let revision := uadd64 (np_next_revision p) 1 in
          (mkProviderResult GP_kNone (mkGpuSnapshot revision now devices), {| p with np_next_revision := revision |})
      end.

(** The symbols that [load] binds, in order; all are needed. *)
Definition nvml_symbols : list string :=
  ["nvmlInit_v2"; "nvmlShutdown"; "nvmlDeviceGetCount_v2"; "nvmlDeviceGetHandleByIndex_v2"; "nvmlDeviceGetUUID";
   "nvmlDeviceGetUtilizationRates"; "nvmlDeviceGetMemoryInfo"; "nvmlDeviceGetComputeRunningProcesses_v2";
   "nvmlErrorString"].

(** The answers of the dynamic loader and of [nvmlInit_v2]: the handle or
    nothing, whether a symbol is found, the texts of [dlerror] and
    [nvmlErrorString] *)
Record LoaderAnswers := mkLoader {
  la_dlopen : option N;
  la_dlsym : string -> bool;
  la_dlerror : option string;
  la_init : nvmlReturn;
  la_error_string : nvmlReturn -> option string;
}.

(** [truncate_detail] *)
Definition nvml_detail (raw : option string) : string :=
  match raw with Some raw => String.substring 0 200 raw | None => "" end.

(** [load], with the library handles the process holds *)
Definition nvml_load (a : LoaderAnswers) (p : NvmlGpuProvider) (handles : list N)
  : NvmlProviderLoadResult * NvmlGpuProvider * list N :=
  let c := np_config p in
  if np_loaded p then (mkLoadResult NL_kAlreadyLoaded "", p, handles)
  else if sempty (nc_library_path c) || (nc_max_devices c =? 0) || (GpuObservationSnapshot_kMaxDevices <? nc_max_devices c)
  then (mkLoadResult NL_kInvalidConfig "library_path must be non-empty and max_devices within 1..128", p, handles)
  else
    match la_dlopen a with
    | None => (mkLoadResult NL_kLibraryOpenFailed (nvml_detail (la_dlerror a)), p, handles)
    | Some library =>
        let opened := library :: handles in
        let closed := filter (fun h => h <> library) opened in
        if negb (forallb (la_dlsym a) nvml_symbols)
        then (mkLoadResult NL_kSymbolMissing (nvml_detail (la_dlerror a)), p, closed)
        else
          match la_init a with
          | NVML_SUCCESS =>
              (mkLoadResult NL_kLoaded "", {| p with np_library := Some library; np_loaded := true |}, opened)
          | status =>
              let detail := nvml_detail (la_error_string a status) in
              (mkLoadResult (match map_init_error status with
                             | GP_kBackendUnavailable => NL_kBackendUnavailable
                             | GP_kPermissionDenied => NL_kPermissionDenied
                             | _ => NL_kInitFailed
                             end) detail, p, closed)
          end
    end.

(** [teardown], called by the destructor *)
Definition nvml_teardown (p : NvmlGpuProvider) (handles : list N) : NvmlGpuProvider * list N :=
  if negb (np_loaded p) then (p, handles)
  else ({| p with np_library := None; np_loaded := false |},
        match np_library p with Some library => filter (fun h => h <> library) handles | None => handles end).

(** ** What an observation says *)

Section truth.
Context {D : Type} (api : NvmlApi D).

(** NVML's answer about the compute processes of the device: that of the v3 query,
    or of the v2 query where there is no v3 *)
Definition counted (P : nvmlReturn * N -> Prop) (device : D) : Prop :=
  match nv_processes_v3 api with
  | Some query =>
      P (query device) \/
      (query device).1 = NVML_ERROR_FUNCTION_NOT_FOUND /\
      exists query2, nv_processes_v2 api = Some query2 /\ P (query2 device)
  | None => exists query2, nv_processes_v2 api = Some query2 /\ P (query2 device)
  end.

(** It counted them and found none; found some; cannot tell *)
Definition found_none (answer : nvmlReturn * N) : Prop := answer = (NVML_SUCCESS, 0).

Definition found_some (answer : nvmlReturn * N) : Prop :=
  answer.1 = NVML_ERROR_INSUFFICIENT_SIZE \/ answer.1 = NVML_SUCCESS /\ 0 < answer.2.

Definition cannot_tell (answer : nvmlReturn * N) : Prop :=
  answer.1 ∈ [NVML_ERROR_NOT_SUPPORTED; NVML_ERROR_GPU_IS_LOST; NVML_ERROR_TIMEOUT; NVML_ERROR_INVALID_ARGUMENT].

(** The UUID in a buffer of 128 bytes: the text before the first NUL, not empty
    and not too long *)
Definition uuid_text (buffer : string) (uuid : GpuUuid) : Prop :=
  uuid_valid uuid = true /\
  (buffer = uuid /\ slen buffer < 128 \/ exists rest, buffer = uuid +:+ String nul rest).

(** What NVML said of the device at [index], within the documented ranges *)
Definition device_truth (index : N) (o : GpuObservation) : Prop :=
  go_index o = index /\
  exists device buffer,
    nv_handle api index = (NVML_SUCCESS, Some device) /\
    nv_uuid api device = (NVML_SUCCESS, buffer) /\ uuid_text buffer (go_uuid o) /\
    (forall percent, utilization_percent (go_telemetry o) = Some percent <->
       nv_utilization api device = (NVML_SUCCESS, percent) /\ percent <= 100) /\
    (forall total, memory_total_bytes (go_telemetry o) = Some total <->
       exists used, nv_memory api device = (NVML_SUCCESS, (total, used)) /\ used <= total) /\
    (forall used, memory_used_bytes (go_telemetry o) = Some used <->
       exists total, nv_memory api device = (NVML_SUCCESS, (total, used)) /\ used <= total) /\
    (go_state o = GO_kFree <-> counted found_none device) /\
    (go_state o = GO_kExternalBusy <-> counted found_some device) /\
    (go_state o = GO_kUnavailable <-> counted cannot_tell device).

Lemma counted_answer (P : nvmlReturn * N -> Prop) device :
  (forall n, ~ P (NVML_ERROR_FUNCTION_NOT_FOUND, n)) -> counted P device <-> P (process_count api device).
Proof.
  intros Hn. unfold counted, process_count.
  destruct (nv_processes_v3 api) as [q3|]; [destruct (q3 device) as [s3 c3]|]; destruct (nv_processes_v2 api) as [q2|]; simpl.
  - destruct s3; split; try (by left); try (intros [|(? & ? & ? & ?)]; naive_solver); naive_solver.
  - destruct s3; split; try (by left); intros [|(? & ? & ? & ?)]; naive_solver.
  - naive_solver.
  - split; [naive_solver|]. by intros ?%Hn.
Qed.

Lemma occupancy_state device :
  (query_occupancy api device = OC_kFree <-> counted found_none device) /\
  (query_occupancy api device = OC_kExternalBusy <-> counted found_some device) /\
  (query_occupancy api device = OC_kUnavailable <-> counted cannot_tell device).
Proof.
  rewrite !counted_answer; [|intros n Hn; unfold cannot_tell in Hn; cbn in Hn; set_solver|intros n [|[]]; done|done].
  unfold query_occupancy, found_none, found_some, cannot_tell. destruct (process_count api device) as [status count]. cbn [fst snd].
  rewrite !elem_of_cons, elem_of_nil. destruct status; try naive_solver.
  destruct (N.ltb_spec 0 count).
  - split_and!; split; try done; [intros [= ->]; lia|by right|naive_solver].
  - assert (count = 0) as -> by lia. split_and!; split; try done; [intros [|[]]; [done|lia]|naive_solver].
Qed.

Lemma c_string_split s : c_string s = s /\ contains_nul s = false \/
  exists rest, s = c_string s +:+ String nul rest /\ contains_nul s = true.
Proof.
  unfold contains_nul. induction s as [|a s IH]; [by left|]. cbn [c_string contains_char].
  case_bool_decide as Ha.
  - right. exists s. subst a. by rewrite Ascii.eqb_refl.
  - rewrite (proj2 (Ascii.eqb_neq a nul) Ha). cbn [orb]. destruct IH as [[-> ->]|(rest & Hs & ->)]; [by left|].
    right. exists rest. split; [|done]. rewrite append_cons. by f_equal.
Qed.

Lemma c_string_app u rest : contains_nul u = false -> c_string (u +:+ String nul rest) = u.
Proof.
  unfold contains_nul. induction u as [|a u IH]; [done|]. rewrite append_cons. cbn [c_string contains_char].
  intros [Ha Hu]%orb_false_iff. rewrite bool_decide_eq_false_2 by (by apply Ascii.eqb_neq). by rewrite IH.
Qed.

Lemma extract_uuid_text buffer uuid : extract_uuid buffer = Some uuid <-> uuid_text buffer uuid.
Proof.
  unfold extract_uuid, uuid_text. split.
  - destruct (c_string_split buffer) as [[-> ->]|(rest & Hb & ->)]; cbn [orb].
    + destruct (N.ltb_spec (slen buffer) 128); [|done]. destruct (uuid_valid buffer) eqn:Hv; [|done].
      intros [= ->]. split; [done|by left].
    + destruct (uuid_valid (c_string buffer)) eqn:Hv; [|done]. intros [= <-]. split; [done|]. right. by exists rest.
  - intros [Hv Hb]. assert (contains_nul uuid = false) as Hn.
    { unfold uuid_valid in Hv. apply andb_true_iff in Hv as [_ Hv]. by apply negb_true_iff in Hv. }
    destruct Hb as [[-> Hl]|[rest ->]].
    + rewrite Hn, (c_string_all _ Hn). cbn [orb]. apply N.ltb_lt in Hl. by rewrite Hl, Hv.
    + rewrite (c_string_app _ _ Hn), Hv. unfold contains_nul. rewrite contains_char_app. cbn [contains_char].
      by rewrite Ascii.eqb_refl, orb_true_r.
Qed.

Lemma telemetry_truth device :
  (forall percent, utilization_percent (device_telemetry api device) = Some percent <->
     nv_utilization api device = (NVML_SUCCESS, percent) /\ percent <= 100) /\
  (forall total, memory_total_bytes (device_telemetry api device) = Some total <->
     exists used, nv_memory api device = (NVML_SUCCESS, (total, used)) /\ used <= total) /\
  (forall used, memory_used_bytes (device_telemetry api device) = Some used <->
     exists total, nv_memory api device = (NVML_SUCCESS, (total, used)) /\ used <= total).
Proof.
  unfold device_telemetry. destruct (nv_utilization api device) as [su gpu]. destruct (nv_memory api device) as [sm [total used]].
  split_and!; intros x; case_bool_decide; case_bool_decide; destruct (N.leb_spec gpu 100), (N.leb_spec used total);
    cbn [andb utilization_percent memory_total_bytes memory_used_bytes]; naive_solver lia.
Qed.

Lemma option_ext {A} (x y : option A) : (forall a, x = Some a <-> y = Some a) -> x = y.
Proof. intros Hx. destruct x as [a|]; [symmetry; by apply Hx|]. destruct y as [b|]; [by apply Hx|done]. Qed.

Lemma observe_device_truth index o : observe_device api index = Ok o <-> device_truth index o.
Proof.
  split.
  - unfold observe_device. destruct (nv_handle api index) as [[] [device|]] eqn:Hh; try done.
    destruct (nv_uuid api device) as [[] buffer] eqn:Hu; try done. destruct (extract_uuid buffer) as [uuid|] eqn:Hx; [|done].
    apply extract_uuid_text in Hx. destruct (occupancy_state device) as (H1 & H2 & H3). destruct (telemetry_truth device) as (T1 & T2 & T3).
    destruct (query_occupancy api device) eqn:Hq; try done; intros [= <-]; (split; [done|]); exists device, buffer;
      split_and!; try done; cbn [go_state]; naive_solver.
  - intros (Hi & device & buffer & Hh & Hu & Hx%extract_uuid_text & T1 & T2 & T3 & H1 & H2 & H3).
    unfold observe_device. rewrite Hh, Hu, Hx. destruct (occupancy_state device) as (O1 & O2 & O3).
    destruct (telemetry_truth device) as (U1 & U2 & U3). destruct o as [uuid index' state [t1 t2 t3]]. cbn in *. subst index'.
    assert (device_telemetry api device = mkTelemetry t1 t2 t3) as ->.
    { destruct (device_telemetry api device) as [d1 d2 d3]. cbn in *.
      f_equal; apply option_ext; intros a; [by rewrite U1, T1|by rewrite U2, T2|by rewrite U3, T3]. }
    destruct state.
    + by rewrite (proj2 O1 (proj1 H1 eq_refl)).
    + by rewrite (proj2 O2 (proj1 H2 eq_refl)).
    + by rewrite (proj2 O3 (proj1 H3 eq_refl)).
Qed.

Lemma observe_devices_truth n index devices :
  observe_devices api n index = Ok devices ->
  length devices = n /\ forall i o, devices !! i = Some o -> device_truth (index + N.of_nat i) o.
Proof.
  revert index devices. induction n as [|n IH]; intros index devices; simpl; [by intros [= <-]|].
  destruct (observe_device api index) as [o|] eqn:Ho; [|done]. simpl.
  destruct (observe_devices api n (index + 1)) as [rest|] eqn:Hr; [|done]. intros [= <-].
  destruct (IH _ _ Hr) as [Hl Hall]. split; [simpl; by rewrite Hl|]. intros [|i] o' Hi; simpl in Hi.
  - simplify_eq. rewrite N.add_0_r. by apply observe_device_truth.
  - replace (index + N.of_nat (S i)) with (index + 1 + N.of_nat i) by lia. by apply Hall.
Qed.

(** The loop fails only at a device that cannot be described. *)
Lemma observe_devices_fails n index code :
  observe_devices api n index = Err code -> exists i, (i < n)%nat /\ forall o, ~ device_truth (index + N.of_nat i) o.
Proof.
  revert index. induction n as [|n IH]; intros index; simpl; [done|].
  destruct (observe_device api index) as [o|e] eqn:Ho; simpl.
  - destruct (observe_devices api n (index + 1)) as [rest|e] eqn:Hr; [done|]. intros [= ->].
    destruct (IH _ Hr) as (i & Hi & Hno). exists (S i). split; [lia|].
    by replace (index + N.of_nat (S i)) with (index + 1 + N.of_nat i) by lia.
  - intros _. exists 0%nat. split; [lia|]. intros o Ht. rewrite N.add_0_r in Ht. apply observe_device_truth in Ht. congruence.
Qed.

Lemma observe_devices_error n index code : observe_devices api n index = Err code -> code <> GP_kNone.
Proof.
  revert index. induction n as [|n IH]; intros index; simpl; [done|].
  destruct (observe_device api index) as [o|e] eqn:Ho; simpl.
  - destruct (observe_devices api n (index + 1)) as [rest|e] eqn:Hr; [done|]. intros [= <-]. by eapply IH.
  - intros [= <-]. revert Ho. unfold observe_device. repeat case_match; intros; simplify_eq; done.
Qed.

Lemma observe_says now p :
  let '(r, p') := nvml_observe api now p in
  if bool_decide (pr_code r = GP_kNone) then
    np_loaded p = true /\
    nv_count api = (NVML_SUCCESS, len (gs_devices (pr_snapshot r))) /\
    len (gs_devices (pr_snapshot r)) <= nc_max_devices (np_config p) /\
    (forall i o, gs_devices (pr_snapshot r) !! i = Some o -> device_truth (N.of_nat i) o) /\
    gs_observed_at (pr_snapshot r) = now /\
    gs_revision (pr_snapshot r) = uadd64 (np_next_revision p) 1 /\ np_next_revision p' = gs_revision (pr_snapshot r)
  else
    r = no_observation (pr_code r) /\ p' = p /\
    forall count, np_loaded p = true -> nv_count api = (NVML_SUCCESS, count) -> count <= nc_max_devices (np_config p) ->
      exists i, i < count /\ forall o, ~ device_truth i o.
Proof.
  unfold nvml_observe. destruct (np_loaded p); cbn [negb]; [|done]. destruct (nv_count api) as [status count] eqn:Hc.
  case_bool_decide as Hs; cbn [negb]; [subst status|].
  2: { rewrite bool_decide_eq_false_2 by (by destruct status). split_and!; [done|done|]. intros n _ [= -> _]. done. }
  destruct (N.ltb_spec (nc_max_devices (np_config p)) count) as [Hgt|Hle].
  { split_and!; [done|done|]. intros n _ [= <-]. lia. }
  destruct (observe_devices api (N.to_nat count) 0) as [devices|code] eqn:Hd.
  - cbn [pr_code pr_snapshot gs_devices gs_observed_at gs_revision np_next_revision]. rewrite bool_decide_eq_true_2 by done.
    destruct (observe_devices_truth _ _ _ Hd) as [Hl Hall].
    assert (len devices = count) as Hlen by (unfold len; rewrite Hl; lia).
    split_and!; [done|by rewrite Hlen|by rewrite Hlen| |done..]. intros i o Hi. rewrite <- (N.add_0_l (N.of_nat i)). by apply Hall.
  - cbn [pr_code no_observation]. rewrite bool_decide_eq_false_2 by (by eapply observe_devices_error).
    split_and!; [done|done|]. intros n _ [= <-] _. destruct (observe_devices_fails _ _ _ Hd) as (i & Hi & Hno).
    exists (N.of_nat i). split; [lia|exact Hno].
Qed.

(** C38. An observation says what NVML said.  A successful one has an entry for each
    device that NVML counts, in order: its UUID is the text NVML wrote, up to
    the NUL; its utilisation is NVML's if that is at most 100 percent and
    otherwise left out; its total and used memory are NVML's if the used
    part is no more than the total and otherwise both left out; what NVML
    failed to give is left out.  The device is FREE exactly if NVML counted its
    processes and found none, EXTERNAL_BUSY exactly if it found some, and
    UNAVAILABLE exactly if it says that it cannot tell.  Otherwise nothing is
    said: the snapshot is empty and the provider unchanged; with the library
    loaded and an acceptable count this happens only if some device cannot be
    described in this way. *)
Theorem observe_exact now p :
  let '(r, p') := nvml_observe api now p in
  if bool_decide (pr_code r = GP_kNone) then
    np_loaded p = true /\
    nv_count api = (NVML_SUCCESS, len (gs_devices (pr_snapshot r))) /\
    len (gs_devices (pr_snapshot r)) <= nc_max_devices (np_config p) /\
    (forall i o, gs_devices (pr_snapshot r) !! i = Some o -> device_truth (N.of_nat i) o) /\
    gs_observed_at (pr_snapshot r) = now /\
    gs_revision (pr_snapshot r) = uadd64 (np_next_revision p) 1 /\ np_next_revision p' = gs_revision (pr_snapshot r)
  else
    r = no_observation (pr_code r) /\ p' = p /\
    forall count, np_loaded p = true -> nv_count api = (NVML_SUCCESS, count) -> count <= nc_max_devices (np_config p) ->
      exists i, i < count /\ forall o, ~ device_truth i o.
Proof. apply observe_says. Qed.

Lemma device_telemetry_ok index o :
  (forall d used, nv_memory api d <> (NVML_SUCCESS, (0, used))) -> device_truth index o -> telemetry_ok (go_telemetry o).
Proof.
  intros Hmem (_ & d & b & _ & _ & _ & T1 & T2 & T3 & _). split; [by intros u [_ Hu]%T1|]. split.
  - intros u (total & Hm & Hu)%T3. exists total. split; [|done]. apply T2. by exists u.
  - intros t (used & Hm & Hu)%T2 ->. by apply (Hmem d used).
Qed.

(** An observation passes the validation of snapshots, given what NVML documents:
    a UUID names one device; and a memory that is not empty. *)
Theorem observe_valid now p r p' :
  nvml_observe api now p = (r, p') -> pr_code r = GP_kNone ->
  (0 < now)%Z -> np_next_revision p < u64_max -> nc_max_devices (np_config p) <= GpuObservationSnapshot_kMaxDevices ->
  (forall i j d1 d2 b1 b2, nv_handle api i = (NVML_SUCCESS, Some d1) -> nv_handle api j = (NVML_SUCCESS, Some d2) ->
     nv_uuid api d1 = (NVML_SUCCESS, b1) -> nv_uuid api d2 = (NVML_SUCCESS, b2) ->
     extract_uuid b1 = extract_uuid b2 -> i = j) ->
  (forall d used, nv_memory api d <> (NVML_SUCCESS, (0, used))) ->
  SnapshotOk (pr_snapshot r).
Proof.
  intros Hobs Hcode Hnow Hrev Hmax Huuid Hmem. pose proof (observe_says now p) as Hs. rewrite Hobs in Hs.
  rewrite bool_decide_eq_true_2 in Hs by done. destruct Hs as (_ & _ & Hlen & Hall & Hat & Hr & _).
  set (devices := gs_devices (pr_snapshot r)) in *.
  assert (forall i o, devices !! i = Some o -> uuid_valid (go_uuid o) = true) as Hvalid.
  { intros i o Hi. by destruct (Hall i o Hi) as (_ & d & b & _ & _ & [Hx _] & _). }
  constructor.
  - rewrite Hr. unfold uadd64. rewrite N.mod_small by (unfold u64_max in *; lia). lia.
  - by rewrite Hat.
  - etrans; [exact Hlen|exact Hmax].
  - apply Forall_lookup. exact Hvalid.
  - apply Forall_lookup. intros i o Hi. eapply device_telemetry_ok; [exact Hmem|]. by apply Hall.
  - apply NoDup_alt. intros i j u Hi Hj. rewrite list_lookup_fmap in Hi, Hj.
    apply fmap_Some in Hi as (o1 & Hi & ->). apply fmap_Some in Hj as (o2 & Hj & Heq).
    destruct (Hall i o1 Hi) as (_ & d1 & b1 & Hh1 & Hu1 & Hx1%extract_uuid_text & _).
    destruct (Hall j o2 Hj) as (_ & d2 & b2 & Hh2 & Hu2 & Hx2%extract_uuid_text & _).
    apply Nat2N.inj. eapply Huuid; [exact Hh1|exact Hh2|exact Hu1|exact Hu2|congruence].
  - apply NoDup_alt. intros i j u Hi Hj. rewrite list_lookup_fmap in Hi, Hj.
    apply fmap_Some in Hi as (o1 & Hi & ->). apply fmap_Some in Hj as (o2 & Hj & Heq).
    destruct (Hall i o1 Hi) as [Hi1 _]. destruct (Hall j o2 Hj) as [Hj1 _]. lia.
Qed.

End truth.

(** ** Loading and unloading *)

(** The handle that the provider holds, on top of those open before *)
Definition holds_library (base : list N) (ph : NvmlGpuProvider * list N) : Prop :=
  let '(p, handles) := ph in
  if np_loaded p then exists library, np_library p = Some library /\ handles = library :: base /\ library ∉ base
  else handles = base.

Inductive provider_call := PC_load (a : LoaderAnswers) | PC_observe {D} (api : NvmlApi D) (now : Z) | PC_teardown.

Definition provider_step (call : provider_call) (ph : NvmlGpuProvider * list N) : NvmlGpuProvider * list N :=
  match call with
  | PC_load a => let '(_, p, handles) := nvml_load a ph.1 ph.2 in (p, handles)
  | PC_observe api now => ((nvml_observe api now ph.1).2, ph.2)
  | PC_teardown => nvml_teardown ph.1 ph.2
  end.

(** [dlopen] returns a handle that is not held. *)
Fixpoint fresh_handles (calls : list provider_call) (ph : NvmlGpuProvider * list N) : Prop :=
  match calls with
  | [] => True
  | call :: calls =>
      match call with PC_load a => forall library, la_dlopen a = Some library -> library ∉ ph.2 | _ => True end /\
      fresh_handles calls (provider_step call ph)
  end.

Lemma release_handle (library : N) base : library ∉ base -> filter (fun h => h <> library) (library :: base) = base.
Proof.
  intros Hn. rewrite filter_cons_False by naive_solver. apply filter_all, Forall_forall. by intros h Hh ->.
Qed.

Lemma provider_step_holds base call ph :
  match call with PC_load a => forall library, la_dlopen a = Some library -> library ∉ ph.2 | _ => True end ->
  holds_library base ph -> holds_library base (provider_step call ph).
Proof.
  destruct ph as [p handles]. destruct call as [a|D api now|]; cbn [provider_step fst snd]; intros Hf Hh.
  - unfold nvml_load. unfold holds_library in Hh. destruct (np_loaded p) eqn:Hl.
    { unfold holds_library. by rewrite Hl. }
    subst handles. destruct (_ || _); [unfold holds_library; by rewrite Hl|].
    destruct (la_dlopen a) as [library|]; [|unfold holds_library; by rewrite Hl].
    specialize (Hf library eq_refl). destruct (forallb _ _); cbn [negb];
      [|unfold holds_library; rewrite Hl; by apply release_handle].
    destruct (la_init a); try (unfold holds_library; rewrite Hl; by apply release_handle).
    exists library. done.
  - assert (np_loaded (nvml_observe api now p).2 = np_loaded p /\ np_library (nvml_observe api now p).2 = np_library p) as [Hl Hb].
    { unfold nvml_observe. repeat case_match; done. }
    unfold holds_library in *. by rewrite Hl, Hb.
  - unfold nvml_teardown, holds_library in *. destruct (np_loaded p) eqn:Hl; cbn [negb]; [|by rewrite Hl].
    destruct Hh as (library & -> & -> & Hn). cbn [np_loaded]. by apply release_handle.
Qed.

(** The provider gives its library back: after any calls, destroying it leaves
    the process with the library handles it had before. *)
Theorem provider_session calls c base :
  fresh_handles calls (new_provider c, base) ->
  (nvml_teardown (fold_left (fun ph call => provider_step call ph) calls (new_provider c, base)).1
     (fold_left (fun ph call => provider_step call ph) calls (new_provider c, base)).2).2 = base.
Proof.
  intros Hf. assert (holds_library base (new_provider c, base)) as Hh by done.
  revert Hf Hh. generalize (new_provider c, base). induction calls as [|call calls IH]; intros ph Hf Hh; simpl.
  - pose proof (provider_step_holds base PC_teardown ph I Hh) as Ht. simpl in Ht. destruct ph as [p handles]. simpl in *.
    unfold nvml_teardown in *. destruct (np_loaded p) eqn:Hl; simpl in *; [exact Ht|]. exact Hh.
  - destruct Hf as [Hf1 Hf2]. apply IH; [done|]. by apply provider_step_holds.
Qed.

(** A device whose memory NVML gives as zero bytes makes the whole observation
    invalid: it is reported, and the validation of snapshots refuses it. *)
Definition zero_memory_api : NvmlApi unit :=
  mkNvmlApi (NVML_SUCCESS, 1) (fun _ => (NVML_SUCCESS, Some tt)) (fun _ => (NVML_SUCCESS, "GPU-1")) (fun _ => (NVML_SUCCESS, 0))
    (fun _ => (NVML_SUCCESS, (0, 0))) None (Some (fun _ => (NVML_SUCCESS, 0))).

Definition loaded_provider : NvmlGpuProvider := mkProvider (mkNvmlConfig "libnvidia-ml.so.1" 128) (Some 1) true 0.

Example zero_memory_rejected :
  pr_code (nvml_observe zero_memory_api 5 loaded_provider).1 = GP_kNone /\
  gv_code (gpu_validate (pr_snapshot (nvml_observe zero_memory_api 5 loaded_provider).1)) = GE_kInvalidMemoryTelemetry.
Proof. by vm_compute. Qed.

(** ** Witnesses *)

Definition example_api : NvmlApi unit :=
  mkNvmlApi (NVML_SUCCESS, 1) (fun i => if i =? 0 then (NVML_SUCCESS, Some tt) else (NVML_ERROR_NOT_FOUND, None))
    (fun _ => (NVML_SUCCESS, "GPU-0")) (fun _ => (NVML_ERROR_NOT_SUPPORTED, 0))
    (fun _ => (NVML_SUCCESS, (16, 3))) (Some (fun _ => (NVML_ERROR_FUNCTION_NOT_FOUND, 0))) (Some (fun _ => (NVML_SUCCESS, 0))).

Lemma observe_valid_witness : SnapshotOk (pr_snapshot (nvml_observe example_api 5 loaded_provider).1).
Proof.
  apply (observe_valid example_api 5 loaded_provider (nvml_observe example_api 5 loaded_provider).1
           (nvml_observe example_api 5 loaded_provider).2).
  - apply surjective_pairing.
  - reflexivity.
  - reflexivity.
  - reflexivity.
  - discriminate.
  - intros i j d1 d2 b1 b2 Hi Hj _ _ _. simpl in Hi, Hj.
    destruct (N.eqb_spec i 0) as [->|]; [|discriminate]. destruct (N.eqb_spec j 0) as [->|]; [reflexivity|discriminate].
  - discriminate.
Defined.

Lemma provider_session_witness :
  (nvml_teardown (provider_step (PC_load (mkLoader (Some 9) (fun _ => true) None NVML_SUCCESS (fun _ => None)))
    (new_provider (mkNvmlConfig "libnvidia-ml.so.1" 128), [3])).1
   (provider_step (PC_load (mkLoader (Some 9) (fun _ => true) None NVML_SUCCESS (fun _ => None)))
    (new_provider (mkNvmlConfig "libnvidia-ml.so.1" 128), [3])).2).2 = [3].
Proof.
  apply (provider_session [PC_load (mkLoader (Some 9) (fun _ => true) None NVML_SUCCESS (fun _ => None))]
    (mkNvmlConfig "libnvidia-ml.so.1" 128) [3]).
  split; [|exact I]. intros library [= <-]. apply (bool_decide_unpack _). vm_compute. exact I.
Defined.
