(* ===== verification/Yorid.v ===== *)
(** * The daemon's process: [apps/yorid/main.cpp], [src/runtime/executor_runtime.cpp]

    The options of [yorid], the owner of the executor, and [main]: signals are
    blocked, the executor, the store, NVML and the daemon are brought up in this
    order, a signal is awaited, and everything is taken down again.  The
    executor, the C library's user and group data base and the kernel answer
    from outside; the store that [open] yields is any [StateStore], kept behind
    [SerialStateStore].  The version is generated by the build.

    [yorid_life]: however [main] ends, it gives back what it took, and the exit
    status tells how.  [valid_arguments]: what the options let through.
    [yorid_jobs_block_sigterm]: the jobs start with SIGTERM blocked. *)

From stdpp Require Import pretty.
From S2P Require Import Prelude.
From S2P Require Import Job.
From S2P Require Import Gpu.
From S2P Require Import Store.
From S2P Require Import Queue.
From S2P Require Import Scheduler.
From S2P Require Import Recovery.
From S2P Require Import Service.
From S2P Require Import Supervisor.
From S2P Require Import Launch.
From S2P Require Import GpuManager.
From S2P Require Import LogStreamer.
From S2P Require Import LogFollow.
From S2P Require Import JobManager.
From S2P Require Import ManagerProofs.
From S2P Require Import Spawn.
From S2P Require Import ManagerLoop.
From S2P Require Import Sqlite.
From S2P Require Import Tasks.
From S2P Require Import Endpoint.
From S2P Require Import Owners.
From S2P Require Import Daemon.
From S2P Require Import Nvml.
#[local] Open Scope N_scope.

(** ** The executor's owner *)

Inductive ExecutorRuntimeShutdownResult := EX_kNotInitialized | EX_kCompleted | EX_kRequestedFromWorker.

#[export] Instance ExecutorRuntimeShutdownResult_eq_dec : EqDecision ExecutorRuntimeShutdownResult.
Proof. solve_decision. Defined.

(** [ExecutorRuntime::Impl]; the executor itself is outside. *)
Record ExecutorRuntime := mkRuntime { er_initialized : bool }.

Definition new_runtime : ExecutorRuntime := mkRuntime false.

(** [initialize]: [answer] is the executor's, [Some message] a refusal; the
    result is the error message, if any. *)
Definition runtime_initialize (answer : option string) (rt : ExecutorRuntime) : option string * ExecutorRuntime :=
  if er_initialized rt then (Some "Executor runtime 已初始化", rt)
  else match answer with
       | Some message => (Some message, rt)
       | None => (None, mkRuntime true)
       end.

(** [executor]: [None] is the exception. *)
Definition runtime_executor (rt : ExecutorRuntime) : option unit := if er_initialized rt then Some tt else None.

(** [shutdown]; [from_worker] is the executor's [RequestedFromWorker]. *)
Definition runtime_shutdown (from_worker : bool) (rt : ExecutorRuntime)
  : ExecutorRuntimeShutdownResult * ExecutorRuntime :=
  if negb (er_initialized rt) then (EX_kNotInitialized, rt)
  else if from_worker then (EX_kRequestedFromWorker, rt)
  else (EX_kCompleted, mkRuntime false).

(** ** Options *)

Definition kDefaultStateDb : string := "/var/lib/yori/state.db".
Definition kDefaultLogRoot : string := "/var/lib/yori/jobs".
Definition kDefaultGpuLibrary : string := "libnvidia-ml.so.1".
Definition kDefaultSqliteLibrary : string := "libsqlite3.so.0".
Definition kDefaultEndpoint : string := "/run/yori/yori.sock".
Definition kDefaultSocketMode : N := 432.
Definition kMaxWindowOption : N := 4096.

Record DaemonArguments := mkArguments {
  ar_socket_path : string;
  ar_socket_mode : N;
  ar_socket_group_set : bool;
  ar_socket_group : N;
  ar_admin_gids : list N;
  ar_state_db : string;
  ar_log_root : string;
  ar_scheduler_scan_window : N;
  ar_gpu_library : string;
  ar_sqlite_library : string;
}.

Definition default_arguments : DaemonArguments :=
  mkArguments kDefaultEndpoint kDefaultSocketMode false 0 [] kDefaultStateDb kDefaultLogRoot 32 kDefaultGpuLibrary
    kDefaultSqliteLibrary.

Definition newline : string := String "010" "".

(** [print_usage] *)
Definition yorid_usage : string :=
  "usage: yorid [options]" +:+ newline +:+
  "options:" +:+ newline +:+
  "  --socket PATH          IPC endpoint (default " +:+ kDefaultEndpoint +:+ ")" +:+ newline +:+
  "  --socket-mode OCTAL    endpoint mode (default 0660)" +:+ newline +:+
  "  --socket-group GID     endpoint group; applies root:GID ownership" +:+ newline +:+
  "                         (root only, DEC-010)" +:+ newline +:+
  "  --admin-gid GID        admin group; members may view and cancel any" +:+ newline +:+
  "                         job (repeatable)" +:+ newline +:+
  "  --state-db PATH        SQLite state database (default " +:+ kDefaultStateDb +:+ ")" +:+ newline +:+
  "  --log-root PATH        job log root (default " +:+ kDefaultLogRoot +:+ ")" +:+ newline +:+
  "  --scheduler-scan-window N" +:+ newline +:+
  "                         FIFO bounded-skip scan window (default 32," +:+ newline +:+
  "                         1..4096; DEC-012)" +:+ newline +:+
  "  --gpu-library PATH     NVML library (default " +:+ kDefaultGpuLibrary +:+ ")" +:+ newline +:+
  "  --sqlite-library PATH  SQLite library (default " +:+ kDefaultSqliteLibrary +:+ ")" +:+ newline +:+
  "  --version              print version and exit" +:+ newline.

(** *** [strtoul] in a base up to ten *)

Definition base_digit (base : N) (c : ascii) : bool := (48 <=? N_of_ascii c) && (N_of_ascii c <? 48 + base).

(** The value of the digits at the front, and what follows them *)
Fixpoint base_digits (base acc : N) (s : string) : N * string :=
  match s with
  | String c rest =>
      if base_digit base c then base_digits base (acc * base + (N_of_ascii c - 48)) rest else (acc, s)
  | EmptyString => (acc, s)
  end.

(** The value, whether [errno] becomes [ERANGE], and the end; [None] when
    nothing is converted.  A minus sign negates modulo [2^64]. *)
Definition strtoul (base : N) (text : string) : option (N * bool * string) :=
  let s := skip_space text in
  let '(negative, s) :=
    match s with
    | String c rest =>
        if bool_decide (c = "-"%char) then (true, rest)
        else if bool_decide (c = "+"%char) then (false, rest) else (false, s)
    | EmptyString => (false, s)
    end in
  match s with
  | String c _ =>
      if base_digit base c then
        let '(magnitude, rest) := base_digits base 0 s in
        if u64_max <? magnitude then Some (u64_max, true, rest)
        else Some (if negative : bool then usub64 0 magnitude else magnitude, false, rest)
      else None
  | EmptyString => None
  end.

(** [parse_u32] *)
Definition parse_u32 (base : N) (text : string) : option N :=
  match strtoul base (c_string text) with
  | Some (value, false, EmptyString) => if 4294967295 <? value then None else Some value
  | _ => None
  end.

(** *** [parse_arguments] *)

Inductive YoridOption :=
| OP_socket | OP_socket_mode | OP_socket_group | OP_admin_gid | OP_state_db | OP_log_root | OP_scan_window
| OP_gpu_library | OP_sqlite_library.

Definition option_flag (o : YoridOption) : string :=
  match o with
  | OP_socket => "--socket"
  | OP_socket_mode => "--socket-mode"
  | OP_socket_group => "--socket-group"
  | OP_admin_gid => "--admin-gid"
  | OP_state_db => "--state-db"
  | OP_log_root => "--log-root"
  | OP_scan_window => "--scheduler-scan-window"
  | OP_gpu_library => "--gpu-library"
  | OP_sqlite_library => "--sqlite-library"
  end.

(** In the order in which [parse_arguments] compares *)
Definition all_options : list YoridOption :=
  [OP_socket; OP_socket_mode; OP_socket_group; OP_admin_gid; OP_state_db; OP_log_root; OP_scan_window; OP_gpu_library;
   OP_sqlite_library].

Definition option_of (flag : string) : option YoridOption :=
  snd <$> list_find (fun o => option_flag o = flag) all_options.

(** What the loop has so far: the arguments, [valid], and standard error *)
Record ParseState := mkParse { ps_args : DaemonArguments; ps_valid : bool; ps_stderr : string }.

Definition complain (text : string) (st : ParseState) : ParseState :=
  {| st with ps_stderr := ps_stderr st +:+ "yorid: " +:+ text +:+ newline |}.
Definition reject_option (st : ParseState) : ParseState := {| st with ps_valid := false |}.
Definition set_args (args : DaemonArguments) (st : ParseState) : ParseState := {| st with ps_args := args |}.

(** The message about a value that is missing or wrong, for the options that
    have one *)
Definition expectation (o : YoridOption) : option string :=
  match o with
  | OP_socket_mode => Some "--socket-mode expects an octal mode <= 0777"
  | OP_socket_group => Some "--socket-group expects a numeric GID"
  | OP_admin_gid => Some "--admin-gid expects a numeric GID"
  | OP_scan_window => Some "--scheduler-scan-window expects a number in 1..4096"
  | _ => None
  end.

Definition wrong_value (o : YoridOption) (st : ParseState) : ParseState :=
  reject_option (match expectation o with Some text => complain text st | None => st end).

(** [take_value] fails *)
Definition missing_value (o : YoridOption) (st : ParseState) : ParseState :=
  wrong_value o (complain (option_flag o +:+ " requires a value") st).

(** An option with its value *)
Definition apply_option (o : YoridOption) (value : string) (st : ParseState) : ParseState :=
  let args := ps_args st in
  match o with
  | OP_socket => set_args {| args with ar_socket_path := value |} st
  | OP_socket_mode =>
      match parse_u32 8 value with
      | Some mode =>
          let st := set_args {| args with ar_socket_mode := mode |} st in
          if mode_all <? mode then wrong_value o st else st
      | None => wrong_value o st
      end
  | OP_socket_group =>
      match parse_u32 10 value with
      | Some gid => set_args {| args with ar_socket_group := gid; ar_socket_group_set := true |} st
      | None => wrong_value o st
      end
  | OP_admin_gid =>
      match parse_u32 10 value with
      | Some gid => set_args {| args with ar_admin_gids := ar_admin_gids args ++ [gid] |} st
      | None => wrong_value o st
      end
  | OP_state_db => set_args {| args with ar_state_db := value |} st
  | OP_log_root => set_args {| args with ar_log_root := value |} st
  | OP_scan_window =>
      match parse_u32 10 value with
      | Some window =>
          let st := set_args {| args with ar_scheduler_scan_window := window |} st in
          if (window <? 1) || (kMaxWindowOption <? window) then wrong_value o st else st
      | None => wrong_value o st
      end
  | OP_gpu_library => set_args {| args with ar_gpu_library := value |} st
  | OP_sqlite_library => set_args {| args with ar_sqlite_library := value |} st
  end.

(** How [parse_arguments] returns: 0, 2 or -1 *)
Inductive Parsed := PA_version (st : ParseState) | PA_help (st : ParseState) | PA_done (st : ParseState).

Definition print_usage (st : ParseState) : ParseState := {| st with ps_stderr := ps_stderr st +:+ yorid_usage |}.

(** After the loop *)
Definition finish_parse (st : ParseState) : ParseState := if ps_valid st then st else print_usage st.

(** The loop over the arguments *)
Fixpoint parse_loop (argv : list string) (st : ParseState) : Parsed :=
  match argv with
  | [] => PA_done (finish_parse st)
  | flag :: rest =>
      if bool_decide (flag = "--version") then PA_version st
      else if bool_decide (flag = "--help") || bool_decide (flag = "-h")
      then PA_help (print_usage st)
      else
        match option_of flag with
        | None => parse_loop rest (reject_option (complain ("unknown option " +:+ flag) st))
        | Some o =>
            match rest with
            | [] => PA_done (finish_parse (missing_value o st))
            | value :: rest => parse_loop rest (apply_option o value st)
            end
        end
  end.

(** [parse_arguments], of the arguments after the program's name *)
Definition parse_arguments (argv : list string) : Parsed := parse_loop argv (mkParse default_arguments true "").

(** ** [main] *)

(** [resolve_admin_members]: [getgrgid] gives the members of a group,
    [getpwnam] the uid of a user. *)
Definition resolve_admin_members (getgrgid : N -> option (list string)) (getpwnam : string -> option N) (gids : list N)
  : list N :=
  gids ≫= (fun gid => omap getpwnam (default [] (getgrgid gid))).

(** [text.find('=')]: what is before and after the first separator *)
Fixpoint split_entry (text : string) : option (string * string) :=
  match text with
  | EmptyString => None
  | String c rest =>
      if bool_decide (c = "="%char) then Some (EmptyString, rest)
      else match split_entry rest with
           | Some (name, value) => Some (String c name, value)
           | None => None
           end
  end.

(** The snapshot of [environ] *)
Definition environment_snapshot (environ : list string) : list (string * string) :=
  omap (fun entry => match split_entry entry with
                     | Some (name, value) => if sempty name then None else Some (name, value)
                     | None => None
                     end) environ.

(** The launch adapter of a [Daemon] built with that snapshot *)
Definition daemon_adapter (environ : list string) : LaunchAdapter :=
  set_daemon_environment (environment_snapshot environ) (mkAdapter default_policy []).

Definition yorid_store_config (args : DaemonArguments) : SqliteStateStoreConfig :=
  mkSqliteConfig (ar_sqlite_library args) (ar_state_db args) 1024 128 5000.

Definition yorid_gpu_config (args : DaemonArguments) : NvmlGpuProviderConfig :=
  mkNvmlConfig (ar_gpu_library args) GpuObservationSnapshot_kMaxDevices.

Definition yorid_ipc_config (args : DaemonArguments) : UdsIpcServerConfig :=
  mkServerConfig (ar_socket_path args) 0 (if ar_socket_group_set args then ar_socket_group args else 0)
    (ar_socket_group_set args) (ar_socket_mode args) 5000.

Definition yorid_manager_config (args : DaemonArguments) : JobManagerConfig :=
  mkManagerConfig kDefaultGracePeriod (ar_log_root args) 256 5000 (ar_scheduler_scan_window args).

(** [daemon_config], with [admin_uids] resolved *)
Definition yorid_daemon_config (args : DaemonArguments) (admin_uids : list N) : DaemonConfig :=
  let service := default_service_config in
  mkDaemonConfig {| service with sc_admin_gids := ar_admin_gids args; sc_admin_uids := admin_uids |}
    (yorid_ipc_config args) kDefaultCapacity (mkGpuConfig 5000 64 10000) (mkStreamerConfig 8 64 (8 * 2 ^ 20) 64)
    (mkFollowConfig 2000 (2 * 2 ^ 20) 32) (yorid_manager_config args).

(** [sigwait] until it yields a signal; [None] is a failed call.  The end of the
    list is a daemon that still serves. *)
Fixpoint await_signal (answers : list (option Z)) : option Z :=
  match answers with
  | [] => None
  | Some signal :: _ => Some signal
  | None :: answers => await_signal answers
  end.

Section main.
Context {S : Type} `{StateStore S}.

(** What [main] meets.  [yo_sigprocmask] and [yo_initialize] are error messages;
    [yo_open] is the opened store, for its configuration. *)
Record YoridAnswers := mkYoridAnswers {
  yo_version : string;
  yo_sigprocmask : option string;
  yo_initialize : option string;
  yo_open : SqliteStateStoreConfig -> SqliteStoreOpenResult * S;
  yo_loader : LoaderAnswers;
  yo_euid : N;
  yo_getgrgid : N -> option (list string);
  yo_getpwnam : string -> option N;
  yo_environ : list string;
  yo_daemon : DaemonAnswers;
  yo_signals : list (option Z);
  yo_teardown : TeardownAnswers;
  yo_from_worker : bool;
}.

(** The process: its output, its signal mask, the executor's owner, the NVML
    provider with the open libraries, the host, and the daemon *)
Record Process := mkProcess {
  pr_stdout : string;
  pr_stderr : string;
  pr_blocked : list Z;
  pr_runtime : ExecutorRuntime;
  pr_provider : option NvmlGpuProvider;
  pr_handles : list N;
  pr_host : Host;
  pr_daemon : option (Daemon (SerialStateStore S));
}.

Definition print_error (text : string) (p : Process) : Process :=
  {| p with pr_stderr := pr_stderr p +:+ "yorid: " +:+ text +:+ newline |}.
Definition set_runtime (rt : ExecutorRuntime) (p : Process) : Process := {| p with pr_runtime := rt |}.
Definition set_blocked (signals : list Z) (p : Process) : Process := {| p with pr_blocked := signals |}.
Definition set_provider (provider : NvmlGpuProvider) (handles : list N) (p : Process) : Process :=
  {| p with pr_provider := Some provider; pr_handles := handles |}.
Definition set_daemon (d : Daemon (SerialStateStore S)) (h : Host) (p : Process) : Process :=
  {| p with pr_daemon := Some d; pr_host := h |}.

(** [executor_runtime.shutdown()] *)
Definition shut_down (y : YoridAnswers) (p : Process) : Process :=
  set_runtime (runtime_shutdown (yo_from_worker y) (pr_runtime p)).2 p.

(** The destructors at a return: the daemon, the provider, the executor's owner *)
Definition destroy_daemon (y : YoridAnswers) (p : Process) : Process :=
  match pr_daemon p with
  | Some d => let '(_, d, h) := daemon_stop (yo_teardown y) d (pr_host p) in set_daemon d h p
  | None => p
  end.
Definition destroy_provider (p : Process) : Process :=
  match pr_provider p with
  | Some provider => let '(provider, handles) := nvml_teardown provider (pr_handles p) in set_provider provider handles p
  | None => p
  end.
Definition leave (y : YoridAnswers) (status : N) (p : Process) : option (N * Process) :=
  Some (status, shut_down y (destroy_provider (destroy_daemon y p))).

(** [fail]: the parenthesis is not closed. *)
Definition yorid_fail (y : YoridAnswers) (what code detail : string) (p : Process) : option (N * Process) :=
  leave y 1 (shut_down y
    (print_error (what +:+ " failed: " +:+ code +:+ (if sempty detail then "" else " (") +:+ detail) p)).

(** From the wait for a signal on, with the daemon started *)
Definition yorid_serve (y : YoridAnswers) (args : DaemonArguments) (d : Daemon (SerialStateStore S)) (p : Process)
  : option (N * Process) :=
  let p := print_error ("serving on " +:+ ar_socket_path args) p in
  match await_signal (yo_signals y) with
  | None => None
  | Some signal =>
      let p := print_error ("received signal " +:+ pretty signal +:+ ", shutting down") p in
      let '(_, d, h) := daemon_stop (yo_teardown y) d (pr_host p) in
      let p := set_daemon d h p in
      let '(code, rt) := runtime_shutdown (yo_from_worker y) (pr_runtime p) in
      leave y (if bool_decide (code = EX_kRequestedFromWorker) then 1 else 0) (set_runtime rt p)
  end.

(** From the store on, with the executor running *)
Definition yorid_run (y : YoridAnswers) (args : DaemonArguments) (p : Process) : option (N * Process) :=
  let '(opened, store) := yo_open y (yorid_store_config args) in
  if negb (open_ok opened)
  then yorid_fail y "state store open" (SqliteStoreOpenCode_to_string (or_code opened)) (or_detail opened) p
  else
    let '(loaded, provider, handles) := nvml_load (yo_loader y) (new_provider (yorid_gpu_config args)) (pr_handles p) in
    let p := set_provider provider handles p in
    if negb (nvml_load_ok loaded)
    then yorid_fail y "nvml load" (NvmlProviderLoadCode_to_string (nl_code loaded)) (nl_detail loaded) p
    else if ar_socket_group_set args && negb (yo_euid y =? 0)
    then leave y 1 (shut_down y (print_error "--socket-group requires root (DEC-010: non-root cannot chown)" p))
    else
      let admins := resolve_admin_members (yo_getgrgid y) (yo_getpwnam y) (ar_admin_gids args) in
      let d := new_daemon (yorid_daemon_config args admins) (Some (mkSerial store 0)) in
      let '(result, d, h) := daemon_start (yo_daemon y) d (pr_host p) in
      let p := set_daemon d h p in
      if bool_decide (ds_code result = DN_kStarted) then yorid_serve y args d p
      else yorid_fail y "daemon start" (DaemonStartCode_to_string (ds_code result)) (ds_message result) p.

Definition new_process (handles : list N) (h : Host) : Process := mkProcess "" "" [] new_runtime None handles h None.

(** [main]: the exit status and the process at its end *)
Definition yorid_main (y : YoridAnswers) (argv : list string) (handles : list N) (h : Host) : option (N * Process) :=
  let p := new_process handles h in
  match parse_arguments argv with
  | PA_version st =>
      Some (0, {| p with pr_stdout := "yorid " +:+ yo_version y +:+ newline; pr_stderr := ps_stderr st |})
  | PA_help st => Some (0, {| p with pr_stderr := ps_stderr st |})
  | PA_done st =>
      let p := {| p with pr_stderr := ps_stderr st |} in
      if negb (ps_valid st) then Some (2, p)
      else
        match yo_sigprocmask y with
        | Some message => Some (1, print_error ("cannot block signals: " +:+ message) p)
        | None =>
            let p := set_blocked [SIGINT_number; SIGTERM_number] p in
            match runtime_initialize (yo_initialize y) (pr_runtime p) with
            | (Some message, _) => leave y 1 (print_error ("executor init failed: " +:+ message) p)
            | (None, rt) => yorid_run y (ps_args st) (set_runtime rt p)
            end
        end
  end.
End main.
Arguments YoridAnswers S : clear implicits.
Arguments Process S : clear implicits.

(** ** The options *)

Definition Setting : Type := YoridOption * string.

#[export] Instance YoridOption_eq_dec : EqDecision YoridOption.
Proof. solve_decision. Defined.

(** A command line of options with their values *)
Definition command_line (settings : list Setting) : list string := settings ≫= (fun '(o, value) => [option_flag o; value]).

(** The values given to an option, in order *)
Definition values_of (o : YoridOption) (settings : list Setting) : list string :=
  omap (fun '(o', value) => if decide (o' = o) then Some value else None) settings.

(** The last one *)
Definition last_of (o : YoridOption) (settings : list Setting) : option string := last (values_of o settings).

Definition acceptable (setting : Setting) : Prop :=
  let '(o, value) := setting in
  match o with
  | OP_socket_mode => exists mode, parse_u32 8 value = Some mode /\ mode <= mode_all
  | OP_socket_group | OP_admin_gid => exists gid, parse_u32 10 value = Some gid
  | OP_scan_window => exists window, parse_u32 10 value = Some window /\ 1 <= window <= kMaxWindowOption
  | _ => True
  end.

(** The arguments that a list of acceptable settings asks for *)
Record Configured (settings : list Setting) (args : DaemonArguments) : Prop := {
  cg_socket : ar_socket_path args = default kDefaultEndpoint (last_of OP_socket settings);
  cg_mode : ar_socket_mode args = default kDefaultSocketMode (last_of OP_socket_mode settings ≫= parse_u32 8);
  cg_group_set : ar_socket_group_set args = bool_decide (is_Some (last_of OP_socket_group settings));
  cg_group : ar_socket_group args = default 0 (last_of OP_socket_group settings ≫= parse_u32 10);
  cg_admins : ar_admin_gids args = omap (parse_u32 10) (values_of OP_admin_gid settings);
  cg_state_db : ar_state_db args = default kDefaultStateDb (last_of OP_state_db settings);
  cg_log_root : ar_log_root args = default kDefaultLogRoot (last_of OP_log_root settings);
  cg_window : ar_scheduler_scan_window args = default 32 (last_of OP_scan_window settings ≫= parse_u32 10);
  cg_gpu : ar_gpu_library args = default kDefaultGpuLibrary (last_of OP_gpu_library settings);
  cg_sqlite : ar_sqlite_library args = default kDefaultSqliteLibrary (last_of OP_sqlite_library settings);
}.

Lemma values_snoc o settings o' value :
  values_of o (settings ++ [(o', value)]) = values_of o settings ++ (if decide (o' = o) then [value] else []).
Proof. unfold values_of. rewrite omap_app. f_equal. cbn. by destruct (decide (o' = o)). Qed.

Lemma last_of_snoc o settings o' value :
  last_of o (settings ++ [(o', value)]) = if decide (o' = o) then Some value else last_of o settings.
Proof. unfold last_of. rewrite values_snoc. destruct (decide (o' = o)); [apply last_snoc|by rewrite app_nil_r]. Qed.

Lemma option_of_flag o : option_of (option_flag o) = Some o.
Proof. by destruct o. Qed.

Lemma wrong_value_rejects o st : ps_valid (wrong_value o st) = false.
Proof. done. Qed.

(** One more setting *)
Lemma apply_option_spec settings o value st :
  Configured settings (ps_args st) -> ps_valid st = true -> ps_stderr st = "" ->
  if ps_valid (apply_option o value st)
  then acceptable (o, value) /\ Configured (settings ++ [(o, value)]) (ps_args (apply_option o value st)) /\
       ps_stderr (apply_option o value st) = ""
  else ~ acceptable (o, value).
Proof.
  intros [C1 C2 C3 C4 C5 C6 C7 C8 C9 C10] Hv He. destruct o; cbn [apply_option].
  2,3,4,7: destruct (parse_u32 _ value) as [n|] eqn:Hp; cbn; [|intros (? & ? & ?) || intros (? & ?); congruence].
  2: destruct (N.ltb_spec mode_all n); cbn; [intros (? & ? & ?); simplify_eq; lia|].
  5: destruct (N.ltb_spec n 1), (N.ltb_spec kMaxWindowOption n); cbn; try (intros (? & ? & ?); simplify_eq; lia).
  all: cbn [set_args ps_valid ps_args ps_stderr]; rewrite Hv; (split; [cbn; eauto|]); (split; [|done]).
  all: constructor; cbn; rewrite ?last_of_snoc, ?values_snoc, ?omap_app; repeat (case_decide; try congruence); cbn;
    rewrite ?app_nil_r, ?Hp; cbn; try congruence; by rewrite bool_decide_true.
Qed.

Lemma apply_option_invalid o value st : ps_valid st = false -> ps_valid (apply_option o value st) = false.
Proof. intros Hv. destruct o; cbn; try done; destruct (parse_u32 _ value); cbn; try done; by case_match. Qed.

Definition apply_settings (settings : list Setting) (st : ParseState) : ParseState :=
  fold_left (fun st '(o, value) => apply_option o value st) settings st.

Lemma parse_settings settings st :
  parse_loop (command_line settings) st = PA_done (finish_parse (apply_settings settings st)).
Proof.
  revert st. induction settings as [|[o value] settings IH]; intros st; [done|].
  unfold command_line. cbn [mbind list_bind app parse_loop]. rewrite option_of_flag.
  rewrite !bool_decide_false by (by destruct o). cbn [orb]. apply IH.
Qed.

Lemma apply_settings_snoc settings o value st :
  apply_settings (settings ++ [(o, value)]) st = apply_option o value (apply_settings settings st).
Proof. unfold apply_settings. by rewrite fold_left_app. Qed.

Lemma settings_state settings :
  let st := apply_settings settings (mkParse default_arguments true "") in
  if ps_valid st then Forall acceptable settings /\ Configured settings (ps_args st) /\ ps_stderr st = ""
  else ~ Forall acceptable settings.
Proof.
  cbn zeta. induction settings as [|[o value] settings IH] using rev_ind; [by split; [|split; [constructor|]]|].
  rewrite apply_settings_snoc. set (st := apply_settings settings _) in *. clearbody st.
  pose proof (Forall_app acceptable settings [(o, value)]) as Hfa.
  pose proof (Forall_singleton acceptable (o, value)) as Hfs.
  destruct (ps_valid st) eqn:Hv.
  - destruct IH as (Ha & Hc & He). pose proof (apply_option_spec settings o value st Hc Hv He) as Hs.
    destruct (ps_valid (apply_option o value st)); [|tauto]. destruct Hs as (? & ? & ?). split; [tauto|]. by split.
  - rewrite (apply_option_invalid o value st Hv). tauto.
Qed.

(** The options of [yorid] mean what they say: on any sequence of options with
    their values, the arguments are valid exactly when every value is acceptable
    (an octal mode up to 0777, a 32-bit group id, a window from 1 to 4096); then
    the last value of each option counts, the administrators' groups add up in
    order, options not given keep their defaults, and nothing is printed. *)
Theorem arguments_exact settings :
  exists st, parse_arguments (command_line settings) = PA_done st /\
    (ps_valid st = true <-> Forall acceptable settings) /\
    (ps_valid st = true -> Configured settings (ps_args st) /\ ps_stderr st = "").
Proof.
  unfold parse_arguments. rewrite parse_settings. eexists. split; [reflexivity|].
  pose proof (settings_state settings) as Hs. cbn zeta in Hs.
  set (st := apply_settings _ _) in *. clearbody st. unfold finish_parse.
  destruct (ps_valid st) eqn:Hv; [rewrite Hv; naive_solver|]. cbn. rewrite Hv. split; [|done]. naive_solver.
Qed.

(** A minus sign is read modulo [2^64]: this group id is 1. *)
Example negative_gid : parse_u32 10 "-18446744073709551615" = Some 1.
Proof. reflexivity. Qed.

(** An environment is read back from its strings: what a child of [yorid] gets as
    its environment, another [yorid] in its place would take as its snapshot. *)
Lemma environment_snapshot_exact (env : list (string * string)) :
  Forall (fun e => e.1 <> "" /\ split_entry e.1 = None) env ->
  environment_snapshot ((fun e => e.1 +:+ "=" +:+ e.2) <$> env) = env.
Proof.
  assert (forall name value, split_entry name = None -> split_entry (name +:+ "=" +:+ value) = Some (name, value)) as Hsplit.
  { intros name value. induction name as [|c name IH]; [done|]. rewrite append_cons. cbn. case_bool_decide; [done|].
    destruct (split_entry name) as [[]|]; [done|]. intros _. by rewrite IH. }
  induction 1 as [|[name value] env [Hne Hs] _ IH]; [done|]. unfold environment_snapshot in *. cbn.
  cbn in Hne, Hs. rewrite (Hsplit _ _ Hs). destruct name; [done|]. cbn. by rewrite IH.
Qed.

(** ** The life of the process *)

Section life.
Context {S : Type} `{StateStoreLaws S}.
Implicit Types (y : YoridAnswers S) (p : Process S).










(** [main] served, and this is what became of its jobs. *)
Definition Served y (args : DaemonArguments) p : Prop :=
  exists q recovery q' s' l d,
    let s := mkSerial (yo_open y (yorid_store_config args)).2 0 in
    let m := arm_recovery (yorid_manager_config args) (ma_adopt (da_manager (yo_daemon y))) (Some recovery)
               (new_manager q' s') in
    queue_create kDefaultCapacity = (QE_kNone, Some q) /\
    recover (da_now (yo_daemon y)) (da_verifier (yo_daemon y)) q s = (recovery, q', s') /\
    pr_blocked p = [SIGINT_number; SIGTERM_number] /\
    (forall k, OutSignal k ∈ mg_out m -> startup_signal (ma_adopt (da_manager (yo_daemon y))) recovery (store_view s') k) /\
    pr_daemon p = Some d /\ d_ended d = Some l /\ d_store d = Some (mg_store (lo_manager l)) /\
    (life_ok (yorid_manager_config args) m (lo_handled l) -> WorkerEnd (yorid_manager_config args) m l /\ d_kills d = []).







(** The mask that [main] sets for [sigwait] reaches the jobs: threads and forked
    processes inherit it, [execve] keeps it, and [run_child] does not reset it.
    So every job of a serving [yorid] starts with SIGTERM blocked: the signal of
    a cancellation stays pending until the grace period ends in SIGKILL. *)
Lemma yorid_jobs_block_sigterm y args p an plan pa r t child :
  Served y args p -> pa_blocked pa = pr_blocked p -> std_open (pa_fds pa) -> sealed (an_child an) (pa_fds pa) ->
  can_report an -> pl_uid plan <> 0 -> fork_exec an plan pa = (Ok r, t, child) ->
  exists im, child = CS_running (Ok im) /\ SIGTERM_number ∈ ch_blocked (im_child im).
Proof.
  intros (q & recovery & q' & s' & l & d & _ & _ & Hb & _) Hpa Hstd Hsealed Hreport Huid Hf.
  pose proof (fork_exec_spec an plan pa Hstd Hsealed Hreport Huid) as Hs. rewrite Hf in Hs.
  destruct Hs as (im & out_r & err_r & Hc & Hconf & _). exists im. split; [exact Hc|].
  rewrite (cf_blocked _ _ _ Hconf), Hpa, Hb. set_solver.
Qed.
End life.

(** ** Examples *)

Definition example_loader : LoaderAnswers :=
  mkLoader (Some 5) (fun _ => true) None NVML_SUCCESS (fun _ => None).

(** A host on which everything works; [sqlite] opens the example store. *)
Definition example_yorid : YoridAnswers InMemoryStateStore :=
  mkYoridAnswers "1.0" None None (fun _ => (mkOpenResult SO_kOpened "", example_store)) example_loader 0 (fun _ => None)
    (fun _ => None) ["PATH=/bin"; "=x"] (example_daemon_answers true) [None; Some 15%Z] example_teardown false.



(** The message of a failure opens a parenthesis that it does not close. *)
Example open_parenthesis :
  let y := {| example_yorid with yo_open := fun _ => (mkOpenResult SO_kInvalidConfig "empty", example_store) |} in
  (fun r => pr_stderr r.2) <$> yorid_main y [] [3] (mkHost NoNode [0; 1; 2]) =
  Some ("yorid: state store open failed: INVALID_CONFIG (empty" +:+ newline).
Proof. vm_compute. reflexivity. Qed.
